(* ===== verification/_CoqProject ===== *)
-Q . S2P
Prelude.v
Crypto.v
Wire.v
Binary.v
Messages.v
Bloom.v
WireFormat.v
GoHeap.v
PacketQueue.v
QueueClient.v
RouterState.v
RouterTree.v
RouterCost.v
RouterLookup.v
Blooms.v
Pathfinder.v
Router.v
RouterInv.v
RouterAnnounce.v
Frames.v
BloomTree.v
PathSafety.v
Greedy.v
Core.v
Peers.v
Link.v
Reading.v
Delivery.v
Connection.v
PacketConn.v
PacketConnSafety.v
E2c.v
Box.v
SessionInit.v
Session.v
SessionManager.v
SessionSteps.v
SessionInv.v
SessionSafety.v
FirstContact.v
Address.v
AddressBits.v
AddressSafety.v
Version.v
VersionSafety.v
Handshake.v
HandshakeSafety.v
LinkOptions.v
Links.v
LinksInv.v
LinksSafety.v
KeyStore.v
KeyStoreSafety.v
KeyStoreLive.v
EncConn.v
Multicast.v
MulticastSafety.v
Proto.v
ProtoSafety.v
Listeners.v
GoStr.v
WebUI.v
Carriers.v
Hysteria.v
Dialers.v
ConfigFile.v
Tun.v
TunSafety.v
Api.v
Admin.v
AdminSafety.v
Remote.v
Metrics.v
Ctl.v
Start.v
Main.v
Mobile.v
Genkeys.v
