(* ===== verification/Prelude.v ===== *)
(** * Verification of yggdrasil-go

    A node of this overlay network routes packets between Ed25519 public keys over
    links to other nodes, without tables of destinations: nodes build a spanning
    tree, a packet travels along tree coordinates, and the coordinates of a key are
    found by a lookup that Bloom filters steer. On top of that there are encrypted
    sessions, IPv6 addresses made from keys, and the management of links. This
    library models these parts, as functions and step relations that can be run,
    and proves what they promise. Paths below are under [src/].

    ** How the parts interact

    A frame that arrives on a link ([peers.go]) is decoded ([wire.go] and the
    message files) and handed to the router's actor ([router.go]), which owns the
    tree, the Bloom filters ([bloomfilter.go]) and the paths ([pathfinder.go]); it
    queues frames on links ([packetqueue.go]) or gives packets for this node to the
    packet interface ([packetconn.go]). The encrypted interface
    ([ironwood/encrypted]) reads that one, decrypts with the session of the sender
    and hands data to its own readers; the core ([src/core]) frames IPv6 packets and
    protocol messages in that data, and [src/ipv6rwc] chooses keys by address. Links
    come from configured peers, from listeners ([src/core/link.go]) and from beacons
    on the local network ([src/multicast]); each starts with a handshake
    ([src/core/version.go]) before [HandleConn] runs. The program makes all of this
    from a configuration ([src/config]), and the TUN adapter ([src/tun]), the admin
    socket ([src/admin]) and the web interface ([src/webui]) are its ends.

    ** How the code is modelled

    Machine integers are [Z] with their wrap-around written out ([u64], [u16]);
    bytes are [Byte.byte]; key arrays are vectors of fixed length; Go maps are
    [gmap], and where the order of an iteration shows, it is that of an unknown
    permutation ([MapOrder]). A handler of an actor is a function in the monad
    [Act]: from a state to a result, a new state and the effects in order (frames
    queued, timers set, callbacks run), or [None] for a panic; [wp] and its rules
    state what a handler does. Where goroutines interleave there is an event or a
    step relation per atomic step: the steps of actors, the stages of blocked calls,
    timers that have fired but not run. Pointers that are compared or shared are
    numbers into a heap, so that aliases and stale timers are kept. The decoders of
    the network layer return a remainder or an error, and a slice or an index out
    of range is a panic in them, not a default; elsewhere a slice is plain where the
    test of the length comes right before it.

    ** The network layer, [ironwood/network]

    - [Prelude], [Crypto], [Binary]: monads, bytes, integers; keys, signatures over
      an abstract [Ed25519].
    - [Wire], [Messages], [WireFormat] ([wire.go] and the message types): every
      message decodes to what was encoded, whatever follows it; no input makes a
      decoder panic; signed bytes determine what was signed.
    - [Bloom], [Blooms], [BloomTree] ([bloomfilter.go]): filters, their wire format,
      and multicast: a lookup goes exactly to the tree neighbours whose filter
      matches, once, and the filters sent cover everything behind a link.
    - [GoHeap], [PacketQueue], [QueueClient] ([packetqueue.go]): the queue refines a
      list of packets; its clients use the interface of [QueueClient].
    - [RouterState], [RouterTree], [RouterCost], [RouterLookup], [Pathfinder],
      [Router], [Frames] ([router.go], [pathfinder.go]): the actor's state and all of
      its handlers. [RouterInv]: the invariant, kept by every handler, and that no
      sequence of handlers panics. [RouterAnnounce]: announcements arrive in any
      order, and the winner of them is kept. [Greedy]: packets reach their destination
      unchanged in a settled tree, and whatever the nodes believe, a packet is handed
      on a bounded number of times, each time closer. [PathSafety]: a path is only believed when its
      owner signed it.
    - [Core], [Peers], [Link], [Reading], [Delivery], [Connection] ([config.go],
      [core.go], [peers.go]): the registry of peers, a connection with its reader,
      writer and keepalives; any byte stream is handled, and frames arrive as sent.
    - [PacketConn], [PacketConnSafety] ([packetconn.go], [pool.go]): reading and
      writing by key, with deadlines, several readers and closing.

    ** Sessions, [ironwood/encrypted]

    - [E2c], [Box], [SessionInit] ([crypto.go], [internal/e2c]): the conversion of
      keys and the sealed handshake messages.
    - [Session], [SessionManager] ([session.go]) with [SessionSteps], [SessionInv],
      [SessionSafety]: no message is accepted twice, no key and nonce seal twice, the
      receiving keys stay consistent; with two exceptions that are proved.
      [FirstContact]: two nodes that have never met deliver the first message.
    - [EncConn] ([network.go], [packetconn.go]): the read loop and
      the channel to the readers as a queue, up to what [ReadFrom] returns; a single
      reader is told when all is closed.

    ** The node, [src]

    - [Address], [AddressBits], [AddressSafety] ([address.go]): what can be read back
      of a key from its address, and that lookups by it hit the filters of its owner.
    - [Version], [VersionSafety] ([core/version.go]), [Handshake], [HandshakeSafety]
      ([core/link.go], [core/options.go]): the handshake message and who is admitted.
    - [LinkOptions], [Links], [LinksInv], [LinksSafety] ([core/link.go]): the options
      of a peering URI, the table of links, dialling with backoff: a configured link
      is tried again after a bounded time.
    - [KeyStore], [KeyStoreSafety], [KeyStoreLive] ([ipv6rwc]):
      addresses are authentic in both directions, and the first packet to an unknown
      address waits for its key and arrives, unless a forged packet replaces it.
    - [Multicast], [MulticastSafety] ([multicast]): from a beacon to the call of its
      sender, at its address and port.
    - [Proto], [ProtoSafety] ([core/proto.go], [core/nodeinfo.go]): questions to other
      nodes, their answers and callbacks.
    - [Listeners] ([core/link.go]): the table of listeners holds
      exactly those that run.
    - [Carriers], [Dialers], [Hysteria] ([core/link_*.go]): what the carriers decide: which addresses
      are dialled, from which source, under which name, with which parameters.
    - [Tun], [TunSafety] ([tun]): the start of the adapter; the MTU fits through every
      layer below it, and packets keep their order through the shared buffers.
    - [GoStr], [WebUI] ([webui]): no page without a login, and addresses
      that are blocked after failures.
    - [ConfigFile] ([config]): the defaults, reading, showing and
      saving a configuration, and the paths that are accepted for it.
    - [Api], [Admin], [AdminSafety], [Remote] ([core/api.go], [admin], the debug views):
      what a node tells about itself, the commands of the admin socket with what each
      answers, their connections, the commands that ask other nodes.
    - [Metrics] ([metrics]): the samples for a state of the node, and
      when the page is shown.

    ** The programs

    - [Start] ([core.New]), [Main] ([cmd/yggdrasil]): the
      node that is started is the one of the configuration. What the flags ask for,
      and the order of the shutdown.
    - [Mobile] ([contrib/mobile]): the library for phones.
    - [Ctl] ([cmd/yggdrasilctl]): endpoint, request, table of peers, exit
      status.
    - [Genkeys] ([cmd/genkeys], [contrib/ansible]): the key printed
      last is the best one, and better keys have higher addresses.

    ** Bounds and fuel

    Loops that are not structural have fuel that is shown or chosen to be enough:
    the walks along the tree take one more than the number of known nodes, and the
    invariant keeps the tree acyclic; varints take ten rounds, paths, fields and
    frames one more than the bytes that are left, where a path that ran out of
    rounds would count as a panic; the search for a free port one
    more than the ports in use; the recursion of traffic through the pathfinder
    two, since a packet that was turned back is not turned back again; the extended
    Euclidean algorithm modulo 2^255 - 19 takes 600 rounds, more than twice the bits
    of the modulus. In [FirstContact] the number of steps is existential: a schedule
    that delivers is exhibited.

    ** Parameters

    Code that is not in the repository is a class: [Ed25519], [NaclBox], [Sha512],
    [Blake2b], [BloomHash] (murmur3), [Icmp], [GoStrings] and [NetStrings] (URLs,
    addresses, durations), [Json], [ConfigLibs] and [ConfigCodec] (PEM, HJSON),
    [AdminLibs] and [CtlLibs] (arguments and texts of the commands), [Netlink],
    [Xray]; how a carrier opens a connection is a function. What proofs need of it are named classes or
    hypotheses of documented behaviour: signatures verify ([Ed25519Laws]) and an
    opened box is one that was sealed ([NaclBoxLaws]), both sides of a converted pair
    of keys agree ([KeysAgree]), an iteration over a map visits each key once
    ([MapOrder]). Concrete instances show that the hypotheses can hold. Key pairs
    come from a supply; randomness is assumed not to fail.

    ** Not modelled, and why

    - Sockets, TLS, QUIC, SOCKS and Xray behind the carriers, and the TUN device with
      netlink: operating system and third-party code; what they give is an argument.
      The TUN adapters of platforms other than Linux.
    - The parsers and printers of JSON, HJSON, PEM and URLs, and the HTTP servers of the
      web interface and the metrics.
    - Flags of the operating system around the programs (signals, users, log files),
      and the tables of [yggdrasilctl] that print fields one after the other.
    - Back pressure between actors, memory, and the timing of goroutines beyond the
      interleaving of their steps. *)

From Stdlib Require Export ZArith Lia.
From Stdlib Require Import Strings.Byte.
From stdpp Require Export sorting.
From stdpp Require Export base gmap sets list strings.
From stdpp Require Import countable.
From stdpp Require Export list_basics list_relations list_monad list_misc list_numbers.

#[global] Open Scope Z_scope.

Create HintDb ygg discriminated.

(** ** Bytes *)

Abbreviation byte := Corelib.Init.Byte.byte (only parsing).

#[global] Instance byte_eq_dec : EqDecision byte := Byte.byte_eq_dec.
#[global] Instance byte_countable : Countable byte :=
  inj_countable Byte.to_N Byte.of_N Byte.of_to_N.
#[global] Instance byte_inhabited : Inhabited byte := populate Byte.x00.

(** The value of a byte, between 0 and 255. *)
Definition b2z (b : byte) : Z := Z.of_N (Byte.to_N b).

(** Go's conversion [byte(x)]: the low eight bits. *)
Definition z2b (z : Z) : byte :=
  default Byte.x00 (Byte.of_N (Z.to_N (z mod 256))).

Lemma b2z_range b : 0 <= b2z b < 256.
Proof. unfold b2z. pose proof (Byte.to_N_bounded b). lia. Qed.

Lemma b2z_z2b z : b2z (z2b z) = z mod 256.
Proof.
  unfold b2z, z2b. pose proof (Z.mod_pos_bound z 256 ltac:(lia)) as Hz.
  destruct (Byte.of_N (Z.to_N (z mod 256))) as [b|] eqn:E; simpl.
  - apply Byte.to_of_N in E. rewrite E. lia.
  - apply Byte.of_N_None_iff in E. lia.
Qed.

Lemma z2b_b2z b : z2b (b2z b) = b.
Proof.
  unfold z2b, b2z. pose proof (Byte.to_N_bounded b).
  rewrite Z.mod_small by lia. by rewrite N2Z.id, Byte.of_to_N.
Qed.

Lemma b2z_inj a b : b2z a = b2z b -> a = b.
Proof. intros E. by rewrite <- (z2b_b2z a), E, z2b_b2z. Qed.

Lemma b2z_z2b_small z : 0 <= z < 256 -> b2z (z2b z) = z.
Proof. intros. rewrite b2z_z2b. by apply Z.mod_small. Qed.

(** ** Machine integers *)

(** [uint64] and [int64] arithmetic wraps around. *)
Definition u64 (z : Z) : Z := z mod 2 ^ 64.
Definition i64 (z : Z) : Z := (z + 2 ^ 63) mod 2 ^ 64 - 2 ^ 63.
Definition max_u64 : Z := 2 ^ 64 - 1.

Definition is_u64 (z : Z) : Prop := 0 <= z < 2 ^ 64.
Definition is_i64 (z : Z) : Prop := - 2 ^ 63 <= z < 2 ^ 63.
#[global] Instance is_u64_dec z : Decision (is_u64 z) := _.
#[global] Instance is_i64_dec z : Decision (is_i64 z) := _.

Lemma u64_small z : is_u64 z -> u64 z = z.
Proof. apply Z.mod_small. Qed.
Lemma u64_range z : is_u64 (u64 z).
Proof. apply Z.mod_pos_bound. lia. Qed.
Lemma i64_small z : is_i64 z -> i64 z = z.
Proof. unfold is_i64, i64. intros. rewrite Z.mod_small; lia. Qed.
Lemma i64_range z : is_i64 (i64 z).
Proof. unfold is_i64, i64. pose proof (Z.mod_pos_bound (z + 2 ^ 63) (2 ^ 64)). lia. Qed.

(** ** Fixed-size byte arrays, Go's [[n]byte] *)

Record array (n : nat) := MkArray {
  arr_list : list byte;
  arr_len : Is_true (Nat.eqb (length arr_list) n)
}.
Arguments MkArray {n} _ _.
Arguments arr_list {n} _.
Arguments arr_len {n} _.
Coercion arr_list : array >-> list.

Lemma length_array {n} (a : array n) : length a = n.
Proof. apply Nat.eqb_eq, Is_true_true, arr_len. Qed.

Lemma array_eq {n} (a b : array n) : arr_list a = arr_list b -> a = b.
Proof.
  destruct a as [l Hl], b as [l' Hl']. simpl. intros ->. f_equal. apply proof_irrel.
Qed.

Definition check_len {n} (l : list byte) : option (array n) :=
  match Nat.eqb (length l) n as b return (Is_true b -> array n) -> option (array n) with
  | true => fun k => Some (k I)
  | false => fun _ => None
  end (MkArray l).

Lemma check_len_array {n} (a : array n) : check_len a = Some a.
Proof.
  unfold check_len. destruct a as [l Hl]; simpl.
  generalize (@MkArray n l) as k. revert Hl.
  destruct (Nat.eqb (length l) n); simpl; [|done]. intros [] k. done.
Qed.

#[global] Instance array_eq_dec n : EqDecision (array n).
Proof.
  refine (fun a b => match decide (arr_list a = arr_list b) with
                     | left H => left (array_eq a b H)
                     | right H => right _ end).
  intros ->. done.
Defined.

#[global] Instance array_countable n : Countable (array n) :=
  inj_countable arr_list check_len check_len_array.

Lemma is_true_of_eq b : b = true -> Is_true b.
Proof. by intros ->. Qed.

(** The proof component is computed, so that closed arrays are closed values. *)
Definition is_true_eval (b : bool) : b = true -> Is_true b :=
  match b as b' return b' = true -> Is_true b' with
  | true => fun _ => I
  | false => fun H => is_true_of_eq false H
  end.

Lemma length_resize_eqb (n : nat) (l : list byte) :
  Nat.eqb (length (resize n Byte.x00 l)) n = true.
Proof. apply Nat.eqb_eq, length_resize. Qed.

(** Go's [copy(arr[:], l)] into a zero array: truncated or zero-padded. *)
Definition array_of (n : nat) (l : list byte) : array n :=
  MkArray (resize n Byte.x00 l) (is_true_eval _ (length_resize_eqb n l)).

Definition zero_array (n : nat) : array n := array_of n [].

#[global] Instance array_inhabited n : Inhabited (array n) := populate (zero_array n).

Lemma array_of_exact {n} (l : list byte) : length l = n -> arr_list (array_of n l) = l.
Proof. intros H. simpl. apply resize_all_alt. by rewrite H. Qed.

#[global] Arguments array_of : simpl never.

Lemma array_of_list {n} (a : array n) : array_of n a = a.
Proof. apply array_eq, array_of_exact, length_array. Qed.

(** ** Results of fallible code: a value, an error value, or a Go panic *)

Inductive outcome (E A : Type) : Type :=
| Ret (a : A)
| Fail (e : E)
| Panic.
Arguments Ret {E A} _.
Arguments Fail {E A} _.
Arguments Panic {E A}.

#[global] Instance outcome_ret E : MRet (outcome E) := fun A a => Ret a.
#[global] Instance outcome_bind E : MBind (outcome E) := fun A B f m =>
  match m with Ret a => f a | Fail e => Fail e | Panic => Panic end.

Lemma outcome_bind_ret {E A B} (a : A) (f : A -> outcome E B) : (Ret a ≫= f) = f a.
Proof. done. Qed.

(** [panic("this should never happen")] unless the test holds. *)
Definition assert_or_panic {E} (b : bool) : outcome E unit :=
  if b then Ret tt else Panic.

(** ** Actor steps

    The body of a message handled by a phony actor: it reads and writes the
    actor's state, emits effects (messages to other actors, timers, callbacks)
    in order, and may panic ([None]). *)

Definition Act (S E A : Type) : Type := S -> option (A * S * list E).

#[global] Instance act_ret S E : MRet (Act S E) := fun A a s => Some (a, s, []).
#[global] Instance act_bind S E : MBind (Act S E) := fun A B f m s =>
  match m s with
  | None => None
  | Some (a, s1, es1) =>
      match f a s1 with
      | None => None
      | Some (b, s2, es2) => Some (b, s2, es1 ++ es2)
      end
  end.

Definition act_panic {S E A} : Act S E A := fun _ => None.
Definition act_gets {S E A} (f : S -> A) : Act S E A := fun s => Some (f s, s, []).
Definition act_modify {S E} (f : S -> S) : Act S E unit := fun s => Some (tt, f s, []).
Definition act_emit {S E} (e : E) : Act S E unit := fun s => Some (tt, s, [e]).

(** [for x := range l { f x }] *)
Fixpoint act_for {S E K} (l : list K) (f : K -> Act S E unit) : Act S E unit :=
  match l with
  | [] => mret tt
  | x :: l' => f x ≫= fun _ => act_for l' f
  end.

(** [for x := range l { acc = f x acc }] *)
Fixpoint act_fold {S E K A} (l : list K) (f : K -> A -> Act S E A) (a : A) : Act S E A :=
  match l with
  | [] => mret a
  | x :: l' => f x a ≫= fun a' => act_fold l' f a'
  end.

Definition act_when {S E} (b : bool) (m : Act S E unit) : Act S E unit :=
  if b then m else mret tt.

(** Weakest precondition: the step does not panic and ends as [Q] says. *)
Definition wp {S E A} (m : Act S E A) (s : S) (Q : A -> S -> list E -> Prop) : Prop :=
  match m s with
  | None => False
  | Some (a, s', es) => Q a s' es
  end.

Section wp_rules.
Context {St Ef : Type}.
Implicit Types (s : St) (es : list Ef).

Lemma wp_ret {A} (a : A) s (Q : A -> St -> list Ef -> Prop) : Q a s [] -> wp (mret a) s Q.
Proof. done. Qed.

Lemma wp_bind {A B} (m : Act St Ef A) (f : A -> Act St Ef B) s Q :
  wp m s (fun a s1 es1 => wp (f a) s1 (fun b s2 es2 => Q b s2 (es1 ++ es2))) ->
  wp (m ≫= f) s Q.
Proof.
  unfold wp, mbind, act_bind.
  destruct (m s) as [[[a s1] es1]|]; [|done].
  by destruct (f a s1) as [[[b s2] es2]|].
Qed.

Lemma wp_mono {A} (m : Act St Ef A) s (P Q : A -> St -> list Ef -> Prop) :
  wp m s P -> (forall a s' es, P a s' es -> Q a s' es) -> wp m s Q.
Proof. unfold wp. destruct (m s) as [[[a s1] es1]|]; [auto|done]. Qed.

Lemma wp_conj {A} (m : Act St Ef A) s (P Q : A -> St -> list Ef -> Prop) :
  wp m s P -> wp m s Q -> wp m s (fun a s' es => P a s' es /\ Q a s' es).
Proof. unfold wp. destruct (m s) as [[[a s1] es1]|]; auto. Qed.

Lemma wp_gets {A} (f : St -> A) s (Q : A -> St -> list Ef -> Prop) : Q (f s) s [] -> wp (E := Ef) (act_gets f) s Q.
Proof. done. Qed.
Lemma wp_modify (f : St -> St) s (Q : unit -> St -> list Ef -> Prop) :
  Q tt (f s) [] -> wp (act_modify f) s Q.
Proof. done. Qed.
Lemma wp_emit (e : Ef) s (Q : unit -> St -> list Ef -> Prop) :
  Q tt s [e] -> wp (act_emit e) s Q.
Proof. done. Qed.

(** Loop rule: an invariant on the state and on what each iteration emits. *)
Lemma wp_for {K} (l : list K) (f : K -> Act St Ef unit) (I : St -> Prop) (P : Ef -> Prop) s :
  I s ->
  (forall x s, x ∈ l -> I s -> wp (f x) s (fun _ s' es => I s' /\ Forall P es)) ->
  wp (act_for l f) s (fun _ s' es => I s' /\ Forall P es).
Proof.
  revert s. induction l as [|x l IH]; intros s Hs Hf; simpl.
  - apply wp_ret. auto.
  - apply wp_bind. eapply wp_mono; [apply Hf; [left|done]|].
    intros _ s1 es1 [H1 H1']. eapply wp_mono; [apply IH; [done|]|].
    + intros y s' Hy. apply Hf. by right.
    + intros _ s2 es2 [? ?]. split; [done|]. by apply Forall_app.
Qed.

(** A loop whose rounds only emit. *)
Lemma act_for_emit {K} (l : list K) (f : K -> Act St Ef unit) (g : K -> list Ef) s :
  (forall k, k ∈ l -> f k s = Some (tt, s, g k)) ->
  act_for l f s = Some (tt, s, concat (map g l)).
Proof.
  induction l as [|k l IH]; intros Hf; simpl; [done|]. unfold mbind, act_bind.
  rewrite (Hf k) by left. rewrite IH; [done|]. intros k' Hk. apply Hf. by right.
Qed.

Lemma wp_fold {K A} (l : list K) (f : K -> A -> Act St Ef A) (I : A -> St -> Prop)
    (P : Ef -> Prop) a s :
  I a s ->
  (forall x a s, x ∈ l -> I a s -> wp (f x a) s (fun a' s' es => I a' s' /\ Forall P es)) ->
  wp (act_fold l f a) s (fun a' s' es => I a' s' /\ Forall P es).
Proof.
  revert a s. induction l as [|x l IH]; intros a s Hs Hf; simpl.
  - apply wp_ret. auto.
  - apply wp_bind. eapply wp_mono; [apply Hf; [left|done]|].
    intros a1 s1 es1 [H1 H1']. eapply wp_mono; [apply IH; [done|]|].
    + intros y a' s' Hy. apply Hf. by right.
    + intros a2 s2 es2 [? ?]. split; [done|]. by apply Forall_app.
Qed.
End wp_rules.

(** ** Iteration over Go maps

    [for k := range m] visits the keys in an unspecified order: the order is an
    interface, any permutation of the key set, and the theorems hold for all. *)

Class MapOrder := {
  map_order {K : Type} `{Countable K} : gset K -> list K;
  map_order_perm {K : Type} `{Countable K} (X : gset K) : map_order X ≡ₚ elements X
}.

Lemma elem_of_map_order `{MapOrder} `{Countable K} (X : gset K) x :
  x ∈ map_order X <-> x ∈ X.
Proof. by rewrite map_order_perm, elem_of_elements. Qed.

Lemma NoDup_map_order `{MapOrder} `{Countable K} (X : gset K) : NoDup (map_order X).
Proof. rewrite map_order_perm. apply NoDup_elements. Qed.

#[export] Instance trie_order : MapOrder | 10 := {|
  map_order := fun K _ _ X => elements X;
  map_order_perm := fun K _ _ X => reflexivity _
|}.

(** ** Sums and keyed lists *)

Definition sum_Z {A} (f : A -> Z) (l : list A) : Z := foldr (fun x acc => f x + acc) 0 l.

#[global] Instance sum_Z_proper {A} (f : A -> Z) : Proper ((≡ₚ) ==> (=)) (sum_Z f).
Proof. induction 1; simpl; lia. Qed.

Lemma sum_Z_cons {A} (f : A -> Z) x l : sum_Z f (x :: l) = f x + sum_Z f l.
Proof. done. Qed.

Lemma sum_Z_app {A} (f : A -> Z) l k : sum_Z f (l ++ k) = sum_Z f l + sum_Z f k.
Proof. induction l; simpl; lia. Qed.

Lemma sum_Z_nonneg {A} (f : A -> Z) l : Forall (fun x => 0 <= f x) l -> 0 <= sum_Z f l.
Proof. induction 1; simpl; lia. Qed.

Lemma sum_Z_elem {A} (f : A -> Z) l x :
  Forall (fun x => 0 <= f x) l -> x ∈ l -> f x <= sum_Z f l.
Proof.
  intros Hl Hx. apply list_elem_of_split in Hx as (k1 & k2 & ->).
  apply Forall_app in Hl as [H1 H2]. inversion_clear H2 as [|? ? H3 H4].
  rewrite sum_Z_app. simpl. apply sum_Z_nonneg in H1, H4. lia.
Qed.

(** A list without its element at [i]. *)
Definition rest_at {A} (l : list A) (i : nat) : list A := take i l ++ drop (S i) l.

Lemma rest_at_perm {A} (l : list A) i x : l !! i = Some x -> l ≡ₚ x :: rest_at l i.
Proof.
  intros Hx. transitivity (take i l ++ x :: drop (S i) l); [by rewrite take_drop_middle|].
  unfold rest_at. by rewrite Permutation_middle.
Qed.

Lemma insert_perm {A} (l : list A) i x y : l !! i = Some x -> <[i := y]> l ≡ₚ y :: rest_at l i.
Proof.
  intros Hx. pose proof (lookup_lt_Some _ _ _ Hx). rewrite insert_take_drop by done.
  unfold rest_at. by rewrite Permutation_middle.
Qed.

(** The finite map of a list of records with distinct keys. *)
Section keyed.
Context `{Countable K} {A V : Type} (k : A -> K) (v : A -> V).

Definition to_map (l : list A) : gmap K V := list_to_map (map (fun x => (k x, v x)) l).

Lemma keys_of_pairs l : (map (fun x => (k x, v x)) l).*1 = map k l.
Proof. induction l; csimpl; [done|by f_equal]. Qed.

Lemma to_map_perm l l' : NoDup (map k l) -> l ≡ₚ l' -> to_map l = to_map l'.
Proof.
  intros Hl Hp. apply list_to_map_proper; [by rewrite keys_of_pairs|by apply Permutation_map].
Qed.

Lemma to_map_cons x l : to_map (x :: l) = <[k x := v x]> (to_map l).
Proof. done. Qed.

Lemma to_map_None l key : key ∉ map k l -> to_map l !! key = None.
Proof. intros Hk. apply not_elem_of_list_to_map_1. by rewrite keys_of_pairs. Qed.

Lemma to_map_Some l x : NoDup (map k l) -> x ∈ l -> to_map l !! k x = Some (v x).
Proof.
  intros Hl Hx. apply elem_of_list_to_map_1; [by rewrite keys_of_pairs|].
  rewrite list_elem_of_fmap. by exists x.
Qed.

(** Removing or replacing one record. *)
Lemma to_map_delete l l' x :
  NoDup (map k l) -> l ≡ₚ x :: l' -> to_map l' = delete (k x) (to_map l).
Proof.
  intros Hl Hp. rewrite (to_map_perm l (x :: l')) by done. rewrite to_map_cons.
  rewrite Hp in Hl. apply NoDup_cons in Hl as [Hx _].
  rewrite delete_insert_eq, delete_id; [done|by apply to_map_None].
Qed.

Lemma to_map_replace l l' x y :
  NoDup (map k l) -> l ≡ₚ x :: l' -> k y = k x ->
  to_map (y :: l') = <[k x := v y]> (to_map l).
Proof.
  intros Hl Hp E. rewrite (to_map_perm l (x :: l')) by done.
  by rewrite !to_map_cons, E, insert_insert_eq.
Qed.
End keyed.
