(* ===== verification/Crypto.v ===== *)
(** * Keys, signatures and errors

    [ironwood/types/errors.go] and [ironwood/network/crypto.go]: the error
    values of the routing library, the fixed-size key and signature arrays, the
    lexicographic key order, and Ed25519 as an interface ([crypto/ed25519] is
    not part of the program; the only law used is that a signature made with a
    private key verifies under its public key). *)

From S2P Require Import Prelude.

(** ** types.Error *)

Inductive Error : Set :=
| ErrUndefined | ErrEncode | ErrDecode | ErrClosed | ErrTimeout | ErrBadMessage
| ErrEmptyMessage | ErrOversizedMessage | ErrUnrecognizedMessage | ErrPeerNotFound
| ErrBadAddress | ErrBadKey.

#[global] Instance Error_eq_dec : EqDecision Error.
Proof. solve_decision. Defined.

Abbreviation result A := (outcome Error A) (only parsing).

(** ** Key and signature types *)

Definition publicKeySize : nat := 32.
Definition privateKeySize : nat := 64.
Definition signatureSize : nat := 64.

Abbreviation publicKey := (array 32).
Abbreviation privateKey := (array 64).
Abbreviation signature := (array 64).

(** ** crypto/ed25519 *)

Class Ed25519 := {
  ed_valid : privateKey -> Prop;
  ed_public : privateKey -> publicKey;
  ed_sign : privateKey -> list byte -> list byte;
  ed_verify : publicKey -> list byte -> list byte -> bool
}.

(** What the code relies on: [ed25519.Sign] returns [SignatureSize] bytes, which
    [ed25519.Verify] accepts under the public half of a private key that
    [ed25519.GenerateKey] or [NewKeyFromSeed] made ([ed_valid]). *)
Class Ed25519Laws `{Ed25519} : Prop := {
  ed_sign_length sk m : length (ed_sign sk m) = signatureSize;
  ed_verify_sign sk m : ed_valid sk -> ed_verify (ed_public sk) m (ed_sign sk m) = true
}.

Section crypto.
Context `{Ed25519}.

Record crypto := MkCrypto { crypto_privateKey : privateKey; crypto_publicKey : publicKey }.

Definition sign (key : privateKey) (message : list byte) : signature :=
  let tmp := ed_sign key message in array_of signatureSize tmp.

Definition verify (key : publicKey) (message : list byte) (sig : signature) : bool :=
  ed_verify key message sig.

Definition crypto_init (secret : privateKey) : crypto :=
  {| crypto_privateKey := array_of privateKeySize secret;
     crypto_publicKey := array_of publicKeySize (ed_public secret) |}.

Lemma verify_sign `{!Ed25519Laws} sk m : ed_valid sk -> verify (ed_public sk) m (sign sk m) = true.
Proof.
  intros Hsk. unfold verify, sign.
  rewrite array_of_exact by apply ed_sign_length. by apply ed_verify_sign.
Qed.
End crypto.

(** ** Key order *)

(** The [for idx := range key] loop of [less]. *)
Fixpoint less_from (a b : list byte) : bool :=
  match a, b with
  | x :: a', y :: b' =>
      if b2z x <? b2z y then true
      else if b2z y <? b2z x then false
      else less_from a' b'
  | _, _ => false
  end.

Definition less (key comparedKey : publicKey) : bool := less_from key comparedKey.

Definition equal {n} (key comparedKey : array n) : bool := bool_decide (key = comparedKey).

Definition addr (key : publicKey) : list byte := key.

Definition toEd (key : publicKey) : list byte := key.

Lemma less_from_irrefl l : less_from l l = false.
Proof. induction l as [|x l IH]; simpl; [done|]. by rewrite Z.ltb_irrefl. Qed.

Lemma less_from_trans a b c :
  less_from a b = true -> less_from b c = true -> less_from a c = true.
Proof.
  revert b c. induction a as [|x a IH]; intros [|y b] [|z c]; simpl; try done.
  destruct (Z.ltb_spec (b2z x) (b2z y)), (Z.ltb_spec (b2z y) (b2z z));
    destruct (Z.ltb_spec (b2z y) (b2z x)), (Z.ltb_spec (b2z z) (b2z y));
    destruct (Z.ltb_spec (b2z x) (b2z z)), (Z.ltb_spec (b2z z) (b2z x));
    try done; try lia. apply IH.
Qed.

Lemma less_from_total a b :
  length a = length b -> less_from a b = false -> less_from b a = false -> a = b.
Proof.
  revert b. induction a as [|x a IH]; intros [|y b]; simpl; try done.
  intros [= Hl].
  destruct (Z.ltb_spec (b2z x) (b2z y)), (Z.ltb_spec (b2z y) (b2z x)); try done; try lia.
  intros. f_equal; [apply b2z_inj; lia|auto].
Qed.

Lemma less_irrefl a : less a a = false.
Proof. apply less_from_irrefl. Qed.

Lemma less_trans a b c : less a b = true -> less b c = true -> less a c = true.
Proof. apply less_from_trans. Qed.

Lemma less_asym a b : less a b = true -> less b a = false.
Proof.
  intros Hab. destruct (less b a) eqn:Hba; [|done].
  pose proof (less_trans _ _ _ Hab Hba). by rewrite less_irrefl in *.
Qed.

Lemma less_total (a b : publicKey) : less a b = false -> less b a = false -> a = b.
Proof. intros. apply array_eq, less_from_total; [by rewrite !length_array|done|done]. Qed.

(** [a] is at most [b] in the key order. *)
Definition key_le (a b : publicKey) : Prop := less b a = false.

#[global] Instance key_le_preorder : PreOrder key_le.
Proof.
  split; unfold key_le.
  - intros a. apply less_irrefl.
  - intros a b c Hba Hcb. destruct (less c a) eqn:Hca; [|done].
    destruct (less a b) eqn:Hab.
    + by rewrite (less_trans _ _ _ Hca Hab) in Hcb.
    + assert (a = b) as -> by by apply less_total. congruence.
Qed.

Lemma key_le_antisym a b : key_le a b -> key_le b a -> a = b.
Proof. intros. by apply less_total. Qed.

#[export] Hint Resolve less_irrefl less_asym : ygg.

(** ** A concrete scheme for the witnesses: the signature carries the key. *)
Definition toy_ed25519 : Ed25519 := {|
  ed_valid := fun _ => True;
  ed_public := fun sk => array_of 32 (drop 32 (arr_list sk));
  ed_sign := fun sk m => drop 32 (arr_list sk) ++ replicate 32 Byte.x00;
  ed_verify := fun pk m sig => bool_decide (take 32 sig = arr_list pk)
|}.

Lemma toy_ed25519_laws : @Ed25519Laws toy_ed25519.
Proof.
  assert (forall sk : privateKey, length (drop 32 sk) = 32%nat) as Hlen.
  { intros sk. rewrite length_drop, length_array. done. }
  split; simpl; intros sk m.
  - rewrite length_app, Hlen. done.
  - intros _. apply bool_decide_eq_true. rewrite take_app_length' by (symmetry; apply Hlen).
    symmetry. apply resize_all_alt. by rewrite Hlen.
Qed.
