(* ===== verification/Wire.v ===== *)
(** * Wire primitives

    [ironwood/network/wire.go] with the two functions of [encoding/binary] it
    rests on: unsigned varints, fixed-size slices, zero-terminated port paths,
    and the interface the encodable messages implement. A chop function returns
    the value and the rest of the data, or [Fail tt] where the code returns
    false; where it slices out of range it panics. *)

From S2P Require Import Prelude Crypto.

(** ** encoding/binary varints *)

Definition MaxVarintLen64 : Z := 10.

(** [binary.AppendUvarint(nil, x)]; ten rounds are enough for 64 bits. *)
Fixpoint uvarint_bytes (rounds : nat) (x : Z) : list byte :=
  match rounds with
  | O => []
  | S rounds' =>
      if 128 <=? x then z2b (Z.lor (Z.land x 255) 128) :: uvarint_bytes rounds' (Z.shiftr x 7)
      else [z2b x]
  end.

Definition AppendUvarint (buf : list byte) (x : Z) : list byte := buf ++ uvarint_bytes 10 x.

(** The loop of [binary.Uvarint]: [i] bytes read, [x] accumulated, next shift [s]. *)
Fixpoint Uvarint_from (i x s : Z) (buf : list byte) : Z * Z :=
  match buf with
  | [] => (0, 0)
  | b :: buf' =>
      if i =? MaxVarintLen64 then (0, - (i + 1))
      else if b2z b <? 128 then
        if (i =? MaxVarintLen64 - 1) && (1 <? b2z b) then (0, - (i + 1))
        else (Z.lor x (u64 (Z.shiftl (b2z b) s)), i + 1)
      else Uvarint_from (i + 1) (Z.lor x (u64 (Z.shiftl (Z.land (b2z b) 127) s))) (s + 7) buf'
  end.

Definition Uvarint (buf : list byte) : Z * Z := Uvarint_from 0 0 0 buf.

(** ** wire.go *)

(** The constants [wireDummy .. wireTraffic], in [iota] order. *)
Inductive wirePacketType : Set :=
| wireDummy | wireKeepAlive | wireProtoSigReq | wireProtoSigRes | wireProtoAnnounce
| wireProtoBloomFilter | wireProtoPathLookup | wireProtoPathNotify | wireProtoPathBroken
| wireTraffic.

Definition wirePacketType_byte (t : wirePacketType) : byte :=
  z2b match t with
      | wireDummy => 0 | wireKeepAlive => 1 | wireProtoSigReq => 2 | wireProtoSigRes => 3
      | wireProtoAnnounce => 4 | wireProtoBloomFilter => 5 | wireProtoPathLookup => 6
      | wireProtoPathNotify => 7 | wireProtoPathBroken => 8 | wireTraffic => 9
      end.

Definition wirePacketType_of_byte (b : byte) : option wirePacketType :=
  match b2z b with
  | 0 => Some wireDummy | 1 => Some wireKeepAlive | 2 => Some wireProtoSigReq
  | 3 => Some wireProtoSigRes | 4 => Some wireProtoAnnounce | 5 => Some wireProtoBloomFilter
  | 6 => Some wireProtoPathLookup | 7 => Some wireProtoPathNotify
  | 8 => Some wireProtoPathBroken | 9 => Some wireTraffic
  | _ => None
  end.

#[global] Instance wirePacketType_eq_dec : EqDecision wirePacketType.
Proof. solve_decision. Defined.

(** [l[i:j]], within the length; a bound out of range panics. *)
Definition go_slice {E} (l : list byte) (i j : Z) : outcome E (list byte) :=
  if (0 <=? i) && (i <=? j) && (j <=? Z.of_nat (length l))
  then Ret (take (Z.to_nat (j - i)) (drop (Z.to_nat i) l)) else Panic.

(** The [bool] that a chop function returns, with what it writes on success. *)
Abbreviation chopped A := (outcome unit (A * list byte)).

(** [copy] stops at the end of the shorter slice; the slice after it does not. *)
Definition wireChopSlice (n : nat) (data : list byte) : chopped (array n) :=
  if (length data <? n)%nat then Fail tt
  else
    let out : array n := array_of n data in
    data ← go_slice data (Z.of_nat n) (Z.of_nat (length data));
    Ret (out, data).

Definition wireChopBytes (out data : list byte) (size : Z) : chopped (list byte) :=
  if Z.of_nat (length data) <? size then Fail tt
  else
    front ← go_slice data 0 size;
    data ← go_slice data size (Z.of_nat (length data));
    Ret (out ++ front, data).

Definition wireChopUint (data : list byte) : chopped Z :=
  let '(u, l) := Uvarint data in
  if l <=? 0 then Fail tt
  else
    data ← go_slice data l (Z.of_nat (length data));
    Ret (u, data).

(** [binary.PutUvarint] into a ten-byte buffer: the number of bytes written. *)
Definition wireSizeUint (u : Z) : Z := Z.of_nat (length (uvarint_bytes 10 u)).

Definition wireAppendUint (out : list byte) (u : Z) : list byte := AppendUvarint out u.

(** The Go interface [wireEncodeable]. *)
Class wireEncodeable (T : Type) := {
  size : T -> Z;
  encode : list byte -> T -> result (list byte)
}.

Definition wireEncode `{wireEncodeable T} (out : list byte) (pType : byte) (obj : T)
    : result (list byte) :=
  encode (out ++ [pType]) obj.

Fixpoint wireSizePath (path : list Z) : Z :=
  match path with
  | [] => wireSizeUint 0
  | port :: path' => wireSizeUint port + wireSizePath path'
  end.

Fixpoint wireAppendPath (dest : list byte) (path : list Z) : list byte :=
  match path with
  | [] => wireAppendUint dest 0
  | port :: path' => wireAppendPath (wireAppendUint dest port) path'
  end.

(** The [for] loop of [wireDecodePath]: each round consumes at least a byte, so
    the rounds it is given are enough; running out of them counts as a panic. *)
Fixpoint wireDecodePath_from (rounds : nat) (path : list Z) (bs : list byte) : chopped (list Z) :=
  match rounds with
  | O => Panic
  | S rounds' =>
      '(u, bs') ← wireChopUint bs;
      if u =? 0 then Ret (path, bs')
      else wireDecodePath_from rounds' (path ++ [u]) bs'
  end.

Definition wireDecodePath (path : list Z) (source : list byte) : outcome unit (list Z * Z) :=
  match wireDecodePath_from (S (length source)) path source with
  | Ret (path', bs) => Ret (path', Z.of_nat (length source) - Z.of_nat (length bs))
  | Fail _ => Ret ([], -1)
  | Panic => Panic
  end.

Definition wireChopPath (out : list Z) (data : list byte) : chopped (list Z) :=
  '(path, l) ← wireDecodePath [] data;
  if l <? 0 then Fail tt
  else
    data ← go_slice data l (Z.of_nat (length data));
    Ret (out ++ path, data).

(** ** Lemmas *)

Lemma lor_shiftl_add a v s :
  0 <= s -> 0 <= a < 2 ^ s -> Z.lor a (Z.shiftl v s) = a + v * 2 ^ s.
Proof.
  intros Hs Ha. pose proof (Z.add_lor_land a (Z.shiftl v s)) as E.
  rewrite Z.shiftl_mul_pow2 in E at 3 by done.
  enough (Z.land a (Z.shiftl v s) = 0) by lia.
  apply Z.bits_inj'. intros n Hn. rewrite Z.land_spec, Z.bits_0.
  destruct (Z.lt_ge_cases n s).
  - by rewrite Z.shiftl_spec_low, andb_false_r.
  - by rewrite <- (Z.mod_small a (2 ^ s)), Z.mod_pow2_bits_high by lia.
Qed.

Lemma low7_or_128 x : Z.land (Z.lor (Z.land x 255) 128 mod 256) 127 = x mod 128.
Proof.
  change 256 with (2 ^ 8). rewrite <- Z.land_ones by lia.
  rewrite <- Z.land_assoc. change (Z.land (Z.ones 8) 127) with 127.
  rewrite Z.land_lor_distr_l, <- Z.land_assoc.
  change (Z.land 128 127) with 0. change (Z.land 255 127) with (Z.ones 7).
  by rewrite Z.lor_0_r, Z.land_ones by lia.
Qed.

Lemma or_128_ge x : 128 <= Z.lor (Z.land x 255) 128 mod 256.
Proof.
  assert (Z.lor (Z.land x 255) 128 mod 256 = Z.lor (Z.land x 255) 128) as ->.
  { change 256 with (2 ^ 8). rewrite <- Z.land_ones, Z.land_lor_distr_l by lia.
    change 255 with (Z.ones 8). by rewrite <- Z.land_assoc, Z.land_diag. }
  pose proof (Z.add_lor_land (Z.land x 255) 128) as E.
  assert (0 <= Z.land x 255) by (apply Z.land_nonneg; lia).
  assert (Z.land (Z.land x 255) 128 <= Z.land x 255).
  { pose proof (Z.land_nonneg (Z.land x 255) 128).
    apply Z.ldiff_le; [done|]. rewrite Z.ldiff_land.
    apply Z.bits_inj'. intros n Hn. rewrite !Z.land_spec, Z.lnot_spec, Z.bits_0 by done.
    rewrite ?Z.land_spec. by destruct (Z.testbit x n), (Z.testbit 255 n), (Z.testbit 128 n). }
  lia.
Qed.

(** Decoding what was encoded, at any point of the decoding loop. *)
Lemma Uvarint_from_bytes rounds : forall i acc s x rest,
  0 <= i -> s = 7 * i -> 10 <= i + Z.of_nat rounds -> i < 10 ->
  0 <= x < 2 ^ (64 - s) -> 0 <= acc < 2 ^ s ->
  Uvarint_from i acc s (uvarint_bytes rounds x ++ rest) =
    (acc + x * 2 ^ s, i + Z.of_nat (length (uvarint_bytes rounds x))).
Proof.
  induction rounds as [|rounds IH]; intros i acc s x rest Hi -> Hr Hi10 Hx Hacc; [lia|].
  simpl. destruct (Z.leb_spec 128 x) as [Hge|Hlt]; simpl.
  - assert (i < 9).
    { destruct (decide (i = 9)) as [->|]; [simpl in Hx; lia|lia]. }
    replace (i =? MaxVarintLen64) with false by (unfold MaxVarintLen64; lia).
    rewrite b2z_z2b. pose proof (or_128_ge x). pose proof (low7_or_128 x) as E7.
    replace (_ <? 128) with false by lia. rewrite E7.
    rewrite u64_small.
    2: { unfold is_u64. rewrite Z.shiftl_mul_pow2 by lia.
         pose proof (Z.mod_pos_bound x 128 ltac:(lia)).
         assert (x mod 128 * 2 ^ (7 * i) < 2 ^ 7 * 2 ^ (7 * i)) by nia.
         rewrite <- Z.pow_add_r in * by lia.
         assert (2 ^ (7 + 7 * i) <= 2 ^ 64) by (apply Z.pow_le_mono_r; lia). nia. }
    rewrite lor_shiftl_add by lia.
    pose proof (Z.div_mod x 128 ltac:(lia)) as Ed.
    pose proof (Z.mod_pos_bound x 128 ltac:(lia)).
    assert (0 < 2 ^ (7 * i)) by (apply Z.pow_pos_nonneg; lia).
    assert (2 ^ (7 * (i + 1)) = 2 ^ (7 * i) * 128) as E1.
    { replace (7 * (i + 1)) with (7 * i + 7) by lia. by rewrite Z.pow_add_r by lia. }
    assert (2 ^ (64 - 7 * i) = 2 ^ (64 - 7 * (i + 1)) * 128) as E2.
    { replace (64 - 7 * i) with (64 - 7 * (i + 1) + 7) by lia. by rewrite Z.pow_add_r by lia. }
    rewrite Z.shiftr_div_pow2 by lia. change (2 ^ 7) with 128.
    replace (7 * i + 7) with (7 * (i + 1)) by lia.
    assert (0 <= x / 128 < 2 ^ (64 - 7 * (i + 1))).
    { split; [apply Z.div_pos; lia|]. apply Z.div_lt_upper_bound; lia. }
    assert (0 <= acc + x mod 128 * 2 ^ (7 * i) < 2 ^ (7 * (i + 1))) by (rewrite E1; nia).
    rewrite IH by lia. f_equal; [|lia]. rewrite E1. nia.
  - replace (i =? MaxVarintLen64) with false by (unfold MaxVarintLen64; lia).
    rewrite b2z_z2b_small by lia. replace (x <? 128) with true by lia.
    replace ((i =? MaxVarintLen64 - 1) && (1 <? x)) with false.
    2: { unfold MaxVarintLen64. destruct (decide (i = 9)) as [->|]; [simpl in Hx|]; lia. }
    assert (0 < 2 ^ (7 * i)) by (apply Z.pow_pos_nonneg; lia).
    assert (2 ^ (64 - 7 * i) * 2 ^ (7 * i) = 2 ^ 64) as E3.
    { rewrite <- Z.pow_add_r by lia. f_equal; lia. }
    rewrite u64_small.
    2: { unfold is_u64. rewrite Z.shiftl_mul_pow2 by lia. nia. }
    by rewrite lor_shiftl_add by lia.
Qed.

Lemma uvarint_bytes_length rounds x :
  (0 < rounds)%nat -> (0 < length (uvarint_bytes rounds x) <= rounds)%nat.
Proof.
  revert x. induction rounds as [|rounds IH]; intros x Hr; [lia|]. simpl.
  destruct (128 <=? x); simpl; [|lia].
  destruct rounds; simpl in *; [lia|]. specialize (IH (Z.shiftr x 7)). simpl in IH. lia.
Qed.

Lemma wireSizeUint_pos u : 0 < wireSizeUint u <= 10.
Proof. unfold wireSizeUint. pose proof (uvarint_bytes_length 10 u). lia. Qed.

Lemma length_wireAppendUint out u :
  Z.of_nat (length (wireAppendUint out u)) = Z.of_nat (length out) + wireSizeUint u.
Proof. unfold wireAppendUint, AppendUvarint, wireSizeUint. rewrite length_app. lia. Qed.

Lemma wireAppendUint_app out u : wireAppendUint out u = out ++ wireAppendUint [] u.
Proof. done. Qed.

Lemma Uvarint_append x rest :
  is_u64 x -> Uvarint (wireAppendUint [] x ++ rest) = (x, wireSizeUint x).
Proof.
  intros Hx. unfold Uvarint, wireAppendUint, AppendUvarint. rewrite app_nil_l.
  rewrite Uvarint_from_bytes by (unfold is_u64 in Hx; simpl; lia).
  unfold wireSizeUint. f_equal; lia.
Qed.

(** Slicing in range. *)
Lemma go_slice_from {E} (l : list byte) i : 0 <= i <= Z.of_nat (length l) ->
  go_slice (E := E) l i (Z.of_nat (length l)) = Ret (drop (Z.to_nat i) l).
Proof.
  intros Hi. unfold go_slice. replace (_ && _ && _) with true by (symmetry; rewrite !andb_true_iff; lia).
  by rewrite take_ge by (rewrite length_drop; lia).
Qed.

Lemma go_slice_to {E} (l : list byte) j : 0 <= j <= Z.of_nat (length l) ->
  go_slice (E := E) l 0 j = Ret (take (Z.to_nat j) l).
Proof.
  intros Hj. unfold go_slice. replace (_ && _ && _) with true by (symmetry; rewrite !andb_true_iff; lia).
  by rewrite Z.sub_0_r.
Qed.

Lemma go_slice_app {E} (a b : list byte) i : i = Z.of_nat (length a) ->
  go_slice (E := E) (a ++ b) i (Z.of_nat (length (a ++ b))) = Ret b.
Proof. intros ->. rewrite go_slice_from by (rewrite length_app; lia). by rewrite Nat2Z.id, drop_app_length. Qed.

Lemma wireChopUint_append x rest :
  is_u64 x -> wireChopUint (wireAppendUint [] x ++ rest) = Ret (x, rest).
Proof.
  intros Hx. unfold wireChopUint. rewrite Uvarint_append by done.
  pose proof (wireSizeUint_pos x). replace (wireSizeUint x <=? 0) with false by lia.
  by rewrite go_slice_app.
Qed.

(** What the decoder reads is a 64-bit value and at least one byte. *)
Lemma Uvarint_from_range buf : forall i x s,
  0 <= i <= 10 -> s = 7 * i -> 0 <= x < 2 ^ 64 ->
  let '(u, l) := Uvarint_from i x s buf in
  0 < l -> is_u64 u /\ i < l <= i + Z.of_nat (length buf) /\ l <= 10.
Proof.
  induction buf as [|b buf IH]; intros i x s Hi -> Hx; simpl; [lia|].
  unfold MaxVarintLen64. destruct (Z.eqb_spec i 10); [lia|].
  assert (forall a, is_u64 a -> is_u64 (Z.lor x a)) as Hlor.
  { intros a [Ha Ha']. unfold is_u64. assert (0 <= Z.lor x a) by (apply Z.lor_nonneg; lia). split; [done|].
    destruct (decide (Z.lor x a = 0)); [lia|].
    apply Z.log2_lt_pow2; [lia|].
    rewrite Z.log2_lor by lia. destruct (decide (x = 0)) as [->|], (decide (a = 0)) as [->|];
      simpl; try apply Z.max_lub_lt; try apply Z.log2_lt_pow2; try lia. }
  destruct (b2z b <? 128).
  - destruct ((i =? 10 - 1) && (1 <? b2z b)); [lia|]. intros _.
    split; [apply Hlor, u64_range|]. lia.
  - specialize (IH (i + 1) (Z.lor x (u64 (Z.shiftl (Z.land (b2z b) 127) (7 * i)))) (7 * i + 7)).
    destruct (Uvarint_from _ _ _ buf) as [u l]. intros Hl.
    destruct IH as (? & ? & ?); try lia.
    { apply Hlor, u64_range. }
    split; [done|]. lia.
Qed.

Lemma wireChopUint_sound data :
  match wireChopUint data with
  | Ret (u, rest) => is_u64 u /\ (length rest < length data)%nat
  | Fail _ => True
  | Panic => False
  end.
Proof.
  unfold wireChopUint. pose proof (Uvarint_from_range data 0 0 0) as Hr.
  unfold Uvarint. destruct (Uvarint_from 0 0 0 data) as [u l].
  destruct (Z.leb_spec l 0); [done|]. destruct Hr as (? & ? & ?); [lia..|].
  rewrite go_slice_from by lia. split; [done|]. rewrite length_drop. lia.
Qed.

Lemma wireChopSlice_sound n data : wireChopSlice n data <> Panic.
Proof.
  unfold wireChopSlice. destruct (Nat.ltb_spec (length data) n); [done|].
  by rewrite go_slice_from by lia.
Qed.

Lemma wireChopSlice_list n (l rest : list byte) :
  length l = n -> wireChopSlice n (l ++ rest) = Ret (array_of n l, rest).
Proof.
  intros <-. unfold wireChopSlice. replace (_ <? _)%nat with false by (symmetry; apply Nat.ltb_ge; rewrite length_app; lia).
  rewrite go_slice_app, outcome_bind_ret by done. do 2 f_equal. apply array_eq.
  unfold array_of. cbn [arr_list]. by rewrite resize_app_le by lia.
Qed.

Lemma wireChopSlice_app {n} (a : array n) rest :
  wireChopSlice n (arr_list a ++ rest) = Ret (a, rest).
Proof. by rewrite (wireChopSlice_list n), array_of_list by apply length_array. Qed.

#[global] Arguments wireAppendUint : simpl never.
#[global] Arguments wireSizeUint : simpl never.
#[global] Arguments wireChopUint : simpl never.

(** ** Paths *)

(** Ports on a path are 64-bit and, as zero terminates the path, not zero. *)
Definition path_ok (path : list Z) : Prop := Forall (fun p => 0 < p < 2 ^ 64) path.
#[global] Instance path_ok_dec path : Decision (path_ok path) := _.

Lemma wireAppendPath_app dest path :
  wireAppendPath dest path = dest ++ wireAppendPath [] path.
Proof.
  revert dest. induction path as [|p path IH]; intros dest; simpl; [done|].
  rewrite IH, (IH (wireAppendUint [] p)), (wireAppendUint_app dest). by rewrite <- app_assoc.
Qed.

Lemma length_wireAppendPath dest path :
  Z.of_nat (length (wireAppendPath dest path)) = Z.of_nat (length dest) + wireSizePath path.
Proof.
  revert dest. induction path as [|p path IH]; intros dest; simpl.
  - apply length_wireAppendUint.
  - rewrite IH, length_wireAppendUint. lia.
Qed.

Lemma wireDecodePath_from_append path : forall rounds acc rest,
  path_ok path -> (length path < rounds)%nat ->
  wireDecodePath_from rounds acc (wireAppendPath [] path ++ rest) = Ret (acc ++ path, rest).
Proof.
  induction path as [|p path IH]; intros [|rounds] acc rest Hok Hr; simpl in *; try lia.
  - change (z2b 0 :: rest) with (wireAppendUint [] 0 ++ rest).
    rewrite wireChopUint_append, outcome_bind_ret by done. by rewrite app_nil_r.
  - apply Forall_cons in Hok as [Hp Hok].
    rewrite wireAppendPath_app, <- app_assoc, wireChopUint_append by (unfold is_u64; lia).
    rewrite outcome_bind_ret.
    replace (p =? 0) with false by lia. rewrite IH by (done || lia). by rewrite <- app_assoc.
Qed.

Lemma wireSizePath_length path : Z.of_nat (length path) < wireSizePath path.
Proof.
  induction path as [|p path IH]; simpl; [apply wireSizeUint_pos|].
  pose proof (wireSizeUint_pos p). lia.
Qed.

Lemma wireChopPath_append out path rest :
  path_ok path -> wireChopPath out (wireAppendPath [] path ++ rest) = Ret (out ++ path, rest).
Proof.
  intros Hok. unfold wireChopPath, wireDecodePath.
  pose proof (length_wireAppendPath [] path) as Hl. simpl in Hl.
  pose proof (wireSizePath_length path).
  rewrite wireDecodePath_from_append; [|done|rewrite length_app; lia].
  rewrite outcome_bind_ret. destruct (Z.ltb_spec (Z.of_nat (length (wireAppendPath [] path ++ rest)) - Z.of_nat (length rest)) 0) as [Hc|_];
    [rewrite length_app in Hc; lia|].
  by rewrite go_slice_app by (rewrite length_app; lia).
Qed.

(** The rounds given to the loop never run out: failure is malformed input. *)
Lemma wireDecodePath_from_sound rounds : forall acc bs,
  (length bs < rounds)%nat ->
  match wireDecodePath_from rounds acc bs with
  | Ret (path, rest) => (length rest < length bs)%nat /\ exists p, path = acc ++ p /\ path_ok p
  | Fail _ => True
  | Panic => False
  end.
Proof.
  induction rounds as [|rounds IH]; intros acc bs Hr; simpl; [lia|].
  pose proof (wireChopUint_sound bs) as Hc.
  destruct (wireChopUint bs) as [[u bs']|[]|]; simpl; try done. destruct Hc as [Hu Hl].
  destruct (Z.eqb_spec u 0).
  - split; [done|]. exists []. split; [by rewrite app_nil_r|constructor].
  - specialize (IH (acc ++ [u]) bs' ltac:(lia)).
    destruct (wireDecodePath_from rounds (acc ++ [u]) bs') as [[path rest]|?|]; try done.
    destruct IH as (? & p & -> & Hp). split; [lia|].
    exists (u :: p). rewrite <- app_assoc. split; [done|].
    constructor; [unfold is_u64 in Hu; lia|done].
Qed.

Lemma wireChopPath_sound data :
  match wireChopPath [] data with
  | Ret (path, rest) => path_ok path /\ (length rest < length data)%nat
  | Fail _ => True
  | Panic => False
  end.
Proof.
  unfold wireChopPath, wireDecodePath.
  pose proof (wireDecodePath_from_sound (S (length data)) [] data ltac:(lia)) as Hs.
  destruct (wireDecodePath_from _ _ data) as [[p bs]|[]|]; [|done..].
  destruct Hs as (Hl & p' & -> & Hp). rewrite outcome_bind_ret. simpl.
  destruct (Z.ltb_spec (Z.of_nat (length data) - Z.of_nat (length bs)) 0); [done|].
  rewrite go_slice_from by lia. simpl. split; [done|]. rewrite length_drop. lia.
Qed.

#[export] Hint Rewrite @length_array length_wireAppendUint length_wireAppendPath
  @length_app Nat2Z.inj_add : wire_len.
#[export] Hint Rewrite @wireChopSlice_app : wire.
#[export] Hint Rewrite wireChopUint_append wireChopPath_append using done : wire.
