(* ===== verification/Binary.v ===== *)
(** * Big-endian integers

    [binary.BigEndian] of Go's standard library: [PutUint64], [Uint64],
    [AppendUint16] and friends are [be_bytes] and [be_val] at their width. *)

From S2P Require Import Prelude.

Fixpoint be_bytes (n : nat) (z : Z) : list byte :=
  match n with
  | O => []
  | S n' => z2b (Z.shiftr z (8 * Z.of_nat n')) :: be_bytes n' z
  end.

Fixpoint be_val_from (acc : Z) (bs : list byte) : Z :=
  match bs with
  | [] => acc
  | b :: bs' => be_val_from (Z.lor (Z.shiftl acc 8) (b2z b)) bs'
  end.

Definition be_val (bs : list byte) : Z := be_val_from 0 bs.

Lemma length_be_bytes n z : length (be_bytes n z) = n.
Proof. induction n; simpl; auto. Qed.

Lemma be_step acc b : 0 <= acc -> Z.lor (Z.shiftl acc 8) (b2z b) = acc * 256 + b2z b.
Proof.
  intros. pose proof (b2z_range b) as Hb.
  pose proof (Z.add_lor_land (Z.shiftl acc 8) (b2z b)) as E.
  rewrite (Z.shiftl_mul_pow2 _ 8) in E at 3 by lia.
  enough (Z.land (Z.shiftl acc 8) (b2z b) = 0) by lia.
  apply Z.bits_inj'. intros n Hn. rewrite Z.land_spec, Z.bits_0.
  destruct (Z.lt_ge_cases n 8).
  - by rewrite Z.shiftl_spec_low.
  - change 256 with (2 ^ 8) in Hb.
    by rewrite <- (Z.mod_small (b2z b) (2 ^ 8)), Z.mod_pow2_bits_high, andb_false_r by lia.
Qed.

Lemma be_val_from_bound bs : forall acc,
  0 <= acc -> acc * 256 ^ Z.of_nat (length bs) <= be_val_from acc bs
    < (acc + 1) * 256 ^ Z.of_nat (length bs).
Proof.
  induction bs as [|b bs IH]; intros acc Hacc; simpl be_val_from.
  - simpl. lia.
  - rewrite be_step by done. pose proof (b2z_range b) as Hb.
    specialize (IH (acc * 256 + b2z b) ltac:(lia)). simpl length.
    rewrite Nat2Z.inj_succ, Z.pow_succ_r by lia.
    assert (0 < 256 ^ Z.of_nat (length bs)) by (apply Z.pow_pos_nonneg; lia). nia.
Qed.

Lemma be_val_range bs : 0 <= be_val bs < 256 ^ Z.of_nat (length bs).
Proof. pose proof (be_val_from_bound bs 0 ltac:(lia)). unfold be_val. lia. Qed.

Lemma be_val_from_bytes n : forall z acc rest,
  0 <= acc ->
  be_val_from acc (be_bytes n z ++ rest)
    = be_val_from (acc * 256 ^ Z.of_nat n + z mod 256 ^ Z.of_nat n) rest.
Proof.
  induction n as [|n IH]; intros z acc rest Hacc; simpl be_bytes.
  - simpl. by rewrite Z.mul_1_r, Z.mod_1_r, Z.add_0_r.
  - simpl app. cbn [be_val_from]. rewrite be_step by done. pose proof (b2z_range (z2b (Z.shiftr z (8 * Z.of_nat n)))).
    rewrite IH by lia. f_equal. rewrite b2z_z2b.
    assert (2 ^ (8 * Z.of_nat n) = 256 ^ Z.of_nat n) as E by by rewrite Z.pow_mul_r by lia.
    rewrite Z.shiftr_div_pow2, E by lia.
    rewrite Nat2Z.inj_succ, Z.pow_succ_r by lia.
    assert (0 < 256 ^ Z.of_nat n) by (apply Z.pow_pos_nonneg; lia).
    rewrite (Z.mul_comm 256), (Z.rem_mul_r z) by lia. ring.
Qed.

Lemma be_val_bytes n z : be_val (be_bytes n z) = z mod 256 ^ Z.of_nat n.
Proof.
  unfold be_val. rewrite <- (app_nil_r (be_bytes n z)).
  by rewrite be_val_from_bytes by lia.
Qed.

(** Reading and writing the other way round. *)
Lemma be_bytes_val bs n : length bs = n -> be_bytes n (be_val bs) = bs.
Proof.
  enough (forall bs acc, 0 <= acc -> be_bytes (length bs) (be_val_from acc bs) = bs) as Hb.
  { intros <-. by apply Hb. }
  clear. induction bs as [|b bs IH]; intros acc Ha; [done|]. cbn [length be_bytes be_val_from].
  rewrite be_step by done. pose proof (b2z_range b) as Hr. f_equal; [|apply IH; lia].
  pose proof (be_val_from_bound bs (acc * 256 + b2z b) ltac:(lia)) as Hb.
  set (v := be_val_from _ bs) in *. apply b2z_inj. rewrite b2z_z2b, Z.shiftr_div_pow2 by lia.
  assert (2 ^ (8 * Z.of_nat (length bs)) = 256 ^ Z.of_nat (length bs)) as -> by by rewrite Z.pow_mul_r by lia.
  assert (0 < 256 ^ Z.of_nat (length bs)) by (apply Z.pow_pos_nonneg; lia).
  assert (v / 256 ^ Z.of_nat (length bs) = acc * 256 + b2z b) as ->.
  { symmetry. apply (Z.div_unique_pos _ _ _ (v - (acc * 256 + b2z b) * 256 ^ Z.of_nat (length bs))); nia. }
  rewrite Z.add_comm, Z.mod_add by lia. apply Z.mod_small. lia.
Qed.

Lemma be_val_bytes_u64 z : is_u64 z -> be_val (be_bytes 8 z) = z.
Proof. intros. rewrite be_val_bytes. apply Z.mod_small. exact H. Qed.

Lemma be_val_bytes_u16 z : 0 <= z < 2 ^ 16 -> be_val (be_bytes 2 z) = z.
Proof. intros. rewrite be_val_bytes. apply Z.mod_small. exact H. Qed.

Lemma be_val_u64 bs : length bs = 8%nat -> is_u64 (be_val bs).
Proof. intros Hl. pose proof (be_val_range bs) as Hr. rewrite Hl in Hr. exact Hr. Qed.

#[export] Hint Rewrite length_be_bytes : wire_len.
