(* ===== verification/Messages.v ===== *)
(** * Protocol messages

    The records exchanged between nodes and their wire format: the signature
    request, response and announcement of [router.go], the traffic packet of
    [traffic.go], and the lookup, notify and broken messages of
    [pathfinder.go]. Each is an instance of one codec interface, [WireLaws]:
    encoding never panics and has the announced size, decoding inverts it, and
    whatever decodes is well formed. *)

From S2P Require Import Prelude Crypto Wire.

(** ** The codec interface *)

Class wireCodec (T : Type) `{wireEncodeable T} := {
  decode : list byte -> result T;
  wire_ok : T -> Prop
}.

Class WireLaws (T : Type) `{wireCodec T} : Prop := {
  encode_total (m : T) :
    exists bs, (forall out, encode out m = Ret (out ++ bs)) /\ Z.of_nat (length bs) = size m;
  decode_encode (m : T) bs : wire_ok m -> encode [] m = Ret bs -> decode bs = Ret m;
  decode_sound bs : match decode bs with
                    | Ret m => wire_ok m
                    | Fail e => e = ErrDecode
                    | Panic => False
                    end
}.

(** The tail of every [encode]: [end-start != size()] panics. *)
Definition check_size (start : list byte) (out : list byte) (sz : Z) : result (list byte) :=
  if Z.of_nat (length out) - Z.of_nat (length start) =? sz then Ret out else Panic.

(** [if !wireChop..(..) { return types.ErrDecode }] *)
Definition or_decode_error {A} (o : outcome unit A) : result A :=
  match o with Ret a => Ret a | Fail _ => Fail ErrDecode | Panic => Panic end.

(** [else if len(data) != 0 { return types.ErrDecode }] *)
Definition no_trailing (data : list byte) : result unit :=
  if (length data =? 0)%nat then Ret tt else Fail ErrDecode.

Lemma check_size_app start bs sz :
  Z.of_nat (length bs) = sz -> check_size start (start ++ bs) sz = Ret (start ++ bs).
Proof.
  intros <-. unfold check_size. rewrite length_app.
  rewrite (proj2 (Z.eqb_eq _ _)); [done|lia].
Qed.

(** Computing the length of an encoding. *)
Ltac wire_len :=
  autorewrite with wire_len; simpl; rewrite ?length_array; try lia.

(** Running a decoder over an encoding, chop by chop. *)
Ltac wire_run :=
  repeat (rewrite <- ?app_assoc; autorewrite with wire; simpl).

(** Following a decoder on arbitrary input: each failed chop is [ErrDecode]. *)
Ltac wire_sound :=
  repeat match goal with
  | |- context [or_decode_error (wireChopUint ?d)] =>
      let E := fresh "E" in pose proof (wireChopUint_sound d) as E;
      destruct (wireChopUint d) as [[? ?]|?|]; simpl; [destruct E as [E _]|done|done]
  | |- context [or_decode_error (wireChopPath [] ?d)] =>
      let E := fresh "E" in pose proof (wireChopPath_sound d) as E;
      destruct (wireChopPath [] d) as [[? ?]|?|]; simpl; [destruct E as [E _]|done|done]
  | |- context [or_decode_error (wireChopSlice ?n ?d)] =>
      let E := fresh "E" in pose proof (wireChopSlice_sound n d) as E;
      destruct (wireChopSlice n d) as [[? ?]|?|]; simpl; [clear E|done|done]
  | |- context [no_trailing ?d] =>
      unfold no_trailing; destruct (length d =? 0)%nat; simpl; [|done]
  end.

(** ** routerSigReq *)

Record routerSigReq := MkSigReq { req_seq : Z; req_nonce : Z }.

#[global] Instance routerSigReq_eq_dec : EqDecision routerSigReq.
Proof. solve_decision. Defined.

Definition routerSigReq_size (req : routerSigReq) : Z :=
  wireSizeUint (req_seq req) + wireSizeUint (req_nonce req).

Definition routerSigReq_encode (start : list byte) (req : routerSigReq) : result (list byte) :=
  let out := wireAppendUint start (req_seq req) in
  let out := wireAppendUint out (req_nonce req) in
  check_size start out (routerSigReq_size req).

(** [out, _ = req.encode(out)] *)
Definition routerSigReq_bytesForSig (req : routerSigReq) (node parent : publicKey) : list byte :=
  let out := arr_list node ++ arr_list parent in
  match routerSigReq_encode out req with Ret out => out | _ => [] end.

Definition routerSigReq_chop (data : list byte) : result (routerSigReq * list byte) :=
  '(seq, orig) ← or_decode_error (wireChopUint data);
  '(nonce, orig) ← or_decode_error (wireChopUint orig);
  mret (MkSigReq seq nonce, orig).

Definition routerSigReq_decode (data : list byte) : result routerSigReq :=
  '(tmp, data) ← routerSigReq_chop data;
  _ ← no_trailing data;
  mret tmp.

Definition sigReq_ok (req : routerSigReq) : Prop :=
  is_u64 (req_seq req) /\ is_u64 (req_nonce req).
#[global] Instance sigReq_ok_dec req : Decision (sigReq_ok req) := _.

#[global] Instance routerSigReq_encodeable : wireEncodeable routerSigReq :=
  {| size := routerSigReq_size; encode := routerSigReq_encode |}.
#[global] Instance routerSigReq_codec : wireCodec routerSigReq :=
  {| decode := routerSigReq_decode; wire_ok := sigReq_ok |}.

Lemma routerSigReq_encode_eq out req :
  routerSigReq_encode out req =
    Ret (out ++ wireAppendUint [] (req_seq req) ++ wireAppendUint [] (req_nonce req)).
Proof.
  unfold routerSigReq_encode. rewrite wireAppendUint_app, (wireAppendUint_app out), <- app_assoc.
  apply check_size_app. unfold routerSigReq_size. wire_len.
Qed.

Lemma routerSigReq_chop_app req rest :
  sigReq_ok req ->
  routerSigReq_chop
    ((wireAppendUint [] (req_seq req) ++ wireAppendUint [] (req_nonce req)) ++ rest) =
  Ret (req, rest).
Proof. intros [? ?]. unfold routerSigReq_chop. wire_run. by destruct req. Qed.

Lemma routerSigReq_chop_sound data :
  match routerSigReq_chop data with
  | Ret (req, _) => sigReq_ok req | Fail e => e = ErrDecode | Panic => False
  end.
Proof. unfold routerSigReq_chop. wire_sound. done. Qed.

#[global] Instance routerSigReq_laws : WireLaws routerSigReq.
Proof.
  split; simpl.
  - intros m. eexists. split; [intros out; apply routerSigReq_encode_eq|].
    unfold routerSigReq_size. wire_len.
  - intros m bs Hok. rewrite routerSigReq_encode_eq. intros [= <-].
    unfold routerSigReq_decode. rewrite <- (app_nil_r (wireAppendUint [] _ ++ _)).
    by rewrite routerSigReq_chop_app.
  - intros bs. unfold routerSigReq_decode. pose proof (routerSigReq_chop_sound bs).
    destruct (routerSigReq_chop bs) as [[? ?]|?|]; simpl; try done. wire_sound. done.
Qed.

(** ** routerSigRes *)

Record routerSigRes := MkSigRes { res_req : routerSigReq; res_port : Z; res_psig : signature }.

#[global] Instance routerSigRes_eq_dec : EqDecision routerSigRes.
Proof. solve_decision. Defined.

Definition res_seq (res : routerSigRes) : Z := req_seq (res_req res).
Definition res_nonce (res : routerSigRes) : Z := req_nonce (res_req res).

Definition routerSigRes_bytesForSig (res : routerSigRes) (node parent : publicKey) : list byte :=
  wireAppendUint (routerSigReq_bytesForSig (res_req res) node parent) (res_port res).

Definition routerSigRes_check `{Ed25519} (res : routerSigRes) (node parent : publicKey) : bool :=
  verify parent (routerSigRes_bytesForSig res node parent) (res_psig res).

Definition routerSigRes_size (res : routerSigRes) : Z :=
  routerSigReq_size (res_req res) + wireSizeUint (res_port res)
    + Z.of_nat (length (res_psig res)).

Definition routerSigRes_encode (start : list byte) (res : routerSigRes) : result (list byte) :=
  out ← routerSigReq_encode start (res_req res);
  let out := wireAppendUint out (res_port res) in
  let out := out ++ arr_list (res_psig res) in
  check_size start out (routerSigRes_size res).

Definition routerSigRes_chop (data : list byte) : result (routerSigRes * list byte) :=
  '(req, orig) ← routerSigReq_chop data;
  '(port, orig) ← or_decode_error (wireChopUint orig);
  '(psig, orig) ← or_decode_error (wireChopSlice signatureSize orig);
  mret (MkSigRes req port psig, orig).

Definition routerSigRes_decode (data : list byte) : result routerSigRes :=
  '(tmp, data) ← routerSigRes_chop data;
  _ ← no_trailing data;
  mret tmp.

Definition sigRes_ok (res : routerSigRes) : Prop :=
  sigReq_ok (res_req res) /\ is_u64 (res_port res).
#[global] Instance sigRes_ok_dec res : Decision (sigRes_ok res) := _.

#[global] Instance routerSigRes_encodeable : wireEncodeable routerSigRes :=
  {| size := routerSigRes_size; encode := routerSigRes_encode |}.
#[global] Instance routerSigRes_codec : wireCodec routerSigRes :=
  {| decode := routerSigRes_decode; wire_ok := sigRes_ok |}.

(** The encoding of a response as a plain concatenation. *)
Definition sigRes_bytes (res : routerSigRes) : list byte :=
  (wireAppendUint [] (req_seq (res_req res)) ++ wireAppendUint [] (req_nonce (res_req res)))
    ++ wireAppendUint [] (res_port res) ++ arr_list (res_psig res).

Lemma length_sigRes_bytes res :
  Z.of_nat (length (sigRes_bytes res)) = routerSigRes_size res.
Proof. unfold sigRes_bytes, routerSigRes_size, routerSigReq_size. wire_len. Qed.

Lemma routerSigRes_encode_eq out res :
  routerSigRes_encode out res = Ret (out ++ sigRes_bytes res).
Proof.
  unfold routerSigRes_encode. rewrite routerSigReq_encode_eq. simpl.
  rewrite wireAppendUint_app, <- !app_assoc. rewrite check_size_app.
  - unfold sigRes_bytes. by rewrite <- !app_assoc.
  - rewrite <- length_sigRes_bytes. unfold sigRes_bytes. by rewrite <- !app_assoc.
Qed.

Lemma routerSigRes_chop_app res rest :
  sigRes_ok res -> routerSigRes_chop (sigRes_bytes res ++ rest) = Ret (res, rest).
Proof.
  intros [? ?]. unfold routerSigRes_chop, sigRes_bytes. rewrite <- (app_assoc (_ ++ _)).
  rewrite routerSigReq_chop_app by done. simpl. wire_run. by destruct res.
Qed.

Lemma routerSigRes_chop_sound data :
  match routerSigRes_chop data with
  | Ret (res, _) => sigRes_ok res | Fail e => e = ErrDecode | Panic => False
  end.
Proof.
  unfold routerSigRes_chop. pose proof (routerSigReq_chop_sound data).
  destruct (routerSigReq_chop data) as [[? ?]|?|]; simpl; try done. wire_sound. done.
Qed.

#[global] Instance routerSigRes_laws : WireLaws routerSigRes.
Proof.
  split; simpl.
  - intros m. exists (sigRes_bytes m). split; [intros out; apply routerSigRes_encode_eq|apply length_sigRes_bytes].
  - intros m bs Hok. rewrite routerSigRes_encode_eq. intros [= <-].
    unfold routerSigRes_decode. rewrite <- (app_nil_r (sigRes_bytes m)).
    by rewrite routerSigRes_chop_app.
  - intros bs. unfold routerSigRes_decode. pose proof (routerSigRes_chop_sound bs).
    destruct (routerSigRes_chop bs) as [[? ?]|?|]; simpl; try done. wire_sound. done.
Qed.

(** ** routerAnnounce and routerInfo *)

Record routerAnnounce := MkAnnounce {
  ann_key : publicKey;
  ann_parent : publicKey;
  ann_res : routerSigRes;
  ann_sig : signature
}.

#[global] Instance routerAnnounce_eq_dec : EqDecision routerAnnounce.
Proof. solve_decision. Defined.

Definition ann_seq (ann : routerAnnounce) : Z := res_seq (ann_res ann).
Definition ann_nonce (ann : routerAnnounce) : Z := res_nonce (ann_res ann).
Definition ann_port (ann : routerAnnounce) : Z := res_port (ann_res ann).

Definition routerAnnounce_check `{Ed25519} (ann : routerAnnounce) : bool :=
  if (ann_port ann =? 0) && negb (equal (ann_key ann) (ann_parent ann)) then false
  else
    let bs := routerSigRes_bytesForSig (ann_res ann) (ann_key ann) (ann_parent ann) in
    verify (ann_key ann) bs (ann_sig ann) && verify (ann_parent ann) bs (res_psig (ann_res ann)).

Definition routerAnnounce_size (ann : routerAnnounce) : Z :=
  Z.of_nat (length (ann_key ann)) + Z.of_nat (length (ann_parent ann))
    + routerSigRes_size (ann_res ann) + Z.of_nat (length (ann_sig ann)).

Definition routerAnnounce_encode (start : list byte) (ann : routerAnnounce) : result (list byte) :=
  let out := start ++ arr_list (ann_key ann) in
  let out := out ++ arr_list (ann_parent ann) in
  out ← routerSigRes_encode out (ann_res ann);
  let out := out ++ arr_list (ann_sig ann) in
  check_size start out (routerAnnounce_size ann).

Definition routerAnnounce_decode (data : list byte) : result routerAnnounce :=
  '(key, data) ← or_decode_error (wireChopSlice publicKeySize data);
  '(parent, data) ← or_decode_error (wireChopSlice publicKeySize data);
  '(res, data) ← routerSigRes_chop data;
  '(sig, data) ← or_decode_error (wireChopSlice signatureSize data);
  _ ← no_trailing data;
  mret (MkAnnounce key parent res sig).

Definition announce_ok (ann : routerAnnounce) : Prop := sigRes_ok (ann_res ann).
#[global] Instance announce_ok_dec ann : Decision (announce_ok ann) := _.

#[global] Instance routerAnnounce_encodeable : wireEncodeable routerAnnounce :=
  {| size := routerAnnounce_size; encode := routerAnnounce_encode |}.
#[global] Instance routerAnnounce_codec : wireCodec routerAnnounce :=
  {| decode := routerAnnounce_decode; wire_ok := announce_ok |}.

Definition announce_bytes (ann : routerAnnounce) : list byte :=
  arr_list (ann_key ann) ++ arr_list (ann_parent ann) ++ sigRes_bytes (ann_res ann)
    ++ arr_list (ann_sig ann).

Lemma length_announce_bytes ann :
  Z.of_nat (length (announce_bytes ann)) = routerAnnounce_size ann.
Proof.
  unfold announce_bytes, routerAnnounce_size. autorewrite with wire_len.
  rewrite length_sigRes_bytes. lia.
Qed.

Lemma routerAnnounce_encode_eq out ann :
  routerAnnounce_encode out ann = Ret (out ++ announce_bytes ann).
Proof.
  unfold routerAnnounce_encode. rewrite routerSigRes_encode_eq. simpl.
  rewrite <- !app_assoc. apply check_size_app, length_announce_bytes.
Qed.

#[global] Instance routerAnnounce_laws : WireLaws routerAnnounce.
Proof.
  split; simpl.
  - intros m. exists (announce_bytes m). split; [intros out; apply routerAnnounce_encode_eq|apply length_announce_bytes].
  - intros m bs Hok. rewrite routerAnnounce_encode_eq. intros [= <-].
    unfold routerAnnounce_decode, announce_bytes. wire_run.
    rewrite routerSigRes_chop_app by done. simpl.
    rewrite <- (app_nil_r (ann_sig m)). wire_run. by destruct m.
  - intros bs. unfold routerAnnounce_decode. wire_sound.
    pose proof (routerSigRes_chop_sound l0).
    destruct (routerSigRes_chop l0) as [[? ?]|?|]; simpl; try done. wire_sound. done.
Qed.

(** The value stored in the router's [infos] map. *)
Record routerInfo := MkInfo {
  info_parent : publicKey;
  info_res : routerSigRes;
  info_sig : signature
}.

#[global] Instance routerInfo_eq_dec : EqDecision routerInfo.
Proof. solve_decision. Defined.

Definition info_seq (info : routerInfo) : Z := res_seq (info_res info).
Definition info_nonce (info : routerInfo) : Z := res_nonce (info_res info).
Definition info_port (info : routerInfo) : Z := res_port (info_res info).

(** Go's zero value, what a lookup of an absent key yields. *)
Definition zero_info : routerInfo :=
  MkInfo (zero_array 32) (MkSigRes (MkSigReq 0 0) 0 (zero_array 64)) (zero_array 64).

Definition getAnnounce (info : routerInfo) (key : publicKey) : routerAnnounce :=
  {| ann_key := key; ann_parent := info_parent info; ann_res := info_res info;
     ann_sig := info_sig info |}.

Definition info_of_announce (ann : routerAnnounce) : routerInfo :=
  MkInfo (ann_parent ann) (ann_res ann) (ann_sig ann).

Lemma info_of_getAnnounce info key : info_of_announce (getAnnounce info key) = info.
Proof. by destruct info. Qed.

(** ** traffic *)

Record traffic := MkTraffic {
  tr_path : list Z;
  tr_from : list Z;
  tr_source : publicKey;
  tr_dest : publicKey;
  tr_watermark : Z;
  tr_payload : list byte
}.

#[global] Instance traffic_eq_dec : EqDecision traffic.
Proof. solve_decision. Defined.

(** [copyFrom] copies the slices too, so the copy shares nothing. *)
Definition traffic_copyFrom (original : traffic) : traffic :=
  {| tr_path := [] ++ tr_path original; tr_from := [] ++ tr_from original;
     tr_source := tr_source original; tr_dest := tr_dest original;
     tr_watermark := tr_watermark original; tr_payload := [] ++ tr_payload original |}.

Definition traffic_size (tr : traffic) : Z :=
  wireSizePath (tr_path tr) + wireSizePath (tr_from tr)
    + Z.of_nat (length (tr_source tr)) + Z.of_nat (length (tr_dest tr))
    + wireSizeUint (tr_watermark tr) + Z.of_nat (length (tr_payload tr)).

Definition traffic_encode (start : list byte) (tr : traffic) : result (list byte) :=
  let out := wireAppendPath start (tr_path tr) in
  let out := wireAppendPath out (tr_from tr) in
  let out := out ++ arr_list (tr_source tr) in
  let out := out ++ arr_list (tr_dest tr) in
  let out := wireAppendUint out (tr_watermark tr) in
  let out := out ++ tr_payload tr in
  check_size start out (traffic_size tr).

Definition traffic_decode (data : list byte) : result traffic :=
  '(path, data) ← or_decode_error (wireChopPath [] data);
  '(from, data) ← or_decode_error (wireChopPath [] data);
  '(source, data) ← or_decode_error (wireChopSlice publicKeySize data);
  '(dest, data) ← or_decode_error (wireChopSlice publicKeySize data);
  '(watermark, data) ← or_decode_error (wireChopUint data);
  mret (MkTraffic path from source dest watermark data).

Definition traffic_ok (tr : traffic) : Prop :=
  path_ok (tr_path tr) /\ path_ok (tr_from tr) /\ is_u64 (tr_watermark tr).
#[global] Instance traffic_ok_dec tr : Decision (traffic_ok tr) := _.

#[global] Instance traffic_encodeable : wireEncodeable traffic :=
  {| size := traffic_size; encode := traffic_encode |}.
#[global] Instance traffic_codec : wireCodec traffic :=
  {| decode := traffic_decode; wire_ok := traffic_ok |}.

Definition traffic_bytes (tr : traffic) : list byte :=
  wireAppendPath [] (tr_path tr) ++ wireAppendPath [] (tr_from tr)
    ++ arr_list (tr_source tr) ++ arr_list (tr_dest tr)
    ++ wireAppendUint [] (tr_watermark tr) ++ tr_payload tr.

Lemma length_traffic_bytes tr : Z.of_nat (length (traffic_bytes tr)) = traffic_size tr.
Proof. unfold traffic_bytes, traffic_size. wire_len. Qed.

Lemma traffic_encode_eq out tr : traffic_encode out tr = Ret (out ++ traffic_bytes tr).
Proof.
  unfold traffic_encode.
  rewrite wireAppendUint_app, (wireAppendPath_app _ (tr_from tr)), (wireAppendPath_app out).
  rewrite <- !app_assoc. apply check_size_app, length_traffic_bytes.
Qed.

#[global] Instance traffic_laws : WireLaws traffic.
Proof.
  split; simpl.
  - intros m. exists (traffic_bytes m). split; [intros out; apply traffic_encode_eq|apply length_traffic_bytes].
  - intros m bs (? & ? & ?). rewrite traffic_encode_eq. intros [= <-].
    unfold traffic_decode, traffic_bytes. wire_run. by destruct m.
  - intros bs. unfold traffic_decode. wire_sound. done.
Qed.

(** ** pathLookup *)

Record pathLookup := MkLookup {
  lookup_source : publicKey;
  lookup_dest : publicKey;
  lookup_from : list Z
}.

#[global] Instance pathLookup_eq_dec : EqDecision pathLookup.
Proof. solve_decision. Defined.

Definition pathLookup_size (lookup : pathLookup) : Z :=
  Z.of_nat (length (lookup_source lookup)) + Z.of_nat (length (lookup_dest lookup))
    + wireSizePath (lookup_from lookup).

Definition pathLookup_encode (start : list byte) (lookup : pathLookup) : result (list byte) :=
  let out := start ++ arr_list (lookup_source lookup) in
  let out := out ++ arr_list (lookup_dest lookup) in
  let out := wireAppendPath out (lookup_from lookup) in
  check_size start out (pathLookup_size lookup).

Definition pathLookup_decode (data : list byte) : result pathLookup :=
  '(source, orig) ← or_decode_error (wireChopSlice publicKeySize data);
  '(dest, orig) ← or_decode_error (wireChopSlice publicKeySize orig);
  '(from, orig) ← or_decode_error (wireChopPath [] orig);
  _ ← no_trailing orig;
  mret (MkLookup source dest from).

Definition lookup_ok (lookup : pathLookup) : Prop := path_ok (lookup_from lookup).
#[global] Instance lookup_ok_dec lookup : Decision (lookup_ok lookup) := _.

#[global] Instance pathLookup_encodeable : wireEncodeable pathLookup :=
  {| size := pathLookup_size; encode := pathLookup_encode |}.
#[global] Instance pathLookup_codec : wireCodec pathLookup :=
  {| decode := pathLookup_decode; wire_ok := lookup_ok |}.

Definition lookup_bytes (lookup : pathLookup) : list byte :=
  arr_list (lookup_source lookup) ++ arr_list (lookup_dest lookup)
    ++ wireAppendPath [] (lookup_from lookup).

Lemma length_lookup_bytes lookup :
  Z.of_nat (length (lookup_bytes lookup)) = pathLookup_size lookup.
Proof. unfold lookup_bytes, pathLookup_size. wire_len. Qed.

Lemma pathLookup_encode_eq out lookup :
  pathLookup_encode out lookup = Ret (out ++ lookup_bytes lookup).
Proof.
  unfold pathLookup_encode. rewrite wireAppendPath_app, <- !app_assoc.
  apply check_size_app, length_lookup_bytes.
Qed.

#[global] Instance pathLookup_laws : WireLaws pathLookup.
Proof.
  split; simpl.
  - intros m. exists (lookup_bytes m). split; [intros out; apply pathLookup_encode_eq|apply length_lookup_bytes].
  - intros m bs Hok. rewrite pathLookup_encode_eq. intros [= <-].
    unfold pathLookup_decode, lookup_bytes. rewrite <- (app_nil_r (wireAppendPath _ _)).
    wire_run. by destruct m.
  - intros bs. unfold pathLookup_decode. wire_sound. done.
Qed.

(** ** pathNotifyInfo *)

Record pathNotifyInfo := MkNotifyInfo {
  nfo_seq : Z;
  nfo_path : list Z;
  nfo_sig : signature
}.

#[global] Instance pathNotifyInfo_eq_dec : EqDecision pathNotifyInfo.
Proof. solve_decision. Defined.

(** The element-wise loop of [equal], after the length test. *)
Fixpoint paths_equal (a b : list Z) : bool :=
  match a, b with
  | x :: a', y :: b' => if negb (x =? y) then false else paths_equal a' b'
  | _, _ => true
  end.

Definition pathNotifyInfo_equal (info cmp : pathNotifyInfo) : bool :=
  if negb (nfo_seq info =? nfo_seq cmp) then false
  else if negb (length (nfo_path info) =? length (nfo_path cmp))%nat then false
  else paths_equal (nfo_path info) (nfo_path cmp).

Definition pathNotifyInfo_bytesForSig (info : pathNotifyInfo) : list byte :=
  let out := wireAppendUint [] (nfo_seq info) in
  wireAppendPath out (nfo_path info).

Definition pathNotifyInfo_sign `{Ed25519} (info : pathNotifyInfo) (key : privateKey)
    : pathNotifyInfo :=
  MkNotifyInfo (nfo_seq info) (nfo_path info) (sign key (pathNotifyInfo_bytesForSig info)).

Definition pathNotifyInfo_size (info : pathNotifyInfo) : Z :=
  wireSizeUint (nfo_seq info) + wireSizePath (nfo_path info)
    + Z.of_nat (length (nfo_sig info)).

Definition pathNotifyInfo_encode (start : list byte) (info : pathNotifyInfo)
    : result (list byte) :=
  let out := wireAppendUint start (nfo_seq info) in
  let out := wireAppendPath out (nfo_path info) in
  let out := out ++ arr_list (nfo_sig info) in
  check_size start out (pathNotifyInfo_size info).

Definition pathNotifyInfo_decode (data : list byte) : result pathNotifyInfo :=
  '(seq, orig) ← or_decode_error (wireChopUint data);
  '(path, orig) ← or_decode_error (wireChopPath [] orig);
  '(sig, orig) ← or_decode_error (wireChopSlice signatureSize orig);
  _ ← no_trailing orig;
  mret (MkNotifyInfo seq path sig).

Definition notifyInfo_ok (info : pathNotifyInfo) : Prop :=
  is_u64 (nfo_seq info) /\ path_ok (nfo_path info).
#[global] Instance notifyInfo_ok_dec info : Decision (notifyInfo_ok info) := _.

#[global] Instance pathNotifyInfo_encodeable : wireEncodeable pathNotifyInfo :=
  {| size := pathNotifyInfo_size; encode := pathNotifyInfo_encode |}.
#[global] Instance pathNotifyInfo_codec : wireCodec pathNotifyInfo :=
  {| decode := pathNotifyInfo_decode; wire_ok := notifyInfo_ok |}.

Definition notifyInfo_bytes (info : pathNotifyInfo) : list byte :=
  wireAppendUint [] (nfo_seq info) ++ wireAppendPath [] (nfo_path info)
    ++ arr_list (nfo_sig info).

Lemma length_notifyInfo_bytes info :
  Z.of_nat (length (notifyInfo_bytes info)) = pathNotifyInfo_size info.
Proof. unfold notifyInfo_bytes, pathNotifyInfo_size. wire_len. Qed.

Lemma pathNotifyInfo_encode_eq out info :
  pathNotifyInfo_encode out info = Ret (out ++ notifyInfo_bytes info).
Proof.
  unfold pathNotifyInfo_encode. rewrite wireAppendPath_app, wireAppendUint_app, <- !app_assoc.
  apply check_size_app, length_notifyInfo_bytes.
Qed.

#[global] Instance pathNotifyInfo_laws : WireLaws pathNotifyInfo.
Proof.
  split; simpl.
  - intros m. exists (notifyInfo_bytes m). split; [intros out; apply pathNotifyInfo_encode_eq|apply length_notifyInfo_bytes].
  - intros m bs [? ?]. rewrite pathNotifyInfo_encode_eq. intros [= <-].
    unfold pathNotifyInfo_decode, notifyInfo_bytes. rewrite <- (app_nil_r (nfo_sig m)).
    wire_run. by destruct m.
  - intros bs. unfold pathNotifyInfo_decode. wire_sound. done.
Qed.

Lemma paths_equal_eq a b : length a = length b -> paths_equal a b = true <-> a = b.
Proof.
  revert b. induction a as [|x a IH]; intros [|y b]; simpl; try done.
  intros [= Hl]. destruct (Z.eqb_spec x y); simpl; [|naive_solver].
  subst. rewrite IH by done. naive_solver.
Qed.

(** [equal] ignores the signature and nothing else. *)
Lemma pathNotifyInfo_equal_spec a b :
  pathNotifyInfo_equal a b = true <-> nfo_seq a = nfo_seq b /\ nfo_path a = nfo_path b.
Proof.
  unfold pathNotifyInfo_equal. destruct (Z.eqb_spec (nfo_seq a) (nfo_seq b)); simpl; [|naive_solver].
  destruct (Nat.eqb_spec (length (nfo_path a)) (length (nfo_path b))); simpl.
  - rewrite paths_equal_eq by done. naive_solver.
  - split; [done|]. intros [_ E]. by rewrite E in *.
Qed.

(** ** pathNotify *)

Record pathNotify := MkNotify {
  notify_path : list Z;
  notify_watermark : Z;
  notify_source : publicKey;
  notify_dest : publicKey;
  notify_info : pathNotifyInfo
}.

#[global] Instance pathNotify_eq_dec : EqDecision pathNotify.
Proof. solve_decision. Defined.

Definition pathNotify_check `{Ed25519} (notify : pathNotify) : bool :=
  verify (notify_source notify) (pathNotifyInfo_bytesForSig (notify_info notify))
    (nfo_sig (notify_info notify)).

Definition pathNotify_size (notify : pathNotify) : Z :=
  wireSizePath (notify_path notify) + wireSizeUint (notify_watermark notify)
    + Z.of_nat (length (notify_source notify)) + Z.of_nat (length (notify_dest notify))
    + pathNotifyInfo_size (notify_info notify).

Definition pathNotify_encode (start : list byte) (notify : pathNotify) : result (list byte) :=
  let out := wireAppendPath start (notify_path notify) in
  let out := wireAppendUint out (notify_watermark notify) in
  let out := out ++ arr_list (notify_source notify) in
  let out := out ++ arr_list (notify_dest notify) in
  out ← pathNotifyInfo_encode out (notify_info notify);
  check_size start out (pathNotify_size notify).

Definition pathNotify_decode (data : list byte) : result pathNotify :=
  '(path, orig) ← or_decode_error (wireChopPath [] data);
  '(watermark, orig) ← or_decode_error (wireChopUint orig);
  '(source, orig) ← or_decode_error (wireChopSlice publicKeySize orig);
  '(dest, orig) ← or_decode_error (wireChopSlice publicKeySize orig);
  info ← pathNotifyInfo_decode orig;
  mret (MkNotify path watermark source dest info).

Definition notify_ok (notify : pathNotify) : Prop :=
  path_ok (notify_path notify) /\ is_u64 (notify_watermark notify)
    /\ notifyInfo_ok (notify_info notify).
#[global] Instance notify_ok_dec notify : Decision (notify_ok notify) := _.

#[global] Instance pathNotify_encodeable : wireEncodeable pathNotify :=
  {| size := pathNotify_size; encode := pathNotify_encode |}.
#[global] Instance pathNotify_codec : wireCodec pathNotify :=
  {| decode := pathNotify_decode; wire_ok := notify_ok |}.

Definition notify_bytes (notify : pathNotify) : list byte :=
  wireAppendPath [] (notify_path notify) ++ wireAppendUint [] (notify_watermark notify)
    ++ arr_list (notify_source notify) ++ arr_list (notify_dest notify)
    ++ notifyInfo_bytes (notify_info notify).

Lemma length_notify_bytes notify :
  Z.of_nat (length (notify_bytes notify)) = pathNotify_size notify.
Proof.
  unfold notify_bytes, pathNotify_size. autorewrite with wire_len.
  rewrite length_notifyInfo_bytes. simpl. lia.
Qed.

Lemma pathNotify_encode_eq out notify :
  pathNotify_encode out notify = Ret (out ++ notify_bytes notify).
Proof.
  unfold pathNotify_encode. rewrite pathNotifyInfo_encode_eq. simpl.
  rewrite wireAppendUint_app, wireAppendPath_app, <- !app_assoc.
  apply check_size_app, length_notify_bytes.
Qed.

#[global] Instance pathNotify_laws : WireLaws pathNotify.
Proof.
  split; simpl.
  - intros m. exists (notify_bytes m). split; [intros out; apply pathNotify_encode_eq|apply length_notify_bytes].
  - intros m bs (? & ? & ?). rewrite pathNotify_encode_eq. intros [= <-].
    unfold pathNotify_decode, notify_bytes. wire_run.
    pose proof (decode_encode (notify_info m) (notifyInfo_bytes (notify_info m))) as Hd.
    simpl in Hd. rewrite Hd; [by destruct m|done|]. by rewrite pathNotifyInfo_encode_eq.
  - intros bs. unfold pathNotify_decode. wire_sound.
    match goal with |- context [pathNotifyInfo_decode ?d] =>
      pose proof (decode_sound (T := pathNotifyInfo) d) as Hd; simpl in Hd;
      by destruct (pathNotifyInfo_decode d) end.
Qed.

(** ** pathBroken *)

Record pathBroken := MkBroken {
  broken_path : list Z;
  broken_watermark : Z;
  broken_source : publicKey;
  broken_dest : publicKey
}.

#[global] Instance pathBroken_eq_dec : EqDecision pathBroken.
Proof. solve_decision. Defined.

Definition pathBroken_size (broken : pathBroken) : Z :=
  wireSizePath (broken_path broken) + wireSizeUint (broken_watermark broken)
    + Z.of_nat (length (broken_source broken)) + Z.of_nat (length (broken_dest broken)).

Definition pathBroken_encode (start : list byte) (broken : pathBroken) : result (list byte) :=
  let out := wireAppendPath start (broken_path broken) in
  let out := wireAppendUint out (broken_watermark broken) in
  let out := out ++ arr_list (broken_source broken) in
  let out := out ++ arr_list (broken_dest broken) in
  check_size start out (pathBroken_size broken).

Definition pathBroken_decode (data : list byte) : result pathBroken :=
  '(path, orig) ← or_decode_error (wireChopPath [] data);
  '(watermark, orig) ← or_decode_error (wireChopUint orig);
  '(source, orig) ← or_decode_error (wireChopSlice publicKeySize orig);
  '(dest, orig) ← or_decode_error (wireChopSlice publicKeySize orig);
  _ ← no_trailing orig;
  mret (MkBroken path watermark source dest).

Definition broken_ok (broken : pathBroken) : Prop :=
  path_ok (broken_path broken) /\ is_u64 (broken_watermark broken).
#[global] Instance broken_ok_dec broken : Decision (broken_ok broken) := _.

#[global] Instance pathBroken_encodeable : wireEncodeable pathBroken :=
  {| size := pathBroken_size; encode := pathBroken_encode |}.
#[global] Instance pathBroken_codec : wireCodec pathBroken :=
  {| decode := pathBroken_decode; wire_ok := broken_ok |}.

Definition broken_bytes (broken : pathBroken) : list byte :=
  wireAppendPath [] (broken_path broken) ++ wireAppendUint [] (broken_watermark broken)
    ++ arr_list (broken_source broken) ++ arr_list (broken_dest broken).

Lemma length_broken_bytes broken :
  Z.of_nat (length (broken_bytes broken)) = pathBroken_size broken.
Proof. unfold broken_bytes, pathBroken_size. wire_len. Qed.

Lemma pathBroken_encode_eq out broken :
  pathBroken_encode out broken = Ret (out ++ broken_bytes broken).
Proof.
  unfold pathBroken_encode. rewrite wireAppendUint_app, wireAppendPath_app, <- !app_assoc.
  apply check_size_app, length_broken_bytes.
Qed.

#[global] Instance pathBroken_laws : WireLaws pathBroken.
Proof.
  split; simpl.
  - intros m. exists (broken_bytes m). split; [intros out; apply pathBroken_encode_eq|apply length_broken_bytes].
  - intros m bs [? ?]. rewrite pathBroken_encode_eq. intros [= <-].
    unfold pathBroken_decode, broken_bytes. rewrite <- (app_nil_r (broken_dest m)).
    wire_run. by destruct m.
  - intros bs. unfold pathBroken_decode. wire_sound. done.
Qed.

(** ** pqPacket: the packets a peer may queue *)

Inductive pqPacket :=
| PqTraffic (tr : traffic)
| PqLookup (lookup : pathLookup)
| PqNotify (notify : pathNotify)
| PqBroken (broken : pathBroken).

#[global] Instance pqPacket_eq_dec : EqDecision pqPacket.
Proof. solve_decision. Defined.

Definition pq_wireType (p : pqPacket) : wirePacketType :=
  match p with
  | PqTraffic _ => wireTraffic | PqLookup _ => wireProtoPathLookup
  | PqNotify _ => wireProtoPathNotify | PqBroken _ => wireProtoPathBroken
  end.

Definition sourceKey (p : pqPacket) : publicKey :=
  match p with
  | PqTraffic tr => tr_source tr | PqLookup l => lookup_source l
  | PqNotify n => notify_source n | PqBroken b => broken_source b
  end.

Definition destKey (p : pqPacket) : publicKey :=
  match p with
  | PqTraffic tr => tr_dest tr | PqLookup l => lookup_dest l
  | PqNotify n => notify_dest n | PqBroken b => broken_dest b
  end.

Definition pq_size (p : pqPacket) : Z :=
  match p with
  | PqTraffic tr => traffic_size tr | PqLookup l => pathLookup_size l
  | PqNotify n => pathNotify_size n | PqBroken b => pathBroken_size b
  end.

Lemma pq_size_pos p : 0 < pq_size p.
Proof.
  destruct p as [m|m|m|m]; simpl.
  - rewrite <- length_traffic_bytes. unfold traffic_bytes. rewrite !length_app, !length_array. lia.
  - rewrite <- length_lookup_bytes. unfold lookup_bytes. rewrite !length_app, !length_array. lia.
  - rewrite <- length_notify_bytes. unfold notify_bytes. rewrite !length_app, !length_array. lia.
  - rewrite <- length_broken_bytes. unfold broken_bytes. rewrite !length_app, !length_array. lia.
Qed.
