(* ===== verification/Bloom.v ===== *)
(** * Bloom filters on the wire

    The [bloom] type of [ironwood/network/bloomfilter.go] and the part of the
    vendored bits-and-blooms library it calls. Only the murmur hash of the
    library, [baseHashes], is left abstract. *)

From S2P Require Import Prelude Crypto Wire Binary Messages.

Definition bloomFilterF : nat := 16.
Definition bloomFilterU : nat := bloomFilterF * 8.
Definition bloomFilterB : nat := bloomFilterU * 8.
Definition bloomFilterM : Z := Z.of_nat bloomFilterU * 8 * 8.
Definition bloomFilterK : nat := 8.

(** ** The vendored library *)

(** The four 64-bit hash values of [baseHashes]. *)
Class BloomHash := { baseHashes : list byte -> Z * Z * Z * Z }.

Record BloomFilter := MkFilter { bf_m : Z; bf_k : nat; bf_b : list Z }.

#[global] Instance BloomFilter_eq_dec : EqDecision BloomFilter.
Proof. solve_decision. Defined.

Definition bfilter_New (m : Z) (k : nat) : BloomFilter :=
  {| bf_m := Z.max 1 m; bf_k := Nat.max 1 k; bf_b := replicate (Z.to_nat ((m + 63) / 64)) 0 |}.

Definition bfilter_From (data : list Z) (k : nat) : BloomFilter :=
  {| bf_m := Z.of_nat (length data) * 64; bf_k := k; bf_b := data |}.

(** [h[ii%2] + ii*h[2+(((ii+(ii%2))%4)/2)]] *)
Definition bfilter_location (h : Z * Z * Z * Z) (i : nat) (m : Z) : Z :=
  let '(h0, h1, h2, h3) := h in
  let ii := Z.of_nat i in
  let a := if ii mod 2 =? 0 then h0 else h1 in
  let b := if ((ii + ii mod 2) mod 4) / 2 =? 0 then h2 else h3 in
  u64 (a + u64 (ii * b)) mod m.

Definition bitset_Test (set : list Z) (i : Z) : bool :=
  if Z.of_nat (length set) * 64 <=? i then false
  else negb (Z.land (set !!! Z.to_nat (Z.shiftr i 6)) (Z.shiftl 1 (i mod 64)) =? 0).

Definition bitset_Set (set : list Z) (i : Z) : list Z :=
  alter (fun w => Z.lor w (Z.shiftl 1 (i mod 64))) (Z.to_nat (Z.shiftr i 6)) set.

Section bloom.
Context `{BloomHash}.

Definition bfilter_Add (f : BloomFilter) (data : list byte) : BloomFilter :=
  let h := baseHashes data in
  MkFilter (bf_m f) (bf_k f)
    (fold_left (fun b i => bitset_Set b (bfilter_location h i (bf_m f))) (seq 0 (bf_k f)) (bf_b f)).

Definition bfilter_Test (f : BloomFilter) (data : list byte) : bool :=
  let h := baseHashes data in
  forallb (fun i => bitset_Test (bf_b f) (bfilter_location h i (bf_m f))) (seq 0 (bf_k f)).

(** The error of [Merge] on a mismatch is ignored by every caller. *)
Definition bfilter_Merge (f g : BloomFilter) : BloomFilter :=
  if negb (bf_m f =? bf_m g) then f
  else if negb (bf_k f =? bf_k g)%nat then f
  else MkFilter (bf_m f) (bf_k f) (zip_with Z.lor (bf_b f) (bf_b g)).

Definition bfilter_Copy (f : BloomFilter) : BloomFilter :=
  bfilter_Merge (bfilter_New (bf_m f) (bf_k f)) f.

Definition bfilter_Equal (f g : BloomFilter) : bool :=
  (bf_m f =? bf_m g) && (bf_k f =? bf_k g)%nat && bool_decide (bf_b f = bf_b g).

(** ** type bloom *)

Record bloom := MkBloom { filter : BloomFilter }.

Definition newBloom : bloom := MkBloom (bfilter_New bloomFilterM bloomFilterK).
Definition addKey (b : bloom) (key : publicKey) : bloom :=
  MkBloom (bfilter_Add (filter b) (arr_list key)).
Definition addFilter (b : bloom) (f : BloomFilter) : bloom :=
  MkBloom (bfilter_Merge (filter b) f).
End bloom.

#[global] Instance bloom_eq_dec : EqDecision bloom.
Proof. solve_decision. Defined.

Definition bloom_size (b : bloom) : Z :=
  Z.of_nat bloomFilterF + Z.of_nat bloomFilterF +
  fold_right (fun u size => if negb (u =? 0) && negb (u =? max_u64) then size + 8 else size) 0
    (bf_b (filter b)).

(** [flags[idx/8] |= 0x80 >> (uint64(idx) % 8)] *)
Definition set_flag (flags : list byte) (idx : nat) : list byte :=
  alter (fun b => z2b (Z.lor (b2z b) (Z.shiftr 128 (Z.of_nat idx mod 8)))) (idx `div` 8)%nat flags.

(** [flags[idx/8] & (0x80 >> (uint64(idx) % 8)) != 0]; the index may be out of range. *)
Definition flag_set (b : byte) (idx : nat) : bool :=
  negb (Z.land (b2z b) (Z.shiftr 128 (Z.of_nat idx mod 8)) =? 0).
Definition read_flag (flags : list byte) (idx : nat) : result bool :=
  match flags !! (idx `div` 8)%nat with Some b => Ret (flag_set b idx) | None => Panic end.

(** [binary.BigEndian.Uint64] *)
Definition BigEndian_Uint64 (b : list byte) : result Z :=
  b ← go_slice b 0 8; Ret (be_val b).

(** The loop over the words: the two flag arrays and the words kept. *)
Fixpoint encode_words (idx : nat) (us : list Z) (flags0 flags1 : list byte) (keep : list Z)
    : list byte * list byte * list Z :=
  match us with
  | [] => (flags0, flags1, keep)
  | u :: us' =>
      if u =? 0 then encode_words (S idx) us' (set_flag flags0 idx) flags1 keep
      else if u =? max_u64 then encode_words (S idx) us' flags0 (set_flag flags1 idx) keep
      else encode_words (S idx) us' flags0 flags1 (keep ++ [u])
  end.

Definition bloom_encode (start : list byte) (b : bloom) : result (list byte) :=
  let us := bf_b (filter b) in
  let '(flags0, flags1, keep) :=
    encode_words 0 us (zero_array bloomFilterF) (zero_array bloomFilterF) [] in
  let out := start ++ flags0 in
  let out := out ++ flags1 in
  let out := fold_left (fun out u => out ++ be_bytes 8 u) keep out in
  check_size start out (bloom_size b).

(** The loop [for idx := 0; idx < bloomFilterU; idx++], [n] rounds left. *)
Fixpoint decode_words (n idx : nat) (flags0 flags1 : list byte) (data : list byte) (us : list Z)
    : result (list Z * list byte) :=
  match n with
  | O => mret (us, data)
  | S n' =>
      flag0 ← read_flag flags0 idx;
      flag1 ← read_flag flags1 idx;
      if flag0 && flag1 then Fail ErrDecode
      else if flag0 then decode_words n' (S idx) flags0 flags1 data (us ++ [0])
      else if flag1 then decode_words n' (S idx) flags0 flags1 data (us ++ [max_u64])
      else if (8 <=? length data)%nat then
        front ← go_slice data 0 8;
        u ← BigEndian_Uint64 front;
        data ← go_slice data 8 (Z.of_nat (length data));
        decode_words n' (S idx) flags0 flags1 data (us ++ [u])
      else Fail ErrDecode
  end.

Definition bloom_decode (data : list byte) : result bloom :=
  '(flags0, data) ← or_decode_error (wireChopSlice bloomFilterF data);
  '(flags1, data) ← or_decode_error (wireChopSlice bloomFilterF data);
  '(us, data) ← decode_words bloomFilterU 0 (arr_list flags0) (arr_list flags1) data [];
  _ ← no_trailing data;
  mret (MkBloom (bfilter_From us bloomFilterK)).

(** The filters of this program: 8192 bits, 8 hashes, 128 64-bit words. *)
Definition bloom_ok (b : bloom) : Prop :=
  bf_m (filter b) = bloomFilterM /\ bf_k (filter b) = bloomFilterK
    /\ length (bf_b (filter b)) = bloomFilterU /\ Forall is_u64 (bf_b (filter b)).
#[global] Instance bloom_ok_dec b : Decision (bloom_ok b) := _.

#[global] Instance bloom_encodeable : wireEncodeable bloom :=
  {| size := bloom_size; encode := bloom_encode |}.
#[global] Instance bloom_codec : wireCodec bloom :=
  {| decode := bloom_decode; wire_ok := bloom_ok |}.

(** ** Flags *)

Lemma shiftr_128 k : 0 <= k < 8 -> Z.shiftr 128 k = 2 ^ (7 - k).
Proof.
  intros. rewrite Z.shiftr_div_pow2 by lia. change 128 with (2 ^ 7).
  symmetry. apply Z.pow_sub_r; lia.
Qed.

Lemma land_pow2_testbit a n : 0 <= n -> negb (Z.land a (2 ^ n) =? 0) = Z.testbit a n.
Proof.
  intros Hn. destruct (Z.eqb_spec (Z.land a (2 ^ n)) 0) as [E|E]; simpl.
  - pose proof (f_equal (fun z => Z.testbit z n) E) as E'. cbv beta in E'.
    rewrite Z.land_spec, Z.pow2_bits_true, Z.bits_0, andb_true_r in E' by done. done.
  - destruct (Z.testbit a n) eqn:Ht; [done|]. destruct E. apply Z.bits_inj'.
    intros m Hm. rewrite Z.land_spec, Z.bits_0, Z.pow2_bits_eqb by done.
    destruct (Z.eqb_spec n m) as [->|]; [by rewrite Ht|apply andb_false_r].
Qed.

(** A flag of an index in range. *)
Definition get_flag (flags : list byte) (idx : nat) : bool := flag_set (flags !!! (idx `div` 8)%nat) idx.

Lemma read_flag_eq flags idx : length flags = bloomFilterF -> (idx < bloomFilterU)%nat ->
  read_flag flags idx = Ret (get_flag flags idx).
Proof.
  intros Hf Hi. unfold read_flag, get_flag. rewrite list_lookup_total_alt.
  destruct (lookup_lt_is_Some_2 flags (idx `div` 8)%nat) as [b ->]; [|done].
  rewrite Hf. apply Nat.Div0.div_lt_upper_bound. change (8 * bloomFilterF)%nat with bloomFilterU. done.
Qed.

Lemma get_flag_testbit flags idx :
  get_flag flags idx =
    Z.testbit (b2z (flags !!! (idx `div` 8)%nat)) (7 - Z.of_nat idx mod 8).
Proof.
  unfold get_flag, flag_set. pose proof (Z.mod_pos_bound (Z.of_nat idx) 8 ltac:(lia)).
  rewrite shiftr_128, land_pow2_testbit by lia. done.
Qed.

Lemma length_set_flag flags idx : length (set_flag flags idx) = length flags.
Proof. apply length_alter. Qed.

Lemma get_set_flag flags i j :
  (i < 8 * length flags)%nat -> (j < 8 * length flags)%nat ->
  get_flag (set_flag flags i) j = bool_decide (i = j) || get_flag flags j.
Proof.
  intros Hi Hj. rewrite !get_flag_testbit. unfold set_flag.
  pose proof (Z.mod_pos_bound (Z.of_nat i) 8 ltac:(lia)).
  pose proof (Z.mod_pos_bound (Z.of_nat j) 8 ltac:(lia)).
  assert (i `div` 8 < length flags)%nat as Hd by (apply Nat.Div0.div_lt_upper_bound; lia).
  rewrite !list_lookup_total_alt. destruct (decide (i `div` 8 = j `div` 8)%nat) as [E|E].
  - rewrite <- E, list_lookup_alter_eq.
    destruct (lookup_lt_is_Some_2 flags _ Hd) as [b Hb]. rewrite Hb. simpl.
    rewrite b2z_z2b, shiftr_128 by lia. change 256 with (2 ^ 8).
    rewrite Z.mod_pow2_bits_low, Z.lor_spec, Z.pow2_bits_eqb by lia.
    rewrite orb_comm. f_equal. rewrite bool_decide_decide.
    case_decide; [subst; apply Z.eqb_refl|]. apply Z.eqb_neq.
    apply (f_equal Z.of_nat) in E. rewrite !Nat2Z.inj_div in E. change (Z.of_nat 8) with 8 in E.
    pose proof (Z.div_mod (Z.of_nat i) 8). pose proof (Z.div_mod (Z.of_nat j) 8). lia.
  - rewrite list_lookup_alter_ne by done. rewrite bool_decide_eq_false_2; [done|congruence].
Qed.

Lemma get_flag_zero n j : get_flag (zero_array n) j = false.
Proof.
  rewrite get_flag_testbit, list_lookup_total_alt. unfold zero_array, array_of, arr_list.
  rewrite resize_nil. destruct (decide (j `div` 8 < n)%nat).
  - rewrite lookup_replicate_2 by done. apply Z.bits_0.
  - rewrite (proj2 (lookup_ge_None _ _)); [apply Z.bits_0|]. rewrite length_replicate. lia.
Qed.

(** ** The codec laws *)

Definition word_kept (u : Z) : bool := negb (u =? 0) && negb (u =? max_u64).

Definition keep_bytes (us : list Z) : list byte := concat (map (be_bytes 8) (List.filter word_kept us)).

Lemma length_keep_bytes us :
  Z.of_nat (length (keep_bytes us)) =
  fold_right (fun u size => if negb (u =? 0) && negb (u =? max_u64) then size + 8 else size) 0 us.
Proof.
  unfold keep_bytes. induction us as [|u us IH]; [done|]. cbn [List.filter fold_right].
  unfold word_kept at 1. destruct (negb (u =? 0) && negb (u =? max_u64)); [|done].
  cbn [map concat]. rewrite length_app, length_be_bytes. lia.
Qed.

Lemma keep_bytes_cons u us :
  keep_bytes (u :: us) = (if word_kept u then be_bytes 8 u else []) ++ keep_bytes us.
Proof. unfold keep_bytes. cbn [List.filter]. by destruct (word_kept u). Qed.

(** One word that was kept is read back. *)
Lemma chop_word {A} u rest (k : Z -> list byte -> result A) : is_u64 u ->
  (if (8 <=? length (be_bytes 8 u ++ rest))%nat then
     front ← go_slice (be_bytes 8 u ++ rest) 0 8;
     v ← BigEndian_Uint64 front;
     data ← go_slice (be_bytes 8 u ++ rest) 8 (Z.of_nat (length (be_bytes 8 u ++ rest)));
     k v data
   else Fail ErrDecode) = k u rest.
Proof.
  intros Hu. replace (8 <=? _)%nat with true by (symmetry; apply Nat.leb_le; rewrite length_app, length_be_bytes; lia).
  rewrite go_slice_to by (rewrite length_app, length_be_bytes; lia). rewrite outcome_bind_ret.
  rewrite take_app_length' by by rewrite length_be_bytes.
  unfold BigEndian_Uint64. rewrite go_slice_to by (rewrite length_be_bytes; lia). rewrite outcome_bind_ret.
  rewrite take_ge by (rewrite length_be_bytes; lia). rewrite be_val_bytes_u64, outcome_bind_ret by done.
  by rewrite go_slice_app by by rewrite length_be_bytes.
Qed.

(** Encoding sets flags from [idx] on only, and decoding from there returns the words. *)
Lemma encode_decode_words us : forall idx f0 f1 keep rest acc,
  length f0 = bloomFilterF -> length f1 = bloomFilterF ->
  (idx + length us <= bloomFilterU)%nat -> Forall is_u64 us ->
  (forall j, (idx <= j < bloomFilterU)%nat -> get_flag f0 j = false /\ get_flag f1 j = false) ->
  exists g0 g1,
    encode_words idx us f0 f1 keep = (g0, g1, keep ++ List.filter word_kept us) /\
    length g0 = bloomFilterF /\ length g1 = bloomFilterF /\
    (forall j, (j < idx)%nat -> get_flag g0 j = get_flag f0 j /\ get_flag g1 j = get_flag f1 j) /\
    decode_words (length us) idx g0 g1 (keep_bytes us ++ rest) acc = Ret (acc ++ us, rest).
Proof.
  assert (bloomFilterU = 8 * bloomFilterF)%nat as HU by done.
  induction us as [|u us IH]; intros idx f0 f1 keep rest acc H0 H1 Hi Hu Hclr; simpl in Hi.
  { exists f0, f1. rewrite !app_nil_r. done. }
  apply Forall_cons in Hu as [Hu Hus].
  assert (forall f j, length f = bloomFilterF -> (j < bloomFilterU)%nat ->
    get_flag (set_flag f idx) j = bool_decide (idx = j) || get_flag f j) as Hset.
  { intros f j Hf Hj. apply get_set_flag; lia. }
  cbn [encode_words List.filter]. unfold word_kept at 1.
  destruct (Hclr idx) as [Hc0 Hc1]; [lia|].
  destruct (Z.eqb_spec u 0) as [->|Hn0]; [|destruct (Z.eqb_spec u max_u64) as [->|Hn1]]; simpl.
  - destruct (IH (S idx) (set_flag f0 idx) f1 keep rest (acc ++ [0]))
      as (g0 & g1 & -> & Hg0 & Hg1 & Hlow & Hdec); try done; [by rewrite length_set_flag|lia| |].
    { intros j Hj. rewrite Hset, bool_decide_eq_false_2 by lia. apply Hclr. lia. }
    exists g0, g1. split_and!; try done.
    + intros j Hj. destruct (Hlow j) as [-> ->]; [lia|].
      rewrite Hset, bool_decide_eq_false_2 by lia. done.
    + destruct (Hlow idx) as [E0 E1]; [lia|]. cbn [length decode_words].
      rewrite !read_flag_eq, !outcome_bind_ret by (done || lia). rewrite E0, E1, Hc1, Hset by lia.
      rewrite bool_decide_eq_true_2 by done. cbn [orb andb].
      rewrite keep_bytes_cons. simpl. by rewrite Hdec, <- app_assoc.
  - destruct (IH (S idx) f0 (set_flag f1 idx) keep rest (acc ++ [max_u64]))
      as (g0 & g1 & -> & Hg0 & Hg1 & Hlow & Hdec); try done; [by rewrite length_set_flag|lia| |].
    { intros j Hj. rewrite Hset, bool_decide_eq_false_2 by lia. apply Hclr. lia. }
    exists g0, g1. split_and!; try done.
    + intros j Hj. destruct (Hlow j) as [-> ->]; [lia|].
      rewrite Hset, bool_decide_eq_false_2 by lia. done.
    + destruct (Hlow idx) as [E0 E1]; [lia|]. cbn [length decode_words].
      rewrite !read_flag_eq, !outcome_bind_ret by (done || lia). rewrite E0, E1, Hc0, Hset by lia.
      rewrite bool_decide_eq_true_2 by done. cbn [orb andb].
      rewrite keep_bytes_cons. simpl. by rewrite Hdec, <- app_assoc.
  - destruct (IH (S idx) f0 f1 (keep ++ [u]) rest (acc ++ [u]))
      as (g0 & g1 & -> & Hg0 & Hg1 & Hlow & Hdec); try done; [lia| |].
    { intros j Hj. apply Hclr. lia. }
    exists g0, g1. rewrite <- app_assoc. split_and!; try done.
    + intros j Hj. apply Hlow. lia.
    + destruct (Hlow idx) as [E0 E1]; [lia|]. cbn [length decode_words].
      rewrite !read_flag_eq, !outcome_bind_ret by (done || lia). rewrite E0, E1, Hc0, Hc1. cbn [andb].
      assert (word_kept u = true) as Hk by (unfold word_kept; lia).
      rewrite keep_bytes_cons, Hk, <- app_assoc.
      etrans; [exact (chop_word u _ (fun v data => decode_words (length us) (S idx) g0 g1 data (acc ++ [v])) Hu)|].
      by rewrite Hdec, <- app_assoc.
Qed.

(** The encoding of a well-formed filter. *)
Lemma fold_left_app_bytes us : forall out,
  fold_left (fun out u => out ++ be_bytes 8 u) us out = out ++ concat (map (be_bytes 8) us).
Proof.
  induction us as [|u us IH]; intros out; simpl; [by rewrite app_nil_r|].
  by rewrite IH, <- app_assoc.
Qed.

Lemma length_encode_words us : forall idx f0 f1 keep g0 g1 k,
  encode_words idx us f0 f1 keep = (g0, g1, k) ->
  length g0 = length f0 /\ length g1 = length f1 /\ k = keep ++ List.filter word_kept us.
Proof.
  induction us as [|u us IH]; intros idx f0 f1 keep g0 g1 k; cbn [encode_words List.filter].
  { intros [= <- <- <-]. by rewrite app_nil_r. }
  unfold word_kept at 1. destruct (u =? 0), (u =? max_u64); simpl; intros E; apply IH in E;
    rewrite ?length_set_flag, <- ?app_assoc in E; done.
Qed.

Lemma bloom_encode_eq b :
  exists g0 g1, length g0 = bloomFilterF /\ length g1 = bloomFilterF /\
    encode_words 0 (bf_b (filter b)) (zero_array bloomFilterF) (zero_array bloomFilterF) []
      = (g0, g1, List.filter word_kept (bf_b (filter b))) /\
    (forall out, bloom_encode out b = Ret (out ++ g0 ++ g1 ++ keep_bytes (bf_b (filter b)))) /\
    Z.of_nat (length (g0 ++ g1 ++ keep_bytes (bf_b (filter b)))) = bloom_size b.
Proof.
  unfold bloom_encode.
  destruct (encode_words 0 _ _ _ _) as [[g0 g1] k] eqn:E.
  apply length_encode_words in E as (H0 & H1 & ->). rewrite length_array in *.
  exists g0, g1.
  assert (Z.of_nat (length (g0 ++ g1 ++ keep_bytes (bf_b (filter b)))) = bloom_size b) as Hsz.
  { rewrite !length_app, H0, H1. unfold bloom_size. rewrite <- length_keep_bytes. lia. }
  split_and!; try done. intros out. rewrite fold_left_app_bytes. simpl app.
  rewrite <- !app_assoc. by rewrite check_size_app.
Qed.

Lemma decode_words_sound n : forall idx f0 f1 data us,
  length f0 = bloomFilterF -> length f1 = bloomFilterF -> (idx + n <= bloomFilterU)%nat ->
  Forall is_u64 us ->
  match decode_words n idx f0 f1 data us with
  | Ret (us', _) => Forall is_u64 us' /\ length us' = (length us + n)%nat
  | Fail e => e = ErrDecode
  | Panic => False
  end.
Proof.
  induction n as [|n IH]; intros idx f0 f1 data us H0 H1 Hn Hus; cbn [decode_words]; [simpl; auto with lia|].
  assert (forall u data', is_u64 u ->
    match decode_words n (S idx) f0 f1 data' (us ++ [u]) with
    | Ret (us', _) => Forall is_u64 us' /\ length us' = (length us + S n)%nat
    | Fail e => e = ErrDecode | Panic => False end) as Hstep.
  { intros u data' Hu. specialize (IH (S idx) f0 f1 data' (us ++ [u])).
    rewrite length_app in IH. replace (length us + S n)%nat with (length us + 1 + n)%nat by lia.
    apply IH; try done; [lia|]. apply Forall_app. auto. }
  rewrite !read_flag_eq, !outcome_bind_ret by (done || lia).
  destruct (get_flag f0 idx), (get_flag f1 idx); cbn [andb]; try done.
  - apply Hstep. done.
  - apply Hstep. done.
  - destruct (8 <=? length data)%nat eqn:E; [|done]. apply Nat.leb_le in E.
    rewrite go_slice_to, outcome_bind_ret by lia. unfold BigEndian_Uint64.
    rewrite go_slice_to, outcome_bind_ret by (rewrite length_take; lia). rewrite outcome_bind_ret.
    rewrite go_slice_from, outcome_bind_ret by lia. rewrite take_take.
    apply Hstep, be_val_u64. rewrite length_take. lia.
Qed.

#[global] Arguments decode_words : simpl never.
#[global] Arguments encode_words : simpl never.

#[global] Instance bloom_laws : WireLaws bloom.
Proof.
  split; simpl.
  - intros b. destruct (bloom_encode_eq b) as (g0 & g1 & _ & _ & _ & E & <-). eauto.
  - intros b bs (Hm & Hk & Hl & Hu) E.
    destruct (bloom_encode_eq b) as (g0 & g1 & H0 & H1 & Henc & E' & _).
    rewrite E' in E. injection E as <-.
    destruct (encode_decode_words (bf_b (filter b)) 0 (zero_array bloomFilterF)
      (zero_array bloomFilterF) [] [] []) as (g0' & g1' & Henc' & _ & _ & _ & Hdec);
      try done; [by rewrite length_array..|rewrite Hl; lia| |].
    { intros j _. split; apply get_flag_zero. }
    rewrite Henc' in Henc. injection Henc as -> ->.
    unfold bloom_decode.
    rewrite wireChopSlice_list by done. cbn [or_decode_error mbind outcome_bind].
    rewrite wireChopSlice_list by done. cbn [or_decode_error mbind outcome_bind].
    rewrite !array_of_exact by done. rewrite app_nil_r, Hl in Hdec. rewrite Hdec. simpl.
    destruct b as [[m k us]]; simpl in *. subst. unfold bfilter_From. do 3 f_equal.
    by rewrite Hl.
  - intros bs. unfold bloom_decode. wire_sound.
    match goal with |- context [decode_words ?n ?i ?f0 ?f1 ?d []] =>
      pose proof (decode_words_sound n i f0 f1 d [] (length_array _) (length_array _) (le_n _) (Forall_nil_2 _)) as Hd;
      destruct (decode_words n i f0 f1 d []) as [[us ?]|?|]; simpl; try done end.
    wire_sound. destruct Hd as [? Hl]. unfold bloom_ok; simpl. rewrite Hl. done.
Qed.

(** ** Membership: no false negatives *)

(** Bit [i] of a word array. *)
Definition bit_at (set : list Z) (i : Z) : bool :=
  Z.testbit (set !!! Z.to_nat (i / 64)) (i mod 64).

Lemma bitset_Test_bit set i :
  0 <= i < Z.of_nat (length set) * 64 -> bitset_Test set i = bit_at set i.
Proof.
  intros Hi. unfold bitset_Test, bit_at. destruct (Z.leb_spec (Z.of_nat (length set) * 64) i); [lia|].
  pose proof (Z.mod_pos_bound i 64 ltac:(lia)).
  rewrite Z.shiftl_1_l, Z.shiftr_div_pow2, land_pow2_testbit by lia. done.
Qed.

Lemma bit_at_Set set i j :
  0 <= i < Z.of_nat (length set) * 64 -> 0 <= j ->
  bit_at (bitset_Set set i) j = bool_decide (i = j) || bit_at set j.
Proof.
  intros Hi Hj. unfold bit_at, bitset_Set.
  pose proof (Z.mod_pos_bound i 64 ltac:(lia)). pose proof (Z.mod_pos_bound j 64 ltac:(lia)).
  pose proof (Z.div_mod i 64 ltac:(lia)). pose proof (Z.div_mod j 64 ltac:(lia)).
  rewrite Z.shiftl_1_l, Z.shiftr_div_pow2 by lia. change (2 ^ 6) with 64.
  rewrite !list_lookup_total_alt. destruct (decide (i / 64 = j / 64)) as [E|E].
  - rewrite <- E, list_lookup_alter_eq.
    destruct (lookup_lt_is_Some_2 set (Z.to_nat (i / 64))) as [w Hw]; [lia|].
    rewrite Hw. simpl. rewrite Z.lor_spec, Z.pow2_bits_eqb, orb_comm by lia. f_equal.
    rewrite bool_decide_decide. case_decide; [subst; apply Z.eqb_refl|]. apply Z.eqb_neq. lia.
  - rewrite list_lookup_alter_ne by lia. rewrite bool_decide_eq_false_2; [done|congruence].
Qed.

Lemma length_bitset_Set set i : length (bitset_Set set i) = length set.
Proof. apply length_alter. Qed.

Lemma bit_at_lor a b i :
  length a = length b -> 0 <= i < Z.of_nat (length a) * 64 ->
  bit_at (zip_with Z.lor a b) i = bit_at a i || bit_at b i.
Proof.
  intros Hl Hi. unfold bit_at. rewrite !list_lookup_total_alt, lookup_zip_with.
  pose proof (Z.div_mod i 64 ltac:(lia)). pose proof (Z.mod_pos_bound i 64 ltac:(lia)).
  destruct (lookup_lt_is_Some_2 a (Z.to_nat (i / 64))) as [x Hx]; [lia|].
  destruct (lookup_lt_is_Some_2 b (Z.to_nat (i / 64))) as [y Hy]; [lia|].
  rewrite Hx, Hy. simpl. apply Z.lor_spec.
Qed.

Lemma bfilter_location_range h i m : 0 < m -> 0 <= bfilter_location h i m < m.
Proof. intros. destruct h as [[[? ?] ?] ?]. by apply Z.mod_pos_bound. Qed.

Section membership.
Context `{BloomHash}.

Lemma bloom_ok_new : bloom_ok newBloom.
Proof. apply (bool_decide_unpack _). vm_compute. exact I. Qed.

Lemma fold_Set_spec (ls : list nat) (loc : nat -> Z) : forall set,
  (forall i, 0 <= loc i < Z.of_nat (length set) * 64) ->
  let set' := fold_left (fun b i => bitset_Set b (loc i)) ls set in
  length set' = length set /\
  forall j, 0 <= j -> bit_at set' j = true <->
    (exists i, i ∈ ls /\ loc i = j) \/ bit_at set j = true.
Proof.
  induction ls as [|k ls IH]; intros set Hloc; simpl.
  - split; [done|]. intros j _. set_solver.
  - destruct (IH (bitset_Set set (loc k))) as [Hl Hb]; [by rewrite length_bitset_Set|].
    rewrite length_bitset_Set in Hl. split; [done|]. intros j Hj.
    rewrite Hb, bit_at_Set, orb_true_iff, bool_decide_eq_true by (done || apply Hloc).
    set_solver.
Qed.

Lemma is_u64_lor a b : is_u64 a -> is_u64 b -> is_u64 (Z.lor a b).
Proof.
  intros [Ha Ha'] [Hb Hb']. unfold is_u64.
  assert (0 <= Z.lor a b) by (apply Z.lor_nonneg; lia). split; [done|].
  destruct (decide (Z.lor a b = 0)); [lia|]. apply Z.log2_lt_pow2; [lia|].
  rewrite Z.log2_lor by lia.
  destruct (decide (a = 0)) as [->|], (decide (b = 0)) as [->|];
    simpl; try apply Z.max_lub_lt; try apply Z.log2_lt_pow2; lia.
Qed.

Lemma is_u64_fold_Set (ls : list nat) (loc : nat -> Z) : forall set,
  Forall is_u64 set -> Forall is_u64 (fold_left (fun b i => bitset_Set b (loc i)) ls set).
Proof.
  induction ls as [|k ls IH]; intros set Hs; simpl; [done|]. apply IH.
  apply Forall_alter; [done|]. intros w _ Hw. apply is_u64_lor; [done|].
  pose proof (Z.mod_pos_bound (loc k) 64 ltac:(lia)).
  rewrite Z.shiftl_1_l. split; [apply Z.pow_nonneg; lia|]. apply Z.pow_lt_mono_r; lia.
Qed.

Lemma bloom_ok_addKey b key : bloom_ok b -> bloom_ok (addKey b key).
Proof.
  intros (Hm & Hk & Hl & Hu). unfold bloom_ok, addKey, bfilter_Add. simpl.
  split_and!; try done.
  - destruct (fold_Set_spec (seq 0 (bf_k (filter b)))
      (fun i => bfilter_location (baseHashes key) i (bf_m (filter b))) (bf_b (filter b)))
      as [-> _]; [|done].
    intros i. rewrite Hl, Hm. by apply bfilter_location_range.
  - by apply is_u64_fold_Set.
Qed.

Lemma bloom_ok_addFilter b c : bloom_ok b -> bloom_ok c -> bloom_ok (addFilter b (filter c)).
Proof.
  intros (Hm & Hk & Hl & Hu) (Hm' & Hk' & Hl' & Hu'). unfold bloom_ok, addFilter, bfilter_Merge.
  rewrite Hm, Hk, Hm', Hk'. simpl. split_and!; try done.
  - rewrite length_zip_with, Hl, Hl'. done.
  - apply Forall_lookup. intros i x Hx.
    apply lookup_zip_with_Some in Hx as (y & z & -> & Hy & Hz).
    apply is_u64_lor; [by eapply Forall_lookup in Hu|by eapply Forall_lookup in Hu'].
Qed.

Lemma bfilter_Test_spec b x :
  bloom_ok b ->
  bfilter_Test (filter b) x = true <->
  forall i, (i < bloomFilterK)%nat ->
    bit_at (bf_b (filter b)) (bfilter_location (baseHashes x) i bloomFilterM) = true.
Proof.
  intros (Hm & Hk & Hl & _). unfold bfilter_Test. rewrite Hm, Hk, forallb_forall.
  split; intros Ht i Hi.
  - rewrite <- bitset_Test_bit; [apply Ht, in_seq; lia|].
    rewrite Hl. by apply bfilter_location_range.
  - rewrite bitset_Test_bit; [apply Ht; apply in_seq in Hi; lia|].
    rewrite Hl. by apply bfilter_location_range.
Qed.

Lemma bfilter_Test_addKey b key :
  bloom_ok b -> bfilter_Test (filter (addKey b key)) key = true.
Proof.
  intros Hb. apply bfilter_Test_spec; [by apply bloom_ok_addKey|].
  destruct Hb as (Hm & Hk & Hl & _). intros i Hi.
  unfold addKey, bfilter_Add. simpl. rewrite Hm, Hk.
  destruct (fold_Set_spec (seq 0 bloomFilterK)
    (fun i => bfilter_location (baseHashes key) i bloomFilterM) (bf_b (filter b))) as [_ Hbit].
  { intros j. rewrite Hl. by apply bfilter_location_range. }
  apply Hbit; [by apply bfilter_location_range|]. left. exists i.
  split; [|done]. apply elem_of_seq. lia.
Qed.

(** A merge holds exactly the bits of both sides. *)
Lemma bit_at_addFilter b c i :
  bloom_ok b -> bloom_ok c -> 0 <= i < bloomFilterM ->
  bit_at (bf_b (filter (addFilter b (filter c)))) i =
    bit_at (bf_b (filter b)) i || bit_at (bf_b (filter c)) i.
Proof.
  intros (Hm & Hk & Hl & _) (Hm' & Hk' & Hl' & _) Hi. unfold addFilter, bfilter_Merge.
  rewrite Hm, Hk, Hm', Hk'. simpl. apply bit_at_lor; [congruence|]. by rewrite Hl.
Qed.

Lemma bfilter_Test_merge b c x :
  bloom_ok b -> bloom_ok c ->
  bfilter_Test (filter b) x = true \/ bfilter_Test (filter c) x = true ->
  bfilter_Test (filter (addFilter b (filter c))) x = true.
Proof.
  intros Hb Hc Ht. apply bfilter_Test_spec; [by apply bloom_ok_addFilter|].
  intros i Hi. rewrite bit_at_addFilter by (done || by apply bfilter_location_range).
  destruct Ht as [Ht|Ht]; rewrite bfilter_Test_spec in Ht by done;
    rewrite (Ht i Hi); [done|apply orb_true_r].
Qed.

(** Keys added, then anything merged in: the keys are still found. *)
Lemma addKey_keeps b key x :
  bloom_ok b -> bfilter_Test (filter b) x = true ->
  bfilter_Test (filter (addKey b key)) x = true.
Proof.
  intros Hb Ht. apply bfilter_Test_spec; [by apply bloom_ok_addKey|].
  rewrite bfilter_Test_spec in Ht by done.
  destruct Hb as (Hm & Hk & Hl & _). intros i Hi.
  unfold addKey, bfilter_Add. simpl. rewrite Hm, Hk.
  destruct (fold_Set_spec (seq 0 bloomFilterK)
    (fun i => bfilter_location (baseHashes key) i bloomFilterM) (bf_b (filter b))) as [_ Hbit].
  { intros j. rewrite Hl. by apply bfilter_location_range. }
  apply Hbit; [by apply bfilter_location_range|]. right. by apply Ht.
Qed.

(** Two filters of this program are equal when they agree bit by bit. *)
Lemma bloom_ext b c :
  bloom_ok b -> bloom_ok c ->
  (forall i, 0 <= i < bloomFilterM ->
    bit_at (bf_b (filter b)) i = bit_at (bf_b (filter c)) i) -> b = c.
Proof.
  destruct b as [[m k us]], c as [[m' k' us']].
  intros (? & ? & Hl & Hu) (? & ? & Hl' & Hu') Hbit; simpl in *; subst. do 2 f_equal.
  apply list_eq_same_length with (n := bloomFilterU); [done|done|].
  intros i x y Hi Hx Hy. apply Z.bits_inj'. intros n Hn.
  assert (is_u64 x) by by eapply Forall_lookup in Hu.
  assert (is_u64 y) by by eapply Forall_lookup in Hu'.
  destruct (Z.lt_ge_cases n 64) as [Hn'|Hn'].
  - specialize (Hbit (Z.of_nat i * 64 + n)). unfold bit_at in Hbit.
    rewrite Z.div_add_l, (Z.div_small n 64), Z.add_0_r, Nat2Z.id in Hbit by lia.
    rewrite Z.add_comm, Z.mod_add, Z.mod_small in Hbit by lia.
    rewrite (list_lookup_total_correct _ _ _ Hx), (list_lookup_total_correct _ _ _ Hy) in Hbit.
    apply Hbit. unfold bloomFilterM. lia.
  - unfold is_u64 in *. rewrite <- (Z.mod_small x (2 ^ 64)), <- (Z.mod_small y (2 ^ 64)) by done.
    by rewrite !Z.mod_pow2_bits_high by lia.
Qed.

Lemma bfilter_Equal_eq b c : bfilter_Equal (filter b) (filter c) = true <-> b = c.
Proof.
  unfold bfilter_Equal. destruct b as [[m k us]], c as [[m' k' us']]; simpl.
  rewrite !andb_true_iff, Z.eqb_eq, Nat.eqb_eq, bool_decide_eq_true. naive_solver.
Qed.

Lemma bfilter_Copy_eq b : bloom_ok b -> MkBloom (bfilter_Copy (filter b)) = b.
Proof.
  intros Hb. assert (MkBloom (bfilter_Copy (filter b)) = addFilter newBloom (filter b)) as ->.
  { destruct Hb as (Hm & Hk & _). unfold bfilter_Copy. by rewrite Hm, Hk. }
  apply bloom_ext; [apply bloom_ok_addFilter; [apply bloom_ok_new|done]|done|].
  intros i Hi. rewrite bit_at_addFilter by (done || apply bloom_ok_new).
  replace (bit_at (bf_b (filter newBloom)) i) with false; [done|].
  unfold bit_at. rewrite list_lookup_total_alt.
  change (bf_b (filter newBloom)) with (replicate (Z.to_nat ((bloomFilterM + 63) / 64)) 0).
  rewrite lookup_replicate_2; [by rewrite Z.bits_0|].
  change (Z.to_nat ((bloomFilterM + 63) / 64)) with 128%nat.
  change bloomFilterM with 8192 in Hi.
  assert (i / 64 < 128) by (apply Z.div_lt_upper_bound; lia).
  pose proof (Z.div_pos i 64). lia.
Qed.
End membership.

#[export] Hint Resolve bloom_ok_new bloom_ok_addKey bloom_ok_addFilter : ygg.
