(* ===== verification/WireFormat.v ===== *)
(** * The wire format as a whole

    Theorems about all message types of the routing protocol at once
    ([router.go], [traffic.go], [pathfinder.go] and [bloomfilter.go] under
    [ironwood/network/]): encoding and decoding are inverse, decoding
    arbitrary bytes is safe, and the bytes that are signed determine what they
    say. *)

From S2P Require Import Prelude Crypto Wire Binary Messages Bloom.

(** ** What a codec promises *)

Definition round_trips (T : Type) `{wireCodec T} : Prop :=
  forall (m : T) out, wire_ok m ->
    exists bs, encode out m = Ret (out ++ bs) /\ Z.of_nat (length bs) = size m /\
      decode bs = Ret m.

(** Arbitrary bytes are rejected with [ErrDecode], or give a message that
    encodes to bytes which give it again. *)
Definition decodes_safely (T : Type) `{wireCodec T} : Prop :=
  forall bs, decode (T := T) bs = Fail ErrDecode \/
    exists (m : T) bs', decode bs = Ret m /\ wire_ok m /\ encode [] m = Ret bs' /\ decode bs' = Ret m.

Section laws.
Context {T : Type} `{WireLaws T}.

Lemma laws_round_trip : round_trips T.
Proof.
  intros m out Hok. destruct (encode_total m) as (bs & E & Hl). exists bs.
  split_and!; [done|done|]. apply decode_encode; [done|apply E].
Qed.

Lemma laws_decode_safely : decodes_safely T.
Proof.
  intros bs. pose proof (decode_sound (T := T) bs) as Hs.
  destruct (decode bs) as [m|e|]; [right|left; by rewrite Hs|done].
  destruct (laws_round_trip m [] Hs) as (bs' & E & _ & Hd). by exists m, bs'.
Qed.
End laws.

#[export] Hint Resolve laws_round_trip laws_decode_safely : ygg.

(** ** Reading signed bytes back *)

Lemma chop_uint_inj u v x y :
  is_u64 u -> is_u64 v -> wireAppendUint [] u ++ x = wireAppendUint [] v ++ y -> u = v /\ x = y.
Proof.
  intros Hu Hv E. pose proof (wireChopUint_append u x Hu) as H1. rewrite E in H1.
  rewrite wireChopUint_append in H1 by done. naive_solver.
Qed.

Lemma array_app_inj {n} (a b : array n) x y :
  arr_list a ++ x = arr_list b ++ y -> a = b /\ x = y.
Proof.
  intros E. apply app_inj_1 in E as [E ->]; [|by rewrite !length_array].
  split; [by apply array_eq|done].
Qed.

Lemma sigRes_bytesForSig_eq res node parent :
  routerSigRes_bytesForSig res node parent =
    arr_list node ++ arr_list parent ++ wireAppendUint [] (res_seq res) ++
    wireAppendUint [] (res_nonce res) ++ wireAppendUint [] (res_port res) ++ [].
Proof.
  unfold routerSigRes_bytesForSig, routerSigReq_bytesForSig. rewrite routerSigReq_encode_eq.
  rewrite wireAppendUint_app, app_nil_r. by rewrite <- !app_assoc.
Qed.

(** ** Theorems *)

(** C10: every message of the protocol that is well formed (its integers fit 64 bits, its paths
    hold no zero port, its filter has the protocol's size) is written with exactly the announced
    number of bytes after what the buffer held, without a panic, and reading those bytes gives
    the message back. *)
Theorem messages_round_trip :
  round_trips routerSigReq /\ round_trips routerSigRes /\ round_trips routerAnnounce /\
  round_trips traffic /\ round_trips pathLookup /\ round_trips pathNotifyInfo /\
  round_trips pathNotify /\ round_trips pathBroken /\ round_trips bloom.
Proof. split_and!; apply laws_round_trip. Qed.

(** C11: no bytes make a decoder of the protocol panic: every decoder rejects its input with
    [ErrDecode] or returns a well-formed message, which can be sent on and read again. *)
Theorem messages_decode_safely :
  decodes_safely routerSigReq /\ decodes_safely routerSigRes /\ decodes_safely routerAnnounce /\
  decodes_safely traffic /\ decodes_safely pathLookup /\ decodes_safely pathNotifyInfo /\
  decodes_safely pathNotify /\ decodes_safely pathBroken /\ decodes_safely bloom.
Proof. split_and!; apply laws_decode_safely. Qed.

(** C12: a signature covers what it should: responses whose signed bytes are equal name the same
    node, parent, sequence number, nonce and port, so that no announcement can be passed off as
    another, and notifies with equal signed bytes carry the same sequence number and path. *)
Theorem signed_bytes_determine res res' node node' parent parent' info info' :
  sigRes_ok res -> sigRes_ok res' -> notifyInfo_ok info -> notifyInfo_ok info' ->
  (routerSigRes_bytesForSig res node parent = routerSigRes_bytesForSig res' node' parent' ->
    node = node' /\ parent = parent' /\ res_req res = res_req res' /\ res_port res = res_port res')
  /\ (pathNotifyInfo_bytesForSig info = pathNotifyInfo_bytesForSig info' ->
    pathNotifyInfo_equal info info' = true).
Proof.
  intros [[Hs Hn] Hp] [[Hs' Hn'] Hp'] [Hq Hpath] [Hq' Hpath']. split.
  - rewrite !sigRes_bytesForSig_eq. intros E.
    apply array_app_inj in E as [-> E]. apply array_app_inj in E as [-> E].
    apply chop_uint_inj in E as [E1 E]; [|done..]. apply chop_uint_inj in E as [E2 E]; [|done..].
    apply chop_uint_inj in E as [E3 _]; [|done..].
    destruct res as [[] ? ?], res' as [[] ? ?]; unfold res_seq, res_nonce in *; simpl in *. by subst.
  - unfold pathNotifyInfo_bytesForSig.
    rewrite (wireAppendPath_app (wireAppendUint [] _)), (wireAppendPath_app (wireAppendUint [] (nfo_seq info'))).
    intros E. apply chop_uint_inj in E as [E1 E]; [|done..].
    apply pathNotifyInfo_equal_spec. split; [done|].
    apply (f_equal (wireChopPath [])) in E.
    rewrite <- (app_nil_r (wireAppendPath [] (nfo_path info))) in E.
    rewrite <- (app_nil_r (wireAppendPath [] (nfo_path info'))) in E.
    rewrite !wireChopPath_append in E by done. naive_solver.
Qed.

Lemma signed_bytes_determine_witness :
  let res := MkSigRes (MkSigReq 1 2) 3 (zero_array 64) in
  let info := MkNotifyInfo 5 [1; 2] (zero_array 64) in
  (routerSigRes_bytesForSig res (zero_array 32) (zero_array 32) =
     routerSigRes_bytesForSig res (zero_array 32) (zero_array 32) ->
   zero_array 32 = zero_array 32 /\ zero_array 32 = zero_array 32 /\
   res_req res = res_req res /\ res_port res = res_port res) /\
  (pathNotifyInfo_bytesForSig info = pathNotifyInfo_bytesForSig info ->
   pathNotifyInfo_equal info info = true).
Proof.
  apply (signed_bytes_determine _ _ (zero_array 32) (zero_array 32) (zero_array 32) (zero_array 32));
    apply (bool_decide_unpack _); vm_compute; exact I.
Defined.
