(* ===== verification/GoHeap.v ===== *)
(** * container/heap

    Go's [container/heap] on slices ordered by an integer key ([Less(i, j)]
    compares the keys of the elements at [i] and [j]): [up], [down], [Fix] and
    [Remove], with the proof that they keep the heap order and the elements. *)

From S2P Require Import Prelude.
From stdpp Require Import list.

#[local] Open Scope nat_scope.

Definition parent (j : nat) : nat := (j - 1) / 2.

Section heap.
Context {A : Type} (key : A -> Z).
Implicit Types (l : list A).

Definition key_at l (i : nat) : Z :=
  match l !! i with Some x => key x | None => 0%Z end.

Definition less_at l (i j : nat) : bool := (key_at l i <? key_at l j)%Z.

(** [h[i], h[j] = h[j], h[i]] *)
Definition swap l (i j : nat) : list A :=
  match l !! i, l !! j with
  | Some x, Some y => <[i := y]> (<[j := x]> l)
  | _, _ => l
  end.

Fixpoint up (rounds : nat) l (j : nat) : list A :=
  match rounds with
  | O => l
  | S rounds' =>
      let i := parent j in
      if (i =? j) || negb (less_at l j i) then l
      else up rounds' (swap l i j) i
  end.

(** Returns the list and the final position; Go's result is [i > i0]. *)
Fixpoint down (rounds : nat) l (i n : nat) : list A * nat :=
  match rounds with
  | O => (l, i)
  | S rounds' =>
      let j1 := 2 * i + 1 in
      if n <=? j1 then (l, i)
      else
        let j2 := j1 + 1 in
        let j := if (j2 <? n) && less_at l j2 j1 then j2 else j1 in
        if negb (less_at l j i) then (l, i)
        else down rounds' (swap l i j) j n
  end.

Definition down_or_up l (i n : nat) : list A :=
  let '(l', i') := down n l i n in
  if i <? i' then l' else up (S i) l' i.

(** [heap.Fix(h, i)] *)
Definition Fix l (i : nat) : list A := down_or_up l i (length l).

(** [heap.Remove(h, i)] up to the final [h.Pop()]: the element to pop is last. *)
Definition Remove_front l (i : nat) : list A :=
  let n := length l - 1 in
  if n =? i then l else down_or_up (swap l i n) i n.

Definition Remove l (i : nat) : list A :=
  take (length l - 1) (Remove_front l i).

(** The first [n] elements are in heap order. *)
Definition heap_upto l (n : nat) : Prop :=
  forall j, 0 < j < n -> (key_at l (parent j) <= key_at l j)%Z.

Definition is_heap l : Prop := heap_upto l (length l).

(** ** Lemmas *)

Lemma parent_lt j : 0 < j -> parent j < j.
Proof. unfold parent. intros. apply Nat.Div0.div_lt_upper_bound. lia. Qed.

Lemma parent_child i j : 0 < j -> parent j = i <-> j = 2 * i + 1 \/ j = 2 * i + 2.
Proof.
  intros Hj. unfold parent. pose proof (Nat.div_mod_eq (j - 1) 2).
  pose proof (Nat.mod_upper_bound (j - 1) 2). lia.
Qed.

Lemma length_swap l i j : length (swap l i j) = length l.
Proof.
  unfold swap. destruct (l !! i), (l !! j); rewrite ?length_insert; done.
Qed.

Lemma swap_perm l i j : swap l i j ≡ₚ l.
Proof.
  unfold swap. destruct (l !! i) as [x|] eqn:Ei; [|done].
  destruct (l !! j) as [y|] eqn:Ej; [|done]. by apply Permutation_insert_swap.
Qed.

Lemma lookup_swap l i j k :
  i < length l -> j < length l ->
  swap l i j !! k = if decide (k = i) then l !! j else if decide (k = j) then l !! i else l !! k.
Proof.
  intros Hi Hj. unfold swap.
  destruct (lookup_lt_is_Some_2 l i Hi) as [x Hx], (lookup_lt_is_Some_2 l j Hj) as [y Hy].
  rewrite Hx, Hy. repeat case_decide; subst.
  - apply list_lookup_insert_eq. by rewrite length_insert.
  - rewrite list_lookup_insert_ne by done. by apply list_lookup_insert_eq.
  - by rewrite !list_lookup_insert_ne by done.
Qed.

Lemma key_at_swap l i j k :
  i < length l -> j < length l ->
  key_at (swap l i j) k =
    if decide (k = i) then key_at l j else if decide (k = j) then key_at l i else key_at l k.
Proof. intros. unfold key_at. rewrite lookup_swap by done. by repeat case_decide. Qed.

(** *** up *)

(** Every edge holds except the one above [i]; what is below [i] is at least
    what is above it. *)
Definition up_inv l (i n : nat) : Prop :=
  (forall j, 0 < j < n -> j <> i -> (key_at l (parent j) <= key_at l j)%Z) /\
  (forall j, 0 < i -> 0 < j < n -> parent j = i -> (key_at l (parent i) <= key_at l j)%Z).

Lemma length_up rounds : forall l j, length (up rounds l j) = length l.
Proof.
  induction rounds as [|rounds IH]; intros l j; simpl; [done|].
  destruct (_ || _); [done|]. by rewrite IH, length_swap.
Qed.

Lemma up_perm rounds : forall l j, up rounds l j ≡ₚ l.
Proof.
  induction rounds as [|rounds IH]; intros l j; simpl; [done|].
  destruct (_ || _); [done|]. by rewrite IH, swap_perm.
Qed.

Lemma up_above rounds : forall l j k,
  j < k -> j < length l -> up rounds l j !! k = l !! k.
Proof.
  induction rounds as [|rounds IH]; intros l j k Hk Hj; simpl; [done|].
  destruct (Nat.eqb_spec (parent j) j); simpl; [done|].
  destruct (less_at l j (parent j)); simpl; [|done].
  assert (parent j < j) by (apply parent_lt; unfold parent in *; destruct j; [done|lia]).
  rewrite IH by (rewrite ?length_swap; lia). rewrite lookup_swap by lia.
  rewrite !decide_False by lia. done.
Qed.

Lemma up_heap rounds : forall l j n,
  j < rounds -> j < n <= length l -> up_inv l j n -> heap_upto (up rounds l j) n.
Proof.
  induction rounds as [|rounds IH]; intros l j n Hr Hn [He Hg]; [lia|]. simpl.
  destruct (Nat.eqb_spec (parent j) j) as [E|E]; simpl.
  { destruct (decide (j = 0)) as [->|]; [|pose proof (parent_lt j); lia].
    intros k Hk. apply He; lia. }
  assert (0 < j) as Hj0 by (destruct j; [by destruct E|lia]).
  pose proof (parent_lt j Hj0) as Hpj. unfold less_at.
  destruct (Z.ltb_spec (key_at l j) (key_at l (parent j))) as [Hlt|Hge]; simpl.
  2: { intros k Hk. destruct (decide (k = j)) as [->|]; [done|]. by apply He. }
  apply IH; [lia|rewrite length_swap; lia|]. split.
  - intros k Hk Hne. rewrite !key_at_swap by lia.
    destruct (decide (parent k = parent j)) as [Ep|Ep].
    + pose proof (parent_lt k (proj1 Hk)).
      rewrite (decide_False (P := k = parent j)) by lia. case_decide; [lia|].
      specialize (He k Hk). rewrite Ep in He. specialize (He ltac:(done)). lia.
    + rewrite (decide_False (P := k = parent j)) by done.
      rewrite (decide_False (P := k = j)) by (intros ->; done).
      case_decide as Ek; [by apply Hg|].
      apply He; [done|]. by intros ->.
  - intros k Hpos Hk Ek. pose proof (parent_lt (parent j) Hpos).
    rewrite !key_at_swap by lia.
    rewrite (decide_False (P := parent (parent j) = _)) by lia.
    rewrite (decide_False (P := parent (parent j) = _)) by lia.
    pose proof (parent_lt k (proj1 Hk)).
    rewrite (decide_False (P := k = parent j)) by lia.
    pose proof (He (parent j) ltac:(lia) ltac:(lia)).
    case_decide; [done|]. specialize (He k Hk ltac:(done)). rewrite Ek in He. lia.
Qed.

(** *** down *)

(** Every edge holds except those below [i]; what is below [i] is at least
    what is above it. *)
Definition down_inv l (i n : nat) : Prop :=
  (forall j, 0 < j < n -> parent j <> i -> (key_at l (parent j) <= key_at l j)%Z) /\
  (forall j, 0 < i -> 0 < j < n -> parent j = i -> (key_at l (parent i) <= key_at l j)%Z).

Lemma length_down rounds : forall l i n, length (down rounds l i n).1 = length l.
Proof.
  induction rounds as [|rounds IH]; intros l i n; cbn [down]; [done|].
  destruct (n <=? _); [done|]. destruct (negb _); [done|]. by rewrite IH, length_swap.
Qed.

Lemma down_perm rounds : forall l i n, (down rounds l i n).1 ≡ₚ l.
Proof.
  induction rounds as [|rounds IH]; intros l i n; cbn [down]; [done|].
  destruct (n <=? _); [done|]. destruct (negb _); [done|]. by rewrite IH, swap_perm.
Qed.

(** The child [down] looks at: a child of [i] whose key is least. *)
Definition min_child l (i n : nat) : nat :=
  if (2 * i + 1 + 1 <? n) && less_at l (2 * i + 1 + 1) (2 * i + 1)
  then 2 * i + 1 + 1 else 2 * i + 1.

Lemma min_child_spec l i n :
  2 * i + 1 < n ->
  let j := min_child l i n in
  0 < j < n /\ parent j = i /\
  forall k, 0 < k < n -> parent k = i -> (key_at l j <= key_at l k)%Z.
Proof.
  intros Hn. unfold min_child, less_at. cbv zeta.
  assert (forall k, 0 < k -> parent k = i -> k = 2 * i + 1 \/ k = 2 * i + 2) as Hc
    by (intros k ? ?; by apply parent_child).
  destruct (Nat.ltb_spec (2 * i + 1 + 1) n); cbn [andb].
  - destruct (Z.ltb_spec (key_at l (2 * i + 1 + 1)) (key_at l (2 * i + 1))).
    + split_and!; [lia|lia|apply parent_child; lia|].
      intros k Hk Ek. destruct (Hc k ltac:(lia) Ek) as [->| ->]; [lia|].
      replace (2 * i + 2) with (2 * i + 1 + 1) by lia. lia.
    + split_and!; [lia|lia|apply parent_child; lia|].
      intros k Hk Ek. destruct (Hc k ltac:(lia) Ek) as [->| ->]; [lia|].
      replace (2 * i + 2) with (2 * i + 1 + 1) by lia. lia.
  - split_and!; [lia|lia|apply parent_child; lia|].
    intros k Hk Ek. destruct (Hc k ltac:(lia) Ek) as [->| ->]; lia.
Qed.

(** Unfolding one round. *)
Lemma down_step rounds l i n :
  down (S rounds) l i n =
    if n <=? 2 * i + 1 then (l, i)
    else if negb (less_at l (min_child l i n) i) then (l, i)
    else down rounds (swap l i (min_child l i n)) (min_child l i n) n.
Proof. done. Qed.

Lemma down_swap_inv l i n :
  n <= length l -> 2 * i + 1 < n ->
  (forall j, 0 < j < n -> parent j <> i -> j <> i -> (key_at l (parent j) <= key_at l j)%Z) ->
  (forall j, 0 < i -> 0 < j < n -> parent j = i -> (key_at l (parent i) <= key_at l j)%Z) ->
  (key_at l (min_child l i n) < key_at l i)%Z ->
  down_inv (swap l i (min_child l i n)) (min_child l i n) n.
Proof.
  intros Hn Hi He Hg Hlt. destruct (min_child_spec l i n Hi) as ((Hj0 & Hjn) & Hpj & Hmin).
  set (j := min_child l i n) in *. pose proof (parent_lt j Hj0).
  split.
  - intros k Hk Hne. rewrite !key_at_swap by lia.
    rewrite (decide_False (P := parent k = j)) by done.
    pose proof (parent_lt k (proj1 Hk)).
    destruct (decide (parent k = i)) as [E|E].
    + rewrite (decide_False (P := k = i)) by lia. case_decide; [lia|]. by apply Hmin.
    + destruct (decide (k = i)) as [->|].
      * apply Hg; [lia|lia|done].
      * rewrite decide_False by (intros ->; done). by apply He.
  - intros k _ Hk Ek. pose proof (parent_lt k (proj1 Hk)).
    rewrite !key_at_swap by lia. rewrite Hpj, (decide_True (P := i = i)) by done.
    rewrite (decide_False (P := k = i)) by lia. rewrite (decide_False (P := k = j)) by lia.
    specialize (He k Hk). rewrite Ek in He. apply He; lia.
Qed.

Lemma down_full rounds : forall l i n,
  n <= i + rounds -> n <= length l -> i < n -> down_inv l i n ->
  heap_upto (down rounds l i n).1 n /\ i <= (down rounds l i n).2.
Proof.
  induction rounds as [|rounds IH]; intros l i n Hr Hn Hin [He Hg]; [lia|].
  rewrite down_step. destruct (Nat.leb_spec n (2 * i + 1)) as [Hle|Hgt]; simpl.
  { split; [|done]. intros j Hj. apply He; [done|]. intros E.
    apply parent_child in E; lia. }
  destruct (min_child_spec l i n Hgt) as ((Hj0 & Hjn) & Hpj & Hmin).
  pose proof (parent_lt _ Hj0).
  destruct (less_at l (min_child l i n) i) eqn:Hlt; unfold less_at in Hlt;
    [apply Z.ltb_lt in Hlt|apply Z.ltb_ge in Hlt]; simpl.
  - destruct (IH (swap l i (min_child l i n)) (min_child l i n) n) as [H1 H2];
      [lia|by rewrite length_swap|lia|apply down_swap_inv; auto|]. split; [done|lia].
  - split; [|done]. intros j Hj. destruct (decide (parent j = i)) as [E|E]; [|by apply He].
    rewrite E. specialize (Hmin j Hj E). lia.
Qed.

Lemma down_beyond rounds : forall l i n k,
  n <= k -> n <= length l -> i < n -> (down rounds l i n).1 !! k = l !! k.
Proof.
  induction rounds as [|rounds IH]; intros l i n k Hk Hl Hi; [done|].
  rewrite down_step. destruct (Nat.leb_spec n (2 * i + 1)); [done|].
  destruct (min_child_spec l i n) as ((Hj0 & Hjn) & _ & _); [done|].
  destruct (negb _); [done|]. rewrite IH by (rewrite ?length_swap; lia).
  rewrite lookup_swap by lia. rewrite !decide_False by lia. done.
Qed.

(** The precondition of [Fix] and [Remove]: only the edges at [i] may be wrong. *)
Definition almost_heap l (i n : nat) : Prop :=
  (forall j, 0 < j < n -> parent j <> i -> j <> i -> (key_at l (parent j) <= key_at l j)%Z) /\
  (forall j, 0 < i -> 0 < j < n -> parent j = i -> (key_at l (parent i) <= key_at l j)%Z).

Lemma down_or_up_heap l i n :
  i < n -> n <= length l -> almost_heap l i n -> heap_upto (down_or_up l i n) n.
Proof.
  intros Hi Hn [He Hg]. unfold down_or_up.
  destruct n as [|n']; [lia|]. rewrite down_step. set (n := S n') in *.
  destruct (Nat.leb_spec n (2 * i + 1)) as [Hle|Hgt].
  { rewrite Nat.ltb_irrefl. apply up_heap; [lia|lia|]. split; [|done].
    intros j Hj Hne. apply He; [done| |done]. intros E. apply parent_child in E; lia. }
  destruct (min_child_spec l i n Hgt) as ((Hj0 & Hjn) & Hpj & Hmin).
  pose proof (parent_lt _ Hj0).
  destruct (less_at l (min_child l i n) i) eqn:Hlt; unfold less_at in Hlt;
    [apply Z.ltb_lt in Hlt|apply Z.ltb_ge in Hlt]; cbn [negb].
  - destruct (down_full n' (swap l i (min_child l i n)) (min_child l i n) n) as [H1 H2];
      [lia|by rewrite length_swap|lia|apply down_swap_inv; auto|].
    cbv iota. destruct (down n' _ _ n) as [l' i']; simpl in *.
    replace (i <? i') with true by (symmetry; apply Nat.ltb_lt; lia). done.
  - cbv iota. rewrite Nat.ltb_irrefl. apply up_heap; [lia|lia|]. split; [|done].
    intros j Hj Hne. destruct (decide (parent j = i)) as [E|E]; [|by apply He].
    rewrite E. specialize (Hmin j Hj E). lia.
Qed.

Lemma down_or_up_perm l i n : down_or_up l i n ≡ₚ l.
Proof.
  unfold down_or_up. pose proof (down_perm n l i n) as Hp.
  destruct (down n l i n) as [l' i']; simpl in Hp. by destruct (i <? i'); rewrite ?up_perm.
Qed.

Lemma length_down_or_up l i n : length (down_or_up l i n) = length l.
Proof. apply Permutation_length, down_or_up_perm. Qed.

Lemma down_or_up_beyond l i n k :
  n <= k -> n <= length l -> i < n -> down_or_up l i n !! k = l !! k.
Proof.
  intros Hk Hl Hi. unfold down_or_up.
  pose proof (down_beyond n l i n k Hk Hl Hi) as Hb. pose proof (length_down n l i n) as Hd.
  destruct (down n l i n) as [l' i']; simpl in Hb, Hd. destruct (i <? i'); [done|].
  rewrite <- Hb. apply up_above; lia.
Qed.

Lemma almost_heap_insert l i x n :
  n <= length l -> i < n -> heap_upto l n -> almost_heap (<[i := x]> l) i n.
Proof.
  intros Hl Hi Hh. unfold key_at.
  assert (forall k, k <> i -> key_at (<[i := x]> l) k = key_at l k) as Hk.
  { intros k Hk. unfold key_at. by rewrite list_lookup_insert_ne by done. }
  split.
  - intros j Hj H1 H2. rewrite !Hk by done. by apply Hh.
  - intros j H0 Hj E. pose proof (parent_lt i H0). pose proof (parent_lt j (proj1 Hj)).
    rewrite !Hk by lia. etrans; [apply Hh; lia|]. rewrite <- E. by apply Hh.
Qed.

(** [Fix] after the element at [i] changed. *)
Lemma Fix_heap l i x :
  i < length l -> is_heap l -> is_heap (Fix (<[i := x]> l) i).
Proof.
  intros Hi Hh. unfold is_heap, Fix. rewrite length_down_or_up.
  apply down_or_up_heap; rewrite ?length_insert; [done|done|].
  by apply almost_heap_insert.
Qed.

Lemma Fix_perm l i : Fix l i ≡ₚ l.
Proof. apply down_or_up_perm. Qed.

(** [Remove]: what is left is a heap, and with the removed element a
    permutation of what was there. *)
Lemma Remove_spec l i x y :
  is_heap l -> l !! i = Some x -> is_heap (Remove (<[i := y]> l) i)
    /\ y :: Remove (<[i := y]> l) i ≡ₚ <[i := y]> l
    /\ last (Remove_front (<[i := y]> l) i) = Some y.
Proof.
  intros Hh Hx. pose proof (lookup_lt_Some _ _ _ Hx) as Hi.
  set (l1 := <[i := y]> l). assert (length l1 = length l) as Hl1 by apply length_insert.
  set (n := length l - 1).
  assert (l1 !! i = Some y) as Hy by by apply list_lookup_insert_eq.
  assert (exists l2, Remove_front l1 i = l2 /\ l2 ≡ₚ l1 /\ heap_upto l2 n
            /\ l2 !! n = Some y) as (l2 & E & Hp & Hh2 & Hlast).
  { eexists. split; [done|]. unfold Remove_front. rewrite Hl1. fold n.
    destruct (Nat.eqb_spec n i) as [E|E].
    - split; [done|]. split; [|by rewrite E]. intros j Hj.
      pose proof (parent_lt j (proj1 Hj)). unfold key_at, l1.
      rewrite !list_lookup_insert_ne by lia. apply Hh. lia.
    - split; [by rewrite down_or_up_perm, swap_perm|]. split.
      + apply down_or_up_heap; [lia|rewrite length_swap; lia|].
        destruct (almost_heap_insert l i y n) as [He Hg]; [lia|lia|intros j Hj; apply Hh; lia|].
        assert (forall k, k < n -> k <> i -> key_at (swap l1 i n) k = key_at l1 k) as Hk.
        { intros k ? ?. rewrite key_at_swap by lia. by rewrite !decide_False by lia. }
        split.
        * intros j Hj H1 H2. pose proof (parent_lt j (proj1 Hj)).
          rewrite !Hk by lia. by apply He.
        * intros j H0 Hj Ej. pose proof (parent_lt i H0). pose proof (parent_lt j (proj1 Hj)).
          rewrite !Hk by lia. by apply Hg.
      + rewrite down_or_up_beyond by (rewrite ?length_swap; lia).
        rewrite lookup_swap by lia. rewrite decide_False by lia. by rewrite decide_True. }
  assert (length l2 = S n) as Hl2 by (apply Permutation_length in Hp; lia).
  assert (l2 = take n l2 ++ [y]) as Hl2'.
  { rewrite <- (take_drop n l2) at 1. f_equal. rewrite (drop_S _ _ _ Hlast).
    by rewrite drop_ge by lia. }
  unfold Remove. rewrite E, Hl1. fold n. split_and!.
  - unfold is_heap. rewrite length_take, Hl2, Nat.min_l by lia. intros j Hj.
    pose proof (parent_lt j (proj1 Hj)). unfold key_at.
    rewrite !lookup_take_lt by lia. by apply Hh2.
  - transitivity (take n l2 ++ [y]); [by rewrite (Permutation_app_comm (take n l2))|].
    by rewrite <- Hl2'.
  - rewrite Hl2'. apply last_snoc.
Qed.

Lemma length_Remove_front l i : length (Remove_front l i) = length l.
Proof.
  unfold Remove_front. case_match; [done|]. by rewrite length_down_or_up, length_swap.
Qed.

(** The first element of a heap has the least key. *)
Lemma heap_min l i x y :
  is_heap l -> l !! 0 = Some x -> l !! i = Some y -> (key x <= key y)%Z.
Proof.
  intros Hh Hx. revert y. induction (lt_wf i) as [i _ IH]. intros y Hy.
  destruct (decide (i = 0)) as [->|Hi]; [by simplify_eq|].
  pose proof (parent_lt i ltac:(lia)) as Hp. pose proof (lookup_lt_Some _ _ _ Hy).
  destruct (lookup_lt_is_Some_2 l (parent i)) as [z Hz]; [lia|].
  specialize (IH _ Hp z Hz). specialize (Hh i ltac:(lia)). unfold key_at in Hh.
  rewrite Hz, Hy in Hh. lia.
Qed.

Lemma heap_nil : is_heap [].
Proof. intros j Hj. simpl in Hj. lia. Qed.

(** Appending an element that is at least every other one. *)
Lemma heap_snoc l x :
  is_heap l -> (forall y, y ∈ l -> key y <= key x)%Z -> is_heap (l ++ [x]).
Proof.
  intros Hh Hx j Hj. rewrite length_app in Hj. simpl in Hj. unfold key_at.
  pose proof (parent_lt j (proj1 Hj)).
  destruct (decide (j = length l)) as [->|].
  - rewrite lookup_app_l by lia. rewrite list_lookup_middle by done.
    destruct (lookup_lt_is_Some_2 l (parent (length l))) as [z Hz]; [lia|].
    rewrite Hz. apply Hx. by eapply list_elem_of_lookup_2.
  - rewrite !lookup_app_l by lia. apply Hh. lia.
Qed.

(** Changing an element without changing its key. *)
Lemma heap_insert_same l i x y :
  is_heap l -> l !! i = Some x -> key y = key x -> is_heap (<[i := y]> l).
Proof.
  intros Hh Hx Hk j Hj. rewrite length_insert in Hj.
  assert (forall k, key_at (<[i := y]> l) k = key_at l k) as E.
  { intros k. unfold key_at. destruct (decide (k = i)) as [->|].
    - rewrite list_lookup_insert_eq by by eapply lookup_lt_Some. by rewrite Hx.
    - by rewrite list_lookup_insert_ne by done. }
  rewrite !E. by apply Hh.
Qed.
End heap.
