(* ===== verification/PacketQueue.v ===== *)
(** * The packet queue

    [ironwood/network/packetqueue.go]: packets wait in one FIFO per
    source and destination key; the FIFOs of a destination form a heap ordered
    by the age of their first packet, and so do the destinations. [push],
    [pop], [peek] and [drop] follow the code; [view] is the abstract state, a
    map from destination and source to the FIFO, that they implement. *)

From S2P Require Import Prelude Crypto Wire Messages GoHeap.

Record pqPacketInfo := MkPI { pi_packet : pqPacket; pi_size : Z; pi_time : Z }.
Record pqSource := MkSource { s_key : publicKey; s_infos : list pqPacketInfo; s_size : Z }.
Record pqDest := MkDest { d_key : publicKey; d_sources : list pqSource; d_size : Z }.
Record packetQueue := MkQueue { q_dests : list pqDest; q_size : Z }.

Definition empty_queue : packetQueue := MkQueue [] 0.

(** The times compared by the two [Less] methods. *)
Definition src_time (s : pqSource) : Z :=
  match s_infos s with i :: _ => pi_time i | [] => 0 end.
Definition dest_time (d : pqDest) : Z :=
  match d_sources d with s :: _ => src_time s | [] => 0 end.

(** [l[i]], which panics out of range. *)
Definition index {A} (l : list A) (i : nat) : result A :=
  match l !! i with Some x => Ret x | None => Panic end.

(** [var best int; for idx := range l { if l[idx].size > l[best].size { best = idx } }] *)
Definition size_at {A} (sz : A -> Z) (l : list A) (i : nat) : Z :=
  match l !! i with Some x => sz x | None => 0 end.
Definition largest {A} (sz : A -> Z) (l : list A) : nat :=
  fold_left (fun best idx => if size_at sz l best <? size_at sz l idx then idx else best)
    (seq 0 (length l)) 0%nat.

(** [heap.Remove] on the two heaps, with their [Pop] methods: the element
    popped leaves the total too. *)
Definition dest_Remove (d : pqDest) (i : nat) : pqDest :=
  let l := Remove_front src_time (d_sources d) i in
  let popped := match last l with Some s => s_size s | None => 0 end in
  MkDest (d_key d) (take (length l - 1) l) (u64 (d_size d - popped)).

Definition queue_Remove (q : packetQueue) (i : nat) : packetQueue :=
  let l := Remove_front dest_time (q_dests q) i in
  let popped := match last l with Some d => d_size d | None => 0 end in
  MkQueue (take (length l - 1) l) (u64 (q_size q - popped)).

Definition dest_Fix (d : pqDest) (i : nat) : pqDest :=
  MkDest (d_key d) (Fix src_time (d_sources d) i) (d_size d).
Definition queue_Fix (q : packetQueue) (i : nat) : packetQueue :=
  MkQueue (Fix dest_time (q_dests q) i) (q_size q).

Definition set_source (d : pqDest) (i : nat) (s : pqSource) : pqDest :=
  MkDest (d_key d) (<[i := s]> (d_sources d)) (d_size d).
Definition set_dest (q : packetQueue) (i : nat) (d : pqDest) : packetQueue :=
  MkQueue (<[i := d]> (q_dests q)) (q_size q).

Module Queue.

Definition drop (q : packetQueue) : result (packetQueue * bool) :=
  if q_size q =? 0 then mret (q, false)
  else
    let dIdx := largest d_size (q_dests q) in
    dest ← index (q_dests q) dIdx;
    let sIdx := largest s_size (d_sources dest) in
    source ← index (d_sources dest) sIdx;
    info ← index (s_infos source) 0;
    let source := MkSource (s_key source) (tail (s_infos source)) (u64 (s_size source - pi_size info)) in
    let dest := set_source dest sIdx source in
    let dest := if 0 <? s_size source then dest_Fix dest sIdx else dest_Remove dest sIdx in
    let dest := MkDest (d_key dest) (d_sources dest) (u64 (d_size dest - pi_size info)) in
    let q := set_dest q dIdx dest in
    let q := if 0 <? d_size dest then queue_Fix q dIdx else queue_Remove q dIdx in
    mret (MkQueue (q_dests q) (u64 (q_size q - pi_size info)), true).

(** [now] is [time.Now()]. *)
Definition push (now : Z) (q : packetQueue) (packet : pqPacket) : packetQueue :=
  let sKey := sourceKey packet in
  let dKey := destKey packet in
  let info := MkPI packet (pq_size packet) now in
  let d := list_find (fun d => d_key d = dKey) (q_dests q) in
  let dest := match d with Some (_, dest) => dest | None => MkDest dKey [] 0 end in
  let s := list_find (fun s => s_key s = sKey) (d_sources dest) in
  let source := match s with Some (_, source) => source | None => MkSource sKey [] 0 end in
  let source :=
    MkSource (s_key source) (s_infos source ++ [info]) (u64 (s_size source + pi_size info)) in
  let sources :=
    match s with
    | None => d_sources dest ++ [source]
    | Some (sIdx, _) => <[sIdx := source]> (d_sources dest)
    end in
  let dest := MkDest (d_key dest) sources (u64 (d_size dest + pi_size info)) in
  let dests :=
    match d with
    | None => q_dests q ++ [dest]
    | Some (dIdx, _) => <[dIdx := dest]> (q_dests q)
    end in
  MkQueue dests (u64 (q_size q + pi_size info)).

Definition pop (q : packetQueue) : result (option pqPacketInfo * packetQueue) :=
  if 0 <? q_size q then
    dest ← index (q_dests q) 0;
    source ← index (d_sources dest) 0;
    info ← index (s_infos source) 0;
    let source := MkSource (s_key source) (s_infos source) (u64 (s_size source - pi_size info)) in
    let dest := MkDest (d_key dest) (d_sources dest) (u64 (d_size dest - pi_size info)) in
    let q := MkQueue (q_dests q) (u64 (q_size q - pi_size info)) in
    let dest :=
      if (1 <? length (s_infos source))%nat then
        let source := MkSource (s_key source) (tail (s_infos source)) (s_size source) in
        dest_Fix (set_source dest 0 source) 0
      else dest_Remove (set_source dest 0 source) 0 in
    let q :=
      if (0 <? length (d_sources dest))%nat then queue_Fix (set_dest q 0 dest) 0
      else queue_Remove (set_dest q 0 dest) 0 in
    mret (Some info, q)
  else mret (None, q).

Definition peek (q : packetQueue) : result (option pqPacketInfo) :=
  match q_dests q with
  | [] => mret None
  | dest :: _ =>
      source ← index (d_sources dest) 0;
      info ← index (s_infos source) 0;
      mret (Some info)
  end.

End Queue.

(** ** Invariant *)

Record wf_source (dk : publicKey) (s : pqSource) : Prop := {
  ws_nonempty : s_infos s <> [];
  ws_size : s_size s = sum_Z pi_size (s_infos s);
  ws_pos : Forall (fun i => 0 < pi_size i) (s_infos s);
  ws_fifo : StronglySorted (fun i j => pi_time i <= pi_time j) (s_infos s);
  ws_keys : Forall (fun i => sourceKey (pi_packet i) = s_key s
                             /\ destKey (pi_packet i) = dk) (s_infos s)
}.

Record wf_dest (d : pqDest) : Prop := {
  wd_nonempty : d_sources d <> [];
  wd_size : d_size d = sum_Z s_size (d_sources d);
  wd_keys : NoDup (map s_key (d_sources d));
  wd_heap : is_heap src_time (d_sources d);
  wd_sources : Forall (wf_source (d_key d)) (d_sources d)
}.

Record wf_queue (q : packetQueue) : Prop := {
  wq_size : q_size q = sum_Z d_size (q_dests q);
  wq_fits : q_size q < 2 ^ 64;
  wq_keys : NoDup (map d_key (q_dests q));
  wq_heap : is_heap dest_time (q_dests q);
  wq_dests : Forall wf_dest (q_dests q)
}.

(** ** Abstract view *)

Abbreviation flows := (gmap publicKey (gmap publicKey (list pqPacketInfo))).

Definition view_dest (d : pqDest) : gmap publicKey (list pqPacketInfo) :=
  to_map s_key s_infos (d_sources d).
Definition view (q : packetQueue) : flows :=
  to_map d_key view_dest (q_dests q).

(** Append to the FIFO of a packet. *)
Definition flow_push (m : flows) (i : pqPacketInfo) : flows :=
  let dk := destKey (pi_packet i) in
  let sk := sourceKey (pi_packet i) in
  let fs := default ∅ (m !! dk) in
  <[dk := <[sk := default [] (fs !! sk) ++ [i]]> fs]> m.

(** Drop the first packet of the FIFO of a packet; empty FIFOs disappear. *)
Definition flow_drop (m : flows) (dk sk : publicKey) : flows :=
  let fs := default ∅ (m !! dk) in
  let fs' := match tail (default [] (fs !! sk)) with
             | [] => delete sk fs
             | l => <[sk := l]> fs
             end in
  if decide (fs' = ∅) then delete dk m else <[dk := fs']> m.

(** All packets waiting. *)
Definition waiting (q : packetQueue) (i : pqPacketInfo) : Prop :=
  exists d s, d ∈ q_dests q /\ s ∈ d_sources d /\ i ∈ s_infos s.

(** ** One destination *)

(** A source whose first packet is taken. *)
Definition src_tail (s : pqSource) (info : pqPacketInfo) : pqSource :=
  MkSource (s_key s) (tail (s_infos s)) (s_size s - pi_size info).

(** The sources of a destination after that; an emptied source is gone. *)
Definition sources_after (d : pqDest) (i : nat) (s : pqSource) (info : pqPacketInfo)
    : list pqSource :=
  match tail (s_infos s) with
  | [] => rest_at (d_sources d) i
  | _ => src_tail s info :: rest_at (d_sources d) i
  end.

(** [d'] is [d] less the first packet [info] of its source [s] at [i]. *)
Record dest_popped (d : pqDest) (i : nat) (s : pqSource) (info : pqPacketInfo) (d' : pqDest)
    : Prop := {
  dp_key : d_key d' = d_key d;
  dp_size : d_size d' = d_size d - pi_size info;
  dp_heap : is_heap src_time (d_sources d');
  dp_perm : d_sources d' ≡ₚ sources_after d i s info
}.

Lemma wf_source_size_pos dk s : wf_source dk s -> 0 < s_size s.
Proof.
  intros [Hne Hsz Hpos _ _]. rewrite Hsz. destruct (s_infos s) as [|i l]; [done|].
  apply Forall_cons in Hpos as [H1 H2]. simpl.
  assert (0 <= sum_Z pi_size l); [|lia]. apply sum_Z_nonneg.
  eapply Forall_impl; [exact H2|]. intros j Hj. simpl in Hj. lia.
Qed.

Lemma wf_dest_size_pos d : wf_dest d -> 0 < d_size d.
Proof.
  intros [Hne Hsz _ _ Hs]. rewrite Hsz. destruct (d_sources d) as [|s l]; [done|].
  apply Forall_cons in Hs as [H1 H2]. simpl. apply wf_source_size_pos in H1.
  assert (0 <= sum_Z s_size l); [|lia]. apply sum_Z_nonneg.
  eapply Forall_impl; [exact H2|]. intros s' Hs'. apply wf_source_size_pos in Hs'. lia.
Qed.

Lemma wf_src_tail dk s info l :
  wf_source dk s -> s_infos s = info :: l -> l <> [] -> wf_source dk (src_tail s info).
Proof.
  intros [Hne Hsz Hpos Hf Hk] E Hl. unfold src_tail. rewrite E in *. simpl in *.
  apply Forall_cons in Hpos as [? ?], Hk as [? ?]. apply StronglySorted_inv in Hf as [? ?].
  split; simpl; try done. lia.
Qed.

Lemma dest_popped_sum d i s info l d' :
  wf_dest d -> d_sources d !! i = Some s -> s_infos s = info :: l ->
  dest_popped d i s info d' -> d_size d' = sum_Z s_size (d_sources d').
Proof.
  intros [_ Hsz _ _ Hs] Hi E [_ Hsz' _ Hp]. rewrite Hsz', Hsz, Hp, (rest_at_perm _ _ _ Hi). simpl.
  eapply Forall_lookup_1 in Hs; [|exact Hi]. destruct Hs as [_ Hss _ _ _].
  unfold sources_after. rewrite E in *. simpl in *.
  destruct l as [|i2 l]; simpl in *; lia.
Qed.

Lemma dest_popped_wf d i s info l d' :
  wf_dest d -> d_sources d !! i = Some s -> s_infos s = info :: l ->
  dest_popped d i s info d' -> d_sources d' <> [] -> wf_dest d'.
Proof.
  intros Hwf Hi E Hpop Hne. pose proof (dest_popped_sum _ _ _ _ _ _ Hwf Hi E Hpop) as Hsum.
  destruct Hwf as [_ _ Hnd _ Hs], Hpop as [Hk Hsz Hh Hp]. pose proof (rest_at_perm _ _ _ Hi) as Hr.
  assert (wf_source (d_key d) s) as Hws by by eapply Forall_lookup_1 in Hs.
  rewrite Hr in Hnd, Hs. apply NoDup_cons in Hnd as [Hn1 Hn2].
  apply Forall_cons in Hs as [_ Hs]. unfold sources_after in Hp. rewrite E in Hp. simpl in Hp.
  split; try done; rewrite Hp; destruct l as [|i2 l]; try done.
  - apply NoDup_cons. done.
  - by rewrite Hk.
  - rewrite Hk. constructor; [|done]. by eapply wf_src_tail.
Qed.

Lemma dest_popped_view d i s info l d' :
  wf_dest d -> d_sources d !! i = Some s -> s_infos s = info :: l ->
  dest_popped d i s info d' ->
  view_dest d !! s_key s = Some (info :: l) /\
  view_dest d' = match l with [] => delete (s_key s) (view_dest d)
                 | _ => <[s_key s := l]> (view_dest d) end.
Proof.
  intros [_ _ Hnd _ _] Hi E [_ _ _ Hp]. split.
  { rewrite <- E. apply to_map_Some; [done|]. by eapply list_elem_of_lookup_2. }
  unfold view_dest. pose proof (rest_at_perm _ _ _ Hi) as Hr.
  unfold sources_after in Hp. rewrite E in Hp. simpl in Hp.
  assert (NoDup (map s_key (d_sources d'))) as Hnd'.
  { rewrite Hp. rewrite Hr in Hnd. destruct l; simpl in *; [by apply NoDup_cons in Hnd as [_ ?]|done]. }
  rewrite (to_map_perm _ _ _ _ Hnd' Hp). destruct l as [|i2 l].
  - by apply to_map_delete.
  - rewrite (to_map_replace _ _ _ _ _ _ Hnd Hr) by done. simpl. by rewrite E.
Qed.

Lemma Fix_popped d i s info l d' :
  wf_dest d -> d_sources d !! i = Some s -> s_infos s = info :: l -> l <> [] ->
  d_key d' = d_key d -> d_size d' = d_size d - pi_size info ->
  d_sources d' = Fix src_time (<[i := src_tail s info]> (d_sources d)) i ->
  dest_popped d i s info d'.
Proof.
  intros [_ _ _ Hh _] Hi E Hl Hk Hsz Hs. split; try done; rewrite Hs.
  - apply Fix_heap; [by eapply lookup_lt_Some|done].
  - rewrite Fix_perm, (insert_perm _ _ _ _ Hi). unfold sources_after. rewrite E. simpl.
    by destruct l.
Qed.

Lemma Remove_popped d i s s' info d' :
  wf_dest d -> d_sources d !! i = Some s -> s_infos s = [info] ->
  d_key d' = d_key d -> d_size d' = d_size d - pi_size info ->
  d_sources d' = Remove src_time (<[i := s']> (d_sources d)) i ->
  dest_popped d i s info d'.
Proof.
  intros [_ _ _ Hh _] Hi E Hk Hsz Hs.
  destruct (Remove_spec src_time (d_sources d) i s s' Hh Hi) as (H1 & H2 & H3).
  split; try done; rewrite Hs; [done|]. unfold sources_after. rewrite E. simpl.
  apply (Permutation_cons_inv (a := s')). by rewrite H2, (insert_perm _ _ _ _ Hi).
Qed.

(** [heap.Remove] of an element whose recorded size is zero. *)
Lemma dest_Remove_eq d i s s' :
  is_heap src_time (d_sources d) -> d_sources d !! i = Some s -> s_size s' = 0 ->
  dest_Remove (set_source d i s') i =
    MkDest (d_key d) (Remove src_time (<[i := s']> (d_sources d)) i) (u64 (d_size d)).
Proof.
  intros Hh Hi Hs'. destruct (Remove_spec src_time _ i s s' Hh Hi) as (_ & _ & H3).
  unfold dest_Remove, set_source, Remove. simpl.
  by rewrite H3, length_Remove_front, Hs', Z.sub_0_r.
Qed.

Lemma queue_Remove_eq q i d d' :
  is_heap dest_time (q_dests q) -> q_dests q !! i = Some d -> d_size d' = 0 ->
  queue_Remove (set_dest q i d') i =
    MkQueue (Remove dest_time (<[i := d']> (q_dests q)) i) (u64 (q_size q)).
Proof.
  intros Hh Hi Hs'. destruct (Remove_spec dest_time _ i d d' Hh Hi) as (_ & _ & H3).
  unfold queue_Remove, set_dest, Remove. simpl.
  by rewrite H3, length_Remove_front, Hs', Z.sub_0_r.
Qed.

(** ** The whole queue *)

Definition dests_after (q : packetQueue) (i : nat) (d' : pqDest) : list pqDest :=
  match d_sources d' with
  | [] => rest_at (q_dests q) i
  | _ => d' :: rest_at (q_dests q) i
  end.

Record queue_popped (q : packetQueue) (i : nat) (info : pqPacketInfo) (d' : pqDest)
    (q' : packetQueue) : Prop := {
  qp_size : q_size q' = q_size q - pi_size info;
  qp_heap : is_heap dest_time (q_dests q');
  qp_perm : q_dests q' ≡ₚ dests_after q i d'
}.

Lemma queue_Fix_popped q i d d' info q' :
  wf_queue q -> q_dests q !! i = Some d -> d_sources d' <> [] ->
  q_size q' = q_size q - pi_size info ->
  q_dests q' = Fix dest_time (<[i := d']> (q_dests q)) i ->
  queue_popped q i info d' q'.
Proof.
  intros [_ _ _ Hh _] Hi Hne Hsz Hd. split; [done| |]; rewrite Hd.
  - apply Fix_heap; [by eapply lookup_lt_Some|done].
  - rewrite Fix_perm, (insert_perm _ _ _ _ Hi). unfold dests_after. by destruct (d_sources d').
Qed.

Lemma queue_Remove_popped q i d d' info q' :
  wf_queue q -> q_dests q !! i = Some d -> d_sources d' = [] ->
  q_size q' = q_size q - pi_size info ->
  q_dests q' = Remove dest_time (<[i := d']> (q_dests q)) i ->
  queue_popped q i info d' q'.
Proof.
  intros [_ _ _ Hh _] Hi Hne Hsz Hd.
  destruct (Remove_spec dest_time (q_dests q) i d d' Hh Hi) as (H1 & H2 & H3).
  split; [done|by rewrite Hd|]. rewrite Hd. unfold dests_after. rewrite Hne.
  apply (Permutation_cons_inv (a := d')). by rewrite H2, (insert_perm _ _ _ _ Hi).
Qed.

Section popped.
Context (q q' : packetQueue) (i j : nat) (d d' : pqDest) (s : pqSource)
  (info : pqPacketInfo) (l : list pqPacketInfo).
Hypotheses (Hq : wf_queue q) (Hd : q_dests q !! i = Some d)
  (Hs : d_sources d !! j = Some s) (Hi : s_infos s = info :: l)
  (Hdp : dest_popped d j s info d') (Hqp : queue_popped q i info d' q').

#[local] Lemma popped_wf_dest : wf_dest d.
Proof. by eapply Forall_lookup_1; [apply wq_dests|]. Qed.

#[local] Lemma popped_wf_source : wf_source (d_key d) s.
Proof. by eapply Forall_lookup_1; [apply wd_sources, popped_wf_dest|]. Qed.

Lemma popped_keys :
  sourceKey (pi_packet info) = s_key s /\ destKey (pi_packet info) = d_key d.
Proof.
  destruct popped_wf_source as [_ _ _ _ Hk]. rewrite Hi in Hk. by apply Forall_cons in Hk as [? _].
Qed.

Lemma popped_wf : wf_queue q'.
Proof.
  pose proof popped_wf_dest as Hwd. pose proof (rest_at_perm _ _ _ Hd) as Hr.
  pose proof (dest_popped_sum _ _ _ _ _ _ Hwd Hs Hi Hdp) as Hsum.
  destruct Hq as [Hsz Hfit Hnd _ Hwfs], Hqp as [Hsz' Hh Hp]. destruct Hdp as [Hk Hdsz _ _].
  rewrite Hr in Hsz, Hnd, Hwfs. apply NoDup_cons in Hnd as [Hn1 Hn2].
  apply Forall_cons in Hwfs as [_ Hwfs]. simpl in Hsz. unfold dests_after in Hp.
  assert (0 < pi_size info) as Hpos.
  { destruct popped_wf_source as [_ _ Hp' _ _]. rewrite Hi in Hp'. by apply Forall_cons in Hp' as [? _]. }
  split; [| |rewrite Hp|done|rewrite Hp]; [rewrite Hp|lia| |]; destruct (d_sources d') eqn:E.
  - simpl in Hsum. lia.
  - simpl. lia.
  - done.
  - simpl. rewrite Hk. by apply NoDup_cons.
  - done.
  - constructor; [|done]. apply (dest_popped_wf _ _ _ _ _ _ Hwd Hs Hi Hdp). by rewrite E.
Qed.

(** The abstract effect: the first packet of one FIFO is gone. *)
Lemma popped_view :
  (exists fs, view q !! d_key d = Some fs /\ fs !! s_key s = Some (info :: l)) /\
  view q' = flow_drop (view q) (d_key d) (s_key s).
Proof.
  pose proof popped_wf_dest as Hwd. pose proof (rest_at_perm _ _ _ Hd) as Hr.
  destruct (dest_popped_view _ _ _ _ _ _ Hwd Hs Hi Hdp) as [Hv1 Hv2].
  assert (view q !! d_key d = Some (view_dest d)) as Hvd.
  { apply to_map_Some; [apply Hq|]. by eapply list_elem_of_lookup_2. }
  split; [by exists (view_dest d)|]. unfold flow_drop. rewrite Hvd. simpl. rewrite Hv1. simpl.
  assert (view_dest d' = match l with [] => delete (s_key s) (view_dest d)
                         | _ => <[s_key s:=l]> (view_dest d) end) as Hv3 by done.
  replace (match l with [] => _ | _ => _ end) with (view_dest d') by (rewrite Hv3; by destruct l).
  pose proof (wq_keys q' popped_wf) as Hnd'. destruct Hqp as [_ _ Hp].
  unfold view at 1. rewrite (to_map_perm _ _ _ _ Hnd' Hp). unfold dests_after.
  destruct (d_sources d') as [|s2 ss] eqn:E.
  - rewrite decide_True by by (unfold view_dest; rewrite E).
    apply to_map_delete; [apply Hq|done].
  - rewrite decide_False.
    + rewrite (to_map_replace _ _ _ _ _ _ (wq_keys q Hq) Hr) by apply Hdp. done.
    + unfold view_dest. rewrite E, to_map_cons. apply insert_non_empty.
Qed.
End popped.

(** ** pop and drop take a packet out *)

Lemma wf_queue_fits q i d :
  wf_queue q -> q_dests q !! i = Some d -> 0 < d_size d <= q_size q.
Proof.
  intros Hq Hd. pose proof (wq_dests _ Hq) as Hw. split.
  - eapply wf_dest_size_pos, Forall_lookup_1; [exact Hw|exact Hd].
  - rewrite (wq_size _ Hq). apply sum_Z_elem; [|by eapply list_elem_of_lookup_2].
    eapply Forall_impl; [exact Hw|]. intros d' Hd'. pose proof (wf_dest_size_pos _ Hd'). lia.
Qed.

Lemma wf_dest_fits d j s :
  wf_dest d -> d_sources d !! j = Some s -> 0 < s_size s <= d_size d.
Proof.
  intros Hd Hs. pose proof (wd_sources _ Hd) as Hw. split.
  - eapply wf_source_size_pos, Forall_lookup_1; [exact Hw|exact Hs].
  - rewrite (wd_size _ Hd). apply sum_Z_elem; [|by eapply list_elem_of_lookup_2].
    eapply Forall_impl; [exact Hw|]. intros s' Hs'. pose proof (wf_source_size_pos _ _ Hs'). lia.
Qed.

Lemma wf_source_fits dk s info l :
  wf_source dk s -> s_infos s = info :: l ->
  0 < pi_size info <= s_size s /\ (s_size s - pi_size info = 0 <-> l = []).
Proof.
  intros Hs E. pose proof (wf_src_tail _ _ _ _ Hs E) as Ht.
  destruct Hs as [_ Hsz Hpos _ _]. rewrite E in Hsz, Hpos. simpl in Hsz.
  apply Forall_cons in Hpos as [H1 H2]. destruct l as [|i2 l].
  - simpl in *. split; [lia|]. split; [done|lia].
  - pose proof (wf_source_size_pos _ _ (Ht ltac:(done))) as Hp. simpl in Hp.
    split; [lia|]. split; [lia|done].
Qed.

Lemma wf_queue_size_nonneg q : wf_queue q -> 0 <= q_size q.
Proof.
  intros Hq. rewrite (wq_size _ Hq). apply sum_Z_nonneg.
  eapply Forall_impl; [apply (wq_dests _ Hq)|].
  intros d Hd%wf_dest_size_pos. simpl. lia.
Qed.

Lemma wf_queue_nonempty q :
  wf_queue q -> q_size q <> 0 -> exists d ds, q_dests q = d :: ds.
Proof.
  intros Hq Hne. rewrite (wq_size _ Hq) in Hne. destruct (q_dests q); [done|]. eauto.
Qed.

Lemma dest_first d : wf_dest d -> exists s ss info l,
  d_sources d = s :: ss /\ wf_source (d_key d) s /\ s_infos s = info :: l.
Proof.
  intros Hd. pose proof (wd_nonempty _ Hd) as Hne. pose proof (wd_sources _ Hd) as Hs.
  destruct (d_sources d) as [|s ss]; [done|]. apply Forall_cons in Hs as [Hs _].
  pose proof (ws_nonempty _ _ Hs). destruct (s_infos s) eqn:E; [done|]. eauto 10.
Qed.

(** [pop] on a non-empty queue, up to the invariant. *)
Lemma pop_popped q :
  wf_queue q -> 0 < q_size q ->
  exists d d' s info l q',
    q_dests q !! 0%nat = Some d /\ d_sources d !! 0%nat = Some s /\ s_infos s = info :: l /\
    dest_popped d 0 s info d' /\ queue_popped q 0 info d' q' /\
    Queue.pop q = Ret (Some info, q').
Proof.
  intros Hq Hpos. destruct (wf_queue_nonempty q Hq) as (d & ds & Eq); [lia|].
  assert (q_dests q !! 0%nat = Some d) as Hd by by rewrite Eq.
  assert (wf_dest d) as Hwd by (eapply Forall_lookup_1; [apply (wq_dests _ Hq)|done]).
  destruct (dest_first d Hwd) as (s & ss & info & l & Ed & Hws & Es).
  assert (d_sources d !! 0%nat = Some s) as Hs by by rewrite Ed.
  pose proof (wf_queue_fits _ _ _ Hq Hd). pose proof (wf_dest_fits _ _ _ Hwd Hs).
  destruct (wf_source_fits _ _ _ _ Hws Es) as [Hin Hzero]. pose proof (wq_fits _ Hq).
  unfold Queue.pop. rewrite (proj2 (Z.ltb_lt _ _) Hpos). unfold index. rewrite Hd. simpl.
  rewrite Hs. simpl. rewrite Es. simpl. rewrite !u64_small by (unfold is_u64; lia).
  match goal with |- context [if (1 <? S (length l))%nat then ?a else ?b] =>
    set (d1 := if (1 <? S (length l))%nat then a else b) end.
  assert (dest_popped d 0 s info d1) as Hdp.
  { unfold d1. destruct l as [|i2 l]; cbn [length Nat.ltb Nat.leb].
    - rewrite dest_Remove_eq with (s := s); [|apply Hwd|done|simpl; by apply Hzero].
      cbn [d_key d_sources d_size]. rewrite u64_small by (unfold is_u64; lia).
      by eapply Remove_popped.
    - eapply Fix_popped; try done. unfold src_tail. by rewrite Es. }
  exists d, d1, s, info, l. eexists. split_and!; try done. clearbody d1.
  destruct (d_sources d1) as [|s1 ss1] eqn:E1; cbn [length Nat.ltb Nat.leb].
  - assert (d_size d1 = 0) as Hz.
    { rewrite (dest_popped_sum _ _ _ _ _ _ Hwd Hs Es Hdp), E1. done. }
    rewrite queue_Remove_eq with (d := d); [|apply Hq|done|done].
    cbn [q_dests q_size]. rewrite u64_small by (unfold is_u64; lia).
    by eapply queue_Remove_popped.
  - eapply queue_Fix_popped; try done. by rewrite E1.
Qed.

Lemma largest_spec {A} (sz : A -> Z) (l : list A) :
  l <> [] -> exists x, l !! largest sz l = Some x /\ forall y, y ∈ l -> sz y <= sz x.
Proof.
  intros Hne. unfold largest.
  assert (forall k n best, (best < length l)%nat -> (n + k = length l)%nat ->
    (forall i, (i < n)%nat -> size_at sz l i <= size_at sz l best) ->
    let b := fold_left (fun best idx => if size_at sz l best <? size_at sz l idx
                                        then idx else best) (seq n k) best in
    (b < length l)%nat /\ forall i, (i < length l)%nat -> size_at sz l i <= size_at sz l b) as Hf.
  { induction k as [|k IH]; intros n best Hb Hn Hle; simpl.
    - split; [done|]. intros i Hi. apply Hle. lia.
    - apply IH; [|lia|].
      + case_match; lia.
      + intros i Hi. destruct (Z.ltb_spec (size_at sz l best) (size_at sz l n)).
        * destruct (decide (i = n)) as [->|]; [lia|]. specialize (Hle i). lia.
        * destruct (decide (i = n)) as [->|]; [lia|]. apply Hle. lia. }
  assert (0 < length l)%nat as Hl by (destruct l; [done|simpl; lia]).
  destruct (Hf (length l) 0%nat 0%nat Hl eq_refl ltac:(lia)) as [Hb Hmax]. simpl in Hb, Hmax.
  destruct (lookup_lt_is_Some_2 l _ Hb) as [x Hx]. exists x. split; [done|].
  intros y [i Hi]%list_elem_of_lookup. specialize (Hmax i (lookup_lt_Some _ _ _ Hi)).
  unfold size_at in Hmax at 1 2. by rewrite Hi, Hx in Hmax.
Qed.

Lemma drop_popped q :
  wf_queue q -> 0 < q_size q ->
  exists i j d d' s info l q',
    q_dests q !! i = Some d /\ d_sources d !! j = Some s /\ s_infos s = info :: l /\
    (forall d2, d2 ∈ q_dests q -> d_size d2 <= d_size d) /\
    (forall s2, s2 ∈ d_sources d -> s_size s2 <= s_size s) /\
    dest_popped d j s info d' /\ queue_popped q i info d' q' /\
    Queue.drop q = Ret (q', true).
Proof.
  intros Hq Hpos. destruct (wf_queue_nonempty q Hq) as (d0 & ds & Eq); [lia|].
  destruct (largest_spec d_size (q_dests q)) as (d & Hd & Hdmax); [by rewrite Eq|].
  assert (wf_dest d) as Hwd by (eapply Forall_lookup_1; [apply (wq_dests _ Hq)|done]).
  destruct (largest_spec s_size (d_sources d)) as (s & Hs & Hsmax); [apply Hwd|].
  assert (wf_source (d_key d) s) as Hws by (eapply Forall_lookup_1; [apply (wd_sources _ Hwd)|done]).
  set (i := largest d_size (q_dests q)) in *. set (j := largest s_size (d_sources d)) in *.
  destruct (s_infos s) as [|info l] eqn:Es; [by destruct (ws_nonempty _ _ Hws)|].
  pose proof (wf_queue_fits _ _ _ Hq Hd). pose proof (wf_dest_fits _ _ _ Hwd Hs).
  destruct (wf_source_fits _ _ _ _ Hws Es) as [Hin Hzero]. pose proof (wq_fits _ Hq).
  unfold Queue.drop. replace (q_size q =? 0) with false by lia. unfold index. fold i.
  rewrite Hd. simpl. fold j. rewrite Hs. simpl. rewrite Es. simpl.
  rewrite (u64_small (s_size s - pi_size info)) by (unfold is_u64; lia).
  match goal with |- context [if 0 <? s_size s - pi_size info then ?a else ?b] =>
    set (d1 := if 0 <? s_size s - pi_size info then a else b) end.
  assert (dest_popped d j s info
    (MkDest (d_key d1) (d_sources d1) (u64 (d_size d1 - pi_size info)))) as Hdp.
  { unfold d1. destruct (Z.ltb_spec 0 (s_size s - pi_size info)) as [Hlt|Hge].
    - assert (l <> []) as Hl by (intros E0; apply Hzero in E0; lia).
      eapply Fix_popped; try done; simpl; [rewrite u64_small by (unfold is_u64; lia); done|].
      unfold src_tail. by rewrite Es.
    - assert (l = []) as -> by (apply Hzero; lia).
      rewrite (dest_Remove_eq d j s _ (wd_heap _ Hwd) Hs) by (simpl; lia). simpl.
      rewrite !u64_small by (rewrite ?u64_small; unfold is_u64; lia).
      by eapply Remove_popped. }
  set (d2 := MkDest (d_key d1) (d_sources d1) (u64 (d_size d1 - pi_size info))) in *.
  exists i, j, d, d2, s, info, l. eexists. split_and!; try done.
  pose proof (dest_popped_sum _ _ _ _ _ _ Hwd Hs Es Hdp) as Hsum.
  change (u64 (d_size d1 - pi_size info)) with (d_size d2).
  destruct (d_sources d2) as [|s1 ss1] eqn:E1.
  - assert (d_size d2 = 0) as Hz by (rewrite Hsum; done). clearbody d2.
    rewrite Hz. cbn [Z.ltb Z.compare].
    rewrite (queue_Remove_eq q i d d2 (wq_heap _ Hq) Hd Hz). simpl.
    eapply queue_Remove_popped; try done; simpl. rewrite !u64_small; unfold is_u64; try lia.
    rewrite u64_small; unfold is_u64; lia.
  - assert (0 < d_size d2) as Hp2.
    { eapply wf_dest_size_pos, dest_popped_wf; try done. by rewrite E1. }
    rewrite (proj2 (Z.ltb_lt _ _) Hp2). eapply queue_Fix_popped; try done; [by rewrite E1|].
    simpl. rewrite u64_small; [done|unfold is_u64; lia].
Qed.

(** ** push *)

(** What [push] does to the destination of the packet. *)
Definition dest_push (dest : pqDest) (info : pqPacketInfo) : pqDest :=
  let sKey := sourceKey (pi_packet info) in
  let s := list_find (fun s => s_key s = sKey) (d_sources dest) in
  let source := match s with Some (_, source) => source | None => MkSource sKey [] 0 end in
  let source :=
    MkSource (s_key source) (s_infos source ++ [info]) (u64 (s_size source + pi_size info)) in
  let sources :=
    match s with
    | None => d_sources dest ++ [source]
    | Some (sIdx, _) => <[sIdx := source]> (d_sources dest)
    end in
  MkDest (d_key dest) sources (u64 (d_size dest + pi_size info)).

Lemma wf_source_snoc dk sk l sz info :
  sz = sum_Z pi_size l -> Forall (fun i => 0 < pi_size i) l ->
  StronglySorted (fun i j => pi_time i <= pi_time j) l ->
  Forall (fun i => sourceKey (pi_packet i) = sk /\ destKey (pi_packet i) = dk) l ->
  (forall i, i ∈ l -> pi_time i <= pi_time info) -> 0 < pi_size info ->
  sourceKey (pi_packet info) = sk -> destKey (pi_packet info) = dk ->
  sz + pi_size info < 2 ^ 64 ->
  wf_source dk (MkSource sk (l ++ [info]) (u64 (sz + pi_size info))).
Proof.
  intros Hsz Hpos Hso Hks Ht Hi Hsk Hdk Hfit.
  assert (0 <= sum_Z pi_size l).
  { apply sum_Z_nonneg. eapply Forall_impl; [exact Hpos|]. simpl. lia. }
  split; simpl.
  - by destruct l.
  - rewrite u64_small by (unfold is_u64; lia). rewrite sum_Z_app. simpl. lia.
  - apply Forall_app. auto.
  - clear - Hso Ht. induction Hso as [|x l Hl IH Hx]; simpl; [repeat constructor|].
    constructor; [apply IH; intros i Hi; apply Ht; by right|].
    apply Forall_app. split; [done|]. constructor; [|done]. apply Ht. by left.
  - apply Forall_app. auto.
Qed.

Section push.
Context (d : pqDest) (info : pqPacketInfo).
Hypotheses (Hsz : d_size d = sum_Z s_size (d_sources d))
  (Hnd : NoDup (map s_key (d_sources d)))
  (Hh : is_heap src_time (d_sources d))
  (Hs : Forall (wf_source (d_key d)) (d_sources d))
  (Hdk : destKey (pi_packet info) = d_key d)
  (Hpos : 0 < pi_size info)
  (Hfit : d_size d + pi_size info < 2 ^ 64)
  (Ht : forall s i, s ∈ d_sources d -> i ∈ s_infos s -> pi_time i <= pi_time info).

Lemma push_old_source i s :
  d_sources d !! i = Some s -> s_key s = sourceKey (pi_packet info) ->
  let s' := MkSource (s_key s) (s_infos s ++ [info]) (u64 (s_size s + pi_size info)) in
  wf_source (d_key d) s' /\ s_size s' = s_size s + pi_size info /\ src_time s' = src_time s.
Proof.
  intros Hi Hk s'. assert (s ∈ d_sources d) as Hin by by eapply list_elem_of_lookup_2.
  assert (wf_source (d_key d) s) as Hw by (rewrite Forall_forall in Hs; auto).
  assert (0 < s_size s <= d_size d).
  { split; [by eapply wf_source_size_pos|]. rewrite Hsz. apply sum_Z_elem; [|done].
    eapply Forall_impl; [exact Hs|]. intros s2 H2%wf_source_size_pos. simpl. lia. }
  destruct Hw as [Hne Hss Hp Hso Hks]. split_and!.
  - apply wf_source_snoc; try done; [by eauto|lia].
  - simpl. apply u64_small. unfold is_u64. lia.
  - unfold src_time. simpl. by destruct (s_infos s).
Qed.

Lemma dest_push_spec :
  let d' := dest_push d info in
  wf_dest d' /\ d_key d' = d_key d /\ d_size d' = d_size d + pi_size info /\
  dest_time d' = (if decide (d_sources d = []) then pi_time info else dest_time d) /\
  view_dest d' =
    <[sourceKey (pi_packet info) :=
       default [] (view_dest d !! sourceKey (pi_packet info)) ++ [info]]> (view_dest d).
Proof.
  intros d'. assert (0 <= d_size d).
  { rewrite Hsz. apply sum_Z_nonneg. eapply Forall_impl; [exact Hs|].
    intros s2 H2%wf_source_size_pos. simpl. lia. }
  assert (d_size d' = d_size d + pi_size info) as Hsz'.
  { simpl. apply u64_small. unfold is_u64. lia. }
  unfold d', dest_push in *. clear d'.
  destruct (list_find _ _) as [[i s]|] eqn:E; simpl in Hsz' |- *.
  - apply list_find_Some in E as (Hi & Hk & _).
    destruct (push_old_source i s Hi Hk) as (Hw & Hss & Hst).
    set (s' := MkSource _ _ _) in *. 
    pose proof (insert_perm _ _ _ s' Hi) as Hp. pose proof (rest_at_perm _ _ _ Hi) as Hr.
    assert (d_sources d <> []) as Hne by (intros E; by rewrite E in Hi).
    split_and!; [split; simpl| | | |]; try done.
    + intros E. by rewrite E, Permutation_nil_l in Hp.
    + assert (sum_Z s_size (d_sources d) = sum_Z s_size (s :: rest_at (d_sources d) i))
        as Esum by by rewrite <- Hr.
      rewrite Hsz', Hp, Hsz, Esum, !sum_Z_cons, Hss. lia.
    + rewrite Hp. rewrite Hr in Hnd. done.
    + by apply (heap_insert_same _ _ i s).
    + rewrite Hp. rewrite Hr in Hs. apply Forall_cons in Hs as [_ ?]. by constructor.
    + rewrite decide_False by done. unfold dest_time. simpl.
      destruct i as [|i], (d_sources d); simplify_eq/=; done.
    + unfold view_dest. simpl. assert (NoDup (map s_key (<[i:=s']> (d_sources d)))) as Hnd'.
      { rewrite Hp. rewrite Hr in Hnd. done. }
      rewrite (to_map_perm _ _ _ _ Hnd' Hp), (to_map_replace _ _ _ _ _ _ Hnd Hr) by done.
      rewrite <- Hk, (to_map_Some _ _ _ s) by (done || by eapply list_elem_of_lookup_2). done.
  - apply list_find_None in E. set (sk := sourceKey (pi_packet info)) in *.
    assert (sk ∉ map s_key (d_sources d)) as Hsk.
    { intros (s & Hk & Hin)%list_elem_of_fmap. rewrite Forall_forall in E.
      by destruct (E s Hin). }
    set (s' := MkSource _ _ _).
    assert (wf_source (d_key d) s') as Hw.
    { change [info] with ([] ++ [info]) in (value of s'). apply wf_source_snoc; try done.
      - constructor.
      - intros i Hi. by apply not_elem_of_nil in Hi.
      - lia. }
    assert (s_size s' = pi_size info) as Hs'.
    { simpl. apply u64_small. unfold is_u64. lia. }
    split_and!; [split; simpl| | | |]; try done.
    + by destruct (d_sources d).
    + rewrite Hsz', Hsz, sum_Z_app, sum_Z_cons, Hs'. simpl. lia.
    + rewrite map_app. apply NoDup_app. split; [done|]. split; [|apply NoDup_singleton].
      intros k Hk1 Hk2%list_elem_of_singleton. by subst k.
    + apply heap_snoc; [done|]. intros s Hin. unfold src_time at 2. simpl.
      assert (wf_source (d_key d) s) as [Hne _ _ _ _] by (rewrite Forall_forall in Hs; auto).
      unfold src_time. destruct (s_infos s) as [|i0 l0] eqn:E0; [done|].
      apply (Ht s); [done|]. rewrite E0. by left.
    + apply Forall_app. split; [done|]. by constructor.
    + unfold dest_time. simpl. by destruct (d_sources d).
    + unfold view_dest. simpl. rewrite to_map_None by done. simpl.
      assert (d_sources d ++ [s'] ≡ₚ s' :: d_sources d) as Hp by by rewrite Permutation_app_comm.
      rewrite (to_map_perm _ _ _ (s' :: d_sources d)); [done| |done].
      rewrite Hp. simpl. by apply NoDup_cons.
Qed.
End push.

Lemma push_eq now q p :
  let info := MkPI p (pq_size p) now in
  let d := list_find (fun d => d_key d = destKey p) (q_dests q) in
  Queue.push now q p =
    match d with
    | None => MkQueue (q_dests q ++ [dest_push (MkDest (destKey p) [] 0) info])
                (u64 (q_size q + pq_size p))
    | Some (i, dest) => MkQueue (<[i := dest_push dest info]> (q_dests q))
                          (u64 (q_size q + pq_size p))
    end.
Proof. unfold Queue.push. by destruct (list_find _ (q_dests q)) as [[i d]|]. Qed.

Lemma push_spec now q p :
  wf_queue q -> (forall i, waiting q i -> pi_time i <= now) ->
  q_size q + pq_size p < 2 ^ 64 ->
  wf_queue (Queue.push now q p) /\
  q_size (Queue.push now q p) = q_size q + pq_size p /\
  view (Queue.push now q p) = flow_push (view q) (MkPI p (pq_size p) now).
Proof.
  intros Hq Ht Hfit. pose proof (pq_size_pos p) as Hpos. rewrite push_eq.
  pose proof (wf_queue_size_nonneg q Hq) as Hq0.
  pose proof (u64_small (q_size q + pq_size p) ltac:(unfold is_u64; lia)) as Hsz'.
  set (info := MkPI p (pq_size p) now). cbv zeta.
  destruct (list_find _ _) as [[i d]|] eqn:E.
  - apply list_find_Some in E as (Hi & Hk & _).
    pose proof (wf_queue_fits _ _ _ Hq Hi).
    assert (wf_dest d) as Hwd by (eapply Forall_lookup_1; [apply (wq_dests _ Hq)|done]).
    destruct (dest_push_spec d info) as (Hw & Hdk & Hds & Hdt & Hv); try apply Hwd; try done.
    { simpl. lia. }
    { simpl. intros s i0 H1 H2. apply Ht. exists d, s. split; [|done]. by eapply list_elem_of_lookup_2. }
    set (d' := dest_push d info) in *. clearbody d'. rewrite decide_False in Hdt by apply Hwd.
    pose proof (insert_perm _ _ _ d' Hi) as Hp. pose proof (rest_at_perm _ _ _ Hi) as Hr.
    pose proof (wq_keys _ Hq) as Hnd. pose proof (wq_dests _ Hq) as Hwfs.
    assert (NoDup (map d_key (<[i:=d']> (q_dests q)))) as Hnd'.
    { rewrite Hp. rewrite Hr in Hnd. simpl. by rewrite Hdk. }
    assert (sum_Z d_size (q_dests q) = sum_Z d_size (d :: rest_at (q_dests q) i))
      as Esum by by rewrite <- Hr.
    split_and!; [split; simpl| |]; try done.
    + rewrite Hsz', Hp, (wq_size _ Hq), Esum, !sum_Z_cons, Hds. simpl. lia.
    + lia.
    + eapply heap_insert_same; [apply Hq|done|done].
    + rewrite Hp. rewrite Hr in Hwfs. apply Forall_cons in Hwfs as [_ ?]. by constructor.
    + unfold view, flow_push. simpl. rewrite (to_map_perm _ _ _ _ Hnd' Hp).
      rewrite (to_map_replace _ _ _ _ _ _ Hnd Hr) by done.
      rewrite <- Hk, (to_map_Some _ _ _ d) by (done || by eapply list_elem_of_lookup_2).
      by rewrite Hv.
  - apply list_find_None in E.
    assert (destKey p ∉ map d_key (q_dests q)) as Hdk0.
    { intros (d & Hk & Hin)%list_elem_of_fmap. rewrite Forall_forall in E. by destruct (E d Hin). }
    set (d0 := MkDest (destKey p) [] 0).
    destruct (dest_push_spec d0 info) as (Hw & Hdk & Hds & Hdt & Hv); simpl; try done.
    { constructor. }
    { lia. }
    { intros s i Hs. by apply not_elem_of_nil in Hs. }
    set (d' := dest_push d0 info) in *. clearbody d'. simpl in Hdk, Hds, Hdt, Hv.
    assert (q_dests q ++ [d'] ≡ₚ d' :: q_dests q) as Hp by by rewrite Permutation_app_comm.
    assert (NoDup (map d_key (q_dests q ++ [d']))) as Hnd'.
    { rewrite Hp. simpl. rewrite Hdk. apply NoDup_cons. split; [done|apply Hq]. }
    split_and!; [split; simpl| |]; try done.
    + rewrite Hsz', Hp, (wq_size _ Hq), sum_Z_cons, Hds. simpl. lia.
    + lia.
    + apply heap_snoc; [apply Hq|]. intros d Hin. rewrite Hdt.
      assert (wf_dest d) as Hwd by (pose proof (wq_dests _ Hq) as Hf; rewrite Forall_forall in Hf; auto).
      destruct (dest_first d Hwd) as (s & ss & i0 & l & E1 & _ & E2).
      unfold dest_time, src_time. rewrite E1, E2. apply Ht. exists d, s. rewrite E1, E2.
      repeat split; [done|left|left].
    + rewrite Hp. constructor; [done|apply Hq].
    + unfold view, flow_push. simpl. rewrite (to_map_perm _ _ _ _ Hnd' Hp), to_map_cons.
      rewrite Hdk, to_map_None by done. simpl. by rewrite Hv.
Qed.

(** ** Theorems *)

Lemma wf_empty_queue : wf_queue empty_queue.
Proof. split; simpl; try done; constructor. Qed.

Lemma src_time_le dk s i : wf_source dk s -> i ∈ s_infos s -> src_time s <= pi_time i.
Proof.
  intros [_ _ _ Hso _] Hi. unfold src_time. destruct Hso as [|i0 l Hso Hall].
  - by apply not_elem_of_nil in Hi.
  - apply elem_of_cons in Hi as [->|Hi]; [lia|]. rewrite Forall_forall in Hall. auto.
Qed.

(** The head of the heap of heaps is the oldest packet. *)
Lemma first_oldest q d s info l i :
  wf_queue q -> q_dests q !! 0%nat = Some d -> d_sources d !! 0%nat = Some s ->
  s_infos s = info :: l -> waiting q i -> pi_time info <= pi_time i.
Proof.
  intros Hq Hd Hs E (d2 & s2 & Hd2 & Hs2 & Hi2).
  assert (forall d, d ∈ q_dests q -> wf_dest d) as Hwd.
  { pose proof (wq_dests _ Hq) as Hf. by rewrite Forall_forall in Hf. }
  assert (forall d s, d ∈ q_dests q -> s ∈ d_sources d -> wf_source (d_key d) s) as Hws.
  { intros d' s' H1 H2. pose proof (wd_sources _ (Hwd _ H1)) as Hf. rewrite Forall_forall in Hf. auto. }
  apply list_elem_of_lookup in Hd2 as [n2 Hn2]. pose proof Hn2 as Hd2%list_elem_of_lookup_2.
  apply list_elem_of_lookup in Hs2 as [m2 Hm2]. pose proof Hm2 as Hs2%list_elem_of_lookup_2.
  pose proof (src_time_le _ _ _ (Hws _ _ Hd2 Hs2) Hi2).
  pose proof (heap_min dest_time _ _ _ _ (wq_heap _ Hq) Hd Hn2).
  destruct (dest_first _ (Hwd _ Hd2)) as (s3 & ss & i3 & l3 & E3 & _).
  assert (src_time s3 <= src_time s2).
  { apply (heap_min src_time (d_sources d2) m2); [apply Hwd|by rewrite E3|]; done. }
  unfold dest_time in *. rewrite E3 in *. destruct (d_sources d) as [|s0 ss0]; simplify_eq/=.
  unfold src_time at 1 in H0. rewrite E in H0. lia.
Qed.

Definition sample_packet (src dst : byte) : pqPacket :=
  PqTraffic (MkTraffic [] [] (array_of 32 [src]) (array_of 32 [dst]) 7 [Byte.x01; Byte.x02]).
Definition sample_queue : packetQueue :=
  Queue.push 30 (Queue.push 20 (Queue.push 10 empty_queue (sample_packet Byte.x01 Byte.x02))
    (sample_packet Byte.x03 Byte.x02)) (sample_packet Byte.x01 Byte.x04).

Lemma waiting_forall q (P : pqPacketInfo -> Prop) :
  Forall (fun d => Forall (fun s => Forall P (s_infos s)) (d_sources d)) (q_dests q) ->
  forall i, waiting q i -> P i.
Proof.
  intros HF i (d & s & Hd & Hs & Hi). rewrite Forall_forall in HF. specialize (HF d Hd).
  simpl in HF. rewrite Forall_forall in HF. specialize (HF s Hs). simpl in HF.
  rewrite Forall_forall in HF. auto.
Qed.

Lemma sample_queue_wf : wf_queue sample_queue.
Proof.
  unfold sample_queue. repeat (apply push_spec; [|apply waiting_forall; by vm_compute; repeat constructor|done]).
  apply wf_empty_queue.
Qed.

(** On a well-formed queue [pop] never panics; it returns nothing exactly when the
    queue is empty, and otherwise the oldest packet waiting, which was the first of its
    source and destination's FIFO and is the only packet removed; the queue stays
    well formed and its size is exact. *)
Theorem pop_oldest q :
  wf_queue q ->
  (q_size q = 0 /\ Queue.pop q = Ret (None, q)) \/
  exists info q', Queue.pop q = Ret (Some info, q') /\ waiting q info /\
    (forall i, waiting q i -> pi_time info <= pi_time i) /\
    (exists fs l, view q !! destKey (pi_packet info) = Some fs /\
       fs !! sourceKey (pi_packet info) = Some (info :: l)) /\
    view q' = flow_drop (view q) (destKey (pi_packet info)) (sourceKey (pi_packet info)) /\
    q_size q' = q_size q - pi_size info /\ wf_queue q'.
Proof.
  intros Hq. destruct (decide (0 < q_size q)) as [Hp|Hp].
  - right. destruct (pop_popped q Hq Hp) as (d & d' & s & info & l & q' & Hd & Hs & E & Hdp & Hqp & ->).
    destruct (popped_keys q 0 0 d s info l Hq Hd Hs E) as [Ek1 Ek2].
    destruct (popped_view q q' 0 0 d d' s info l Hq Hd Hs E Hdp Hqp) as [(fs & H1 & H2) H3].
    exists info, q'. rewrite Ek1, Ek2.
    split_and!; eauto using popped_wf, first_oldest; [|by apply Hqp].
    exists d, s. rewrite E. split_and!; [..|left]; by eapply list_elem_of_lookup_2.
  - left. pose proof (wf_queue_size_nonneg q Hq).
    split; [lia|]. unfold Queue.pop. by rewrite (proj2 (Z.ltb_ge _ _)) by lia.
Qed.

(** When the clock is not behind the packets waiting and the sizes fit 64 bits, [push]
    keeps the queue well formed, appends the packet to the FIFO of its source and
    destination and changes no other FIFO; both heaps stay ordered although [push]
    never calls [heap.Fix]. *)
Theorem push_appends now q p :
  wf_queue q -> (forall i, waiting q i -> pi_time i <= now) ->
  q_size q + pq_size p < 2 ^ 64 ->
  wf_queue (Queue.push now q p) /\
  q_size (Queue.push now q p) = q_size q + pq_size p /\
  view (Queue.push now q p) = flow_push (view q) (MkPI p (pq_size p) now).
Proof. apply push_spec. Qed.

(** [drop] on a well-formed queue never panics; it reports an empty queue, or removes the
    oldest packet of the largest source of the largest destination, and nothing else. *)
Theorem drop_largest q :
  wf_queue q ->
  (q_size q = 0 /\ Queue.drop q = Ret (q, false)) \/
  exists d s info l q', Queue.drop q = Ret (q', true) /\
    d ∈ q_dests q /\ s ∈ d_sources d /\ s_infos s = info :: l /\
    (forall d2, d2 ∈ q_dests q -> d_size d2 <= d_size d) /\
    (forall s2, s2 ∈ d_sources d -> s_size s2 <= s_size s) /\
    (forall i, i ∈ s_infos s -> pi_time info <= pi_time i) /\
    view q' = flow_drop (view q) (d_key d) (s_key s) /\
    q_size q' = q_size q - pi_size info /\ wf_queue q'.
Proof.
  intros Hq. destruct (decide (0 < q_size q)) as [Hp|Hp].
  - right. destruct (drop_popped q Hq Hp)
      as (i & j & d & d' & s & info & l & q' & Hd & Hs & E & Hm1 & Hm2 & Hdp & Hqp & ->).
    destruct (popped_view q q' i j d d' s info l Hq Hd Hs E Hdp Hqp) as [_ H3].
    assert (wf_source (d_key d) s) as Hws.
    { eapply Forall_lookup_1; [apply wd_sources|exact Hs].
      eapply Forall_lookup_1; [apply (wq_dests _ Hq)|done]. }
    exists d, s, info, l, q'. split_and!; eauto using popped_wf, list_elem_of_lookup_2.
    + intros k Hk. pose proof (src_time_le _ _ _ Hws Hk) as Ht. unfold src_time in Ht. by rewrite E in Ht.
    + apply Hqp.
  - left. pose proof (wf_queue_size_nonneg q Hq).
    split; [lia|]. unfold Queue.drop. by rewrite (proj2 (Z.eqb_eq _ _)) by lia.
Qed.

(** [peek] never panics and shows the packet the next [pop] returns. *)
Theorem peek_pop q :
  wf_queue q ->
  exists o q', Queue.peek q = Ret o /\ Queue.pop q = Ret (o, q').
Proof.
  intros Hq. destruct (decide (0 < q_size q)) as [Hp|Hp].
  - destruct (pop_popped q Hq Hp) as (d & d' & s & info & l & q' & Hd & Hs & E & _ & _ & ->).
    exists (Some info), q'. split; [|done]. unfold Queue.peek.
    destruct (q_dests q) as [|d0 ds]; simplify_eq/=. unfold index. rewrite Hs. simpl. by rewrite E.
  - exists None, q. unfold Queue.pop, Queue.peek. rewrite (proj2 (Z.ltb_ge _ _)) by lia.
    split; [|done]. destruct (q_dests q) as [|d0 ds] eqn:Eq; [done|].
    pose proof (wf_queue_fits q 0 d0 Hq ltac:(by rewrite Eq)). lia.
Qed.

(** C18: the queue implements its abstract view, a FIFO per source and destination: it stays well
    formed with an exact size and never panics; [push] appends to one FIFO; [pop] and [drop] take
    the first packet of one FIFO and leave the others alone; [pop] takes the oldest packet of all,
    which [peek] shows, and [drop] the oldest of the largest source of the largest destination. *)
Theorem queue_refines now q p :
  wf_queue q -> (forall i, waiting q i -> pi_time i <= now) -> q_size q + pq_size p < 2 ^ 64 ->
  (wf_queue (Queue.push now q p) /\ q_size (Queue.push now q p) = q_size q + pq_size p /\
    view (Queue.push now q p) = flow_push (view q) (MkPI p (pq_size p) now)) /\
  ((q_size q = 0 /\ Queue.pop q = Ret (None, q) /\ Queue.drop q = Ret (q, false)) \/
   (exists info q', Queue.pop q = Ret (Some info, q') /\ waiting q info /\
      (forall i, waiting q i -> pi_time info <= pi_time i) /\
      view q' = flow_drop (view q) (destKey (pi_packet info)) (sourceKey (pi_packet info)) /\
      q_size q' = q_size q - pi_size info /\ wf_queue q') /\
   (exists d s info l q', Queue.drop q = Ret (q', true) /\
      d ∈ q_dests q /\ s ∈ d_sources d /\ s_infos s = info :: l /\
      (forall d2, d2 ∈ q_dests q -> d_size d2 <= d_size d) /\
      (forall s2, s2 ∈ d_sources d -> s_size s2 <= s_size s) /\
      view q' = flow_drop (view q) (d_key d) (s_key s) /\
      q_size q' = q_size q - pi_size info /\ wf_queue q')) /\
  exists o q', Queue.peek q = Ret o /\ Queue.pop q = Ret (o, q').
Proof.
  intros Hq Ht Hfit. split; [by apply push_appends|]. split; [|by apply peek_pop].
  destruct (pop_oldest q Hq) as [[Hz Hp]|(info & q1 & Hp & Hw & Ho & _ & Hv & Hs & Hq1)],
    (drop_largest q Hq) as [[Hz' Hd]|(d & s & info' & l & q2 & Hd & H1 & H2 & H3 & H4 & H5 & _ & H6 & H7 & H8)].
  - by left.
  - right. exfalso. assert (d ∈ q_dests q) as Hin by done. apply list_elem_of_lookup in Hin as [n Hn].
    pose proof (wf_queue_fits q n d Hq Hn). lia.
  - right. exfalso. pose proof (wf_queue_size_nonneg _ Hq1). destruct Hw as (d & s & Hin & _).
    apply list_elem_of_lookup in Hin as [n Hn]. pose proof (wf_queue_fits q n d Hq Hn). lia.
  - right. split; [by exists info, q1|by exists d, s, info', l, q2].
Qed.

Lemma queue_refines_witness :
  let q := sample_queue in
  let p := sample_packet Byte.x03 Byte.x02 in
  (wf_queue (Queue.push 40 q p) /\ q_size (Queue.push 40 q p) = q_size q + pq_size p /\
    view (Queue.push 40 q p) = flow_push (view q) (MkPI p (pq_size p) 40)) /\
  ((q_size q = 0 /\ Queue.pop q = Ret (None, q) /\ Queue.drop q = Ret (q, false)) \/
   (exists info q', Queue.pop q = Ret (Some info, q') /\ waiting q info /\
      (forall i, waiting q i -> pi_time info <= pi_time i) /\
      view q' = flow_drop (view q) (destKey (pi_packet info)) (sourceKey (pi_packet info)) /\
      q_size q' = q_size q - pi_size info /\ wf_queue q') /\
   (exists d s info l q', Queue.drop q = Ret (q', true) /\
      d ∈ q_dests q /\ s ∈ d_sources d /\ s_infos s = info :: l /\
      (forall d2, d2 ∈ q_dests q -> d_size d2 <= d_size d) /\
      (forall s2, s2 ∈ d_sources d -> s_size s2 <= s_size s) /\
      view q' = flow_drop (view q) (d_key d) (s_key s) /\
      q_size q' = q_size q - pi_size info /\ wf_queue q')) /\
  exists o q', Queue.peek q = Ret o /\ Queue.pop q = Ret (o, q').
Proof.
  apply (queue_refines 40 sample_queue (sample_packet Byte.x03 Byte.x02)).
  - apply sample_queue_wf.
  - apply waiting_forall. by vm_compute; repeat constructor.
  - vm_compute. done.
Defined.
