(* ===== verification/QueueClient.v ===== *)
(** * What the packet queue promises to its users

    A connection ([peers.go]) and the [PacketConn] ([packetconn.go]) keep a
    [packetQueue] whose packets were pushed at the clock's past readings. The
    lemmas below are all their proofs use of the queue. *)

From S2P Require Import Prelude Crypto Wire Messages GoHeap PacketQueue.

(** Well formed, and no packet is younger than the clock. *)
Record queue_ok (now : Z) (q : packetQueue) : Prop := {
  qo_wf : wf_queue q;
  qo_past i : waiting q i -> pi_time i <= now
}.

Lemma to_map_lookup `{Countable K} {A V} (k : A -> K) (v : A -> V) l key y :
  to_map k v l !! key = Some y -> exists x, x ∈ l /\ k x = key /\ v x = y.
Proof.
  unfold to_map. intros Hl%elem_of_list_to_map_2. apply list_elem_of_fmap in Hl as (x & [= -> ->] & Hx).
  by exists x.
Qed.

Lemma waiting_view q i : wf_queue q ->
  waiting q i <-> exists dk fs sk l, view q !! dk = Some fs /\ fs !! sk = Some l /\ i ∈ l.
Proof.
  intros Hq. split.
  - intros (d & s & Hd & Hs & Hi). exists (d_key d), (view_dest d), (s_key s), (s_infos s).
    pose proof (wq_dests _ Hq) as Hf. rewrite Forall_forall in Hf.
    split_and!; [apply to_map_Some; [apply Hq|done]|apply to_map_Some; [by apply Hf|done]|done].
  - intros (dk & fs & sk & l & (d & Hd & _ & <-)%to_map_lookup & Hs & Hi).
    apply to_map_lookup in Hs as (s & Hs & _ & <-). by exists d, s.
Qed.

(** Lookups in a nested map that default to nothing. *)
Lemma default_map_lookup `{Countable K, Countable K'} {V} (m : gmap K (gmap K' V)) k k' v :
  default ∅ (m !! k) !! k' = Some v -> exists fs, m !! k = Some fs /\ fs !! k' = Some v.
Proof. destruct (m !! k) as [fs|]; [by exists fs|]. intros E. cbn [default from_option] in E. by rewrite lookup_empty in E. Qed.

Lemma elem_of_default {A} (o : option (list A)) x : x ∈ default [] o -> exists l, o = Some l /\ x ∈ l.
Proof. destruct o as [l|]; [by exists l|]. by intros ?%not_elem_of_nil. Qed.

(** Taking a packet leaves only packets that were waiting. *)
Lemma waiting_drop q q' dk sk i : wf_queue q -> wf_queue q' ->
  view q' = flow_drop (view q) dk sk -> waiting q' i -> waiting q i.
Proof.
  intros Hq Hq' E. rewrite !waiting_view by done. rewrite E. clear E Hq Hq'.
  intros (dk' & fs & sk' & l & Hd & Hs & Hi). unfold flow_drop in Hd.
  assert (forall k l, default ∅ (view q !! dk) !! k = Some l -> i ∈ l ->
    exists dk fs sk l, view q !! dk = Some fs /\ fs !! sk = Some l /\ i ∈ l) as Hold.
  { intros k l0 (fs1 & E1 & E2)%default_map_lookup Hl0. by eauto 10. }
  case_decide; [apply lookup_delete_Some in Hd as [_ Hd]; by eauto 10|].
  apply lookup_insert_Some in Hd as [[<- <-]|[_ Hd]]; [|by eauto 10].
  destruct (tail _) as [|i1 l1] eqn:Et; [apply lookup_delete_Some in Hs as [_ Hs]; by eauto|].
  apply lookup_insert_Some in Hs as [[<- <-]|[_ Hs]]; [|by eauto].
  assert (i ∈ default [] (default ∅ (view q !! dk) !! sk)) as (l & El & Hl)%elem_of_default; [|by eauto].
  destruct (default [] _) as [|i0 l0]; [done|]. simpl in Et. subst l0. by right.
Qed.

Lemma waiting_push q now p i : wf_queue q -> wf_queue (Queue.push now q p) ->
  view (Queue.push now q p) = flow_push (view q) (MkPI p (pq_size p) now) ->
  waiting (Queue.push now q p) i -> waiting q i \/ i = MkPI p (pq_size p) now.
Proof.
  intros Hq Hq' E. rewrite !waiting_view by done. rewrite E. unfold flow_push.
  intros (dk' & fs & sk' & l & Hd & Hs & Hi).
  apply lookup_insert_Some in Hd as [[<- <-]|[_ Hd]]; [|left; by eauto 10].
  apply lookup_insert_Some in Hs as [[<- <-]|[_ Hs]].
  - apply elem_of_app in Hi as [(l & (fs1 & ? & ?)%default_map_lookup & ?)%elem_of_default|
      Hi%list_elem_of_singleton]; [left; by eauto 10|by right].
  - left. apply default_map_lookup in Hs as (fs1 & ? & ?). by eauto 10.
Qed.

(** ** Contents *)

(** All packets waiting, with multiplicity. *)
Definition dest_contents (d : pqDest) : list pqPacketInfo := d_sources d ≫= s_infos.
Definition contents (q : packetQueue) : list pqPacketInfo := q_dests q ≫= dest_contents.

Lemma bind_rest {A B} (f : A -> list B) l i x : l !! i = Some x -> l ≫= f ≡ₚ f x ++ (rest_at l i ≫= f).
Proof. intros Hi. pose proof (rest_at_perm l i x Hi) as Hp. by rewrite Hp at 1. Qed.

Lemma elem_of_contents q i : i ∈ contents q <-> waiting q i.
Proof.
  unfold contents, dest_contents, waiting. rewrite list_elem_of_bind. setoid_rewrite list_elem_of_bind.
  split; [intros (d & (s & Hi & Hs) & Hd)|intros (d & s & Hd & Hs & Hi)]; eauto 10.
Qed.

Lemma popped_contents q q' i j d d' s info l :
  q_dests q !! i = Some d -> d_sources d !! j = Some s -> s_infos s = info :: l ->
  dest_popped d j s info d' -> queue_popped q i info d' q' -> contents q ≡ₚ info :: contents q'.
Proof.
  intros Hd Hs E [_ _ _ Hdp] [_ _ Hqp]. unfold contents.
  assert (dest_contents d ≡ₚ info :: dest_contents d') as Hc.
  { unfold dest_contents. rewrite Hdp, (bind_rest s_infos _ _ _ Hs), E. unfold sources_after. rewrite E.
    destruct l; simpl; by rewrite ?E. }
  rewrite Hqp, (bind_rest _ _ _ _ Hd), Hc. unfold dests_after.
  destruct (d_sources d') as [|s0 ss] eqn:Es; [|done]. unfold dest_contents at 1. by rewrite Es.
Qed.

Section client.
Context (now : Z) (q : packetQueue) (Hok : queue_ok now q).

Lemma queue_ok_pop : exists o q', Queue.pop q = Ret (o, q') /\ queue_ok now q' /\
  match o with
  | Some info => q_size q' < q_size q /\ contents q ≡ₚ info :: contents q' /\
      forall i, i ∈ contents q -> pi_time info <= pi_time i
  | None => q_size q = 0 /\ q' = q
  end.
Proof.
  pose proof (qo_wf _ _ Hok) as Hq. destruct (decide (0 < q_size q)) as [Hp|Hp].
  - destruct (pop_popped q Hq Hp) as (d & d' & s & info & l & q' & Hd & Hs & E & Hdp & Hqp & ->).
    destruct (popped_view q q' 0 0 d d' s info l Hq Hd Hs E Hdp Hqp) as [_ Hv].
    assert (wf_queue q') as Hq' by eauto using popped_wf.
    assert (wf_dest d) as Hwd by (eapply Forall_lookup_1; [apply (wq_dests _ Hq)|done]).
    assert (wf_source (d_key d) s) as Hws by (eapply Forall_lookup_1; [apply (wd_sources _ Hwd)|done]).
    exists (Some info), q'. split_and!; [done| | |by eapply popped_contents|].
    + split; [done|]. intros i Hi. apply (qo_past _ _ Hok). by eapply waiting_drop.
    + rewrite (qp_size _ _ _ _ _ Hqp). pose proof (proj1 (wf_source_fits _ _ _ _ Hws E)). lia.
    + intros i Hi%elem_of_contents. exact (first_oldest q d s info l i Hq Hd Hs E Hi).
  - exists None, q. pose proof (wf_queue_size_nonneg q Hq). split_and!; [|done|lia|done].
    unfold Queue.pop. by rewrite (proj2 (Z.ltb_ge _ _)) by lia.
Qed.

Lemma queue_ok_drop : exists q' b, Queue.drop q = Ret (q', b) /\ queue_ok now q' /\ q_size q' <= q_size q /\
  forall i, waiting q' i -> waiting q i.
Proof.
  pose proof (qo_wf _ _ Hok) as Hq. destruct (decide (0 < q_size q)) as [Hp|Hp].
  - destruct (drop_popped q Hq Hp)
      as (i & j & d & d' & s & info & l & q' & Hd & Hs & E & _ & _ & Hdp & Hqp & ->).
    destruct (popped_view q q' i j d d' s info l Hq Hd Hs E Hdp Hqp) as [_ Hv].
    assert (wf_queue q') as Hq' by eauto using popped_wf. exists q', true.
    assert (forall i, waiting q' i -> waiting q i) as Hsub by (intros k Hk; by eapply waiting_drop).
    split_and!; [done| | |done].
    + split; [done|]. intros k Hk. by apply (qo_past _ _ Hok), Hsub.
    + rewrite (qp_size _ _ _ _ _ Hqp). pose proof (wq_dests _ Hq) as Hw.
      assert (wf_dest d) as Hwd by (eapply Forall_lookup_1; [exact Hw|done]).
      assert (wf_source (d_key d) s) as Hws by (eapply Forall_lookup_1; [apply (wd_sources _ Hwd)|done]).
      pose proof (proj1 (wf_source_fits _ _ _ _ Hws E)). lia.
  - exists q, false. pose proof (wf_queue_size_nonneg q Hq). split_and!; [|done|lia|done].
    unfold Queue.drop. by rewrite (proj2 (Z.eqb_eq _ _)) by lia.
Qed.

Lemma queue_ok_peek : exists o, Queue.peek q = Ret o.
Proof.
  pose proof (qo_wf _ _ Hok) as Hq. unfold Queue.peek. destruct (q_dests q) as [|d ds] eqn:E; [by eexists|].
  pose proof (wq_dests _ Hq) as Hw. rewrite E in Hw. apply Forall_cons in Hw as [Hd _].
  destruct (dest_first d Hd) as (s & ss & info & l & -> & _ & Es). unfold index. simpl. rewrite Es.
  by eexists.
Qed.

Lemma queue_ok_push p : q_size q + pq_size p < 2 ^ 64 -> queue_ok now (Queue.push now q p).
Proof.
  intros Hfit. destruct (push_spec now q p (qo_wf _ _ Hok) (qo_past _ _ Hok) Hfit) as (Hq & _ & Hv).
  split; [done|]. intros i [Hi| ->]%waiting_push; [|done|apply Hok|done|done].
  by apply (qo_past _ _ Hok).
Qed.

Lemma queue_ok_later now' : now <= now' -> queue_ok now' q.
Proof. intros Hle. split; [apply Hok|]. intros i Hi%(qo_past _ _ Hok). lia. Qed.
End client.

Lemma queue_ok_empty now : queue_ok now empty_queue.
Proof. split; [apply wf_empty_queue|]. intros i (d & s & Hd & _). by apply not_elem_of_nil in Hd. Qed.

Lemma queue_empty q : wf_queue q -> q_size q = 0 -> contents q = [].
Proof.
  intros Hq Hz. unfold contents. destruct (q_dests q) as [|d ds] eqn:E; [done|].
  pose proof (wf_queue_fits q 0 d Hq ltac:(by rewrite E)). lia.
Qed.

#[export] Hint Resolve queue_ok_empty queue_ok_later : ygg.
