(* ===== verification/RouterState.v ===== *)
(** * The state of the router actor

    [ironwood/network/router.go] (types [router], [routerPenaltyEntry] and
    [routerPenaltyKey]), with the state of the two parts that run inside the
    same actor, [blooms] (bloomfilter.go) and [pathfinder] (pathfinder.go), the
    peers it names (peers.go) and the configuration it reads (config.go).

    A handler is a step of the actor monad of the prelude over [router]. What
    the program reads from outside is the field [r_env]: the clock, constant
    during one step, the bytes [crypto/rand] returns, and the next timer
    handle. What a handler does to the outside is the list of [effect]s. *)

From stdpp Require Import countable.
From S2P Require Import Prelude Crypto Wire Messages Bloom.

(** ** time.Duration, in nanoseconds *)

Definition Nanosecond : Z := 1.
Definition Millisecond : Z := 1000000.
Definition Second : Z := 1000 * Millisecond.
Definition Minute : Z := 60 * Second.

(** [d.Milliseconds()]: Go's division truncates towards zero. *)
Definition Milliseconds (d : Z) : Z := Z.quot d Millisecond.

(** ** config.go *)

Record config := MkConfig {
  routerRefresh : Z;
  routerTimeout : Z;
  peerKeepAliveDelay : Z;
  peerTimeout : Z;
  peerMaxMessageSize : Z;
  bloomTransform : list byte -> list byte;
  pathTimeout : Z;
  pathThrottle : Z
}.

(** [configDefaults]; the [pathNotify] callback is an effect. *)
Definition configDefaults : config := {|
  routerRefresh := 4 * Minute;
  routerTimeout := 5 * Minute;
  peerKeepAliveDelay := Second;
  peerTimeout := 3 * Second;
  peerMaxMessageSize := 1048576;
  bloomTransform := fun key => key;
  pathTimeout := Minute;
  pathThrottle := Second
|}.

(** The parts of [core] a handler reads: neither changes after [init]. *)
Record core := MkCore { core_config : config; core_crypto : crypto }.

Definition selfKey (c : core) : publicKey := crypto_publicKey (core_crypto c).

(** ** peers *)

(** The fields of a [peer] fixed by [addPeer]. The program compares pointers to
    peers; [p_order] is a different number for each, so records stand for them. *)
Record peer := MkPeer {
  p_key : publicKey;
  p_protocol : string;
  p_port : Z;
  p_prio : Z;
  p_order : Z
}.

#[global] Instance peer_eq_dec : EqDecision peer.
Proof. solve_decision. Defined.
#[global] Instance peer_countable : Countable peer.
Proof.
  apply (inj_countable' (fun p => (p_key p, p_protocol p, p_port p, p_prio p, p_order p))
    (fun '(k, pr, po, pi, o) => MkPeer k pr po pi o)).
  by intros [].
Defined.

(** ** The maps of the router *)

Abbreviation timer := nat.
Abbreviation routerPenaltyKey := (publicKey * string)%type.

Record routerPenaltyEntry := MkPenalty { pe_penaltyMs : Z; pe_recordedAt : Z }.

Record bloomInfo := MkBloomInfo {
  bi_send : bloom;
  bi_recv : bloom;
  bi_seq : Z;
  bi_onTree : bool;
  bi_zDirty : bool
}.

Record pathInfo := MkPathInfo {
  pt_path : list Z;
  pt_seq : Z;
  pt_reqTime : Z;
  pt_timer : timer;
  pt_traffic : option traffic;
  pt_broken : bool
}.

Record pathRumor := MkRumor {
  ru_traffic : option traffic;
  ru_sendTime : Z;
  ru_timer : timer
}.

Definition zero_notifyInfo : pathNotifyInfo := MkNotifyInfo 0 [] (zero_array 64).

(** The clock in nanoseconds, the random 64-bit values still to be read (none
    left models a failed read, which leaves the buffer zero), the next handle. *)
Record env := MkEnv { env_now : Z; env_random : list Z; env_timer : timer }.

Record router := MkRouter {
  r_peers : gmap publicKey (gset peer);
  r_sent : gmap publicKey (gset publicKey);
  r_ports : gmap Z publicKey;
  r_infos : gmap publicKey routerInfo;
  r_timers : gmap publicKey timer;
  r_ancs : gmap publicKey (list publicKey);
  r_cache : gmap publicKey (list Z);
  r_lags : gmap peer Z;
  r_penalties : gmap routerPenaltyKey routerPenaltyEntry;
  r_requests : gmap publicKey routerSigReq;
  r_responses : gmap publicKey routerSigRes;
  r_responded : gset peer;
  r_resSeqs : gmap publicKey Z;
  r_resSeqCtr : Z;
  r_refresh : bool;
  r_doRoot1 : bool;
  r_doRoot2 : bool;
  r_mainTimer : option timer;
  r_blooms : gmap publicKey bloomInfo;
  r_pf_info : pathNotifyInfo;
  r_paths : gmap publicKey pathInfo;
  r_rumors : gmap publicKey pathRumor;
  r_env : env
}.

Definition set_r_peers (f : gmap publicKey (gset peer) -> gmap publicKey (gset peer)) (r : router) : router :=
  MkRouter (f (r_peers r)) (r_sent r) (r_ports r) (r_infos r) (r_timers r) (r_ancs r)
    (r_cache r) (r_lags r) (r_penalties r) (r_requests r) (r_responses r)
    (r_responded r) (r_resSeqs r) (r_resSeqCtr r) (r_refresh r) (r_doRoot1 r)
    (r_doRoot2 r) (r_mainTimer r) (r_blooms r) (r_pf_info r) (r_paths r) (r_rumors r)
    (r_env r).
Definition set_r_sent (f : gmap publicKey (gset publicKey) -> gmap publicKey (gset publicKey)) (r : router) : router :=
  MkRouter (r_peers r) (f (r_sent r)) (r_ports r) (r_infos r) (r_timers r) (r_ancs r)
    (r_cache r) (r_lags r) (r_penalties r) (r_requests r) (r_responses r)
    (r_responded r) (r_resSeqs r) (r_resSeqCtr r) (r_refresh r) (r_doRoot1 r)
    (r_doRoot2 r) (r_mainTimer r) (r_blooms r) (r_pf_info r) (r_paths r) (r_rumors r)
    (r_env r).
Definition set_r_ports (f : gmap Z publicKey -> gmap Z publicKey) (r : router) : router :=
  MkRouter (r_peers r) (r_sent r) (f (r_ports r)) (r_infos r) (r_timers r) (r_ancs r)
    (r_cache r) (r_lags r) (r_penalties r) (r_requests r) (r_responses r)
    (r_responded r) (r_resSeqs r) (r_resSeqCtr r) (r_refresh r) (r_doRoot1 r)
    (r_doRoot2 r) (r_mainTimer r) (r_blooms r) (r_pf_info r) (r_paths r) (r_rumors r)
    (r_env r).
Definition set_r_infos (f : gmap publicKey routerInfo -> gmap publicKey routerInfo) (r : router) : router :=
  MkRouter (r_peers r) (r_sent r) (r_ports r) (f (r_infos r)) (r_timers r) (r_ancs r)
    (r_cache r) (r_lags r) (r_penalties r) (r_requests r) (r_responses r)
    (r_responded r) (r_resSeqs r) (r_resSeqCtr r) (r_refresh r) (r_doRoot1 r)
    (r_doRoot2 r) (r_mainTimer r) (r_blooms r) (r_pf_info r) (r_paths r) (r_rumors r)
    (r_env r).
Definition set_r_timers (f : gmap publicKey timer -> gmap publicKey timer) (r : router) : router :=
  MkRouter (r_peers r) (r_sent r) (r_ports r) (r_infos r) (f (r_timers r)) (r_ancs r)
    (r_cache r) (r_lags r) (r_penalties r) (r_requests r) (r_responses r)
    (r_responded r) (r_resSeqs r) (r_resSeqCtr r) (r_refresh r) (r_doRoot1 r)
    (r_doRoot2 r) (r_mainTimer r) (r_blooms r) (r_pf_info r) (r_paths r) (r_rumors r)
    (r_env r).
Definition set_r_ancs (f : gmap publicKey (list publicKey) -> gmap publicKey (list publicKey)) (r : router) : router :=
  MkRouter (r_peers r) (r_sent r) (r_ports r) (r_infos r) (r_timers r) (f (r_ancs r))
    (r_cache r) (r_lags r) (r_penalties r) (r_requests r) (r_responses r)
    (r_responded r) (r_resSeqs r) (r_resSeqCtr r) (r_refresh r) (r_doRoot1 r)
    (r_doRoot2 r) (r_mainTimer r) (r_blooms r) (r_pf_info r) (r_paths r) (r_rumors r)
    (r_env r).
Definition set_r_cache (f : gmap publicKey (list Z) -> gmap publicKey (list Z)) (r : router) : router :=
  MkRouter (r_peers r) (r_sent r) (r_ports r) (r_infos r) (r_timers r) (r_ancs r)
    (f (r_cache r)) (r_lags r) (r_penalties r) (r_requests r) (r_responses r)
    (r_responded r) (r_resSeqs r) (r_resSeqCtr r) (r_refresh r) (r_doRoot1 r)
    (r_doRoot2 r) (r_mainTimer r) (r_blooms r) (r_pf_info r) (r_paths r) (r_rumors r)
    (r_env r).
Definition set_r_lags (f : gmap peer Z -> gmap peer Z) (r : router) : router :=
  MkRouter (r_peers r) (r_sent r) (r_ports r) (r_infos r) (r_timers r) (r_ancs r)
    (r_cache r) (f (r_lags r)) (r_penalties r) (r_requests r) (r_responses r)
    (r_responded r) (r_resSeqs r) (r_resSeqCtr r) (r_refresh r) (r_doRoot1 r)
    (r_doRoot2 r) (r_mainTimer r) (r_blooms r) (r_pf_info r) (r_paths r) (r_rumors r)
    (r_env r).
Definition set_r_penalties (f : gmap routerPenaltyKey routerPenaltyEntry -> gmap routerPenaltyKey routerPenaltyEntry) (r : router) : router :=
  MkRouter (r_peers r) (r_sent r) (r_ports r) (r_infos r) (r_timers r) (r_ancs r)
    (r_cache r) (r_lags r) (f (r_penalties r)) (r_requests r) (r_responses r)
    (r_responded r) (r_resSeqs r) (r_resSeqCtr r) (r_refresh r) (r_doRoot1 r)
    (r_doRoot2 r) (r_mainTimer r) (r_blooms r) (r_pf_info r) (r_paths r) (r_rumors r)
    (r_env r).
Definition set_r_requests (f : gmap publicKey routerSigReq -> gmap publicKey routerSigReq) (r : router) : router :=
  MkRouter (r_peers r) (r_sent r) (r_ports r) (r_infos r) (r_timers r) (r_ancs r)
    (r_cache r) (r_lags r) (r_penalties r) (f (r_requests r)) (r_responses r)
    (r_responded r) (r_resSeqs r) (r_resSeqCtr r) (r_refresh r) (r_doRoot1 r)
    (r_doRoot2 r) (r_mainTimer r) (r_blooms r) (r_pf_info r) (r_paths r) (r_rumors r)
    (r_env r).
Definition set_r_responses (f : gmap publicKey routerSigRes -> gmap publicKey routerSigRes) (r : router) : router :=
  MkRouter (r_peers r) (r_sent r) (r_ports r) (r_infos r) (r_timers r) (r_ancs r)
    (r_cache r) (r_lags r) (r_penalties r) (r_requests r) (f (r_responses r))
    (r_responded r) (r_resSeqs r) (r_resSeqCtr r) (r_refresh r) (r_doRoot1 r)
    (r_doRoot2 r) (r_mainTimer r) (r_blooms r) (r_pf_info r) (r_paths r) (r_rumors r)
    (r_env r).
Definition set_r_responded (f : gset peer -> gset peer) (r : router) : router :=
  MkRouter (r_peers r) (r_sent r) (r_ports r) (r_infos r) (r_timers r) (r_ancs r)
    (r_cache r) (r_lags r) (r_penalties r) (r_requests r) (r_responses r)
    (f (r_responded r)) (r_resSeqs r) (r_resSeqCtr r) (r_refresh r) (r_doRoot1 r)
    (r_doRoot2 r) (r_mainTimer r) (r_blooms r) (r_pf_info r) (r_paths r) (r_rumors r)
    (r_env r).
Definition set_r_resSeqs (f : gmap publicKey Z -> gmap publicKey Z) (r : router) : router :=
  MkRouter (r_peers r) (r_sent r) (r_ports r) (r_infos r) (r_timers r) (r_ancs r)
    (r_cache r) (r_lags r) (r_penalties r) (r_requests r) (r_responses r)
    (r_responded r) (f (r_resSeqs r)) (r_resSeqCtr r) (r_refresh r) (r_doRoot1 r)
    (r_doRoot2 r) (r_mainTimer r) (r_blooms r) (r_pf_info r) (r_paths r) (r_rumors r)
    (r_env r).
Definition set_r_resSeqCtr (f : Z -> Z) (r : router) : router :=
  MkRouter (r_peers r) (r_sent r) (r_ports r) (r_infos r) (r_timers r) (r_ancs r)
    (r_cache r) (r_lags r) (r_penalties r) (r_requests r) (r_responses r)
    (r_responded r) (r_resSeqs r) (f (r_resSeqCtr r)) (r_refresh r) (r_doRoot1 r)
    (r_doRoot2 r) (r_mainTimer r) (r_blooms r) (r_pf_info r) (r_paths r) (r_rumors r)
    (r_env r).
Definition set_r_refresh (f : bool -> bool) (r : router) : router :=
  MkRouter (r_peers r) (r_sent r) (r_ports r) (r_infos r) (r_timers r) (r_ancs r)
    (r_cache r) (r_lags r) (r_penalties r) (r_requests r) (r_responses r)
    (r_responded r) (r_resSeqs r) (r_resSeqCtr r) (f (r_refresh r)) (r_doRoot1 r)
    (r_doRoot2 r) (r_mainTimer r) (r_blooms r) (r_pf_info r) (r_paths r) (r_rumors r)
    (r_env r).
Definition set_r_doRoot1 (f : bool -> bool) (r : router) : router :=
  MkRouter (r_peers r) (r_sent r) (r_ports r) (r_infos r) (r_timers r) (r_ancs r)
    (r_cache r) (r_lags r) (r_penalties r) (r_requests r) (r_responses r)
    (r_responded r) (r_resSeqs r) (r_resSeqCtr r) (r_refresh r) (f (r_doRoot1 r))
    (r_doRoot2 r) (r_mainTimer r) (r_blooms r) (r_pf_info r) (r_paths r) (r_rumors r)
    (r_env r).
Definition set_r_doRoot2 (f : bool -> bool) (r : router) : router :=
  MkRouter (r_peers r) (r_sent r) (r_ports r) (r_infos r) (r_timers r) (r_ancs r)
    (r_cache r) (r_lags r) (r_penalties r) (r_requests r) (r_responses r)
    (r_responded r) (r_resSeqs r) (r_resSeqCtr r) (r_refresh r) (r_doRoot1 r)
    (f (r_doRoot2 r)) (r_mainTimer r) (r_blooms r) (r_pf_info r) (r_paths r)
    (r_rumors r) (r_env r).
Definition set_r_mainTimer (f : option timer -> option timer) (r : router) : router :=
  MkRouter (r_peers r) (r_sent r) (r_ports r) (r_infos r) (r_timers r) (r_ancs r)
    (r_cache r) (r_lags r) (r_penalties r) (r_requests r) (r_responses r)
    (r_responded r) (r_resSeqs r) (r_resSeqCtr r) (r_refresh r) (r_doRoot1 r)
    (r_doRoot2 r) (f (r_mainTimer r)) (r_blooms r) (r_pf_info r) (r_paths r)
    (r_rumors r) (r_env r).
Definition set_r_blooms (f : gmap publicKey bloomInfo -> gmap publicKey bloomInfo) (r : router) : router :=
  MkRouter (r_peers r) (r_sent r) (r_ports r) (r_infos r) (r_timers r) (r_ancs r)
    (r_cache r) (r_lags r) (r_penalties r) (r_requests r) (r_responses r)
    (r_responded r) (r_resSeqs r) (r_resSeqCtr r) (r_refresh r) (r_doRoot1 r)
    (r_doRoot2 r) (r_mainTimer r) (f (r_blooms r)) (r_pf_info r) (r_paths r)
    (r_rumors r) (r_env r).
Definition set_r_pf_info (f : pathNotifyInfo -> pathNotifyInfo) (r : router) : router :=
  MkRouter (r_peers r) (r_sent r) (r_ports r) (r_infos r) (r_timers r) (r_ancs r)
    (r_cache r) (r_lags r) (r_penalties r) (r_requests r) (r_responses r)
    (r_responded r) (r_resSeqs r) (r_resSeqCtr r) (r_refresh r) (r_doRoot1 r)
    (r_doRoot2 r) (r_mainTimer r) (r_blooms r) (f (r_pf_info r)) (r_paths r)
    (r_rumors r) (r_env r).
Definition set_r_paths (f : gmap publicKey pathInfo -> gmap publicKey pathInfo) (r : router) : router :=
  MkRouter (r_peers r) (r_sent r) (r_ports r) (r_infos r) (r_timers r) (r_ancs r)
    (r_cache r) (r_lags r) (r_penalties r) (r_requests r) (r_responses r)
    (r_responded r) (r_resSeqs r) (r_resSeqCtr r) (r_refresh r) (r_doRoot1 r)
    (r_doRoot2 r) (r_mainTimer r) (r_blooms r) (r_pf_info r) (f (r_paths r))
    (r_rumors r) (r_env r).
Definition set_r_rumors (f : gmap publicKey pathRumor -> gmap publicKey pathRumor) (r : router) : router :=
  MkRouter (r_peers r) (r_sent r) (r_ports r) (r_infos r) (r_timers r) (r_ancs r)
    (r_cache r) (r_lags r) (r_penalties r) (r_requests r) (r_responses r)
    (r_responded r) (r_resSeqs r) (r_resSeqCtr r) (r_refresh r) (r_doRoot1 r)
    (r_doRoot2 r) (r_mainTimer r) (r_blooms r) (r_pf_info r) (r_paths r)
    (f (r_rumors r)) (r_env r).
Definition set_r_env (f : env -> env) (r : router) : router :=
  MkRouter (r_peers r) (r_sent r) (r_ports r) (r_infos r) (r_timers r) (r_ancs r)
    (r_cache r) (r_lags r) (r_penalties r) (r_requests r) (r_responses r)
    (r_responded r) (r_resSeqs r) (r_resSeqCtr r) (r_refresh r) (r_doRoot1 r)
    (r_doRoot2 r) (r_mainTimer r) (r_blooms r) (r_pf_info r) (r_paths r) (r_rumors r)
    (f (r_env r)).

(** ** Effects *)

(** The closures given to [time.AfterFunc], by what they close over. *)
Inductive timerKind :=
| TRefresh (key : publicKey)
| TInfoTimeout (key : publicKey)
| TPathTimeout (key : publicKey)
| TRumorTimeout (xform : publicKey)
| TMaintenance.

Inductive effect :=
| ESendSigReq (p : peer) (req : routerSigReq)
| ESendSigRes (p : peer) (res : routerSigRes)
| ESendAnnounce (p : peer) (ann : routerAnnounce)
| ESendBloom (p : peer) (b : bloom)
| ESendQueued (p : peer) (packet : pqPacket)
| EHandleTraffic (tr : traffic)
| EPconnTraffic (tr : traffic)
| EPathNotify (key : publicKey)
| EFreeTraffic (tr : traffic)
| EAfterFunc (t : timer) (delay : Z) (what : timerKind)
| EResetTimer (t : timer) (delay : Z)
| EStopTimer (t : timer).

Abbreviation R := (Act router effect).

Abbreviation ret a := (mret (M := Act router effect) a) (only parsing).
Abbreviation gets f := (act_gets (S := router) (E := effect) f).
Abbreviation modify f := (act_modify (S := router) (E := effect) f).
Abbreviation emit e := (act_emit (S := router) (E := effect) e).
Abbreviation panic := (act_panic (S := router) (E := effect)).

(** [time.Now()]. *)
Definition time_Now : R Z := gets (fun r => env_now (r_env r)).

(** [time.AfterFunc(delay, ...)]: a fresh handle. *)
Definition AfterFunc (delay : Z) (what : timerKind) : R timer :=
  t ← gets (fun r => env_timer (r_env r));
  _ ← modify (set_r_env (fun e => MkEnv (env_now e) (env_random e) (S t)));
  _ ← emit (EAfterFunc t delay what);
  ret t.

(** [crand.Read(nonce)] and [binary.BigEndian.Uint64(nonce)]. *)
Definition random_u64 : R Z :=
  l ← gets (fun r => env_random (r_env r));
  match l with
  | [] => ret 0
  | x :: l' =>
      _ ← modify (set_r_env (fun e => MkEnv (env_now e) l' (env_timer e)));
      ret (u64 x)
  end.

(** [for k := range m] and [for k, v := range m]. *)
Definition act_range `{MapOrder} `{Countable K} {V} (m : router -> gmap K V)
    (f : K -> R unit) : R unit :=
  ks ← gets (fun r => map_order (dom (m r)));
  act_for ks f.

Definition act_range_set `{MapOrder} `{Countable K} (X : router -> gset K)
    (f : K -> R unit) : R unit :=
  ks ← gets (fun r => map_order (X r));
  act_for ks f.

(** ** Peers of a state *)

(** Every map of peers is non-empty and holds peers with that key. *)
Definition peers_keyed (r : router) : Prop :=
  map_Forall (fun k ps => ps <> ∅ /\ forall p, p ∈ ps -> p_key p = k) (r_peers r).

Definition is_peer (r : router) (p : peer) : Prop :=
  exists ps, r_peers r !! p_key p = Some ps /\ p ∈ ps.

(** A loop over the links of a peer is a loop over connected peers. *)
Lemma peers_of_is_peer r k p :
  peers_keyed r -> p ∈ default ∅ (r_peers r !! k) -> is_peer r p /\ p_key p = k.
Proof.
  intros Hk Hp. destruct (r_peers r !! k) as [ps|] eqn:E; simpl in Hp.
  - destruct (Hk k ps E) as [_ Hps]. rewrite <- (Hps p Hp) in E |- *. split; [by exists ps|done].
  - by apply not_elem_of_empty in Hp.
Qed.

Lemma act_range_wp `{MapOrder} `{Countable K} {V} (m : router -> gmap K V) (f : K -> R unit)
    (I : router -> Prop) (P : effect -> Prop) r :
  I r ->
  (forall k r', k ∈ dom (m r) -> I r' -> wp (f k) r' (fun _ r'' es => I r'' /\ Forall P es)) ->
  wp (act_range m f) r (fun _ r' es => I r' /\ Forall P es).
Proof.
  intros Hr Hf. apply wp_bind, wp_gets. simpl.
  apply (wp_for _ _ I P); [done|]. intros k r' Hk. apply Hf. by apply elem_of_map_order.
Qed.

Lemma act_range_set_wp `{MapOrder} `{Countable K} (X : router -> gset K) (f : K -> R unit)
    (I : router -> Prop) (P : effect -> Prop) r :
  I r ->
  (forall k r', k ∈ X r -> I r' -> wp (f k) r' (fun _ r'' es => I r'' /\ Forall P es)) ->
  wp (act_range_set X f) r (fun _ r' es => I r' /\ Forall P es).
Proof.
  intros Hr Hf. apply wp_bind, wp_gets. simpl.
  apply (wp_for _ _ I P); [done|]. intros k r' Hk. apply Hf. by apply elem_of_map_order.
Qed.
