(* ===== verification/RouterTree.v ===== *)
(** * Tree routing data

    The loops of [ironwood/network/router.go] that follow parents through the
    [infos] map ([_getRootAndDists], [_getRootAndPath], [_backwardsAncestry],
    [_getAncestry]) and the tree distance of [_getDist].

    Each [for] loop runs on fuel: one round per known info and one more, which
    is enough because a round that continues visits a new key of the map. The
    lineage of a key, the keys on its way to the root, is the common
    specification of the loops. *)

From S2P Require Import Prelude Crypto Wire Messages.

Section loops.
Context (infos : gmap publicKey routerInfo).

Fixpoint rootAndDists_loop (fuel : nat) (dists : gmap publicKey Z) (next root : publicKey)
    (dist : Z) : publicKey * gmap publicKey Z :=
  match fuel with
  | O => (root, dists)
  | S fuel' =>
      match dists !! next with
      | Some _ => (root, dists)
      | None =>
          match infos !! next with
          | Some info =>
              rootAndDists_loop fuel' (<[next := dist]> dists) (info_parent info) next
                (u64 (dist + 1))
          | None => (root, dists)
          end
      end
  end.

Definition getRootAndDists (dest : publicKey) : publicKey * gmap publicKey Z :=
  rootAndDists_loop (S (base.size infos)) ∅ dest (zero_array 32) 0.

Fixpoint rootAndPath_loop (fuel : nat) (ports : list Z) (visited : gset publicKey)
    (dest root next : publicKey) : publicKey * list Z :=
  match fuel with
  | O => (dest, [])
  | S fuel' =>
      if bool_decide (next ∈ visited) then (dest, [])
      else
        match infos !! next with
        | Some info =>
            if bool_decide (next = info_parent info) then (next, reverse ports)
            else rootAndPath_loop fuel' (ports ++ [info_port info]) ({[next]} ∪ visited)
                   dest next (info_parent info)
        | None => (dest, [])
        end
  end.

Definition getRootAndPath (dest : publicKey) : publicKey * list Z :=
  rootAndPath_loop (S (base.size infos)) [] ∅ dest (zero_array 32) dest.

Fixpoint backwardsAncestry_loop (fuel : nat) (anc : list publicKey) (here : publicKey)
    : list publicKey :=
  match fuel with
  | O => anc
  | S fuel' =>
      if bool_decide (here ∈ anc) then anc
      else
        match infos !! here with
        | Some info => backwardsAncestry_loop fuel' (anc ++ [here]) (info_parent info)
        | None => anc
        end
  end.

Definition backwardsAncestry (anc : list publicKey) (key : publicKey) : list publicKey :=
  backwardsAncestry_loop (S (base.size infos)) anc key.

Definition getAncestry (key : publicKey) : list publicKey :=
  reverse (backwardsAncestry [] key).
End loops.

(** The loop of [_getDist] over the common prefix. *)
Fixpoint dist_loop (dist : Z) (keyPath destPath : list Z) : Z :=
  match keyPath, destPath with
  | x :: keyPath', y :: destPath' =>
      if x =? y then dist_loop (u64 (dist - 2)) keyPath' destPath' else dist
  | _, _ => dist
  end.

(** [_getDist] once the path of the key is known. *)
Definition pathDist (keyPath destPath : list Z) : Z :=
  dist_loop (u64 (Z.of_nat (length keyPath + length destPath))) keyPath destPath.

(** ** The lineage of a key *)

Section lineage.
Context (infos : gmap publicKey routerInfo).

Definition parent_of (k : publicKey) : option publicKey := info_parent <$> infos !! k.

(** [l] starts at [key] and follows parents; it stops at a key without info
    or before a key it already has. *)
Record lineage (key : publicKey) (l : list publicKey) : Prop := {
  lin_nodup : NoDup l;
  lin_known : Forall (fun k => is_Some (infos !! k)) l;
  lin_first : l = [] -> infos !! key = None;
  lin_head k : l !! 0%nat = Some k -> k = key;
  lin_step i a b : l !! i = Some a -> l !! S i = Some b -> parent_of a = Some b;
  lin_end a b : last l = Some a -> parent_of a = Some b -> infos !! b = None \/ b ∈ l
}.

Lemma known_length_le (l : list publicKey) :
  NoDup l -> Forall (fun k => is_Some (infos !! k)) l -> (length l <= base.size infos)%nat.
Proof.
  intros Hnd Hk. rewrite <- size_dom. rewrite <- (size_list_to_set (C := gset publicKey) l) by done.
  apply subseteq_size. intros k Hin%elem_of_list_to_set. rewrite Forall_forall in Hk.
  apply elem_of_dom. auto.
Qed.

(** Enough fuel: one round per key not yet visited, and one to stop. *)
Lemma backwardsAncestry_loop_spec fuel : forall anc here key,
  (base.size infos < fuel + length anc)%nat ->
  NoDup anc -> Forall (fun k => is_Some (infos !! k)) anc ->
  (forall k, anc !! 0%nat = Some k -> k = key) -> (anc = [] -> here = key) ->
  (forall i a b, anc !! i = Some a -> anc !! S i = Some b -> parent_of a = Some b) ->
  (forall a, last anc = Some a -> parent_of a = Some here) ->
  lineage key (backwardsAncestry_loop infos fuel anc here).
Proof.
  induction fuel as [|fuel IH]; intros anc here key Hf Hnd Hk H0 Hn Hs Hl; simpl.
  { pose proof (known_length_le anc Hnd Hk). simpl in Hf. lia. }
  case_bool_decide as Hin.
  - split; try done.
    + intros ->. by apply not_elem_of_nil in Hin.
    + intros a b Ha Hb. right. rewrite (Hl a Ha) in Hb. by injection Hb as <-.
  - destruct (infos !! here) as [info|] eqn:E.
    + apply IH.
      * rewrite length_app. simpl. lia.
      * apply NoDup_app. split_and!; [done| |apply NoDup_singleton].
        intros k Hk1 ->%list_elem_of_singleton. done.
      * apply Forall_app. split; [done|]. by constructor.
      * intros k Hk0. destruct anc as [|a anc]; simpl in *; [|by apply H0].
        injection Hk0 as <-. by apply Hn.
      * by destruct anc.
      * intros i a b Ha Hb.
        assert (S i < length (anc ++ [here]))%nat as Hlt by by eapply lookup_lt_Some.
        rewrite length_app in Hlt. simpl in Hlt. rewrite lookup_app_l in Ha by lia.
        destruct (decide (S i = length anc)) as [Ei|Ei].
        -- rewrite Ei, list_lookup_middle in Hb by done. injection Hb as <-.
           apply Hl. rewrite last_lookup, <- Ei. done.
        -- rewrite lookup_app_l in Hb by lia. by eapply Hs.
      * intros a Ha. rewrite last_snoc in Ha. injection Ha as <-.
        unfold parent_of. by rewrite E.
    + split; try done.
      * intros ->. by rewrite Hn in E.
      * intros a b Ha Hb. rewrite (Hl a Ha) in Hb. injection Hb as <-. by left.
Qed.

Lemma backwardsAncestry_lineage key : lineage key (backwardsAncestry infos [] key).
Proof.
  apply backwardsAncestry_loop_spec; simpl; try done; [lia|constructor].
Qed.

Lemma lineage_lookup_0 key l : lineage key l -> is_Some (infos !! key) -> l !! 0%nat = Some key.
Proof.
  intros Hl [info E]. destruct l as [|k l].
  - by rewrite (lin_first _ _ Hl eq_refl) in E.
  - by rewrite (lin_head _ _ Hl k eq_refl).
Qed.

(** The lineage is unique. *)
Lemma lineage_prefix key l l' : lineage key l -> lineage key l' ->
  forall i j k, (j <= i)%nat -> l !! j = Some k -> l' !! j = Some k.
Proof.
  intros Hl Hl'. induction i as [|i IH]; intros j k Hji Hk.
  - assert (j = 0)%nat as -> by lia.
    assert (k = key) as -> by by apply (lin_head _ _ Hl).
    apply lineage_lookup_0; [done|]. pose proof (lin_known _ _ Hl) as Hf.
    by eapply Forall_lookup_1 in Hf.
  - destruct (decide (j = S i)) as [->|]; [|apply IH; [lia|done]].
    destruct (lookup_lt_is_Some_2 l i) as [a Ha]; [apply lookup_lt_Some in Hk; lia|].
    pose proof (IH i a (le_n i) Ha) as Ha'. pose proof (lin_step _ _ Hl i a k Ha Hk) as Hp.
    destruct (l' !! S i) as [b|] eqn:Eb.
    { rewrite (lin_step _ _ Hl' i a b Ha' Eb) in Hp. done. }
    exfalso. pose proof (lookup_lt_Some _ _ _ Ha'). apply lookup_ge_None in Eb.
    assert (last l' = Some a) as Hlast.
    { rewrite last_lookup. by replace (pred (length l')) with i by lia. }
    destruct (lin_end _ _ Hl' a k Hlast Hp) as [Hn|[m Hm]%list_elem_of_lookup].
    + pose proof (lin_known _ _ Hl) as Hf. eapply Forall_lookup_1 in Hf; [|exact Hk].
      rewrite Hn in Hf. by destruct Hf.
    + pose proof (lookup_lt_Some _ _ _ Hm). pose proof (lookup_lt_Some _ _ _ Hk).
      destruct (lookup_lt_is_Some_2 l m) as [c Hc]; [lia|].
      pose proof (IH m c ltac:(lia) Hc) as Hc'. rewrite Hm in Hc'. injection Hc' as <-.
      pose proof (NoDup_lookup _ _ _ _ (lin_nodup _ _ Hl) Hc Hk). lia.
Qed.

Lemma lineage_unique key l l' : lineage key l -> lineage key l' -> l = l'.
Proof.
  intros Hl Hl'. apply list_eq. intros i. destruct (l !! i) as [a|] eqn:Ea.
  - symmetry. by apply (lineage_prefix key l l' Hl Hl' i).
  - destruct (l' !! i) as [b|] eqn:Eb; [|done].
    apply (lineage_prefix key l' l Hl' Hl i) in Eb; [congruence|done].
Qed.

(** *** The loops compute from the lineage *)

Definition indexes (m : gmap publicKey Z) (l : list publicKey) : Prop :=
  forall k d, m !! k = Some d <-> exists i, d = Z.of_nat i /\ l !! i = Some k.

Lemma indexes_None m l k : indexes m l -> m !! k = None <-> k ∉ l.
Proof.
  intros Hm. split.
  - intros E [i Hi]%list_elem_of_lookup.
    assert (m !! k = Some (Z.of_nat i)) by (apply Hm; eauto). congruence.
  - intros Hn. destruct (m !! k) as [d|] eqn:E; [|done].
    apply Hm in E as (i & _ & Hi). destruct Hn. by eapply list_elem_of_lookup_2.
Qed.

Lemma indexes_snoc m l k : k ∉ l -> indexes m l ->
  indexes (<[k := Z.of_nat (length l)]> m) (l ++ [k]).
Proof.
  intros Hk Hm k' d. destruct (decide (k' = k)) as [->|Hne].
  - rewrite lookup_insert_eq. split.
    + intros [= <-]. exists (length l). split; [done|]. by rewrite list_lookup_middle.
    + intros (i & -> & Hi). destruct (decide (i < length l)%nat).
      * rewrite lookup_app_l in Hi by done. destruct Hk. by eapply list_elem_of_lookup_2.
      * pose proof (lookup_lt_Some _ _ _ Hi) as Hlt. rewrite length_app in Hlt. simpl in Hlt.
        do 2 f_equal. lia.
  - rewrite lookup_insert_ne by done. rewrite (Hm k' d).
    split; intros (i & -> & Hi); exists i; (split; [done|]).
    + rewrite lookup_app_l; [done|]. by eapply lookup_lt_Some.
    + apply lookup_snoc_Some in Hi as [[_ ?]|[_ ?]]; [done|congruence].
Qed.

Lemma backwardsAncestry_loop_length fuel : forall anc here,
  (length anc <= length (backwardsAncestry_loop infos fuel anc here))%nat.
Proof.
  induction fuel as [|fuel IH]; intros anc here; simpl; [done|].
  case_bool_decide; [done|]. destruct (infos !! here) as [info|]; [|done].
  specialize (IH (anc ++ [here]) (info_parent info)). rewrite length_app in IH. lia.
Qed.

Lemma rootAndDists_loop_lineage fuel : forall anc dists next root,
  indexes dists anc -> root = default (zero_array 32) (last anc) ->
  Z.of_nat (length (backwardsAncestry_loop infos fuel anc next)) < 2 ^ 64 ->
  let r := rootAndDists_loop infos fuel dists next root (Z.of_nat (length anc)) in
  let anc' := backwardsAncestry_loop infos fuel anc next in
  r.1 = default (zero_array 32) (last anc') /\ indexes r.2 anc'.
Proof.
  induction fuel as [|fuel IH]; intros anc dists next root Hd Hr Hfit; simpl; [done|].
  simpl in Hfit. destruct (dists !! next) as [d|] eqn:E.
  - rewrite bool_decide_eq_true_2; [done|]. apply Hd in E as (i & _ & Hi).
    by eapply list_elem_of_lookup_2.
  - pose proof E as Hn. rewrite (indexes_None _ _ _ Hd) in Hn.
    rewrite bool_decide_eq_false_2 in Hfit |- * by done.
    destruct (infos !! next) as [info|]; [|done].
    replace (u64 (Z.of_nat (length anc) + 1)) with (Z.of_nat (length (anc ++ [next]))).
    + apply IH; [by apply indexes_snoc|by rewrite last_snoc|done].
    + pose proof (backwardsAncestry_loop_length fuel (anc ++ [next]) (info_parent info)) as Hle.
      rewrite length_app in *. simpl in *. rewrite u64_small; [lia|]. unfold is_u64. lia.
Qed.

Definition port_of (k : publicKey) : Z :=
  match infos !! k with Some info => info_port info | None => 0 end.

Definition self_rooted (l : list publicKey) : Prop :=
  exists r, last l = Some r /\ parent_of r = Some r.
#[global] Instance self_rooted_dec l : Decision (self_rooted l).
Proof.
  unfold self_rooted. destruct (last l) as [r|] eqn:E.
  - destruct (decide (parent_of r = Some r)); [left; eauto|right].
    intros (r' & [= <-] & ?). done.
  - right. by intros (r' & ? & _).
Defined.

Definition lineage_path (key : publicKey) (l : list publicKey) : publicKey * list Z :=
  if decide (self_rooted l)
  then (default key (last l), reverse (map port_of (removelast l)))
  else (key, []).

Lemma rootAndPath_loop_lineage fuel : forall anc visited dest root next,
  (forall k, k ∈ visited <-> k ∈ anc) -> ~ self_rooted anc ->
  rootAndPath_loop infos fuel (map port_of anc) visited dest root next =
  lineage_path dest (backwardsAncestry_loop infos fuel anc next).
Proof.
  induction fuel as [|fuel IH]; intros anc visited dest root next Hv Hs; simpl.
  { unfold lineage_path. by rewrite decide_False. }
  unfold lineage_path at 1. destruct (decide (next ∈ anc)) as [Hin|Hin].
  { rewrite !bool_decide_eq_true_2 by naive_solver. by rewrite decide_False. }
  rewrite !bool_decide_eq_false_2 by naive_solver.
  destruct (infos !! next) as [info|] eqn:E; [|by rewrite decide_False].
  assert (map port_of (anc ++ [next]) = map port_of anc ++ [info_port info]) as Emap.
  { rewrite map_app. simpl. unfold port_of at 2. by rewrite E. }
  case_bool_decide as Hp.
  - assert (backwardsAncestry_loop infos fuel (anc ++ [next]) (info_parent info)
      = anc ++ [next]) as ->.
    { destruct fuel as [|fuel]; simpl; [done|]. rewrite bool_decide_eq_true_2; [done|].
      rewrite <- Hp. apply elem_of_app. right. by left. }
    rewrite decide_True.
    + by rewrite last_snoc, removelast_last.
    + exists next. rewrite last_snoc. unfold parent_of. rewrite E. simpl. by rewrite <- Hp.
  - rewrite <- Emap. apply IH.
    + intros k. rewrite elem_of_union, elem_of_app, elem_of_singleton, list_elem_of_singleton.
      naive_solver.
    + intros (r & Hr & Hpr). rewrite last_snoc in Hr. injection Hr as <-.
      unfold parent_of in Hpr. rewrite E in Hpr. simpl in Hpr. congruence.
Qed.
End lineage.

(** The three functions, as functions of the lineage. *)

Section fuel.
Context (infos : gmap publicKey routerInfo) (key : publicKey) (n : nat) (l : list publicKey).
Hypotheses (Hn : (base.size infos < n)%nat) (Hl : lineage infos key l).

Lemma backwardsAncestry_fuel : backwardsAncestry_loop infos n [] key = l.
Proof.
  eapply lineage_unique; [|exact Hl].
  apply backwardsAncestry_loop_spec; simpl; try done; [lia|constructor].
Qed.

Lemma rootAndDists_fuel :
  Z.of_nat (base.size infos) < 2 ^ 63 ->
  let r := rootAndDists_loop infos n ∅ key (zero_array 32) 0 in
  r.1 = default (zero_array 32) (last l) /\ indexes r.2 l.
Proof.
  intros Hfit. pose proof (known_length_le infos l (lin_nodup _ _ _ Hl) (lin_known _ _ _ Hl)).
  rewrite <- backwardsAncestry_fuel in *.
  apply (rootAndDists_loop_lineage infos _ [] ∅); [|done|lia].
  intros k d. rewrite lookup_empty. split; [done|]. by intros (i & _ & ?).
Qed.

Lemma rootAndPath_fuel :
  rootAndPath_loop infos n [] ∅ key (zero_array 32) key = lineage_path infos key l.
Proof.
  rewrite <- backwardsAncestry_fuel. apply (rootAndPath_loop_lineage infos _ []).
  - intros k. split; [|by intros ?%not_elem_of_nil]. set_solver.
  - by intros (r & ? & _).
Qed.
End fuel.

Lemma getRootAndDists_lineage infos key l :
  Z.of_nat (base.size infos) < 2 ^ 63 -> lineage infos key l ->
  (getRootAndDists infos key).1 = default (zero_array 32) (last l) /\
  indexes (getRootAndDists infos key).2 l.
Proof. intros Hfit Hl. apply rootAndDists_fuel; [lia|done|done]. Qed.

Lemma getRootAndPath_lineage infos key l :
  lineage infos key l -> getRootAndPath infos key = lineage_path infos key l.
Proof. intros Hl. apply rootAndPath_fuel; [lia|done]. Qed.

Lemma getAncestry_lineage infos key l :
  lineage infos key l -> getAncestry infos key = reverse l.
Proof.
  intros Hl. unfold getAncestry. f_equal.
  eapply lineage_unique; [apply backwardsAncestry_lineage|done].
Qed.

(** ** Positions in the tree

    [rooted k r p]: following parents from [k] reaches the self-parented [r],
    and [p] lists the ports from [r] down to [k]. *)

Inductive rooted (infos : gmap publicKey routerInfo) : publicKey -> publicKey -> list Z -> Prop :=
| rooted_root k info :
    infos !! k = Some info -> info_parent info = k -> rooted infos k k []
| rooted_child k info r p :
    infos !! k = Some info -> info_parent info <> k ->
    rooted infos (info_parent info) r p -> rooted infos k r (p ++ [info_port info]).

Section rooted.
Context (infos : gmap publicKey routerInfo).

Lemma rooted_fun k r p r' p' : rooted infos k r p -> rooted infos k r' p' -> r = r' /\ p = p'.
Proof.
  intros H. revert r' p'. induction H as [k info E Ep|k info r p E Ep H IH]; intros r' p' H'.
  - inversion H'; subst; [done|]. congruence.
  - inversion H' as [|k' info' r1 p1 E' Ep' H1]; subst; [congruence|].
    assert (info' = info) as -> by congruence. by destruct (IH _ _ H1) as [-> ->].
Qed.

Lemma rooted_lineage k r p : rooted infos k r p ->
  exists l, lineage infos k l /\ last l = Some r /\ parent_of infos r = Some r /\
    p = reverse (map (port_of infos) (removelast l)) /\
    Forall (fun a => exists p', rooted infos a r p' /\ (length p' <= length p)%nat) l.
Proof.
  induction 1 as [k info E Ep|k info r p E Ep H (l & Hl & Hlast & Hr & -> & Hall)].
  - exists [k]. assert (parent_of infos k = Some k) as Hp by (unfold parent_of; rewrite E; simpl; by f_equal).
    split_and!; [split| | | |]; try done.
    + apply NoDup_singleton.
    + by constructor.
    + by intros a [= <-].
    + intros a b [= <-]. rewrite Hp. intros [= <-]. right. by left.
    + constructor; [|done]. exists []. split; [by eapply rooted_root|done].
  - set (q := reverse (map (port_of infos) (removelast l))) in *.
    assert (l <> []) as Hne by by destruct l.
    assert (last (k :: l) = last l) as Hlk by by destruct l.
    assert (l !! 0%nat = Some (info_parent info)) as H0.
    { destruct l as [|a l]; [done|]. by rewrite (lin_head _ _ _ Hl a eq_refl). }
    assert (rooted infos k r (q ++ [info_port info])) as Hk by by eapply rooted_child.
    assert (k ∉ l) as Hkl.
    { intros Hin. rewrite Forall_forall in Hall. destruct (Hall k Hin) as (p' & Hp' & Hle).
      destruct (rooted_fun _ _ _ _ _ Hk Hp') as [_ <-]. rewrite length_app in Hle. simpl in Hle. lia. }
    exists (k :: l). split_and!; [split| | | |]; try done.
    + apply NoDup_cons. split; [done|apply Hl].
    + constructor; [by rewrite E|apply Hl].
    + by intros a [= <-].
    + intros i a b Ha Hb. destruct i as [|i].
      * simpl in Ha, Hb. injection Ha as <-. rewrite H0 in Hb. injection Hb as <-.
        unfold parent_of. by rewrite E.
      * by apply (lin_step _ _ _ Hl i).
    + intros a b Ha Hb. rewrite Hlk in Ha.
      destruct (lin_end _ _ _ Hl a b Ha Hb); [by left|]. right. by right.
    + by rewrite Hlk.
    + destruct l as [|a l]; [done|]. change (removelast (k :: a :: l)) with (k :: removelast (a :: l)).
      rewrite map_cons, reverse_cons. f_equal. f_equal. unfold port_of. by rewrite E.
    + constructor; [by exists (q ++ [info_port info])|].
      eapply Forall_impl; [exact Hall|]. intros a (p' & ? & ?). exists p'. split; [done|].
      rewrite length_app. lia.
Qed.

(** A chain that ends in a self-parented key is rooted. *)
Lemma chain_rooted l : forall k r,
  NoDup l -> Forall (fun a => is_Some (infos !! a)) l -> l !! 0%nat = Some k ->
  (forall i a b, l !! i = Some a -> l !! S i = Some b -> parent_of infos a = Some b) ->
  last l = Some r -> parent_of infos r = Some r ->
  rooted infos k r (reverse (map (port_of infos) (removelast l))).
Proof.
  induction l as [|a l IH]; intros k r Hnd Hk H0 Hs Hr Hrr; [done|].
  simpl in H0. injection H0 as ->. apply NoDup_cons in Hnd as [Hkl Hnd].
  apply Forall_cons in Hk as [[info E] Hk]. destruct l as [|b l].
  - simpl in Hr. injection Hr as <-. eapply rooted_root; [exact E|].
    unfold parent_of in Hrr. rewrite E in Hrr. simpl in Hrr. congruence.
  - change (removelast (k :: b :: l)) with (k :: removelast (b :: l)).
    rewrite map_cons, reverse_cons.
    assert (info_parent info = b) as Hb.
    { pose proof (Hs 0%nat k b eq_refl eq_refl) as Hp. unfold parent_of in Hp.
      rewrite E in Hp. simpl in Hp. congruence. }
    replace (port_of infos k) with (info_port info) by (unfold port_of; by rewrite E).
    eapply rooted_child; [exact E| |].
    + rewrite Hb. intros ->. apply Hkl. by left.
    + rewrite Hb. apply IH; try done. intros i x y. apply (Hs (S i)).
Qed.

(** [_getRootAndPath] finds the position of a key, and the empty path from
    the key itself when it has none. *)
Lemma getRootAndPath_rooted k r p :
  rooted infos k r p -> getRootAndPath infos k = (r, p).
Proof.
  intros H. destruct (rooted_lineage k r p H) as (l & Hl & Hlast & Hr & -> & _).
  rewrite (getRootAndPath_lineage _ _ _ Hl). unfold lineage_path.
  rewrite decide_True by (exists r; done). by rewrite Hlast.
Qed.

Lemma getRootAndPath_unrooted k :
  (forall r p, ~ rooted infos k r p) -> getRootAndPath infos k = (k, []).
Proof.
  intros H. pose proof (backwardsAncestry_lineage infos k) as Hl.
  rewrite (getRootAndPath_lineage _ _ _ Hl). unfold lineage_path.
  rewrite decide_False; [done|]. intros (r & Hr & Hp).
  set (l := backwardsAncestry infos [] k) in *. clearbody l.
  eapply H, chain_rooted; try apply Hl; try done.
  destruct l as [|a l]; [done|]. by rewrite (lin_head _ _ _ Hl a eq_refl).
Qed.
End rooted.

(** ** The tree distance *)

Fixpoint lcp (a b : list Z) : nat :=
  match a, b with
  | x :: a', y :: b' => if x =? y then S (lcp a' b') else O
  | _, _ => O
  end.

(** Hops up from [a] to the last common ancestor and down to [b]. *)
Definition tree_dist (a b : list Z) : Z :=
  Z.of_nat (length a) + Z.of_nat (length b) - 2 * Z.of_nat (lcp a b).

Definition path_fits (p : list Z) : Prop := Z.of_nat (length p) < 2 ^ 63.

Lemma lcp_le a : forall b, (lcp a b <= length a)%nat /\ (lcp a b <= length b)%nat.
Proof.
  induction a as [|x a IH]; intros [|y b]; simpl; try lia.
  case_match; simpl; [|lia]. specialize (IH b). lia.
Qed.

Lemma lcp_sym a : forall b, lcp a b = lcp b a.
Proof.
  induction a as [|x a IH]; intros [|y b]; simpl; try done.
  rewrite (Z.eqb_sym y x). case_match; [by f_equal; apply IH|done].
Qed.

Lemma lcp_refl a : lcp a a = length a.
Proof. induction a as [|x a IH]; simpl; [done|]. by rewrite Z.eqb_refl, IH. Qed.

Lemma lcp_ultra a : forall b c, (Nat.min (lcp a b) (lcp b c) <= lcp a c)%nat.
Proof.
  induction a as [|x a IH]; intros [|y b] [|z c]; simpl; try lia.
  destruct (Z.eqb_spec x y) as [->|], (Z.eqb_spec y z) as [->|]; simpl; try lia.
  specialize (IH b c). lia.
Qed.

Lemma lcp_full a : forall b, lcp a b = length a -> exists c, b = a ++ c.
Proof.
  induction a as [|x a IH]; intros b; simpl; [by exists b|].
  destruct b as [|y b]; [done|]. destruct (Z.eqb_spec x y) as [->|]; [|done].
  intros [= E]. destruct (IH b E) as [c ->]. by exists c.
Qed.

Lemma lcp_app a : forall c, lcp a (a ++ c) = length a.
Proof. induction a as [|x a IH]; intros c; simpl; [by destruct c|]. by rewrite Z.eqb_refl, IH. Qed.

Lemma lcp_snoc_short a y : forall b, (lcp (a ++ [y]) b <= length a)%nat -> lcp (a ++ [y]) b = lcp a b.
Proof.
  induction a as [|x a IH]; intros [|z b]; simpl; try done; case_match; simpl; try lia.
  intros H1. f_equal. apply IH. lia.
Qed.

Lemma tree_dist_nonneg a b : 0 <= tree_dist a b.
Proof. unfold tree_dist. pose proof (lcp_le a b). lia. Qed.

Lemma tree_dist_refl a : tree_dist a a = 0.
Proof. unfold tree_dist. rewrite lcp_refl. lia. Qed.

Lemma tree_dist_zero a b : tree_dist a b = 0 -> a = b.
Proof.
  unfold tree_dist. pose proof (lcp_le a b). intros H0.
  destruct (lcp_full a b) as [c ->]; [lia|]. rewrite length_app in *.
  destruct c; [by rewrite app_nil_r|]. simpl in *. lia.
Qed.

Lemma tree_dist_sym a b : tree_dist a b = tree_dist b a.
Proof. unfold tree_dist. rewrite lcp_sym. lia. Qed.

Lemma tree_dist_triangle a b c : tree_dist a c <= tree_dist a b + tree_dist b c.
Proof.
  unfold tree_dist. pose proof (lcp_ultra a b c). pose proof (lcp_le a b). pose proof (lcp_le b c). lia.
Qed.

(** From any other position, the next hop of the tree path is one closer: the
    child on the way when the position is above the destination, the parent
    otherwise. *)
Lemma tree_dist_progress a b : a <> b ->
  (exists x c, b = a ++ x :: c /\ tree_dist (a ++ [x]) b = tree_dist a b - 1) \/
  (exists a' y, a = a' ++ [y] /\ tree_dist a' b = tree_dist a b - 1).
Proof.
  intros Hne. unfold tree_dist. destruct (decide (lcp a b = length a)) as [E|E].
  - destruct (lcp_full a b E) as [[|x c] ->]; [by rewrite app_nil_r in Hne|].
    left. exists x, c. split; [done|].
    rewrite (cons_middle x a c) at 2. rewrite app_assoc, !lcp_app, !length_app. simpl. lia.
  - right. destruct a as [|y a' _] using rev_ind; [done|]. exists a', y. split; [done|].
    pose proof (lcp_le (a' ++ [y]) b) as Hle. rewrite length_app in *. simpl in *.
    rewrite lcp_snoc_short by lia. lia.
Qed.

Lemma dist_loop_eq kp : forall dp dist, 2 * Z.of_nat (lcp kp dp) <= dist -> is_u64 dist ->
  dist_loop dist kp dp = dist - 2 * Z.of_nat (lcp kp dp).
Proof.
  induction kp as [|x kp IH]; intros [|y dp] dist Hd Hu; simpl in *; try lia.
  destruct (x =? y); [|lia]. unfold is_u64 in *.
  rewrite u64_small by (unfold is_u64; lia). rewrite IH; unfold is_u64; lia.
Qed.

Lemma pathDist_eq kp dp : path_fits kp -> path_fits dp -> pathDist kp dp = tree_dist kp dp.
Proof.
  unfold path_fits, pathDist, tree_dist. intros. pose proof (lcp_le kp dp).
  rewrite u64_small by (unfold is_u64; lia). rewrite dist_loop_eq; unfold is_u64; lia.
Qed.

Lemma indexes_unique m m' l : indexes m l -> indexes m' l -> m = m'.
Proof.
  intros H H'. apply map_eq. intros k. destruct (m !! k) as [d|] eqn:E.
  - apply H, H' in E. done.
  - destruct (m' !! k) as [d'|] eqn:E'; [|done]. apply H', H in E'. congruence.
Qed.

Lemma length_getRootAndPath infos k :
  (length (getRootAndPath infos k).2 <= base.size infos)%nat.
Proof.
  pose proof (backwardsAncestry_lineage infos k) as Hl.
  rewrite (getRootAndPath_lineage _ _ _ Hl). unfold lineage_path.
  set (l := backwardsAncestry infos [] k) in *. clearbody l.
  pose proof (known_length_le infos l (lin_nodup _ _ _ Hl) (lin_known _ _ _ Hl)) as Hle.
  case_decide; simpl; [|lia]. rewrite length_reverse, length_map.
  destruct l as [|a l _] using rev_ind; [simpl in *; lia|].
  rewrite removelast_last. rewrite length_app in Hle. simpl in Hle. lia.
Qed.

(** ** Theorems *)

Definition sample_infos : gmap publicKey routerInfo :=
  let key b := array_of 32 [b] in
  let info p port := MkInfo (array_of 32 [p]) (MkSigRes (MkSigReq 1 1) port (zero_array 64)) (zero_array 64) in
  list_to_map [
    (key Byte.x01, info Byte.x01 0); (key Byte.x02, info Byte.x01 4); (key Byte.x03, info Byte.x02 7);
    (key Byte.x08, info Byte.x09 1); (key Byte.x09, info Byte.x08 1)].

(** The loops that follow parents terminate: each runs at most one round per known info and
    one more, whatever the infos are, loops among them included. *)
Theorem tree_loops_terminate infos key n :
  Z.of_nat (base.size infos) < 2 ^ 63 ->
  rootAndDists_loop infos (S (base.size infos) + n) ∅ key (zero_array 32) 0
    = getRootAndDists infos key /\
  rootAndPath_loop infos (S (base.size infos) + n) [] ∅ key (zero_array 32) key
    = getRootAndPath infos key /\
  backwardsAncestry_loop infos (S (base.size infos) + n) [] key = backwardsAncestry infos [] key.
Proof.
  intros Hfit. pose proof (backwardsAncestry_lineage infos key) as Hl. split_and!.
  - destruct (rootAndDists_fuel infos key (S (base.size infos) + n) _ ltac:(lia) Hl Hfit) as [H1 H2].
    destruct (getRootAndDists_lineage infos key _ Hfit Hl) as [H1' H2'].
    apply injective_projections; [congruence|by eapply indexes_unique].
  - rewrite (rootAndPath_fuel infos key (S (base.size infos) + n) _ ltac:(lia) Hl). by rewrite (getRootAndPath_lineage _ _ _ Hl).
  - rewrite (backwardsAncestry_fuel infos key (S (base.size infos) + n) _ ltac:(lia) Hl). done.
Qed.

(** [_getRootAndPath] returns the root and the ports from the root down to the key when
    following parents from the key ends at a self-parented key, and the key itself with no
    ports when it runs into an unknown key or a loop. *)
Theorem root_and_path_spec infos key :
  (exists r p, rooted infos key r p /\ getRootAndPath infos key = (r, p)) \/
  (forall r p, ~ rooted infos key r p) /\ getRootAndPath infos key = (key, []).
Proof.
  pose proof (backwardsAncestry_lineage infos key) as Hl.
  set (l := backwardsAncestry infos [] key) in *. clearbody l.
  destruct (decide (self_rooted infos l)) as [(r & Hr & Hp)|Hn].
  - left. assert (l !! 0%nat = Some key) as H0.
    { destruct l as [|a l]; [done|]. by rewrite (lin_head _ _ _ Hl a eq_refl). }
    pose proof (chain_rooted infos l key r (lin_nodup _ _ _ Hl) (lin_known _ _ _ Hl) H0
      (lin_step _ _ _ Hl) Hr Hp) as Hrt.
    do 2 eexists. split; [exact Hrt|by apply getRootAndPath_rooted].
  - right. assert (forall r p, ~ rooted infos key r p) as Hnr; [|split; [done|by apply getRootAndPath_unrooted]].
    intros r p Hrt. destruct (rooted_lineage infos key r p Hrt) as (l' & Hl' & Hlast & Hrr & _).
    apply Hn. rewrite (lineage_unique _ _ _ _ Hl Hl'). by exists r.
Qed.

(** [_getAncestry] lists the known keys met when following parents from the key, root side
    first and none twice, until an unknown key or a key already met; [_getRootAndDists]
    returns the last of them as root and gives each its number of hops from the key. *)
Theorem ancestry_and_dists infos key :
  Z.of_nat (base.size infos) < 2 ^ 63 ->
  let l := reverse (getAncestry infos key) in
  lineage infos key l /\
  (getRootAndDists infos key).1 = default (zero_array 32) (last l) /\
  forall k d, (getRootAndDists infos key).2 !! k = Some d <->
    exists i, d = Z.of_nat i /\ l !! i = Some k.
Proof.
  intros Hfit l. pose proof (backwardsAncestry_lineage infos key) as Hl.
  assert (l = backwardsAncestry infos [] key) as El by (unfold l, getAncestry; apply reverse_involutive).
  rewrite El. split; [done|]. by apply getRootAndDists_lineage.
Qed.

(** C13: for paths of machine length, [_getDist] returns the number of hops up to the last common
    ancestor and down again without wrapping around, and it is a metric: zero only between
    equal positions, symmetric, and bounded by any detour. *)
Theorem dist_is_tree_metric a b d :
  path_fits a -> path_fits b -> path_fits d ->
  pathDist a b = Z.of_nat (length a) + Z.of_nat (length b) - 2 * Z.of_nat (lcp a b) /\
  (pathDist a b = 0 <-> a = b) /\ pathDist a b = pathDist b a /\
  0 <= pathDist a b <= pathDist a d + pathDist d b.
Proof.
  intros Ha Hb Hd. rewrite !pathDist_eq by done. split_and!.
  - done.
  - split; [apply tree_dist_zero|]. intros ->. apply tree_dist_refl.
  - apply tree_dist_sym.
  - apply tree_dist_nonneg.
  - apply tree_dist_triangle.
Qed.

Lemma dist_is_tree_metric_witness :
  let a := [1; 2; 3] in let b := [1; 5] in let d := [2] in
  pathDist a b = Z.of_nat (length a) + Z.of_nat (length b) - 2 * Z.of_nat (lcp a b) /\
  (pathDist a b = 0 <-> a = b) /\ pathDist a b = pathDist b a /\
  0 <= pathDist a b <= pathDist a d + pathDist d b.
Proof. apply (dist_is_tree_metric [1; 2; 3] [1; 5] [2]); vm_compute; done. Defined.
