(* ===== verification/RouterCost.v ===== *)
(** * Link costs, latencies and penalties

    [ironwood/network/router.go]: the decaying disconnect and loss penalties,
    the latency estimate of a link, and [_getCost], which adds the two. *)

From S2P Require Import Prelude Crypto Wire Messages Bloom RouterState.

(** [time.Duration(^uint32(0))]: about four seconds. *)
Definition routerUnknownLatency : Z := 2 ^ 32 - 1.

Definition penaltyHalfLife : Z := 5 * Minute.
Definition minDisconnectPenalty : Z := 200 * Millisecond.
Definition minLossPenalty : Z := 50 * Millisecond.
Definition maxPenalty : Z := 30 * Second.
Definition penaltyCleanupThreshold : Z := Millisecond.

(** [t.Sub(u)] and [time.Since]: the difference saturates. *)
Definition time_Sub (t u : Z) : Z := Z.max (- 2 ^ 63) (Z.min (2 ^ 63 - 1) (t - u)).

Definition penaltyKeyForPeer (p : peer) : routerPenaltyKey := (p_key p, p_protocol p).

Section cost.
Context `{MapOrder}.

Definition getDecayedPenalty (key : routerPenaltyKey) : R Z :=
  entry ← gets (fun r => r_penalties r !! key);
  match entry with
  | None => ret 0
  | Some entry =>
      now ← time_Now;
      let elapsed := time_Sub now (pe_recordedAt entry) in
      let elapsed := if elapsed <? 0 then 0 else elapsed in
      let halfLifeMs := Milliseconds penaltyHalfLife in
      let elapsedMs := Milliseconds elapsed in
      let penaltyMs := pe_penaltyMs entry in
      let shifts := Z.quot elapsedMs halfLifeMs in
      if 63 <=? shifts then
        _ ← modify (set_r_penalties (delete key));
        ret 0
      else
        let penaltyMs := Z.shiftr penaltyMs shifts in
        let fracMs := Z.rem elapsedMs halfLifeMs in
        let twoHL := i64 (2 * halfLifeMs) in
        let penaltyMs := Z.quot (i64 (penaltyMs * (twoHL - fracMs))) twoHL in
        if penaltyMs <? Milliseconds penaltyCleanupThreshold then
          _ ← modify (set_r_penalties (delete key));
          ret 0
        else ret penaltyMs
  end.

Definition addPenalty (key : routerPenaltyKey) (component : Z) : R unit :=
  if component <=? 0 then ret tt
  else
    existing ← getDecayedPenalty key;
    let total := i64 (existing + component) in
    let total := if Milliseconds maxPenalty <? total then Milliseconds maxPenalty else total in
    now ← time_Now;
    modify (set_r_penalties (<[key := MkPenalty total now]>)).

(** [r.lags[p]]: the zero value when the peer is unknown. *)
Definition lag_of (r : router) (p : peer) : Z := default 0 (r_lags r !! p).

Definition getCost (p : peer) : R Z :=
  lag ← gets (fun r => Milliseconds (lag_of r p));
  penalty ← getDecayedPenalty (penaltyKeyForPeer p);
  let c := u64 (lag + penalty) in
  let c := if c =? 0 then 1 else c in
  ret c.

Definition recordDisconnect (p : peer) : R unit :=
  lag ← gets (fun r => r_lags r !! p);
  match lag with
  | None => ret tt
  | Some lag =>
      if lag =? routerUnknownLatency then ret tt
      else
        let component := Z.max (Milliseconds minDisconnectPenalty) (Milliseconds lag) in
        addPenalty (penaltyKeyForPeer p) component
  end.

Definition penalizeMissed (p : peer) : R unit :=
  responded ← gets (fun r => bool_decide (p ∈ r_responded r));
  if responded : bool then ret tt
  else
    lag ← gets (fun r => lag_of r p);
    if lag =? routerUnknownLatency then ret tt
    else
      let increased := i64 (lag + Z.quot lag 8) in
      let increased :=
        if routerUnknownLatency <? increased then routerUnknownLatency else increased in
      let component := Z.max (Milliseconds minLossPenalty) (Milliseconds (i64 (increased - lag))) in
      _ ← addPenalty (penaltyKeyForPeer p) component;
      modify (set_r_lags (<[p := increased]>)).

Definition penalizeMissedResponses : R unit :=
  act_range r_peers (fun pk =>
    hadReq ← gets (fun r => bool_decide (is_Some (r_requests r !! pk)));
    if negb hadReq then ret tt
    else act_range_set (fun r => default ∅ (r_peers r !! pk)) penalizeMissed).

(** The end of [_handleResponse]: a new sample of the round-trip time. *)
Definition update_lag (lag rtt : Z) : Z :=
  if lag =? routerUnknownLatency then i64 (rtt * 2)
  else
    let prev := lag in
    let lag := Z.quot (i64 (lag * 7)) 8 in
    i64 (lag + Z.quot (Z.min rtt (i64 (prev * 2))) 8).
End cost.

(** ** The decay curve *)

Definition halfLifeMs : Z := 300000.

(** What remains of [p] milliseconds of penalty after [e] milliseconds. *)
Definition decay (p e : Z) : Z :=
  let v := Z.shiftr p (e / halfLifeMs) * (2 * halfLifeMs - e mod halfLifeMs) / (2 * halfLifeMs) in
  if 63 <=? e / halfLifeMs then 0 else v.

(** The penalty of an entry at the time [now]. *)
Definition penalty_at (m : gmap routerPenaltyKey routerPenaltyEntry) (key : routerPenaltyKey)
    (now : Z) : Z :=
  match m !! key with
  | None => 0
  | Some entry => decay (pe_penaltyMs entry)
      (Z.max 0 (time_Sub now (pe_recordedAt entry)) / Millisecond)
  end.

Definition penalty_ok (entry : routerPenaltyEntry) : Prop := 0 <= pe_penaltyMs entry <= 30000.
Definition penalties_ok (r : router) : Prop :=
  map_Forall (fun _ entry => penalty_ok entry) (r_penalties r).

Lemma elapsed_range now t : 0 <= Z.max 0 (time_Sub now t) < 2 ^ 63.
Proof. unfold time_Sub. lia. Qed.

Lemma decay_range p e : 0 <= p -> 0 <= e -> 0 <= decay p e <= p.
Proof.
  intros Hp He. unfold decay, halfLifeMs. destruct (63 <=? e / 300000); [lia|].
  assert (0 <= e / 300000) as Hs by (apply Z.div_pos; lia).
  pose proof (Z.mod_pos_bound e 300000 ltac:(lia)) as Hm.
  assert (0 <= Z.shiftr p (e / 300000) <= p) as Hsh.
  { rewrite Z.shiftr_div_pow2 by done.
    assert (0 < 2 ^ (e / 300000)) by (apply Z.pow_pos_nonneg; lia).
    split; [apply Z.div_pos; lia|]. apply Z.div_le_upper_bound; [lia|]. nia. }
  split; [apply Z.div_pos; nia|]. apply Z.div_le_upper_bound; [lia|]. nia.
Qed.

(** Each whole half-life halves the penalty. *)
Lemma decay_half_life p k : 0 <= p -> 0 <= k < 63 -> decay p (k * halfLifeMs) = p / 2 ^ k.
Proof.
  intros Hp Hk. unfold decay, halfLifeMs. rewrite Z.div_mul, Z.mod_mul by lia.
  rewrite (proj2 (Z.leb_gt _ _)) by lia. rewrite Z.shiftr_div_pow2 by lia.
  rewrite Z.sub_0_r. by rewrite Z.div_mul.
Qed.

Lemma decay_antitone p e e' : 0 <= p -> 0 <= e <= e' -> decay p e' <= decay p e.
Proof.
  intros Hp He. unfold decay, halfLifeMs.
  assert (0 <= e / 300000 <= e' / 300000) as Hs.
  { split; [apply Z.div_pos; lia|]. apply Z.div_le_mono; lia. }
  pose proof (Z.mod_pos_bound e 300000 ltac:(lia)) as Hm.
  pose proof (Z.mod_pos_bound e' 300000 ltac:(lia)) as Hm'.
  assert (forall k, 0 <= k -> 0 <= Z.shiftr p k) as Hpos by (intros; by apply Z.shiftr_nonneg).
  destruct (Z.leb_spec 63 (e' / 300000)).
  { destruct (Z.leb_spec 63 (e / 300000)); [lia|]. apply Z.div_pos; [|lia].
    specialize (Hpos (e / 300000)). nia. }
  rewrite (proj2 (Z.leb_gt _ _)) by lia.
  destruct (decide (e / 300000 = e' / 300000)) as [E|E].
  - rewrite E. apply Z.div_le_mono; [lia|]. specialize (Hpos (e' / 300000)).
    pose proof (Z.div_mod e 300000 ltac:(lia)). pose proof (Z.div_mod e' 300000 ltac:(lia)). nia.
  - transitivity (Z.shiftr p (e / 300000) / 2).
    + transitivity (Z.shiftr p (e' / 300000)).
      { apply Z.div_le_upper_bound; [lia|]. specialize (Hpos (e' / 300000)). nia. }
      rewrite !Z.shiftr_div_pow2 by lia.
      rewrite Z.div_div by (try apply Z.pow_nonzero; lia).
      apply Z.div_le_compat_l; [done|]. split.
      * apply Z.mul_pos_pos; [apply Z.pow_pos_nonneg|]; lia.
      * replace (2 ^ (e / 300000) * 2) with (2 ^ (e / 300000 + 1))
          by (rewrite Z.pow_add_r by lia; done).
        apply Z.pow_le_mono_r; lia.
    + apply Z.div_le_lower_bound; [lia|].
      pose proof (Z.mul_div_le (Z.shiftr p (e / 300000)) 2 ltac:(lia)).
      assert (0 <= Z.shiftr p (e / 300000) / 2) by (apply Z.div_pos; auto with lia). nia.
Qed.

(** [_getDecayedPenalty] in closed form: it returns the penalty and forgets an
    entry only when nothing is left of it. *)
Lemma getDecayedPenalty_eq key r :
  penalties_ok r ->
  let v := penalty_at (r_penalties r) key (env_now (r_env r)) in
  getDecayedPenalty key r =
    Some (v, if decide (v = 0) then set_r_penalties (delete key) r else r, []).
Proof.
  intros Hok v. unfold getDecayedPenalty, v, penalty_at. unfold mbind at 1, act_bind, act_gets at 1.
  destruct (r_penalties r !! key) as [entry|] eqn:E.
  2:{ rewrite decide_True by done. unfold mret, act_ret. do 3 f_equal.
      destruct r; unfold set_r_penalties; simpl in *. by rewrite delete_id. }
  specialize (Hok key entry E). destruct Hok as [Hp0 Hp1].
  pose proof (elapsed_range (env_now (r_env r)) (pe_recordedAt entry)) as He.
  unfold time_Now, mbind, act_bind, act_gets.
  assert (forall z, (if z <? 0 then 0 else z) = Z.max 0 z) as Emax by (intros z; case_match; lia).
  rewrite Emax. set (el := Z.max 0 _) in *. unfold Milliseconds.
  rewrite (Z.quot_div_nonneg el) by (try lia; done).
  change (Z.quot penaltyHalfLife Millisecond) with 300000.
  change (Z.quot maxPenalty Millisecond) with 30000.
  change (Z.quot penaltyCleanupThreshold Millisecond) with 1.
  assert (0 <= el / Millisecond) as Hems by (apply Z.div_pos; [lia|done]).
  set (ems := el / Millisecond) in *. rewrite Z.quot_div_nonneg, Z.rem_mod_nonneg by lia.
  unfold decay, halfLifeMs. destruct (Z.leb_spec 63 (ems / 300000)).
  { by rewrite decide_True. }
  pose proof (Z.mod_pos_bound ems 300000 ltac:(lia)) as Hm.
  assert (0 <= Z.shiftr (pe_penaltyMs entry) (ems / 300000) <= 30000) as Hsh.
  { rewrite Z.shiftr_div_pow2 by (apply Z.div_pos; lia).
    assert (0 < 2 ^ (ems / 300000)).
    { apply Z.pow_pos_nonneg; [lia|]. apply Z.div_pos; lia. }
    split; [apply Z.div_pos; lia|]. apply Z.div_le_upper_bound; [lia|]. nia. }
  change (i64 (2 * 300000)) with 600000. change (2 * 300000) with 600000.
  rewrite i64_small by (unfold is_i64; nia). rewrite Z.quot_div_nonneg by nia.
  set (w := _ / 600000). assert (0 <= w) by (apply Z.div_pos; nia).
  destruct (Z.ltb_spec w 1).
  - assert (w = 0) as -> by lia. by rewrite decide_True.
  - by rewrite decide_False by lia.
Qed.

(** ** Steps that touch only the penalties *)

Definition with_penalties (m : gmap routerPenaltyKey routerPenaltyEntry) (r : router) : router :=
  set_r_penalties (fun _ => m) r.

Lemma with_penalties_id r : with_penalties (r_penalties r) r = r.
Proof. by destruct r. Qed.

Lemma getDecayedPenalty_wp key r : penalties_ok r ->
  wp (getDecayedPenalty key) r (fun v r' es => es = [] /\ penalties_ok r' /\
    v = penalty_at (r_penalties r) key (env_now (r_env r)) /\ 0 <= v <= 30000 /\
    exists m, r' = with_penalties m r).
Proof.
  intros Hok. unfold wp. rewrite getDecayedPenalty_eq by done.
  set (v := penalty_at _ _ _). split; [done|]. split; [|split; [done|split]].
  - case_decide; [|done]. intros k e He. simpl in He. apply lookup_delete_Some in He as [_ He].
    by apply (Hok k).
  - unfold v, penalty_at. destruct (r_penalties r !! key) as [entry|] eqn:E; [|lia].
    destruct (Hok key entry E). pose proof (elapsed_range (env_now (r_env r)) (pe_recordedAt entry)).
    pose proof (decay_range (pe_penaltyMs entry)
      (Z.max 0 (time_Sub (env_now (r_env r)) (pe_recordedAt entry)) / Millisecond) ltac:(lia)) as Hd.
    destruct Hd; [apply Z.div_pos; [lia|done]|]. lia.
  - case_decide; [by exists (delete key (r_penalties r))|].
    exists (r_penalties r). by rewrite with_penalties_id.
Qed.

Lemma getCost_wp p r : penalties_ok r ->
  wp (getCost p) r (fun v r' es => es = [] /\ penalties_ok r' /\
    v = Z.max 1 (u64 (Milliseconds (lag_of r p)
          + penalty_at (r_penalties r) (penaltyKeyForPeer p) (env_now (r_env r)))) /\
    exists m, r' = with_penalties m r).
Proof.
  intros Hok. unfold getCost. apply wp_bind, wp_gets, wp_bind.
  eapply wp_mono; [by apply getDecayedPenalty_wp|].
  intros v r' es (-> & Hok' & -> & _ & Hm). apply wp_ret. simpl. split_and!; try done.
  match goal with |- context [u64 ?x] => pose proof (u64_range x); set (y := u64 x) in * end.
  unfold is_u64 in *. destruct (Z.eqb_spec y 0); lia.
Qed.

Lemma addPenalty_wp key component r : penalties_ok r -> component < 2 ^ 62 ->
  wp (addPenalty key component) r (fun _ r' es => es = [] /\ penalties_ok r' /\
    penalty_at (r_penalties r') key (env_now (r_env r)) =
      (if component <=? 0 then penalty_at (r_penalties r) key (env_now (r_env r))
       else Z.min 30000 (penalty_at (r_penalties r) key (env_now (r_env r)) + component)) /\
    exists m, r' = with_penalties m r).
Proof.
  intros Hok Hc. unfold addPenalty. destruct (Z.leb_spec component 0).
  { apply wp_ret. split_and!; try done. exists (r_penalties r). by rewrite with_penalties_id. }
  apply wp_bind. eapply wp_mono; [by apply getDecayedPenalty_wp|].
  intros v r' es (-> & Hok' & -> & Hv & m & ->).
  set (v := penalty_at _ _ _) in *. unfold time_Now. apply wp_bind, wp_gets, wp_modify.
  change (Milliseconds maxPenalty) with 30000. rewrite i64_small by (unfold is_i64; lia).
  assert ((if 30000 <? v + component then 30000 else v + component) = Z.min 30000 (v + component))
    as -> by (case_match; lia).
  simpl. split_and!; [done| | |].
  - intros k e. simpl. rewrite lookup_insert_Some. intros [[_ <-]|[_ He]].
    + unfold penalty_ok. simpl. lia.
    + by apply (Hok' k).
  - unfold penalty_at at 1. rewrite lookup_insert_eq. unfold time_Sub. simpl. rewrite Z.sub_diag.
    change (Z.max 0 _ / Millisecond) with (0 * halfLifeMs). rewrite decay_half_life by lia.
    by rewrite Z.div_1_r.
  - by eexists.
Qed.

(** ** The latency estimate *)

(** A sample moves the estimate by at most an eighth upwards, however late the
    answer, and keeps it non-negative. *)
Lemma update_lag_bounds lag rtt :
  0 <= lag < 2 ^ 59 -> 0 <= rtt < 2 ^ 62 -> lag <> routerUnknownLatency ->
  lag * 7 / 8 <= update_lag lag rtt <= lag + lag / 8.
Proof.
  intros Hl Hr Hne. unfold update_lag. rewrite (proj2 (Z.eqb_neq _ _)) by done.
  rewrite (i64_small (lag * 7)), (i64_small (lag * 2)) by (unfold is_i64; lia).
  rewrite !Z.quot_div_nonneg by lia.
  assert (0 <= Z.min rtt (lag * 2) / 8 <= lag * 2 / 8) as Hq.
  { split; [apply Z.div_pos; lia|]. apply Z.div_le_mono; lia. }
  set (m := Z.min rtt (lag * 2) / 8) in *. clearbody m.
  rewrite i64_small; unfold is_i64; Z.to_euclidean_division_equations; lia.
Qed.

Lemma update_lag_first rtt :
  0 <= rtt < 2 ^ 62 -> update_lag routerUnknownLatency rtt = 2 * rtt.
Proof.
  intros Hr. unfold update_lag. rewrite Z.eqb_refl, i64_small by (unfold is_i64; lia). lia.
Qed.

(** ** Theorems *)

Lemma penalty_at_range m key now :
  map_Forall (fun _ entry => penalty_ok entry) m -> 0 <= penalty_at m key now <= 30000.
Proof.
  intros Hok. unfold penalty_at. destruct (m !! key) as [entry|] eqn:E; [|lia].
  destruct (Hok key entry E). pose proof (elapsed_range now (pe_recordedAt entry)).
  pose proof (decay_range (pe_penaltyMs entry) (Z.max 0 (time_Sub now (pe_recordedAt entry)) / Millisecond)
    ltac:(lia)) as Hd. destruct Hd; [apply Z.div_pos; [lia|done]|]. lia.
Qed.

Lemma penalty_at_antitone m key now now' :
  map_Forall (fun _ entry => penalty_ok entry) m -> now <= now' ->
  penalty_at m key now' <= penalty_at m key now.
Proof.
  intros Hok Hle. unfold penalty_at. destruct (m !! key) as [entry|] eqn:E; [|lia].
  destruct (Hok key entry E). pose proof (elapsed_range now (pe_recordedAt entry)).
  apply decay_antitone; [done|]. split; [apply Z.div_pos; [lia|done]|].
  apply Z.div_le_mono; [done|]. unfold time_Sub. lia.
Qed.

Definition sample_penalties (p : Z) : router :=
  set_r_penalties (fun _ => {[(array_of 32 [Byte.x02], "tcp"%string) := MkPenalty p 1000]})
    (MkRouter ∅ ∅ ∅ ∅ ∅ ∅ ∅ ∅ ∅ ∅ ∅ ∅ ∅ 0 false false false None ∅ zero_notifyInfo ∅ ∅
      (MkEnv (1000 + 600000 * Millisecond) [] 0%nat)).

(** [_getDecayedPenalty] returns what is left of a penalty: between 0 and 30 seconds, never
    more at a later time, and exactly the recorded penalty shifted right by [n] after [n]
    half-lives; it forgets the entry exactly when nothing is left. *)
Theorem decayed_penalty_spec key r :
  penalties_ok r ->
  let now := env_now (r_env r) in
  let left_at := penalty_at (r_penalties r) key in
  getDecayedPenalty key r =
    Some (left_at now, if decide (left_at now = 0) then set_r_penalties (delete key) r else r, []) /\
  0 <= left_at now <= 30000 /\
  (forall now', now <= now' -> left_at now' <= left_at now) /\
  (forall entry n, r_penalties r !! key = Some entry -> 0 <= n < 63 ->
     n * penaltyHalfLife < 2 ^ 63 ->
     left_at (pe_recordedAt entry + n * penaltyHalfLife) = pe_penaltyMs entry / 2 ^ n).
Proof.
  intros Hok now left_at. split_and!.
  - by apply getDecayedPenalty_eq.
  - by apply penalty_at_range.
  - by apply penalty_at_range.
  - intros now'. by apply penalty_at_antitone.
  - intros entry n E Hn Hfit. unfold left_at, penalty_at. rewrite E.
    destruct (Hok key entry E) as [Hp _]. unfold time_Sub.
    change penaltyHalfLife with (300000 * Millisecond) in *. unfold Millisecond in *.
    replace (Z.max 0 _ / 1000000) with (n * halfLifeMs); [by apply decay_half_life|].
    unfold halfLifeMs. replace (Z.max 0 _) with (n * 300000 * 1000000) by lia.
    by rewrite Z.div_mul.
Qed.

(** Penalties accumulate up to 30 seconds and no further: [_addPenalty] with a positive
    component leaves what was left plus the component, capped, and every stored penalty stays
    between 0 and 30 seconds. *)
Theorem penalty_accumulates key component r :
  penalties_ok r -> 0 < component < 2 ^ 62 ->
  exists r', addPenalty key component r = Some (tt, r', []) /\ penalties_ok r' /\
    penalty_at (r_penalties r') key (env_now (r_env r)) =
      Z.min 30000 (penalty_at (r_penalties r) key (env_now (r_env r)) + component).
Proof.
  intros Hok Hc. pose proof (addPenalty_wp key component r Hok ltac:(lia)) as Hw. unfold wp in Hw.
  destruct (addPenalty key component r) as [[[[] r'] es]|]; [|done].
  destruct Hw as (-> & Hok' & Hv & _). rewrite (proj2 (Z.leb_gt _ _)) in Hv by lia. by exists r'.
Qed.

(** The latency estimate: the first sample of a link counts twice; later ones move the
    estimate down by at most an eighth and up by at most an eighth, however late the answer. *)
Theorem lag_estimate_bounds lag rtt :
  0 <= lag < 2 ^ 59 -> 0 <= rtt < 2 ^ 62 ->
  if lag =? routerUnknownLatency then update_lag lag rtt = 2 * rtt
  else lag * 7 / 8 <= update_lag lag rtt <= lag + lag / 8.
Proof.
  intros Hl Hr. destruct (Z.eqb_spec lag routerUnknownLatency) as [->|Hne].
  - by apply update_lag_first.
  - by apply update_lag_bounds.
Qed.

(** When a response is handled on a link whose request send time is not set yet, the round
    trip is the largest duration, doubling it wraps around to a negative estimate, and no later
    sample lifts the estimate above zero: the link counts as having no latency for good. *)
Theorem unset_send_time_lag rtts :
  Forall (fun rtt => 0 <= rtt < 2 ^ 63) rtts ->
  -2 <= fold_left update_lag rtts (update_lag routerUnknownLatency (2 ^ 63 - 1)) <= 0.
Proof.
  change (update_lag routerUnknownLatency (2 ^ 63 - 1)) with (-2).
  assert (forall lag, -2 <= lag <= 0 -> Forall (fun rtt => 0 <= rtt < 2 ^ 63) rtts ->
    -2 <= fold_left update_lag rtts lag <= 0) as Hf; [|apply Hf; lia].
  induction rtts as [|rtt rtts IH]; intros lag Hlag; simpl; [done|].
  intros [Hr Hrs]%Forall_cons. apply IH; [|done]. unfold update_lag.
  rewrite (proj2 (Z.eqb_neq _ _)) by (unfold routerUnknownLatency; lia).
  rewrite (i64_small (lag * 2)), (i64_small (lag * 7)) by (unfold is_i64; lia).
  rewrite Z.min_r by lia. rewrite i64_small; unfold is_i64;
    (assert (lag = -2 \/ lag = -1 \/ lag = 0) as [->|[->| ->]] by lia); done.
Qed.
