(* ===== verification/RouterLookup.v ===== *)
(** * Next-hop selection

    [ironwood/network/router.go]: [_getDist] with its cache of paths and
    [_lookup], which picks the peer a packet is forwarded to. *)

From S2P Require Import Prelude Crypto Wire Messages Bloom RouterState RouterTree RouterCost.

Section lookup.
Context `{MapOrder} (c : core).

Definition getDist (destPath : list Z) (key : publicKey) : R Z :=
  cached ← gets (fun r => r_cache r !! key);
  keyPath ← match cached with
            | Some cached => ret cached
            | None =>
                keyPath ← gets (fun r => (getRootAndPath (r_infos r) key).2);
                _ ← modify (set_r_cache (<[key := keyPath]>));
                ret keyPath
            end;
  ret (pathDist keyPath destPath).

(** The peers closer to the destination than [bestDist], in map order. *)
Definition candidates (path : list Z) (bestDist : Z) : R (list peer) :=
  ks ← gets (fun r => map_order (dom (r_peers r)));
  act_fold ks (fun k candidates =>
    dist ← getDist path k;
    if dist <? bestDist then
      ps ← gets (fun r => default ∅ (r_peers r !! k));
      ret (candidates ++ map_order ps)
    else ret candidates) [].

(** The [switch] of the second loop: whether [p] replaces the best so far. *)
Definition accepts (best : option (peer * Z * Z)) (p : peer) (cost dist : Z) : bool :=
  match best with
  | None => true
  | Some (bestPeer, bestCost, bestDist) =>
      let same := bool_decide (p_key p = p_key bestPeer) in
      if same && (p_prio p <? p_prio bestPeer) then true
      else if same && (p_prio bestPeer <? p_prio p) then false
      else if u64 (cost * dist) <? u64 (bestCost * bestDist) then true
      else if u64 (bestCost * bestDist) <? u64 (cost * dist) then false
      else if dist <? bestDist then true
      else if bestDist <? dist then false
      else if cost <? bestCost then true
      else if bestCost <? cost then false
      else p_order p <? p_order bestPeer
  end.

Definition select (path : list Z) (l : list peer) : R (option (peer * Z * Z)) :=
  act_fold l (fun p best =>
    dist ← getDist path (p_key p);
    cost ← getCost p;
    if accepts best p cost dist then ret (Some (p, cost, dist)) else ret best) None.

(** The result, and the new value of the watermark pointed to. *)
Definition lookup (path : list Z) (watermark : option Z) : R (option peer * option Z) :=
  start ← match watermark with
          | None => ret (Some (max_u64, None))
          | Some wm =>
              dist ← getDist path (selfKey c);
              if dist <? wm then ret (Some (dist, Some dist)) else ret None
          end;
  match start with
  | None => ret (None, watermark)
  | Some (bestDist, watermark) =>
      l ← candidates path bestDist;
      best ← select path l;
      ret ((fun b => b.1.1) <$> best, watermark)
  end.
End lookup.

(** ** Steps that touch only the cache and the penalties *)

Definition cache_ok (r : router) : Prop :=
  map_Forall (fun k p => p = (getRootAndPath (r_infos r) k).2) (r_cache r).

Definition dist_to (r : router) (path : list Z) (k : publicKey) : Z :=
  pathDist (getRootAndPath (r_infos r) k).2 path.

(** [r'] differs from [r] only in caches that [_lookup] may fill or clean. *)
Definition same_routes (r r' : router) : Prop :=
  exists m m', r' = set_r_cache (fun _ => m) (with_penalties m' r).

Record lookup_ok (r : router) : Prop := {
  lo_cache : cache_ok r;
  lo_penalties : penalties_ok r
}.

Lemma same_routes_refl r : same_routes r r.
Proof. exists (r_cache r), (r_penalties r). by destruct r. Qed.
Lemma same_routes_trans r1 r2 r3 : same_routes r1 r2 -> same_routes r2 r3 -> same_routes r1 r3.
Proof. intros (m1 & p1 & ->) (m2 & p2 & ->). by exists m2, p2. Qed.
Lemma same_routes_penalties r m : same_routes r (with_penalties m r).
Proof. exists (r_cache r), m. by destruct r. Qed.

Section lookup_spec.
Context `{MapOrder} (c : core).

Lemma getDist_wp path k r : lookup_ok r ->
  wp (getDist path k) r (fun d r' es =>
    es = [] /\ d = dist_to r path k /\ lookup_ok r' /\ same_routes r r').
Proof.
  intros [Hc Hp]. unfold getDist, dist_to. apply wp_bind, wp_gets. simpl.
  destruct (r_cache r !! k) as [p|] eqn:E.
  - apply wp_bind, wp_ret, wp_ret. pose proof (Hc k p E) as Hkp. simpl in Hkp.
    split_and!; [done|by rewrite Hkp|by split|apply same_routes_refl].
  - apply wp_bind, wp_bind, wp_gets, wp_bind, wp_modify, wp_ret, wp_ret.
    split_and!; [done|done| |].
    + split; [|done]. intros k' p'. simpl. rewrite lookup_insert_Some.
      intros [[<- <-]|[_ He]]; [done|]. by apply (Hc k').
    + exists (<[k:=(getRootAndPath (r_infos r) k).2]> (r_cache r)), (r_penalties r).
      by destruct r.
Qed.

(** The loops read nothing a step of this kind changes. *)
Lemma same_routes_dist r r' path k : same_routes r r' -> dist_to r' path k = dist_to r path k.
Proof. by intros (m & m' & ->). Qed.
Lemma same_routes_peers r r' : same_routes r r' -> r_peers r' = r_peers r.
Proof. by intros (m & m' & ->). Qed.

Lemma candidates_fold_wp path bd r ks : forall l r0,
  lookup_ok r0 -> same_routes r r0 ->
  wp (act_fold ks (fun k candidates =>
    dist ← getDist path k;
    if dist <? bd then
      ps ← gets (fun r => default ∅ (r_peers r !! k));
      ret (candidates ++ map_order ps)
    else ret candidates) l) r0
  (fun l' r' es => es = [] /\ lookup_ok r' /\ same_routes r r' /\
    forall p, p ∈ l' <-> p ∈ l \/
      exists k, k ∈ ks /\ dist_to r path k < bd /\ p ∈ default ∅ (r_peers r !! k)).
Proof.
  induction ks as [|k ks IH]; intros l r0 Hok Hs; simpl.
  - apply wp_ret. split_and!; try done. intros p. split; [by left|].
    intros [?|(k & Hk & _)]; [done|by apply not_elem_of_nil in Hk].
  - apply wp_bind, wp_bind. eapply wp_mono; [by apply getDist_wp|].
    intros d r1 es (-> & -> & Hok1 & Hs1).
    pose proof (same_routes_trans _ _ _ Hs Hs1) as Hs1'.
    rewrite (same_routes_dist r r0 path k Hs).
    destruct (Z.ltb_spec (dist_to r path k) bd) as [Hlt|Hge].
    + apply wp_bind, wp_gets, wp_ret. eapply wp_mono; [by apply IH|].
      intros l' r' es (-> & Hok' & Hs' & Hin). split_and!; try done.
      intros p. rewrite (same_routes_peers _ _ Hs1') in Hin.
      rewrite Hin, elem_of_app, elem_of_map_order. setoid_rewrite elem_of_cons. split.
      * intros [[?|?]|(k' & ? & ? & ?)]; [by left|right; exists k; auto|right; exists k'; auto].
      * intros [?|(k' & [->|?] & ? & ?)]; [by left; left|by left; right|right; by exists k'].
    + apply wp_ret. eapply wp_mono; [by apply IH|].
      intros l' r' es (-> & Hok' & Hs' & Hin). split_and!; try done.
      intros p. rewrite Hin. setoid_rewrite elem_of_cons. split.
      * intros [?|(k' & ? & ? & ?)]; [by left|right; exists k'; auto].
      * intros [?|(k' & [->|?] & ? & ?)]; [by left|lia|right; by exists k'].
Qed.

Lemma candidates_wp path bd r : lookup_ok r ->
  wp (candidates path bd) r (fun l r' es => es = [] /\ lookup_ok r' /\ same_routes r r' /\
    forall p, p ∈ l <-> exists k ps, r_peers r !! k = Some ps /\ dist_to r path k < bd /\ p ∈ ps).
Proof.
  intros Hok. unfold candidates. apply wp_bind, wp_gets.
  eapply wp_mono; [by apply (candidates_fold_wp path bd r), same_routes_refl|].
  intros l r' es (-> & Hok' & Hs & Hin). split_and!; try done. intros p. rewrite Hin.
  setoid_rewrite elem_of_map_order. setoid_rewrite elem_of_dom. split.
  - intros [Hn|(k & [ps E] & Hd & Hp)]; [by apply not_elem_of_nil in Hn|].
    exists k, ps. rewrite E in Hp. done.
  - intros (k & ps & E & Hd & Hp). right. exists k. rewrite E. split_and!; eauto.
Qed.

Lemma select_fold_wp path r l : forall best r0,
  lookup_ok r0 -> same_routes r r0 ->
  wp (act_fold l (fun p best =>
    dist ← getDist path (p_key p);
    cost ← getCost p;
    if accepts best p cost dist then ret (Some (p, cost, dist)) else ret best) best) r0
  (fun best' r' es => es = [] /\ lookup_ok r' /\ same_routes r r' /\
    (best' = None <-> best = None /\ l = []) /\
    forall p cost dist, best' = Some (p, cost, dist) -> best = best' \/ p ∈ l).
Proof.
  induction l as [|p l IH]; intros best r0 Hok Hs; simpl.
  - apply wp_ret. split_and!; try done; [naive_solver|by left].
  - apply wp_bind, wp_bind. eapply wp_mono; [by apply getDist_wp|].
    intros d r1 es (-> & -> & Hok1 & Hs1).
    apply wp_bind. eapply wp_mono; [apply getCost_wp, Hok1|].
    intros v r2 es (-> & Hok2 & -> & m & ->).
    assert (lookup_ok (with_penalties m r1)) as Hok2'.
    { split; [|done]. intros k q Hq. by apply (lo_cache _ Hok1 k). }
    pose proof (same_routes_trans _ _ _ (same_routes_trans _ _ _ Hs Hs1)
      (same_routes_penalties r1 m)) as Hs2.
    set (v := Z.max 1 _). destruct (accepts best p v _) eqn:Ea; apply wp_ret;
      (eapply wp_mono; [by apply IH|]); intros best' r' es (-> & Hok' & Hs' & Hn & Hin);
      (split_and!; [done..| |]).
    + rewrite Hn. split; [intros [? _]; done|intros [_ ?]; done].
    + intros p' c' d' E. right. rewrite elem_of_cons.
      destruct (Hin p' c' d' E) as [E'|?]; [left; congruence|by right].
    + rewrite Hn. split; [intros [-> _]; done|intros [_ ?]; done].
    + intros p' c' d' E. destruct (Hin p' c' d' E); [by left|right; by right].
Qed.

(** [_lookup] with a watermark. *)
Lemma lookup_wp path wm r : lookup_ok r -> peers_keyed r ->
  wp (lookup c path (Some wm)) r (fun res r' es =>
    es = [] /\ lookup_ok r' /\ same_routes r r' /\
    let d := dist_to r path (selfKey c) in
    (d < wm /\ res.2 = Some d /\
      (forall p, res.1 = Some p -> is_peer r p /\ dist_to r path (p_key p) < d) /\
      (res.1 = None -> forall p, is_peer r p -> d <= dist_to r path (p_key p))
     \/ wm <= d /\ res = (None, Some wm))).
Proof.
  intros Hok Hpk. unfold lookup. apply wp_bind, wp_bind.
  eapply wp_mono; [by apply getDist_wp|]. intros d r1 es (-> & -> & Hok1 & Hs1).
  set (d := dist_to r path (selfKey c)). destruct (Z.ltb_spec d wm) as [Hlt|Hge]; apply wp_ret.
  2:{ apply wp_ret. split_and!; try done. by right. }
  apply wp_bind. eapply wp_mono; [by apply candidates_wp|].
  intros l r2 es (-> & Hok2 & Hs2 & Hin). pose proof (same_routes_trans _ _ _ Hs1 Hs2) as Hs2'.
  rewrite (same_routes_peers _ _ Hs1) in Hin.
  apply wp_bind. eapply wp_mono; [by apply (select_fold_wp path r l None)|].
  intros best r3 es (-> & Hok3 & Hs3 & Hn & Hb). apply wp_ret. split_and!; try done.
  left. simpl. split_and!; try done.
  - intros p Ep. destruct best as [[[p' c'] d']|]; [|done]. simplify_eq/=.
    destruct (Hb p c' d' eq_refl) as [?|Hp]; [done|]. apply Hin in Hp as (k & ps & E & Hd & Hp).
    destruct (Hpk k ps E) as [_ Hk]. rewrite <- (Hk p Hp) in E, Hd.
    rewrite (same_routes_dist r r1 path _ Hs1) in Hd. split; [|done]. by exists ps.
  - intros E p (ps & Eps & Hp). destruct best as [[[? ?] ?]|]; [done|].
    destruct Hn as [Hn _]. destruct (Hn eq_refl) as [_ ->].
    destruct (Z.le_gt_cases d (dist_to r path (p_key p))) as [?|Hgt]; [done|].
    assert (p ∈ []) as Hnil; [|by apply not_elem_of_nil in Hnil].
    apply Hin. exists (p_key p), ps. rewrite (same_routes_dist r r1 path _ Hs1). done.
Qed.
End lookup_spec.
