(* ===== verification/Blooms.v ===== *)
(** * Bloom filters of the spanning tree

    The second half of [ironwood/network/bloomfilter.go]: which peers are on
    the tree, what filter each of them is sent, and the multicast of path
    lookups along the tree. The [blooms] map is part of the router's state. *)

From S2P Require Import Prelude Crypto Wire Messages Bloom RouterState.

(** Go's assignments to a field of a [bloomInfo]. *)
Definition bi_set_send (pbi : bloomInfo) (b : bloom) : bloomInfo :=
  MkBloomInfo b (bi_recv pbi) (bi_seq pbi) (bi_onTree pbi) (bi_zDirty pbi).
Definition bi_set_recv (pbi : bloomInfo) (b : bloom) : bloomInfo :=
  MkBloomInfo (bi_send pbi) b (bi_seq pbi) (bi_onTree pbi) (bi_zDirty pbi).
Definition bi_set_seq (pbi : bloomInfo) (s : Z) : bloomInfo :=
  MkBloomInfo (bi_send pbi) (bi_recv pbi) s (bi_onTree pbi) (bi_zDirty pbi).
Definition bi_set_onTree (pbi : bloomInfo) (on : bool) : bloomInfo :=
  MkBloomInfo (bi_send pbi) (bi_recv pbi) (bi_seq pbi) on (bi_zDirty pbi).
Definition bi_set_zDirty (pbi : bloomInfo) (d : bool) : bloomInfo :=
  MkBloomInfo (bi_send pbi) (bi_recv pbi) (bi_seq pbi) (bi_onTree pbi) d.

Section blooms.
Context `{BloomHash} `{MapOrder} (c : core).

Definition xKey (key : publicKey) : publicKey :=
  array_of 32 (bloomTransform (core_config c) (toEd key)).

(** [for p := range r.peers[k] { p.sendBloom(b) }] *)
Definition sendBloom_all (k : publicKey) (b : bloom) : R unit :=
  act_range_set (fun r => default ∅ (r_peers r !! k)) (fun p => emit (ESendBloom p b)).

Definition isOnTree (r : router) (key : publicKey) : bool :=
  match r_blooms r !! key with Some pbi => bi_onTree pbi | None => false end.

Definition fixOnTree : R unit :=
  selfInfo ← gets (fun r => r_infos r !! selfKey c);
  match selfInfo with
  | None => panic
  | Some selfInfo =>
      act_range r_blooms (fun pk =>
        pbi ← gets (fun r => r_blooms r !! pk);
        match pbi with
        | None => ret tt
        | Some pbi =>
            let wasOn := bi_onTree pbi in
            info ← gets (fun r => r_infos r !! pk);
            let onTree :=
              if bool_decide (info_parent selfInfo = pk) then true
              else match info with
                   | Some info => bool_decide (info_parent info = selfKey c)
                   | None => false
                   end in
            let pbi := bi_set_onTree pbi onTree in
            pbi ← (if wasOn && negb onTree then
                     let b := newBloom in
                     _ ← sendBloom_all pk b;
                     ret (bi_set_send pbi b)
                   else ret pbi);
            modify (set_r_blooms (<[pk := pbi]>))
        end)
  end.

Definition addInfo (key : publicKey) : R unit :=
  modify (set_r_blooms (<[key := MkBloomInfo newBloom newBloom 0 false false]>)).

Definition removeInfo (key : publicKey) : R unit :=
  modify (set_r_blooms (delete key)).

Definition handleBloom (fromPeer : peer) (b : bloom) : R unit :=
  pbi ← gets (fun r => r_blooms r !! p_key fromPeer);
  match pbi with
  | None => ret tt
  | Some pbi => modify (set_r_blooms (<[p_key fromPeer := bi_set_recv pbi b]>))
  end.

(** The filter built for [key]: ourselves and what the other on-tree peers sent. *)
Definition gathered (m : gmap publicKey bloomInfo) (key : publicKey) : bloom :=
  let b := addKey newBloom (xKey (selfKey c)) in
  fold_left (fun b k =>
    match m !! k with
    | None => b
    | Some pbi =>
        if negb (bi_onTree pbi) then b
        else if bool_decide (k = key) then b
        else addFilter b (filter (bi_recv pbi))
    end) (map_order (dom m)) b.

Definition getBloomFor (key : publicKey) (keepOnes : bool) : R (bloom * bool) :=
  pbi ← gets (fun r => r_blooms r !! key);
  match pbi with
  | None => panic
  | Some pbi =>
      b ← gets (fun r => gathered (r_blooms r) key);
      let '(b, pbi) :=
        if keepOnes then
          if negb (bi_zDirty pbi) then
            let copied := bfilter_Copy (filter b) in
            let b := addFilter b (filter (bi_send pbi)) in
            if negb (bfilter_Equal (filter b) copied) then (b, bi_set_zDirty pbi true)
            else (b, pbi)
          else (addFilter b (filter (bi_send pbi)), pbi)
        else (b, bi_set_zDirty pbi false) in
      if bfilter_Equal (filter b) (filter (bi_send pbi)) then ret (bi_send pbi, false)
      else
        let pbi := bi_set_send pbi b in
        _ ← modify (set_r_blooms (<[key := pbi]>));
        ret (b, true)
  end.

(** A missing entry has a filter without words, which cannot be encoded. *)
Definition sendBloom (p : peer) : R unit :=
  pbi ← gets (fun r => r_blooms r !! p_key p);
  match pbi with
  | None => panic
  | Some pbi => emit (ESendBloom p (bi_send pbi))
  end.

Definition sendAllBlooms : R unit :=
  act_range r_blooms (fun k =>
    pbi ← gets (fun r => r_blooms r !! k);
    match pbi with
    | None => ret tt
    | Some pbi =>
        if negb (bi_onTree pbi) then ret tt
        else
          let keepOnes := negb (bi_zDirty pbi) in
          '(b, isNew) ← getBloomFor k keepOnes;
          pbi ← gets (fun r => default pbi (r_blooms r !! k));
          let pbi := bi_set_seq pbi ((bi_seq pbi + 1) mod 2 ^ 16) in
          pbi ← (if isNew || (3600 <=? bi_seq pbi) then
                   ps ← gets (fun r => r_peers r !! k);
                   match ps with
                   | None => panic
                   | Some _ => _ ← sendBloom_all k b; ret (bi_set_seq pbi 0)
                   end
                 else ret pbi);
          modify (set_r_blooms (<[k := pbi]>))
    end).

Definition blooms_doMaintenance : R unit :=
  _ ← fixOnTree;
  sendAllBlooms.

(** [for p := range ps { if bestPeer == nil || p.prio < bestPeer.prio { bestPeer = p } }] *)
Definition lowest_prio (ps : list peer) : option peer :=
  fold_left (fun best p =>
    match best with
    | None => Some p
    | Some b => if p_prio p <? p_prio b then Some p else best
    end) ps None.

Definition sendMulticast (packet : pqPacket) (fromKey toKey : publicKey) : R unit :=
  let xform := xKey toKey in
  act_range r_blooms (fun k =>
    pbi ← gets (fun r => r_blooms r !! k);
    match pbi with
    | None => ret tt
    | Some pbi =>
        if negb (bi_onTree pbi) then ret tt
        else if bool_decide (k = fromKey) then ret tt
        else if negb (bfilter_Test (filter (bi_recv pbi)) xform) then ret tt
        else
          bestPeer ← gets (fun r => lowest_prio (map_order (default ∅ (r_peers r !! k))));
          match bestPeer with
          | None => panic
          | Some bestPeer => emit (ESendQueued bestPeer packet)
          end
    end).
End blooms.

(** ** No false negatives *)

Definition blooms_ok (m : gmap publicKey bloomInfo) : Prop :=
  map_Forall (fun _ pbi => bloom_ok (bi_send pbi) /\ bloom_ok (bi_recv pbi)) m.

Section gathered.
Context `{BloomHash} `{MapOrder} (c : core).

(** Everything in [b] is found in [b']. *)
Definition bloom_sub (b b' : bloom) : Prop :=
  forall x, bfilter_Test (filter b) x = true -> bfilter_Test (filter b') x = true.

#[global] Instance bloom_sub_preorder : PreOrder bloom_sub.
Proof. split; [by intros b x|]. intros a b d Hab Hbd x Hx. by apply Hbd, Hab. Qed.

Lemma bloom_sub_merge_l b b' : bloom_ok b -> bloom_ok b' -> bloom_sub b (addFilter b (filter b')).
Proof. intros ?? x Hx. apply bfilter_Test_merge; auto. Qed.
Lemma bloom_sub_merge_r b b' : bloom_ok b -> bloom_ok b' -> bloom_sub b' (addFilter b (filter b')).
Proof. intros ?? x Hx. apply bfilter_Test_merge; auto. Qed.

#[local] Abbreviation gather_step m key := (fun b k =>
    match m !! k with
    | None => b
    | Some pbi =>
        if negb (bi_onTree pbi) then b
        else if bool_decide (k = key) then b
        else addFilter b (filter (bi_recv pbi))
    end).

Lemma gathered_fold (m : gmap publicKey bloomInfo) key ks : forall b,
  blooms_ok m -> bloom_ok b ->
  let b' := fold_left (gather_step m key) ks b in
  bloom_ok b' /\ bloom_sub b b' /\
  forall k pbi, k ∈ ks -> m !! k = Some pbi -> bi_onTree pbi = true -> k <> key ->
    bloom_sub (bi_recv pbi) b'.
Proof.
  induction ks as [|k ks IH]; intros b Hm Hb; simpl.
  - split_and!; [done|done|]. intros k pbi Hk. by apply not_elem_of_nil in Hk.
  - assert (bloom_ok (gather_step m key b k) /\ bloom_sub b (gather_step m key b k) /\
      forall pbi, m !! k = Some pbi -> bi_onTree pbi = true -> k <> key ->
        bloom_sub (bi_recv pbi) (gather_step m key b k)) as (Hok & Hsub & Hin).
    { destruct (m !! k) as [pbi|] eqn:E; [|done]. destruct (Hm k pbi E) as [_ Hr].
      destruct (bi_onTree pbi) eqn:Eo; cbn [negb];
        [|split_and!; [done|done|intros pbi' [= <-]; congruence]].
      case_bool_decide; [by split_and!|].
      split_and!; [by apply bloom_ok_addFilter|by apply bloom_sub_merge_l|].
      intros pbi' [= <-] _ _. by apply bloom_sub_merge_r. }
    destruct (IH (gather_step m key b k) Hm Hok) as (Hok' & Hsub' & Hin').
    split_and!; [done|by etrans|]. intros k' pbi [->|Hk']%elem_of_cons E Eo Hne.
    + etrans; [by apply Hin|done].
    + by eapply Hin'.
Qed.

Lemma gathered_spec m key : blooms_ok m ->
  bloom_ok (gathered c m key) /\
  bfilter_Test (filter (gathered c m key)) (xKey c (selfKey c)) = true /\
  forall k pbi, m !! k = Some pbi -> bi_onTree pbi = true -> k <> key ->
    bloom_sub (bi_recv pbi) (gathered c m key).
Proof.
  intros Hm. set (b := addKey newBloom (xKey c (selfKey c))).
  assert (bloom_ok b) as Hb by (apply bloom_ok_addKey, bloom_ok_new).
  destruct (gathered_fold m key (map_order (dom m)) b Hm Hb) as (Hok & Hsub & Hin).
  split_and!; [done| |].
  - apply Hsub, bfilter_Test_addKey, bloom_ok_new.
  - intros k pbi E. apply Hin; [|done]. apply elem_of_map_order, elem_of_dom. eauto.
Qed.

(** *** What [_getBloomFor] returns *)

(** It changes at most the entry of [key], and that only when it returns a new filter. *)
Lemma getBloomFor_wp key keepOnes r pbi :
  blooms_ok (r_blooms r) -> r_blooms r !! key = Some pbi ->
  wp (getBloomFor c key keepOnes) r (fun res r' es => es = [] /\ bloom_ok res.1 /\
    bloom_sub (gathered c (r_blooms r) key) res.1 /\
    exists pbi', bi_recv pbi' = bi_recv pbi /\ bi_onTree pbi' = bi_onTree pbi /\
      bi_send pbi' = res.1 /\
      r' = set_r_blooms (<[key := pbi']>) r /\
      (res.2 = false -> pbi' = pbi)).
Proof.
  intros Hm E. destruct (Hm key pbi E) as [Hs Hr].
  destruct (gathered_spec (r_blooms r) key Hm) as (Hok & _ & _).
  unfold getBloomFor. apply wp_bind, wp_gets. rewrite E. apply wp_bind, wp_gets.
  set (g := gathered c (r_blooms r) key) in *.
  set (p := if keepOnes then _ else _).
  assert (bloom_ok p.1 /\ bloom_sub g p.1 /\ bi_recv p.2 = bi_recv pbi /\
    bi_onTree p.2 = bi_onTree pbi /\ bi_send p.2 = bi_send pbi) as (Hp & Hg & Hpr & Hpo & Hps).
  { unfold p. destruct keepOnes; [destruct (bi_zDirty pbi); simpl|done].
    - split_and!; try done; [by apply bloom_ok_addFilter|by apply bloom_sub_merge_l].
    - case_match; simpl; (split_and!; try done;
        [by apply bloom_ok_addFilter|by apply bloom_sub_merge_l]). }
  destruct p as [b q]. cbn [fst snd] in *. rewrite Hps.
  destruct (bfilter_Equal (filter b) (filter (bi_send pbi))) eqn:Eq.
  - apply wp_ret. apply bfilter_Equal_eq in Eq as ->. split_and!; try done.
    exists pbi. split_and!; try done. destruct r; unfold set_r_blooms; simpl in *. by rewrite insert_id.
  - apply wp_bind, wp_modify, wp_ret. split_and!; try done. by exists (bi_set_send q b).
Qed.
End gathered.

(** ** Maintenance *)

(** Only the filters change, not which peers have one. *)
Definition blooms_step (r r' : router) : Prop :=
  exists m, r' = set_r_blooms (fun _ => m) r /\ dom m = dom (r_blooms r) /\ blooms_ok m.

Definition bloom_msg (r : router) (e : effect) : Prop :=
  exists p b, e = ESendBloom p b /\ is_peer r p /\ bloom_ok b.

Lemma blooms_step_insert r r' k pbi :
  blooms_step r r' -> is_Some (r_blooms r' !! k) -> bloom_ok (bi_send pbi) ->
  bloom_ok (bi_recv pbi) -> blooms_step r (set_r_blooms (<[k := pbi]>) r').
Proof.
  intros (m & -> & Hd & Hm) [x Hx] Hs Hr. exists (<[k := pbi]> m). split_and!; [done| |].
  - rewrite dom_insert_lookup_L; [done|]. by exists x.
  - intros k' pbi'. rewrite lookup_insert_Some. intros [[_ <-]|[_ He]]; [done|]. by apply (Hm k').
Qed.

Section maintenance.
Context `{BloomHash} `{MapOrder} (c : core).

Lemma sendBloom_all_wp k b r :
  peers_keyed r -> bloom_ok b ->
  wp (sendBloom_all k b) r (fun _ r' es => r' = r /\ Forall (bloom_msg r) es).
Proof.
  intros Hk Hb. apply (act_range_set_wp _ _ (fun r' => r' = r) (bloom_msg r)); [done|].
  intros p r' Hp ->. apply wp_emit. split; [done|]. constructor; [|done].
  exists p, b. split_and!; try done. by apply (peers_of_is_peer r k).
Qed.

Lemma fixOnTree_wp r :
  is_Some (r_infos r !! selfKey c) -> peers_keyed r -> blooms_ok (r_blooms r) ->
  wp (fixOnTree c) r (fun _ r' es => blooms_step r r' /\ Forall (bloom_msg r) es).
Proof.
  intros [info Ei] Hk Hok. unfold fixOnTree. apply wp_bind, wp_gets. rewrite Ei.
  eapply wp_mono; [apply (act_range_wp _ _ (blooms_step r) (bloom_msg r))|done].
  - exists (r_blooms r). by destruct r.
  - intros k r' _ Hs. apply wp_bind, wp_gets.
    destruct (r_blooms r' !! k) as [pbi|] eqn:E; [|by apply wp_ret].
    pose proof Hs as (m & -> & Hd & Hm). destruct (Hm k pbi E) as [H1 H2].
    apply wp_bind, wp_gets, wp_bind. set (on := if bool_decide _ then _ else _).
    destruct (bi_onTree pbi && negb on).
    + apply wp_bind. eapply wp_mono; [by apply sendBloom_all_wp, bloom_ok_new|].
      intros _ r' es [-> Hes]. apply wp_ret, wp_modify. split; [|by rewrite !app_nil_r].
      apply blooms_step_insert; [done|eauto|apply bloom_ok_new|done].
    + apply wp_ret, wp_modify. split; [|done]. apply blooms_step_insert; eauto.
Qed.

Lemma sendAllBlooms_wp r :
  peers_keyed r -> blooms_ok (r_blooms r) -> dom (r_blooms r) ⊆ dom (r_peers r) ->
  wp (sendAllBlooms c) r (fun _ r' es => blooms_step r r' /\ Forall (bloom_msg r) es).
Proof.
  intros Hk Hok Hsub. unfold sendAllBlooms.
  eapply wp_mono; [apply (act_range_wp _ _ (blooms_step r) (bloom_msg r))|done].
  - exists (r_blooms r). by destruct r.
  - intros k r' Hin Hs. apply wp_bind, wp_gets.
    destruct (r_blooms r' !! k) as [pbi|] eqn:E; [|by apply wp_ret].
    pose proof Hs as (m & -> & Hd & Hm). destruct (bi_onTree pbi); [|by apply wp_ret].
    apply wp_bind. eapply wp_mono; [by apply getBloomFor_wp|].
    intros [b isNew] r' es (-> & Hb & _ & pbi' & Hr' & _ & Hsend & -> & _).
    apply wp_bind, wp_gets. cbn [negb fst snd] in *. simpl (r_blooms _).
    rewrite lookup_insert_eq. simpl (default _ _).
    set (pbi2 := bi_set_seq pbi' _).
    assert (bloom_ok (bi_send pbi2) /\ bloom_ok (bi_recv pbi2)) as [Hok1 Hok2].
    { simpl. rewrite Hsend, Hr'. split; [done|]. by apply (Hm k pbi). }
    assert (blooms_step r (set_r_blooms (<[k:=pbi']>) (set_r_blooms (fun _ => m) r))) as Hs'.
    { apply blooms_step_insert; eauto. }
    apply wp_bind. destruct (isNew || (3600 <=? bi_seq pbi2)).
    + apply wp_bind, wp_gets. simpl (r_peers _).
      destruct (r_peers r !! k) as [ps|] eqn:Ep.
      2:{ apply not_elem_of_dom in Ep. by destruct Ep; apply Hsub. }
      apply wp_bind. eapply wp_mono; [by apply sendBloom_all_wp|].
      intros _ r' es [-> Hes]. apply wp_ret, wp_modify. split; [|by rewrite !app_nil_r].
      apply blooms_step_insert; [done| |done|done]. simpl. rewrite lookup_insert_eq. eauto.
    + apply wp_ret, wp_modify. split; [|done].
      apply blooms_step_insert; [done| |done|done]. simpl. rewrite lookup_insert_eq. eauto.
Qed.

Lemma blooms_doMaintenance_wp r :
  is_Some (r_infos r !! selfKey c) -> peers_keyed r -> blooms_ok (r_blooms r) ->
  dom (r_blooms r) ⊆ dom (r_peers r) ->
  wp (blooms_doMaintenance c) r (fun _ r' es => blooms_step r r' /\ Forall (bloom_msg r) es).
Proof.
  intros Hi Hk Hok Hsub. unfold blooms_doMaintenance. apply wp_bind.
  eapply wp_mono; [by apply fixOnTree_wp|]. intros _ r' es ((m & -> & Hd & Hm) & Hes).
  eapply wp_mono; [apply sendAllBlooms_wp; simpl; try done; by rewrite Hd|].
  intros _ r' es' ((m' & -> & Hd' & Hm') & Hes'). split.
  - exists m'. split_and!; try done. simpl in Hd'. congruence.
  - apply Forall_app. done.
Qed.

Lemma handleBloom_wp p b r : blooms_ok (r_blooms r) -> bloom_ok b ->
  wp (handleBloom p b) r (fun _ r' es => blooms_step r r' /\ es = []).
Proof.
  intros Hok Hb. unfold handleBloom. apply wp_bind, wp_gets.
  assert (blooms_step r r) as Hs by (exists (r_blooms r); by destruct r).
  destruct (r_blooms r !! p_key p) as [pbi|] eqn:E; [|by apply wp_ret].
  destruct (Hok _ _ E). apply wp_modify. split; [|done]. apply blooms_step_insert; eauto.
Qed.

(** *** Multicast *)

Lemma lowest_prio_spec ps :
  match lowest_prio ps with
  | None => ps = []
  | Some b => b ∈ ps /\ forall p, p ∈ ps -> p_prio b <= p_prio p
  end.
Proof.
  unfold lowest_prio. set (f := fun (best : option peer) p => _).
  assert (forall ps best, match fold_left f ps best with
    | None => best = None /\ ps = []
    | Some b => (best = Some b \/ b ∈ ps) /\ (forall b', best = Some b' -> p_prio b <= p_prio b') /\
                forall p, p ∈ ps -> p_prio b <= p_prio p
    end) as Hf.
  { clear ps. induction ps as [|p ps IH]; intros best; simpl.
    - destruct best; [|done]. split_and!; [by left|naive_solver lia|].
      intros q Hp. by apply not_elem_of_nil in Hp.
    - specialize (IH (f best p)). destruct (fold_left f ps (f best p)) as [b|].
      + destruct IH as (H1 & H2 & H3). unfold f in H1, H2.
        destruct best as [b0|]; [destruct (Z.ltb_spec (p_prio p) (p_prio b0))|];
          (split_and!; [set_solver| |intros q [->|Hq]%elem_of_cons; [|auto]]);
          try (intros b' [= <-]); try specialize (H2 _ eq_refl); try lia; done.
      + unfold f in IH. destruct best as [b0|]; [case_match|]; naive_solver. }
  specialize (Hf ps None). destruct (fold_left f ps None); [|naive_solver].
  destruct Hf as ([?|?] & _ & ?); done.
Qed.

(** The peers a lookup is passed on to. *)
Definition multicast_target (r : router) (fromKey toKey k : publicKey) : Prop :=
  exists pbi, r_blooms r !! k = Some pbi /\ bi_onTree pbi = true /\ k <> fromKey /\
    bfilter_Test (filter (bi_recv pbi)) (xKey c toKey) = true.

Definition best_link (r : router) (k : publicKey) (p : peer) : Prop :=
  p_key p = k /\ is_peer r p /\
  forall p', is_peer r p' -> p_key p' = k -> p_prio p <= p_prio p'.

(** One link for each target, and nothing for anyone else. *)
Record multicast_to (r : router) (fromKey toKey : publicKey) (ps : list peer) : Prop := {
  mt_once : NoDup (map p_key ps);
  mt_best : Forall (fun p => best_link r (p_key p) p) ps;
  mt_exact k : k ∈ map p_key ps <-> multicast_target r fromKey toKey k
}.

(** Links collected key by key, for distinct keys. *)
Lemma collect_links packet (g : publicKey -> list effect) (T : publicKey -> Prop) r :
  (forall k, g k = [] /\ ~ T k \/ T k /\ exists p, g k = [ESendQueued p packet] /\ best_link r k p) ->
  forall ks, NoDup ks -> exists ps, concat (map g ks) = map (fun p => ESendQueued p packet) ps /\
    NoDup (map p_key ps) /\ Forall (fun p => best_link r (p_key p) p) ps /\
    forall k, k ∈ map p_key ps <-> k ∈ ks /\ T k.
Proof.
  intros Hg ks. induction ks as [|k ks IH]; intros Hn.
  { exists []. split_and!; [done|constructor|constructor|set_solver]. }
  apply NoDup_cons in Hn as [Hk Hn]. destruct (IH Hn) as (ps & E & Hd & Hb & Hx). cbn [map concat]. rewrite E.
  destruct (Hg k) as [[-> Ht]|(Ht & p & -> & Hp)].
  - exists ps. split_and!; [done..|]. intros k'. rewrite Hx, elem_of_cons. naive_solver.
  - exists (p :: ps). pose proof (proj1 Hp) as Ek. cbn [map]. rewrite Ek. split_and!; [done| | |].
    + apply NoDup_cons. split; [|done]. rewrite Hx. naive_solver.
    + constructor; [by rewrite Ek|done].
    + intros k'. rewrite !elem_of_cons, Hx. naive_solver.
Qed.

Lemma sendMulticast_wp packet fromKey toKey r :
  peers_keyed r -> dom (r_blooms r) ⊆ dom (r_peers r) ->
  wp (sendMulticast c packet fromKey toKey) r (fun _ r' es => r' = r /\
    exists ps, es = map (fun p => ESendQueued p packet) ps /\ multicast_to r fromKey toKey ps).
Proof.
  intros Hk Hsub. set (g := fun k => match r_blooms r !! k with
    | Some pbi => if bi_onTree pbi && bool_decide (k <> fromKey) &&
                     bfilter_Test (filter (bi_recv pbi)) (xKey c toKey)
                  then match lowest_prio (map_order (default ∅ (r_peers r !! k))) with
                       | Some p => [ESendQueued p packet] | None => [] end
                  else []
    | None => [] end).
  assert (forall k, multicast_target r fromKey toKey k ->
    exists p, g k = [ESendQueued p packet] /\ best_link r k p) as Hbest.
  { intros k (pbi & E & Eo & Hne & Ht). unfold g. rewrite E, Eo, bool_decide_eq_true_2, Ht by done.
    simpl. assert (k ∈ dom (r_peers r)) as [ps Eps]%elem_of_dom by (apply Hsub, elem_of_dom; eauto).
    rewrite Eps. simpl. destruct (Hk k ps Eps) as [Hne' Hps].
    pose proof (lowest_prio_spec (map_order ps)) as Hl.
    destruct (lowest_prio (map_order ps)) as [p|].
    - exists p. destruct Hl as [Hp Hmin]. rewrite elem_of_map_order in Hp. split; [done|].
      split_and!; [by apply Hps|exists ps; rewrite (Hps p Hp); done|].
      intros p' (ps' & Eps' & Hp') <-. apply Hmin, elem_of_map_order. congruence.
    - destruct Hne'. apply leibniz_equiv, elem_of_equiv_empty. intros p Hp.
      apply elem_of_map_order in Hp. rewrite Hl in Hp. by apply not_elem_of_nil in Hp. }
  assert (forall k, g k = [] /\ ~ multicast_target r fromKey toKey k \/ multicast_target r fromKey toKey k) as Hg.
  { intros k. unfold g, multicast_target. destruct (r_blooms r !! k) as [pbi|] eqn:E; [|left; naive_solver].
    destruct (bi_onTree pbi && _ && _) eqn:Eb.
    - right. apply andb_true_iff in Eb as [[Eo Hne%bool_decide_eq_true]%andb_true_iff Ht]. by exists pbi.
    - left. split; [done|]. intros (pbi' & [= <-] & Eo & Hne & Ht).
      by rewrite Eo, bool_decide_eq_true_2, Ht in Eb. }
  unfold sendMulticast, act_range. apply wp_bind, wp_gets. unfold wp.
  rewrite (act_for_emit _ _ g).
  - simpl. split; [done|].
    destruct (collect_links packet g (multicast_target r fromKey toKey) r) with (ks := map_order (dom (r_blooms r)))
      as (ps & -> & Hn & Hb & Hx); [|apply NoDup_map_order|].
    { intros k. destruct (Hg k) as [[? ?]|Ht]; [by left|right]. split; [done|by apply Hbest]. }
    exists ps. split; [done|]. split; [done|done|]. intros k. rewrite Hx, elem_of_map_order, elem_of_dom.
    split; [by intros [_ ?]|]. intros Ht. split; [|done]. destruct Ht as (pbi & -> & _). eauto.
  - intros k _. unfold mbind, act_bind, act_gets. unfold g.
    destruct (r_blooms r !! k) as [pbi|] eqn:E; [|done].
    destruct (bi_onTree pbi) eqn:Eo; [|done]. cbn [negb andb].
    destruct (decide (k = fromKey)) as [Hf|Hf].
    { rewrite bool_decide_eq_true_2, bool_decide_eq_false_2 by naive_solver. done. }
    rewrite bool_decide_eq_false_2, bool_decide_eq_true_2 by done. cbn [andb].
    destruct (bfilter_Test _ _) eqn:Et; [|done]. cbn [negb].
    destruct (Hbest k) as (p & Eg & _); [by exists pbi|].
    unfold g in Eg. rewrite E, Eo, bool_decide_eq_true_2, Et in Eg by done. cbn [andb] in Eg.
    destruct (lowest_prio _); [|done]. by injection Eg as ->.
Qed.

(** *** Bits that are never cleared *)

(** When what was sent covers what is to be sent, [_getBloomFor] keeps the old
    filter and stores nothing, the dirty flag included. *)
Lemma getBloomFor_stale key r pbi :
  r_blooms r !! key = Some pbi -> bi_zDirty pbi = false ->
  addFilter (gathered c (r_blooms r) key) (filter (bi_send pbi)) = bi_send pbi ->
  getBloomFor c key true r = Some ((bi_send pbi, false), r, []).
Proof.
  intros E Ez Hsub. unfold getBloomFor, mbind, act_bind, act_gets. rewrite E, Ez, Hsub. cbn [negb].
  assert (forall b : bool, (if b then (bi_send pbi, bi_set_zDirty pbi true) else (bi_send pbi, pbi))
    = (bi_send pbi, if b then bi_set_zDirty pbi true else pbi)) as Eb by by intros [].
  rewrite Eb. replace (bi_send (if _ : bool then _ else pbi)) with (bi_send pbi) by by case_match.
  replace (bfilter_Equal (filter (bi_send pbi)) (filter (bi_send pbi))) with true.
  - done.
  - symmetry. by apply bfilter_Equal_eq.
Qed.
End maintenance.
