(* ===== verification/Pathfinder.v ===== *)
(** * The pathfinder

    [ironwood/network/pathfinder.go]: source-routed paths to destinations
    ([paths]), destinations being looked for ([rumors]), and the lookup, notify
    and broken messages that keep them up to date. It runs inside the router's
    actor.

    [_handleTraffic] can send a lookup that this node answers itself, and the
    answer releases the traffic kept for it through [_handleTraffic] again: the
    functions below take that call as an argument, and [pf_handleTraffic] ties
    the knot on fuel. Running out of fuel is a panic, so the theorems that
    exclude panics show that [pf_depth] rounds are enough. *)

From S2P Require Import Prelude Crypto Wire Messages Bloom RouterState RouterTree RouterCost RouterLookup Blooms.

Definition pathfinderTrafficCache : bool := true.

(** Go's assignments to fields of the structs of this file. *)
Definition pt_set_traffic (i : pathInfo) (tr : option traffic) : pathInfo :=
  MkPathInfo (pt_path i) (pt_seq i) (pt_reqTime i) (pt_timer i) tr (pt_broken i).
Definition pt_set_broken (i : pathInfo) (b : bool) : pathInfo :=
  MkPathInfo (pt_path i) (pt_seq i) (pt_reqTime i) (pt_timer i) (pt_traffic i) b.
Definition ru_set_traffic (i : pathRumor) (tr : option traffic) : pathRumor :=
  MkRumor tr (ru_sendTime i) (ru_timer i).
Definition ru_set_sendTime (i : pathRumor) (t : Z) : pathRumor :=
  MkRumor (ru_traffic i) t (ru_timer i).
Definition tr_set_watermark (tr : traffic) (w : Z) : traffic :=
  MkTraffic (tr_path tr) (tr_from tr) (tr_source tr) (tr_dest tr) w (tr_payload tr).
Definition notify_set_watermark (n : pathNotify) (w : Z) : pathNotify :=
  MkNotify (notify_path n) w (notify_source n) (notify_dest n) (notify_info n).
Definition broken_set_watermark (b : pathBroken) (w : Z) : pathBroken :=
  MkBroken (broken_path b) w (broken_source b) (broken_dest b).

Section pathfinder.
Context `{Ed25519} `{BloomHash} `{MapOrder} (c : core).

(** [pf.info.sign(...)] of [init]. *)
Definition pf_init : R unit :=
  modify (set_r_pf_info (fun info => pathNotifyInfo_sign info (crypto_privateKey (core_crypto c)))).

Definition free_opt (tr : option traffic) : R unit :=
  match tr with None => ret tt | Some tr => emit (EFreeTraffic tr) end.

(** [time.Now().Unix()] as a [uint64]. *)
Definition unix_now : R Z := now ← time_Now; ret (u64 (now / Second)).

Section recursion.
Variable handleTraffic_again : traffic -> R unit.

(** The end of [_handleNotify]: store the path, tell the application, and
    run the deferred call. *)
Definition accept_notify (notify : pathNotify) (info : pathInfo) : R unit :=
  let '(info, deferred) :=
    match pt_traffic info with
    | Some tr => (pt_set_traffic info None, Some tr)
    | None => (info, None)
    end in
  let info := MkPathInfo (nfo_path (notify_info notify)) (nfo_seq (notify_info notify))
    (pt_reqTime info) (pt_timer info) (pt_traffic info) false in
  _ ← modify (set_r_paths (<[notify_source notify := info]>));
  _ ← emit (EPathNotify (notify_source notify));
  match deferred with
  | Some tr => handleTraffic_again tr
  | None => ret tt
  end.

Definition handleNotify (fromKey : publicKey) (notify : pathNotify) : R unit :=
  '(p, watermark) ← lookup c (notify_path notify) (Some (notify_watermark notify));
  let notify := notify_set_watermark notify (default (notify_watermark notify) watermark) in
  match p with
  | Some p => emit (ESendQueued p (PqNotify notify))
  | None =>
      if negb (bool_decide (notify_dest notify = selfKey c)) then ret tt
      else
        info ← gets (fun r => r_paths r !! notify_source notify);
        match info with
        | Some info =>
            if nfo_seq (notify_info notify) <=? pt_seq info then ret tt
            else
              let nfo := MkNotifyInfo (nfo_seq (notify_info notify)) (pt_path info)
                (nfo_sig (notify_info notify)) in
              if pathNotifyInfo_equal nfo (notify_info notify) then ret tt
              else if negb (pathNotify_check notify) then ret tt
              else
                _ ← emit (EResetTimer (pt_timer info) (pathTimeout (core_config c)));
                accept_notify notify info
        | None =>
            let xform := xKey c (notify_source notify) in
            rumor ← gets (fun r => r_rumors r !! xform);
            match rumor with
            | None => ret tt
            | Some rumor =>
                if negb (pathNotify_check notify) then ret tt
                else
                  let key := notify_source notify in
                  timer ← AfterFunc (pathTimeout (core_config c)) (TPathTimeout key);
                  now ← time_Now;
                  let info := MkPathInfo [] 0 now timer None false in
                  match ru_traffic rumor with
                  | Some tr =>
                      if bool_decide (tr_dest tr = notify_source notify) then
                        _ ← modify (set_r_rumors (<[xform := ru_set_traffic rumor None]>));
                        accept_notify notify (pt_set_traffic info (Some tr))
                      else accept_notify notify info
                  | None => accept_notify notify info
                  end
            end
        end
  end.

Definition handleLookup (fromKey : publicKey) (lookup : pathLookup) : R unit :=
  _ ← sendMulticast c (PqLookup lookup) fromKey (lookup_dest lookup);
  let dx := xKey c (lookup_dest lookup) in
  let sx := xKey c (selfKey c) in
  if bool_decide (dx = sx) then
    path ← gets (fun r => (getRootAndPath (r_infos r) (selfKey c)).2);
    seq ← unix_now;
    let info := MkNotifyInfo seq path (zero_array 64) in
    pf_info ← gets r_pf_info;
    info ← (if negb (pathNotifyInfo_equal pf_info info) then
              let info := pathNotifyInfo_sign info (crypto_privateKey (core_crypto c)) in
              _ ← modify (set_r_pf_info (fun _ => info));
              ret info
            else ret pf_info);
    let notify := MkNotify (lookup_from lookup) max_u64 (selfKey c) (lookup_source lookup) info in
    handleNotify (notify_source notify) notify
  else ret tt.

Definition sendLookup (dest : publicKey) : R unit :=
  info ← gets (fun r => r_paths r !! dest);
  now ← time_Now;
  if match info with
     | Some info => time_Sub now (pt_reqTime info) <? pathThrottle (core_config c)
     | None => false
     end
  then ret tt
  else
    from ← gets (fun r => (getRootAndPath (r_infos r) (selfKey c)).2);
    let lookup := MkLookup (selfKey c) dest from in
    handleLookup (lookup_source lookup) lookup.

Definition rumorSendLookup (dest : publicKey) : R unit :=
  let xform := xKey c dest in
  rumor ← gets (fun r => r_rumors r !! xform);
  now ← time_Now;
  match rumor with
  | Some rumor =>
      if time_Sub now (ru_sendTime rumor) <? pathThrottle (core_config c) then ret tt
      else
        _ ← emit (EResetTimer (ru_timer rumor) (pathTimeout (core_config c)));
        _ ← modify (set_r_rumors (<[xform := ru_set_sendTime rumor now]>));
        sendLookup dest
  | None =>
      timer ← AfterFunc (pathTimeout (core_config c)) (TRumorTimeout xform);
      _ ← modify (set_r_rumors (<[xform := MkRumor None now timer]>));
      sendLookup dest
  end.

Definition handleTraffic_body (tr : traffic) : R unit :=
  let cache := pathfinderTrafficCache in
  info ← gets (fun r => r_paths r !! tr_dest tr);
  match info with
  | Some info =>
      from ← gets (fun r => (getRootAndPath (r_infos r) (selfKey c)).2);
      let tr := MkTraffic (pt_path info) from (tr_source tr) (tr_dest tr) (tr_watermark tr)
        (tr_payload tr) in
      _ ← (if cache then
             _ ← free_opt (pt_traffic info);
             let info := pt_set_traffic info (Some (traffic_copyFrom tr)) in
             modify (set_r_paths (<[tr_dest tr := info]>))
           else ret tt);
      emit (EHandleTraffic tr)
  | None =>
      _ ← rumorSendLookup (tr_dest tr);
      if cache then
        let xform := xKey c (tr_dest tr) in
        rumor ← gets (fun r => r_rumors r !! xform);
        match rumor with
        | Some rumor =>
            _ ← free_opt (ru_traffic rumor);
            modify (set_r_rumors (<[xform := ru_set_traffic rumor (Some tr)]>))
        | None => panic
        end
      else ret tt
  end.
End recursion.

Fixpoint pf_handleTraffic_fuel (fuel : nat) (tr : traffic) : R unit :=
  match fuel with
  | O => panic
  | S fuel' => handleTraffic_body (pf_handleTraffic_fuel fuel') tr
  end.

Definition pf_depth : nat := 2.
Definition pf_handleTraffic : traffic -> R unit := pf_handleTraffic_fuel pf_depth.

Definition pf_handleNotify : publicKey -> pathNotify -> R unit := handleNotify pf_handleTraffic.
Definition pf_handleLookup : publicKey -> pathLookup -> R unit := handleLookup pf_handleTraffic.
Definition pf_sendLookup : publicKey -> R unit := sendLookup pf_handleTraffic.

(** The message a peer's [handleLookup] sends to the router. *)
Definition handleLookup_from (p : peer) (lookup : pathLookup) : R unit :=
  on ← gets (fun r => isOnTree r (p_key p));
  if negb on then ret tt else pf_handleLookup (p_key p) lookup.

Definition handleBroken (broken : pathBroken) : R unit :=
  '(p, watermark) ← lookup c (broken_path broken) (Some (broken_watermark broken));
  let broken := broken_set_watermark broken (default (broken_watermark broken) watermark) in
  match p with
  | Some p => emit (ESendQueued p (PqBroken broken))
  | None =>
      if negb (bool_decide (broken_source broken = selfKey c)) then ret tt
      else
        info ← gets (fun r => r_paths r !! broken_dest broken);
        match info with
        | Some info =>
            _ ← modify (set_r_paths (<[broken_dest broken := pt_set_broken info true]>));
            pf_sendLookup (broken_dest broken)
        | None => ret tt
        end
  end.

Definition doBroken (tr : traffic) : R unit :=
  handleBroken (MkBroken (tr_from tr) max_u64 (tr_source tr) (tr_dest tr)).

Definition resetTimeout (key : publicKey) : R unit :=
  info ← gets (fun r => r_paths r !! key);
  match info with
  | Some info =>
      if negb (pt_broken info)
      then emit (EResetTimer (pt_timer info) (pathTimeout (core_config c)))
      else ret tt
  | None => ret tt
  end.

(** The closures of the two timers. *)
Definition path_timeout (key : publicKey) (t : timer) : R unit :=
  info ← gets (fun r => r_paths r !! key);
  match info with
  | Some info =>
      if bool_decide (pt_timer info = t) then
        _ ← emit (EStopTimer t);
        _ ← modify (set_r_paths (delete key));
        free_opt (pt_traffic info)
      else ret tt
  | None => ret tt
  end.

Definition rumor_timeout (xform : publicKey) (t : timer) : R unit :=
  rumor ← gets (fun r => r_rumors r !! xform);
  match rumor with
  | Some rumor =>
      if bool_decide (ru_timer rumor = t) then
        _ ← modify (set_r_rumors (delete xform));
        _ ← emit (EStopTimer t);
        free_opt (ru_traffic rumor)
      else ret tt
  | None => ret tt
  end.
End pathfinder.

(** ** The pathfinder never panics *)

(** What the pathfinder may change: caches and its own state. *)
Definition pf_frame (r r' : router) : Prop :=
  exists cache pen info paths rumors e,
    r' = set_r_cache (fun _ => cache) (set_r_penalties (fun _ => pen)
           (set_r_pf_info (fun _ => info) (set_r_paths (fun _ => paths)
             (set_r_rumors (fun _ => rumors) (set_r_env (fun _ => e) r))))).

(** Traffic kept with a path is for the destination of the path. *)
Definition paths_ok (r : router) : Prop :=
  map_Forall (fun k info => forall tr, pt_traffic info = Some tr -> tr_dest tr = k) (r_paths r).

Record pf_inv (r : router) : Prop := {
  pi_lookup : lookup_ok r;
  pi_keyed : peers_keyed r;
  pi_blooms : dom (r_blooms r) ⊆ dom (r_peers r);
  pi_paths : paths_ok r
}.

(** Messages only go to connected peers. *)
Definition sends_to_peers (r : router) (e : effect) : Prop :=
  match e with
  | ESendSigReq p _ | ESendSigRes p _ | ESendAnnounce p _ | ESendBloom p _ | ESendQueued p _ =>
      is_peer r p
  | _ => True
  end.

Definition pf_step (r r' : router) (es : list effect) : Prop :=
  pf_inv r' /\ pf_frame r r' /\ dom (r_rumors r) ⊆ dom (r_rumors r') /\
  Forall (sends_to_peers r) es.

Lemma pf_frame_refl r : pf_frame r r.
Proof.
  exists (r_cache r), (r_penalties r), (r_pf_info r), (r_paths r), (r_rumors r), (r_env r).
  by destruct r.
Qed.
Lemma pf_frame_trans r1 r2 r3 : pf_frame r1 r2 -> pf_frame r2 r3 -> pf_frame r1 r3.
Proof.
  intros (? & ? & ? & ? & ? & ? & ->) (c' & pe' & i' & pa' & ru' & e' & ->).
  by exists c', pe', i', pa', ru', e'.
Qed.

Lemma pf_step_refl r : pf_inv r -> pf_step r r [].
Proof. intros. split_and!; [done|apply pf_frame_refl|done|done]. Qed.

Lemma sends_frame r r' es :
  pf_frame r r' -> Forall (sends_to_peers r') es -> Forall (sends_to_peers r) es.
Proof. by intros (? & ? & ? & ? & ? & ? & ->). Qed.

Lemma pf_step_trans r1 r2 r3 es1 es2 :
  pf_step r1 r2 es1 -> pf_step r2 r3 es2 -> pf_step r1 r3 (es1 ++ es2).
Proof.
  intros (? & Hf & ? & ?) (? & ? & ? & ?). split_and!; [done|by eapply pf_frame_trans|by etrans|].
  apply Forall_app. split; [done|]. by eapply sends_frame.
Qed.

(** One step followed by the rest. *)
Lemma wp_pf_bind {A B} (m : R A) (f : A -> R B) r (Q : A -> router -> Prop) :
  wp m r (fun a r' es => pf_step r r' es /\ Q a r') ->
  (forall a r', pf_inv r' -> Q a r' -> wp (f a) r' (fun _ r'' es => pf_step r' r'' es)) ->
  wp (m ≫= f) r (fun _ r'' es => pf_step r r'' es).
Proof.
  intros Hm Hf. apply wp_bind. eapply wp_mono; [exact Hm|]. intros a r' es [Hs HQ].
  eapply wp_mono; [apply Hf; [apply Hs|done]|].
  intros b r'' es' Hs'. by eapply pf_step_trans.
Qed.

Lemma wp_pf_step (m : R unit) (f : unit -> R unit) r r1 es1 :
  m r = Some (tt, r1, es1) -> pf_step r r1 es1 ->
  wp (f tt) r1 (fun _ r'' es => pf_step r1 r'' es) ->
  wp (m ≫= f) r (fun _ r'' es => pf_step r r'' es).
Proof.
  intros Em Hs Hf. apply wp_bind. unfold wp at 1. rewrite Em.
  eapply wp_mono; [exact Hf|]. intros b r'' es' Hs'. by eapply pf_step_trans.
Qed.

(** Steps that emit messages without a peer, or change the pathfinder's maps. *)
Lemma pf_step_emit r e : pf_inv r -> sends_to_peers r e -> pf_step r r [e].
Proof. intros. split_and!; [done|apply pf_frame_refl|done|by repeat constructor]. Qed.

Lemma pf_step_paths r f :
  pf_inv r -> paths_ok (set_r_paths f r) -> pf_step r (set_r_paths f r) [].
Proof.
  intros [[Hc Hp] Hk Hb _] Hok. split_and!; [split; [by split|done..]| |done|done].
  exists (r_cache r), (r_penalties r), (r_pf_info r), (f (r_paths r)), (r_rumors r), (r_env r). by destruct r.
Qed.

Lemma pf_step_rumors r f :
  pf_inv r -> dom (r_rumors r) ⊆ dom (f (r_rumors r)) -> pf_step r (set_r_rumors f r) [].
Proof.
  intros [[Hc Hp] Hk Hb Ho] Hsub. split_and!; [split; [by split|done..]| |done|done].
  exists (r_cache r), (r_penalties r), (r_pf_info r), (r_paths r), (f (r_rumors r)), (r_env r). by destruct r.
Qed.

Lemma pf_step_info r f : pf_inv r -> pf_step r (set_r_pf_info f r) [].
Proof.
  intros [[Hc Hp] Hk Hb Ho]. split_and!; [split; [by split|done..]| |done|done].
  exists (r_cache r), (r_penalties r), (f (r_pf_info r)), (r_paths r), (r_rumors r), (r_env r). by destruct r.
Qed.

Lemma AfterFunc_pf d k r : pf_inv r ->
  wp (AfterFunc d k) r (fun t r' es => pf_step r r' es /\ t = env_timer (r_env r) /\
    r_paths r' = r_paths r /\ r_rumors r' = r_rumors r /\ env_now (r_env r') = env_now (r_env r)).
Proof.
  intros [[Hc Hp] Hk Hb Ho]. unfold AfterFunc.
  apply wp_bind, wp_gets, wp_bind, wp_modify, wp_bind, wp_emit, wp_ret.
  split; [|done]. split_and!; [split; [by split|done..]| |done|by repeat constructor].
  exists (r_cache r), (r_penalties r), (r_pf_info r), (r_paths r), (r_rumors r).
  exists (MkEnv (env_now (r_env r)) (env_random (r_env r)) (S (env_timer (r_env r)))). by destruct r.
Qed.

Section pf_safe.
Context `{Ed25519} `{BloomHash} `{MapOrder} (c : core).

Lemma lookup_pf path wm r : pf_inv r ->
  wp (lookup c path (Some wm)) r (fun res r' es => pf_step r r' es /\
    r_paths r' = r_paths r /\ r_rumors r' = r_rumors r /\
    forall p, res.1 = Some p -> is_peer r' p).
Proof.
  intros [Hl Hk Hb Ho]. eapply wp_mono; [by apply lookup_wp|].
  intros res r' es (-> & Hl' & (m & m' & ->) & Hres).
  split; [|split_and!; [done|done|]].
  - split_and!; [by split| |done|done].
    exists m, m', (r_pf_info r), (r_paths r), (r_rumors r), (r_env r). by destruct r.
  - intros p Ep. destruct Hres as [(_ & _ & Hp & _)|[_ ->]]; [|done]. by apply Hp.
Qed.

Lemma sendMulticast_pf packet from to r : pf_inv r ->
  wp (sendMulticast c packet from to) r (fun _ r' es => pf_step r r' es /\ r' = r).
Proof.
  intros Hi. eapply wp_mono; [apply sendMulticast_wp; apply Hi|].
  intros _ r' es (-> & ps & -> & Hm). split; [|done].
  split_and!; [done|apply pf_frame_refl|done|].
  apply Forall_map. eapply Forall_impl; [exact (mt_best _ _ _ _ _ Hm)|]. by intros p (_ & Hp & _).
Qed.

Definition known_ok (hT : traffic -> R unit) : Prop :=
  forall tr r, pf_inv r -> is_Some (r_paths r !! tr_dest tr) ->
    wp (hT tr) r (fun _ r' es => pf_step r r' es).

Lemma body_known hT : known_ok (handleTraffic_body c hT).
Proof.
  intros tr r Hi [info E]. unfold handleTraffic_body. apply wp_bind, wp_gets. rewrite E.
  apply wp_bind, wp_gets, wp_bind. simpl.
  apply wp_bind. apply wp_mono with (P := fun _ r' es => r' = r /\ Forall (sends_to_peers r) es).
  { destruct (pt_traffic info); [apply wp_emit|apply wp_ret]; split; try done; by repeat constructor. }
  intros _ r' es [-> Hes]. apply wp_modify, wp_emit.
  assert (paths_ok (set_r_paths (<[tr_dest tr:=pt_set_traffic info (Some (traffic_copyFrom
    (MkTraffic (pt_path info) (getRootAndPath (r_infos r) (selfKey c)).2 (tr_source tr)
       (tr_dest tr) (tr_watermark tr) (tr_payload tr))))]>) r)) as Hok.
  { intros k i. simpl. rewrite lookup_insert_Some. intros [[<- <-]|[_ Hk]].
    - by intros tr' [= <-].
    - by apply (pi_paths _ Hi k). }
  destruct (pf_step_paths r _ Hi Hok) as (Hs1 & Hs2 & Hs3 & _).
  split_and!; try done. repeat (apply Forall_app; split); try done. by repeat constructor.
Qed.

Lemma accept_notify_pf hT notify info r :
  known_ok hT -> pf_inv r ->
  (forall tr, pt_traffic info = Some tr -> tr_dest tr = notify_source notify) ->
  wp (accept_notify hT notify info) r (fun _ r' es => pf_step r r' es).
Proof.
  intros HT Hi Htr. unfold accept_notify.
  assert (forall i, pt_traffic i = None -> paths_ok (set_r_paths (<[notify_source notify := i]>) r)) as Hok.
  { intros i Hn k i'. simpl. rewrite lookup_insert_Some. intros [[_ <-]|[_ Hk]].
    - intros tr. by rewrite Hn.
    - by apply (pi_paths _ Hi k). }
  destruct (pt_traffic info) as [tr|] eqn:E;
    (eapply wp_pf_step; [reflexivity|by apply pf_step_paths, Hok|]);
    match goal with |- wp _ ?r1 _ => assert (pf_inv r1) as Hi1 by (by apply pf_step_paths, Hok) end;
    (eapply wp_pf_step; [reflexivity|by apply pf_step_emit|]).
  - apply HT; [done|]. simpl. rewrite (Htr tr eq_refl), lookup_insert_eq. eauto.
  - apply wp_ret. by apply pf_step_refl.
Qed.

Lemma handleNotify_pf hT fromKey notify r :
  known_ok hT -> pf_inv r ->
  wp (handleNotify c hT fromKey notify) r (fun _ r' es => pf_step r r' es).
Proof.
  intros HT Hi. unfold handleNotify. eapply wp_pf_bind; [by apply lookup_pf|].
  intros [p wm] r1 Hi1 (Ep & Er & Hp). simpl in Hp. destruct p as [p|].
  { apply wp_emit, pf_step_emit; [done|]. by apply Hp. }
  set (n := notify_set_watermark notify _).
  destruct (negb _); [apply wp_ret; by apply pf_step_refl|].
  apply wp_bind, wp_gets. simpl.
  destruct (r_paths r1 !! notify_source notify) as [info|] eqn:E.
  - case_match; [apply wp_ret; by apply pf_step_refl|].
    case_match; [apply wp_ret; by apply pf_step_refl|].
    case_match; [apply wp_ret; by apply pf_step_refl|].
    eapply wp_pf_step; [reflexivity|by apply pf_step_emit|].
    apply accept_notify_pf; [done|done|]. by apply (pi_paths _ Hi1 (notify_source notify)).
  - apply wp_bind, wp_gets. simpl.
    destruct (r_rumors r1 !! xKey c (notify_source notify)) as [rumor|] eqn:Eru;
      [|apply wp_ret; by apply pf_step_refl].
    case_match; [apply wp_ret; by apply pf_step_refl|].
    eapply wp_pf_bind; [by apply AfterFunc_pf|]. intros t r2 Hi2 (-> & _ & Eru2 & _).
    apply wp_bind, wp_gets. simpl.
    destruct (ru_traffic rumor) as [tr|]; [|by apply accept_notify_pf].
    case_bool_decide as Hd; [|by apply accept_notify_pf].
    assert (pf_step r2 (set_r_rumors (<[xKey c (notify_source notify) := ru_set_traffic rumor None]>) r2) [])
      as Hs.
    { apply pf_step_rumors; [done|]. rewrite dom_insert. set_solver. }
    eapply wp_pf_step; [reflexivity|exact Hs|].
    apply accept_notify_pf; [done|apply Hs|]. by intros tr' [= <-].
Qed.

Lemma handleLookup_pf hT fromKey lookup r :
  known_ok hT -> pf_inv r ->
  wp (handleLookup c hT fromKey lookup) r (fun _ r' es => pf_step r r' es).
Proof.
  intros HT Hi. unfold handleLookup. eapply wp_pf_bind; [by apply sendMulticast_pf|].
  intros _ r1 Hi1 ->. case_bool_decide; [|apply wp_ret; by apply pf_step_refl].
  apply wp_bind, wp_gets. simpl. apply wp_bind. unfold unix_now, time_Now.
  apply wp_bind, wp_gets, wp_ret. simpl. apply wp_bind, wp_gets. simpl.
  apply (wp_pf_bind _ _ _ (fun _ _ => True)).
  - case_match.
    + apply wp_bind, wp_modify, wp_ret. split; [by apply pf_step_info|done].
    + apply wp_ret. split; [by apply pf_step_refl|done].
  - intros info r2 Hi2 _. by apply handleNotify_pf.
Qed.

Lemma sendLookup_pf hT dest r :
  known_ok hT -> pf_inv r ->
  wp (sendLookup c hT dest) r (fun _ r' es => pf_step r r' es).
Proof.
  intros HT Hi. unfold sendLookup, time_Now. apply wp_bind, wp_gets, wp_bind, wp_gets. simpl.
  case_match; [apply wp_ret; by apply pf_step_refl|].
  apply wp_bind, wp_gets. simpl. by apply handleLookup_pf.
Qed.

(** Afterwards there is a rumor to keep the traffic with. *)
Lemma rumorSendLookup_pf hT dest r :
  known_ok hT -> pf_inv r ->
  wp (rumorSendLookup c hT dest) r (fun _ r' es => pf_step r r' es /\
    is_Some (r_rumors r' !! xKey c dest)).
Proof.
  intros HT Hi. unfold rumorSendLookup, time_Now. set (xf := xKey c dest).
  assert (forall r1 r' es, is_Some (r_rumors r1 !! xf) -> pf_step r1 r' es ->
    is_Some (r_rumors r' !! xf)) as Hkeep.
  { intros r1 r' es Hx (_ & _ & Hd & _). apply elem_of_dom, Hd. by apply elem_of_dom. }
  assert (forall r1 es1, pf_step r r1 es1 -> is_Some (r_rumors r1 !! xf) ->
    wp (sendLookup c hT dest) r1 (fun _ r' es => pf_step r r' (es1 ++ es) /\
      is_Some (r_rumors r' !! xf))) as Hsend.
  { intros r1 es1 Hs Hx. eapply wp_mono; [apply sendLookup_pf; [done|apply Hs]|].
    intros ? r' es Hs'. split; [exact (pf_step_trans _ _ _ _ _ Hs Hs')|exact (Hkeep _ _ _ Hx Hs')]. }
  assert (forall f r1, pf_inv r1 -> pf_step r1 (set_r_rumors (<[xf:=f]>) r1) []) as Hins.
  { intros f r1 Hi1. apply pf_step_rumors; [done|]. rewrite dom_insert. set_solver. }
  apply wp_bind, wp_gets, wp_bind, wp_gets. simpl.
  destruct (r_rumors r !! xf) as [rumor|] eqn:E.
  - case_match; [apply wp_ret; split; [by apply pf_step_refl|eauto]|].
    apply wp_bind, wp_emit, wp_bind, wp_modify.
    eapply wp_mono; [apply (Hsend _ [EResetTimer (ru_timer rumor) (pathTimeout (core_config c))])|].
    + apply (pf_step_trans _ r _ [_] []); [by apply pf_step_emit|by apply Hins].
    + simpl. rewrite lookup_insert_eq. eauto.
    + done.
  - apply wp_bind. eapply wp_mono; [by apply AfterFunc_pf|].
    intros t r1 es (Hs & _). apply wp_bind, wp_modify.
    eapply wp_mono; [apply (Hsend _ es)|].
    + rewrite <- (app_nil_r es). eapply pf_step_trans; [exact Hs|]. apply Hins, Hs.
    + simpl. rewrite lookup_insert_eq. eauto.
    + done.
Qed.

Lemma body_any hT tr r :
  known_ok hT -> pf_inv r -> wp (handleTraffic_body c hT tr) r (fun _ r' es => pf_step r r' es).
Proof.
  intros HT Hi. destruct (r_paths r !! tr_dest tr) as [info|] eqn:E.
  { apply body_known; [done|]. rewrite E. eauto. }
  unfold handleTraffic_body. apply wp_bind, wp_gets. rewrite E.
  eapply wp_pf_bind; [by apply rumorSendLookup_pf|].
  intros _ r1 Hi1 [rumor Er]. simpl. apply wp_bind, wp_gets. rewrite Er.
  apply (wp_pf_bind _ _ _ (fun _ _ => True)).
  - destruct (ru_traffic rumor); [apply wp_emit|apply wp_ret]; (split; [|done]);
      [by apply pf_step_emit|by apply pf_step_refl].
  - intros _ r2 Hi2 _. apply wp_modify, pf_step_rumors; [done|]. rewrite dom_insert. set_solver.
Qed.

(** Two rounds are enough, and more make no difference. *)
Lemma pf_handleTraffic_fuel_pf n tr r :
  pf_inv r -> wp (pf_handleTraffic_fuel c (S (S n)) tr) r (fun _ r' es => pf_step r r' es).
Proof. intros Hi. apply body_any; [|done]. apply (body_known (pf_handleTraffic_fuel c n)). Qed.

Lemma pf_known : known_ok (pf_handleTraffic c).
Proof. intros tr r Hi _. by apply (pf_handleTraffic_fuel_pf 0). Qed.

Lemma handleBroken_pf broken r : pf_inv r ->
  wp (handleBroken c broken) r (fun _ r' es => pf_step r r' es).
Proof.
  intros Hi. unfold handleBroken. eapply wp_pf_bind; [by apply lookup_pf|].
  intros [p wm] r1 Hi1 (Ep & Er & Hp). simpl in Hp. destruct p as [p|].
  { apply wp_emit, pf_step_emit; [done|]. by apply Hp. }
  case_match; [apply wp_ret; by apply pf_step_refl|].
  apply wp_bind, wp_gets. simpl.
  destruct (r_paths r1 !! broken_dest broken) as [info|] eqn:E;
    [|apply wp_ret; by apply pf_step_refl].
  assert (pf_step r1 (set_r_paths (<[broken_dest broken := pt_set_broken info true]>) r1) []) as Hs.
  { apply pf_step_paths; [done|]. intros k i. simpl. rewrite lookup_insert_Some.
    intros [[<- <-]|[_ Hk]]; [|by apply (pi_paths _ Hi1 k)].
    exact (pi_paths _ Hi1 _ info E). }
  eapply wp_pf_step; [reflexivity|exact Hs|].
  apply sendLookup_pf; [apply pf_known|apply Hs].
Qed.

Lemma resetTimeout_pf key r : pf_inv r ->
  wp (resetTimeout c key) r (fun _ r' es => pf_step r r' es).
Proof.
  intros Hi. unfold resetTimeout. apply wp_bind, wp_gets.
  destruct (r_paths r !! key); [case_match|]; simpl;
    [by apply wp_emit, pf_step_emit|by apply wp_ret, pf_step_refl..].
Qed.

Lemma handleLookup_from_pf p lookup r : pf_inv r ->
  wp (handleLookup_from c p lookup) r (fun _ r' es => pf_step r r' es).
Proof.
  intros Hi. unfold handleLookup_from. apply wp_bind, wp_gets.
  destruct (isOnTree r (p_key p)); simpl; [|by apply wp_ret, pf_step_refl].
  apply handleLookup_pf; [apply pf_known|done].
Qed.

(** The timers forget a path or a rumor: the frame, without the growth of the rumors. *)
Lemma path_timeout_wp key t r : pf_inv r ->
  wp (path_timeout key t) r (fun _ r' es => pf_inv r' /\ pf_frame r r' /\
    Forall (sends_to_peers r) es).
Proof.
  intros Hi. unfold path_timeout. apply wp_bind, wp_gets.
  assert (pf_step r r []) as Hr by by apply pf_step_refl.
  destruct (r_paths r !! key) as [info|] eqn:E; [|apply wp_ret; by destruct Hr as (? & ? & _)].
  case_bool_decide; [|apply wp_ret; by destruct Hr as (? & ? & _)].
  apply wp_bind, wp_emit, wp_bind, wp_modify.
  assert (pf_step r (set_r_paths (delete key) r) []) as (? & ? & _).
  { apply pf_step_paths; [done|]. intros k i. simpl. intros [_ Hk]%lookup_delete_Some.
    by apply (pi_paths _ Hi k). }
  destruct (pt_traffic info); [apply wp_emit|apply wp_ret]; split_and!; try done; by repeat constructor.
Qed.

Lemma rumor_timeout_wp xform t r : pf_inv r ->
  wp (rumor_timeout xform t) r (fun _ r' es => pf_inv r' /\ pf_frame r r' /\
    Forall (sends_to_peers r) es).
Proof.
  intros Hi. unfold rumor_timeout. apply wp_bind, wp_gets.
  assert (pf_step r r []) as Hr by by apply pf_step_refl.
  destruct (r_rumors r !! xform) as [rumor|] eqn:E; [|apply wp_ret; by destruct Hr as (? & ? & _)].
  case_bool_decide; [|apply wp_ret; by destruct Hr as (? & ? & _)].
  apply wp_bind, wp_modify, wp_bind, wp_emit.
  assert (pf_inv (set_r_rumors (delete xform) r) /\ pf_frame r (set_r_rumors (delete xform) r)) as [? ?].
  { destruct Hi as [[Hc Hp] Hk Hb Ho]. split; [split; [by split|done..]|].
    exists (r_cache r), (r_penalties r), (r_pf_info r), (r_paths r), (delete xform (r_rumors r)), (r_env r).
    by destruct r. }
  destruct (ru_traffic rumor); [apply wp_emit|apply wp_ret]; split_and!; try done; by repeat constructor.
Qed.
End pf_safe.
