(* ===== verification/Router.v ===== *)
(** * The router's handlers

    [ironwood/network/router.go]: peers coming and going, signature requests
    and responses, announcements, the choice of a parent, and the periodic
    maintenance that ties them together. *)

From S2P Require Import Prelude Crypto Wire Messages Bloom RouterState RouterTree RouterCost RouterLookup Blooms Pathfinder.

Section router.
Context `{Ed25519} `{BloomHash} `{MapOrder} (c : core).

Definition info_of (r : router) (k : publicKey) : routerInfo := default zero_info (r_infos r !! k).
Definition links_of (r : router) (k : publicKey) : gset peer := default ∅ (r_peers r !! k).

Definition resetCache : R unit := modify (set_r_cache (fun _ => ∅)).

(** [delete(sent, key)] for every peer. *)
Definition forget_sent (key : publicKey) : R unit :=
  modify (set_r_sent (fmap (fun sent => sent ∖ {[key]}))).

(** [r.sent[peerKey][key] = struct{}{}]: writing to a missing map panics. *)
Definition mark_sent (peerKey key : publicKey) : R unit :=
  sent ← gets (fun r => r_sent r !! peerKey);
  match sent with
  | None => panic
  | Some sent => modify (set_r_sent (<[peerKey := {[key]} ∪ sent]>))
  end.

Definition newReq : R routerSigReq :=
  nonce ← random_u64;
  seq ← gets (fun r => u64 (info_seq (info_of r (selfKey c)) + 1));
  ret (MkSigReq seq nonce).

Definition update (ann : routerAnnounce) : R bool :=
  info ← gets (fun r => r_infos r !! ann_key ann);
  let known :=
    match info with
    | None => false
    | Some info =>
        if ann_seq ann <? info_seq info then true
        else if info_seq info <? ann_seq ann then false
        else if less (info_parent info) (ann_parent ann) then true
        else if less (ann_parent ann) (info_parent info) then false
        else if ann_nonce ann <? info_nonce info then false
        else true
    end in
  if known then ret false
  else
    _ ← forget_sent (ann_key ann);
    _ ← resetCache;
    let info := info_of_announce ann in
    let key := ann_key ann in
    timer ← (if bool_decide (key = selfKey c)
             then AfterFunc (routerRefresh (core_config c)) (TRefresh key)
             else AfterFunc (routerTimeout (core_config c)) (TInfoTimeout key));
    oldTimer ← gets (fun r => r_timers r !! key);
    _ ← match oldTimer with Some oldTimer => emit (EStopTimer oldTimer) | None => ret tt end;
    _ ← modify (set_r_timers (<[key := timer]>));
    _ ← modify (set_r_infos (<[key := info]>));
    ret true.

(** The closures of the two timers of [_update]. *)
Definition refresh_timer (key : publicKey) (t : timer) : R unit :=
  current ← gets (fun r => r_timers r !! key);
  if bool_decide (current = Some t) then modify (set_r_refresh (fun _ => true)) else ret tt.

Definition info_timeout (key : publicKey) (t : timer) : R unit :=
  current ← gets (fun r => r_timers r !! key);
  if bool_decide (current = Some t) then
    _ ← emit (EStopTimer t);
    _ ← modify (set_r_infos (delete key));
    _ ← modify (set_r_timers (delete key));
    _ ← forget_sent key;
    resetCache
  else ret tt.

Definition becomeRoot : R bool :=
  req ← newReq;
  let self := selfKey c in
  let res := MkSigRes req 0 (zero_array 64) in
  let psig := sign (crypto_privateKey (core_crypto c)) (routerSigRes_bytesForSig res self self) in
  let res := MkSigRes req 0 psig in
  let ann := {| ann_key := self; ann_parent := self; ann_res := res; ann_sig := psig |} in
  if negb (routerAnnounce_check ann) then panic
  else update ann.

Definition handleRequest (p : peer) (req : routerSigReq) : R unit :=
  let res := MkSigRes req (p_port p) (zero_array 64) in
  let psig := sign (crypto_privateKey (core_crypto c))
    (routerSigRes_bytesForSig res (p_key p) (selfKey c)) in
  emit (ESendSigRes p (MkSigRes req (p_port p) psig)).

Definition zero_req : routerSigReq := MkSigReq 0 0.

Definition handleResponse (p : peer) (res : routerSigRes) (rtt : Z) : R unit :=
  matches ← gets (fun r => bool_decide (default zero_req (r_requests r !! p_key p) = res_req res));
  isIn ← gets (fun r => bool_decide (is_Some (r_responses r !! p_key p)));
  _ ← (if negb isIn && (matches : bool) then
         ctr ← gets (fun r => u64 (r_resSeqCtr r + 1));
         _ ← modify (set_r_resSeqCtr (fun _ => ctr));
         _ ← modify (set_r_resSeqs (<[p_key p := ctr]>));
         modify (set_r_responses (<[p_key p := res]>))
       else ret tt);
  isIn ← gets (fun r => bool_decide (p ∈ r_responded r));
  if negb isIn && (matches : bool) then
    _ ← modify (set_r_responded (fun s => {[p]} ∪ s));
    lag ← gets (fun r => lag_of r p);
    modify (set_r_lags (<[p := update_lag lag rtt]>))
  else ret tt.

Definition useResponse (peerKey : publicKey) (res : routerSigRes) : R bool :=
  let bs := routerSigRes_bytesForSig res (selfKey c) peerKey in
  let info := MkInfo peerKey res (sign (crypto_privateKey (core_crypto c)) bs) in
  update (getAnnounce info (selfKey c)).

Definition handleAnnounce (p : peer) (ann : routerAnnounce) : R unit :=
  updated ← update ann;
  if updated : bool then
    _ ← (if bool_decide (ann_key ann = selfKey c)
         then modify (set_r_refresh (fun _ => true)) else ret tt);
    mark_sent (p_key p) (ann_key ann)
  else
    let info := info_of_announce ann in
    oldInfo ← gets (fun r => info_of r (ann_key ann));
    if negb (bool_decide (info = oldInfo)) then
      _ ← mark_sent (p_key p) (ann_key ann);
      emit (ESendAnnounce p (getAnnounce oldInfo (ann_key ann)))
    else mark_sent (p_key p) (ann_key ann).

(** ** Peers *)

Definition addPeer (p : peer) : R unit :=
  ps ← gets (fun r => r_peers r !! p_key p);
  _ ← match ps with
      | None =>
          _ ← modify (set_r_peers (<[p_key p := ∅]>));
          _ ← modify (set_r_sent (<[p_key p := ∅]>));
          _ ← modify (set_r_ports (<[p_port p := p_key p]>));
          addInfo (p_key p)
      | Some _ =>
          act_range_set (fun r => default ∅ (r_sent r !! p_key p)) (fun k =>
            info ← gets (fun r => r_infos r !! k);
            match info with
            | Some info => emit (ESendAnnounce p (getAnnounce info k))
            | None => panic
            end)
      end;
  _ ← modify (set_r_peers (alter (fun ps => {[p]} ∪ ps) (p_key p)));
  _ ← modify (set_r_lags (<[p := routerUnknownLatency]>));
  hasReq ← gets (fun r => bool_decide (is_Some (r_requests r !! p_key p)));
  _ ← (if negb hasReq then
         req ← newReq;
         modify (set_r_requests (<[p_key p := req]>))
       else ret tt);
  req ← gets (fun r => default zero_req (r_requests r !! p_key p));
  _ ← modify (set_r_responded (fun s => s ∖ {[p]}));
  _ ← emit (ESendSigReq p req);
  sendBloom p.

Definition removePeer (p : peer) : R unit :=
  _ ← modify (set_r_peers (alter (fun ps => ps ∖ {[p]}) (p_key p)));
  _ ← recordDisconnect p;
  _ ← modify (set_r_lags (delete p));
  _ ← modify (set_r_responded (fun s => s ∖ {[p]}));
  ps ← gets (fun r => links_of r (p_key p));
  if bool_decide (ps = ∅) then
    _ ← modify (set_r_peers (delete (p_key p)));
    _ ← modify (set_r_sent (delete (p_key p)));
    _ ← modify (set_r_ports (delete (p_port p)));
    _ ← modify (set_r_requests (delete (p_key p)));
    _ ← modify (set_r_responses (delete (p_key p)));
    _ ← modify (set_r_resSeqs (delete (p_key p)));
    _ ← modify (set_r_ancs (delete (p_key p)));
    _ ← modify (set_r_cache (delete (p_key p)));
    removeInfo (p_key p)
  else act_range_set (fun _ => ps) sendBloom.

(** ** Maintenance *)

Definition clearReqs : R unit :=
  _ ← modify (set_r_requests (fun _ => ∅));
  _ ← modify (set_r_responses (fun _ => ∅));
  _ ← modify (set_r_resSeqs (fun _ => ∅));
  modify (set_r_resSeqCtr (fun _ => 0)).

Definition sendReqs : R unit :=
  _ ← penalizeMissedResponses;
  _ ← clearReqs;
  act_range r_peers (fun pk =>
    req ← newReq;
    _ ← modify (set_r_requests (<[pk := req]>));
    act_range_set (fun r => links_of r pk) (fun p =>
      _ ← modify (set_r_responded (fun s => s ∖ {[p]}));
      emit (ESendSigReq p req))).

Definition updateAncestries : R unit :=
  act_range r_peers (fun pkey =>
    anc ← gets (fun r => getAncestry (r_infos r) pkey);
    old ← gets (fun r => default [] (r_ancs r !! pkey));
    let diff := negb (bool_decide (anc = old)) in
    if diff then modify (set_r_ancs (<[pkey := anc]>)) else ret tt).

(** The least [dist * cost] over the links to a peer. *)
Definition cheapest (pk : publicKey) (dist : Z) : R Z :=
  ps ← gets (fun r => map_order (links_of r pk));
  act_fold ps (fun p cost =>
    pc ← getCost p;
    let c := u64 (dist * pc) in
    if c <? cost then ret c else ret cost) max_u64.

(** The current parent, when it leads to a better root than ourselves. *)
Definition fix_current : R (publicKey * publicKey * Z) :=
  let bestRoot := selfKey c in
  let bestParent := selfKey c in
  let bestCost := max_u64 in
  self ← gets (fun r => info_of r (selfKey c));
  isIn ← gets (fun r => bool_decide (is_Some (r_peers r !! info_parent self)));
  if isIn : bool then
    '(root, dists) ← gets (fun r => getRootAndDists (r_infos r) (selfKey c));
    if less root bestRoot then
      cost ← cheapest (info_parent self) (default 0 (dists !! root));
      ret (root, info_parent self, cost)
    else ret (bestRoot, bestParent, bestCost)
  else ret (bestRoot, bestParent, bestCost).

(** One peer that answered, against the best so far. *)
Definition fix_candidate (self : routerInfo) (pk : publicKey)
    (best : publicKey * publicKey * Z) : R (publicKey * publicKey * Z) :=
  info ← gets (fun r => r_infos r !! pk);
  match info with
  | None => ret best
  | Some _ =>
      '(pRoot, pDists) ← gets (fun r => getRootAndDists (r_infos r) pk);
      if bool_decide (is_Some (pDists !! selfKey c)) then ret best
      else
        cost ← cheapest pk (default 0 (pDists !! pRoot));
        refresh ← gets r_refresh;
        let '(bestRoot, bestParent, bestCost) := best in
        let next :=
          if less pRoot bestRoot then Some (pRoot, pk, cost)
          else if negb (bool_decide (pRoot = bestRoot)) then None
          else Some best in
        match next with
        | None => ret best
        | Some (bestRoot, bestParent, bestCost) =>
            if ((refresh : bool) && (u64 (cost * 2) <? bestCost))
               || (negb (bool_decide (bestParent = info_parent self)) && (cost <? bestCost))
            then ret (pRoot, pk, cost)
            else ret (bestRoot, bestParent, bestCost)
        end
  end.

Definition fix_done : R unit :=
  _ ← modify (set_r_refresh (fun _ => false));
  _ ← modify (set_r_doRoot1 (fun _ => false));
  _ ← modify (set_r_doRoot2 (fun _ => false));
  sendReqs.

(** The [switch] at the end of [_fix]. *)
Definition fix_apply (bestRoot bestParent : publicKey) : R unit :=
  res ← gets (fun r => r_responses r !! bestParent);
  used ← match res with
         | Some res =>
             if negb (bool_decide (bestRoot = selfKey c)) then useResponse bestParent res
             else ret false
         | None => ret false
         end;
  doRoot2 ← gets r_doRoot2;
  doRoot1 ← gets r_doRoot1;
  if used : bool then fix_done
  else if doRoot2 : bool then
    ok ← becomeRoot;
    if negb ok then panic else fix_done
  else if negb (doRoot1 : bool) then modify (set_r_doRoot1 (fun _ => true))
  else ret tt.

Definition fix_ : R unit :=
  self ← gets (fun r => info_of r (selfKey c));
  best ← fix_current;
  pks ← gets (fun r => map_order (dom (r_responses r)));
  '(bestRoot, bestParent, bestCost) ← act_fold pks (fix_candidate self) best;
  go ← gets (fun r => r_refresh r || r_doRoot1 r || r_doRoot2 r
                       || negb (bool_decide (info_parent self = bestParent)));
  if go : bool then fix_apply bestRoot bestParent else ret tt.

(** The keys of [l] not yet sent, now marked as sent. *)
Definition take_unsent (peerKey : publicKey) (l toSend : list publicKey) : R (list publicKey) :=
  act_fold l (fun k toSend =>
    isIn ← gets (fun r => bool_decide (k ∈ (default ∅ (r_sent r !! peerKey) : gset publicKey)));
    if isIn : bool then ret toSend
    else
      _ ← mark_sent peerKey k;
      ret (toSend ++ [k])) toSend.

Definition sendAnnounces : R unit :=
  selfAnc ← gets (fun r => getAncestry (r_infos r) (selfKey c));
  act_range r_sent (fun peerKey =>
    peerAnc ← gets (fun r => getAncestry (r_infos r) peerKey);
    toSend ← take_unsent peerKey selfAnc [];
    toSend ← take_unsent peerKey peerAnc toSend;
    anns ← act_fold toSend (fun k anns =>
             info ← gets (fun r => r_infos r !! k);
             match info with
             | Some info => ret (anns ++ [getAnnounce info k])
             | None => panic
             end) [];
    act_range_set (fun r => links_of r peerKey) (fun p =>
      act_for anns (fun ann => emit (ESendAnnounce p ann)))).

Definition doMaintenance : R unit :=
  mainTimer ← gets r_mainTimer;
  match mainTimer with
  | None => ret tt
  | Some mainTimer =>
      _ ← modify (fun r => set_r_doRoot2 (fun d => d || r_doRoot1 r) r);
      _ ← resetCache;
      _ ← updateAncestries;
      _ ← fix_;
      _ ← sendAnnounces;
      _ ← blooms_doMaintenance c;
      emit (EResetTimer mainTimer Second)
  end.

Definition shutdown : R unit :=
  mainTimer ← gets r_mainTimer;
  match mainTimer with
  | None => ret tt
  | Some t => _ ← emit (EStopTimer t); modify (set_r_mainTimer (fun _ => None))
  end.

(** ** Traffic *)

Definition handleTraffic (tr : traffic) : R unit :=
  '(p, watermark) ← lookup c (tr_path tr) (Some (tr_watermark tr));
  let tr := tr_set_watermark tr (default (tr_watermark tr) watermark) in
  match p with
  | Some p => emit (ESendQueued p (PqTraffic tr))
  | None =>
      if bool_decide (tr_dest tr = selfKey c) then
        _ ← resetTimeout c (tr_source tr);
        emit (EPconnTraffic tr)
      else doBroken c tr
  end.

Definition sendTraffic (tr : traffic) : R unit := pf_handleTraffic c tr.

(** ** The state after [init], before its first message *)

Definition router_zero (e : env) : router :=
  MkRouter ∅ ∅ ∅ ∅ ∅ ∅ ∅ ∅ ∅ ∅ ∅ ∅ ∅ 0 false false false None ∅ zero_notifyInfo ∅ ∅ e.

Definition router_init : R unit :=
  _ ← pf_init c;
  t ← AfterFunc Second TMaintenance;
  _ ← modify (set_r_mainTimer (fun _ => Some t));
  modify (set_r_doRoot2 (fun _ => true)).
End router.
