(* ===== verification/RouterInv.v ===== *)
(** * The router never panics

    The messages the router's actor handles, as events, and the invariant that
    excludes every [panic("this should never happen")], every write to a
    missing map and every running out of fuel in the models of
    [ironwood/network/{router,bloomfilter,pathfinder}.go]. *)

From S2P Require Import Prelude Crypto Wire Messages Bloom RouterState RouterTree RouterCost RouterLookup Blooms Pathfinder Router.

(** ** Events *)

Inductive event :=
| EvAddPeer (p : peer)
| EvRemovePeer (p : peer)
| EvRequest (p : peer) (req : routerSigReq)
| EvResponse (p : peer) (res : routerSigRes) (rtt : Z)
| EvAnnounce (p : peer) (ann : routerAnnounce)
| EvBloom (p : peer) (b : bloom)
| EvLookup (p : peer) (lookup : pathLookup)
| EvNotify (p : peer) (notify : pathNotify)
| EvBroken (broken : pathBroken)
| EvTraffic (tr : traffic)
| EvSendTraffic (tr : traffic)
| EvTimer (what : timerKind) (t : timer)
| EvShutdown
| EvEnv (now : Z) (random : list Z).

Section events.
Context `{Ed25519} `{BloomHash} `{MapOrder} (c : core).

(** What the closure of a timer does when the actor runs it. *)
Definition timer_step (what : timerKind) (t : timer) : R unit :=
  match what with
  | TRefresh key => refresh_timer key t
  | TInfoTimeout key => info_timeout key t
  | TPathTimeout key => path_timeout key t
  | TRumorTimeout xform => rumor_timeout xform t
  | TMaintenance => doMaintenance c
  end.

(** One message of the actor's inbox; [EvEnv] lets time pass between messages. *)
Definition step (ev : event) : R unit :=
  match ev with
  | EvAddPeer p => addPeer c p
  | EvRemovePeer p => removePeer p
  | EvRequest p req => handleRequest c p req
  | EvResponse p res rtt => handleResponse p res rtt
  | EvAnnounce p ann => handleAnnounce c p ann
  | EvBloom p b => handleBloom p b
  | EvLookup p lookup => handleLookup_from c p lookup
  | EvNotify p notify => pf_handleNotify c (p_key p) notify
  | EvBroken broken => handleBroken c broken
  | EvTraffic tr => handleTraffic c tr
  | EvSendTraffic tr => sendTraffic c tr
  | EvTimer what t => timer_step what t
  | EvShutdown => shutdown
  | EvEnv now random => modify (set_r_env (fun e => MkEnv now random (env_timer e)))
  end.
End events.

(** ** Invariant *)

Section inv.
Context (c : core).

Record fields_ok (peers : gmap publicKey (gset peer)) (sent : gmap publicKey (gset publicKey))
    (infos : gmap publicKey routerInfo) (cache : gmap publicKey (list Z))
    (penalties : gmap routerPenaltyKey routerPenaltyEntry) (lags : gmap peer Z)
    (blooms : gmap publicKey bloomInfo) (paths : gmap publicKey pathInfo) (doRoot2 : bool)
    : Prop := {
  fo_keyed : map_Forall (fun k ps => ps <> ∅ /\ forall p, p ∈ ps -> p_key p = k) peers;
  fo_sent_dom : dom sent = dom peers;
  fo_sent : map_Forall (fun _ s => s ⊆ dom infos) sent;
  fo_cache : map_Forall (fun k p => p = (getRootAndPath infos k).2) cache;
  fo_penalties : map_Forall (fun _ entry => penalty_ok entry) penalties;
  fo_lags : map_Forall (fun _ lag => is_i64 lag) lags;
  fo_blooms_dom : dom blooms = dom peers;
  fo_blooms : blooms_ok blooms;
  fo_paths : map_Forall (fun k i => forall tr, pt_traffic i = Some tr -> tr_dest tr = k) paths;
  fo_root : is_Some (infos !! selfKey c) \/ doRoot2 = true
}.

Definition rinv (r : router) : Prop :=
  fields_ok (r_peers r) (r_sent r) (r_infos r) (r_cache r) (r_penalties r) (r_lags r)
    (r_blooms r) (r_paths r) (r_doRoot2 r).

Lemma rinv_pf r : rinv r -> pf_inv r.
Proof.
  intros []. split; [by split|done| |done]. by rewrite fo_blooms_dom0.
Qed.

Lemma rinv_lookup r : rinv r -> lookup_ok r.
Proof. intros Hi. by apply pi_lookup, rinv_pf. Qed.
Lemma rinv_keyed r : rinv r -> peers_keyed r.
Proof. intros Hi. by apply pi_keyed, rinv_pf. Qed.

Lemma rinv_pf_frame r r' : rinv r -> pf_inv r' -> pf_frame r r' -> rinv r'.
Proof.
  intros [] [[Hc Hp] _ _ Ho] (? & ? & ? & ? & ? & ? & ->). by split.
Qed.

Lemma rinv_cache m r : rinv r -> cache_ok (set_r_cache (fun _ => m) r) ->
  rinv (set_r_cache (fun _ => m) r).
Proof. intros [] Hc. by split. Qed.

Lemma rinv_same_routes r r' : rinv r -> lookup_ok r' -> same_routes r r' -> rinv r'.
Proof. intros [] [Hc Hp] (m & m' & ->). by split. Qed.

Lemma rinv_blooms_step r r' : rinv r -> blooms_step r r' -> rinv r'.
Proof. intros [] (m & -> & Hd & Hm). split; simpl; try done. congruence. Qed.

Lemma rinv_penalties m r : rinv r -> penalties_ok (with_penalties m r) -> rinv (with_penalties m r).
Proof. intros [] Hp. by split. Qed.

Lemma rinv_lags p lag r : rinv r -> is_i64 lag -> rinv (set_r_lags (<[p := lag]>) r).
Proof. intros [] Hl. split; try done. by apply map_Forall_insert_2. Qed.

(** *** Steps that leave the routing tables alone *)

Record quiet (r r' : router) (es : list effect) : Prop := {
  qu_inv : rinv r';
  qu_peers : r_peers r' = r_peers r;
  qu_infos : r_infos r' = r_infos r;
  qu_root : r_doRoot2 r' = r_doRoot2 r;
  qu_sends : Forall (sends_to_peers r) es
}.

Lemma sends_same_peers r r' e :
  r_peers r' = r_peers r -> sends_to_peers r' e -> sends_to_peers r e.
Proof. intros E. destruct e; simpl; try done; unfold is_peer; by rewrite E. Qed.

Lemma quiet_refl r : rinv r -> quiet r r [].
Proof. by split. Qed.

Lemma quiet_trans r1 r2 r3 es1 es2 :
  quiet r1 r2 es1 -> quiet r2 r3 es2 -> quiet r1 r3 (es1 ++ es2).
Proof.
  intros [] []. split; try congruence. apply Forall_app. split; [done|].
  eapply Forall_impl; [eassumption|]. intros e. by apply sends_same_peers.
Qed.

Lemma wp_quiet_bind {A B} (m : R A) (f : A -> R B) r (Q : A -> router -> Prop)
    (Q' : B -> router -> Prop) :
  wp m r (fun a r' es => quiet r r' es /\ Q a r') ->
  (forall a r' es, quiet r r' es -> Q a r' ->
    wp (f a) r' (fun b r'' es => quiet r' r'' es /\ Q' b r'')) ->
  wp (m ≫= f) r (fun b r'' es => quiet r r'' es /\ Q' b r'').
Proof.
  intros Hm Hf. apply wp_bind. eapply wp_mono; [exact Hm|]. intros a r' es [Hs HQ].
  eapply wp_mono; [by eapply Hf|]. intros b r'' es' [Hs' HQ'].
  split; [by eapply quiet_trans|done].
Qed.

(** Loops of quiet rounds. *)
Lemma quiet_for {K} (l : list K) (f : K -> R unit) r :
  rinv r ->
  (forall k r1 es, k ∈ l -> quiet r r1 es -> wp (f k) r1 (fun _ r' es => quiet r1 r' es)) ->
  wp (act_for l f) r (fun _ r' es => quiet r r' es).
Proof.
  intros Hi Hf.
  assert (forall k r1 es1, (forall x, x ∈ k -> x ∈ l) -> quiet r r1 es1 ->
    wp (act_for k f) r1 (fun _ r' es => quiet r1 r' es)) as Hl.
  { induction k as [|x k IH]; intros r1 es1 Hin Hq; simpl; [apply wp_ret, quiet_refl, Hq|].
    apply wp_bind. eapply wp_mono; [eapply Hf; [apply Hin; left|done]|].
    intros [] r2 es2 Hq2. eapply wp_mono; [eapply IH|].
    - intros y Hy. apply Hin. by right.
    - by eapply quiet_trans.
    - intros ? r3 es3 Hq3. exact (quiet_trans _ _ _ _ _ Hq2 Hq3). }
  eapply Hl; [|by apply quiet_refl]. done.
Qed.

Lemma quiet_range `{MapOrder} `{Countable K} {V} (m : router -> gmap K V) (f : K -> R unit) r :
  rinv r ->
  (forall k r1 es, k ∈ dom (m r) -> quiet r r1 es ->
    wp (f k) r1 (fun _ r' es => quiet r1 r' es)) ->
  wp (act_range m f) r (fun _ r' es => quiet r r' es).
Proof.
  intros Hi Hf. apply wp_bind, wp_gets. simpl. apply quiet_for; [done|].
  intros k r1 es Hk. by apply Hf, elem_of_map_order.
Qed.

Lemma quiet_range_set `{MapOrder} `{Countable K} (X : router -> gset K) (f : K -> R unit) r :
  rinv r ->
  (forall k r1 es, k ∈ X r -> quiet r r1 es ->
    wp (f k) r1 (fun _ r' es => quiet r1 r' es)) ->
  wp (act_range_set X f) r (fun _ r' es => quiet r r' es).
Proof.
  intros Hi Hf. apply wp_bind, wp_gets. simpl. apply quiet_for; [done|].
  intros k r1 es Hk. by apply Hf, elem_of_map_order.
Qed.

Lemma quiet_fold {K A} (l : list K) (f : K -> A -> R A) a r :
  rinv r ->
  (forall k a r1 es, k ∈ l -> quiet r r1 es -> wp (f k a) r1 (fun _ r' es => quiet r1 r' es)) ->
  wp (act_fold l f a) r (fun _ r' es => quiet r r' es).
Proof.
  intros Hi Hf.
  assert (forall k a r1 es1, (forall x, x ∈ k -> x ∈ l) -> quiet r r1 es1 ->
    wp (act_fold k f a) r1 (fun _ r' es => quiet r1 r' es)) as Hl.
  { induction k as [|x k IH]; intros b r1 es1 Hin Hq; simpl; [apply wp_ret, quiet_refl, Hq|].
    apply wp_bind. eapply wp_mono; [eapply Hf; [apply Hin; left|done]|].
    intros b' r2 es2 Hq2. eapply wp_mono; [apply (IH b' r2 (es1 ++ es2))|].
    - intros y Hy. apply Hin. by right.
    - by eapply quiet_trans.
    - intros ? r3 es3 Hq3. exact (quiet_trans _ _ _ _ _ Hq2 Hq3). }
  eapply Hl; [|by apply quiet_refl]. done.
Qed.

(** Quiet steps before the rest of a handler. *)
Lemma wp_quiet_then {A B} (m : R A) (f : A -> R B) r (Q : B -> router -> list effect -> Prop) :
  wp m r (fun _ r' es => quiet r r' es) ->
  (forall a r' es, quiet r r' es -> wp (f a) r' (fun b r'' es' => Q b r'' (es ++ es'))) ->
  wp (m ≫= f) r Q.
Proof.
  intros Hm Hf. apply wp_bind. eapply wp_mono; [exact Hm|]. intros a r' es Hs. by apply Hf.
Qed.

Lemma wp_quiet_seq {A B} (m : R A) (f : A -> R B) r :
  wp m r (fun _ r' es => quiet r r' es) ->
  (forall a r' es, quiet r r' es -> wp (f a) r' (fun _ r'' es => quiet r' r'' es)) ->
  wp (m ≫= f) r (fun _ r'' es => quiet r r'' es).
Proof.
  intros Hm Hf. apply (wp_quiet_then _ _ _ _ Hm). intros a r' es Hq.
  eapply wp_mono; [by eapply Hf|]. intros b r'' es'. by apply quiet_trans.
Qed.

(** *** Costs and penalties *)

Lemma getCost_quiet `{MapOrder} p r : rinv r -> wp (getCost p) r (fun _ r' es => quiet r r' es).
Proof.
  intros Hi. eapply wp_mono; [apply getCost_wp, Hi|].
  intros v r' es (-> & Hok & _ & m & ->). split; try done. by apply rinv_penalties.
Qed.

Lemma addPenalty_quiet `{MapOrder} key comp r : rinv r -> comp < 2 ^ 62 ->
  wp (addPenalty key comp) r (fun _ r' es => quiet r r' es /\
    exists m, r' = with_penalties m r).
Proof.
  intros Hi Hc. eapply wp_mono; [apply addPenalty_wp; [apply Hi|done]|].
  intros v r' es (-> & Hok & _ & m & ->). split; [|by eexists].
  split; try done. by apply rinv_penalties.
Qed.

Lemma Milliseconds_bound d : is_i64 d -> Milliseconds d < 2 ^ 62.
Proof.
  unfold is_i64, Milliseconds, Millisecond. intros Hd. Z.to_euclidean_division_equations. lia.
Qed.

Lemma recordDisconnect_quiet `{MapOrder} p r : rinv r ->
  wp (recordDisconnect p) r (fun _ r' es => quiet r r' es).
Proof.
  intros Hi. unfold recordDisconnect. apply wp_bind, wp_gets.
  destruct (r_lags r !! p) as [lag|] eqn:E; [|by apply wp_ret, quiet_refl].
  case_match; [by apply wp_ret, quiet_refl|].
  eapply wp_mono; [apply addPenalty_quiet; [done|]|by intros ? ? ? [? _]].
  pose proof (Milliseconds_bound lag (fo_lags _ _ _ _ _ _ _ _ _ Hi p lag E)).
  apply Z.max_lub_lt; [done|done].
Qed.

Lemma penalizeMissed_quiet `{MapOrder} p r : rinv r ->
  wp (penalizeMissed p) r (fun _ r' es => quiet r r' es).
Proof.
  intros Hi. unfold penalizeMissed. apply wp_bind, wp_gets.
  case_match; [by apply wp_ret, quiet_refl|]. apply wp_bind, wp_gets. simpl.
  case_match; [by apply wp_ret, quiet_refl|].
  set (inc := if routerUnknownLatency <? _ then _ else _).
  apply wp_bind. eapply wp_mono; [apply addPenalty_quiet; [done|]|].
  - apply Z.max_lub_lt; [done|]. apply Milliseconds_bound, i64_range.
  - intros _ r' es (Hq & m & ->). apply wp_modify.
    rewrite app_nil_r. destruct Hq as [Hi' _ _ _ Hs]. split; try done.
    apply rinv_lags; [done|]. unfold inc. case_match; [done|apply i64_range].
Qed.

Lemma penalizeMissedResponses_quiet `{MapOrder} r : rinv r ->
  wp penalizeMissedResponses r (fun _ r' es => quiet r r' es).
Proof.
  intros Hi. apply quiet_range; [done|]. intros k r1 es1 _ Hq1.
  apply wp_bind, wp_gets. case_match; simpl; [by apply wp_ret, quiet_refl, Hq1|].
  apply quiet_range_set; [apply Hq1|]. intros p r2 es2 _ Hq2. apply penalizeMissed_quiet, Hq2.
Qed.
End inv.

(** ** Announcements *)

(** The order of [_update]: a later sequence number, then a lower parent, then a
    lower nonce. *)
Definition better (new old : routerInfo) : bool :=
  (info_seq old <? info_seq new) ||
  (info_seq old =? info_seq new) &&
    (less (info_parent new) (info_parent old) ||
     bool_decide (info_parent new = info_parent old) && (info_nonce new <? info_nonce old)).

Definition improves (new : routerInfo) (old : option routerInfo) : bool :=
  match old with None => true | Some old => better new old end.

Section handlers.
Context `{Ed25519} `{BloomHash} `{MapOrder} (c : core).

(** The early returns of [_update] are this order. *)
Lemma update_known_eq ann info :
  (if ann_seq ann <? info_seq info then true
   else if info_seq info <? ann_seq ann then false
   else if less (info_parent info) (ann_parent ann) then true
   else if less (ann_parent ann) (info_parent info) then false
   else if ann_nonce ann <? info_nonce info then false
   else true) = negb (better (info_of_announce ann) info).
Proof.
  unfold better. change (info_seq (info_of_announce ann)) with (ann_seq ann).
  change (info_parent (info_of_announce ann)) with (ann_parent ann).
  change (info_nonce (info_of_announce ann)) with (ann_nonce ann).
  destruct (Z.ltb_spec (ann_seq ann) (info_seq info)).
  { rewrite (proj2 (Z.ltb_ge _ _)), (proj2 (Z.eqb_neq _ _)) by lia. done. }
  destruct (Z.ltb_spec (info_seq info) (ann_seq ann)); [done|].
  rewrite (proj2 (Z.eqb_eq _ _)) by lia. simpl.
  destruct (less (info_parent info) (ann_parent ann)) eqn:E1.
  { rewrite (less_asym _ _ E1), bool_decide_eq_false_2; [done|].
    intros E. rewrite E, less_irrefl in E1. done. }
  destruct (less (ann_parent ann) (info_parent info)) eqn:E2; [done|]. simpl.
  rewrite bool_decide_eq_true_2 by by apply less_total. simpl. by destruct (_ <? _).
Qed.

(** [forget_sent], a new info and an empty cache. *)
Lemma fields_ok_insert peers sent infos cache pen lags blooms paths d2 k i :
  fields_ok c peers sent infos cache pen lags blooms paths d2 ->
  fields_ok c peers ((fun s => s ∖ {[k]}) <$> sent) (<[k := i]> infos) ∅ pen lags blooms paths d2.
Proof.
  intros []. split; try done.
  - by rewrite dom_fmap_L.
  - intros k' s (s0 & <- & Hs)%lookup_fmap_Some. rewrite dom_insert_L.
    specialize (fo_sent0 k' s0 Hs). simpl in fo_sent0. set_solver.
  - destruct fo_root0 as [Hs|]; [|by right]. left. rewrite lookup_insert_is_Some. destruct (decide (k = selfKey c)); [by left|by right].
Qed.

Lemma fields_ok_delete peers sent infos cache pen lags blooms paths d2 k :
  fields_ok c peers sent infos cache pen lags blooms paths d2 -> k <> selfKey c ->
  fields_ok c peers ((fun s => s ∖ {[k]}) <$> sent) (delete k infos) ∅ pen lags blooms paths d2.
Proof.
  intros [] Hk. split; try done.
  - by rewrite dom_fmap_L.
  - intros k' s (s0 & <- & Hs)%lookup_fmap_Some. rewrite dom_delete_L.
    specialize (fo_sent0 k' s0 Hs). simpl in fo_sent0. set_solver.
  - destruct fo_root0 as [Hs|]; [|by right]. left. by rewrite lookup_delete_ne.
Qed.

Record update_post (ann : routerAnnounce) (r : router) (b : bool) (r' : router)
    (es : list effect) : Prop := {
  up_inv : rinv c r';
  up_result : b = improves (info_of_announce ann) (r_infos r !! ann_key ann);
  up_infos : r_infos r' = if b then <[ann_key ann := info_of_announce ann]> (r_infos r)
                          else r_infos r;
  up_sent : r_sent r' = if b then (fun s => s ∖ {[ann_key ann]}) <$> r_sent r else r_sent r;
  up_peers : r_peers r' = r_peers r;
  up_root : r_doRoot2 r' = r_doRoot2 r;
  up_sends : Forall (sends_to_peers r) es
}.

Lemma update_wp ann r : rinv c r -> wp (update c ann) r (update_post ann r).
Proof.
  intros Hi. unfold update. apply wp_bind, wp_gets.
  set (known := match r_infos r !! ann_key ann with None => false | Some _ => _ end).
  assert (known = negb (improves (info_of_announce ann) (r_infos r !! ann_key ann))) as ->.
  { unfold known. destruct (r_infos r !! ann_key ann); [apply update_known_eq|done]. }
  destruct (improves _ _) eqn:E; cbn [negb].
  2:{ apply wp_ret. by split. }
  unfold forget_sent, resetCache, AfterFunc.
  apply wp_bind, wp_modify, wp_bind, wp_modify, wp_bind.
  apply wp_mono with (P := fun t r' es => t = env_timer (r_env r) /\
    r' = set_r_env (fun e => MkEnv (env_now e) (env_random e) (S t)) (set_r_cache (fun _ => ∅)
           (set_r_sent (fmap (fun sent => sent ∖ {[ann_key ann]})) r)) /\
    Forall (sends_to_peers r) es).
  { case_match; apply wp_bind, wp_gets, wp_bind, wp_modify, wp_bind, wp_emit, wp_ret;
      split_and!; try done; by repeat constructor. }
  intros t r' es (-> & -> & Hes). apply wp_bind, wp_gets. simpl (r_timers _).
  apply wp_bind. apply wp_mono with (P := fun _ r2 es => r2 =
    set_r_env (fun e => MkEnv (env_now e) (env_random e) (S (env_timer (r_env r))))
      (set_r_cache (fun _ => ∅) (set_r_sent (fmap (fun sent => sent ∖ {[ann_key ann]})) r)) /\
    Forall (sends_to_peers r) es).
  { destruct (r_timers r !! ann_key ann); [apply wp_emit|apply wp_ret]; split; try done;
      by repeat constructor. }
  intros _ r' es' [-> Hes']. apply wp_bind, wp_modify, wp_bind, wp_modify, wp_ret.
  split; try done.
  - apply (fields_ok_insert _ _ _ _ _ _ _ _ _ _ _ Hi).
  - simpl. rewrite !app_nil_r. by apply Forall_app.
Qed.

Lemma is_peer_sent p r : rinv c r -> is_peer r p -> is_Some (r_sent r !! p_key p).
Proof.
  intros Hi (ps & E & _). apply elem_of_dom. rewrite (fo_sent_dom _ _ _ _ _ _ _ _ _ _ Hi).
  apply elem_of_dom. eauto.
Qed.

(** Marking a known key as sent to a peer. *)
Lemma mark_sent_wp pk k r :
  rinv c r -> is_Some (r_sent r !! pk) -> is_Some (r_infos r !! k) ->
  wp (mark_sent pk k) r (fun _ r' es => quiet c r r' es /\ es = []).
Proof.
  intros Hi [s E] Hk. unfold mark_sent. apply wp_bind, wp_gets. rewrite E. apply wp_modify.
  split; [|done]. split; try done. destruct Hi. split; try done; simpl.
  - by rewrite dom_insert_lookup_L by eauto.
  - apply map_Forall_insert_2; [|done]. specialize (fo_sent0 pk s E). simpl in fo_sent0.
    apply elem_of_dom in Hk. set_solver.
Qed.

Lemma handleAnnounce_wp p ann r : rinv c r -> is_peer r p ->
  wp (handleAnnounce c p ann) r (fun _ r' es => rinv c r' /\ r_peers r' = r_peers r /\
    Forall (sends_to_peers r) es).
Proof.
  intros Hi Hp. unfold handleAnnounce. apply wp_bind.
  eapply wp_mono; [by apply update_wp|]. intros b r1 es [Hi1 Hb Hin Hse Hpe _ Hes].
  assert (is_peer r1 p) as Hp1 by (destruct Hp as (ps & ? & ?); exists ps; by rewrite Hpe).
  pose proof (is_peer_sent p r1 Hi1 Hp1) as Hs1. destruct b.
  - apply wp_bind. apply wp_mono with (P := fun _ r2 es => rinv c r2 /\ r_peers r2 = r_peers r1 /\
      r_infos r2 = r_infos r1 /\ r_sent r2 = r_sent r1 /\ es = []).
    { case_match; [apply wp_modify|apply wp_ret]; done. }
    intros _ r2 es2 (Hi2 & Hp2 & Hin2 & Hse2 & ->).
    eapply wp_mono; [apply mark_sent_wp; [done|by rewrite Hse2|]|].
    + rewrite Hin2, Hin, lookup_insert_eq. eauto.
    + intros _ r3 es3 ([Hi3 Hp3 _ _ _] & ->). rewrite !app_nil_r. split_and!; [done|congruence|done].
  - apply wp_bind, wp_gets. set (old := info_of r1 (ann_key ann)).
    assert (is_Some (r_infos r1 !! ann_key ann)) as Hk.
    { rewrite Hin. destruct (r_infos r !! ann_key ann); [eauto|done]. }
    case_match.
    + apply wp_bind. eapply wp_mono; [by apply mark_sent_wp|].
      intros _ r2 es2 ([Hi2 Hp2 _ _ _] & ->). apply wp_emit. split_and!; [done|congruence|].
      apply Forall_app. split; [done|]. by repeat constructor.
    + eapply wp_mono; [by apply mark_sent_wp|].
      intros _ r2 es2 ([Hi2 Hp2 _ _ _] & ->). rewrite !app_nil_r. split_and!; [done|congruence|done].
Qed.

Lemma info_timeout_wp key t r : rinv c r -> key <> selfKey c ->
  wp (info_timeout key t) r (fun _ r' es => rinv c r' /\ r_peers r' = r_peers r /\
    Forall (sends_to_peers r) es).
Proof.
  intros Hi Hk. unfold info_timeout, forget_sent, resetCache. apply wp_bind, wp_gets.
  case_match; [|by apply wp_ret].
  apply wp_bind, wp_emit, wp_bind, wp_modify, wp_bind, wp_modify, wp_bind, wp_modify, wp_modify.
  split; [|split; [done|by repeat constructor]].
  apply (fields_ok_delete _ _ _ _ _ _ _ _ _ _ Hi Hk).
Qed.

Lemma random_quiet r : rinv c r ->
  wp random_u64 r (fun _ r' es => quiet c r r' es).
Proof.
  intros Hi. unfold random_u64. apply wp_bind, wp_gets.
  destruct (env_random (r_env r)); [by apply wp_ret, quiet_refl|].
  apply wp_bind, wp_modify, wp_ret. by split.
Qed.

Definition self_seq (r : router) : Z := info_seq (info_of r (selfKey c)).

Lemma newReq_wp r : rinv c r ->
  wp (newReq c) r (fun req r' es => quiet c r r' es /\ req_seq req = u64 (self_seq r + 1)).
Proof.
  intros Hi. unfold newReq. apply wp_bind. eapply wp_mono; [by apply random_quiet|].
  intros nonce r1 es Hq. apply wp_bind, wp_gets, wp_ret. simpl. rewrite !app_nil_r.
  split; [done|]. unfold self_seq, info_of. by rewrite (qu_infos _ _ _ _ Hq).
Qed.

Lemma newReq_quiet r : rinv c r -> wp (newReq c) r (fun _ r' es => quiet c r r' es).
Proof. intros Hi. eapply wp_mono; [by apply newReq_wp|]. by intros ? ? ? [? _]. Qed.

(** ** Choosing a parent *)

(** What [crypto.init] makes of a valid key. *)
Definition core_ok : Prop :=
  ed_valid (crypto_privateKey (core_crypto c)) /\
  crypto_publicKey (core_crypto c) = ed_public (crypto_privateKey (core_crypto c)).

Lemma selfKey_ok : core_ok -> selfKey c = ed_public (crypto_privateKey (core_crypto c)).
Proof. by intros [_ ?]. Qed.

(** A handler that leaves the peers alone and keeps the invariant. *)
Definition safe (r : router) (r' : router) (es : list effect) : Prop :=
  rinv c r' /\ r_peers r' = r_peers r /\ Forall (sends_to_peers r) es.

Lemma safe_trans r1 r2 r3 es1 es2 : safe r1 r2 es1 -> safe r2 r3 es2 -> safe r1 r3 (es1 ++ es2).
Proof.
  intros (? & Hp & ?) (? & ? & He). split_and!; [done|congruence|]. apply Forall_app.
  split; [done|]. eapply Forall_impl; [exact He|]. intros e. by apply sends_same_peers.
Qed.

Lemma quiet_safe r r' es : quiet c r r' es -> safe r r' es.
Proof. by intros []. Qed.

Lemma safe_refl r : rinv c r -> safe r r [].
Proof. done. Qed.

(** After the own info changed: it is known. *)
Definition rooted_step (r r' : router) (es : list effect) : Prop :=
  safe r r' es /\ is_Some (r_infos r' !! selfKey c).

Lemma becomeRoot_wp `{!Ed25519Laws} r :
  core_ok -> rinv c r -> 0 <= self_seq r < max_u64 ->
  wp (becomeRoot c) r (fun ok r' es => ok = true /\ rooted_step r r' es).
Proof.
  intros Hc Hi Hseq. unfold becomeRoot. apply wp_bind. eapply wp_mono; [by apply newReq_wp|].
  intros req r1 es (Hq & Ereq). unfold max_u64 in Hseq.
  set (res := MkSigRes req 0 _). set (psig := sign _ _).
  set (ann := {| ann_key := selfKey c |}).
  assert (routerAnnounce_check ann = true) as ->.
  { assert (equal (selfKey c) (selfKey c) = true) as Eeq by by apply bool_decide_eq_true_2.
    unfold routerAnnounce_check. simpl. rewrite Eeq. simpl.
    assert (verify (selfKey c) (routerSigRes_bytesForSig res (selfKey c) (selfKey c)) psig = true)
      as Ev.
    { unfold selfKey at 1. rewrite (proj2 Hc). apply verify_sign, Hc. }
    apply andb_true_iff. split; exact Ev. }
  cbn [negb]. eapply wp_mono; [apply update_wp, Hq|].
  intros b r2 es2 [Hi2 Hb Hin Hse Hpe _ Hes].
  assert (b = true) as ->.
  { rewrite Hb, (qu_infos _ _ _ _ Hq). unfold self_seq, info_of in Hseq, Ereq. simpl.
    destruct (r_infos r !! selfKey c) as [info|] eqn:E; [|done]. simpl in Hseq, Ereq |- *.
    unfold better. apply orb_true_iff. left. apply Z.ltb_lt.
    change (info_seq (info_of_announce ann)) with (req_seq req). rewrite Ereq.
    rewrite u64_small by (unfold is_u64; lia). lia. }
  split; [done|]. split.
  - eapply safe_trans; [by apply quiet_safe|]. done.
  - rewrite Hin. simpl. rewrite lookup_insert_eq. eauto.
Qed.

Lemma useResponse_wp peerKey res r : rinv c r ->
  wp (useResponse c peerKey res) r (fun ok r' es =>
    if ok : bool then rooted_step r r' es else quiet c r r' es).
Proof.
  intros Hi. unfold useResponse. eapply wp_mono; [by apply update_wp|].
  intros b r2 es2 [Hi2 Hb Hin Hse Hpe Hd Hes]. destruct b.
  - split; [done|]. rewrite Hin. simpl. rewrite lookup_insert_eq. eauto.
  - by split.
Qed.

Lemma sendReqs_quiet r : rinv c r -> wp (sendReqs c) r (fun _ r' es => quiet c r r' es).
Proof.
  intros Hi. unfold sendReqs.
  apply (wp_quiet_seq c); [by apply penalizeMissedResponses_quiet|]. intros _ r1 es1 Hq1.
  apply (wp_quiet_seq c).
  { unfold clearReqs. apply wp_bind, wp_modify, wp_bind, wp_modify, wp_bind, wp_modify, wp_modify.
    destruct Hq1 as [Hi1 _ _ _ _]. by split. }
  intros _ r2 es2 Hq2. apply quiet_range; [apply Hq2|]. intros pk r3 es3 _ Hq3.
  apply (wp_quiet_seq c); [apply newReq_quiet, Hq3|]. intros req r4 es4 Hq4.
  apply (wp_quiet_seq c); [apply wp_modify; destruct Hq4; by split|]. intros _ r5 es5 Hq5.
  pose proof (qu_inv _ _ _ _ Hq5) as Hi5.
  apply quiet_range_set; [done|]. intros p r6 es6 Hp Hq6.
  apply wp_bind, wp_modify, wp_emit. destruct Hq6 as [Hi6 Hp6 _ _ _]. split; try done.
  constructor; [|done]. destruct (peers_of_is_peer r5 pk p) as [(ps & ? & ?) _]; [by apply (rinv_keyed c)|done|].
  exists ps. by rewrite Hp6.
Qed.

Lemma fix_done_wp r : rinv c r -> is_Some (r_infos r !! selfKey c) ->
  wp (fix_done c) r (fun _ r' es => rooted_step r r' es).
Proof.
  intros Hi Hs. unfold fix_done. apply wp_bind, wp_modify, wp_bind, wp_modify, wp_bind, wp_modify.
  eapply wp_mono; [apply sendReqs_quiet|].
  - destruct Hi. split; try done. by left.
  - intros _ r' es [Hi' Hp' Hin' _ Hes']. split; [done|]. by rewrite Hin'.
Qed.

Lemma cheapest_quiet pk d r : rinv c r -> wp (cheapest pk d) r (fun _ r' es => quiet c r r' es).
Proof.
  intros Hi. unfold cheapest. apply wp_bind, wp_gets. simpl.
  apply quiet_fold; [done|]. intros p cost r1 es1 _ Hq1.
  apply (wp_quiet_seq c); [by apply getCost_quiet, Hq1|]. intros pc r2 es2 Hq2.
  case_match; apply wp_ret, quiet_refl, Hq2.
Qed.

Lemma fix_current_quiet r : rinv c r -> wp (fix_current c) r (fun _ r' es => quiet c r r' es).
Proof.
  intros Hi. unfold fix_current. apply wp_bind, wp_gets, wp_bind, wp_gets. simpl.
  case_match; [|by apply wp_ret, quiet_refl]. apply wp_bind, wp_gets. simpl.
  destruct (getRootAndDists _ _) as [root dists]. case_match; [|by apply wp_ret, quiet_refl].
  apply (wp_quiet_seq c); [by apply cheapest_quiet|]. intros cost r1 es1 Hq1.
  apply wp_ret, quiet_refl, Hq1.
Qed.

Lemma fix_candidate_quiet self pk best r : rinv c r ->
  wp (fix_candidate c self pk best) r (fun _ r' es => quiet c r r' es).
Proof.
  intros Hi. unfold fix_candidate. apply wp_bind, wp_gets.
  destruct (r_infos r !! pk); [|by apply wp_ret, quiet_refl].
  apply wp_bind, wp_gets. simpl. destruct (getRootAndDists _ _) as [pRoot pDists].
  case_match; [by apply wp_ret, quiet_refl|].
  apply (wp_quiet_seq c); [by apply cheapest_quiet|]. intros cost r1 es1 Hq1.
  apply wp_bind, wp_gets. simpl. destruct best as [[bestRoot bestParent] bestCost].
  match goal with |- context [match ?x with None => _ | Some _ => _ end] => destruct x as [[[? ?] ?]|] end;
    [case_match|]; apply wp_ret, quiet_refl, Hq1.
Qed.

Lemma fix_apply_wp `{!Ed25519Laws} bestRoot bestParent r :
  core_ok -> rinv c r -> 0 <= self_seq r < max_u64 ->
  wp (fix_apply c bestRoot bestParent) r (fun _ r' es => rooted_step r r' es).
Proof.
  intros Hc Hi Hseq. unfold fix_apply. apply wp_bind, wp_gets, wp_bind.
  apply wp_mono with (P := fun (ok : bool) r' es =>
    if ok then rooted_step r r' es else quiet c r r' es).
  { destruct (r_responses r !! bestParent); [case_match|];
      [by apply useResponse_wp|by apply wp_ret, quiet_refl..]. }
  intros used r1 es1 Hu. apply wp_bind, wp_gets, wp_bind, wp_gets. simpl. destruct used.
  - destruct Hu as [Hs Hk]. eapply wp_mono; [apply fix_done_wp; [apply Hs|done]|].
    intros _ r2 es2 [Hs2 Hk2]. split; [by eapply safe_trans|done].
  - assert (self_seq r1 = self_seq r) as Eseq.
    { unfold self_seq, info_of. by rewrite (qu_infos _ _ _ _ Hu). }
    pose proof (qu_inv _ _ _ _ Hu) as Hi1. apply quiet_safe in Hu.
    destruct (r_doRoot2 r1) eqn:Ed.
    + apply wp_bind. eapply wp_mono; [apply becomeRoot_wp; [done|done|by rewrite Eseq]|].
      intros ok r2 es2 (-> & Hs2 & Hk2). simpl. eapply wp_mono; [apply fix_done_wp; [apply Hs2|done]|].
      intros _ r3 es3 [Hs3 Hk3]. split; [|done]. eapply safe_trans; [done|]. by eapply safe_trans.
    + assert (is_Some (r_infos r1 !! selfKey c)) as Hk.
      { destruct (fo_root _ _ _ _ _ _ _ _ _ _ Hi1) as [?|E]; [done|]. congruence. }
      destruct (r_doRoot1 r1); simpl; [apply wp_ret|apply wp_modify]; rewrite app_nil_r; by split.
Qed.

Lemma fix_wp `{!Ed25519Laws} r :
  core_ok -> rinv c r -> 0 <= self_seq r < max_u64 ->
  wp (fix_ c) r (fun _ r' es => rooted_step r r' es).
Proof.
  intros Hc Hi Hseq. unfold fix_. apply wp_bind, wp_gets. simpl.
  apply (wp_quiet_then c); [by apply fix_current_quiet|]. intros best r1 es1 Hq1.
  apply wp_bind, wp_gets. simpl.
  apply (wp_quiet_then c).
  { apply quiet_fold; [apply Hq1|]. intros pk b r2 es2 _ Hq2. apply fix_candidate_quiet, Hq2. }
  intros [[bestRoot bestParent] bestCost] r2 es2 Hq2.
  pose proof (quiet_trans _ _ _ _ _ _ Hq1 Hq2) as Hq. clear Hq1 Hq2.
  apply wp_bind, wp_gets. simpl.
  assert (self_seq r2 = self_seq r) as Eseq.
  { unfold self_seq, info_of. by rewrite (qu_infos _ _ _ _ Hq). }
  pose proof (qu_inv _ _ _ _ Hq) as Hi2. apply quiet_safe in Hq. 
  match goal with |- context [if ?b then _ else _] => destruct b eqn:Ego end.
  - eapply wp_mono; [apply fix_apply_wp; [done|done|by rewrite Eseq]|].
    intros _ r3 es3 [Hs3 Hk3]. split; [|done]. simpl. rewrite app_assoc. by eapply safe_trans.
  - apply wp_ret. rewrite !app_nil_r. split; [done|].
    apply orb_false_iff in Ego as [[[_ _]%orb_false_iff Ed]%orb_false_iff _].
    destruct (fo_root _ _ _ _ _ _ _ _ _ _ Hi2) as [?|E]; [done|]. congruence.
Qed.

(** ** Maintenance *)

Lemma updateAncestries_quiet r : rinv c r -> wp updateAncestries r (fun _ r' es => quiet c r r' es).
Proof.
  intros Hi. apply quiet_range; [done|]. intros k r1 es1 _ Hq1.
  apply wp_bind, wp_gets, wp_bind, wp_gets. simpl.
  case_match; [apply wp_modify|apply wp_ret]; destruct Hq1 as [Hi1 _ _ _ _]; by split.
Qed.

Lemma getAncestry_known infos key :
  Forall (fun k => is_Some (infos !! k)) (getAncestry infos key).
Proof.
  rewrite (getAncestry_lineage _ _ _ (backwardsAncestry_lineage infos key)).
  apply Forall_reverse, lin_known with (key := key), backwardsAncestry_lineage.
Qed.

Lemma take_unsent_quiet pk l toSend r :
  rinv c r -> is_Some (r_sent r !! pk) ->
  Forall (fun k => is_Some (r_infos r !! k)) l ->
  Forall (fun k => is_Some (r_infos r !! k)) toSend ->
  wp (take_unsent pk l toSend) r (fun toSend' r' es => quiet c r r' es /\
    Forall (fun k => is_Some (r_infos r !! k)) toSend').
Proof.
  unfold take_unsent. revert toSend r. induction l as [|k l IH]; intros toSend r Hi Hs Hl Ht; simpl.
  { apply wp_ret. split; [by apply quiet_refl|done]. }
  apply Forall_cons in Hl as [Hk Hl]. apply wp_bind, wp_bind, wp_gets. simpl.
  case_match; [by apply wp_ret, IH|]. apply wp_bind.
  eapply wp_mono; [by apply mark_sent_wp|]. intros _ r1 es1 [Hq1 ->]. apply wp_ret.
  assert (is_Some (r_sent r1 !! pk)) as Hs1.
  { apply elem_of_dom. rewrite (fo_sent_dom _ _ _ _ _ _ _ _ _ _ (qu_inv _ _ _ _ Hq1)).
    rewrite (qu_peers _ _ _ _ Hq1), <- (fo_sent_dom _ _ _ _ _ _ _ _ _ _ Hi). by apply elem_of_dom. }
  eapply wp_mono; [apply IH; [apply Hq1|done|..]|].
  - by rewrite (qu_infos _ _ _ _ Hq1).
  - rewrite (qu_infos _ _ _ _ Hq1). apply Forall_app. split; [done|]. by constructor.
  - intros t r2 es2 [Hq2 Ht2]. rewrite (qu_infos _ _ _ _ Hq1) in Ht2.
    split; [by eapply quiet_trans|done].
Qed.

(** Every key taken has an info to announce. *)
Lemma announces_wp r l : Forall (fun k => is_Some (r_infos r !! k)) l -> forall anns,
  wp (act_fold l (fun k anns =>
        info ← gets (fun r => r_infos r !! k);
        match info with
        | Some info => ret (anns ++ [getAnnounce info k])
        | None => panic
        end) anns) r (fun _ r' es => r' = r /\ es = []).
Proof.
  induction 1 as [|k l [info E] _ IH]; intros anns; simpl; [by apply wp_ret|].
  apply wp_bind, wp_bind, wp_gets. rewrite E. apply wp_ret.
  eapply wp_mono; [apply IH|]. by intros ? r' es' [-> ->].
Qed.

Lemma sendAnnounces_quiet r : rinv c r -> wp (sendAnnounces c) r (fun _ r' es => quiet c r r' es).
Proof.
  intros Hi. unfold sendAnnounces. apply wp_bind, wp_gets. simpl.
  apply quiet_range; [done|]. intros pk r1 es1 Hpk Hq1.
  pose proof (qu_inv _ _ _ _ Hq1) as Hi1. pose proof (qu_infos _ _ _ _ Hq1) as Ein.
  assert (is_Some (r_sent r1 !! pk)) as Hs1.
  { apply elem_of_dom. rewrite (fo_sent_dom _ _ _ _ _ _ _ _ _ _ Hi1), (qu_peers _ _ _ _ Hq1).
    by rewrite <- (fo_sent_dom _ _ _ _ _ _ _ _ _ _ Hi). }
  apply wp_bind, wp_gets. simpl. apply wp_bind.
  eapply wp_mono; [apply take_unsent_quiet; [done|done| |constructor]|].
  { rewrite Ein. apply getAncestry_known. }
  intros t1 r2 es2 [Hq2 Ht1]. pose proof (qu_infos _ _ _ _ Hq2) as Ein2. apply wp_bind.
  eapply wp_mono; [apply take_unsent_quiet; [apply Hq2| | |]|].
  { apply elem_of_dom. rewrite (fo_sent_dom _ _ _ _ _ _ _ _ _ _ (qu_inv _ _ _ _ Hq2)).
    rewrite (qu_peers _ _ _ _ Hq2), <- (fo_sent_dom _ _ _ _ _ _ _ _ _ _ Hi1). by apply elem_of_dom. }
  { rewrite Ein2. apply getAncestry_known. }
  { by rewrite Ein2. }
  intros t2 r3 es3 [Hq3 Ht2]. pose proof (qu_infos _ _ _ _ Hq3) as Ein3. rewrite <- Ein3 in Ht2.
  pose proof (quiet_trans _ _ _ _ _ _ Hq2 Hq3) as Hq. apply wp_bind.
  apply wp_mono with (P := fun _ r' es => r' = r3 /\ es = []).
  { by apply announces_wp. }
  intros anns r' es' [-> ->].
  eapply wp_mono; [apply quiet_range_set; [apply Hq|]|].
  2:{ intros [] r4 es4 Hq4. simpl. rewrite app_assoc. by eapply quiet_trans. }
  intros p r4 es4 Hp Hq4. apply quiet_for; [apply Hq4|]. intros ann r5 es5 _ Hq5.
  apply wp_emit. destruct (quiet_trans _ _ _ _ _ _ Hq4 Hq5) as [Hi5 Hp5 _ _ _]. split; try done.
  constructor; [|done]. simpl.
  destruct (peers_of_is_peer r3 pk p) as [(ps & ? & ?) _]; [apply (rinv_keyed c), Hq|done|].
  exists ps. by rewrite Hp5.
Qed.

Lemma blooms_maintenance_quiet r : rinv c r -> is_Some (r_infos r !! selfKey c) ->
  wp (blooms_doMaintenance c) r (fun _ r' es => quiet c r r' es).
Proof.
  intros Hi Hk. eapply wp_mono; [apply blooms_doMaintenance_wp; [done|by apply (rinv_keyed c)|apply Hi|]|].
  - by rewrite (fo_blooms_dom _ _ _ _ _ _ _ _ _ _ Hi).
  - intros _ r' es (Hs & Hes). pose proof (rinv_blooms_step c _ _ Hi Hs) as Hi'.
    destruct Hs as (m & -> & _). split; try done.
    eapply Forall_impl; [exact Hes|]. intros e (p & b & -> & Hp & _). done.
Qed.

Lemma doMaintenance_wp `{!Ed25519Laws} r :
  core_ok -> rinv c r -> 0 <= self_seq r < max_u64 ->
  wp (doMaintenance c) r (fun _ r' es => safe r r' es).
Proof.
  intros Hc Hi Hseq. unfold doMaintenance. apply wp_bind, wp_gets.
  destruct (r_mainTimer r) as [t|]; [|by apply wp_ret].
  apply wp_bind, wp_modify, wp_bind. unfold resetCache at 1. apply wp_modify.
  match goal with |- wp _ ?x _ => set (r1 := x) end.
  assert (rinv c r1) as Hi1.
  { destruct Hi. split; try done. simpl. destruct fo_root0 as [?| ->]; [by left|by right]. }
  assert (safe r r1 []) as Hs1 by done.
  assert (0 <= self_seq r1 < max_u64) as Hseq1 by done. clearbody r1.
  apply (wp_quiet_then c); [by apply updateAncestries_quiet|]. intros _ r2 es2 Hq2.
  assert (self_seq r2 = self_seq r1) as Eseq by (unfold self_seq, info_of; by rewrite (qu_infos _ _ _ _ Hq2)).
  apply wp_bind. eapply wp_mono; [apply fix_wp; [done|apply Hq2|by rewrite Eseq]|].
  intros _ r3 es3 [Hs3 Hk3]. apply (wp_quiet_then c); [apply sendAnnounces_quiet, Hs3|].
  intros _ r4 es4 Hq4. apply (wp_quiet_then c).
  { apply blooms_maintenance_quiet; [apply Hq4|]. by rewrite (qu_infos _ _ _ _ Hq4). }
  intros _ r5 es5 Hq5. apply wp_emit.
  apply (safe_trans _ _ _ [] _ Hs1). apply (safe_trans _ _ _ _ _ (quiet_safe _ _ _ Hq2)).
  apply (safe_trans _ _ _ _ _ Hs3). apply (safe_trans _ _ _ _ _ (quiet_safe _ _ _ Hq4)).
  apply (safe_trans _ _ _ _ _ (quiet_safe _ _ _ Hq5)). split; [apply Hq5|].
  split; [done|by repeat constructor].
Qed.

(** ** Peers coming and going *)

Lemma sendBloom_wp p r : rinv c r -> is_peer r p ->
  wp (sendBloom p) r (fun _ r' es => r' = r /\ Forall (sends_to_peers r) es).
Proof.
  intros Hi Hp. unfold sendBloom. apply wp_bind, wp_gets.
  assert (p_key p ∈ dom (r_blooms r)) as [pbi ->]%elem_of_dom.
  { rewrite (fo_blooms_dom _ _ _ _ _ _ _ _ _ _ Hi). apply elem_of_dom.
    destruct Hp as (ps & ? & _). eauto. }
  apply wp_emit. split; [done|by repeat constructor].
Qed.

Lemma fields_ok_add peers sent infos cache pen lags blooms paths d2 p pbi :
  fields_ok c peers sent infos cache pen lags blooms paths d2 ->
  peers !! p_key p = None -> bloom_ok (bi_send pbi) -> bloom_ok (bi_recv pbi) ->
  fields_ok c (alter (fun ps => {[p]} ∪ ps) (p_key p) (<[p_key p := ∅]> peers))
    (<[p_key p := ∅]> sent) infos cache pen lags (<[p_key p := pbi]> blooms) paths d2.
Proof.
  intros [] Hn H1' H2'. rewrite alter_insert_eq.
  split; try done; rewrite ?dom_insert_L; try congruence.
  - apply map_Forall_insert_2; [|done]. split; [set_solver|]. set_solver.
  - by apply map_Forall_insert_2.
  - by apply map_Forall_insert_2.
Qed.

Lemma fields_ok_link peers sent infos cache pen lags blooms paths d2 p ps :
  fields_ok c peers sent infos cache pen lags blooms paths d2 ->
  peers !! p_key p = Some ps ->
  fields_ok c (alter (fun ps => {[p]} ∪ ps) (p_key p) peers) sent infos cache pen lags blooms
    paths d2.
Proof.
  intros [] Hps. split; try done; rewrite ?dom_alter_L; try done.
  intros k s. destruct (decide (k = p_key p)) as [->|Hne].
  - rewrite lookup_alter_eq, Hps. intros [= <-]. destruct (fo_keyed0 _ _ Hps). set_solver.
  - rewrite lookup_alter_ne by done. apply fo_keyed0.
Qed.

(** The second half of [addPeer], once the link is registered. *)
Lemma addPeer_tail_wp p r : rinv c r -> is_peer r p ->
  wp (_ ← modify (set_r_lags (<[p := routerUnknownLatency]>));
      hasReq ← gets (fun r => bool_decide (is_Some (r_requests r !! p_key p)));
      _ ← (if negb hasReq then
             req ← newReq c;
             modify (set_r_requests (<[p_key p := req]>))
           else ret tt);
      req ← gets (fun r => default zero_req (r_requests r !! p_key p));
      _ ← modify (set_r_responded (fun s => s ∖ {[p]}));
      _ ← emit (ESendSigReq p req);
      sendBloom p) r (fun _ r' es => safe r r' es /\ is_peer r' p).
Proof.
  intros Hi Hp. apply wp_bind, wp_modify, wp_bind, wp_gets. simpl.
  set (r1 := set_r_lags _ r). assert (rinv c r1) as Hi1 by (by apply rinv_lags).
  assert (is_peer r1 p) as Hp1 by done. change (safe r) with (safe r1).
  clearbody r1. apply wp_bind.
  apply wp_mono with (P := fun _ r' es => quiet c r1 r' es).
  { case_match; [|by apply wp_ret, quiet_refl].
    apply (wp_quiet_seq c); [by apply newReq_quiet|]. intros req r2 es2 [Hi2 _ _ _ _].
    apply wp_modify. by split. }
  intros _ r2 es2 Hq2. apply wp_bind, wp_gets, wp_bind, wp_modify, wp_bind, wp_emit. simpl.
  set (r3 := set_r_responded _ r2). assert (quiet c r1 r3 es2) as [Hi3 Hpe3 _ _ Hs3].
  { destruct Hq2. by split. }
  assert (is_peer r3 p) as Hp3 by (destruct Hp1 as (ps & ? & ?); exists ps; by rewrite Hpe3).
  clearbody r3. eapply wp_mono; [by apply sendBloom_wp|].
  intros _ r4 es4 [-> Hes4]. split; [|done]. split_and!; [done|done|].
  apply Forall_app. split; [done|]. constructor; [done|].
  eapply Forall_impl; [exact Hes4|]. intros e. by apply sends_same_peers.
Qed.

Lemma addPeer_wp p r : rinv c r ->
  wp (addPeer c p) r (fun _ r' es => rinv c r' /\ is_peer r' p /\ Forall (sends_to_peers r') es).
Proof.
  intros Hi. unfold addPeer. apply wp_bind, wp_gets, wp_bind.
  set (f := alter (fun ps : gset peer => {[p]} ∪ ps) (p_key p)).
  apply wp_mono with (P := fun _ r' es => rinv c (set_r_peers f r') /\
    is_peer (set_r_peers f r') p /\ Forall (sends_to_peers (set_r_peers f r')) es).
  - destruct (r_peers r !! p_key p) as [ps|] eqn:E.
    + assert (is_peer (set_r_peers f r) p) as Hp.
      { exists ({[p]} ∪ ps). simpl. unfold f. rewrite lookup_alter_eq, E. split; [done|]. set_solver. }
      assert (rinv c (set_r_peers f r)) as Hi' by by eapply fields_ok_link.
      eapply wp_mono; [apply (act_range_set_wp _ _ (fun r' => r' = r)
        (sends_to_peers (set_r_peers f r)))|].
      * done.
      * intros k r' Hk ->. apply wp_bind, wp_gets.
        assert (is_Some (r_infos r !! k)) as [info ->].
        { destruct (r_sent r !! p_key p) as [s|] eqn:Es; [|by apply not_elem_of_empty in Hk].
          apply elem_of_dom. by apply (fo_sent _ _ _ _ _ _ _ _ _ _ Hi _ _ Es). }
        apply wp_emit. split; [done|by repeat constructor].
      * intros _ r' es [-> Hes]. done.
    + unfold addInfo. apply wp_bind, wp_modify, wp_bind, wp_modify, wp_bind, wp_modify, wp_modify.
      split_and!; [|eexists; simpl; unfold f; rewrite alter_insert_eq, lookup_insert_eq; split; [done|]; set_solver|done].
      apply (fields_ok_add _ _ _ _ _ _ _ _ _ _ _ Hi); [done|apply bloom_ok_new..].
  - intros _ r1 es1 (Hi1 & Hp1 & Hes1). apply wp_bind, wp_modify.
    eapply wp_mono; [by apply addPeer_tail_wp|].
    intros _ r2 es2 [(Hi2 & Hpe2 & Hes2) Hp2]. split_and!; [done|done|].
    simpl. apply Forall_app. split; (eapply Forall_impl; [eassumption|]);
      intros e; by apply sends_same_peers.
Qed.

Lemma fields_ok_unlink peers sent infos cache pen lags blooms paths d2 p ps :
  fields_ok c peers sent infos cache pen lags blooms paths d2 ->
  peers !! p_key p = Some ps -> ps ∖ {[p]} <> ∅ ->
  fields_ok c (alter (fun ps => ps ∖ {[p]}) (p_key p) peers) sent infos cache pen (delete p lags)
    blooms paths d2.
Proof.
  intros [] Hps Hne. split; try done; rewrite ?dom_alter_L; try done.
  - intros k s. destruct (decide (k = p_key p)) as [->|Hk].
    + rewrite lookup_alter_eq, Hps. intros [= <-]. destruct (fo_keyed0 _ _ Hps) as [_ Hks].
      split; [done|]. intros p' Hp'. apply Hks. set_solver.
    + rewrite lookup_alter_ne by done. apply fo_keyed0.
  - by apply map_Forall_delete.
Qed.

Lemma fields_ok_remove peers sent infos cache pen lags blooms paths d2 p f :
  fields_ok c peers sent infos cache pen lags blooms paths d2 ->
  fields_ok c (delete (p_key p) (alter f (p_key p) peers)) (delete (p_key p) sent) infos
    (delete (p_key p) cache) pen (delete p lags) (delete (p_key p) blooms) paths d2.
Proof.
  intros []. rewrite delete_alter_eq.
  split; try done; rewrite ?dom_delete_L; try congruence; by apply map_Forall_delete.
Qed.

Lemma recordDisconnect_wp p r :
  penalties_ok r -> map_Forall (fun _ lag => is_i64 lag) (r_lags r) ->
  wp (recordDisconnect p) r (fun _ r' es => es = [] /\ penalties_ok r' /\
    exists m, r' = with_penalties m r).
Proof.
  intros Hp Hl. unfold recordDisconnect. apply wp_bind, wp_gets.
  assert (exists m, r = with_penalties m r) as Hr.
  { exists (r_penalties r). by rewrite with_penalties_id. }
  destruct (r_lags r !! p) as [lag|] eqn:E; [|by apply wp_ret].
  case_match; [by apply wp_ret|].
  eapply wp_mono; [apply addPenalty_wp; [done|]|by intros ? ? ? (-> & ? & _ & ?)].
  apply Z.max_lub_lt; [done|]. apply Milliseconds_bound. exact (Hl p lag E).
Qed.

Lemma removePeer_wp p r : rinv c r ->
  wp (removePeer p) r (fun _ r' es => rinv c r' /\ Forall (sends_to_peers r') es).
Proof.
  intros Hi. unfold removePeer. apply wp_bind, wp_modify, wp_bind. simpl.
  eapply wp_mono; [apply recordDisconnect_wp; apply Hi|].
  intros _ r1 es1 (-> & Hpen & m & ->). apply wp_bind, wp_modify, wp_bind, wp_modify, wp_bind, wp_gets.
  unfold links_of. simpl (r_peers _).
  set (ps := default ∅ (alter _ (p_key p) (r_peers r) !! p_key p)).
  case_bool_decide as He.
  - unfold removeInfo. do 8 apply wp_bind, wp_modify. apply wp_modify. split; [|done].
    assert (rinv c (with_penalties m r)) as Hi' by by apply rinv_penalties.
    apply (fields_ok_remove _ _ _ _ _ _ _ _ _ p _ Hi').
  - assert (exists ps0, r_peers r !! p_key p = Some ps0 /\ ps = ps0 ∖ {[p]}) as (ps0 & E & Eps).
    { unfold ps in *. rewrite lookup_alter_eq in *. destruct (r_peers r !! p_key p) as [ps0|]; [|done].
      by exists ps0. }
    match goal with |- wp _ ?x _ => set (r1 := x) end.
    assert (rinv c r1) as Hi1.
    { assert (rinv c (with_penalties m r)) as Hi' by by apply rinv_penalties.
      apply (fields_ok_unlink _ _ _ _ _ _ _ _ _ p ps0 Hi' E). congruence. }
    eapply wp_mono; [apply (act_range_set_wp _ _ (fun r' => r' = r1) (sends_to_peers r1))|].
    + done.
    + intros p' r' Hp' ->. apply sendBloom_wp; [done|].
      destruct (fo_keyed _ _ _ _ _ _ _ _ _ _ Hi _ _ E) as [_ Hk].
      assert (p_key p' = p_key p) as Ek by (apply Hk; set_solver).
      exists ps. rewrite Ek. simpl. rewrite lookup_alter_eq, E. simpl. by rewrite Eps in Hp' |- *.
    + intros _ r' es [-> Hes]. done.
Qed.

(** ** The rest of the handlers *)

Lemma handleResponse_wp p res rtt r : rinv c r ->
  wp (handleResponse p res rtt) r (fun _ r' es => safe r r' es /\ es = []).
Proof.
  intros Hi. unfold handleResponse. apply wp_bind, wp_gets, wp_bind, wp_gets, wp_bind. simpl.
  apply wp_mono with (P := fun _ r' es => safe r r' es /\ es = [] /\ r_responded r' = r_responded r /\
    r_lags r' = r_lags r).
  { case_match; [|by apply wp_ret].
    apply wp_bind, wp_gets, wp_bind, wp_modify, wp_bind, wp_modify, wp_modify. done. }
  intros _ r1 es1 ((Hi1 & Hp1 & _) & -> & _ & _). apply wp_bind, wp_gets. simpl.
  case_match; [|by apply wp_ret]. apply wp_bind, wp_modify, wp_bind, wp_gets, wp_modify.
  split; [|done]. split; [|done]. apply rinv_lags; [done|].
  unfold update_lag. case_match; apply i64_range.
Qed.

Lemma pf_step_safe (m : R unit) r : rinv c r ->
  (pf_inv r -> wp m r (fun _ r' es => pf_step r r' es)) -> wp m r (fun _ r' es => safe r r' es).
Proof.
  intros Hi Hm. eapply wp_mono; [by apply Hm, (rinv_pf c)|].
  intros _ r' es (Hpi & Hf & _ & Hs). split; [by eapply rinv_pf_frame|]. split; [|done].
  by destruct Hf as (? & ? & ? & ? & ? & ? & ->).
Qed.

Lemma handleTraffic_pf tr r : pf_inv r ->
  wp (handleTraffic c tr) r (fun _ r' es => pf_step r r' es).
Proof.
  intros Hi. unfold handleTraffic. eapply wp_pf_bind; [by apply lookup_pf|].
  intros [p wm] r1 Hi1 (_ & _ & Hp). simpl in Hp. destruct p as [p|].
  { apply wp_emit, pf_step_emit; [done|]. by apply Hp. }
  case_bool_decide.
  - apply (wp_pf_bind _ _ _ (fun _ _ => True)).
    + eapply wp_mono; [by apply resetTimeout_pf|]. done.
    + intros _ r2 Hi2 _. by apply wp_emit, pf_step_emit.
  - by apply handleBroken_pf.
Qed.

Lemma handleBloom_safe p b r : rinv c r -> bloom_ok b ->
  wp (handleBloom p b) r (fun _ r' es => safe r r' es).
Proof.
  intros Hi Hb. eapply wp_mono; [apply handleBloom_wp; [apply Hi|done]|].
  intros _ r' es [Hs ->]. split; [by eapply rinv_blooms_step|]. split; [|done].
  by destruct Hs as (m & -> & _).
Qed.

(** What the program guarantees of an event: a peer's messages are handled
    between its [addPeer] and its [removePeer]; filters come out of
    [bloom.decode]; the timeout of an info is never started for our own key. *)
Definition event_ok (r : router) (ev : event) : Prop :=
  match ev with
  | EvRequest p _ | EvAnnounce p _ => is_peer r p
  | EvBloom _ b => bloom_ok b
  | EvTimer (TInfoTimeout key) _ => key <> selfKey c
  | EvTimer TMaintenance _ => 0 <= self_seq r < max_u64
  | _ => True
  end.

(** What a step does to the links: only [EvAddPeer] and [EvRemovePeer] change them. *)
Definition stepped (ev : event) (r r' : router) (es : list effect) : Prop :=
  rinv c r' /\ Forall (fun e => sends_to_peers r e \/ sends_to_peers r' e) es /\
  match ev with
  | EvAddPeer p => is_peer r' p
  | EvRemovePeer _ => True
  | _ => r_peers r' = r_peers r
  end.

Lemma step_wp `{!Ed25519Laws} ev r :
  core_ok -> rinv c r -> event_ok r ev ->
  wp (step c ev) r (fun _ r' es => stepped ev r r' es).
Proof.
  intros Hc Hi Hev. unfold stepped.
  assert ((forall p, ev <> EvAddPeer p) -> forall m : R unit,
    wp m r (fun _ r' es => safe r r' es) -> wp m r (fun _ r' es => stepped ev r r' es)) as Hsafe.
  { unfold stepped. intros Hev' m Hm. eapply wp_mono; [exact Hm|]. intros ? r' es (? & Hp & Hes).
    split_and!; [done| |by destruct ev; first [done|by destruct (Hev' p eq_refl)]].
    eapply Forall_impl; [exact Hes|]. by left. }
  assert (forall m : R unit, (pf_inv r -> wp m r (fun _ r' es => pf_inv r' /\ pf_frame r r' /\
    Forall (sends_to_peers r) es)) -> wp m r (fun _ r' es => safe r r' es)) as Hpf.
  { intros m Hm. eapply wp_mono; [by apply Hm, (rinv_pf c)|].
    intros ? r' es (? & Hf & Hes). split; [by eapply rinv_pf_frame|]. split; [|done].
    by destruct Hf as (? & ? & ? & ? & ? & ? & ->). }
  destruct ev; simpl in *.
  - eapply wp_mono; [by apply addPeer_wp|]. intros _ r' es (? & ? & Hes). split_and!; [done| |done].
    eapply Forall_impl; [exact Hes|]. by right.
  - eapply wp_mono; [by apply removePeer_wp|]. intros _ r' es (? & Hes). split_and!; [done| |done].
    eapply Forall_impl; [exact Hes|]. by right.
  - apply wp_emit. split_and!; [done| |done]. constructor; [by left|done].
  - apply Hsafe; [done|]. eapply wp_mono; [by apply handleResponse_wp|]. by intros ? ? ? [? _].
  - apply Hsafe; [done|]. by apply handleAnnounce_wp.
  - apply Hsafe; [done|]. by apply handleBloom_safe.
  - apply Hsafe; [done|]. apply pf_step_safe; [done|]. apply handleLookup_from_pf.
  - apply Hsafe; [done|]. apply pf_step_safe; [done|]. apply handleNotify_pf, pf_known.
  - apply Hsafe; [done|]. apply pf_step_safe; [done|]. apply handleBroken_pf.
  - apply Hsafe; [done|]. apply pf_step_safe; [done|]. apply handleTraffic_pf.
  - apply Hsafe; [done|]. apply pf_step_safe; [done|]. apply (pf_handleTraffic_fuel_pf c 0).
  - apply Hsafe; [done|]. destruct what; simpl.
    + unfold refresh_timer. apply wp_bind, wp_gets. case_match; [apply wp_modify|apply wp_ret]; done.
    + by apply info_timeout_wp.
    + apply Hpf, path_timeout_wp.
    + apply Hpf, rumor_timeout_wp.
    + by apply doMaintenance_wp.
  - apply Hsafe; [done|]. unfold shutdown. apply wp_bind, wp_gets. destruct (r_mainTimer r); [|by apply wp_ret].
    apply wp_bind, wp_emit, wp_modify. split; [done|split; [done|by repeat constructor]].
  - apply Hsafe; [done|]. apply wp_modify. done.
Qed.
End handlers.

(** ** Runs *)

Section runs.
Context `{Ed25519} `{BloomHash} `{MapOrder} (c : core).

Fixpoint run (evs : list event) (r : router) : option (router * list effect) :=
  match evs with
  | [] => Some (r, [])
  | ev :: evs =>
      match step c ev r with
      | None => None
      | Some (_, r1, es1) =>
          match run evs r1 with
          | None => None
          | Some (r2, es2) => Some (r2, es1 ++ es2)
          end
      end
  end.

(** Each event is one the program can deliver in the state it meets. *)
Fixpoint events_ok (evs : list event) (r : router) : Prop :=
  match evs with
  | [] => True
  | ev :: evs => event_ok c r ev /\
      match step c ev r with None => True | Some (_, r1, _) => events_ok evs r1 end
  end.

(** The state a node starts from, [init] having run. *)
Definition start (e : env) : router :=
  match router_init c (router_zero e) with Some (_, r, _) => r | None => router_zero e end.

Lemma start_rinv e : rinv c (start e).
Proof. split; try done; by right. Qed.

Lemma run_safe evs : forall r, core_ok c -> Ed25519Laws -> rinv c r -> events_ok evs r ->
  exists r' es, run evs r = Some (r', es) /\ rinv c r'.
Proof.
  induction evs as [|ev evs IH]; intros r Hc HE Hi Hok; simpl; [by exists r, []|].
  destruct Hok as [Hev Hok]. pose proof (step_wp c ev r Hc Hi Hev) as Hw. unfold wp in Hw.
  destruct (step c ev r) as [[[[] r1] es1]|]; [|done]. destruct Hw as [Hi1 _].
  destruct (IH r1 Hc HE Hi1 Hok) as (r2 & es2 & -> & Hi2). by exists r2, (es1 ++ es2).
Qed.
End runs.

(** ** A concrete node for the witnesses *)

Definition toy_hash : BloomHash := {|
  baseHashes := fun data => let v := fold_left (fun a b => a * 7 + b2z b) data 1 in
                            (u64 v, u64 (v * 3), u64 (v * 5), u64 (v * 11))
|}.

Definition sample_key (b : byte) : publicKey := array_of 32 [b].
Definition sample_core (b : byte) : core :=
  MkCore configDefaults (@crypto_init toy_ed25519 (array_of 64 (replicate 32 Byte.x00 ++ [b]))).
Definition sample_peer : peer := MkPeer (sample_key Byte.x02) "tcp" 1 0 0.
Definition sample_start : router := @start toy_ed25519 (sample_core Byte.x05) (MkEnv 0 [11; 12; 13; 14] 0).

(** A peer connects, answers our request, and becomes our parent. *)
Definition sample_events : list event := [
  EvTimer TMaintenance 0;
  EvAddPeer sample_peer;
  EvAnnounce sample_peer {| ann_key := sample_key Byte.x02; ann_parent := sample_key Byte.x02;
    ann_res := MkSigRes (MkSigReq 1 7) 0 (zero_array 64); ann_sig := zero_array 64 |};
  EvResponse sample_peer (MkSigRes (MkSigReq 2 12) 3 (zero_array 64)) 1000000;
  EvTimer TMaintenance 0;
  EvTimer TMaintenance 0
].

Lemma sample_core_ok b : @core_ok toy_ed25519 (sample_core b).
Proof.
  split; [exact I|]. destruct b; apply array_eq; vm_compute; reflexivity.
Qed.

#[global] Instance is_peer_dec r p : Decision (is_peer r p).
Proof.
  unfold is_peer. destruct (r_peers r !! p_key p) as [ps|] eqn:E.
  - destruct (decide (p ∈ ps)); [left; by exists ps|right]. intros (ps' & [= <-] & ?). done.
  - right. by intros (? & ? & _).
Defined.

#[global] Instance event_ok_dec `{Ed25519} c r ev : Decision (event_ok c r ev).
Proof. destruct ev; try apply _. destruct what; apply _. Defined.

#[global] Instance events_ok_dec `{Ed25519} `{BloomHash} `{MapOrder} c evs : forall r,
  Decision (events_ok c evs r).
Proof.
  induction evs as [|ev evs IH]; intros r; simpl; [apply _|].
  apply and_dec; [apply _|]. destruct (step c ev r) as [[[? r1] ?]|]; [apply IH|apply _].
Defined.

(** ** Theorems *)

(** C1: started by [init] and given any sequence of messages the program can deliver, the
    router's actor handles all of them: no handler reaches a
    [panic("this should never happen")], writes to a missing map, indexes a missing entry or
    recurses without end, and the invariant holds after each message. *)
Theorem router_never_panics `{Ed25519} `{BloomHash} `{MapOrder} c e evs :
  core_ok c -> Ed25519Laws -> events_ok c evs (start c e) ->
  exists r es, run c evs (start c e) = Some (r, es) /\ rinv c r.
Proof. intros Hc HE Hok. apply run_safe; [done|done|apply start_rinv|done]. Qed.

Lemma router_never_panics_witness :
  let c := sample_core Byte.x05 in
  exists r es, @run toy_ed25519 toy_hash trie_order c sample_events sample_start = Some (r, es) /\
    rinv c r.
Proof.
  apply (@router_never_panics toy_ed25519 toy_hash trie_order (sample_core Byte.x05)
    (MkEnv 0 [11; 12; 13; 14] 0%nat) sample_events).
  - apply sample_core_ok.
  - apply toy_ed25519_laws.
  - apply (bool_decide_unpack _). vm_compute. exact I.
Defined.

(** C7: every handler of the router's actor, run in a state that satisfies the invariant and for
    a message the program can deliver there, completes without a panic, keeps the invariant
    (the peer, sent and filter maps have the same keys, every key marked as sent has an info,
    the path cache agrees with the infos, we know our own info or are about to become root),
    and sends messages only to connected peers. *)
Theorem handler_keeps_invariant `{Ed25519} `{BloomHash} `{MapOrder} c ev r :
  Ed25519Laws -> core_ok c -> rinv c r -> event_ok c r ev ->
  exists r' es, step c ev r = Some (tt, r', es) /\ rinv c r' /\
    Forall (fun e => sends_to_peers r e \/ sends_to_peers r' e) es.
Proof.
  intros HE Hc Hi Hev. pose proof (step_wp c ev r Hc Hi Hev) as Hw. unfold wp in Hw.
  destruct (step c ev r) as [[[[] r'] es]|]; [|done]. destruct Hw as (? & ? & _). by exists r', es.
Qed.

Lemma handler_keeps_invariant_witness :
  let c := sample_core Byte.x05 in
  exists r' es, @step toy_ed25519 toy_hash trie_order c (EvAddPeer sample_peer) sample_start
      = Some (tt, r', es) /\ rinv c r' /\
    Forall (fun e => sends_to_peers sample_start e \/ sends_to_peers r' e) es.
Proof.
  apply (@handler_keeps_invariant toy_ed25519 toy_hash trie_order (sample_core Byte.x05)
    (EvAddPeer sample_peer) sample_start toy_ed25519_laws).
  - apply sample_core_ok.
  - apply start_rinv.
  - exact I.
Defined.
