(* ===== verification/RouterAnnounce.v ===== *)
(** * Announcements

    What [_update] and [_handleAnnounce] of [ironwood/network/router.go] do to
    the infos: the order that decides which announcement is kept, that every
    order of arrival leads to the same result, and what happens when two
    announcements tie. *)

From S2P Require Import Prelude Crypto Wire Messages Bloom RouterState RouterTree RouterCost RouterLookup Blooms Pathfinder Router RouterInv.

(** ** The order on announcements *)

Abbreviation rank := (Z * publicKey * Z)%type.
Definition rank_of (i : routerInfo) : rank := (info_seq i, info_parent i, info_nonce i).

(** [x] wins over [y]: later sequence number, then lower parent, then lower nonce. *)
Definition wins (x y : rank) : bool :=
  let '(sx, px, nx) := x in let '(sy, py, ny) := y in
  (sy <? sx) || (sy =? sx) && (less px py || bool_decide (px = py) && (nx <? ny)).

Lemma better_wins i j : better i j = wins (rank_of i) (rank_of j).
Proof. done. Qed.

Lemma wins_spec x y : wins x y = true <->
  let '(sx, px, nx) := x in let '(sy, py, ny) := y in
  sy < sx \/ sy = sx /\ (less px py = true \/ px = py /\ nx < ny).
Proof.
  destruct x as [[sx px] nx], y as [[sy py] ny]. unfold wins.
  rewrite orb_true_iff, andb_true_iff, orb_true_iff, andb_true_iff, bool_decide_eq_true.
  rewrite !Z.ltb_lt, Z.eqb_eq. done.
Qed.

Lemma wins_irrefl x : wins x x = false.
Proof.
  apply not_true_iff_false. rewrite wins_spec. destruct x as [[s p] n].
  intros [?|[_ [Hp|[_ ?]]]]; [lia| |lia]. by rewrite less_irrefl in Hp.
Qed.

Lemma wins_trans x y z : wins x y = true -> wins y z = true -> wins x z = true.
Proof.
  rewrite !wins_spec. destruct x as [[s p] n], y as [[s' p'] n'], z as [[s'' p''] n''].
  intros [?|[-> [Hp|[-> ?]]]] [?|[? [Hp'|[? ?]]]]; subst; try (left; lia);
    right; (split; [done|]); [left; by eapply less_trans|by left|by left|right; split; [done|lia]].
Qed.

Lemma wins_total x y : wins x y = false -> wins y x = false -> x = y.
Proof.
  rewrite <- !not_true_iff_false, !wins_spec.
  destruct x as [[s p] n], y as [[s' p'] n']. intros H1 H2.
  assert (s = s') as -> by lia.
  assert (p = p') as ->.
  { apply less_total; apply not_true_iff_false; intros Hl; [apply H1|apply H2]; auto. }
  destruct (Z.lt_trichotomy n n') as [?|[->|?]]; [|done|]; [destruct H1|destruct H2]; auto.
Qed.

(** The winner among some infos: one of them that none of them beats. *)
Definition winner (l : list routerInfo) (o : option routerInfo) : Prop :=
  match o with
  | None => l = []
  | Some i => i ∈ l /\ forall j, j ∈ l -> wins (rank_of j) (rank_of i) = false
  end.

#[global] Instance winner_proper : Proper ((≡ₚ) ==> (=) ==> iff) winner.
Proof.
  intros l l' Hp o ? <-. destruct o as [i|]; simpl.
  - setoid_rewrite Hp. done.
  - by rewrite <- !length_zero_iff_nil, Hp.
Qed.

#[global] Arguments wins : simpl never.

(** Winners of the same infos have the same rank. *)
Lemma winner_rank l o o' : winner l o -> winner l o' -> rank_of <$> o = rank_of <$> o'.
Proof.
  destruct o as [i|], o' as [j|]; simpl; try done.
  - intros [Hi Hwi] [Hj Hwj]. f_equal. by apply wins_total; [apply Hwj|apply Hwi].
  - intros [Hi _] ->. by apply not_elem_of_nil in Hi.
  - intros -> [Hj _]. by apply not_elem_of_nil in Hj.
Qed.

(** One more info. *)
Lemma winner_next l o i : winner l o -> winner (l ++ [i]) (if improves i o then Some i else o).
Proof.
  destruct o as [j|]; cbn [winner improves].
  - rewrite better_wins. intros [Hj Hw]. destruct (wins (rank_of i) (rank_of j)) eqn:E; cbn [winner].
    + split; [set_solver|]. intros k [Hk| ->%list_elem_of_singleton]%elem_of_app; [|apply wins_irrefl].
      apply not_true_iff_false. intros Hki. pose proof (wins_trans _ _ _ Hki E) as Hkj. by rewrite Hw in Hkj.
    + split; [set_solver|]. intros k [Hk| ->%list_elem_of_singleton]%elem_of_app; [by apply Hw|done].
  - intros ->. split; [set_solver|]. intros k ->%list_elem_of_singleton. apply wins_irrefl.
Qed.

Section announce.
Context (c : core).

(** ** [_update] in full *)

Definition update_state (ann : routerAnnounce) (r : router) : router :=
  let t := env_timer (r_env r) in
  set_r_infos (<[ann_key ann := info_of_announce ann]>)
    (set_r_timers (<[ann_key ann := t]>)
      (set_r_env (fun e => MkEnv (env_now e) (env_random e) (S t))
        (set_r_cache (fun _ => ∅)
          (set_r_sent (fmap (fun sent => sent ∖ {[ann_key ann]})) r)))).

Definition update_effects (ann : routerAnnounce) (r : router) : list effect :=
  let t := env_timer (r_env r) in
  (if bool_decide (ann_key ann = selfKey c)
   then EAfterFunc t (routerRefresh (core_config c)) (TRefresh (ann_key ann))
   else EAfterFunc t (routerTimeout (core_config c)) (TInfoTimeout (ann_key ann))) ::
  match r_timers r !! ann_key ann with Some old => [EStopTimer old] | None => [] end.

Lemma update_eq ann r :
  update c ann r =
    if improves (info_of_announce ann) (r_infos r !! ann_key ann)
    then Some (true, update_state ann r, update_effects ann r)
    else Some (false, r, []).
Proof.
  unfold update, mbind, act_bind, act_gets at 1.
  set (known := match r_infos r !! ann_key ann with None => false | Some _ => _ end).
  assert (known = negb (improves (info_of_announce ann) (r_infos r !! ann_key ann))) as ->.
  { unfold known. destruct (r_infos r !! ann_key ann); [apply update_known_eq|done]. }
  destruct (improves _ _); cbn [negb]; [|done].
  unfold update_effects, update_state. case_bool_decide; simpl;
    destruct (r_timers r !! ann_key ann); done.
Qed.

(** Handling announcements one after the other. *)
Definition absorb (ann : routerAnnounce) : R unit := _ ← update c ann; ret tt.

Lemma absorb_eq ann r :
  exists es, absorb ann r =
    Some (tt, if improves (info_of_announce ann) (r_infos r !! ann_key ann)
              then update_state ann r else r, es).
Proof.
  unfold absorb, mbind, act_bind. rewrite update_eq. destruct (improves _ _); by eexists.
Qed.

(** What the announcements say of a key. *)
Definition said_of (k : publicKey) (anns : list routerAnnounce) : list routerInfo :=
  map info_of_announce (base.filter (fun ann => ann_key ann = k) anns).

(** The infos after a list of announcements, whatever else happens. *)
Lemma updates_winner anns : forall r (l : publicKey -> list routerInfo),
  (forall k, winner (l k) (r_infos r !! k)) ->
  exists r' es, act_for anns absorb r = Some (tt, r', es) /\
    forall k, winner (l k ++ said_of k anns) (r_infos r' !! k).
Proof.
  induction anns as [|ann anns IH]; intros r l Hl; simpl.
  { exists r, []. split; [done|]. intros k. by rewrite app_nil_r. }
  unfold mbind, act_bind. destruct (absorb_eq ann r) as [es1 ->].
  set (i := info_of_announce ann). set (r1 := if improves _ _ then _ else _).
  destruct (IH r1 (fun k => l k ++ said_of k [ann])) as (r' & es & -> & Hr).
  - intros k. unfold said_of. rewrite filter_cons, filter_nil. destruct (decide (ann_key ann = k)) as [<-|Hne]; simpl.
    + replace (r_infos r1 !! ann_key ann) with (if improves i (r_infos r !! ann_key ann) then Some i else r_infos r !! ann_key ann);
        [by apply winner_next|].
      unfold r1. fold i. destruct (improves i _); simpl; [by rewrite lookup_insert_eq|done].
    + rewrite app_nil_r. replace (r_infos r1 !! k) with (r_infos r !! k); [done|].
      unfold r1. destruct (improves _ _); simpl; [by rewrite lookup_insert_ne|done].
  - eexists r', _. split; [done|]. intros k. specialize (Hr k). rewrite <- app_assoc in Hr.
    unfold said_of in *. rewrite <- map_app, <- filter_app in Hr. exact Hr.
Qed.

(** ** Ties *)

Lemma better_irrefl_rank i j : rank_of i = rank_of j -> better i j = false.
Proof. rewrite better_wins. intros ->. apply wins_irrefl. Qed.

(** A node that holds [old] and hears [new] of the same rank answers with [old]. *)
Lemma handleAnnounce_tie p k old new r :
  r_infos r !! k = Some old -> rank_of new = rank_of old -> new <> old ->
  is_Some (r_sent r !! p_key p) ->
  exists r', handleAnnounce c p (getAnnounce new k) r =
      Some (tt, r', [ESendAnnounce p (getAnnounce old k)]) /\
    r_infos r' = r_infos r /\ dom (r_sent r') = dom (r_sent r).
Proof.
  intros E Er Hne [s Es]. unfold handleAnnounce, mbind, act_bind. rewrite update_eq.
  rewrite info_of_getAnnounce. simpl (ann_key _). rewrite E. simpl (improves _ _).
  rewrite (better_irrefl_rank _ _ Er). unfold act_gets, info_of. rewrite E. simpl (default _ _).
  rewrite bool_decide_eq_false_2 by done. cbn [negb].
  unfold mark_sent, mbind, act_bind, act_gets. rewrite Es. unfold act_modify, act_emit.
  eexists. split; [reflexivity|]. split; [done|]. simpl. rewrite dom_insert_lookup_L by eauto. done.
Qed.

(** Two nodes talking to each other over one link: [n] announcements for [k]
    handled in turn, the first one at the first node. *)
Fixpoint exchange (n : nat) (p q : peer) (r1 r2 : router) (ann : routerAnnounce)
    : option routerAnnounce :=
  match n with
  | O => Some ann
  | S n' =>
      match handleAnnounce c p ann r1 with
      | Some (_, r1', [ESendAnnounce _ ann']) => exchange n' q p r2 r1' ann'
      | _ => None
      end
  end.

Lemma exchange_tie n : forall p q k i j r1 r2,
  rank_of i = rank_of j -> i <> j ->
  r_infos r1 !! k = Some i -> r_infos r2 !! k = Some j ->
  is_Some (r_sent r1 !! p_key p) -> is_Some (r_sent r2 !! p_key q) ->
  exists ann, exchange n p q r1 r2 (getAnnounce j k) = Some ann.
Proof.
  induction n as [|n IH]; intros p q k i j r1 r2 Er Hne E1 E2 Hs1 Hs2; simpl; [by eexists|].
  destruct (handleAnnounce_tie p k i j r1) as (r1' & -> & Ein & Ese); try done.
  apply (IH q p k j i); try done; [by rewrite Ein|].
  apply elem_of_dom. rewrite Ese. by apply elem_of_dom.
Qed.
End announce.

(** ** Theorems *)

(** [_update] accepts an announcement exactly when the key is unknown or the announcement has
    a later sequence number, the same and a lower parent, or the same two and a lower nonce;
    then it stores the info, forgets that it was sent to any peer, empties the path cache,
    replaces the key's timer and stops the old one; otherwise it changes nothing. *)
Theorem update_accepts c ann r :
  let i := info_of_announce ann in
  let accepted := match r_infos r !! ann_key ann with
                  | None => true
                  | Some old => wins (rank_of i) (rank_of old)
                  end in
  update c ann r =
    if accepted then Some (true, update_state ann r, update_effects c ann r)
    else Some (false, r, []).
Proof. apply (update_eq c). Qed.

(** C8: the order in which announcements arrive does not matter, and the best one is kept:
    handling the same announcements in any two orders leaves, for every key, one of the infos that
    were received or known before, which none of them beats: none has a later sequence number, nor
    the same and a lower parent, nor the same two and a lower nonce; so both orders leave infos
    with the same sequence number, parent and nonce, and a key that was announced is known. *)
Theorem updates_confluent c anns anns' r :
  anns ≡ₚ anns' ->
  exists r1 es1 r2 es2,
    act_for anns (absorb c) r = Some (tt, r1, es1) /\
    act_for anns' (absorb c) r = Some (tt, r2, es2) /\
    forall k, let infos := option_list (r_infos r !! k) ++ said_of k anns in
      winner infos (r_infos r1 !! k) /\ winner infos (r_infos r2 !! k) /\
      rank_of <$> r_infos r1 !! k = rank_of <$> r_infos r2 !! k.
Proof.
  intros Hp.
  assert (forall k, winner (option_list (r_infos r !! k)) (r_infos r !! k)) as H0.
  { intros k. destruct (r_infos r !! k) as [i|]; simpl; [|done]. split; [set_solver|].
    intros j ->%list_elem_of_singleton. apply wins_irrefl. }
  destruct (updates_winner c anns r _ H0) as (r1 & es1 & -> & H1').
  destruct (updates_winner c anns' r _ H0) as (r2 & es2 & -> & H2').
  exists r1, es1, r2, es2. split_and!; [done|done|]. intros k infos.
  assert (winner infos (r_infos r2 !! k)) as H2.
  { unfold infos, said_of. rewrite Hp. apply H2'. }
  split_and!; [apply H1'|done|]. exact (winner_rank infos _ _ (H1' k) H2).
Qed.

Definition sample_ann (parent : byte) (seq nonce port : Z) : routerAnnounce :=
  {| ann_key := sample_key Byte.x02; ann_parent := sample_key parent;
     ann_res := MkSigRes (MkSigReq seq nonce) port (zero_array 64); ann_sig := zero_array 64 |}.

Lemma updates_confluent_witness :
  let c := sample_core Byte.x05 in
  let l := [sample_ann Byte.x03 1 9 1; sample_ann Byte.x01 1 9 2; sample_ann Byte.x01 1 4 3] in
  exists r1 es1 r2 es2,
    act_for l (absorb c) sample_start = Some (tt, r1, es1) /\
    act_for (reverse l) (absorb c) sample_start
      = Some (tt, r2, es2) /\
    forall k, let infos := option_list (r_infos sample_start !! k) ++ said_of k l in
      winner infos (r_infos r1 !! k) /\ winner infos (r_infos r2 !! k) /\
      rank_of <$> r_infos r1 !! k = rank_of <$> r_infos r2 !! k.
Proof.
  apply (updates_confluent (sample_core Byte.x05)).
  symmetry. apply reverse_Permutation.
Defined.

(** Two nodes that hold different infos of equal rank for a key (the same sequence number,
    parent and nonce, but another port or signature) never settle: once one of them hears the
    other's announcement, each answers every announcement with its own, forever. *)
Theorem tied_infos_never_settle c n p q k i j r1 r2 :
  rank_of i = rank_of j -> i <> j ->
  r_infos r1 !! k = Some i -> r_infos r2 !! k = Some j ->
  is_Some (r_sent r1 !! p_key p) -> is_Some (r_sent r2 !! p_key q) ->
  exists ann, exchange c n p q r1 r2 (getAnnounce j k) = Some ann.
Proof. apply exchange_tie. Qed.

(** What a parent answers to a signature request passes the check of the node that asked, and
    the announcement the node makes of it passes the check every other node applies: request,
    response and announcement agree on keys, sequence number, nonce and port. *)
Theorem handshake_announces_validly `{Ed25519} c parent p req r r0 res :
  Ed25519Laws -> core_ok c -> core_ok parent -> p_key p = selfKey c -> p_port p <> 0 ->
  handleRequest parent p req r = Some (tt, r, [ESendSigRes p res]) ->
  res_req res = req /\ res_port res = p_port p /\
  routerSigRes_check res (selfKey c) (selfKey parent) = true /\
  exists ann, useResponse c (selfKey parent) res r0 = update c ann r0 /\
    ann_key ann = selfKey c /\ ann_parent ann = selfKey parent /\ ann_res ann = res /\
    routerAnnounce_check ann = true.
Proof.
  intros HE Hc Hp Hk Hport. unfold handleRequest, act_emit. rewrite Hk. intros [= <-].
  split_and!; [done|done| |].
  - unfold routerSigRes_check. rewrite (selfKey_ok parent Hp). apply verify_sign, Hp.
  - eexists. split_and!; [reflexivity|done|done|done|].
    unfold routerAnnounce_check, ann_port. simpl.
    rewrite (proj2 (Z.eqb_neq _ _) Hport). simpl. apply andb_true_iff. split.
    + rewrite (selfKey_ok c Hc) at 1. apply verify_sign, Hc.
    + rewrite (selfKey_ok parent Hp) at 1. apply verify_sign, Hp.
Qed.
