(* ===== verification/Frames.v ===== *)
(** * What a handler may change

    Partial-correctness rules for the actor monad of the prelude: [wlp] says
    how a step ends if it does not panic, and [along Rel m] that every step of
    [m] goes along a preorder on states. With [along], a property of two states
    that survives every assignment of a handler is proved for the handler by
    following its text; [same f] is the case of a field the handler leaves
    alone. *)

From S2P Require Import Prelude Crypto Wire Messages Bloom RouterState RouterTree RouterCost RouterLookup Blooms Pathfinder Router.

Definition wlp {S E A} (m : Act S E A) (s : S) (Q : A -> S -> Prop) : Prop :=
  match m s with
  | None => True
  | Some (a, s', _) => Q a s'
  end.

Section wlp_rules.
Context {St Ef : Type}.

Lemma wlp_ret {A} (a : A) (s : St) (Q : A -> St -> Prop) : Q a s -> wlp (E := Ef) (mret a) s Q.
Proof. done. Qed.
Lemma wlp_bind {A B} (m : Act St Ef A) (f : A -> Act St Ef B) s Q :
  wlp m s (fun a s1 => wlp (f a) s1 Q) -> wlp (m ≫= f) s Q.
Proof.
  unfold wlp, mbind, act_bind.
  destruct (m s) as [[[a s1] es1]|]; [|done]. by destruct (f a s1) as [[[b s2] es2]|].
Qed.
Lemma wlp_mono {A} (m : Act St Ef A) s (P Q : A -> St -> Prop) :
  wlp m s P -> (forall a s', P a s' -> Q a s') -> wlp m s Q.
Proof. unfold wlp. destruct (m s) as [[[a s1] es1]|]; auto. Qed.
Lemma wlp_gets {A} (f : St -> A) s (Q : A -> St -> Prop) : Q (f s) s -> wlp (E := Ef) (act_gets f) s Q.
Proof. done. Qed.
Lemma wlp_modify (f : St -> St) s (Q : unit -> St -> Prop) : Q tt (f s) -> wlp (E := Ef) (act_modify f) s Q.
Proof. done. Qed.
Lemma wlp_emit (e : Ef) s (Q : unit -> St -> Prop) : Q tt s -> wlp (act_emit e) s Q.
Proof. done. Qed.
Lemma wlp_panic {A} s (Q : A -> St -> Prop) : wlp (E := Ef) act_panic s Q.
Proof. done. Qed.
Lemma wlp_run {A} (m : Act St Ef A) s Q a s' es : wlp m s Q -> m s = Some (a, s', es) -> Q a s'.
Proof. unfold wlp. intros Hw E. by rewrite E in Hw. Qed.
End wlp_rules.

(** ** What a step emits *)

Section emits.
Context {St Ef : Type} (P : Ef -> Prop).

Definition emits {A} (m : Act St Ef A) : Prop :=
  forall s, match m s with None => True | Some (_, _, es) => Forall P es end.

Lemma emits_ret {A} (a : A) : emits (mret a).
Proof. intros s. constructor. Qed.
Lemma emits_bind {A B} (m : Act St Ef A) (f : A -> Act St Ef B) :
  emits m -> (forall a, emits (f a)) -> emits (m ≫= f).
Proof.
  intros Hm Hf s. specialize (Hm s). unfold mbind, act_bind.
  destruct (m s) as [[[a s1] es1]|]; [|done]. specialize (Hf a s1).
  destruct (f a s1) as [[[b s2] es2]|]; [|done]. by apply Forall_app.
Qed.
Lemma emits_gets {A} (f : St -> A) : emits (act_gets f).
Proof. intros s. constructor. Qed.
Lemma emits_modify f : emits (act_modify f).
Proof. intros s. constructor. Qed.
Lemma emits_emit e : P e -> emits (act_emit e).
Proof. intros He s. by constructor. Qed.
Lemma emits_panic {A} : emits (act_panic (A := A)).
Proof. by intros s. Qed.
Lemma emits_for {K} (l : list K) (f : K -> Act St Ef unit) : (forall k, emits (f k)) -> emits (act_for l f).
Proof. intros Hf. induction l as [|k l IH]; simpl; [apply emits_ret|]. by apply emits_bind. Qed.
Lemma emits_fold {K A} (l : list K) (f : K -> A -> Act St Ef A) :
  (forall k a, emits (f k a)) -> forall a, emits (act_fold l f a).
Proof. intros Hf. induction l as [|k l IH]; intros a; simpl; [apply emits_ret|]. by apply emits_bind. Qed.
Lemma emits_run {A} (m : Act St Ef A) s a s' es : emits m -> m s = Some (a, s', es) -> Forall P es.
Proof. intros Hm E. specialize (Hm s). by rewrite E in Hm. Qed.
End emits.

(** ** Steps along a preorder *)

Section along.
Context {St Ef : Type} (Rel : St -> St -> Prop) `{!PreOrder Rel}.

Definition along {A} (m : Act St Ef A) : Prop := forall s, wlp m s (fun _ s' => Rel s s').

Lemma along_ret {A} (a : A) : along (mret a).
Proof. intros s. apply wlp_ret. reflexivity. Qed.
Lemma along_bind {A B} (m : Act St Ef A) (f : A -> Act St Ef B) :
  along m -> (forall a, along (f a)) -> along (m ≫= f).
Proof.
  intros Hm Hf s. apply wlp_bind. eapply wlp_mono; [apply Hm|]. intros a s1 H1.
  eapply wlp_mono; [apply Hf|]. intros b s2 H2. exact (transitivity H1 H2).
Qed.
Lemma along_gets {A} (f : St -> A) : along (act_gets f).
Proof. intros s. apply wlp_gets. reflexivity. Qed.
Lemma along_emit e : along (act_emit e).
Proof. intros s. apply wlp_emit. reflexivity. Qed.
Lemma along_panic {A} : along (act_panic (A := A)).
Proof. by intros s. Qed.
Lemma along_modify f : (forall s, Rel s (f s)) -> along (act_modify f).
Proof. intros Hf s. by apply wlp_modify. Qed.
Lemma along_for {K} (l : list K) (f : K -> Act St Ef unit) :
  (forall k, along (f k)) -> along (act_for l f).
Proof.
  intros Hf. induction l as [|k l IH]; simpl; [apply along_ret|]. by apply along_bind.
Qed.
Lemma along_fold {K A} (l : list K) (f : K -> A -> Act St Ef A) :
  (forall k a, along (f k a)) -> forall a, along (act_fold l f a).
Proof.
  intros Hf. induction l as [|k l IH]; intros a; simpl; [apply along_ret|]. by apply along_bind.
Qed.
(** A bind whose first part leaves the state alone hands its result on. *)
Lemma along_bind_at {A B} (m : Act St Ef A) (f : A -> Act St Ef B) s (Q : A -> Prop) :
  wlp m s (fun a s' => s' = s /\ Q a) -> (forall a, Q a -> wlp (f a) s (fun _ s' => Rel s s')) ->
  wlp (m ≫= f) s (fun _ s' => Rel s s').
Proof.
  intros Hm Hf. apply wlp_bind. eapply wlp_mono; [exact Hm|]. intros a s' [-> HQ]. by apply Hf.
Qed.
End along.

Lemma along_range `{MapOrder} Rel `{!PreOrder Rel} `{Countable K} {V} (m : router -> gmap K V) (f : K -> R unit) :
  (forall k, along Rel (f k)) -> along Rel (act_range m f).
Proof. intros Hf. apply along_bind; [done|apply along_gets, _|]. intros ks. by apply along_for. Qed.
Lemma along_range_set `{MapOrder} Rel `{!PreOrder Rel} `{Countable K} (X : router -> gset K) (f : K -> R unit) :
  (forall k, along Rel (f k)) -> along Rel (act_range_set X f).
Proof. intros Hf. apply along_bind; [done|apply along_gets, _|]. intros ks. by apply along_for. Qed.

(** ** Fields left alone *)

Definition same {X} (f : router -> X) (r r' : router) : Prop := f r' = f r.
#[global] Instance same_preorder {X} (f : router -> X) : PreOrder (same f).
Proof. split; [by intros r|]. unfold same. intros r1 r2 r3. congruence. Qed.

(** Follows the text of a handler; the assignments are left as goals, the calls
    to other handlers are looked up in the hint base [frame]. *)
Create HintDb frame discriminated.

Ltac follow :=
  repeat first
    [ progress intros
    | solve [eauto 2 with frame]
    | match goal with
      | |- along _ (mret _) => apply along_ret; apply _
      | |- along _ (act_gets _) => apply along_gets; apply _
      | |- along _ (act_emit _) => apply along_emit; apply _
      | |- along _ act_panic => apply along_panic
      | |- along _ (_ ≫= _) => apply along_bind; [apply _| |]
      | |- along _ (act_for _ _) => apply along_for; [apply _|]
      | |- along _ (act_fold _ _ _) => apply along_fold; [apply _|]
      | |- along _ (act_range _ _) => apply along_range; [apply _|]
      | |- along _ (act_range_set _ _) => apply along_range_set; [apply _|]
      | |- along _ (act_modify _) => apply along_modify
      | |- along _ (match ?x with _ => _ end) => destruct x eqn:?
      | |- along _ (let '_ := ?x in _) => destruct x eqn:?
      end
    | progress cbn zeta ].

(** The same for what is emitted. *)
Lemma emits_range `{MapOrder} (P : effect -> Prop) `{Countable K} {V} (m : router -> gmap K V) (f : K -> R unit) :
  (forall k, emits P (f k)) -> emits P (act_range m f).
Proof. intros Hf. apply emits_bind; [apply emits_gets|]. intros ks. by apply emits_for. Qed.

Ltac follow_emits :=
  repeat first
    [ progress intros
    | solve [eauto 2 with frame]
    | match goal with
      | |- emits _ (mret _) => apply emits_ret
      | |- emits _ (act_gets _) => apply emits_gets
      | |- emits _ (act_modify _) => apply emits_modify
      | |- emits _ (act_emit _) => apply emits_emit
      | |- emits _ act_panic => apply emits_panic
      | |- emits _ (_ ≫= _) => apply emits_bind
      | |- emits _ (act_for _ _) => apply emits_for
      | |- emits _ (act_fold _ _ _) => apply emits_fold
      | |- emits _ (act_range _ _) => apply emits_range
      | |- emits _ (match ?x with _ => _ end) => destruct x eqn:?
      | |- emits _ (let '_ := ?x in _) => destruct x eqn:?
      end
    | progress cbn zeta ].
