(* ===== verification/BloomTree.v ===== *)
(** * Multicast along the tree

    What the filters of [ironwood/network/bloomfilter.go] are for: a lookup is
    passed on to exactly the peers whose filter covers the destination, and no
    filter a node sends misses a key reachable through it. *)

From S2P Require Import Prelude Crypto Wire Messages Bloom RouterState RouterTree RouterCost RouterLookup Blooms Pathfinder Router RouterInv.

(** A node with one peer, on the tree, whose filter holds what it sent us. *)
Definition leaf_blooms (send recv : bloom) : router :=
  set_r_blooms (fun _ => {[ sample_key Byte.x02 := MkBloomInfo send recv 0 true false ]})
    (set_r_peers (fun _ => {[ sample_key Byte.x02 := {[sample_peer]} ]}) sample_start).

Definition key_bloom (b : byte) : bloom := @addKey toy_hash newBloom (sample_key b).

(** ** Theorems *)

(** C14: a lookup is passed on to exactly the peers on the tree, other than the one it came from,
    whose last filter covers the destination: what is sent is one copy for each of them, to
    distinct peers, over a link of that peer with the lowest priority number; nothing else is sent
    and the state does not change. *)
Theorem multicast_exact `{BloomHash} `{MapOrder} c packet fromKey toKey r :
  peers_keyed r -> dom (r_blooms r) ⊆ dom (r_peers r) ->
  exists ps, sendMulticast c packet fromKey toKey r = Some (tt, r, map (fun p => ESendQueued p packet) ps) /\
    NoDup (map p_key ps) /\ Forall (fun p => best_link r (p_key p) p) ps /\
    forall k, k ∈ map p_key ps <-> multicast_target c r fromKey toKey k.
Proof.
  intros Hk Hd. pose proof (sendMulticast_wp c packet fromKey toKey r Hk Hd) as Hw. unfold wp in Hw.
  destruct (sendMulticast c packet fromKey toKey r) as [[[[] r'] es]|]; [|done].
  destruct Hw as (-> & ps & -> & [Hn Hb Hx]). by exists ps.
Qed.

Lemma multicast_exact_witness :
  let c := sample_core Byte.x05 in
  let r := leaf_blooms newBloom (key_bloom Byte.x07) in
  let packet := PqLookup (MkLookup (sample_key Byte.x05) (sample_key Byte.x07) []) in
  exists ps, @sendMulticast toy_hash trie_order c packet (sample_key Byte.x05) (sample_key Byte.x07) r
      = Some (tt, r, map (fun p => ESendQueued p packet) ps) /\
    NoDup (map p_key ps) /\ Forall (fun p => best_link r (p_key p) p) ps /\
    forall k, k ∈ map p_key ps <-> @multicast_target toy_hash c r (sample_key Byte.x05) (sample_key Byte.x07) k.
Proof.
  apply (@multicast_exact toy_hash trie_order (sample_core Byte.x05)).
  - intros k ps E. simpl in E. apply lookup_singleton_Some in E as [<- <-].
    split; [set_solver|]. intros p ->%elem_of_singleton. reflexivity.
  - reflexivity.
Defined.

(** The filter sent to a peer never hides a key: it holds our own key and every key that the
    filter of another peer on the tree holds; it is stored as the last one sent, and reported as
    not new only when it was sent before. *)
Theorem sent_filter_covers `{BloomHash} `{MapOrder} c key keepOnes r pbi :
  blooms_ok (r_blooms r) -> r_blooms r !! key = Some pbi ->
  exists b isNew r', getBloomFor c key keepOnes r = Some ((b, isNew), r', []) /\ bloom_ok b /\
    bfilter_Test (filter b) (xKey c (selfKey c)) = true /\
    (forall k pbk x, r_blooms r !! k = Some pbk -> bi_onTree pbk = true -> k <> key ->
      bfilter_Test (filter (bi_recv pbk)) x = true -> bfilter_Test (filter b) x = true) /\
    bi_send <$> r_blooms r' !! key = Some b /\ (isNew = false -> r' = r /\ b = bi_send pbi).
Proof.
  intros Hm E. pose proof (getBloomFor_wp c key keepOnes r pbi Hm E) as Hw. unfold wp in Hw.
  destruct (gathered_spec c (r_blooms r) key Hm) as (_ & Hself & Hall).
  destruct (getBloomFor c key keepOnes r) as [[[[b isNew] r'] es]|]; [|done].
  destruct Hw as (-> & Hb & Hsub & pbi' & _ & _ & Hsend & -> & Hnew). simpl in *.
  exists b, isNew, (set_r_blooms (<[key := pbi']>) r). split_and!; [done|done|by apply Hsub| | |].
  - intros k pbk x Ek Eo Hne Ht. apply Hsub. by apply (Hall k pbk).
  - simpl. rewrite lookup_insert_eq. simpl. by rewrite Hsend.
  - intros Hn. rewrite (Hnew Hn) in *. split; [|done].
    destruct r; unfold set_r_blooms; simpl in *. by rewrite insert_id.
Qed.

(** Bits that are no longer needed are never cleared when everything to be sent was sent
    before: a maintenance round with [keepOnes] then changes nothing, the dirty flag that would
    make the next round clear them included, so every later round does the same. *)
Theorem stale_bits_stay `{BloomHash} `{MapOrder} c key r pbi :
  r_blooms r !! key = Some pbi -> bi_zDirty pbi = false ->
  addFilter (gathered c (r_blooms r) key) (filter (bi_send pbi)) = bi_send pbi ->
  getBloomFor c key (negb (bi_zDirty pbi)) r = Some ((bi_send pbi, false), r, []).
Proof. intros E Ez Hs. rewrite Ez. by apply getBloomFor_stale. Qed.

(** The filter sent holds key 9, which nothing in it stands for any more. *)
