(* ===== verification/PathSafety.v ===== *)
(** * Paths are only believed when signed

    Which messages may change the paths of the pathfinder
    ([ironwood/network/pathfinder.go]), over all messages of the actor, and how
    deep [_handleTraffic] recurses. *)

From S2P Require Import Prelude Crypto Wire Messages Bloom RouterState RouterTree RouterCost RouterLookup Blooms Pathfinder Router RouterInv Frames.

(** ** Handlers that leave the paths alone *)

#[local] Abbreviation no_paths m := (along (same r_paths) m).

Ltac frame := follow; try reflexivity.

Section frames.
Context `{Ed25519} `{BloomHash} `{MapOrder} (c : core).

Lemma random_u64_paths : no_paths random_u64.
Proof. unfold random_u64. frame. Qed.
Lemma AfterFunc_paths d k : no_paths (AfterFunc d k).
Proof. unfold AfterFunc. frame. Qed.
Lemma getDecayedPenalty_paths k : no_paths (getDecayedPenalty k).
Proof. unfold getDecayedPenalty, time_Now. frame. Qed.
#[local] Hint Resolve random_u64_paths AfterFunc_paths getDecayedPenalty_paths : frame.
Lemma addPenalty_paths k x : no_paths (addPenalty k x).
Proof. unfold addPenalty, time_Now. frame. Qed.
Lemma getCost_paths p : no_paths (getCost p).
Proof. unfold getCost. frame. Qed.
#[local] Hint Resolve addPenalty_paths getCost_paths : frame.
Lemma recordDisconnect_paths p : no_paths (recordDisconnect p).
Proof. unfold recordDisconnect. frame. Qed.
Lemma penalizeMissed_paths p : no_paths (penalizeMissed p).
Proof. unfold penalizeMissed. frame. Qed.
#[local] Hint Resolve recordDisconnect_paths penalizeMissed_paths : frame.
Lemma penalizeMissedResponses_paths : no_paths penalizeMissedResponses.
Proof. unfold penalizeMissedResponses. frame. Qed.
Lemma getDist_paths path k : no_paths (getDist path k).
Proof. unfold getDist. frame. Qed.
#[local] Hint Resolve penalizeMissedResponses_paths getDist_paths : frame.
Lemma lookup_paths path wm : no_paths (lookup c path wm).
Proof. unfold lookup, candidates, select. frame. Qed.
#[local] Hint Resolve lookup_paths : frame.

Lemma sendBloom_all_paths k b : no_paths (sendBloom_all k b).
Proof. unfold sendBloom_all. frame. Qed.
#[local] Hint Resolve sendBloom_all_paths : frame.
Lemma fixOnTree_paths : no_paths (fixOnTree c).
Proof. unfold fixOnTree. frame. Qed.
Lemma getBloomFor_paths k o : no_paths (getBloomFor c k o).
Proof. unfold getBloomFor. frame. Qed.
#[local] Hint Resolve fixOnTree_paths getBloomFor_paths : frame.
Lemma sendAllBlooms_paths : no_paths (sendAllBlooms c).
Proof. unfold sendAllBlooms. frame. Qed.
Lemma sendBloom_paths p : no_paths (sendBloom p).
Proof. unfold sendBloom. frame. Qed.
Lemma handleBloom_paths p b : no_paths (handleBloom p b).
Proof. unfold handleBloom. frame. Qed.
Lemma sendMulticast_paths pk f t : no_paths (sendMulticast c pk f t).
Proof. unfold sendMulticast. frame. Qed.
#[local] Hint Resolve sendAllBlooms_paths sendBloom_paths handleBloom_paths sendMulticast_paths : frame.
Lemma blooms_doMaintenance_paths : no_paths (blooms_doMaintenance c).
Proof. unfold blooms_doMaintenance. frame. Qed.
#[local] Hint Resolve blooms_doMaintenance_paths : frame.

Lemma newReq_paths : no_paths (newReq c).
Proof. unfold newReq. frame. Qed.
Lemma update_paths ann : no_paths (update c ann).
Proof. unfold update, forget_sent, resetCache. frame. Qed.
Lemma mark_sent_paths p k : no_paths (mark_sent p k).
Proof. unfold mark_sent. frame. Qed.
#[local] Hint Resolve newReq_paths update_paths mark_sent_paths : frame.
Lemma refresh_timer_paths k t : no_paths (refresh_timer k t).
Proof. unfold refresh_timer. frame. Qed.
Lemma info_timeout_paths k t : no_paths (info_timeout k t).
Proof. unfold info_timeout, forget_sent, resetCache. frame. Qed.
Lemma becomeRoot_paths : no_paths (becomeRoot c).
Proof. unfold becomeRoot. frame. Qed.
Lemma handleResponse_paths p res rtt : no_paths (handleResponse p res rtt).
Proof. unfold handleResponse. frame. Qed.
Lemma useResponse_paths k res : no_paths (useResponse c k res).
Proof. unfold useResponse. frame. Qed.
Lemma handleAnnounce_paths p ann : no_paths (handleAnnounce c p ann).
Proof. unfold handleAnnounce. frame. Qed.
#[local] Hint Resolve refresh_timer_paths info_timeout_paths becomeRoot_paths handleResponse_paths
  useResponse_paths handleAnnounce_paths : frame.
Lemma addPeer_paths p : no_paths (addPeer c p).
Proof. unfold addPeer, addInfo. frame. Qed.
Lemma removePeer_paths p : no_paths (removePeer p).
Proof. unfold removePeer, removeInfo. frame. Qed.
Lemma sendReqs_paths : no_paths (sendReqs c).
Proof. unfold sendReqs, clearReqs. frame. Qed.
Lemma updateAncestries_paths : no_paths updateAncestries.
Proof. unfold updateAncestries. frame. Qed.
Lemma cheapest_paths k d : no_paths (cheapest k d).
Proof. unfold cheapest. frame. Qed.
#[local] Hint Resolve addPeer_paths removePeer_paths sendReqs_paths updateAncestries_paths
  cheapest_paths : frame.
Lemma fix_paths : no_paths (fix_ c).
Proof. unfold fix_, fix_current, fix_candidate, fix_apply, fix_done. frame. Qed.
Lemma take_unsent_paths k l s : no_paths (take_unsent k l s).
Proof. unfold take_unsent. frame. Qed.
#[local] Hint Resolve fix_paths take_unsent_paths : frame.
Lemma sendAnnounces_paths : no_paths (sendAnnounces c).
Proof. unfold sendAnnounces. frame. Qed.
#[local] Hint Resolve sendAnnounces_paths : frame.
Lemma doMaintenance_paths : no_paths (doMaintenance c).
Proof. unfold doMaintenance, resetCache. frame. Qed.
Lemma shutdown_paths : no_paths shutdown.
Proof. unfold shutdown. frame. Qed.
Lemma rumor_timeout_paths x t : no_paths (rumor_timeout x t).
Proof. unfold rumor_timeout, free_opt. frame. Qed.
End frames.

#[export] Hint Resolve addPeer_paths removePeer_paths handleResponse_paths handleAnnounce_paths
  handleBloom_paths lookup_paths sendMulticast_paths refresh_timer_paths info_timeout_paths
  doMaintenance_paths shutdown_paths rumor_timeout_paths AfterFunc_paths : frame.

(** ** Steps of the pathfinder *)

(** An entry for [k] comes from a notify of [k] that passes its check. *)
Definition signed_path `{Ed25519} (k : publicKey) (i : pathInfo) : Prop :=
  exists n, notify_source n = k /\ pathNotify_check n = true /\
    nfo_path (notify_info n) = pt_path i /\ nfo_seq (notify_info n) = pt_seq i.

Definition same_path (i i' : pathInfo) : Prop := pt_path i' = pt_path i /\ pt_seq i' = pt_seq i.

(** An entry keeps its request time, and its path until a later sequence number. *)
Definition later_path (i i' : pathInfo) : Prop :=
  pt_reqTime i' = pt_reqTime i /\ (pt_seq i < pt_seq i' \/ same_path i i').

Record path_step `{Ed25519} (r r' : router) : Prop := {
  ps_later k i : r_paths r !! k = Some i -> exists i', r_paths r' !! k = Some i' /\ later_path i i';
  ps_origin k i' : r_paths r' !! k = Some i' ->
    (exists i, r_paths r !! k = Some i /\ same_path i i') \/ signed_path k i'
}.

Lemma later_path_trans i1 i2 i3 : later_path i1 i2 -> later_path i2 i3 -> later_path i1 i3.
Proof.
  intros [Et [Hl|[Ep Es]]] [Et' [Hl'|[Ep' Es']]]; split; try congruence;
    [left; lia|left; lia|left; lia|right; split; congruence].
Qed.

#[global] Instance path_step_preorder `{Ed25519} : PreOrder path_step.
Proof.
  split.
  - intros r. split; [intros k i E; exists i; split; [done|]; split; [done|by right]|].
    intros k i E. left. by exists i.
  - intros r1 r2 r3 [Hl1 Ho1] [Hl2 Ho2]. split.
    + intros k i E. destruct (Hl1 k i E) as (i' & E' & H1). destruct (Hl2 k i' E') as (i'' & E'' & H2).
      exists i''. split; [done|by eapply later_path_trans].
    + intros k i E. destruct (Ho2 k i E) as [(i' & E' & [Hp Hs])|?]; [|by right].
      destruct (Ho1 k i' E') as [(i'' & E'' & [Hp' Hs'])|(n & Hn & Hc & Hp' & Hs')].
      * left. exists i''. split; [done|]. split; congruence.
      * right. exists n. split_and!; congruence.
Qed.

Lemma same_path_step `{Ed25519} r r' : same r_paths r r' -> path_step r r'.
Proof.
  unfold same. intros E. split; rewrite E; [|by left; exists i'; split].
  intros k i Ei. exists i. split; [done|]. split; [done|by right].
Qed.

Lemma along_same `{Ed25519} {A} (m : R A) : along (same r_paths) m -> along path_step m.
Proof. intros Hm r. eapply wlp_mono; [apply Hm|]. intros a r'. apply same_path_step. Qed.

(** Replacing an entry by one that is later and signed, or equal in what counts. *)
Lemma path_step_insert `{Ed25519} r k i i' :
  r_paths r !! k = Some i -> later_path i i' -> same_path i i' \/ signed_path k i' ->
  path_step r (set_r_paths (<[k := i']>) r).
Proof.
  intros E Hl Ho. split; intros k' j; simpl.
  - intros E'. destruct (decide (k = k')) as [->|Hne].
    + rewrite lookup_insert_eq. exists i'. split; [done|]. by simplify_eq.
    + rewrite lookup_insert_ne by done. exists j. split; [done|]. split; [done|by right].
  - rewrite lookup_insert_Some. intros [[<- <-]|[_ E']]; [|by left; exists j].
    destruct Ho; [left; by exists i|by right].
Qed.

Lemma path_step_new `{Ed25519} r k i' :
  r_paths r !! k = None -> signed_path k i' -> path_step r (set_r_paths (<[k := i']>) r).
Proof.
  intros E Ho. split; intros k' j; simpl.
  - intros E'. rewrite lookup_insert_ne by congruence. exists j. split; [done|]. split; [done|by right].
  - rewrite lookup_insert_Some. intros [[<- <-]|[_ E']]; [by right|left; by exists j].
Qed.

Section path_steps.
Context `{Ed25519} `{BloomHash} `{MapOrder} (c : core).
#[local] Abbreviation paths_along m := (along path_step m).

(** The stored entry replaces what was known, or nothing; the rest of the
    handler goes along whatever the deferred call goes along. *)
Lemma accept_notify_step hT n info r :
  (forall tr, paths_along (hT tr)) ->
  (forall i', pt_path i' = nfo_path (notify_info n) -> pt_seq i' = nfo_seq (notify_info n) ->
    pt_reqTime i' = pt_reqTime info ->
    path_step r (set_r_paths (<[notify_source n := i']>) r)) ->
  wlp (accept_notify hT n info) r (fun _ r' => path_step r r').
Proof.
  intros HT Hi. unfold accept_notify.
  destruct (pt_traffic info) as [tr|]; apply wlp_bind, wlp_modify, wlp_bind, wlp_emit;
    match goal with |- wlp _ ?r1 _ => assert (path_step r r1) as H1' by by apply Hi end.
  - eapply wlp_mono; [apply HT|]. intros a r' H2'. exact (transitivity H1' H2').
  - by apply wlp_ret.
Qed.

Lemma signed_notify n i : pathNotify_check n = true ->
  pt_path i = nfo_path (notify_info n) -> pt_seq i = nfo_seq (notify_info n) ->
  signed_path (notify_source n) i.
Proof. intros. by exists n. Qed.

Lemma handleNotify_step hT from n :
  (forall tr, paths_along (hT tr)) -> paths_along (handleNotify c hT from n).
Proof.
  intros HT. unfold handleNotify. apply along_bind; [apply _|apply along_same; eauto with frame|].
  intros [p wm]. cbn zeta. set (n' := notify_set_watermark n _). destruct p as [p|]; [apply along_emit, _|].
  destruct (negb _); [apply along_ret, _|]. intros r. apply wlp_bind, wlp_gets.
  destruct (r_paths r !! notify_source n') as [i|] eqn:E.
  - destruct (Z.leb_spec (nfo_seq (notify_info n')) (pt_seq i)) as [?|Hlt]; [by apply wlp_ret|].
    destruct (pathNotifyInfo_equal _ _); [by apply wlp_ret|].
    destruct (pathNotify_check n') eqn:Ec; [|by apply wlp_ret]. cbn [negb].
    apply wlp_bind, wlp_emit, accept_notify_step; [done|]. intros i' Hp Hs Ht.
    apply (path_step_insert r _ i); [done|split; [done|left; lia]|right]. by apply signed_notify.
  - apply wlp_bind, wlp_gets. destruct (r_rumors r !! _) as [rumor|]; [|by apply wlp_ret].
    destruct (pathNotify_check n') eqn:Ec; [|by apply wlp_ret]. cbn [negb].
    apply wlp_bind. eapply wlp_mono; [apply (AfterFunc_paths _ _ r)|]. intros t r1 Hs1.
    apply wlp_bind, wlp_gets.
    assert (forall r2 info, same r_paths r r2 ->
      wlp (accept_notify hT n' info) r2 (fun _ r' => path_step r r')) as Hacc.
    { intros r2 info Hs2. eapply wlp_mono; [apply accept_notify_step; [done|]|].
      - intros i' Hp Hs _. apply path_step_new; [by rewrite Hs2|by apply signed_notify].
      - intros a r' Hst. exact (transitivity (same_path_step _ _ Hs2) Hst). }
    destruct (ru_traffic rumor) as [tr|]; [|by apply Hacc].
    case_bool_decide; [|by apply Hacc]. apply wlp_bind, wlp_modify. by apply Hacc.
Qed.

Lemma handleLookup_step hT from l :
  (forall tr, paths_along (hT tr)) -> paths_along (handleLookup c hT from l).
Proof.
  intros HT. unfold handleLookup, unix_now, time_Now.
  apply along_bind; [apply _|apply along_same; eauto with frame|]. intros _.
  pose proof handleNotify_step as Hn. follow; try by apply Hn. by apply same_path_step.
Qed.

Lemma sendLookup_step hT dest :
  (forall tr, paths_along (hT tr)) -> paths_along (sendLookup c hT dest).
Proof.
  intros HT. unfold sendLookup, time_Now. pose proof handleLookup_step as Hn.
  follow; by apply Hn.
Qed.

Lemma rumorSendLookup_step hT dest :
  (forall tr, paths_along (hT tr)) -> paths_along (rumorSendLookup c hT dest).
Proof.
  intros HT. unfold rumorSendLookup, time_Now. pose proof sendLookup_step as Hn.
  follow; try (by apply Hn); try (by apply same_path_step). apply along_same, AfterFunc_paths.
Qed.

Lemma set_traffic_step r k i o :
  r_paths r !! k = Some i -> path_step r (set_r_paths (<[k := pt_set_traffic i o]>) r).
Proof. intros E. eapply path_step_insert; [done|split; [done|by right]|by left]. Qed.

Lemma handleTraffic_body_step hT tr :
  (forall tr, paths_along (hT tr)) -> paths_along (handleTraffic_body c hT tr).
Proof.
  intros HT r. unfold handleTraffic_body. apply wlp_bind, wlp_gets.
  destruct (r_paths r !! tr_dest tr) as [info|] eqn:E.
  - apply wlp_bind, wlp_gets, wlp_bind. cbn [pathfinderTrafficCache]. unfold pathfinderTrafficCache.
    apply wlp_bind. apply (wlp_mono _ _ (fun _ r' => r' = r)).
    { destruct (pt_traffic info); [by apply wlp_emit|by apply wlp_ret]. }
    intros _ r' ->. apply wlp_modify, wlp_emit. by apply set_traffic_step.
  - pose proof rumorSendLookup_step as Hn. revert r E. intros r _.
    apply along_bind; [apply _|by apply Hn|]. intros _. unfold free_opt. follow.
    by apply same_path_step.
Qed.

Lemma pf_fuel_step n : forall tr, paths_along (pf_handleTraffic_fuel c n tr).
Proof.
  induction n as [|n IH]; intros tr; simpl; [apply along_panic|by apply handleTraffic_body_step].
Qed.

Lemma pf_traffic_step tr : paths_along (pf_handleTraffic c tr).
Proof. apply pf_fuel_step. Qed.

Lemma handleBroken_step b : paths_along (handleBroken c b).
Proof.
  unfold handleBroken. apply along_bind; [apply _|apply along_same; eauto with frame|].
  intros [p wm]. destruct p as [p|]; [apply along_emit, _|].
  destruct (negb _); [apply along_ret, _|]. intros r. apply wlp_bind, wlp_gets.
  destruct (r_paths r !! _) as [info|] eqn:E; [|by apply wlp_ret].
  apply wlp_bind, wlp_modify. eapply wlp_mono; [apply sendLookup_step, pf_traffic_step|].
  intros a r' Hs. refine (transitivity _ Hs).
  eapply path_step_insert; [exact E|split; [done|by right]|by left].
Qed.
#[local] Hint Resolve pf_traffic_step handleBroken_step : frame.

(** Every message of the actor but the timeout of a path. *)
Lemma step_paths ev : (forall key t, ev <> EvTimer (TPathTimeout key) t) -> paths_along (step c ev).
Proof.
  intros Hev. destruct ev as [| | | | | | | | | | |what t| |]; simpl;
    try (apply along_same; solve [eauto with frame]).
  - apply along_emit, _.
  - unfold handleLookup_from. follow. by apply handleLookup_step, pf_traffic_step.
  - by apply handleNotify_step, pf_traffic_step.
  - apply handleBroken_step.
  - unfold handleTraffic, doBroken, resetTimeout. apply along_bind; [apply _|apply along_same; eauto with frame|].
    intros [p wm]. follow.
  - apply pf_traffic_step.
  - destruct what; simpl; try (apply along_same; solve [eauto with frame]). by destruct (Hev key t).
  - apply along_modify. intros r. by apply same_path_step.
Qed.

Lemma path_timeout_step key t r a r' es :
  path_timeout key t r = Some (a, r', es) ->
  r' = r \/ r_paths r' = delete key (r_paths r).
Proof.
  intros E. refine (wlp_run (path_timeout key t) r (fun _ r' => r' = r \/ r_paths r' = delete key (r_paths r)) _ _ _ _ E).
  unfold path_timeout, free_opt. apply wlp_bind, wlp_gets.
  destruct (r_paths r !! key) as [info|]; [|apply wlp_ret; by left].
  case_bool_decide; [|apply wlp_ret; by left].
  apply wlp_bind, wlp_emit, wlp_bind, wlp_modify.
  destruct (pt_traffic info); [apply wlp_emit|apply wlp_ret]; by right.
Qed.

Lemma path_timeout_or_not ev :
  (exists key t, ev = EvTimer (TPathTimeout key) t) \/
  (forall key t, ev <> EvTimer (TPathTimeout key) t).
Proof. destruct ev as [| | | | | | | | | | |what t| |]; try by right. destruct what; eauto; by right. Qed.
End path_steps.

(** ** The recursion of [_handleTraffic] *)

Lemma bind_congr {A B} (m : R A) (f g : A -> R B) r Q :
  wp m r Q -> (forall a r' es, Q a r' es -> f a r' = g a r') -> (m ≫= f) r = (m ≫= g) r.
Proof.
  unfold wp, mbind, act_bind. destruct (m r) as [[[a r'] es]|]; [|done].
  intros HQ Hfg. by rewrite (Hfg a r' es HQ).
Qed.

Lemma gets_congr {A B} (s : router -> A) (f g : A -> R B) r :
  f (s r) r = g (s r) r -> (gets s ≫= f) r = (gets s ≫= g) r.
Proof. unfold mbind, act_bind, act_gets. by intros ->. Qed.
Lemma modify_congr {B} (s : router -> router) (f g : unit -> R B) r :
  f tt (s r) = g tt (s r) -> (modify s ≫= f) r = (modify s ≫= g) r.
Proof. unfold mbind, act_bind, act_modify. by intros ->. Qed.
Lemma emit_congr {B} e (f g : unit -> R B) r :
  f tt r = g tt r -> (emit e ≫= f) r = (emit e ≫= g) r.
Proof. unfold mbind, act_bind, act_emit. by intros ->. Qed.

Section recursion.
Context `{Ed25519} `{BloomHash} `{MapOrder} (c : core).

(** The two agree where the recursive call happens: at a destination with a path. *)
Definition agree (h1 h2 : traffic -> R unit) : Prop :=
  forall tr r, is_Some (r_paths r !! tr_dest tr) -> h1 tr r = h2 tr r.

Context (h1 h2 : traffic -> R unit) (Hagree : agree h1 h2).

Lemma accept_notify_agree n info r :
  (forall tr, pt_traffic info = Some tr -> tr_dest tr = notify_source n) ->
  accept_notify h1 n info r = accept_notify h2 n info r.
Proof.
  intros Htr. unfold accept_notify. destruct (pt_traffic info) as [tr|]; [|done].
  unfold mbind, act_bind, act_modify, act_emit. rewrite (Hagree tr); [done|].
  simpl. rewrite (Htr tr eq_refl), lookup_insert_eq. eauto.
Qed.

Lemma handleNotify_agree from n r : pf_inv r ->
  handleNotify c h1 from n r = handleNotify c h2 from n r.
Proof.
  intros Hi. unfold handleNotify. eapply bind_congr; [by apply lookup_pf|].
  intros [p wm] r1 es ((Hi1 & _) & _). destruct p as [p|]; [done|].
  set (n' := notify_set_watermark n _). destruct (negb _); [done|].
  unfold mbind, act_bind, act_gets.
  destruct (r_paths r1 !! _) as [info|] eqn:E.
  - destruct (_ <=? _); [done|]. destruct (pathNotifyInfo_equal _ _); [done|].
    destruct (negb _); [done|]. unfold act_emit. rewrite accept_notify_agree; [done|].
    apply (pi_paths _ Hi1 _ _ E).
  - destruct (r_rumors r1 !! _) as [rumor|]; [|done]. destruct (negb _); [done|].
    destruct (AfterFunc _ _ r1) as [[[t r2] es2]|]; [|done]. unfold time_Now, act_gets.
    destruct (ru_traffic rumor) as [tr|]; [|by rewrite accept_notify_agree].
    case_bool_decide as Hd; [|by rewrite accept_notify_agree].
    unfold act_modify. rewrite accept_notify_agree; [done|]. by intros ? [= <-].
Qed.

Lemma handleLookup_agree from l r : pf_inv r ->
  handleLookup c h1 from l r = handleLookup c h2 from l r.
Proof.
  intros Hi. unfold handleLookup. eapply bind_congr; [by apply sendMulticast_pf|].
  intros _ r1 es [_ ->]. case_bool_decide; [|done].
  unfold unix_now, time_Now, mbind, act_bind, act_gets. simpl.
  match goal with |- context [negb ?b] => destruct b end; simpl.
  - by rewrite handleNotify_agree.
  - rewrite handleNotify_agree; [done|]. by apply (pf_step_info r).
Qed.

Lemma sendLookup_agree dest r : pf_inv r -> sendLookup c h1 dest r = sendLookup c h2 dest r.
Proof.
  intros Hi. unfold sendLookup, time_Now. apply gets_congr, gets_congr.
  destruct (match r_paths r !! dest with Some _ => _ | None => false end); [done|].
  by apply gets_congr, handleLookup_agree.
Qed.

Lemma rumorSendLookup_agree dest r : pf_inv r ->
  rumorSendLookup c h1 dest r = rumorSendLookup c h2 dest r.
Proof.
  intros Hi. unfold rumorSendLookup, time_Now.
  assert (forall f r, pf_inv r -> pf_inv (set_r_rumors (<[xKey c dest := f]>) r)) as Hins.
  { intros f r0 Hi0. apply (pf_step_rumors r0); [done|]. rewrite dom_insert. set_solver. }
  apply gets_congr, gets_congr. destruct (r_rumors r !! xKey c dest) as [rumor|].
  - destruct (_ <? _); [done|]. by apply emit_congr, modify_congr, sendLookup_agree, Hins.
  - eapply bind_congr; [by apply AfterFunc_pf|]. intros t r1 es ((Hi1 & _) & _).
    by apply modify_congr, sendLookup_agree, Hins.
Qed.

Lemma handleTraffic_body_agree tr r : pf_inv r ->
  handleTraffic_body c h1 tr r = handleTraffic_body c h2 tr r.
Proof.
  intros Hi. unfold handleTraffic_body. apply gets_congr.
  destruct (r_paths r !! tr_dest tr); [done|].
  unfold mbind, act_bind. by rewrite rumorSendLookup_agree.
Qed.
End recursion.

(** At a destination with a path the body does not recurse. *)
Lemma body_agree `{Ed25519} `{BloomHash} `{MapOrder} c h1 h2 :
  agree (handleTraffic_body c h1) (handleTraffic_body c h2).
Proof.
  intros tr r [info E]. unfold handleTraffic_body, mbind, act_bind, act_gets. by rewrite E.
Qed.

(** ** Theorems *)

(** The only recursion of the actor stops: [_handleTraffic] can send a lookup which this node
    answers itself, which accepts a path and releases the packet kept for it through
    [_handleTraffic] again, but no deeper; two rounds of the recursion give the result of any
    larger number. *)
Theorem traffic_recursion_bounded `{Ed25519} `{BloomHash} `{MapOrder} c n tr r :
  pf_inv r ->
  pf_handleTraffic_fuel c (2 + n) tr r = pf_handleTraffic c tr r /\
  is_Some (pf_handleTraffic c tr r).
Proof.
  intros Hi. split.
  - apply handleTraffic_body_agree; [|done]. apply body_agree.
  - pose proof (pf_handleTraffic_fuel_pf c 0 tr r Hi) as Hw. unfold wp in Hw.
    unfold pf_handleTraffic, pf_depth. by destruct (pf_handleTraffic_fuel c 2 tr r).
Qed.

(** C3: whatever message the router handles, a path that was not there before comes from a notify
    whose signature by the path's own destination was checked, and replaces an older path only
    with a later sequence number: nobody can redirect the traffic for a key without its owner,
    nor replay an old path over a newer one. *)
Theorem path_only_if_signed `{Ed25519} `{BloomHash} `{MapOrder} c ev r a r' es k i' :
  step c ev r = Some (a, r', es) -> r_paths r' !! k = Some i' ->
  (exists i, r_paths r !! k = Some i /\ same_path i i') \/
  signed_path k i' /\ forall i, r_paths r !! k = Some i -> pt_seq i < pt_seq i'.
Proof.
  intros E Ek. assert (path_step r r' -> (exists i, r_paths r !! k = Some i /\ same_path i i') \/
    signed_path k i' /\ forall i, r_paths r !! k = Some i -> pt_seq i < pt_seq i') as Hps.
  { intros [Hl Ho]. destruct (Ho k i' Ek) as [?|Hs]; [by left|].
    destruct (r_paths r !! k) as [i|] eqn:Ei; [|by right].
    destruct (Hl k i Ei) as (i'' & Ei'' & _ & [Hlt|Hsame]); simplify_eq.
    - right. split; [done|]. by intros ? [= <-].
    - left. by exists i. }
  destruct (path_timeout_or_not ev) as [(key & t & ->)|Hev].
  - destruct (path_timeout_step _ _ _ _ _ _ E) as [->|Ep]; left; [by exists i'|].
    rewrite Ep in Ek. apply lookup_delete_Some in Ek as [_ Ek]. by exists i'.
  - apply Hps. by refine (wlp_run _ _ (fun _ r' => path_step r r') _ _ _ (step_paths c ev _ r) E).
Qed.

(** A node looking for key 7, which answers. *)
Definition asking : router :=
  set_r_rumors (fun _ => {[ sample_key Byte.x07 := MkRumor None 0 0%nat ]}) sample_start.
Definition answer : pathNotify :=
  MkNotify [] max_u64 (sample_key Byte.x07) (sample_key Byte.x05)
    (MkNotifyInfo 3 [1; 2] (array_of 64 (arr_list (sample_key Byte.x07)))).

Lemma path_only_if_signed_witness :
  let c := sample_core Byte.x05 in
  let i' := MkPathInfo [1; 2] 3 0 1%nat None false in
  exists r' es, @step toy_ed25519 toy_hash trie_order c (EvNotify sample_peer answer) asking = Some (tt, r', es) /\
    ((exists i, r_paths asking !! sample_key Byte.x07 = Some i /\ same_path i i') \/
     @signed_path toy_ed25519 (sample_key Byte.x07) i' /\
     forall i, r_paths asking !! sample_key Byte.x07 = Some i -> pt_seq i < pt_seq i').
Proof.
  assert ((fun x => r_paths x.1.2 !! sample_key Byte.x07) <$>
    @step toy_ed25519 toy_hash trie_order (sample_core Byte.x05) (EvNotify sample_peer answer) asking
    = Some (Some (MkPathInfo [1; 2] 3 0 1%nat None false))) as Hc by (vm_compute; reflexivity).
  destruct (@step toy_ed25519 toy_hash trie_order (sample_core Byte.x05) (EvNotify sample_peer answer) asking)
    as [[[[] r'] es]|] eqn:E; [|discriminate Hc].
  exists r', es. split; [exact E|]. injection Hc as Hc.
  exact (@path_only_if_signed toy_ed25519 toy_hash trie_order _ _ _ _ _ _ _ _ E Hc).
Defined.

(** The request time of a path is set when the path is created and never again, although
    [_sendLookup] compares it with the clock to limit how often it asks: once a path is older
    than the throttle, every broken message for it starts another search of the network. *)
Theorem request_time_fixed `{Ed25519} `{BloomHash} `{MapOrder} c ev r a r' es k i i' :
  step c ev r = Some (a, r', es) -> r_paths r !! k = Some i -> r_paths r' !! k = Some i' ->
  pt_reqTime i' = pt_reqTime i /\
  (pathThrottle (core_config c) <= time_Sub (env_now (r_env r')) (pt_reqTime i) ->
   pf_sendLookup c k r' =
     pf_handleLookup c (selfKey c)
       (MkLookup (selfKey c) k (getRootAndPath (r_infos r') (selfKey c)).2) r').
Proof.
  intros E Ek Ek'. assert (pt_reqTime i' = pt_reqTime i) as Et.
  { destruct (path_timeout_or_not ev) as [(key & t & ->)|Hev].
    - destruct (path_timeout_step _ _ _ _ _ _ E) as [->|Ep]; [congruence|].
      rewrite Ep in Ek'. apply lookup_delete_Some in Ek' as [_ Ek']. congruence.
    - destruct (wlp_run _ _ (fun _ r' => path_step r r') _ _ _ (step_paths c ev Hev r) E) as [Hl _].
      destruct (Hl k i Ek) as (i'' & Ei'' & Ht & _). congruence. }
  split; [done|]. intros Hth. unfold pf_sendLookup, sendLookup, time_Now, mbind, act_bind, act_gets.
  rewrite Ek', Et. destruct (Z.ltb_spec (time_Sub (env_now (r_env r')) (pt_reqTime i))
    (pathThrottle (core_config c))); [lia|]. simpl.
  unfold pf_handleLookup. by destruct (handleLookup _ _ _ _ r') as [[[? ?] ?]|].
Qed.

(** Time passes, and the path is still as old as when it was created. *)
Definition old_path : pathInfo := MkPathInfo [1] 3 0 9%nat None false.
Definition knowing : router :=
  set_r_paths (fun _ => {[ sample_key Byte.x07 := old_path ]}) sample_start.
