(* ===== verification/Greedy.v ===== *)
(** * Greedy forwarding

    What the next-hop choice of [_lookup] ([ironwood/network/router.go]) means
    for a packet: its watermark falls at every hop, so it is forwarded at most
    as often as its first distance; and in a network whose nodes agree on the
    tree it arrives. *)

From S2P Require Import Prelude Crypto Wire Messages Bloom RouterState RouterTree RouterCost RouterLookup Blooms Pathfinder Router RouterInv Frames.

Definition node_ok (r : router) : Prop := lookup_ok r /\ peers_keyed r.

Lemma pathDist_u64 kp dp : is_u64 (pathDist kp dp).
Proof.
  unfold pathDist. generalize (u64_range (Z.of_nat (length kp + length dp))).
  generalize (u64 (Z.of_nat (length kp + length dp))). revert dp.
  induction kp as [|x kp IH]; intros [|y dp] d Hd; simpl; try done.
  case_match; [|done]. apply IH, u64_range.
Qed.

Lemma dist_to_nonneg r path k : 0 <= dist_to r path k.
Proof. apply pathDist_u64. Qed.

(** [c] at [r] forwards [tr] to [p] as [tr']: so its handler says. *)
Definition forwards `{Ed25519} `{BloomHash} `{MapOrder} (c : core) (r : router) (tr : traffic) (p : peer)
    (tr' : traffic) : Prop :=
  exists r' es, handleTraffic c tr r = Some (tt, r', es) /\ ESendQueued p (PqTraffic tr') ∈ es.

Section forwarding.
Context `{Ed25519} `{BloomHash} `{MapOrder}.

(** Forwarding is what [handleTraffic] does when [_lookup] finds a peer. *)
Lemma handleTraffic_peer c r tr p wm r' :
  lookup c (tr_path tr) (Some (tr_watermark tr)) r = Some ((Some p, Some wm), r', []) ->
  handleTraffic c tr r = Some (tt, r', [ESendQueued p (PqTraffic (tr_set_watermark tr wm))]).
Proof. intros E. unfold handleTraffic, mbind, act_bind. by rewrite E. Qed.

(** What is sent about a broken path is no traffic. *)
Definition no_traffic (e : effect) : Prop :=
  match e with ESendQueued _ (PqTraffic _) => False | _ => True end.
#[local] Abbreviation silent m := (emits no_traffic m).

Lemma AfterFunc_silent d k : silent (AfterFunc d k).
Proof. unfold AfterFunc. by follow_emits. Qed.
Lemma getDist_silent path k : silent (getDist path k).
Proof. unfold getDist. by follow_emits. Qed.
Lemma getDecayedPenalty_silent k : silent (getDecayedPenalty k).
Proof. unfold getDecayedPenalty, time_Now. by follow_emits. Qed.
#[local] Hint Resolve AfterFunc_silent getDist_silent getDecayedPenalty_silent : frame.
Lemma getCost_silent p : silent (getCost p).
Proof. unfold getCost. by follow_emits. Qed.
#[local] Hint Resolve getCost_silent : frame.
Lemma lookup_silent c path wm : silent (lookup c path wm).
Proof. unfold lookup, candidates, select. by follow_emits. Qed.
Lemma multicast_silent c l f t : silent (sendMulticast c (PqLookup l) f t).
Proof. unfold sendMulticast. by follow_emits. Qed.
#[local] Hint Resolve lookup_silent multicast_silent : frame.
Lemma notify_silent c hT f n : (forall tr, silent (hT tr)) -> silent (handleNotify c hT f n).
Proof. intros HT. unfold handleNotify, accept_notify, time_Now. by follow_emits. Qed.
Lemma lookup_msg_silent c hT f l : (forall tr, silent (hT tr)) -> silent (handleLookup c hT f l).
Proof.
  intros HT. pose proof (fun f n => notify_silent c hT f n HT) as Hn.
  unfold handleLookup, unix_now, time_Now. by follow_emits.
Qed.
Lemma sendLookup_silent c hT dest : (forall tr, silent (hT tr)) -> silent (sendLookup c hT dest).
Proof.
  intros HT. pose proof (fun f n => lookup_msg_silent c hT f n HT) as Hn.
  unfold sendLookup, time_Now. by follow_emits.
Qed.
Lemma body_silent c hT tr : (forall tr, silent (hT tr)) -> silent (handleTraffic_body c hT tr).
Proof.
  intros HT. pose proof (fun d => sendLookup_silent c hT d HT) as Hn.
  unfold handleTraffic_body, rumorSendLookup, free_opt, time_Now. by follow_emits.
Qed.
Lemma pf_silent c n : forall tr, silent (pf_handleTraffic_fuel c n tr).
Proof. induction n as [|n IH]; intros tr; simpl; [apply emits_panic|by apply body_silent]. Qed.
Lemma doBroken_silent c tr : silent (doBroken c tr).
Proof.
  pose proof (fun d => sendLookup_silent c _ d (pf_silent c pf_depth)) as Hn.
  unfold doBroken, handleBroken, pf_sendLookup. by follow_emits.
Qed.
Lemma resetTimeout_silent c k : silent (resetTimeout c k).
Proof. unfold resetTimeout. by follow_emits. Qed.

(** A packet leaves by one peer, closer to its destination, with the distance of
    this node as its watermark and otherwise as it came; nothing else happens. *)
Lemma forwards_spec c r tr p tr' :
  node_ok r -> forwards c r tr p tr' ->
  let d := dist_to r (tr_path tr) (selfKey c) in
  d < tr_watermark tr /\ is_peer r p /\ dist_to r (tr_path tr) (p_key p) < d /\
  tr' = tr_set_watermark tr d /\
  exists r', handleTraffic c tr r = Some (tt, r', [ESendQueued p (PqTraffic tr')]).
Proof.
  intros [Hl Hk] (r' & es & E & Hin) d.
  pose proof (lookup_wp c (tr_path tr) (tr_watermark tr) r Hl Hk) as Hw. unfold wp in Hw.
  destruct (lookup c (tr_path tr) (Some (tr_watermark tr)) r) as [[[[o wm] r1] es1]|] eqn:El; [|done].
  destruct Hw as (-> & _ & _ & Hres). simpl in Hres. fold d in Hres. destruct o as [q|].
  - destruct Hres as [(Hlt & [= ->] & Hp & _)|[_ ?]]; [|done].
    pose proof (handleTraffic_peer _ _ _ _ _ _ El) as E'. rewrite E' in E. injection E as <- <-.
    apply list_elem_of_singleton in Hin. injection Hin as -> ->.
    destruct (Hp q eq_refl) as [Hp1 Hp2]. eauto 10.
  - exfalso. unfold handleTraffic, mbind at 1, act_bind at 1 in E. rewrite El in E. cbv zeta in E.
    assert (emits no_traffic (if bool_decide (tr_dest (tr_set_watermark tr (default (tr_watermark tr) wm)) = selfKey c) then
      _ ← resetTimeout c (tr_source (tr_set_watermark tr (default (tr_watermark tr) wm)));
      emit (EPconnTraffic (tr_set_watermark tr (default (tr_watermark tr) wm)))
      else doBroken c (tr_set_watermark tr (default (tr_watermark tr) wm)))) as Hs.
    { case_bool_decide; [|apply doBroken_silent].
      apply emits_bind; [apply resetTimeout_silent|]. intros _. by apply emits_emit. }
    specialize (Hs r1). match type of Hs with match ?x with _ => _ end => destruct x as [[[? ?] es2]|] eqn:E2 end; [|done].
    injection E as _ _ <-. exact (proj1 (Forall_forall no_traffic _) Hs _ Hin).
Qed.

(** A packet for this node, which no peer is closer to, goes to the application. *)
Lemma handleTraffic_local c tr r wm r' :
  lookup c (tr_path tr) (Some (tr_watermark tr)) r = Some ((None, Some wm), r', []) ->
  selfKey c = tr_dest tr ->
  exists es, handleTraffic c tr r = Some (tt, r', es ++ [EPconnTraffic (tr_set_watermark tr wm)]).
Proof.
  intros El Es. unfold handleTraffic, mbind, act_bind. rewrite El. simpl.
  rewrite bool_decide_eq_true_2 by done.
  unfold resetTimeout, mbind, act_bind, act_gets, act_emit.
  destruct (r_paths r' !! _) as [info|]; [destruct (pt_broken info)|]; simpl.
  - by exists [].
  - by exists [EResetTimer (pt_timer info) (pathTimeout (core_config c))].
  - by exists [].
Qed.

(** ** Forwarding stops, whatever the nodes believe *)

(** A node that forwards a packet: what came in, and what went out to whom. *)
Record hop := MkHop { h_core : core; h_router : router; h_in : traffic; h_peer : peer; h_out : traffic }.

(** The nodes, one after the other, that forward a packet: each gets what the
    one before it sent. *)
Inductive relayed : traffic -> list hop -> Prop :=
| relayed_nil tr : relayed tr []
| relayed_cons h l :
    forwards (h_core h) (h_router h) (h_in h) (h_peer h) (h_out h) -> relayed (h_out h) l -> relayed (h_in h) (h :: l).

(** The distance of a node to the destination of a packet, as the node sees it. *)
Definition own_dist (h : hop) (tr : traffic) : Z := dist_to (h_router h) (tr_path tr) (selfKey (h_core h)).

(** A hop of the packet [tr]: one copy goes out, to a peer that is closer, and it
    is the packet that came but for its watermark. *)
Definition good_hop (tr : traffic) (h : hop) : Prop :=
  is_peer (h_router h) (h_peer h) /\
  dist_to (h_router h) (tr_path tr) (p_key (h_peer h)) < own_dist h tr /\
  h_out h = tr_set_watermark tr (own_dist h tr) /\
  exists r', handleTraffic (h_core h) (h_in h) (h_router h) = Some (tt, r', [ESendQueued (h_peer h) (PqTraffic (h_out h))]).

Lemma good_hop_watermark tr wm h : good_hop (tr_set_watermark tr wm) h -> good_hop tr h.
Proof. done. Qed.

Lemma relayed_good tr l :
  Forall (fun h => node_ok (h_router h)) l -> relayed tr l ->
  Forall (good_hop tr) l /\ (l = [] \/ Z.of_nat (length l) < tr_watermark tr).
Proof.
  intros Hok Hr. induction Hr as [tr|h l Hf _ IH]; [by split; [|left]|].
  apply Forall_cons in Hok as [Hc Hok].
  destruct (forwards_spec _ _ _ _ _ Hc Hf) as (Hlt & Hp & Hd & Eo & He). destruct (IH Hok) as [Hg Hl].
  split.
  - constructor; [done|]. rewrite Eo in Hg. eapply Forall_impl; [exact Hg|]. intros h'. apply good_hop_watermark.
  - right. pose proof (dist_to_nonneg (h_router h) (tr_path (h_in h)) (p_key (h_peer h))).
    rewrite Eo in Hl. destruct Hl as [->|Hl]; simpl in *; lia.
Qed.

Lemma relayed_first tr h l :
  Forall (fun h => node_ok (h_router h)) (h :: l) -> relayed tr (h :: l) ->
  Z.of_nat (length (h :: l)) <= own_dist h tr.
Proof.
  intros Hok Hr. inversion Hr as [|? ? Hf Hr' E1 E2]; subst. apply Forall_cons in Hok as [Hc Hok].
  destruct (forwards_spec _ _ _ _ _ Hc Hf) as (Hlt & _ & Hp & Eo & _). unfold own_dist.
  pose proof (dist_to_nonneg (h_router h) (tr_path (h_in h)) (p_key (h_peer h))).
  destruct (relayed_good _ _ Hok Hr') as [_ Hl]. rewrite Eo in Hl. destruct Hl as [->|Hlen]; simpl in *; lia.
Qed.
End forwarding.

(** ** Positions in a tree with distinct ports *)

Definition sibling_ports (infos : gmap publicKey routerInfo) : Prop :=
  forall a b ia ib, infos !! a = Some ia -> infos !! b = Some ib ->
    info_parent ia <> a -> info_parent ib <> b ->
    info_parent ia = info_parent ib -> info_port ia = info_port ib -> a = b.

Lemma rooted_known infos k r p : rooted infos k r p -> is_Some (infos !! k).
Proof. inversion 1; eauto. Qed.

Lemma rooted_nil infos k r : rooted infos k r [] -> r = k.
Proof.
  intros Hr. remember [] as q eqn:Eq. destruct Hr as [|? ? ? p]; [done|]. by destruct p.
Qed.

Lemma rooted_snoc infos k r p x :
  rooted infos k r (p ++ [x]) ->
  exists info, infos !! k = Some info /\ info_parent info <> k /\
    rooted infos (info_parent info) r p /\ info_port info = x.
Proof.
  intros Hr. remember (p ++ [x]) as q eqn:Eq. destruct Hr as [|k info r p' E Hne Hp].
  - by destruct p.
  - apply app_inj_tail in Eq as [-> <-]. by exists info.
Qed.

Lemma rooted_prefix infos q : forall k r p,
  rooted infos k r (p ++ q) -> exists k', rooted infos k' r p.
Proof.
  induction q as [|x q IH] using rev_ind; intros k r p Hr.
  - rewrite app_nil_r in Hr. by exists k.
  - rewrite app_assoc in Hr. apply rooted_snoc in Hr as (info & _ & _ & Hr & _). by eapply IH.
Qed.

Lemma rooted_position infos root p : sibling_ports infos ->
  forall a b, rooted infos a root p -> rooted infos b root p -> a = b.
Proof.
  intros Hs. induction p as [|x p IH] using rev_ind; intros a b Ha Hb.
  - apply rooted_nil in Ha, Hb. congruence.
  - apply rooted_snoc in Ha as (ia & Ea & Hna & Hpa & Ex), Hb as (ib & Eb & Hnb & Hpb & Ex').
    apply (Hs a b ia ib); try done; [by apply IH|congruence].
Qed.

(** Linked along the tree. *)
Definition tree_neighbour (infos : gmap publicKey routerInfo) (a b : publicKey) : Prop :=
  a <> b /\ (parent_of infos a = Some b \/ parent_of infos b = Some a).

(** From a position other than the destination's, a tree neighbour is one hop closer. *)
Lemma neighbour_closer infos root a b pa pb :
  sibling_ports infos -> rooted infos a root pa -> rooted infos b root pb -> pa <> pb ->
  exists k pk, tree_neighbour infos a k /\ rooted infos k root pk /\
    tree_dist pk pb = tree_dist pa pb - 1.
Proof.
  intros Hs Ha Hb Hne. destruct (tree_dist_progress pa pb Hne) as [(x & q & -> & Hd)|(p & y & -> & Hd)].
  - rewrite (cons_middle x pa q), app_assoc in Hb.
    destruct (rooted_prefix _ _ _ _ _ Hb) as [k Hk].
    exists k, (pa ++ [x]). split_and!; [|done|done].
    apply rooted_snoc in Hk as (ik & Ek & Hnk & Hpk & _).
    rewrite (rooted_position infos root pa Hs a (info_parent ik) Ha Hpk).
    split; [congruence|]. right. unfold parent_of. by rewrite Ek.
  - apply rooted_snoc in Ha as (ia & Ea & Hna & Hpa & _).
    exists (info_parent ia), p. split_and!; [|done|done].
    split; [congruence|]. left. unfold parent_of. by rewrite Ea.
Qed.

(** ** Delivery in a settled network *)

(** Every node knows the same infos, which form one tree with distinct ports
    among siblings; the nodes are linked at least along the tree. *)
Record settled (infos : gmap publicKey routerInfo) (root : publicKey)
    (net : gmap publicKey (core * router)) : Prop := {
  se_rooted k : k ∈ dom infos -> exists p, rooted infos k root p;
  se_ports : sibling_ports infos;
  se_size : Z.of_nat (base.size infos) < 2 ^ 63;
  se_nodes : dom net = dom infos;
  se_node k c r : net !! k = Some (c, r) -> selfKey c = k /\ r_infos r = infos /\ node_ok r;
  se_links k c r k' : net !! k = Some (c, r) -> tree_neighbour infos k k' ->
    exists p, is_peer r p /\ p_key p = k';
  se_peers k c r p : net !! k = Some (c, r) -> is_peer r p -> p_key p ∈ dom infos
}.

Section delivery.
Context `{Ed25519} `{BloomHash} `{MapOrder}.
Context (infos : gmap publicKey routerInfo) (root : publicKey)
  (net : gmap publicKey (core * router)).
Hypothesis Hnet : settled infos root net.

(** A packet [tr] at a node is handed to the application of its destination, as
    [out], after [n] hops: at each hop the handler of the node sends a packet to
    a peer, and the node of that peer handles what was sent. *)
Inductive delivered : nat -> publicKey -> traffic -> traffic -> Prop :=
| delivered_here c r tr r' es out :
    net !! tr_dest tr = Some (c, r) ->
    handleTraffic c tr r = Some (tt, r', es ++ [EPconnTraffic out]) ->
    delivered 0 (tr_dest tr) tr out
| delivered_hop n k c r tr r' p tr' out :
    net !! k = Some (c, r) ->
    handleTraffic c tr r = Some (tt, r', [ESendQueued p (PqTraffic tr')]) ->
    delivered n (p_key p) tr' out ->
    delivered (S n) k tr out.

Lemma rooted_fits k p : rooted infos k root p -> path_fits p.
Proof.
  intros Hr. pose proof (length_getRootAndPath infos k) as Hl.
  rewrite (getRootAndPath_rooted _ _ _ _ Hr) in Hl. simpl in Hl.
  pose proof (se_size _ _ _ Hnet). unfold path_fits. lia.
Qed.

Lemma dist_to_rooted r k p path : r_infos r = infos -> rooted infos k root p ->
  path_fits path -> dist_to r path k = tree_dist p path.
Proof.
  intros E Hr Hp. unfold dist_to. rewrite E, (getRootAndPath_rooted _ _ _ _ Hr).
  apply pathDist_eq; [by eapply rooted_fits|done].
Qed.

Lemma greedy_deliver d : forall k pk pd tr,
  rooted infos k root pk -> rooted infos (tr_dest tr) root pd -> tr_path tr = pd ->
  tree_dist pk pd < tr_watermark tr -> tree_dist pk pd < Z.of_nat d ->
  exists n wm, Z.of_nat n <= tree_dist pk pd /\ delivered n k tr (tr_set_watermark tr wm).
Proof.
  induction d as [|d IH]; intros k pk pd tr Hk Hd Hpath Hwm Hdist.
  { pose proof (tree_dist_nonneg pk pd). lia. }
  pose proof (rooted_fits _ _ Hk) as Fk. pose proof (rooted_fits _ _ Hd) as Fd.
  assert (exists c r, net !! k = Some (c, r)) as (c & r & En).
  { assert (k ∈ dom net) as [[c r] E]%elem_of_dom; [|eauto].
    rewrite (se_nodes _ _ _ Hnet). apply elem_of_dom. by eapply rooted_known. }
  destruct (se_node _ _ _ Hnet k c r En) as (Eself & Einf & Hlk & Hkey).
  pose proof (lookup_wp c (tr_path tr) (tr_watermark tr) r Hlk Hkey) as Hw. unfold wp in Hw.
  destruct (lookup c (tr_path tr) (Some (tr_watermark tr)) r) as [[[[o wm] r1] es]|] eqn:El; [|done].
  destruct Hw as (-> & _ & _ & Hres). simpl in Hres.
  rewrite Eself, Hpath, (dist_to_rooted r k pk pd Einf Hk Fd) in Hres.
  destruct Hres as [(_ & [= ->] & Hsome & Hnone)|[? _]]; [|lia].
  destruct (decide (pk = pd)) as [->|Hne].
  - (* at the destination no peer is closer *)
    exists 0%nat, 0. rewrite tree_dist_refl in *. split; [lia|].
    assert (tr_dest tr = k) as <- by by eapply rooted_position; [apply Hnet|..].
    destruct o as [p|].
    { destruct (Hsome p eq_refl) as [_ Hlt]. pose proof (dist_to_nonneg r pd (p_key p)). lia. }
    destruct (handleTraffic_local c tr r 0 r1 El Eself) as [es E].
    by eapply delivered_here.
  - destruct (neighbour_closer infos root k (tr_dest tr) pk pd (se_ports _ _ _ Hnet) Hk Hd Hne)
      as (k' & pk' & Hnb & Hk' & Hcl).
    destruct (se_links _ _ _ Hnet k c r k' En Hnb) as (p' & Hp' & Ep').
    destruct o as [p|].
    2:{ specialize (Hnone eq_refl p' Hp'). rewrite Ep' in Hnone.
        rewrite (dist_to_rooted r k' pk' pd Einf Hk' Fd) in Hnone. lia. }
    destruct (Hsome p eq_refl) as [Hp Hlt].
    destruct (se_rooted _ _ _ Hnet (p_key p) (se_peers _ _ _ Hnet k c r p En Hp)) as [pp Hpp].
    rewrite (dist_to_rooted r (p_key p) pp pd Einf Hpp Fd) in Hlt.
    destruct (IH (p_key p) pp pd (tr_set_watermark tr (tree_dist pk pd)) Hpp Hd Hpath Hlt)
      as (n & wm & Hn & Hdel); [lia|].
    exists (S n), wm. split; [lia|]. eapply delivered_hop; [exact En|by apply handleTraffic_peer, El|exact Hdel].
Qed.
End delivery.

(** ** Theorems *)

(** C9: whatever the nodes believe about the tree, where a packet is forwarded from one node to
    the next, each of them sends out one copy of it and does nothing else with it; the copy goes
    to a peer that is closer to the destination than the node, and is the packet as it set out
    but for the watermark, which is lowered to the distance of the node; and there are at most as
    many such nodes as the first one's distance: routing loops end. *)
Theorem forwarding_bounded `{Ed25519} `{BloomHash} `{MapOrder} tr h l :
  Forall (fun h => node_ok (h_router h)) (h :: l) -> relayed tr (h :: l) ->
  Forall (good_hop tr) (h :: l) /\ Z.of_nat (length (h :: l)) <= own_dist h tr.
Proof. intros Hok Hr. split; [by apply relayed_good|by apply relayed_first]. Qed.

(** C2: in a network whose nodes know the same tree with distinct ports among siblings, and are
    linked along it, every packet with the path of its destination and the watermark that it
    sets out with arrives there: each node hands on a packet that the node of its peer handles, and after at most as many hops as the
    tree distance the destination's router gives to the application the packet that set out, with
    its source, destination, paths and payload; only its watermark is another. *)
Theorem greedy_delivery `{Ed25519} `{BloomHash} `{MapOrder} infos root net k pk tr :
  settled infos root net ->
  rooted infos k root pk -> rooted infos (tr_dest tr) root (tr_path tr) ->
  tr_watermark tr = max_u64 ->
  exists n wm, Z.of_nat n <= tree_dist pk (tr_path tr) /\ delivered net n k tr (tr_set_watermark tr wm).
Proof.
  intros Hnet Hk Hd Hwm. pose proof (tree_dist_nonneg pk (tr_path tr)).
  apply (greedy_deliver infos root net Hnet (S (Z.to_nat (tree_dist pk (tr_path tr)))) k pk
    (tr_path tr)); try done; [|lia].
  rewrite Hwm. unfold max_u64, tree_dist.
  pose proof (rooted_fits _ _ _ Hnet _ _ Hk). pose proof (rooted_fits _ _ _ Hnet _ _ Hd).
  unfold path_fits in *. lia.
Qed.

(** ** A chain of three nodes: 1 is the root, 2 its child, 3 the child of 2 *)

Definition chain_key (i : nat) : publicKey :=
  sample_key (match i with 1%nat => Byte.x01 | 2%nat => Byte.x02 | _ => Byte.x03 end).
Definition chain_info (i : nat) : routerInfo :=
  MkInfo (chain_key (match i with 3%nat => 2 | _ => 1 end))
    (MkSigRes (MkSigReq 1 1) (match i with 1%nat => 0 | _ => 7 end) (zero_array 64)) (zero_array 64).
Definition chain_infos : gmap publicKey routerInfo :=
  {[ chain_key 1 := chain_info 1; chain_key 2 := chain_info 2; chain_key 3 := chain_info 3 ]}.

Definition chain_link (i : nat) : peer := MkPeer (chain_key i) "tcp" 1 0 (Z.of_nat i).
Definition chain_peers (i : nat) : list nat :=
  match i with 2%nat => [1; 3]%nat | _ => [2]%nat end.
Definition chain_core (i : nat) : core :=
  MkCore configDefaults (MkCrypto (zero_array 64) (chain_key i)).
Definition chain_router (i : nat) : router :=
  set_r_infos (fun _ => chain_infos)
    (set_r_peers (fun _ => list_to_map ((fun j => (chain_key j, {[chain_link j]})) <$> chain_peers i))
      (router_zero (MkEnv 0 [] 0))).
Definition chain_net : gmap publicKey (core * router) :=
  {[ chain_key 1 := (chain_core 1, chain_router 1); chain_key 2 := (chain_core 2, chain_router 2);
     chain_key 3 := (chain_core 3, chain_router 3) ]}.
Definition chain_packet : traffic :=
  MkTraffic [7; 7] [] (chain_key 1) (chain_key 3) max_u64 [Byte.x2a].

Definition one_to_three (i : nat) : Prop := i = 1%nat \/ i = 2%nat \/ i = 3%nat.

Lemma chain_infos_inv k info : chain_infos !! k = Some info ->
  exists i, one_to_three i /\ k = chain_key i /\ info = chain_info i.
Proof.
  unfold chain_infos, one_to_three. rewrite !lookup_insert_Some, lookup_singleton_Some.
  intros [[<- <-] | (_ & [[<- <-] | (_ & [<- <-])])]; eauto 10.
Qed.

Lemma chain_net_inv k c r : chain_net !! k = Some (c, r) ->
  exists i, one_to_three i /\ k = chain_key i /\ c = chain_core i /\ r = chain_router i.
Proof.
  unfold chain_net, one_to_three. rewrite !lookup_insert_Some, lookup_singleton_Some.
  intros [[<- [= <- <-]]|(_ & [[<- [= <- <-]]|(_ & [<- [= <- <-]])])]; eauto 10.
Qed.

Lemma chain_key_inj i j : one_to_three i -> one_to_three j -> chain_key i = chain_key j -> i = j.
Proof. intros [-> | [-> | ->]] [-> | [-> | ->]] E; first [done|by apply (f_equal arr_list) in E]. Qed.

Lemma chain_infos_key i : one_to_three i -> chain_infos !! chain_key i = Some (chain_info i).
Proof. by intros [-> | [-> | ->]]. Qed.

Lemma chain_rooted_at i : one_to_three i ->
  rooted chain_infos (chain_key i) (chain_key 1) (replicate (i - 1) 7).
Proof.
  assert (rooted chain_infos (chain_key 1) (chain_key 1) []) as H1.
  { by eapply rooted_root; [apply (chain_infos_key 1); left|]. }
  assert (rooted chain_infos (chain_key 2) (chain_key 1) [7]) as H2.
  { apply (rooted_child _ _ (chain_info 2) _ []); [by apply chain_infos_key; right; left|done|done]. }
  intros [-> | [-> | ->]]; [done|done|].
  apply (rooted_child _ _ (chain_info 3) _ [7]); [by apply chain_infos_key; right; right|done|done].
Qed.

Lemma chain_peers_inv i k ps : one_to_three i -> r_peers (chain_router i) !! k = Some ps ->
  exists j, j ∈ chain_peers i /\ one_to_three j /\ k = chain_key j /\ ps = {[chain_link j]}.
Proof.
  unfold one_to_three. intros [-> | [-> | ->]]; cbn [chain_peers chain_router r_peers set_r_peers set_r_infos fmap
    list_fmap list_to_map foldr fst snd uncurry]; rewrite ?lookup_insert_Some, lookup_empty;
    intros [[<- <-]|[_ Hr]]; try done; [exists 2%nat|exists 1%nat| |exists 2%nat];
    rewrite ?elem_of_cons; eauto 10.
  destruct Hr as [[<- <-]|[_ Hr]]; [|done]. exists 3%nat. rewrite !elem_of_cons. eauto 10.
Qed.

Lemma chain_node_ok i : one_to_three i -> node_ok (chain_router i).
Proof.
  intros Hi. split; [split|].
  - intros k p. by destruct i as [|[|[|[]]]].
  - intros k p. by destruct i as [|[|[|[]]]].
  - intros k ps E. destruct (chain_peers_inv i k ps Hi E) as (j & _ & _ & -> & ->). set_solver.
Qed.

Lemma chain_links i j : one_to_three i -> one_to_three j ->
  j ∈ chain_peers i -> is_peer (chain_router i) (chain_link j).
Proof.
  intros [-> | [-> | ->]] [-> | [-> | ->]]; cbn [chain_peers]; rewrite ?elem_of_cons, elem_of_nil;
    intros Hj; try (exfalso; lia); (eexists; split; [reflexivity|set_solver]).
Qed.

Lemma chain_neighbour i k : one_to_three i ->
  tree_neighbour chain_infos (chain_key i) k ->
  exists j, one_to_three j /\ k = chain_key j /\ j ∈ chain_peers i.
Proof.
  intros Hi [Hne [Hp|Hp]].
  - unfold parent_of in Hp. rewrite (chain_infos_key i Hi) in Hp. injection Hp as <-.
    destruct Hi as [-> | [-> | ->]]; [done|exists 1%nat|exists 2%nat];
      (split; [unfold one_to_three; auto|split; [done|set_solver]]).
  - unfold parent_of in Hp. apply fmap_Some in Hp as (info & E & Ep).
    destruct (chain_infos_inv _ _ E) as (j & Hj & -> & ->). exists j. split_and!; [done|done|].
    destruct Hi as [-> | [-> | ->]], Hj as [-> | [-> | ->]]; try done;
      first [set_solver|by apply (f_equal arr_list) in Ep].
Qed.

Lemma chain_settled : settled chain_infos (chain_key 1) chain_net.
Proof.
  split.
  - intros k [info E]%elem_of_dom. destruct (chain_infos_inv _ _ E) as (i & Hi & -> & _).
    exists (replicate (i - 1) 7). by apply chain_rooted_at.
  - intros a b ia ib Ea Eb. destruct (chain_infos_inv _ _ Ea) as (i & Hi & -> & ->).
    destruct (chain_infos_inv _ _ Eb) as (j & Hj & -> & ->).
    destruct Hi as [-> | [-> | ->]], Hj as [-> | [-> | ->]]; intros H1 H2 H3 _; try done;
      by apply (f_equal arr_list) in H3.
  - reflexivity.
  - reflexivity.
  - intros k c r E. destruct (chain_net_inv _ _ _ E) as (i & Hi & -> & -> & ->).
    split_and!; [done|done|by apply chain_node_ok].
  - intros k c r k' E Hnb. destruct (chain_net_inv _ _ _ E) as (i & Hi & -> & -> & ->).
    destruct (chain_neighbour i k' Hi Hnb) as (j & Hj & -> & Hin).
    exists (chain_link j). split; [by apply chain_links|done].
  - intros k c r p E (ps & Eps & Hp). destruct (chain_net_inv _ _ _ E) as (i & Hi & -> & -> & ->).
    destruct (chain_peers_inv i _ _ Hi Eps) as (j & _ & Hj & Ek & _). rewrite Ek.
    apply elem_of_dom. rewrite chain_infos_key by done. eauto.
Qed.

Lemma greedy_delivery_witness :
  exists n wm, Z.of_nat n <= tree_dist [] [7; 7] /\
    @delivered toy_ed25519 toy_hash trie_order chain_net n (chain_key 1) chain_packet (tr_set_watermark chain_packet wm).
Proof.
  apply (@greedy_delivery toy_ed25519 toy_hash trie_order chain_infos (chain_key 1) chain_net
    (chain_key 1) [] chain_packet).
  - apply chain_settled.
  - apply (chain_rooted_at 1). left. reflexivity.
  - apply (chain_rooted_at 3). right. right. reflexivity.
  - reflexivity.
Defined.

(** The packet from 1 to 3, at 1 and at 2. *)
Definition chain_hop (i : nat) (tr tr' : traffic) : hop :=
  MkHop (chain_core i) (chain_router i) tr (chain_link (S i)) tr'.
Definition chain_hops : list hop :=
  [ chain_hop 1 chain_packet (tr_set_watermark chain_packet 2);
    chain_hop 2 (tr_set_watermark chain_packet 2) (tr_set_watermark chain_packet 1) ].

Definition sent_on `{Ed25519} `{BloomHash} `{MapOrder} (h : hop) : bool :=
  match handleTraffic (h_core h) (h_in h) (h_router h) with
  | Some (_, _, [ESendQueued p (PqTraffic tr)]) => bool_decide (p = h_peer h) && bool_decide (tr = h_out h)
  | _ => false
  end.

Lemma sent_on_forwards `{Ed25519} `{BloomHash} `{MapOrder} h :
  sent_on h = true -> forwards (h_core h) (h_router h) (h_in h) (h_peer h) (h_out h).
Proof.
  unfold sent_on, forwards. destruct (handleTraffic _ _ _) as [[[[] r'] es]|]; [|done].
  intros Hs. destruct es as [|[| | | |p [tr| | |]| | | | | | |] [|]]; try done.
  apply andb_true_iff in Hs as [->%bool_decide_eq_true ->%bool_decide_eq_true].
  eexists _, _. split; [done|]. by apply list_elem_of_singleton.
Qed.

Lemma chain_relayed : @relayed toy_ed25519 toy_hash trie_order chain_packet chain_hops.
Proof.
  apply (@relayed_cons toy_ed25519 toy_hash trie_order (chain_hop 1 chain_packet _)); [apply sent_on_forwards; vm_compute; reflexivity|].
  apply (@relayed_cons toy_ed25519 toy_hash trie_order (chain_hop 2 _ _)); [apply sent_on_forwards; vm_compute; reflexivity|].
  apply relayed_nil.
Qed.

Lemma forwarding_bounded_witness :
  Forall (@good_hop toy_ed25519 toy_hash trie_order chain_packet) chain_hops /\
  2 <= own_dist (chain_hop 1 chain_packet (tr_set_watermark chain_packet 2)) chain_packet.
Proof.
  apply (@forwarding_bounded toy_ed25519 toy_hash trie_order chain_packet).
  - apply Forall_cons. split; [apply chain_node_ok; left; reflexivity|].
    apply Forall_singleton. apply chain_node_ok. right. left. reflexivity.
  - exact chain_relayed.
Defined.

(** ** The choice of the next hop *)

(** Given a watermark, [_lookup] never panics and changes only the path and penalty caches:
    when our distance to the destination is below the watermark it lowers the watermark to it and
    returns a connected peer strictly closer to the destination, or no peer exactly when none is
    closer; otherwise it returns no peer and keeps the watermark. *)
Theorem next_hop_closer `{MapOrder} c r path wm :
  node_ok r ->
  exists res r', lookup c path (Some wm) r = Some (res, r', []) /\ node_ok r' /\ same_routes r r' /\
    let d := dist_to r path (selfKey c) in
    (d < wm /\ res.2 = Some d /\
      (forall p, res.1 = Some p -> is_peer r p /\ dist_to r path (p_key p) < d) /\
      (res.1 = None <-> forall p, is_peer r p -> d <= dist_to r path (p_key p))
     \/ wm <= d /\ res = (None, Some wm)).
Proof.
  intros [Hl Hk]. pose proof (lookup_wp c path wm r Hl Hk) as Hw. unfold wp in Hw.
  destruct (lookup c path (Some wm) r) as [[[res r'] es]|]; [|done].
  destruct Hw as (-> & Hl' & Hs & Hres). exists res, r'. split_and!; [done| |done|].
  - split; [done|]. intros k ps. rewrite (same_routes_peers r r' Hs). apply Hk.
  - destruct Hres as [(Hlt & Hwm & Hp & Hn)|?]; [left|by right]. split_and!; [done..|].
    split; [done|]. intros Hall. destruct res as [[p|] ?]; [|done].
    destruct (Hp p eq_refl) as [Hpeer Hd]. pose proof (Hall p Hpeer). simpl in *. lia.
Qed.

(** The other way round. *)
Definition rev_order : MapOrder := {|
  map_order := fun K _ _ X => reverse (elements X);
  map_order_perm := fun K _ _ X => reverse_Permutation (elements X)
|}.

(** Two links to node 1, the better one by priority slow, and one to node 2. *)
Definition fork_links : list peer :=
  [MkPeer (chain_key 1) "tls" 1 0 1; MkPeer (chain_key 1) "tcp" 1 1 2; MkPeer (chain_key 2) "tls" 2 0 3].
Definition fork_router : router :=
  set_r_infos (fun _ => chain_infos)
    (set_r_peers (fun _ => {[ chain_key 1 := list_to_set (take 2 fork_links);
                              chain_key 2 := list_to_set (drop 2 fork_links) ]})
      (set_r_lags (fun _ => list_to_map (zip fork_links [100 * Millisecond; Millisecond; 10 * Millisecond]))
        (router_zero (MkEnv 0 [] 0)))).

Definition chosen {A E} (o : option (option peer * option Z * A * E)) : option peer :=
  match o with Some (p, _, _, _) => p | None => None end.

(** The next hop depends on the order in which Go visits its maps: with the same peers, costs
    and destination, one order gives node 2 and the other the link to node 1 with the higher
    priority number, although a link to node 1 with a lower one is up: the comparison of the
    second loop is not transitive. *)
Theorem next_hop_depends_on_order :
  let wm := Some max_u64 in
  let p := chosen (@lookup trie_order (chain_core 3) [8; 8] wm fork_router) in
  let p' := chosen (@lookup rev_order (chain_core 3) [8; 8] wm fork_router) in
  p = fork_links !! 1%nat /\ p' = fork_links !! 2%nat.
Proof. cbv zeta. apply (bool_decide_unpack _). vm_compute. exact I. Qed.
