(* ===== verification/Core.v ===== *)
(** * Configuration and start of a node

    [ironwood/network/config.go] and [ironwood/network/core.go]: the options
    of a [PacketConn], and the node they and the secret key make. *)

From S2P Require Import Prelude Crypto RouterState.

(** An option changes the configuration it is given. *)
Definition Option : Type := config -> config.

Definition WithRouterRefresh (duration : Z) : Option := fun c =>
  MkConfig duration (routerTimeout c) (peerKeepAliveDelay c) (peerTimeout c) (peerMaxMessageSize c)
    (bloomTransform c) (pathTimeout c) (pathThrottle c).
Definition WithRouterTimeout (duration : Z) : Option := fun c =>
  MkConfig (routerRefresh c) duration (peerKeepAliveDelay c) (peerTimeout c) (peerMaxMessageSize c)
    (bloomTransform c) (pathTimeout c) (pathThrottle c).
Definition WithPeerKeepAliveDelay (duration : Z) : Option := fun c =>
  MkConfig (routerRefresh c) (routerTimeout c) duration (peerTimeout c) (peerMaxMessageSize c)
    (bloomTransform c) (pathTimeout c) (pathThrottle c).
Definition WithPeerTimeout (duration : Z) : Option := fun c =>
  MkConfig (routerRefresh c) (routerTimeout c) (peerKeepAliveDelay c) duration (peerMaxMessageSize c)
    (bloomTransform c) (pathTimeout c) (pathThrottle c).
Definition WithPeerMaxMessageSize (size : Z) : Option := fun c =>
  MkConfig (routerRefresh c) (routerTimeout c) (peerKeepAliveDelay c) (peerTimeout c) size
    (bloomTransform c) (pathTimeout c) (pathThrottle c).
Definition WithBloomTransform (xform : list byte -> list byte) : Option := fun c =>
  MkConfig (routerRefresh c) (routerTimeout c) (peerKeepAliveDelay c) (peerTimeout c) (peerMaxMessageSize c)
    xform (pathTimeout c) (pathThrottle c).
Definition WithPathTimeout (duration : Z) : Option := fun c =>
  MkConfig (routerRefresh c) (routerTimeout c) (peerKeepAliveDelay c) (peerTimeout c) (peerMaxMessageSize c)
    (bloomTransform c) duration (pathThrottle c).
Definition WithPathThrottle (duration : Z) : Option := fun c =>
  MkConfig (routerRefresh c) (routerTimeout c) (peerKeepAliveDelay c) (peerTimeout c) (peerMaxMessageSize c)
    (bloomTransform c) (pathTimeout c) duration.

(** [core.init]: the defaults are the first option; the router, the registry and
    the [PacketConn] start from their own [init]. *)
Definition core_init `{Ed25519} (secret : privateKey) (opts : list Option) : core :=
  MkCore (fold_left (fun c opt => opt c) opts configDefaults) (crypto_init secret).
