(* ===== verification/Peers.v ===== *)
(** * The registry of peers

    [ironwood/network/peers.go], type [peers]: which connections are up, the
    port that names each neighbour in source-routed paths, and the order in
    which connections came up. *)

From S2P Require Import Prelude Crypto Wire Messages Bloom RouterState.

(** Links by key, ports in use, and the counter of [order]. *)
Record peersState := MkPeers {
  ps_ports : gset Z;
  ps_peers : gmap publicKey (gset peer);
  ps_order : Z
}.

Definition peers_init : peersState := MkPeers ∅ ∅ 0.

(** A connection is [nil], or has a [Protocol()] method or not. *)
Definition peerProtocolFromConn (conn : option (option string)) : string :=
  match conn with
  | None => "UNKNOWN"
  | Some (Some protocol) => if String.eqb protocol "" then "UNKNOWN" else protocol
  | Some None => "UNKNOWN"
  end.

(** [for idx := 1; ; idx++]: the search for a free port. *)
Fixpoint free_port (fuel : nat) (ports : gset Z) (idx : Z) : option Z :=
  match fuel with
  | O => None
  | S fuel' => if bool_decide (idx ∈ ports) then free_port fuel' ports (idx + 1) else Some idx
  end.

Section peers.
Context `{MapOrder}.

(** The port for a key, and the registry with the port taken. *)
Definition allocate_port (key : publicKey) (ps : peersState) : result (Z * peersState) :=
  match ps_peers ps !! key with
  | Some keyPeers =>
      let port := match map_order keyPeers with p :: _ => p_port p | [] => 0 end in
      Ret (port, ps)
  | None =>
      match free_port (S (base.size (ps_ports ps))) (ps_ports ps) 1 with
      | None => Panic
      | Some port =>
          Ret (port, MkPeers ({[port]} ∪ ps_ports ps) (<[key := ∅]> (ps_peers ps)) (ps_order ps))
      end
  end.

(** [closed] tells whether the [PacketConn] is closed. *)
Definition peers_addPeer (closed : bool) (key : publicKey) (conn : option (option string)) (prio : Z)
    (ps : peersState) : result (peer * peersState) :=
  if closed then Fail ErrClosed
  else
    '(port, ps) ← allocate_port key ps;
    let p := MkPeer key (peerProtocolFromConn conn) port prio (ps_order ps) in
    mret (p, MkPeers (ps_ports ps) (alter (fun s => {[p]} ∪ s) key (ps_peers ps))
               (u64 (ps_order ps + 1))).

Definition peers_removePeer (p : peer) (ps : peersState) : result peersState :=
  let kps := default ∅ (ps_peers ps !! p_key p) in
  if negb (bool_decide (p ∈ kps)) then Fail ErrPeerNotFound
  else
    let kps := kps ∖ {[p]} in
    if bool_decide (kps = ∅) then
      mret (MkPeers (ps_ports ps ∖ {[p_port p]}) (delete (p_key p) (ps_peers ps)) (ps_order ps))
    else mret (MkPeers (ps_ports ps) (<[p_key p := kps]> (ps_peers ps)) (ps_order ps)).
End peers.

(** ** Invariant *)

Definition registered (ps : peersState) (p : peer) : Prop :=
  exists s, ps_peers ps !! p_key p = Some s /\ p ∈ s.

#[global] Instance registered_dec ps p : Decision (registered ps p).
Proof.
  unfold registered. destruct (ps_peers ps !! p_key p) as [s|] eqn:E.
  - destruct (decide (p ∈ s)); [left; by exists s|right]. by intros (? & [= <-] & ?).
  - right. by intros (? & ? & _).
Defined.

Record peers_ok (ps : peersState) : Prop := {
  po_keyed : map_Forall (fun k s => s <> ∅ /\ forall p, p ∈ s -> p_key p = k) (ps_peers ps);
  po_ports port : port ∈ ps_ports ps <-> exists p, registered ps p /\ p_port p = port;
  po_same p q : registered ps p -> registered ps q -> p_key p = p_key q <-> p_port p = p_port q;
  po_pos p : registered ps p -> 0 < p_port p;
  po_order p : registered ps p -> 0 <= p_order p < ps_order ps;
  po_distinct p q : registered ps p -> registered ps q -> p_order p = p_order q -> p = q
}.

(** ** The search for a port *)

Lemma free_port_None fuel ports : forall idx, free_port fuel ports idx = None ->
  forall i, idx <= i < idx + Z.of_nat fuel -> i ∈ ports.
Proof.
  induction fuel as [|fuel IH]; intros idx E i Hi; [lia|]. simpl in E. case_bool_decide; [|done].
  destruct (decide (i = idx)) as [->|]; [done|]. apply (IH (idx + 1)); [done|lia].
Qed.

Lemma free_port_Some fuel ports : forall idx port, free_port fuel ports idx = Some port ->
  idx <= port /\ port ∉ ports /\ forall i, idx <= i < port -> i ∈ ports.
Proof.
  induction fuel as [|fuel IH]; intros idx port E; [done|]. simpl in E. case_bool_decide.
  - destruct (IH _ _ E) as (Hle & Hn & Hall). split_and!; [lia|done|]. intros i Hi.
    destruct (decide (i = idx)) as [->|]; [done|]. apply Hall. lia.
  - injection E as <-. split_and!; [lia|done|lia].
Qed.

(** One round more than there are ports is enough. *)
Lemma free_port_total ports : exists port, free_port (S (base.size ports)) ports 1 = Some port /\
  0 < port /\ port ∉ ports /\ forall i, 0 < i < port -> i ∈ ports.
Proof.
  destruct (free_port (S (base.size ports)) ports 1) as [port|] eqn:E.
  - exists port. destruct (free_port_Some _ _ _ _ E) as (? & ? & Hall).
    split_and!; [done|lia|done|]. intros i Hi. apply Hall. lia.
  - pose proof (free_port_None _ _ _ E) as Hall. exfalso.
    assert ((list_to_set (seqZ 1 (Z.of_nat (S (base.size ports)))) : gset Z) ⊆ ports) as Hsub.
    { intros i Hi. apply elem_of_list_to_set, elem_of_seqZ in Hi. apply Hall. lia. }
    apply subseteq_size in Hsub. rewrite size_list_to_set in Hsub by apply NoDup_seqZ.
    rewrite length_seqZ in Hsub. lia.
Qed.

(** ** Connecting *)

Section spec.
Context `{MapOrder}.

Lemma registered_add ps m ports order p :
  (m = ps_peers ps /\ is_Some (m !! p_key p) \/
   m = <[p_key p := ∅]> (ps_peers ps) /\ ps_peers ps !! p_key p = None) ->
  forall q, registered (MkPeers ports (alter (fun s => {[p]} ∪ s) (p_key p) m) order) q <->
    registered ps q \/ q = p.
Proof.
  intros Hm q. unfold registered. simpl. destruct (decide (p_key q = p_key p)) as [Ek|Ek].
  - rewrite Ek, lookup_alter_eq. destruct Hm as [[-> [s Es]]|[-> Es]].
    + rewrite Es. simpl. split.
      * intros (s' & [= <-] & Hq). apply elem_of_union in Hq as [->%elem_of_singleton|Hq]; [by right|].
        left. by exists s.
      * intros [(s' & [= <-] & Hq)| ->]; eexists; (split; [done|set_solver]).
    + rewrite lookup_insert_eq, Es. simpl. split.
      * intros (s' & [= <-] & Hq). right. set_solver.
      * intros [(s' & [=] & _)| ->]. eexists. split; [done|set_solver].
  - rewrite lookup_alter_ne by done. destruct Hm as [[-> _]|[-> _]];
      [|rewrite lookup_insert_ne by done]; split; [by left|intros [?| ->]; done|by left|intros [?| ->]; done].
Qed.

(** How the port of the new link is chosen. *)
Definition port_choice (ps : peersState) (key : publicKey) (port : Z) : Prop :=
  (exists q, registered ps q /\ p_key q = key /\ p_port q = port) \/
  (forall q, registered ps q -> p_key q <> key) /\
    0 < port /\ port ∉ ps_ports ps /\ forall i, 0 < i < port -> i ∈ ps_ports ps.

Lemma allocate_port_spec key ps : peers_ok ps ->
  exists port ports m, allocate_port key ps = Ret (port, MkPeers ports m (ps_order ps)) /\
    port_choice ps key port /\ (forall i, i ∈ ports <-> i = port \/ i ∈ ps_ports ps) /\
    (m = ps_peers ps /\ is_Some (m !! key) \/ m = <[key := ∅]> (ps_peers ps) /\ ps_peers ps !! key = None).
Proof.
  intros Hok. unfold allocate_port. destruct (ps_peers ps !! key) as [s|] eqn:E.
  - destruct (po_keyed _ Hok key s E) as [Hne Hkey].
    destruct (map_order s) as [|q l] eqn:Eo.
    { destruct Hne. apply leibniz_equiv, elem_of_equiv_empty. intros q Hq.
      apply elem_of_map_order in Hq. rewrite Eo in Hq. by apply not_elem_of_nil in Hq. }
    assert (q ∈ s) as Hq by (apply elem_of_map_order; rewrite Eo; left).
    assert (registered ps q) as Hr by (exists s; by rewrite (Hkey q Hq)).
    exists (p_port q), (ps_ports ps), (ps_peers ps). split_and!; [by destruct ps| | |left; eauto].
    + left. exists q. split_and!; [done|by apply Hkey|done].
    + intros i. split; [by right|intros [->|?]; [|done]]. apply (po_ports _ Hok). by exists q.
  - destruct (free_port_total (ps_ports ps)) as (port & -> & Hpos & Hn & Hall).
    eexists _, _, _. split_and!; [done| |set_solver|by right].
    right. split_and!; try done. intros q (s & Es & _) Ek. congruence.
Qed.

Lemma addPeer_spec key conn prio ps : peers_ok ps -> 0 <= ps_order ps < max_u64 ->
  exists p ps', peers_addPeer false key conn prio ps = Ret (p, ps') /\ peers_ok ps' /\
    p_key p = key /\ p_prio p = prio /\ ~ registered ps p /\ port_choice ps key (p_port p) /\
    (forall q, registered ps' q <-> registered ps q \/ q = p) /\ ps_order ps' = ps_order ps + 1.
Proof.
  intros Hok Ho. destruct (allocate_port_spec key ps Hok) as (port & ports & m & Ea & Hc & Hports & Hm).
  unfold peers_addPeer. rewrite Ea. simpl.
  set (p := MkPeer key _ port prio (ps_order ps)).
  assert (u64 (ps_order ps + 1) = ps_order ps + 1) as ->.
  { apply u64_small. unfold is_u64, max_u64 in *. lia. }
  set (ps' := MkPeers ports _ _). pose proof (registered_add ps m ports (ps_order ps + 1) p Hm) as Hreg.
  change (alter (fun s => {[p]} ∪ s) (p_key p) m) with (alter (fun s => {[p]} ∪ s) key m) in Hreg.
  fold ps' in Hreg.
  assert (~ registered ps p) as Hnew.
  { intros Hp. pose proof (po_order _ Hok p Hp). simpl in *. lia. }
  exists p, ps'. split_and!; try done. split.
  - intros k s. simpl. destruct (decide (k = key)) as [->|Hne].
    + rewrite lookup_alter_eq. intros (s0 & Es & ->)%fmap_Some. split; [set_solver|].
      intros q [->%elem_of_singleton|Hq]%elem_of_union; [done|].
      destruct Hm as [[-> _]|[-> _]]; [by apply (po_keyed _ Hok key s0)|].
      rewrite lookup_insert_eq in Es. injection Es as <-. set_solver.
    + rewrite lookup_alter_ne by done. destruct Hm as [[-> _]|[-> _]];
        [|rewrite lookup_insert_ne by done]; apply (po_keyed _ Hok).
  - intros i. simpl. rewrite Hports, (po_ports _ Hok). setoid_rewrite Hreg. split.
    + intros [->|(q & Hq & <-)]; [exists p|exists q]; auto.
    + intros (q & [Hq| ->] & <-); [right; by exists q|by left].
  - assert (forall q, registered ps q -> p_key p = p_key q <-> p_port p = p_port q) as Hsame.
    { intros q Hq. simpl. destruct Hc as [(q0 & Hq0 & <- & <-)|(Hk & _ & Hn & _)].
      - by apply (po_same _ Hok).
      - split; intros E; [by destruct (Hk q Hq)|]. destruct Hn. rewrite E. apply (po_ports _ Hok). by exists q. }
    intros q q'. rewrite !Hreg. intros [Hq| ->] [Hq'| ->]; [by apply (po_same _ Hok)| | |done].
    + split; intros E; symmetry; by apply Hsame.
    + by apply Hsame.
  - intros q. rewrite Hreg. intros [Hq| ->]; [by apply (po_pos _ Hok)|]. simpl.
    destruct Hc as [(q0 & Hq0 & _ & <-)|(_ & ? & _)]; [by apply (po_pos _ Hok)|done].
  - intros q. rewrite Hreg. simpl. intros [Hq| ->]; [pose proof (po_order _ Hok q Hq)|simpl]; lia.
  - intros q q'. rewrite !Hreg. intros [Hq| ->] [Hq'| ->] E; [by apply (po_distinct _ Hok)| | |done].
    + pose proof (po_order _ Hok q Hq). simpl in *. lia.
    + pose proof (po_order _ Hok q' Hq'). simpl in *. lia.
Qed.

(** ** Disconnecting *)

Lemma removePeer_spec p ps : peers_ok ps ->
  if decide (registered ps p) then
    exists ps', peers_removePeer p ps = Ret ps' /\ peers_ok ps' /\ ps_order ps' = ps_order ps /\
      forall q, registered ps' q <-> registered ps q /\ q <> p
  else peers_removePeer p ps = Fail ErrPeerNotFound.
Proof.
  intros Hok. unfold peers_removePeer. case_decide as Hr.
  2:{ rewrite bool_decide_eq_false_2; [done|]. intros Hp. apply Hr. unfold registered.
      destruct (ps_peers ps !! p_key p) as [s|]; [by exists s|by apply not_elem_of_empty in Hp]. }
  pose proof Hr as (s & Es & Hp). rewrite Es. simpl. rewrite bool_decide_eq_true_2 by done. simpl.
  set (ps' := if bool_decide _ then _ else _).
  assert (forall q, (exists s', (if bool_decide (s ∖ {[p]} = ∅) then delete (p_key p) (ps_peers ps)
    else <[p_key p := s ∖ {[p]}]> (ps_peers ps)) !! p_key q = Some s' /\ q ∈ s') <->
    registered ps q /\ q <> p) as Hreg.
  { intros q. unfold registered. destruct (decide (p_key q = p_key p)) as [Ek|Ek].
    - rewrite Ek, Es. case_bool_decide as Hempty.
      + rewrite lookup_delete_eq. split; [by intros (? & [=] & _)|].
        intros [(s' & [= <-] & Hq) Hne]. set_solver.
      + rewrite lookup_insert_eq. split.
        * intros (s' & [= <-] & Hq). split; [exists s|]; set_solver.
        * intros [(s' & [= <-] & Hq) Hne]. eexists. split; [done|set_solver].
    - case_bool_decide; [rewrite lookup_delete_ne by done|rewrite lookup_insert_ne by done].
      all: split; [intros Hq; split; [done|by intros ->]|by intros [Hq _]]. }
  assert (forall ports m, m = (if bool_decide (s ∖ {[p]} = ∅) then delete (p_key p) (ps_peers ps)
      else <[p_key p := s ∖ {[p]}]> (ps_peers ps)) ->
    (forall i, i ∈ ports <-> exists q, (registered ps q /\ q <> p) /\ p_port q = i) ->
    peers_ok (MkPeers ports m (ps_order ps))) as Hok'.
  { intros ports m -> Hports. split; simpl; try (setoid_rewrite Hreg); try done.
    - intros k s'. case_bool_decide.
      + intros [_ E]%lookup_delete_Some. by apply (po_keyed _ Hok).
      + rewrite lookup_insert_Some. intros [[<- <-]|[_ E]]; [|by apply (po_keyed _ Hok)].
        split; [done|]. intros q [Hq _]%elem_of_difference. by apply (po_keyed _ Hok (p_key p) s).
    - intros q q' [Hq _] [Hq' _]. by apply (po_same _ Hok).
    - intros q [Hq _]. by apply (po_pos _ Hok).
    - intros q [Hq _]. by apply (po_order _ Hok).
    - intros q q' [Hq _] [Hq' _]. by apply (po_distinct _ Hok). }
  unfold ps'. case_bool_decide as Hempty; eexists; (split_and!; [done| |done|exact Hreg]);
    apply Hok'; try done; intros i; simpl.
  - rewrite elem_of_difference, elem_of_singleton, (po_ports _ Hok). split.
    + intros [(q & Hq & <-) Hne]. exists q. split; [|done]. split; [done|by intros ->].
    + intros (q & [Hq Hne] & <-). split; [by exists q|]. intros E. apply Hne.
      apply (po_same _ Hok) in E; [|done..]. destruct Hq as (s' & Es' & Hq). rewrite E, Es in Es'.
      injection Es' as <-. set_solver.
  - rewrite (po_ports _ Hok). split; [|intros (q & [Hq _] & <-); by exists q].
    intros (q & Hq & <-). destruct (decide (q = p)) as [->|Hne]; [|by exists q].
    apply set_choose_L in Hempty as [q' Hq'].
    apply elem_of_difference in Hq' as [Hq' Hne%not_elem_of_singleton].
    assert (p_key q' = p_key p) as Ek by by apply (po_keyed _ Hok (p_key p) s).
    assert (registered ps q') as Hr' by (exists s; by rewrite Ek).
    exists q'. split; [done|]. by apply (po_same _ Hok).
Qed.

Lemma peers_init_ok : peers_ok peers_init.
Proof.
  assert (forall p, ~ registered peers_init p) as Hn by by intros p (? & ? & _).
  split.
  - done.
  - intros port. split; [by intros ?%not_elem_of_empty|]. intros (p & Hp & _). by destruct (Hn p).
  - intros p q Hp. by destruct (Hn p).
  - intros p Hp. by destruct (Hn p).
  - intros p Hp. by destruct (Hn p).
  - intros p q Hp. by destruct (Hn p).
Qed.
End spec.

(** ** Histories *)

Inductive peerOp :=
| OpAdd (key : publicKey) (conn : option (option string)) (prio : Z)
| OpRemove (p : peer).

(** A sequence of calls; one that returns an error changes nothing. *)
Fixpoint peers_history `{MapOrder} (ops : list peerOp) (ps : peersState) : result peersState :=
  match ops with
  | [] => mret ps
  | OpAdd key conn prio :: ops => '(_, ps) ← peers_addPeer false key conn prio ps; peers_history ops ps
  | OpRemove p :: ops =>
      match peers_removePeer p ps with
      | Ret ps => peers_history ops ps
      | Fail _ => peers_history ops ps
      | Panic => Panic
      end
  end.

Lemma peers_history_ok `{MapOrder} ops : forall ps, peers_ok ps -> 0 <= ps_order ps ->
  ps_order ps + Z.of_nat (length ops) <= max_u64 ->
  exists ps', peers_history ops ps = Ret ps' /\ peers_ok ps' /\ 0 <= ps_order ps' <= ps_order ps + Z.of_nat (length ops).
Proof.
  induction ops as [|[key conn prio|p] ops IH]; intros ps Hok Ho Hlen;
    cbn [peers_history length] in *.
  - exists ps. split_and!; [done|done|lia|lia].
  - destruct (addPeer_spec key conn prio ps Hok) as (p & ps1 & -> & Hok1 & _ & _ & _ & _ & _ & Ho1); [lia|].
    simpl. destruct (IH ps1) as (ps2 & -> & Hok2 & ?); [done|lia|lia|].
    exists ps2. split_and!; [done|done|lia|lia].
  - pose proof (removePeer_spec p ps Hok) as Hr. case_decide.
    + destruct Hr as (ps1 & -> & Hok1 & Ho1 & _).
      destruct (IH ps1) as (ps2 & -> & Hok2 & ?); [done|lia|lia|].
      exists ps2. split_and!; [done|done|lia|lia].
    + rewrite Hr. destruct (IH ps) as (ps2 & -> & Hok2 & ?); [done|lia|lia|].
      exists ps2. split_and!; [done|done|lia|lia].
Qed.

(** ** Theorems *)

(** After any sequence of connects and disconnects (fewer than 2^64), a positive port names
    exactly one neighbour and a neighbour has one port whatever its number of links, and no two
    links share an order number; the next connect succeeds and either takes the port of the
    neighbour's other links or the least port not in use, and a disconnect fails with
    [ErrPeerNotFound] exactly when the link is not registered. *)
Theorem ports_name_neighbours `{MapOrder} ops key conn prio p :
  Z.of_nat (length ops) < max_u64 ->
  exists ps, peers_history ops peers_init = Ret ps /\ peers_ok ps /\
    (exists p' ps', peers_addPeer false key conn prio ps = Ret (p', ps') /\ peers_ok ps' /\
      p_key p' = key /\ p_prio p' = prio /\ ~ registered ps p' /\ port_choice ps key (p_port p') /\
      forall q, registered ps' q <-> registered ps q \/ q = p') /\
    (if decide (registered ps p) then
       exists ps', peers_removePeer p ps = Ret ps' /\ peers_ok ps' /\
         forall q, registered ps' q <-> registered ps q /\ q <> p
     else peers_removePeer p ps = Fail ErrPeerNotFound).
Proof.
  intros Hlen. destruct (peers_history_ok ops peers_init peers_init_ok) as (ps & E & Hok & Ho);
    [simpl; lia|simpl; lia|]. exists ps. split_and!; [done|done| |].
  - destruct (addPeer_spec key conn prio ps Hok) as (p' & ps' & ? & ? & ? & ? & ? & ? & ? & _);
      [simpl in *; lia|]. exists p', ps'. done.
  - pose proof (removePeer_spec p ps Hok) as Hr. case_decide; [|done].
    destruct Hr as (ps' & ? & ? & _ & ?). by exists ps'.
Qed.
