(* ===== verification/Link.v ===== *)
(** * One connection to a peer

    [ironwood/network/peers.go], types [peer], [peerMonitor] and [peerWriter]:
    the packets waiting for a connection, the frames written to it, the
    keepalives and read deadlines that detect a dead one, and the loop that
    reads frames and passes their messages to the router.

    A [peer], its monitor and its writer are three actors; a method that calls
    [Act] posts a message, which is a value of [linkMsg], and [link_step] is
    what the actor does with it. The three parts of the state are fields of one
    record, as no handler of one actor writes a field of another. *)

From S2P Require Import Prelude Crypto Wire Messages Bloom PacketQueue RouterState RouterCost Router RouterInv.

(** ** Messages on the wire *)

(** The types that implement [wireEncodeable]. *)
Inductive wireData :=
| WSigReq (req : routerSigReq)
| WSigRes (res : routerSigRes)
| WAnnounce (ann : routerAnnounce)
| WBloom (b : bloom)
| WPacket (packet : pqPacket).

Definition data_type (d : wireData) : wirePacketType :=
  match d with
  | WSigReq _ => wireProtoSigReq
  | WSigRes _ => wireProtoSigRes
  | WAnnounce _ => wireProtoAnnounce
  | WBloom _ => wireProtoBloomFilter
  | WPacket packet => pq_wireType packet
  end.

(** The method calls [data.size()] and [data.encode(out)]. *)
#[global] Instance pqPacket_encodeable : wireEncodeable pqPacket := {|
  size := pq_size;
  encode := fun out packet =>
    match packet with
    | PqTraffic tr => encode out tr
    | PqLookup lookup => encode out lookup
    | PqNotify notify => encode out notify
    | PqBroken broken => encode out broken
    end
|}.

#[global] Instance wireData_encodeable : wireEncodeable wireData := {|
  size := fun d =>
    match d with
    | WSigReq req => size req | WSigRes res => size res | WAnnounce ann => size ann
    | WBloom b => size b | WPacket packet => size packet
    end;
  encode := fun out d =>
    match d with
    | WSigReq req => encode out req | WSigRes res => encode out res
    | WAnnounce ann => encode out ann | WBloom b => encode out b | WPacket packet => encode out packet
    end
|}.

(** ** State and messages of the three actors *)

(** [time.Time{}] in nanoseconds since 1970. *)
Definition zero_time : Z := -62135596800 * Second.

(** Peer: [queue], [ready], [srst], [srrt], [done]. Monitor: [keepAliveTimer],
    [deadlined], and the connection's read deadline. Writer: [seq]. The last two
    fields are the clock and the next timer handle. *)
Record link := MkLink {
  l_queue : packetQueue;
  l_ready : bool;
  l_srst : Z;
  l_srrt : Z;
  l_done : bool;
  l_keepAliveTimer : option timer;
  l_deadlined : bool;
  l_readDeadline : option Z;
  l_seq : Z;
  l_now : Z;
  l_timer : timer
}.

Definition set_l_queue (q : packetQueue) (l : link) : link :=
  MkLink q (l_ready l) (l_srst l) (l_srrt l) (l_done l) (l_keepAliveTimer l) (l_deadlined l)
    (l_readDeadline l) (l_seq l) (l_now l) (l_timer l).
Definition set_l_ready (b : bool) (l : link) : link :=
  MkLink (l_queue l) b (l_srst l) (l_srrt l) (l_done l) (l_keepAliveTimer l) (l_deadlined l)
    (l_readDeadline l) (l_seq l) (l_now l) (l_timer l).
Definition set_l_srst (t : Z) (l : link) : link :=
  MkLink (l_queue l) (l_ready l) t (l_srrt l) (l_done l) (l_keepAliveTimer l) (l_deadlined l)
    (l_readDeadline l) (l_seq l) (l_now l) (l_timer l).
Definition set_l_srrt (t : Z) (l : link) : link :=
  MkLink (l_queue l) (l_ready l) (l_srst l) t (l_done l) (l_keepAliveTimer l) (l_deadlined l)
    (l_readDeadline l) (l_seq l) (l_now l) (l_timer l).
Definition set_l_done (l : link) : link :=
  MkLink (l_queue l) (l_ready l) (l_srst l) (l_srrt l) true (l_keepAliveTimer l) (l_deadlined l)
    (l_readDeadline l) (l_seq l) (l_now l) (l_timer l).
Definition set_l_keepAliveTimer (t : option timer) (l : link) : link :=
  MkLink (l_queue l) (l_ready l) (l_srst l) (l_srrt l) (l_done l) t (l_deadlined l)
    (l_readDeadline l) (l_seq l) (l_now l) (l_timer l).
Definition set_l_deadline (deadlined : bool) (t : option Z) (l : link) : link :=
  MkLink (l_queue l) (l_ready l) (l_srst l) (l_srrt l) (l_done l) (l_keepAliveTimer l) deadlined
    t (l_seq l) (l_now l) (l_timer l).
Definition set_l_seq (s : Z) (l : link) : link :=
  MkLink (l_queue l) (l_ready l) (l_srst l) (l_srrt l) (l_done l) (l_keepAliveTimer l) (l_deadlined l)
    (l_readDeadline l) s (l_now l) (l_timer l).
Definition set_l_env (now : Z) (t : timer) (l : link) : link :=
  MkLink (l_queue l) (l_ready l) (l_srst l) (l_srrt l) (l_done l) (l_keepAliveTimer l) (l_deadlined l)
    (l_readDeadline l) (l_seq l) now t.

(** The closures passed to [Act], by actor. *)
Inductive linkMsg :=
| PeerDirect (pType : wirePacketType) (data : wireData) (setsSrst : bool)
| PeerPush (packet : pqPacket)
| PeerPop
| PeerSetSrst
| WriterSend (pType : wirePacketType) (data : wireData) (setsSrst : bool)
| WriterKeepAlive
| WriterIdle (seq : Z)
| WriterFlush
| MonitorSent (pType : wirePacketType)
| MonitorRecv (pType : wirePacketType)
| MonitorKeepAlive
| MonitorStop.

Inductive linkEffect :=
| LPost (msg : linkMsg)
| LRouter (ev : event)
| LWrite (bs : list byte)
| LFlush
| LFreeTraffic (tr : traffic)
| LAfterFunc (t : timer) (delay : Z)
| LStopTimer (t : timer).

Abbreviation L := (Act link linkEffect).
Abbreviation lret a := (mret (M := Act link linkEffect) a) (only parsing).
Abbreviation lgets f := (act_gets (S := link) (E := linkEffect) f).
Abbreviation lmodify f := (act_modify (S := link) (E := linkEffect) f).
Abbreviation lemit e := (act_emit (S := link) (E := linkEffect) e).
Abbreviation post m := (lemit (LPost m)).

(** What [addPeer] of the registry creates. *)
Definition new_link (now : Z) : link :=
  MkLink empty_queue false zero_time zero_time false None false None 0 now 0%nat.

(** A [result] in a handler: an error is a panic. *)
Definition must {A} (m : result A) : L A :=
  match m with Ret a => lret a | _ => act_panic end.

Section link.
Context `{Ed25519} (c : core) (p : peer).

(** ** peerMonitor *)

(** The timer's callback posts [MonitorKeepAlive]. *)
Definition keepAlive : L unit :=
  isDone ← lgets l_done;
  if isDone : bool then lret tt else post WriterKeepAlive.

Definition sent (pType : wirePacketType) : L unit :=
  keepAliveTimer ← lgets l_keepAliveTimer;
  _ ← match keepAliveTimer with
      | Some t => _ ← lemit (LStopTimer t); lmodify (set_l_keepAliveTimer None)
      | None => lret tt
      end;
  deadlined ← lgets l_deadlined;
  if deadlined : bool then lret tt
  else match pType with
       | wireDummy => lret tt
       | wireKeepAlive => lret tt
       | _ =>
           now ← lgets l_now;
           lmodify (set_l_deadline true (Some (now + peerTimeout (core_config c))))
       end.

Definition recv (pType : wirePacketType) : L unit :=
  _ ← lmodify (set_l_deadline false None);
  keepAliveTimer ← lgets l_keepAliveTimer;
  match keepAliveTimer with
  | Some _ => lret tt
  | None =>
      match pType with
      | wireDummy => lret tt
      | wireKeepAlive => lret tt
      | _ =>
          isDone ← lgets l_done;
          if isDone : bool then lret tt
          else
            t ← lgets l_timer;
            _ ← lmodify (fun l => set_l_env (l_now l) (S t) l);
            _ ← lemit (LAfterFunc t (peerKeepAliveDelay (core_config c)));
            lmodify (set_l_keepAliveTimer (Some t))
      end
  end.

(** The deferred call of [handler]. *)
Definition stop_monitor : L unit :=
  keepAliveTimer ← lgets l_keepAliveTimer;
  match keepAliveTimer with
  | Some t => _ ← lemit (LStopTimer t); lmodify (set_l_keepAliveTimer None)
  | None => lret tt
  end.

(** ** peerWriter *)

Definition write (bs : list byte) (pType : wirePacketType) : L unit :=
  _ ← post (MonitorSent pType);
  _ ← lemit (LWrite bs);
  seq ← lgets (fun l => u64 (l_seq l + 1));
  _ ← lmodify (set_l_seq seq);
  post (WriterIdle seq).

Definition writer_idle (seq : Z) : L unit :=
  current ← lgets l_seq;
  if seq =? current then post PeerPop else lret tt.

Definition sendPacket (pType : wirePacketType) (data : wireData) (setsSrst : bool) : L unit :=
  let bufSize := u64 (size data + 1) in
  if peerMaxMessageSize (core_config c) <? bufSize then lret tt
  else
    let writeBuf := AppendUvarint [] bufSize in
    writeBuf ← must (wireEncode writeBuf (wirePacketType_byte pType) data);
    _ ← write writeBuf pType;
    _ ← match data with
        | WPacket (PqTraffic tr) => lemit (LFreeTraffic tr)
        | _ => lret tt
        end;
    if setsSrst then post PeerSetSrst else lret tt.

(** ** peer *)

Definition sendDirect (pType : wirePacketType) (data : wireData) (setsSrst : bool) : L unit :=
  post (WriterSend pType data setsSrst).

Definition push (packet : pqPacket) : L unit :=
  ready ← lgets l_ready;
  if ready : bool then
    _ ← post (WriterSend (pq_wireType packet) (WPacket packet) false);
    lmodify (set_l_ready false)
  else
    queue ← lgets l_queue;
    now ← lgets l_now;
    oldest ← must (Queue.peek queue);
    _ ← match oldest with
        | Some info =>
            if 25 * Millisecond <? time_Sub now (pi_time info) then
              '(queue, _) ← must (Queue.drop queue);
              lmodify (set_l_queue queue)
            else lret tt
        | None => lret tt
        end;
    lmodify (fun l => set_l_queue (Queue.push now (l_queue l) packet) l).

Definition pop : L unit :=
  queue ← lgets l_queue;
  '(info, queue) ← must (Queue.pop queue);
  match info with
  | Some info =>
      _ ← lmodify (set_l_queue queue);
      post (WriterSend (pq_wireType (pi_packet info)) (WPacket (pi_packet info)) false)
  | None =>
      _ ← lmodify (set_l_ready true);
      post WriterFlush
  end.

(** [p.srst = time.Now()] *)
Definition set_srst : L unit :=
  now ← lgets l_now; lmodify (set_l_srst now).

(** What the actors do with their messages. *)
Definition link_step (msg : linkMsg) : L unit :=
  match msg with
  | PeerDirect pType data setsSrst => sendDirect pType data setsSrst
  | PeerPush packet => push packet
  | PeerPop => pop
  | PeerSetSrst => set_srst
  | WriterSend pType data setsSrst => sendPacket pType data setsSrst
  | WriterKeepAlive => write [Byte.x01; wirePacketType_byte wireKeepAlive] wireKeepAlive
  | WriterIdle seq => writer_idle seq
  | WriterFlush => lemit LFlush
  | MonitorSent pType => sent pType
  | MonitorRecv pType => recv pType
  | MonitorKeepAlive => keepAlive
  | MonitorStop => stop_monitor
  end.

(** The router's calls, as messages to the peer. *)
Definition sendSigReq (req : routerSigReq) : linkMsg := PeerDirect wireProtoSigReq (WSigReq req) true.
Definition sendSigRes (res : routerSigRes) : linkMsg := PeerDirect wireProtoSigRes (WSigRes res) false.
Definition sendAnnounce (ann : routerAnnounce) : linkMsg := PeerDirect wireProtoAnnounce (WAnnounce ann) false.
Definition peer_sendBloom (b : bloom) : linkMsg := PeerDirect wireProtoBloomFilter (WBloom b) false.
Definition sendQueued (packet : pqPacket) : linkMsg := PeerPush packet.
End link.

(** ** Reading *)

(** Errors of [handler]: the program's own, or the reader's. *)
Inductive readError :=
| EProto (e : Error)
| EEOF
| EUnexpectedEOF
| EOverflow.

#[global] Instance readError_eq_dec : EqDecision readError.
Proof. solve_decision. Defined.

(** [binary.ReadUvarint]: [i] bytes read so far, [x] accumulated, next shift [s];
    the end of the list is the end of the connection. *)
Fixpoint ReadUvarint_from (i x s : Z) (bs : list byte) : sum readError (Z * list byte) :=
  if i =? MaxVarintLen64 then inl EOverflow
  else
    match bs with
    | [] => inl (if 0 <? i then EUnexpectedEOF else EEOF)
    | b :: bs' =>
        if b2z b <? 128 then
          if (i =? MaxVarintLen64 - 1) && (1 <? b2z b) then inl EOverflow
          else inr (Z.lor x (u64 (Z.shiftl (b2z b) s)), bs')
        else ReadUvarint_from (i + 1) (Z.lor x (u64 (Z.shiftl (Z.land (b2z b) 127) s))) (s + 7) bs'
    end.
Definition ReadUvarint (bs : list byte) : sum readError (Z * list byte) := ReadUvarint_from 0 0 0 bs.

(** [io.ReadFull] into a buffer of [size] bytes. *)
Definition ReadFull (size : nat) (bs : list byte) : sum readError (list byte * list byte) :=
  if (size <=? length bs)%nat then inr (take size bs, drop size bs)
  else inl (match bs with [] => EEOF | _ => EUnexpectedEOF end).

(** One frame: its payload and the rest of the stream. *)
Definition read_frame (maxSize : Z) (stream : list byte) : sum readError (list byte * list byte) :=
  match ReadUvarint stream with
  | inl e => inl e
  | inr (usize, rest) =>
      if maxSize <? usize then inl (EProto ErrOversizedMessage)
      else ReadFull (Z.to_nat usize) rest
  end.

Section handler.
Context `{Ed25519} (c : core) (p : peer).

(** A decoder's error ends the connection; a panic is a panic. *)
Definition decoded {A} (m : result A) (f : A -> L (option Error)) : L (option Error) :=
  match m with
  | Ret a => f a
  | Fail e => lret (Some e)
  | Panic => act_panic
  end.

Definition to_router (ev : event) : L (option Error) := _ ← lemit (LRouter ev); lret None.

Definition handleSigReq (bs : list byte) : L (option Error) :=
  decoded (routerSigReq_decode bs) (fun req => to_router (EvRequest p req)).

Definition handleSigRes (bs : list byte) : L (option Error) :=
  decoded (routerSigRes_decode bs) (fun res =>
    if negb (routerSigRes_check res (selfKey c) (p_key p)) then lret (Some ErrBadMessage)
    else
      now ← lgets l_now;
      _ ← lmodify (set_l_srrt now);
      rtt ← lgets (fun l => time_Sub (l_srrt l) (l_srst l));
      to_router (EvResponse p res rtt)).

Definition peer_handleAnnounce (bs : list byte) : L (option Error) :=
  decoded (routerAnnounce_decode bs) (fun ann =>
    if negb (routerAnnounce_check ann) then lret (Some ErrBadMessage)
    else to_router (EvAnnounce p ann)).

Definition peer_handleBloom (bs : list byte) : L (option Error) :=
  decoded (bloom_decode bs) (fun b => to_router (EvBloom p b)).

Definition handlePathLookup (bs : list byte) : L (option Error) :=
  decoded (pathLookup_decode bs) (fun lookup => to_router (EvLookup p lookup)).
Definition handlePathNotify (bs : list byte) : L (option Error) :=
  decoded (pathNotify_decode bs) (fun notify => to_router (EvNotify p notify)).
Definition handlePathBroken (bs : list byte) : L (option Error) :=
  decoded (pathBroken_decode bs) (fun broken => to_router (EvBroken broken)).
Definition peer_handleTraffic (bs : list byte) : L (option Error) :=
  decoded (traffic_decode bs) (fun tr => to_router (EvTraffic tr)).

(** The monitor's [recv] takes any type byte; an unknown one is not a keepalive. *)
Definition handlePacket (bs : list byte) : L (option Error) :=
  match bs with
  | [] => lret (Some ErrEmptyMessage)
  | b :: bs =>
      let pType := wirePacketType_of_byte b in
      _ ← post (MonitorRecv (default wireTraffic pType));
      match pType with
      | Some wireDummy => lret None
      | Some wireKeepAlive => lret None
      | Some wireProtoSigReq => handleSigReq bs
      | Some wireProtoSigRes => handleSigRes bs
      | Some wireProtoAnnounce => peer_handleAnnounce bs
      | Some wireProtoBloomFilter => peer_handleBloom bs
      | Some wireProtoPathLookup => handlePathLookup bs
      | Some wireProtoPathNotify => handlePathNotify bs
      | Some wireProtoPathBroken => handlePathBroken bs
      | Some wireTraffic => peer_handleTraffic bs
      | None => lret (Some ErrUnrecognizedMessage)
      end
  end.

(** The read loop on the bytes the connection delivers before it ends; every
    frame takes at least one of them. *)
Fixpoint handler_loop (fuel : nat) (stream : list byte) : L readError :=
  match fuel with
  | O => act_panic
  | S fuel' =>
      match read_frame (peerMaxMessageSize (core_config c)) stream with
      | inl e => lret e
      | inr (bs, rest) =>
          err ← handlePacket bs;
          match err with
          | Some e => lret (EProto e)
          | None => handler_loop fuel' rest
          end
      end
  end.

(** [handler]: the deferred calls run last to first. *)
Definition handler (stream : list byte) : L readError :=
  _ ← lmodify (set_l_deadline false None);
  _ ← lemit (LRouter (EvAddPeer p));
  err ← handler_loop (S (length stream)) stream;
  _ ← lmodify set_l_done;
  _ ← post MonitorStop;
  _ ← lemit (LRouter (EvRemovePeer p));
  lret err.
End handler.
