(* ===== verification/Reading.v ===== *)
(** * What a connection passes to the router

    Theorems about the reading loop of [ironwood/network/peers.go]
    ([peer.handler], [peer._handlePacket]): whatever bytes a peer sends, the
    loop ends without a panic, and what it passes on is well formed, checked
    and names the peer it came from, so that the router handles all of it. *)

From S2P Require Import Prelude Crypto Wire Messages Bloom PacketQueue RouterState RouterCost Router RouterInv Link.

(** ** Frames of a stream *)

(** The streaming reader agrees with [binary.Uvarint] where that succeeds. *)
Lemma ReadUvarint_from_Uvarint bs : forall i x s v n, 0 <= i ->
  Uvarint_from i x s bs = (v, n) -> 0 < n ->
  i < n /\ ReadUvarint_from i x s bs = inr (v, drop (Z.to_nat (n - i)) bs).
Proof.
  induction bs as [|b bs IH]; intros i x s v n Hi E Hn; simpl in E |- *; [injection E; lia|].
  destruct (i =? MaxVarintLen64); [injection E; lia|]. destruct (b2z b <? 128).
  - destruct (_ && _); injection E as <- <-; [lia|].
    replace (Z.to_nat (i + 1 - i)) with 1%nat by lia. split; [lia|done].
  - destruct (IH (i + 1) _ _ _ _ ltac:(lia) E Hn) as (? & ->). split; [lia|].
    by replace (Z.to_nat (n - i)) with (S (Z.to_nat (n - (i + 1)))) by lia.
Qed.

Lemma ReadUvarint_append x rest : is_u64 x -> ReadUvarint (AppendUvarint [] x ++ rest) = inr (x, rest).
Proof.
  intros Hx. pose proof (Uvarint_append x rest Hx) as E.
  destruct (ReadUvarint_from_Uvarint _ _ _ _ _ _ (Z.le_refl 0) E (proj1 (wireSizeUint_pos x))) as [_ Hr].
  unfold ReadUvarint, wireAppendUint in *. rewrite Hr, Z.sub_0_r. do 2 f_equal.
  unfold wireSizeUint. rewrite Nat2Z.id. apply drop_app_length.
Qed.

Lemma ReadUvarint_from_consumes bs : forall i x s v rest,
  ReadUvarint_from i x s bs = inr (v, rest) -> (length rest < length bs)%nat.
Proof.
  induction bs as [|b bs IH]; intros i x s v rest E; simpl in E.
  { by destruct (i =? _). }
  destruct (i =? _); [done|]. destruct (b2z b <? 128).
  - destruct (_ && _); [done|]. injection E as <- <-. simpl. lia.
  - apply IH in E. simpl. lia.
Qed.

(** Every frame takes at least the byte of its length. *)
Lemma read_frame_consumes maxSize stream bs rest :
  read_frame maxSize stream = inr (bs, rest) -> (length rest < length stream)%nat.
Proof.
  unfold read_frame, ReadFull. destruct (ReadUvarint stream) as [|[usize rest1]] eqn:E; [done|].
  apply ReadUvarint_from_consumes in E. destruct (maxSize <? usize); [done|]. case_match; [|done].
  intros [= <- <-]. rewrite length_drop. lia.
Qed.

(** A frame as the writer makes it is read back. *)
Lemma read_frame_append maxSize bs rest :
  Z.of_nat (length bs) <= maxSize -> maxSize < 2 ^ 64 ->
  read_frame maxSize (AppendUvarint [] (Z.of_nat (length bs)) ++ bs ++ rest) = inr (bs, rest).
Proof.
  intros Hl Hm. unfold read_frame, ReadFull. rewrite ReadUvarint_append by (unfold is_u64; lia).
  rewrite (proj2 (Z.ltb_ge _ _)) by done. rewrite Nat2Z.id.
  rewrite (proj2 (Nat.leb_le _ _)) by (rewrite length_app; lia).
  by rewrite take_app_length, drop_app_length.
Qed.

(** ** What reaches the router *)

(** The events among the effects of a step. *)
Definition routed (es : list linkEffect) : list event :=
  omap (fun e => match e with LRouter ev => Some ev | _ => None end) es.

Lemma routed_app es es' : routed (es ++ es') = routed es ++ routed es'.
Proof. apply omap_app. Qed.

Section reading.
Context `{Ed25519} (c : core) (p : peer).

(** A message of [p] that passed its decoder and its checks. *)
Definition received (ev : event) : Prop :=
  match ev with
  | EvRequest q req => q = p /\ wire_ok req
  | EvResponse q res rtt =>
      q = p /\ wire_ok res /\ routerSigRes_check res (selfKey c) (p_key p) = true
  | EvAnnounce q ann => q = p /\ wire_ok ann /\ routerAnnounce_check ann = true
  | EvBloom q b => q = p /\ bloom_ok b
  | EvLookup q lookup => q = p /\ wire_ok lookup
  | EvNotify q notify => q = p /\ wire_ok notify
  | EvBroken broken => wire_ok broken
  | EvTraffic tr => wire_ok tr
  | _ => False
  end.

Lemma wp_post m l (Q : unit -> link -> list linkEffect -> Prop) : Q tt l [LPost m] -> wp (post m) l Q.
Proof. apply wp_emit. Qed.

(** A step of the loop: nothing but valid events, and the clock untouched. *)
Definition reads {A} (m : L A) : Prop :=
  forall l, wp m l (fun _ l' es => Forall received (routed es) /\ l_now l' = l_now l).

Lemma decoded_reads T `{WireLaws T} bs (f : T -> L (option Error)) :
  (forall m, wire_ok m -> reads (f m)) -> reads (decoded (decode bs) f).
Proof.
  intros Hf l. pose proof (decode_sound (T := T) bs) as Hs. unfold decoded.
  destruct (decode bs) as [m|e|]; [by apply Hf|by apply wp_ret|done].
Qed.

Lemma to_router_reads ev : received ev -> reads (to_router ev).
Proof. intros Hev l. apply wp_bind, wp_emit, wp_ret. split; [by repeat constructor|done]. Qed.

#[local] Ltac decodes T bs :=
  refine (decoded_reads T bs _ _); intros m Hm; try by apply to_router_reads.

Lemma handlePacket_reads bs : reads (handlePacket c p bs).
Proof.
  destruct bs as [|b bs]; [by intros l; apply wp_ret|]. intros l. apply wp_bind, wp_post. simpl.
  assert (forall m : L (option Error), reads m -> wp m l (fun _ s2 es2 =>
    Forall received (routed ([LPost (MonitorRecv (default wireTraffic (wirePacketType_of_byte b)))] ++ es2)) /\
    l_now s2 = l_now l)) as Hr by (intros m Hm; apply Hm).
  destruct (wirePacketType_of_byte b) as [[]|]; apply Hr; try (by intros l'; apply wp_ret).
  - decodes routerSigReq bs.
  - decodes routerSigRes bs. intros l'. case_match eqn:Ec; [by apply wp_ret|]. apply negb_false_iff in Ec.
    apply wp_bind, wp_gets, wp_bind, wp_modify, wp_bind, wp_gets.
    by refine (to_router_reads _ _ (set_l_srrt _ _)).
  - decodes routerAnnounce bs. case_match eqn:Ec; [by intros l'; apply wp_ret|].
    apply negb_false_iff in Ec. by apply to_router_reads.
  - decodes bloom bs.
  - decodes pathLookup bs.
  - decodes pathNotify bs.
  - decodes pathBroken bs.
  - decodes traffic bs.
Qed.

(** The loop ends within one round per byte of the stream, plus one. *)
Lemma handler_loop_reads fuel : forall stream, (length stream < fuel)%nat -> reads (handler_loop c p fuel stream).
Proof.
  induction fuel as [|fuel IH]; intros stream Hf l; [lia|]. simpl.
  destruct (read_frame _ stream) as [e|[bs rest]] eqn:E; [by apply wp_ret|].
  apply read_frame_consumes in E. apply wp_bind. eapply wp_mono; [apply handlePacket_reads|].
  intros [e|] l1 es1 [Hv1 Hn1]; [apply wp_ret; by rewrite app_nil_r|].
  eapply wp_mono; [apply IH; lia|]. intros e l2 es2 [Hv2 Hn2]. split; [|congruence].
  rewrite routed_app. by apply Forall_app.
Qed.

Lemma handler_spec stream l : exists err l' es mid,
  handler c p stream l = Some (err, l', es) /\ l_done l' = true /\
  routed es = EvAddPeer p :: mid ++ [EvRemovePeer p] /\ Forall received mid.
Proof.
  pose proof (handler_loop_reads (S (length stream)) stream (Nat.lt_succ_diag_r _)
    (set_l_deadline false None l)) as Hl. unfold wp in Hl.
  unfold handler, mbind, act_bind, act_modify, act_emit.
  destruct (handler_loop _ _ _ _ _) as [[[err l1] es]|]; [|done]. destruct Hl as [Hv _].
  exists err, (set_l_done l1), ([] ++ [LRouter (EvAddPeer p)] ++ es ++ [] ++ [LPost MonitorStop] ++
    [LRouter (EvRemovePeer p)] ++ []), (routed es).
  split_and!; [done|done| |done]. by rewrite !routed_app.
Qed.
End reading.

(** ** The router under a connection *)

Section router.
Context `{Ed25519Laws} `{BloomHash} `{MapOrder} (c : core) (p : peer).

Lemma run_received mid : forall r, core_ok c -> rinv c r -> is_peer r p -> Forall (received c p) mid ->
  exists r' es, run c mid r = Some (r', es) /\ rinv c r'.
Proof.
  induction mid as [|ev mid IH]; intros r Hc Hi Hp Hmid; simpl; [by exists r, []|].
  apply Forall_cons in Hmid as [Hev Hmid].
  assert (event_ok c r ev) as Hok by (destruct ev; simpl in *; naive_solver).
  pose proof (step_wp c ev r Hc Hi Hok) as Hw. unfold wp in Hw.
  destruct (step c ev r) as [[[[] r1] es1]|]; [|done]. destruct Hw as (Hi1 & _ & Hpe).
  destruct (IH r1) as (r2 & es2 & -> & Hi2); [done|done| |done|by exists r2, (es1 ++ es2)].
  destruct Hp as (ps & Eps & Hin). exists ps. by destruct ev; simpl in Hev; first [done|by rewrite Hpe].
Qed.

Lemma run_app evs1 evs2 r r1 es1 r2 es2 :
  run c evs1 r = Some (r1, es1) -> run c evs2 r1 = Some (r2, es2) ->
  run c (evs1 ++ evs2) r = Some (r2, es1 ++ es2).
Proof.
  revert r es1. induction evs1 as [|ev evs1 IH]; intros r es1 E1 E2; simpl in E1 |- *.
  - by injection E1 as -> <-.
  - destruct (step c ev r) as [[[[] r'] es]|]; [|done].
    destruct (run c evs1 r') as [[r1' es']|] eqn:E; [|done]. injection E1 as -> <-.
    by rewrite (IH _ _ E E2), app_assoc.
Qed.

Lemma run_one ev r : core_ok c -> rinv c r -> event_ok c r ev ->
  exists r' es, run c [ev] r = Some (r', es) /\ stepped c ev r r' es.
Proof.
  intros Hc Hi Hev. pose proof (step_wp c ev r Hc Hi Hev) as Hw. unfold wp in Hw. simpl.
  destruct (step c ev r) as [[[[] r'] es]|]; [|done]. exists r', es. by rewrite app_nil_r.
Qed.

Lemma run_connection mid r : core_ok c -> rinv c r -> Forall (received c p) mid ->
  exists r' es, run c (EvAddPeer p :: mid ++ [EvRemovePeer p]) r = Some (r', es) /\ rinv c r'.
Proof.
  intros Hc Hi Hmid. destruct (run_one (EvAddPeer p) r) as (r1 & es1 & E1 & Hi1 & _ & Hp); [done..|].
  destruct (run_received mid r1) as (r2 & es2 & E2 & Hi2); [done..|].
  destruct (run_one (EvRemovePeer p) r2) as (r3 & es3 & E3 & Hi3 & _); [done..|].
  exists r3, (es1 ++ es2 ++ es3). split; [|done].
  apply (run_app [_] (mid ++ _) r r1); [done|]. by apply (run_app mid _ _ r2).
Qed.
End router.

(** ** Theorems *)

(** C15: whatever bytes a peer sends on a connection, the reading loop ends with an error and never
    panics; it passes on first the connection, then only messages that are well formed, passed
    their signature checks and name this peer, and last the disconnection; and the router, in any
    state that satisfies its invariant, handles all of them without a panic and keeps it. *)
Theorem any_stream_safe `{Ed25519} `{BloomHash} `{MapOrder} c p stream l r :
  Ed25519Laws -> core_ok c -> rinv c r ->
  exists err l' es mid r' es',
    handler c p stream l = Some (err, l', es) /\ l_done l' = true /\
    routed es = EvAddPeer p :: mid ++ [EvRemovePeer p] /\ Forall (received c p) mid /\
    run c (routed es) r = Some (r', es') /\ rinv c r'.
Proof.
  intros HE Hc Hi. destruct (handler_spec c p stream l) as (err & l' & es & mid & E & Hd & Er & Hmid).
  destruct (run_connection c p mid r Hc Hi Hmid) as (r' & es' & Erun & Hi').
  exists err, l', es, mid, r', es'. rewrite Er at 2. done.
Qed.

Lemma any_stream_safe_witness :
  let c := sample_core Byte.x05 in
  exists err l' es mid r' es',
    @handler toy_ed25519 c sample_peer [Byte.x01; Byte.x01; Byte.x03; Byte.x02; Byte.x07; Byte.x09; Byte.x00]
      (new_link 5) = Some (err, l', es) /\ l_done l' = true /\
    routed es = EvAddPeer sample_peer :: mid ++ [EvRemovePeer sample_peer] /\
    Forall (@received toy_ed25519 c sample_peer) mid /\
    @run toy_ed25519 toy_hash trie_order c (routed es) sample_start = Some (r', es') /\ rinv c r'.
Proof.
  apply (@any_stream_safe toy_ed25519 toy_hash trie_order (sample_core Byte.x05) sample_peer).
  - apply toy_ed25519_laws.
  - apply sample_core_ok.
  - apply start_rinv.
Defined.
