(* ===== verification/Delivery.v ===== *)
(** * From one end of a connection to the other

    What [peerWriter.sendPacket] writes, [peer.handler] at the other end reads
    ([ironwood/network/peers.go]). *)

From S2P Require Import Prelude Crypto Wire Messages Bloom PacketQueue RouterState RouterCost Router RouterInv Link Reading.

(** ** Encoding of every message *)

Definition data_ok (d : wireData) : Prop :=
  match d with
  | WSigReq req => wire_ok req
  | WSigRes res => wire_ok res
  | WAnnounce ann => wire_ok ann
  | WBloom b => wire_ok b
  | WPacket (PqTraffic tr) => wire_ok tr
  | WPacket (PqLookup lookup) => wire_ok lookup
  | WPacket (PqNotify notify) => wire_ok notify
  | WPacket (PqBroken broken) => wire_ok broken
  end.

(** The checks the receiver [c] makes of a message from [p]. *)
Definition data_checks `{Ed25519} (c : core) (p : peer) (d : wireData) : Prop :=
  match d with
  | WSigRes res => routerSigRes_check res (selfKey c) (p_key p) = true
  | WAnnounce ann => routerAnnounce_check ann = true
  | _ => True
  end.

(** The event a message from [p] becomes. *)
Definition data_event (p : peer) (rtt : Z) (d : wireData) : event :=
  match d with
  | WSigReq req => EvRequest p req
  | WSigRes res => EvResponse p res rtt
  | WAnnounce ann => EvAnnounce p ann
  | WBloom b => EvBloom p b
  | WPacket (PqTraffic tr) => EvTraffic tr
  | WPacket (PqLookup lookup) => EvLookup p lookup
  | WPacket (PqNotify notify) => EvNotify p notify
  | WPacket (PqBroken broken) => EvBroken broken
  end.

Lemma data_encode d : exists bs, (forall out, encode out d = Ret (out ++ bs)) /\ Z.of_nat (length bs) = size d.
Proof.
  destruct d as [m|m|m|m|[m|m|m|m]]; destruct (encode_total m) as (bs & E & Hl); exists bs; by split.
Qed.

Lemma type_of_byte t : wirePacketType_of_byte (wirePacketType_byte t) = Some t.
Proof. by destruct t. Qed.

(** The bytes among the effects of a step. *)
Definition written (es : list linkEffect) : list byte :=
  concat (omap (fun e => match e with LWrite bs => Some bs | _ => None end) es).

Lemma written_app es es' : written (es ++ es') = written es ++ written es'.
Proof. unfold written. by rewrite omap_app, concat_app. Qed.

(** The messages posted to the three actors. *)
Definition posted (e : linkEffect) : option linkMsg :=
  match e with LPost m => Some m | _ => None end.

(** ** One message *)

(** The packet type and the encoded message. *)
Definition payload (d : wireData) (bs : list byte) : Prop :=
  exists bs', (forall out, encode out d = Ret (out ++ bs')) /\ Z.of_nat (length bs') = size d /\
    bs = wirePacketType_byte (data_type d) :: bs'.

Definition frame (bs : list byte) : list byte := AppendUvarint [] (Z.of_nat (length bs)) ++ bs.

Section delivery.
Context `{Ed25519} (c : core) (p : peer).

(** A message that fits the limit is written as one frame. *)
Lemma sendPacket_frame d setsSrst l :
  size d + 1 <= peerMaxMessageSize (core_config c) < 2 ^ 64 ->
  exists bs tail, payload d bs /\
    sendPacket c (data_type d) d setsSrst l =
      Some (tt, set_l_seq (u64 (l_seq l + 1)) l,
        [LPost (MonitorSent (data_type d)); LWrite (frame bs); LPost (WriterIdle (u64 (l_seq l + 1)))] ++ tail) /\
    written tail = [] /\ omap posted tail = if setsSrst then [PeerSetSrst] else [].
Proof.
  intros Hmax. destruct (data_encode d) as (bs & E & Hl).
  assert (u64 (size d + 1) = size d + 1) as Hu by (apply u64_small; unfold is_u64; lia).
  set (bs' := wirePacketType_byte (data_type d) :: bs).
  assert (Z.of_nat (length bs') = size d + 1) as Hl' by (unfold bs'; cbn [length]; lia).
  set (free := match d with WPacket (PqTraffic tr) => [LFreeTraffic tr] | _ => [] end).
  exists bs', (free ++ if setsSrst then [LPost PeerSetSrst] else []).
  split; [by exists bs|]. split.
  - unfold sendPacket. rewrite Hu, (proj2 (Z.ltb_ge _ _)) by lia. unfold wireEncode. rewrite E.
    replace ((AppendUvarint [] (size d + 1) ++ _) ++ bs) with (frame bs')
      by (unfold frame; rewrite Hl'; by rewrite <- app_assoc).
    subst free. by destruct d as [| | | |[]], setsSrst.
  - subst free. by destruct d as [| | | |[]], setsSrst.
Qed.

Lemma sendPacket_oversized t d setsSrst l : peerMaxMessageSize (core_config c) < u64 (size d + 1) ->
  sendPacket c t d setsSrst l = Some (tt, l, []).
Proof. intros Hlt. unfold sendPacket. by rewrite (proj2 (Z.ltb_lt _ _)). Qed.

Lemma decoded_encode T `{WireLaws T} (m : T) bs f : wire_ok m -> encode [] m = Ret bs ->
  decoded (decode bs) f = f m.
Proof. intros Hm E. unfold decoded. by rewrite (decode_encode m bs). Qed.

Lemma passed_on msg h ev l : h = to_router ev ->
  exists l' es, (_ ← post msg; h) l = Some (None, l', es) /\ routed es = [ev] /\
    l_now l' = l_now l /\ l_srst l' = l_srst l.
Proof. intros ->. by eexists _, _. Qed.

(** The payload of a good message is passed to the router. *)
Lemma handlePacket_payload d bs l : data_ok d -> data_checks c p d -> payload d bs ->
  exists l' es, handlePacket c p bs l = Some (None, l', es) /\
    routed es = [data_event p (time_Sub (l_now l) (l_srst l)) d] /\
    l_now l' = l_now l /\ l_srst l' = l_srst l.
Proof.
  intros Hok Hch (bs' & E & _ & ->). specialize (E []). simpl.
  rewrite type_of_byte.
  destruct d as [m|m|m|m|[m|m|m|m]]; cbn [data_ok data_checks data_type pq_wireType data_event] in *.
  - apply passed_on. exact (decoded_encode routerSigReq _ _ _ Hok E).
  - unfold handleSigRes. rewrite (decoded_encode routerSigRes _ _ _ Hok E), Hch. simpl.
    eexists _, _. by split_and!.
  - apply passed_on. unfold peer_handleAnnounce.
    rewrite (decoded_encode routerAnnounce _ _ _ Hok E), Hch. done.
  - apply passed_on. exact (decoded_encode bloom _ _ _ Hok E).
  - apply passed_on. exact (decoded_encode traffic _ _ _ Hok E).
  - apply passed_on. exact (decoded_encode pathLookup _ _ _ Hok E).
  - apply passed_on. exact (decoded_encode pathNotify _ _ _ Hok E).
  - apply passed_on. exact (decoded_encode pathBroken _ _ _ Hok E).
Qed.

(** The reading loop over frames of good messages. *)
Lemma handler_loop_frames ds bss : Forall2 payload ds bss ->
  Forall (fun d => data_ok d /\ data_checks c p d) ds ->
  Forall (fun bs => Z.of_nat (length bs) <= peerMaxMessageSize (core_config c) < 2 ^ 64) bss ->
  forall fuel l, (length (concat (map frame bss)) < fuel)%nat ->
  exists l' es, handler_loop c p fuel (concat (map frame bss)) l = Some (EEOF, l', es) /\
    routed es = map (data_event p (time_Sub (l_now l) (l_srst l))) ds.
Proof.
  induction 1 as [|d bs ds bss Hp _ IH]; intros Hok Hfit fuel l Hf; destruct fuel as [|fuel]; try lia.
  { by eexists l, []. }
  apply Forall_cons in Hok as [[Hd Hch] Hok]. apply Forall_cons in Hfit as [Hb Hfit].
  destruct (handlePacket_payload d bs l Hd Hch Hp) as (l1 & es1 & E1 & Er1 & En & Es).
  assert (exists rest, concat (map frame (bs :: bss)) = AppendUvarint [] (Z.of_nat (length bs)) ++ bs ++ rest /\
    rest = concat (map frame bss)) as (rest & Erest & Heq).
  { eexists. split; [|done]. simpl. unfold frame at 1. by rewrite <- app_assoc. }
  rewrite Erest in Hf |- *.
  assert (length rest < fuel)%nat as Hlt.
  { pose proof (read_frame_consumes _ _ _ _ (read_frame_append _ bs rest (proj1 Hb) (proj2 Hb))). lia. }
  cbn [handler_loop]. rewrite read_frame_append by lia. unfold mbind, act_bind. rewrite E1.
  rewrite Heq in Hlt |- *. destruct (IH Hok Hfit fuel l1 Hlt) as (l2 & es2 & -> & Er2).
  eexists _, _. split; [done|]. by rewrite routed_app, Er1, Er2, En, Es.
Qed.

(** Sending a list of messages. *)
Lemma sendPackets_frames ds : forall l,
  Forall (fun d => size d + 1 <= peerMaxMessageSize (core_config c) < 2 ^ 64) ds ->
  exists bss l' es, Forall2 payload ds bss /\
    act_for ds (fun d => sendPacket c (data_type d) d false) l = Some (tt, l', es) /\
    written es = concat (map frame bss).
Proof.
  induction ds as [|d ds IH]; intros l Hfit; simpl; [by exists [], l, []|].
  apply Forall_cons in Hfit as [Hd Hfit].
  destruct (sendPacket_frame d false l Hd) as (bs & tl & Hp & E & Hw & _).
  unfold mbind, act_bind. rewrite E.
  destruct (IH (set_l_seq (u64 (l_seq l + 1)) l) Hfit) as (bss & l' & es & Hps & -> & Hws).
  eexists (bs :: bss), _, _. split; [by constructor|]. split; [done|].
  rewrite !written_app, Hw, Hws, app_nil_r. simpl. unfold written. simpl. by rewrite app_nil_r.
Qed.
End delivery.

Lemma payload_length d bs : payload d bs -> Z.of_nat (length bs) = size d + 1.
Proof. intros (bs' & _ & Hl & ->). cbn [length]. lia. Qed.

(** ** Theorems *)

(** C16: messages that are well formed and fit both ends' limit, written by the writer of one end
    one after the other, are read by the loop of the other end: it passes exactly these messages
    to its router, each once and in the same order, and then reports the end of the stream. *)
Theorem frames_delivered `{Ed25519} cs cr p ds ls lr :
  Forall (fun d => data_ok d /\ data_checks cr p d /\
    size d + 1 <= peerMaxMessageSize (core_config cs) < 2 ^ 64 /\
    size d + 1 <= peerMaxMessageSize (core_config cr) < 2 ^ 64) ds ->
  exists ls' sent lr' es,
    act_for ds (fun d => sendPacket cs (data_type d) d false) ls = Some (tt, ls', sent) /\
    handler_loop cr p (S (length (written sent))) (written sent) lr = Some (EEOF, lr', es) /\
    routed es = map (data_event p (time_Sub (l_now lr) (l_srst lr))) ds.
Proof.
  intros Hds. destruct (sendPackets_frames cs ds ls) as (bss & ls' & sent & Hp & E & Ew).
  { eapply Forall_impl; [exact Hds|]. naive_solver. }
  destruct (handler_loop_frames cr p ds bss Hp) with (fuel := S (length (written sent))) (l := lr)
    as (lr' & es & E' & Er).
  - eapply Forall_impl; [exact Hds|]. naive_solver.
  - clear E Ew. induction Hp as [|d bs ds bss Hd _ IH]; [constructor|].
    apply Forall_cons in Hds as [(_ & _ & _ & Hd') Hds]. constructor; [|by apply IH].
    rewrite (payload_length d bs Hd). done.
  - rewrite Ew. lia.
  - exists ls', sent, lr', es. rewrite Ew in *. done.
Qed.

Lemma frames_delivered_witness :
  let ds := [WSigReq (MkSigReq 1 2); WPacket (sample_packet Byte.x01 Byte.x02)] in
  let c := sample_core Byte.x05 in
  exists ls' sent lr' es,
    @act_for link linkEffect wireData ds (fun d => sendPacket c (data_type d) d false) (new_link 5)
      = Some (tt, ls', sent) /\
    @handler_loop toy_ed25519 c sample_peer (S (length (written sent))) (written sent) (new_link 7)
      = Some (EEOF, lr', es) /\
    routed es = map (data_event sample_peer (time_Sub 7 zero_time)) ds.
Proof.
  apply (@frames_delivered toy_ed25519 (sample_core Byte.x05) (sample_core Byte.x05) sample_peer
    [WSigReq (MkSigReq 1 2); WPacket (sample_packet Byte.x01 Byte.x02)] (new_link 5) (new_link 7)).
  repeat constructor; vm_compute; try done.
Defined.
