(* ===== verification/Connection.v ===== *)
(** * A connection's queue, writer and deadlines

    Theorems about the three actors of a peer ([ironwood/network/peers.go]):
    no message makes one of them panic, the queue of a connection drains in
    order of age, a silent peer is timed out, and what an oversized packet
    does to the queue behind it. *)

From S2P Require Import Prelude Crypto Wire Messages Bloom GoHeap PacketQueue RouterState RouterCost Router RouterInv Frames QueueClient Core Link Reading Delivery.

(** ** Invariant *)

Record link_ok (l : link) : Prop := {
  lo_queue : queue_ok (l_now l) (l_queue l);
  lo_idle : l_ready l = true -> q_size (l_queue l) = 0;
  lo_deadline : l_deadlined l = true <-> is_Some (l_readDeadline l)
}.

Lemma new_link_ok now : link_ok (new_link now).
Proof. split; [apply queue_ok_empty|done|]. split; [done|by intros [? ?]]. Qed.

(** A pushed packet fits the queue's 64-bit size. *)
Definition msg_fits (l : link) (msg : linkMsg) : Prop :=
  match msg with PeerPush packet => q_size (l_queue l) + pq_size packet < 2 ^ 64 | _ => True end.

Section actors.
Context (c : core).

(** ** One message *)

Lemma wp_must {A} (a : A) (l : link) (Q : A -> link -> list linkEffect -> Prop) :
  Q a l [] -> wp (must (Ret a)) l Q.
Proof. apply wp_ret. Qed.

Lemma link_ok_step l (f : link -> link) : link_ok l ->
  l_queue (f l) = l_queue l -> l_now (f l) = l_now l -> (l_ready (f l) = true -> l_ready l = true) ->
  (l_deadlined (f l) = true <-> is_Some (l_readDeadline (f l))) -> link_ok (f l).
Proof. intros [] E1 E2 E3 E4. split; [by rewrite E1, E2|rewrite E1; auto|done]. Qed.

Lemma push_wp packet l : link_ok l -> msg_fits l (PeerPush packet) ->
  wp (push packet) l (fun _ l' _ => link_ok l').
Proof.
  intros Hok Hfit. unfold push. apply wp_bind, wp_gets. destruct (l_ready l) eqn:Er.
  { apply wp_bind, wp_post, wp_modify. apply (link_ok_step l (set_l_ready false)); try done. apply Hok. }
  apply wp_bind, wp_gets, wp_bind, wp_gets, wp_bind.
  destruct (queue_ok_peek _ _ (lo_queue _ Hok)) as [o ->]. apply wp_must, wp_bind.
  apply wp_mono with (P := fun _ l' _ => link_ok l' /\ l_now l' = l_now l /\ l_ready l' = false /\
    q_size (l_queue l') <= q_size (l_queue l)).
  - destruct o as [info|]; [|by apply wp_ret]. case_match; [|by apply wp_ret].
    destruct (queue_ok_drop _ _ (lo_queue _ Hok)) as (q' & b & -> & Hq' & Hle & _).
    apply wp_bind, wp_must, wp_modify. split_and!; try done. split; [done| |apply Hok].
    simpl. by rewrite Er.
  - intros _ l1 _ ([Hq1 Hi1 Hd1] & Hn & Hr & Hle). apply wp_modify. split; simpl; [|by rewrite Hr|done].
    rewrite Hn in *. apply queue_ok_push; [done|]. simpl in Hfit. lia.
Qed.

Lemma pop_wp l : link_ok l -> wp pop l (fun _ l' _ => link_ok l').
Proof.
  intros Hok. unfold pop. apply wp_bind, wp_gets, wp_bind.
  destruct (queue_ok_pop _ _ (lo_queue _ Hok)) as (o & q' & -> & Hq' & Ho). apply wp_must.
  destruct o as [info|].
  - destruct Ho as (Hlt & _). apply wp_bind, wp_modify, wp_post. destruct Hok as [_ Hi Hd]. split; try done.
    simpl. intros Hr%Hi. pose proof (wf_queue_size_nonneg _ (qo_wf _ _ Hq')). lia.
  - destruct Ho as [Hz ->]. apply wp_bind, wp_modify, wp_post. destruct Hok. by split.
Qed.

Lemma write_wp bs t l : link_ok l -> wp (write bs t) l (fun _ l' _ => link_ok l').
Proof.
  intros Hok. apply wp_bind, wp_post, wp_bind, wp_emit, wp_bind, wp_gets, wp_bind, wp_modify, wp_post.
  destruct Hok. by split.
Qed.

Lemma sendPacket_wp t d b l : link_ok l -> wp (sendPacket c t d b) l (fun _ l' _ => link_ok l').
Proof.
  intros Hok. unfold sendPacket. case_match; [by apply wp_ret|]. apply wp_bind. unfold wireEncode.
  destruct (data_encode d) as (bs & E & _). rewrite E. apply wp_must, wp_bind.
  eapply wp_mono; [by apply write_wp|]. intros u1 l1 es1 Hok1. apply wp_bind.
  apply wp_mono with (P := fun _ l' _ => link_ok l').
  - destruct d as [| | | |[]]; first [by apply wp_ret|by apply wp_emit].
  - intros u2 l2 es2 Hok2. destruct b; [by apply wp_post|by apply wp_ret].
Qed.

Lemma sent_wp t l : link_ok l -> wp (sent c t) l (fun _ l' _ => link_ok l').
Proof.
  intros Hok. apply wp_bind, wp_gets, wp_bind. apply wp_mono with (P := fun _ l' _ => link_ok l').
  - destruct (l_keepAliveTimer l); [|by apply wp_ret]. apply wp_bind, wp_emit, wp_modify.
    destruct Hok. by split.
  - intros u1 l1 es1 Hok1. apply wp_bind, wp_gets. destruct (l_deadlined l1) eqn:Ed; [by apply wp_ret|].
    assert (forall now, link_ok (set_l_deadline true (Some now) l1)) as Hd.
    { intros now. destruct Hok1. split; [done|done|]. simpl. split; [intros _; by eexists|done]. }
    destruct t; first [by apply wp_ret|apply wp_bind, wp_gets, wp_modify, Hd].
Qed.

Lemma recv_wp t l : link_ok l -> wp (recv c t) l (fun _ l' _ => link_ok l').
Proof.
  intros Hok. apply wp_bind, wp_modify, wp_bind, wp_gets. set (l1 := set_l_deadline false None l).
  assert (link_ok l1) as Hok1 by (destruct Hok; split; try done; simpl; split; [done|by intros [? ?]]).
  clearbody l1. destruct (l_keepAliveTimer l1); [by apply wp_ret|].
  destruct t; first [by apply wp_ret|apply wp_bind, wp_gets; destruct (l_done l1); [by apply wp_ret|];
    apply wp_bind, wp_gets, wp_bind, wp_modify, wp_bind, wp_emit, wp_modify; destruct Hok1; by split].
Qed.

Lemma link_step_wp msg l : link_ok l -> msg_fits l msg -> wp (link_step c msg) l (fun _ l' _ => link_ok l').
Proof.
  intros Hok Hfit. destruct msg; simpl link_step.
  - by apply wp_post.
  - by apply push_wp.
  - by apply pop_wp.
  - apply wp_bind, wp_gets, wp_modify. destruct Hok. by split.
  - by apply sendPacket_wp.
  - by apply write_wp.
  - apply wp_bind, wp_gets. case_match; [by apply wp_post|by apply wp_ret].
  - by apply wp_emit.
  - by apply sent_wp.
  - by apply recv_wp.
  - apply wp_bind, wp_gets. case_match; [by apply wp_ret|by apply wp_post].
  - apply wp_bind, wp_gets. case_match; [|by apply wp_ret]. apply wp_bind, wp_emit, wp_modify.
    destruct Hok. by split.
Qed.
End actors.

(** ** The mailboxes

    The messages posted and not yet handled, first come first served: one of
    the orders in which the three actors can run. *)

Fixpoint run_mail (c : core) (fuel : nat) (mail : list linkMsg) (l : link)
    : option (list linkMsg * link * list linkEffect) :=
  match fuel, mail with
  | S fuel', msg :: mail' =>
      match link_step c msg l with
      | None => None
      | Some (_, l1, es1) =>
          match run_mail c fuel' (mail' ++ omap posted es1) l1 with
          | None => None
          | Some (mail2, l2, es2) => Some (mail2, l2, es1 ++ es2)
          end
      end
  | _, _ => Some (mail, l, [])
  end.

Lemma run_mail_step c n msg mail l l1 es1 mail2 l2 es2 :
  link_step c msg l = Some (tt, l1, es1) ->
  run_mail c n (mail ++ omap posted es1) l1 = Some (mail2, l2, es2) ->
  run_mail c (S n) (msg :: mail) l = Some (mail2, l2, es1 ++ es2).
Proof. intros E1 E2. cbn [run_mail]. by rewrite E1, E2. Qed.

(** A packet's frame is within the limit. *)
Definition packet_fits (c : core) (info : pqPacketInfo) : Prop :=
  pq_size (pi_packet info) + 1 <= peerMaxMessageSize (core_config c) < 2 ^ 64.
#[global] Instance packet_fits_dec c info : Decision (packet_fits c info) := _.

Section mail.
Context (c : core).

(** Sending a packet posts nothing but the monitor's note and the request for
    the next one. *)
Lemma sent_quiet t l : exists l' es, sent c t l = Some (tt, l', es) /\ omap posted es = [] /\ written es = [] /\
  l_queue l' = l_queue l /\ l_ready l' = l_ready l /\ l_seq l' = l_seq l /\ l_now l' = l_now l.
Proof.
  unfold sent, mbind, act_bind, act_gets. destruct (l_keepAliveTimer l) as [tm|]; simpl;
    (destruct (l_deadlined l); simpl; [by eexists _, _|]); destruct t; by eexists _, _.
Qed.

(** One round: the oldest packet is popped, written, and the next is asked for. *)
Lemma drain_round l info q' :
  Queue.pop (l_queue l) = Ret (Some info, q') -> packet_fits c info ->
  exists l' es bs, l_queue l' = q' /\ l_now l' = l_now l /\ payload (WPacket (pi_packet info)) bs /\
    written es = frame bs /\
    forall n mail2 l2 es2, run_mail c n [PeerPop] l' = Some (mail2, l2, es2) ->
      run_mail c (4 + n) [PeerPop] l = Some (mail2, l2, es ++ es2).
Proof.
  intros Hpop Hfit. set (d := WPacket (pi_packet info)). set (l1 := set_l_queue q' l).
  destruct (sendPacket_frame c d false l1 Hfit) as (bs & tl & Hp & Es & Hw & Htl).
  set (l2 := set_l_seq (u64 (l_seq l1 + 1)) l1) in *.
  destruct (sent_quiet (data_type d) l2) as (l3 & es3 & E3 & Hp3 & Hw3 & Hq3 & Hr3 & Hs3 & Hn3).
  set (seq := u64 (l_seq l1 + 1)) in *.
  assert (link_step c PeerPop l = Some (tt, l1, [LPost (WriterSend (data_type d) d false)])) as E1.
  { cbn [link_step]. unfold pop, mbind, act_bind, act_gets. by rewrite Hpop. }
  assert (link_step c (WriterIdle seq) l3 = Some (tt, l3, [LPost PeerPop])) as E4.
  { cbn [link_step]. unfold writer_idle, mbind, act_bind, act_gets. by rewrite Hs3, Z.eqb_refl. }
  set (es2 := [LPost (MonitorSent (data_type d)); LWrite (frame bs); LPost (WriterIdle seq)] ++ tl) in *.
  assert (omap posted es2 = [MonitorSent (data_type d); WriterIdle seq]) as Ep2.
  { unfold es2. by rewrite omap_app, Htl. }
  exists l3, ([LPost (WriterSend (data_type d) d false)] ++ es2 ++ es3 ++ [LPost PeerPop]), bs.
  split_and!; [by rewrite Hq3|by rewrite Hn3|done| |].
  - unfold es2. rewrite !written_app, Hw, Hw3, !app_nil_r. unfold written. simpl. by rewrite ?app_nil_r.
  - intros n mail2 l4 es4 Hrun. rewrite <- !app_assoc.
    apply (run_mail_step _ (3 + n) PeerPop [] _ _ _ _ _ _ E1). cbn [omap list_omap posted app].
    apply (run_mail_step _ (2 + n) (WriterSend _ d false) [] _ _ _ _ _ _ Es). rewrite Ep2. cbn [app].
    apply (run_mail_step _ (1 + n) (MonitorSent _) [_] _ _ _ _ _ _ E3). rewrite Hp3. cbn [app].
    by apply (run_mail_step _ n (WriterIdle seq) [] _ _ _ _ _ _ E4).
Qed.

(** Nothing waits: the writer flushes and is ready. *)
Lemma drain_end l q' : Queue.pop (l_queue l) = Ret (None, q') ->
  run_mail c 2 [PeerPop] l = Some ([], set_l_ready true l, [LPost WriterFlush; LFlush]).
Proof.
  intros Hpop. apply (run_mail_step _ 1 PeerPop [] _ (set_l_ready true l) [LPost WriterFlush] _ _ [LFlush]).
  - cbn [link_step]. unfold pop, mbind, act_bind, act_gets. by rewrite Hpop.
  - done.
Qed.

(** The whole queue is written, oldest first, and the writer is then ready. *)
Lemma drain_all : forall size l, q_size (l_queue l) <= Z.of_nat size ->
  queue_ok (l_now l) (l_queue l) -> Forall (packet_fits c) (contents (l_queue l)) ->
  exists n l' es infos bss, run_mail c n [PeerPop] l = Some ([], l', es) /\
    infos ≡ₚ contents (l_queue l) /\ StronglySorted (fun i j => pi_time i <= pi_time j) infos /\
    Forall2 (fun info => payload (WPacket (pi_packet info))) infos bss /\
    written es = concat (map frame bss) /\ contents (l_queue l') = [] /\ l_ready l' = true.
Proof.
  induction size as [|size IH]; intros l Hsz Hq Hfit;
    destruct (queue_ok_pop _ _ Hq) as ([info|] & q' & Hpop & Hq' & Ho).
  1: { destruct Ho as (Hlt & _). pose proof (wf_queue_size_nonneg _ (qo_wf _ _ Hq')). lia. }
  2: { destruct Ho as (Hlt & Hc & Hold). assert (packet_fits c info) as Hf.
       { rewrite Hc in Hfit. by apply Forall_cons in Hfit as [? _]. }
       destruct (drain_round l info q' Hpop Hf) as (l1 & es1 & bs & Hq1 & Hr1 & Hp & Hw & Hrun).
       destruct (IH l1) as (n & l' & es & infos & bss & E & Hperm & Hsort & Hps & Hws & He & Hr).
       - rewrite Hq1. lia.
       - by rewrite Hq1, Hr1.
       - rewrite Hq1. rewrite Hc in Hfit. by apply Forall_cons in Hfit as [_ ?].
       - exists (4 + n)%nat, l', (es1 ++ es), (info :: infos), (bs :: bss).
         split_and!; [by apply Hrun|by rewrite Hc, Hperm, Hq1| |by constructor| |done|done].
         + constructor; [done|]. rewrite Forall_forall. intros i Hi. apply Hold. rewrite Hc.
           right. by rewrite <- Hq1, <- Hperm.
         + by rewrite written_app, Hw, Hws. }
  all: destruct Ho as (Hz & ->); pose proof (queue_empty _ (qo_wf _ _ Hq) Hz) as Hc.
  all: exists 2%nat, (set_l_ready true l), [LPost WriterFlush; LFlush], [], [].
  all: split_and!; [by eapply drain_end|by rewrite Hc|constructor|constructor|done|done|done].
Qed.

(** A link whose writer waits for nothing only queues. *)
Lemma pushes_only_queue n : forall packets l mail l' es, l_ready l = false ->
  run_mail c n (map PeerPush packets) l = Some (mail, l', es) -> l_ready l' = false /\ es = [].
Proof.
  induction n as [|n IH]; intros [|packet packets] l mail l' es Hr E; try by simplify_eq/=.
  cbn [run_mail link_step map] in E.
  destruct (push packet l) as [[[[] l1] es1]|] eqn:Ep; [|done].
  assert (l_ready l1 = false /\ es1 = []) as [Hr1 ->].
  { revert Ep. unfold push, mbind, act_bind, act_gets. rewrite Hr.
    destruct (Queue.peek (l_queue l)) as [[info|]| |]; simpl; [|by intros [= <- <-]|done..].
    destruct (25 * Millisecond <? _); simpl; [|by intros [= <- <-]].
    destruct (Queue.drop (l_queue l)) as [[q' b]| |]; simpl; [by intros [= <- <-]|done..]. }
  simpl in E. rewrite app_nil_r in E. destruct (run_mail c n _ l1) as [[[mail2 l2] es2]|] eqn:E2; [|done].
  injection E as <- <- <-. by apply (IH packets l1 mail2).
Qed.

(** *** Deadlines *)

(** Once a deadline waits for an answer, only a received frame moves it. *)
Definition deadline_kept (l l' : link) : Prop :=
  l_deadlined l = true -> l_deadlined l' = true /\ l_readDeadline l' = l_readDeadline l.
#[global] Instance deadline_preorder : PreOrder deadline_kept.
Proof.
  split; [by intros l|]. intros l1 l2 l3 H12 H23 Hd. destruct (H12 Hd) as [Hd2 E2].
  destruct (H23 Hd2) as [? ?]. split; [done|congruence].
Qed.

Lemma must_along {A} (m : result A) : along deadline_kept (must m).
Proof. destruct m; [apply along_ret, _|apply along_panic..]. Qed.

#[local] Hint Resolve must_along : frame.

Lemma sent_keeps_deadline t : along deadline_kept (sent c t).
Proof.
  intros l. unfold wlp, sent, mbind, act_bind, act_gets.
  destruct (l_keepAliveTimer l); simpl; (destruct (l_deadlined l) eqn:Ed; simpl; [done|]);
    destruct t; simpl; intros Hd; simpl in Hd; congruence.
Qed.
#[local] Hint Resolve sent_keeps_deadline : frame.

Lemma step_keeps_deadline msg : (forall t, msg <> MonitorRecv t) -> along deadline_kept (link_step c msg).
Proof.
  intros Hm. destruct msg; cbn [link_step]; try by destruct (Hm pType).
  all: unfold sendDirect, push, pop, set_srst, sendPacket, write, writer_idle, keepAlive, stop_monitor.
  all: follow; done.
Qed.
End mail.

(** ** Runs of the three actors *)

(** A message is handled, or time passes; the messages come in any order. *)
Inductive linkEvent :=
| LHandle (msg : linkMsg)
| LTime (now : Z).

Definition link_event (c : core) (ev : linkEvent) : L unit :=
  match ev with
  | LHandle msg => link_step c msg
  | LTime now => lmodify (fun l => set_l_env now (l_timer l) l)
  end.

Fixpoint link_run (c : core) (evs : list linkEvent) (l : link) : option (link * list linkEffect) :=
  match evs with
  | [] => Some (l, [])
  | ev :: evs =>
      match link_event c ev l with
      | None => None
      | Some (_, l1, es1) =>
          match link_run c evs l1 with None => None | Some (l2, es2) => Some (l2, es1 ++ es2) end
      end
  end.

(** The clock does not go back and the queue's sizes fit 64 bits. *)
Definition link_event_ok (l : link) (ev : linkEvent) : Prop :=
  match ev with LHandle msg => msg_fits l msg | LTime now => l_now l <= now end.
Fixpoint link_events_ok (c : core) (evs : list linkEvent) (l : link) : Prop :=
  match evs with
  | [] => True
  | ev :: evs => link_event_ok l ev /\
      match link_event c ev l with None => True | Some (_, l1, _) => link_events_ok c evs l1 end
  end.

#[global] Instance link_event_ok_dec l ev : Decision (link_event_ok l ev).
Proof. destruct ev as [[]|]; unfold link_event_ok, msg_fits; apply _. Defined.
#[global] Instance link_events_ok_dec c evs : forall l, Decision (link_events_ok c evs l).
Proof.
  induction evs as [|ev evs IH]; intros l; simpl; [apply _|]. apply and_dec; [apply _|].
  destruct (link_event c ev l) as [[[? l1] ?]|]; [apply IH|apply _].
Defined.

Lemma link_event_wp c ev l : link_ok l -> link_event_ok l ev ->
  wp (link_event c ev) l (fun _ l' _ => link_ok l').
Proof.
  intros Hok Hev. destruct ev as [msg|now]; [by apply link_step_wp|]. apply wp_modify.
  destruct Hok. split; [by eapply queue_ok_later|done|done].
Qed.

Lemma link_run_ok c evs : forall l, link_ok l -> link_events_ok c evs l ->
  exists l' es, link_run c evs l = Some (l', es) /\ link_ok l'.
Proof.
  induction evs as [|ev evs IH]; intros l Hok; simpl; [by exists l, []|]. intros [Hev Hevs].
  pose proof (link_event_wp c ev l Hok Hev) as Hw. unfold wp in Hw.
  destruct (link_event c ev l) as [[[[] l1] es1]|]; [|done].
  destruct (IH l1 Hw Hevs) as (l2 & es2 & -> & Hok2). by exists l2, (es1 ++ es2).
Qed.

(** No frame is received in a sequence of events. *)
Definition no_recv (evs : list linkEvent) : Prop :=
  Forall (fun ev => match ev with LHandle (MonitorRecv _) => False | _ => True end) evs.

Lemma run_keeps_deadline c evs : forall l l' es, no_recv evs -> link_run c evs l = Some (l', es) ->
  deadline_kept l l'.
Proof.
  induction evs as [|ev evs IH]; intros l l' es Hn E; simpl in E; [by injection E as <- <-|].
  apply Forall_cons in Hn as [Hev Hn]. destruct (link_event c ev l) as [[[[] l1] es1]|] eqn:E1; [|done].
  destruct (link_run c evs l1) as [[l2 es2]|] eqn:E2; [|done]. injection E as <- <-.
  assert (deadline_kept l l1) as H1; [|by transitivity l1; [|eapply IH]].
  destruct ev as [msg|now]; [|by injection E1 as <- <-].
  eapply (wlp_run _ _ (fun _ l' => deadline_kept l l')); [|exact E1].
  apply step_keeps_deadline. intros t ->. done.
Qed.

(** ** Theorems *)

(** The three actors of a connection, started by the registry and handling messages in any
    order while time passes, never panic; the queue stays well formed, a writer that waits for
    traffic leaves nothing queued, and a read deadline is set exactly when an answer is awaited. *)
Theorem connection_never_panics c now evs :
  link_events_ok c evs (new_link now) ->
  exists l es, link_run c evs (new_link now) = Some (l, es) /\ link_ok l.
Proof. apply link_run_ok, new_link_ok. Qed.

Definition sample_link_events : list linkEvent := [
  LHandle (PeerPush (sample_packet Byte.x01 Byte.x02)); LTime 40000000;
  LHandle (PeerPush (sample_packet Byte.x03 Byte.x02)); LHandle PeerPop;
  LHandle (WriterSend wireTraffic (WPacket (sample_packet Byte.x01 Byte.x02)) false);
  LHandle (MonitorSent wireTraffic); LHandle (WriterIdle 1); LHandle PeerPop
].

(** Once the writer asks for traffic, everything that waits and fits the message limit is
    written, each packet as one frame, oldest first, after which the buffer is flushed, no message
    is left to handle and the writer is ready for the next packet. *)
Theorem queue_drains c l :
  queue_ok (l_now l) (l_queue l) -> Forall (packet_fits c) (contents (l_queue l)) ->
  exists n l' es infos bss, run_mail c n [PeerPop] l = Some ([], l', es) /\
    infos ≡ₚ contents (l_queue l) /\ StronglySorted (fun i j => pi_time i <= pi_time j) infos /\
    Forall2 (fun info => payload (WPacket (pi_packet info))) infos bss /\
    written es = concat (map frame bss) /\ contents (l_queue l') = [] /\ l_ready l' = true.
Proof.
  intros Hq Hfit. apply (drain_all c (Z.to_nat (q_size (l_queue l)))); [|done|done].
  pose proof (wf_queue_size_nonneg _ (qo_wf _ _ Hq)). lia.
Qed.

(** A packet that is too large for a frame and meets an idle writer is dropped without the
    writer asking for more: no message is left to handle, and the packets that follow are only
    queued; nothing is sent for them until some other message is written. *)
Theorem oversized_packet_stalls c l packet :
  l_ready l = true -> peerMaxMessageSize (core_config c) < u64 (pq_size packet + 1) ->
  exists l1 es1, run_mail c 2 [PeerPush packet] l = Some ([], l1, es1) /\ written es1 = [] /\
    l_queue l1 = l_queue l /\
    forall n packets mail l2 es2, run_mail c n (map PeerPush packets) l1 = Some (mail, l2, es2) ->
      l_ready l2 = false /\ es2 = [].
Proof.
  intros Hr Hbig. set (msg := WriterSend (pq_wireType packet) (WPacket packet) false).
  exists (set_l_ready false l), [LPost msg]. split_and!; [|done|done|].
  - apply (run_mail_step _ 1 (PeerPush packet) [] _ (set_l_ready false l) [LPost msg] _ _ []).
    + cbn [link_step]. unfold push, mbind, act_bind, act_gets. by rewrite Hr.
    + apply (run_mail_step _ 0 msg [] _ (set_l_ready false l) [] _ _ []); [|done].
      by apply sendPacket_oversized.
  - intros n packets mail l2 es2. by apply pushes_only_queue.
Qed.


(** A node with a limit of 200 bytes, and a packet that its limit on payloads
    lets through with a path that makes it too large. *)
Definition small_core : core :=
  @core_init toy_ed25519 (array_of 64 (replicate 32 Byte.x00 ++ [Byte.x05])) [WithPeerMaxMessageSize 200].
Definition big_packet : pqPacket :=
  PqTraffic (MkTraffic [1; 2; 3] [] (sample_key Byte.x01) (sample_key Byte.x02) max_u64 (replicate 121 Byte.x00)).

(** A peer that goes silent is timed out: the first message sent that needs an answer sets a
    read deadline one [peerTimeout] ahead, and nothing the actors do after that, sending more
    messages included, moves or clears it until a frame is received. *)
Theorem silent_peer_times_out c t l evs l' es :
  t <> wireDummy -> t <> wireKeepAlive -> l_deadlined l = false -> no_recv evs ->
  link_run c (LHandle (MonitorSent t) :: evs) l = Some (l', es) ->
  l_deadlined l' = true /\ l_readDeadline l' = Some (l_now l + peerTimeout (core_config c)).
Proof.
  intros Ht1 Ht2 Hd Hn E. cbn [link_run link_event link_step] in E.
  destruct (sent c t l) as [[[[] l1] es1]|] eqn:E1; [|done].
  destruct (link_run c evs l1) as [[l2 es2]|] eqn:E2; [|done]. injection E as <- <-.
  assert (l_deadlined l1 = true /\ l_readDeadline l1 = Some (l_now l + peerTimeout (core_config c))) as [Hd1 Hr1].
  { revert E1. unfold sent, mbind, act_bind, act_gets.
    destruct (l_keepAliveTimer l); simpl; rewrite Hd; simpl; destruct t; try done; by intros [= <- <-]. }
  rewrite <- Hr1. eapply run_keeps_deadline; eauto.
Qed.
