(* ===== verification/PacketConn.v ===== *)
(** * The packet interface of a node

    [ironwood/network/packetconn.go] and [pool.go]: sending and receiving
    payloads by key, the buffer between the router and the readers, read
    deadlines, connections and closing.

    The [PacketConn] has an actor, whose inbox holds [pcMsg]s, a channel of
    capacity one to the readers, and any number of concurrent [ReadFrom] calls;
    each call is in one of the stages of [reader]. A [select] with several ready
    cases takes any of them: [pconn_step] has a rule for each. *)

From S2P Require Import Prelude Crypto Wire Messages Bloom GoHeap PacketQueue RouterState RouterCost Router RouterInv QueueClient Peers Link.

(** ** Pools *)

(** [allocTraffic] gives an empty packet: [freeTraffic] resets what it stores. *)
Definition zero_traffic : traffic :=
  MkTraffic [] [] (zero_array publicKeySize) (zero_array publicKeySize) 0 [].
Definition freeTraffic (tr : traffic) : traffic :=
  MkTraffic (take 0 (tr_path tr)) (take 0 (tr_from tr)) (tr_source zero_traffic) (tr_dest zero_traffic)
    (tr_watermark zero_traffic) (tr_payload zero_traffic).
(** [pool] is what [trafficPool.Get] finds, an earlier [freeTraffic]'s or none. *)
Definition allocTraffic (pool : option traffic) : traffic :=
  let tr := default zero_traffic (freeTraffic <$> pool) in
  MkTraffic (tr_path tr) (tr_from tr) (tr_source tr) (tr_dest tr) (tr_watermark tr) [].

(** ** Sending *)

Definition MTU (c : core) : Z :=
  let tr := MkTraffic [] [] (zero_array publicKeySize) (zero_array publicKeySize) max_u64 [] in
  let overhead := u64 (traffic_size tr + 1) in
  u64 (peerMaxMessageSize (core_config c) - overhead).

(** The argument [addr]: a [types.Addr] or another [net.Addr]. The packet
    returned is handed to [router.sendTraffic]. *)
Definition WriteTo (c : core) (closed : bool) (pool : option traffic) (p : list byte)
    (addr : option (list byte)) : result (Z * traffic) :=
  if closed then Fail ErrClosed
  else
    match addr with
    | None => Fail ErrBadAddress
    | Some dest =>
        if negb (length dest =? publicKeySize)%nat then Fail ErrBadAddress
        else if MTU c <? u64 (Z.of_nat (length p)) then Fail ErrOversizedMessage
        else
          let tr := allocTraffic pool in
          let tr := MkTraffic (tr_path tr) (tr_from tr) (selfKey c) (array_of publicKeySize dest) max_u64
                      (tr_payload tr ++ p) in
          mret (Z.of_nat (length p), tr)
    end.

(** ** Deadlines *)

(** A [sync.Once] and a channel are named by numbers; [d_used] and [d_closed]
    are those whose function has run and which are closed. A timer's function
    holds the once and the channel it was started with. *)
Record deadline := MkDeadline {
  d_once : nat;
  d_cancel : nat;
  d_timer : option timer;
  d_used : gset nat;
  d_closed : gset nat;
  d_pending : gmap timer (nat * nat);
  d_next : nat
}.

Definition newDeadline : deadline := MkDeadline 0 1 None ∅ ∅ ∅ 2.

(** [once.Do(f)] *)
Definition once_Do (once : nat) (f : deadline -> deadline) (d : deadline) : deadline :=
  if bool_decide (once ∈ d_used d) then d
  else
    let d := f d in
    MkDeadline (d_once d) (d_cancel d) (d_timer d) ({[once]} ∪ d_used d) (d_closed d) (d_pending d) (d_next d).

Definition stop_timer (t : timer) (d : deadline) : deadline :=
  MkDeadline (d_once d) (d_cancel d) (d_timer d) (d_used d) (d_closed d) (delete t (d_pending d)) (d_next d).
Definition close_channel (ch : nat) (d : deadline) : deadline :=
  MkDeadline (d_once d) (d_cancel d) (d_timer d) (d_used d) ({[ch]} ∪ d_closed d) (d_pending d) (d_next d).

(** [zero] tells whether the time given is the zero time. *)
Definition deadline_set (zero : bool) (d : deadline) : deadline :=
  let d := once_Do (d_once d)
             (fun d => match d_timer d with Some t => stop_timer t d | None => d end) d in
  let d := if bool_decide (d_cancel d ∈ d_closed d) then
             MkDeadline (d_once d) (d_next d) (d_timer d) (d_used d) (d_closed d) (d_pending d) (S (d_next d))
           else d in
  let d := MkDeadline (d_next d) (d_cancel d) (d_timer d) (d_used d) (d_closed d) (d_pending d) (S (d_next d)) in
  if zero then d
  else
    let t : timer := d_next d in
    MkDeadline (d_once d) (d_cancel d) (Some t) (d_used d) (d_closed d)
      (<[t := (d_once d, d_cancel d)]> (d_pending d)) (S (d_next d)).

(** The timer's function, when it is still pending. *)
Definition deadline_fire (t : timer) (d : deadline) : deadline :=
  match d_pending d !! t with
  | None => d
  | Some (once, cancel) => once_Do once (close_channel cancel) (stop_timer t d)
  end.

Definition getCancel (d : deadline) : nat := d_cancel d.

(** ** Receiving *)

Inductive pcMsg :=
| PcTraffic (tr : traffic)
| PcPop.

(** A [ReadFrom] call: it has posted its [doPop] and waits on the channels it
    selected, among them the [cancel] channel it got before waiting. *)
Record packetConn := MkPacketConn {
  pc_inbox : list pcMsg;
  pc_recv : option traffic;
  pc_recvReady : Z;
  pc_recvq : packetQueue;
  pc_readDeadline : deadline;
  pc_closed : bool;
  pc_readers : list nat;
  pc_now : Z
}.

Definition pconn_init (now : Z) : packetConn :=
  MkPacketConn [] None 0 empty_queue newDeadline false [] now.

Definition set_recv (inbox : list pcMsg) (recv : option traffic) (ready : Z) (q : packetQueue)
    (pc : packetConn) : packetConn :=
  MkPacketConn inbox recv ready q (pc_readDeadline pc) (pc_closed pc) (pc_readers pc) (pc_now pc).

(** What the actor does with a message: it goes on in a new state, blocks in its
    [select], or panics. [prefer_closed] is the choice of a [select] where both
    the channel and [closed] are ready. *)
Inductive handled := Done (pc : packetConn) | Blocked | Panicked.

Definition pconn_handleTraffic (c : core) (prefer_closed : bool) (rest : list pcMsg) (tr : traffic)
    (pc : packetConn) : handled :=
  let same := set_recv rest (pc_recv pc) (pc_recvReady pc) (pc_recvq pc) pc in
  if negb (equal (tr_dest tr) (selfKey c)) then Done same
  else if 0 <? pc_recvReady pc then
    match pc_recv pc with
    | None =>
        if pc_closed pc && prefer_closed then Done same
        else Done (set_recv rest (Some tr) (u64 (pc_recvReady pc - 1)) (pc_recvq pc) pc)
    | Some _ => if pc_closed pc then Done same else Blocked
    end
  else
    match Queue.peek (pc_recvq pc) with
    | Ret oldest =>
        let stale := match oldest with
                     | Some info => 25 * Millisecond <? time_Sub (pc_now pc) (pi_time info)
                     | None => false
                     end in
        match (if stale then Queue.drop (pc_recvq pc) else Ret (pc_recvq pc, false)) with
        | Ret (q, _) =>
            Done (set_recv rest (pc_recv pc) (pc_recvReady pc) (Queue.push (pc_now pc) q (PqTraffic tr)) pc)
        | _ => Panicked
        end
    | _ => Panicked
    end.

Definition doPop (prefer_closed : bool) (rest : list pcMsg) (pc : packetConn) : handled :=
  match Queue.pop (pc_recvq pc) with
  | Ret (Some info, q) =>
      match pi_packet info with
      | PqTraffic tr =>
          match pc_recv pc with
          | None =>
              if pc_closed pc && prefer_closed then Done (set_recv rest None (pc_recvReady pc) q pc)
              else Done (set_recv rest (Some tr) (pc_recvReady pc) q pc)
          | Some _ => if pc_closed pc then Done (set_recv rest (pc_recv pc) (pc_recvReady pc) q pc) else Panicked
          end
      | _ => Panicked
      end
  | Ret (None, q) => Done (set_recv rest (pc_recv pc) (u64 (pc_recvReady pc + 1)) q pc)
  | _ => Panicked
  end.

Definition pconn_handle (c : core) (prefer_closed : bool) (pc : packetConn) : handled :=
  match pc_inbox pc with
  | [] => Blocked
  | PcTraffic tr :: rest => pconn_handleTraffic c prefer_closed rest tr pc
  | PcPop :: rest => doPop prefer_closed rest pc
  end.

(** What [ReadFrom] returns for a packet: the bytes copied into [p], their
    number, and the source; [n] is [len(p)]. *)
Definition readResult (n : nat) (tr : traffic) : list byte * Z * publicKey :=
  let copied := take n (tr_payload tr) in
  let count := if (n <? length (tr_payload tr))%nat then Z.of_nat n else Z.of_nat (length (tr_payload tr)) in
  (copied, count, tr_source tr).

(** The steps of the actor and of the calls of other goroutines, with what a
    reader returns. *)
Inductive pconn_event :=
| PcTau
| PcArrive (tr : traffic)
| PcRead
| PcReturn (r : result traffic)
| PcDeadline
| PcClose
| PcTime.

Inductive pconn_step (c : core) : packetConn -> pconn_event -> packetConn -> Prop :=
| step_handle b pc pc' : pconn_handle c b pc = Done pc' -> pconn_step c pc PcTau pc'
| step_arrive tr pc :
    pconn_step c pc (PcArrive tr)
      (MkPacketConn (pc_inbox pc ++ [PcTraffic tr]) (pc_recv pc) (pc_recvReady pc) (pc_recvq pc)
        (pc_readDeadline pc) (pc_closed pc) (pc_readers pc) (pc_now pc))
| step_read pc :
    pconn_step c pc PcRead
      (MkPacketConn (pc_inbox pc ++ [PcPop]) (pc_recv pc) (pc_recvReady pc) (pc_recvq pc)
        (pc_readDeadline pc) (pc_closed pc) (pc_readers pc ++ [getCancel (pc_readDeadline pc)]) (pc_now pc))
| step_return_packet pc tr i cancel :
    pc_readers pc !! i = Some cancel -> pc_recv pc = Some tr ->
    pconn_step c pc (PcReturn (Ret tr))
      (MkPacketConn (pc_inbox pc) None (pc_recvReady pc) (pc_recvq pc)
        (pc_readDeadline pc) (pc_closed pc) (rest_at (pc_readers pc) i) (pc_now pc))
| step_return_closed pc i cancel :
    pc_readers pc !! i = Some cancel -> pc_closed pc = true ->
    pconn_step c pc (PcReturn (Fail ErrClosed))
      (MkPacketConn (pc_inbox pc) (pc_recv pc) (pc_recvReady pc) (pc_recvq pc)
        (pc_readDeadline pc) (pc_closed pc) (rest_at (pc_readers pc) i) (pc_now pc))
| step_return_timeout pc i cancel :
    pc_readers pc !! i = Some cancel -> cancel ∈ d_closed (pc_readDeadline pc) ->
    pconn_step c pc (PcReturn (Fail ErrTimeout))
      (MkPacketConn (pc_inbox pc) (pc_recv pc) (pc_recvReady pc) (pc_recvq pc)
        (pc_readDeadline pc) (pc_closed pc) (rest_at (pc_readers pc) i) (pc_now pc))
| step_set_deadline pc zero :
    pconn_step c pc PcDeadline
      (MkPacketConn (pc_inbox pc) (pc_recv pc) (pc_recvReady pc) (pc_recvq pc)
        (deadline_set zero (pc_readDeadline pc)) (pc_closed pc) (pc_readers pc) (pc_now pc))
| step_fire pc t :
    pconn_step c pc PcDeadline
      (MkPacketConn (pc_inbox pc) (pc_recv pc) (pc_recvReady pc) (pc_recvq pc)
        (deadline_fire t (pc_readDeadline pc)) (pc_closed pc) (pc_readers pc) (pc_now pc))
| step_close pc : pc_closed pc = false ->
    pconn_step c pc PcClose
      (MkPacketConn (pc_inbox pc) (pc_recv pc) (pc_recvReady pc) (pc_recvq pc)
        (pc_readDeadline pc) true (pc_readers pc) (pc_now pc))
| step_time pc now : pc_now pc <= now ->
    pconn_step c pc PcTime
      (MkPacketConn (pc_inbox pc) (pc_recv pc) (pc_recvReady pc) (pc_recvq pc)
        (pc_readDeadline pc) (pc_closed pc) (pc_readers pc) now).

(** ** Other operations *)

Definition LocalAddr (c : core) : list byte := addr (selfKey c).
Definition IsClosed (pc : packetConn) : bool := pc_closed pc.
Definition PrivateKey (c : core) : list byte := crypto_privateKey (core_crypto c).

(** Only read deadlines have an effect. *)
Definition SetReadDeadline (zero : bool) (pc : packetConn) : packetConn :=
  MkPacketConn (pc_inbox pc) (pc_recv pc) (pc_recvReady pc) (pc_recvq pc)
    (deadline_set zero (pc_readDeadline pc)) (pc_closed pc) (pc_readers pc) (pc_now pc).
Definition SetWriteDeadline (zero : bool) (pc : packetConn) : packetConn := pc.
Definition SetDeadline (zero : bool) (pc : packetConn) : packetConn :=
  SetWriteDeadline zero (SetReadDeadline zero pc).

(** [Close]: the connections it closes, and the router's [_shutdown] to run. *)
Definition Close `{MapOrder} (pc : packetConn) (ps : peersState) : result (packetConn * list peer * event) :=
  if pc_closed pc then Fail ErrClosed
  else
    mret (MkPacketConn (pc_inbox pc) (pc_recv pc) (pc_recvReady pc) (pc_recvq pc)
            (pc_readDeadline pc) true (pc_readers pc) (pc_now pc),
          map_order (dom (ps_peers ps)) ≫= (fun k => map_order (default ∅ (ps_peers ps !! k))),
          EvShutdown).

(** An error of [HandleConn]. *)
Inductive connError := CErr (e : Error) | CRead (e : readError).

(** [stream] is what the connection delivers before it ends, [meanwhile] what
    other connections do to the registry during that time. *)
Definition HandleConn `{Ed25519} `{MapOrder} (c : core) (closed : bool) (key : list byte)
    (conn : option (option string)) (prio now : Z) (stream : list byte)
    (meanwhile : peersState -> peersState) (ps : peersState)
    : option (connError * peersState * list linkEffect) :=
  if negb (length key =? publicKeySize)%nat then Some (CErr ErrBadKey, ps, [])
  else
    let pk := array_of publicKeySize key in
    if equal (selfKey c) pk then Some (CErr ErrBadKey, ps, [])
    else
      match peers_addPeer closed pk conn prio ps with
      | Panic => None
      | Fail e => Some (CErr e, ps, [])
      | Ret (p, ps) =>
          match handler c p stream (new_link now) with
          | None => None
          | Some (err, _, es) =>
              let ps := meanwhile ps in
              match peers_removePeer p ps with
              | Panic => None
              | Fail e => Some (CErr e, ps, es)
              | Ret ps => Some (CRead err, ps, es)
              end
          end
      end.

(** ** Runs *)

Inductive pconn_run (c : core) : packetConn -> list pconn_event -> packetConn -> Prop :=
| run_nil pc : pconn_run c pc [] pc
| run_step pc ev pc1 evs pc2 :
    pconn_step c pc ev pc1 -> pconn_run c pc1 evs pc2 -> pconn_run c pc (ev :: evs) pc2.
