(* ===== verification/PacketConnSafety.v ===== *)
(** * Readers, writers and connections of a [PacketConn]

    Theorems about [ironwood/network/packetconn.go]: what [WriteTo] accepts,
    when the receive path cannot panic and when it can, what a new deadline
    does to an old one, and what [HandleConn] leaves behind. *)

From S2P Require Import Prelude Crypto Wire Messages Bloom GoHeap PacketQueue RouterState RouterCost Router RouterInv QueueClient Peers Core Link Reading Connection PacketConn.

(** ** Sending *)

(** The bytes of a packet without paths around its payload: 77 with its type. *)
Definition overhead : Z := 77.

Lemma MTU_eq c : overhead <= peerMaxMessageSize (core_config c) < 2 ^ 64 ->
  MTU c = peerMaxMessageSize (core_config c) - overhead.
Proof.
  intros Hc. unfold MTU. replace (u64 (traffic_size _ + 1)) with overhead by (vm_compute; done).
  apply u64_small. unfold is_u64, overhead in *. lia.
Qed.

Lemma allocTraffic_empty pool : tr_path (allocTraffic pool) = [] /\ tr_from (allocTraffic pool) = [] /\
  tr_payload (allocTraffic pool) = [].
Proof. by destruct pool. Qed.

(** The size of a packet grows by at least a byte per port of its paths. *)
Lemma wireSizePath_nil : wireSizePath [] = 1.
Proof. done. Qed.

Lemma traffic_size_eq tr : tr_watermark tr = max_u64 ->
  traffic_size tr = wireSizePath (tr_path tr) + wireSizePath (tr_from tr) + 74 + Z.of_nat (length (tr_payload tr)).
Proof.
  intros E. unfold traffic_size. rewrite E, !length_array.
  replace (wireSizeUint max_u64) with 10 by (vm_compute; done). lia.
Qed.

(** ** Receiving *)

(** The promises made to readers: [doPop] calls to handle, packets to deliver
    on arrival, and a packet in the channel. *)
Definition pops (inbox : list pcMsg) : Z :=
  sum_Z (fun m => match m with PcPop => 1 | _ => 0 end) inbox.
Definition tokens (pc : packetConn) : Z :=
  pops (pc_inbox pc) + pc_recvReady pc + (match pc_recv pc with Some _ => 1 | None => 0 end).

Section receiving.
Context (c : core).

(** Only traffic for this node is kept for the readers. *)
Definition ours (tr : traffic) : Prop := tr_dest tr = selfKey c.
Definition all_traffic (q : packetQueue) : Prop :=
  forall i, waiting q i -> exists tr, pi_packet i = PqTraffic tr /\ ours tr.

Record pconn_inv (pc : packetConn) : Prop := {
  pv_tokens : pc_closed pc = false -> tokens pc = Z.of_nat (length (pc_readers pc));
  pv_ready : 0 <= pc_recvReady pc;
  pv_readers : pc_closed pc = false -> (length (pc_readers pc) <= 1)%nat;
  pv_queue : queue_ok (pc_now pc) (pc_recvq pc);
  pv_traffic : all_traffic (pc_recvq pc);
  pv_recv tr : pc_recv pc = Some tr -> ours tr
}.

(** One [ReadFrom] at a time, no deadlines, sizes that fit. *)
Definition disciplined (pc : packetConn) (ev : pconn_event) : Prop :=
  match ev with
  | PcRead => pc_readers pc = []
  | PcDeadline => False
  | PcTau => pc_recvReady pc < max_u64 /\
      match pc_inbox pc with
      | PcTraffic tr :: _ => q_size (pc_recvq pc) + pq_size (PqTraffic tr) < 2 ^ 64
      | _ => True
      end
  | PcReturn (Fail ErrTimeout) => False
  | _ => True
  end.

Lemma pops_cons m inbox : pops (m :: inbox) = (match m with PcPop => 1 | _ => 0 end) + pops inbox.
Proof. done. Qed.
Lemma pops_app inbox inbox' : pops (inbox ++ inbox') = pops inbox + pops inbox'.
Proof. apply sum_Z_app. Qed.
Lemma pops_nonneg inbox : 0 <= pops inbox.
Proof. apply sum_Z_nonneg, Forall_forall. intros [] _; lia. Qed.

Lemma pc_pop_cases now q : queue_ok now q -> all_traffic q ->
  (Queue.pop q = Ret (None, q)) \/
  exists info tr q', Queue.pop q = Ret (Some info, q') /\ pi_packet info = PqTraffic tr /\ ours tr /\
    queue_ok now q' /\ all_traffic q'.
Proof.
  intros Hq Ht. destruct (queue_ok_pop now q Hq) as ([info|] & q' & E & Hq' & Ho).
  - right. destruct Ho as (_ & Hc & _). destruct (Ht info) as (tr & Etr & Hus).
    { apply elem_of_contents. rewrite Hc. left. }
    exists info, tr, q'. split_and!; [done|done|done|done|]. intros i Hi%elem_of_contents. apply Ht, elem_of_contents.
    rewrite Hc. by right.
  - left. destruct Ho as (_ & ->). done.
Qed.

Definition held (recv : option traffic) : Z := match recv with Some _ => 1 | None => 0 end.

Lemma set_recv_inv rest recv ready q pc : pconn_inv pc ->
  (pc_closed pc = false -> pops rest + ready + held recv = Z.of_nat (length (pc_readers pc))) ->
  0 <= ready -> queue_ok (pc_now pc) q -> all_traffic q ->
  (forall tr, recv = Some tr -> ours tr) -> pconn_inv (set_recv rest recv ready q pc).
Proof. intros [] Ht Hr Hq Hall Hus. by split. Qed.

Lemma all_traffic_push now q tr : ours tr -> queue_ok now q -> all_traffic q ->
  q_size q + pq_size (PqTraffic tr) < 2 ^ 64 ->
  queue_ok now (Queue.push now q (PqTraffic tr)) /\ all_traffic (Queue.push now q (PqTraffic tr)).
Proof.
  intros Hus Hq Ht Hfit. split; [by apply queue_ok_push|]. intros i Hi.
  destruct (push_spec now q (PqTraffic tr) (qo_wf _ _ Hq) (qo_past _ _ Hq) Hfit) as (Hw & _ & Hv).
  apply waiting_push in Hi as [Hi| ->]; [by apply Ht|by exists tr|apply Hq|done|done].
Qed.

(** Dropping the stale packet, or nothing. *)
Lemma drop_stale now q (stale : bool) : queue_ok now q -> all_traffic q ->
  exists q' b, (if stale then Queue.drop q else Ret (q, false)) = Ret (q', b) /\
    queue_ok now q' /\ all_traffic q' /\ q_size q' <= q_size q.
Proof.
  intros Hq Ht. destruct stale; [|by exists q, false].
  destruct (queue_ok_drop now q Hq) as (q' & b & E & Hq' & Hle & Hsub). exists q', b.
  split_and!; [done|done| |done]. intros i Hi. by apply Ht, Hsub.
Qed.

#[local] Ltac keep Htok :=
  apply set_recv_inv; try done; try (intros Hc; specialize (Htok Hc); simpl in *; lia); try lia;
  try (intros ? [= <-]; done).

(** The actor always finishes its message. *)
Lemma pconn_handle_inv b pc : pconn_inv pc -> disciplined pc PcTau -> pc_inbox pc <> [] ->
  exists pc', pconn_handle c b pc = Done pc' /\ pconn_inv pc'.
Proof.
  intros Hinv [Hmax Hfit] Hne. pose proof Hinv as [Htok Hready Hread Hq Ht Hus]. unfold pconn_handle.
  destruct (pc_inbox pc) as [|m rest] eqn:Ei; [done|].
  assert (0 <= pops rest) as Hpr by apply pops_nonneg.
  unfold tokens in Htok. rewrite Ei, pops_cons in Htok. fold (held (pc_recv pc)) in Htok.
  destruct m as [tr|].
  - unfold pconn_handleTraffic, equal. case_bool_decide as Hd; simpl negb; cbv iota; [|].
    2:
    { eexists. split; [done|]. keep Htok. }
    destruct (Z.ltb_spec 0 (pc_recvReady pc)) as [Hr|Hr].
    + assert (u64 (pc_recvReady pc - 1) = pc_recvReady pc - 1) as Hu.
      { apply u64_small. unfold is_u64, max_u64 in *. lia. }
      destruct (pc_recv pc) as [tr0|] eqn:Er; simpl in Htok.
      * destruct (pc_closed pc) eqn:Ec; [|specialize (Htok eq_refl); specialize (Hread eq_refl); lia].
        eexists. split; [done|]. keep Htok; by rewrite Ec.
      * destruct (_ && _); eexists; (split; [done|]); rewrite ?Hu; keep Htok.
    + destruct (queue_ok_peek _ _ Hq) as [o ->]. cbv zeta. set (stale := match o with Some info => _ | None => _ end).
      destruct (drop_stale (pc_now pc) (pc_recvq pc) stale Hq Ht)
        as (q & b' & -> & Hq1 & Ht1 & Hle). eexists. split; [done|].
      destruct (all_traffic_push (pc_now pc) q tr Hd Hq1 Ht1 ltac:(lia)).
      keep Htok.
  - unfold doPop. destruct (pc_pop_cases _ _ Hq Ht) as [->|(info & tr & q & -> & -> & Hd & Hq1 & Ht1)].
    + assert (u64 (pc_recvReady pc + 1) = pc_recvReady pc + 1) as Hu.
      { apply u64_small. unfold is_u64, max_u64 in *. lia. }
      eexists. split; [done|]. rewrite Hu. keep Htok.
    + destruct (pc_recv pc) as [tr0|] eqn:Er; simpl in Htok.
      * destruct (pc_closed pc) eqn:Ec; [|specialize (Htok eq_refl); specialize (Hread eq_refl); lia].
        eexists. split; [done|]. keep Htok; by rewrite Ec.
      * destruct (_ && _) eqn:Eb; eexists; (split; [done|]); keep Htok.
        apply andb_prop in Eb as [Ec _]. by rewrite Ec.
Qed.

Lemma length_rest_at {A} (l : list A) i x : l !! i = Some x -> length l = S (length (rest_at l i)).
Proof. intros Hi. by rewrite (rest_at_perm l i x Hi) at 1. Qed.

Lemma pconn_step_inv pc ev pc' : pconn_inv pc -> disciplined pc ev -> pconn_step c pc ev pc' -> pconn_inv pc'.
Proof.
  intros Hinv Hd Hs. pose proof Hinv as [Htok Hready Hread Hq Ht Hus]. unfold tokens in Htok.
  destruct Hs as [b pc pc' Eh|tr pc|pc|pc tr i cancel Hi Er|pc i cancel Hi Hc|pc i cancel Hi Hc|pc zero|pc t|pc Hc|pc now Hn];
    simpl in Hd; try done.
  - destruct (pconn_handle_inv b pc Hinv Hd) as (pc'' & E & ?); [|by rewrite E in Eh; simplify_eq].
    intros E. unfold pconn_handle in Eh. by rewrite E in Eh.
  - split; simpl; try done. intros Hc%Htok. unfold tokens. simpl. rewrite pops_app. simpl. lia.
  - split; simpl; try done; rewrite Hd in *; [|simpl; lia]. intros Hc%Htok. unfold tokens. simpl.
    rewrite pops_app. simpl in *. lia.
  - pose proof (length_rest_at _ _ _ Hi) as Hl. rewrite Er in Htok. split; simpl; try done; [|intros Hc%Hread; lia].
    intros Hc%Htok. unfold tokens. simpl. lia.
  - pose proof (length_rest_at _ _ _ Hi) as Hl. split; simpl; try done; congruence.
  - split; simpl; try done. by eapply queue_ok_later.
Qed.

End receiving.

(** ** Connections *)

Section conns.
Context `{Ed25519} `{MapOrder} (c : core).

Lemma HandleConn_connected pk key conn prio now stream meanwhile ps :
  length key = publicKeySize -> pk = array_of publicKeySize key -> pk <> selfKey c ->
  peers_ok ps -> 0 <= ps_order ps < max_u64 ->
  exists p ps1 err es mid, p_key p = pk /\ ~ registered ps p /\ peers_ok ps1 /\
    (forall q, registered ps1 q <-> registered ps q \/ q = p) /\
    routed es = EvAddPeer p :: mid ++ [EvRemovePeer p] /\ Forall (received c p) mid /\
    (peers_ok (meanwhile ps1) -> registered (meanwhile ps1) p ->
      exists ps2, HandleConn c false key conn prio now stream meanwhile ps = Some (CRead err, ps2, es) /\
        peers_ok ps2 /\ forall q, registered ps2 q <-> registered (meanwhile ps1) q /\ q <> p).
Proof.
  intros Hl -> Hne Hok Ho. set (pk := array_of publicKeySize key) in *.
  destruct (addPeer_spec pk conn prio ps Hok Ho) as (p & ps1 & Ea & Hok1 & Hk & _ & Hnew & _ & Hreg & _).
  destruct (handler_spec c p stream (new_link now)) as (err & l' & es & mid & Eh & _ & Er & Hmid).
  exists p, ps1, err, es, mid. split_and!; try done. intros Hok2 Hreg2.
  pose proof (removePeer_spec p (meanwhile ps1) Hok2) as Hrm. rewrite decide_True in Hrm by done.
  destruct Hrm as (ps2 & Erm & Hok3 & _ & Hreg3). exists ps2. split_and!; [|done|done].
  unfold HandleConn. rewrite Hl, Nat.eqb_refl. cbn [negb]. cbv zeta. fold pk. unfold equal.
  rewrite bool_decide_eq_false_2 by congruence. by rewrite Ea, Eh, Erm.
Qed.
End conns.

(** ** Deadlines *)

(** The once of every pending timer but the current one's has run, and the
    names in use are old. *)
Record deadline_inv (d : deadline) : Prop := {
  dv_current : d_once d ∉ d_used d -> d_cancel d ∉ d_closed d;
  dv_timer t once cancel : d_pending d !! t = Some (once, cancel) -> once ∉ d_used d ->
    once = d_once d /\ cancel = d_cancel d /\ d_timer d = Some t;
  dv_once : (d_once d < d_next d)%nat;
  dv_cancel : (d_cancel d < d_next d)%nat;
  dv_used : forall o, o ∈ d_used d -> (o < d_next d)%nat;
  dv_closed : forall ch, ch ∈ d_closed d -> (ch < d_next d)%nat
}.

Lemma newDeadline_inv : deadline_inv newDeadline.
Proof. split; simpl; try lia; set_solver. Qed.

(** Stopping the current timer, as the old once's last act. *)
Definition retired (d : deadline) : deadline :=
  once_Do (d_once d) (fun d => match d_timer d with Some t => stop_timer t d | None => d end) d.

Lemma retired_spec d : deadline_inv d ->
  d_once d ∈ d_used (retired d) /\ d_once (retired d) = d_once d /\ d_cancel (retired d) = d_cancel d /\
  d_closed (retired d) = d_closed d /\ d_next (retired d) = d_next d /\
  (forall t once cancel, d_pending (retired d) !! t = Some (once, cancel) -> once ∈ d_used (retired d)) /\
  forall o, o ∈ d_used (retired d) -> o = d_once d \/ o ∈ d_used d.
Proof.
  intros [Hc Ht Ho Hca Hu Hcl]. unfold retired, once_Do. case_bool_decide as Hin.
  - split_and!; try done; [|auto]. intros t once cancel E. destruct (decide (once ∈ d_used d)); [done|].
    destruct (Ht t once cancel E) as (-> & _); done.
  - assert (forall o, o ∈ ({[d_once d]} ∪ d_used d : gset nat) <-> o = d_once d \/ o ∈ d_used d) as Hel.
    { intros o. by rewrite elem_of_union, elem_of_singleton. }
    assert (forall t once cancel, d_pending d !! t = Some (once, cancel) -> d_timer d <> Some t ->
      once = d_once d \/ once ∈ d_used d) as Hp.
    { intros t once cancel E Hne. destruct (decide (once ∈ d_used d)); [by right|].
      by destruct (Ht t once cancel E) as (_ & _ & ?). }
    destruct (d_timer d) as [t0|] eqn:E0; simpl; (split_and!; try done; [by apply Hel; left| |by intros o ?%Hel]).
    + intros t once cancel [Hne E]%lookup_delete_Some. apply Hel, (Hp t once cancel E). congruence.
    + intros t once cancel E. by apply Hel, (Hp t once cancel E).
Qed.

(** What [set] leaves: the new channel is open, and only the new timer can close it. *)
Lemma deadline_set_spec zero d : deadline_inv d ->
  let d' := deadline_set zero d in
  deadline_inv d' /\ getCancel d' ∉ d_closed d' /\ d_once d' ∉ d_used d' /\
  forall t once cancel, d_pending d' !! t = Some (once, cancel) -> once ∉ d_used d' ->
    zero = false /\ d_timer d' = Some t.
Proof.
  intros Hinv. pose proof Hinv as [_ _ Ho Hca Hu Hcl].
  destruct (retired_spec d Hinv) as (H1 & H2 & H3 & H4 & H5 & H6 & H7).
  unfold deadline_set. fold (retired d). rewrite H3, H4. set (r := retired d) in *. clearbody r. cbv zeta.
  set (d1 := if bool_decide _ then _ else r).
  assert (d_once d1 = d_once d /\ d_used d1 = d_used r /\ d_closed d1 = d_closed d /\ d_pending d1 = d_pending r /\
    d_cancel d1 ∉ d_closed d /\ (d_cancel d1 < d_next d1)%nat /\ (d_next d <= d_next d1)%nat)
    as (E1 & E2 & E3 & E4 & E5 & E6 & E7).
  { unfold d1. case_bool_decide as Hin; simpl; rewrite ?H3, ?H5; split_and!; try done; try lia.
    intros Hn%Hcl. lia. }
  clearbody d1.
  assert (d_next d1 ∉ d_used d1) as Hfresh.
  { rewrite E2. intros [Hn|Hn%Hu]%H7; lia. }
  assert (forall t once cancel, d_pending d1 !! t = Some (once, cancel) -> once ∈ d_used d1) as Hused.
  { intros t once cancel. rewrite E4, E2. apply H6. }
  destruct zero; cbn; (split; [|split_and!; [by rewrite E3|done|]]).
  - split; cbn; try lia.
    + intros _. by rewrite E3.
    + intros t once cancel E%Hused. done.
    + rewrite E2. intros o [->|Hn%Hu]%H7; lia.
    + rewrite E3. intros ch Hn%Hcl. lia.
  - intros t once cancel E%Hused. done.
  - split; cbn; try lia.
    + intros _. by rewrite E3.
    + intros t once cancel [[<- [= <- <-]]|[_ E%Hused]]%lookup_insert_Some; done.
    + rewrite E2. intros o [->|Hn%Hu]%H7; lia.
    + rewrite E3. intros ch Hn%Hcl. lia.
  - intros t once cancel [[<- [= <- <-]]|[_ E%Hused]]%lookup_insert_Some; done.
Qed.

(** The new timer is pending. *)
Lemma deadline_set_timer d : let d' := deadline_set false d in
  exists t, d_timer d' = Some t /\ d_pending d' !! t = Some (d_once d', d_cancel d').
Proof. eexists. split; [done|]. apply lookup_insert_eq. Qed.

Lemma deadline_fire_closes t d : d_pending d !! t = Some (d_once d, d_cancel d) -> d_once d ∉ d_used d ->
  getCancel d ∈ d_closed (deadline_fire t d).
Proof.
  intros Ep Hn. unfold deadline_fire. rewrite Ep. unfold once_Do. simpl. rewrite bool_decide_eq_false_2 by done.
  by apply elem_of_union_l, elem_of_singleton.
Qed.

Lemma deadline_fire_inv t d : deadline_inv d -> deadline_inv (deadline_fire t d).
Proof.
  intros Hinv. pose proof Hinv as [Hc Ht Ho Hca Hu Hcl]. unfold deadline_fire.
  destruct (d_pending d !! t) as [[once cancel]|] eqn:E; [|done]. unfold once_Do. simpl.
  case_bool_decide as Hin.
  - split; simpl; try done. intros t' o ch [_ E']%lookup_delete_Some. by apply Ht.
  - destruct (Ht t once cancel E Hin) as (-> & -> & Et). split; simpl; try done.
    + rewrite not_elem_of_union, not_elem_of_singleton. by intros [? _].
    + intros t' o ch [_ E']%lookup_delete_Some. rewrite not_elem_of_union, not_elem_of_singleton.
      intros [_ Hn]. by apply Ht.
    + intros o. rewrite elem_of_union, elem_of_singleton. intros [->|?%Hu]; done.
    + intros ch. rewrite elem_of_union, elem_of_singleton. intros [->|?%Hcl]; done.
Qed.

(** ** Executing runs *)

Inductive pcAct := ADo | AArrive (tr : traffic) | ARead | ATake | ATimeout | ASet (zero : bool) | AFire (t : timer).

(** The event of an action of the first reader or the actor, and its result. *)
Definition pc_act (c : core) (a : pcAct) (pc : packetConn) : option (pconn_event * packetConn) :=
  let with_readers inbox recv dl readers :=
    MkPacketConn inbox recv (pc_recvReady pc) (pc_recvq pc) dl (pc_closed pc) readers (pc_now pc) in
  match a with
  | ADo => match pconn_handle c false pc with Done pc' => Some (PcTau, pc') | _ => None end
  | AArrive tr =>
      Some (PcArrive tr, with_readers (pc_inbox pc ++ [PcTraffic tr]) (pc_recv pc) (pc_readDeadline pc) (pc_readers pc))
  | ARead =>
      Some (PcRead, with_readers (pc_inbox pc ++ [PcPop]) (pc_recv pc) (pc_readDeadline pc)
        (pc_readers pc ++ [getCancel (pc_readDeadline pc)]))
  | ATake =>
      match pc_readers pc, pc_recv pc with
      | _ :: readers, Some tr => Some (PcReturn (Ret tr), with_readers (pc_inbox pc) None (pc_readDeadline pc) readers)
      | _, _ => None
      end
  | ATimeout =>
      match pc_readers pc with
      | cancel :: readers =>
          if bool_decide (cancel ∈ d_closed (pc_readDeadline pc)) then
            Some (PcReturn (Fail ErrTimeout), with_readers (pc_inbox pc) (pc_recv pc) (pc_readDeadline pc) readers)
          else None
      | [] => None
      end
  | ASet zero =>
      Some (PcDeadline, with_readers (pc_inbox pc) (pc_recv pc) (deadline_set zero (pc_readDeadline pc)) (pc_readers pc))
  | AFire t =>
      Some (PcDeadline, with_readers (pc_inbox pc) (pc_recv pc) (deadline_fire t (pc_readDeadline pc)) (pc_readers pc))
  end.

Lemma pc_act_step c a pc ev pc' : pc_act c a pc = Some (ev, pc') -> pconn_step c pc ev pc'.
Proof.
  destruct a; simpl; try (intros [= <- <-]; constructor).
  - destruct (pconn_handle c false pc) as [pc1| |] eqn:E; [|done|done]. intros [= <- <-].
    by apply (step_handle c false).
  - destruct (pc_readers pc) as [|cancel readers] eqn:Er; [done|]. destruct (pc_recv pc) as [tr|] eqn:Et; [|done].
    intros [= <- <-]. replace readers with (rest_at (pc_readers pc) 0) by by rewrite Er.
    by apply (step_return_packet c pc tr 0 cancel); [rewrite Er|].
  - destruct (pc_readers pc) as [|cancel readers] eqn:Er; [done|]. case_bool_decide; [|done].
    intros [= <- <-]. replace readers with (rest_at (pc_readers pc) 0) by by rewrite Er.
    by apply (step_return_timeout c pc 0 cancel); [rewrite Er|].
Qed.

Fixpoint pc_acts (c : core) (acts : list pcAct) (pc : packetConn) : option (list pconn_event * packetConn) :=
  match acts with
  | [] => Some ([], pc)
  | a :: acts =>
      match pc_act c a pc with
      | None => None
      | Some (ev, pc1) =>
          match pc_acts c acts pc1 with None => None | Some (evs, pc2) => Some (ev :: evs, pc2) end
      end
  end.

Lemma pc_acts_run c acts : forall pc evs pc', pc_acts c acts pc = Some (evs, pc') -> pconn_run c pc evs pc'.
Proof.
  induction acts as [|a acts IH]; intros pc evs pc' E; simpl in E; [injection E as <- <-; constructor|].
  destruct (pc_act c a pc) as [[ev pc1]|] eqn:E1; [|done].
  destruct (pc_acts c acts pc1) as [[evs1 pc2]|] eqn:E2; [|done]. injection E as <- <-.
  econstructor; [by apply pc_act_step with a|by apply IH].
Qed.

Definition to_us (b : byte) : traffic :=
  MkTraffic [] [] (sample_key b) (selfKey (sample_core Byte.x05)) max_u64 [b].

(** ** Theorems *)

(** [WriteTo] answers every input: a closed connection, an address that is not a key and a
    payload above the MTU are rejected with their errors, in this order; any other payload is
    handed to the router in a packet from this node to the address, unchanged and with no path,
    whose frame is within the limit on message sizes. *)
Theorem write_to_spec c closed pool p addr :
  overhead <= peerMaxMessageSize (core_config c) < 2 ^ 63 -> Z.of_nat (length p) < 2 ^ 63 ->
  match WriteTo c closed pool p addr with
  | Ret (n, tr) =>
      closed = false /\ addr = Some (arr_list (tr_dest tr)) /\ n = Z.of_nat (length p) /\
      tr_source tr = selfKey c /\ tr_payload tr = p /\ tr_path tr = [] /\ tr_from tr = [] /\ traffic_ok tr /\
      n <= MTU c /\ size tr + 1 <= peerMaxMessageSize (core_config c)
  | Fail e =>
      (e = ErrClosed /\ closed = true) \/
      (e = ErrBadAddress /\ closed = false /\ forall dest, addr = Some dest -> length dest <> publicKeySize) \/
      (e = ErrOversizedMessage /\ closed = false /\ MTU c < Z.of_nat (length p))
  | Panic => False
  end.
Proof.
  intros Hc Hp. unfold WriteTo. destruct closed; [by left|].
  destruct addr as [dest|]; [|right; left; by split_and!].
  destruct (Nat.eqb_spec (length dest) publicKeySize) as [Hl|Hl]; cbn [negb];
    [|right; left; split_and!; [done|done|]; by intros ? [= <-]].
  rewrite u64_small by (unfold is_u64; lia). destruct (Z.ltb_spec (MTU c) (Z.of_nat (length p))) as [Hm|Hm].
  - right; right. by split_and!.
  - destruct (allocTraffic_empty pool) as (E1 & E2 & E3). cbv zeta. rewrite E1, E2, E3.
    cbn [mret outcome_ret tr_dest tr_source tr_payload tr_path tr_from app]. rewrite array_of_exact by done. rewrite MTU_eq in * by (unfold overhead in *; lia).
    set (tr := MkTraffic _ _ _ _ _ _).
    assert (traffic_ok tr) as Hok by (split_and!; [constructor..|done]).
    assert (size tr + 1 <= peerMaxMessageSize (core_config c)) as Hsize; [|by clearbody tr].
    change (traffic_size tr + 1 <= peerMaxMessageSize (core_config c)).
    rewrite traffic_size_eq by done. cbn [tr tr_path tr_from tr_payload]. rewrite wireSizePath_nil.
    unfold overhead in *. lia.
Qed.

(** The MTU ignores the paths a packet gets on its way: a payload of exactly the MTU is
    accepted, and with any path to follow, or any return path, it no longer fits a frame. *)
Theorem mtu_ignores_paths c pool p dest path from :
  overhead <= peerMaxMessageSize (core_config c) < 2 ^ 63 -> Z.of_nat (length p) = MTU c ->
  length dest = publicKeySize -> path <> [] \/ from <> [] ->
  exists tr, WriteTo c false pool p (Some dest) = Ret (MTU c, tr) /\
    peerMaxMessageSize (core_config c) <
      size (MkTraffic path from (tr_source tr) (tr_dest tr) (tr_watermark tr) (tr_payload tr)) + 1.
Proof.
  intros Hc Hp Hl Hpath. unfold WriteTo. rewrite Hl, Hp, Nat.eqb_refl. cbn [negb].
  assert (u64 (MTU c) = MTU c) as ->.
  { rewrite MTU_eq by (unfold overhead in *; lia). apply u64_small. unfold is_u64, overhead in *. lia. }
  rewrite (proj2 (Z.ltb_ge _ _)) by lia. eexists. split; [done|].
  change (peerMaxMessageSize (core_config c) <
    traffic_size (MkTraffic path from (selfKey c) (array_of publicKeySize dest) max_u64
      (tr_payload (allocTraffic pool) ++ p)) + 1).
  rewrite traffic_size_eq by done. cbn [tr_path tr_from tr_payload].
  destruct (allocTraffic_empty pool) as (_ & _ & ->). simpl app. rewrite Hp, MTU_eq by (unfold overhead in *; lia).
  pose proof (wireSizePath_length path). pose proof (wireSizePath_length from).
  destruct Hpath; [destruct path|destruct from]; try done; cbn [length] in *; unfold overhead; lia.
Qed.

(** With one [ReadFrom] at a time, and no read deadline, the actor of a [PacketConn] handles
    every message: it never panics and never blocks on the channel to the reader, in whatever
    order packets arrive, reads happen and the connection is closed; and a packet in that channel
    is addressed to this node. *)
Theorem one_reader_safe c now pc b :
  rtc (fun pc pc' => exists ev, disciplined pc ev /\ pconn_step c pc ev pc') (pconn_init now) pc ->
  disciplined pc PcTau -> pc_inbox pc <> [] ->
  (exists pc', pconn_handle c b pc = Done pc') /\ forall tr, pc_recv pc = Some tr -> tr_dest tr = selfKey c.
Proof.
  intros Hr Hd Hne. assert (pconn_inv c pc) as Hinv.
  { apply (rtc_ind_r (fun pc => pconn_inv c pc) (pconn_init now)) in Hr; [done| |].
    - split; simpl; try done; [lia|apply queue_ok_empty|]. intros i (d & s & Hd' & _).
      by apply not_elem_of_nil in Hd'.
    - intros pc1 pc2 _ (ev & Hev & Hs) Hi. by eapply pconn_step_inv. }
  split; [|apply (pv_recv _ _ Hinv)]. destruct (pconn_handle_inv c b pc Hinv Hd Hne) as (pc' & E & _).
  by exists pc'.
Qed.

(** Every read has returned before the next one starts. *)
Fixpoint sequential (reading : bool) (evs : list pconn_event) : bool :=
  match evs with
  | [] => true
  | PcRead :: evs => negb reading && sequential true evs
  | PcReturn _ :: evs => sequential false evs
  | _ :: evs => sequential reading evs
  end.

(** [doPop]'s "this should never happen" can happen: a reader that gives up at its deadline
    leaves its claim to a packet behind, so that a later read, one at a time, can find a packet in
    the channel and another in the queue, and the actor panics; and so can two concurrent reads
    without any deadline. *)
Theorem pop_can_panic :
  let c := sample_core Byte.x05 in
  (exists evs pc, pconn_run c (pconn_init 0) evs pc /\ sequential false evs = true /\
    pconn_handle c false pc = Panicked) /\
  (exists evs pc, pconn_run c (pconn_init 0) evs pc /\ PcDeadline ∉ evs /\
    pconn_handle c false pc = Panicked).
Proof.
  split.
  - destruct (pc_acts (sample_core Byte.x05) [ASet false; ARead; AFire 3; ATimeout; ADo;
      AArrive (to_us Byte.x01); ADo; AArrive (to_us Byte.x02); ADo; ASet true; ARead] (pconn_init 0))
      as [[evs pc]|] eqn:E; [|vm_compute in E; discriminate].
    exists evs, pc. split; [by eapply pc_acts_run|]. vm_compute in E. injection E as <- <-. split; reflexivity.
  - destruct (pc_acts (sample_core Byte.x05) [AArrive (to_us Byte.x01); ADo; AArrive (to_us Byte.x02); ADo;
      ARead; ARead; ADo] (pconn_init 0)) as [[evs pc]|] eqn:E; [|vm_compute in E; discriminate].
    exists evs, pc. split; [by eapply pc_acts_run|]. vm_compute in E. injection E as <- <-. split; [|reflexivity].
    repeat (apply not_elem_of_cons; split; [discriminate|]). apply not_elem_of_nil.
Qed.

(** Setting a read deadline starts afresh: the channel that later reads watch is open, no timer
    of an earlier deadline can close it, and the timer of the new deadline, if there is one, can;
    this is kept by any timers that fire. *)
Theorem deadline_starts_afresh zero d :
  deadline_inv d ->
  let d' := deadline_set zero d in
  deadline_inv d' /\ (forall t, deadline_inv (deadline_fire t d')) /\ getCancel d' ∉ d_closed d' /\
  (forall t, getCancel d' ∈ d_closed (deadline_fire t d') -> zero = false /\ d_timer d' = Some t) /\
  (zero = false -> exists t, d_timer d' = Some t /\ getCancel d' ∈ d_closed (deadline_fire t d')).
Proof.
  intros Hinv d'. destruct (deadline_set_spec zero d Hinv) as (Hinv' & Hopen & Hon & Hall).
  change (deadline_set zero d) with d' in Hinv', Hopen, Hon, Hall.
  split_and!; [done|intros t; by apply deadline_fire_inv|done| |].
  - intros t. unfold deadline_fire. destruct (d_pending d' !! t) as [[once cancel]|] eqn:E; [|done].
    unfold once_Do. simpl. case_bool_decide as Hin; [done|]. intros _. by apply (Hall t once cancel).
  - intros ->. destruct (deadline_set_timer d) as (t & Et & Ep). exists t. split; [done|].
    by apply deadline_fire_closes.
Qed.

(** [HandleConn] rejects a key of the wrong length and the node's own key without touching the
    registry; with any other key, and whatever the connection delivers, it registers one new
    connection under that key, passes the router that connection, valid messages and its end, and
    returns with the connection, and no other, taken out of the registry as others left it. *)
Theorem handle_conn_balanced `{Ed25519} `{MapOrder} c key conn prio now stream meanwhile ps :
  peers_ok ps -> 0 <= ps_order ps < max_u64 ->
  (length key <> publicKeySize \/ key = arr_list (selfKey c) ->
    HandleConn c false key conn prio now stream meanwhile ps = Some (CErr ErrBadKey, ps, [])) /\
  (length key = publicKeySize -> key <> arr_list (selfKey c) ->
   exists p ps1 err es mid, arr_list (p_key p) = key /\ ~ registered ps p /\ peers_ok ps1 /\
    (forall q, registered ps1 q <-> registered ps q \/ q = p) /\
    routed es = EvAddPeer p :: mid ++ [EvRemovePeer p] /\ Forall (received c p) mid /\
    (peers_ok (meanwhile ps1) -> registered (meanwhile ps1) p ->
      exists ps2, HandleConn c false key conn prio now stream meanwhile ps = Some (CRead err, ps2, es) /\
        peers_ok ps2 /\ forall q, registered ps2 q <-> registered (meanwhile ps1) q /\ q <> p)).
Proof.
  intros Hok Ho. split.
  - intros [Hl| ->]; unfold HandleConn.
    + by destruct (Nat.eqb_spec (length key) publicKeySize).
    + rewrite length_array. cbn [negb Nat.eqb]. cbv zeta. change publicKeySize with 32%nat.
      rewrite array_of_list. unfold equal. by rewrite bool_decide_eq_true_2.
  - intros Hl Hne. destruct (HandleConn_connected c (array_of publicKeySize key) key conn prio now stream
      meanwhile ps) as (p & ps1 & err & es & mid & Hk & Hrest); try done.
    { intros E. apply Hne. rewrite <- E. by rewrite array_of_exact. }
    exists p, ps1, err, es, mid. split; [|done]. rewrite Hk. by rewrite array_of_exact.
Qed.
