(* ===== verification/E2c.v ===== *)
(** * From Ed25519 keys to Curve25519 keys

    [ironwood/encrypted/internal/e2c/e2c.go]: the map of public keys to
    Montgomery coordinates, with [math/big]'s [ModInverse], and the scalar of a
    private key, whose hash is a parameter. *)

From S2P Require Import Prelude Crypto Binary.

(** ** math/big *)

(** [GCD(&x, nil, a, b)]: the gcd and the coefficient of [a], modulo [b];
    600 rounds are enough for numbers below [2^300]. *)
Fixpoint egcd (fuel : nat) (a b x x' : Z) : Z * Z :=
  match fuel with
  | O => (a, x)
  | S fuel' => if b =? 0 then (a, x) else egcd fuel' b (a mod b) x' (x - a / b * x')
  end.

(** [z.ModInverse(g, n)], [None] where [z] is left unchanged. *)
Definition ModInverse (g n : Z) : option Z :=
  let '(d, x) := egcd 600 (g mod n) n 1 0 in
  if d =? 1 then Some (x mod n) else None.

(** [x.Bytes()]: big endian without leading zeros. *)
Fixpoint int_Bytes (size : nat) (z : Z) : list byte :=
  match size with
  | O => []
  | S size' => if z <? 256 ^ Z.of_nat size' then int_Bytes size' z else be_bytes size z
  end.

(** ** e2c.go *)

Definition curve25519P : Z :=
  57896044618658097711785492504343953926634992332820282019728792003956564819949.

Class Sha512 := { sha512_Sum : list byte -> array 64 }.

(** [pk.Seed()] is the first half of a private key. *)
Definition Ed25519PrivateKeyToCurve25519 `{Sha512} (pk : privateKey) : list byte :=
  let out := arr_list (sha512_Sum (take 32 (arr_list pk))) in
  take 32 out.

Definition Ed25519PublicKeyToCurve25519 (pk : list byte) : list byte :=
  let bigEndianY := reverse (arr_list (array_of 32 pk)) in
  let bigEndianY := match bigEndianY with b :: bs => z2b (Z.land (b2z b) 127) :: bs | [] => [] end in
  let y := be_val bigEndianY in
  let denom := 1 - y in
  let denom := default denom (ModInverse denom curve25519P) in
  let u := ((y + 1) * denom) mod curve25519P in
  let uBytes := int_Bytes 32 u in
  reverse uBytes ++ replicate (32 - length uBytes) Byte.x00.

(** ** Lemmas *)

Lemma egcd_bezout n fuel : forall a b x x' g,
  (a mod n = (g * x) mod n) -> (b mod n = (g * x') mod n) ->
  let '(d, r) := egcd fuel a b x x' in d mod n = (g * r) mod n.
Proof.
  induction fuel as [|fuel IH]; intros a b x x' g Ha Hb; simpl; [done|].
  destruct (Z.eqb_spec b 0); [done|]. apply IH; [done|].
  rewrite (Z.mod_eq a b) by done. rewrite (Z.mul_comm b).
  rewrite Z.mul_sub_distr_l, Zminus_mod, (Zminus_mod (g * x)), Ha.
  f_equal. f_equal. rewrite Z.mul_assoc, (Z.mul_comm g), <- Z.mul_assoc.
  rewrite Zmult_mod, (Zmult_mod (a / b) (g * x')). by rewrite Hb.
Qed.

(** What [ModInverse] returns is an inverse. *)
Lemma ModInverse_spec g n x : 1 < n -> ModInverse g n = Some x -> 0 <= x < n /\ (g * x) mod n = 1.
Proof.
  intros Hn. unfold ModInverse. pose proof (egcd_bezout n 600 (g mod n) n 1 0 g) as Hb.
  destruct (egcd 600 (g mod n) n 1 0) as [d r]. destruct (Z.eqb_spec d 1); [|done].
  intros [= <-]. split; [apply Z.mod_pos_bound; lia|].
  rewrite Zmult_mod_idemp_r, <- Hb; subst; [by rewrite Z.mod_1_l| |].
  - rewrite Z.mod_mod by lia. by rewrite Z.mul_1_r.
  - by rewrite Z.mul_0_r, Z.mod_same, Z.mod_0_l by lia.
Qed.

Lemma length_int_Bytes size z : 0 <= z < 256 ^ Z.of_nat size -> (length (int_Bytes size z) <= size)%nat.
Proof.
  induction size as [|size IH]; intros Hz; cbn [int_Bytes]; [done|].
  destruct (Z.ltb_spec z (256 ^ Z.of_nat size)); [|by rewrite length_be_bytes].
  apply le_S, IH. lia.
Qed.

(** The index [len(uBytes)-i-1] never leaves the 32 bytes. *)
Lemma length_e2c pk : length (Ed25519PublicKeyToCurve25519 pk) = 32%nat.
Proof.
  unfold Ed25519PublicKeyToCurve25519. cbv zeta. set (u := _ mod curve25519P).
  assert (0 <= u < 256 ^ Z.of_nat 32) as Hu.
  { assert (0 <= u < curve25519P) as Hu by by apply Z.mod_pos_bound.
    assert (curve25519P < 256 ^ Z.of_nat 32) by reflexivity. lia. }
  pose proof (length_int_Bytes 32 u Hu). rewrite length_app, length_reverse, length_replicate. lia.
Qed.
