(* ===== verification/Box.v ===== *)
(** * The cryptography of sessions

    [ironwood/encrypted/crypto.go]: signatures with the node's Ed25519 key,
    boxes between Curve25519 keys, and nonces. NaCl's box and the random key
    pairs are parameters. *)

From S2P Require Import Prelude Crypto Wire Binary E2c.

Definition edPubSize : nat := 32.
Definition edPrivSize : nat := 64.
Definition edSigSize : nat := 64.
Definition boxPubSize : nat := 32.
Definition boxPrivSize : nat := 32.
Definition boxSharedSize : nat := 32.
Definition boxNonceSize : nat := 24.

Abbreviation edPub := (array 32).
Abbreviation edPriv := (array 64).
Abbreviation edSig := (array 64).
Abbreviation boxPub := (array 32).
Abbreviation boxPriv := (array 32).
Abbreviation boxShared := (array 32).
Abbreviation boxNonce := (array 24).

(** [golang.org/x/crypto/nacl/box]; [box_public] is the public half of a key
    pair [GenerateKey] returns. *)
Class NaclBox := {
  box_public : boxPriv -> boxPub;
  box_Precompute : boxPub -> boxPriv -> boxShared;
  box_Seal : list byte -> boxNonce -> boxShared -> list byte;
  box_Open : list byte -> boxNonce -> boxShared -> option (list byte)
}.

(** [box.Overhead] *)
Definition boxOverhead : nat := 16.

(** What the code relies on: sealing adds [Overhead] bytes, only what was sealed
    with the same nonce and shared key opens, and both ends compute the same
    shared key. *)
Class NaclBoxLaws `{NaclBox} : Prop := {
  box_seal_length m n k : length (box_Seal m n k) = (boxOverhead + length m)%nat;
  box_open_seal m n k : box_Open (box_Seal m n k) n k = Some m;
  box_open_sealed c n k m : box_Open c n k = Some m -> c = box_Seal m n k;
  box_precompute_comm a b : box_Precompute (box_public a) b = box_Precompute (box_public b) a
}.

Section crypto.
Context `{Ed25519} `{NaclBox} `{Sha512}.

(** ** util *)

(** [bytesPop]: what is copied into an array of [n] bytes, and the new offset. *)
Definition bytesPop (n : nat) (source : list byte) (offset : nat) : array n * nat :=
  (array_of n (take n (drop offset source)), (offset + n)%nat).

Definition bytesEqual (a b : list byte) : bool := bool_decide (a = b).

(** ** ed *)

Definition edSign (msg : list byte) (priv : edPriv) : edSig := array_of edSigSize (ed_sign priv msg).
Definition edCheck (msg : list byte) (sig : edSig) (pub : edPub) : bool := ed_verify pub msg sig.
Definition asKey (pub : edPub) : list byte := pub.
Definition edPub_toBox (pub : edPub) : boxPub :=
  array_of boxPubSize (Ed25519PublicKeyToCurve25519 (asKey pub)).
Definition edPriv_toBox (priv : edPriv) : boxPriv :=
  array_of boxPrivSize (Ed25519PrivateKeyToCurve25519 priv).
Definition edPriv_pub (priv : edPriv) : edPub := array_of edPubSize (ed_public priv).

(** ** box *)

Definition getShared (pub : boxPub) (priv : boxPriv) : boxShared := box_Precompute pub priv.

Definition nonceForUint64 (u64 : Z) : boxNonce := array_of boxNonceSize (replicate 16 Byte.x00 ++ be_bytes 8 u64).

Definition boxOpen (out boxed : list byte) (nonce : Z) (shared : boxShared) : option (list byte) :=
  let n := nonceForUint64 nonce in
  (fun opened => out ++ opened) <$> box_Open boxed n shared.

Definition boxSeal (out msg : list byte) (nonce : Z) (shared : boxShared) : list byte :=
  let n := nonceForUint64 nonce in
  out ++ box_Seal msg n shared.

(** ** Lemmas *)

Lemma nonceForUint64_inj a b : is_u64 a -> is_u64 b -> nonceForUint64 a = nonceForUint64 b -> a = b.
Proof.
  intros Ha Hb E. apply (f_equal (fun x : boxNonce => be_val (drop 16 (arr_list x)))) in E.
  unfold nonceForUint64 in E. rewrite !array_of_exact in E by by rewrite length_app, length_be_bytes.
  rewrite !(drop_app_length' (replicate 16 _)) in E by done. by rewrite !be_val_bytes_u64 in E.
Qed.

Lemma boxOpen_boxSeal `{!NaclBoxLaws} out msg nonce shared :
  boxOpen out (boxSeal [] msg nonce shared) nonce shared = Some (out ++ msg).
Proof. unfold boxOpen, boxSeal. simpl. by rewrite box_open_seal. Qed.

Lemma boxOpen_sealed `{!NaclBoxLaws} boxed nonce shared msg :
  boxOpen [] boxed nonce shared = Some msg -> boxed = boxSeal [] msg nonce shared.
Proof. unfold boxOpen. intros (m & E%box_open_sealed & ->)%fmap_Some. by rewrite E. Qed.

Lemma length_boxSeal `{!NaclBoxLaws} msg nonce shared :
  length (boxSeal [] msg nonce shared) = (boxOverhead + length msg)%nat.
Proof. apply box_seal_length. Qed.

Lemma edCheck_edSign `{!Ed25519Laws} msg sk : ed_valid sk -> edCheck msg (edSign msg sk) (edPriv_pub sk) = true.
Proof.
  intros Hsk. unfold edCheck, edSign, edPriv_pub. rewrite array_of_list.
  rewrite array_of_exact by apply ed_sign_length. by apply ed_verify_sign.
Qed.

Lemma bytesPop_at {n} (a : array n) source offset post : drop offset source = arr_list a ++ post ->
  bytesPop n source offset = (a, (offset + n)%nat) /\ drop (offset + n) source = post.
Proof.
  intros E. unfold bytesPop. rewrite <- drop_drop, E.
  rewrite take_app_length', drop_app_length' by by rewrite length_array. by rewrite array_of_list.
Qed.
End crypto.

(** The private key of a node and the two halves of its box key agree. *)
Class KeysAgree `{Ed25519} `{NaclBox} `{Sha512} : Prop := {
  toBox_agree sk : ed_valid sk -> edPub_toBox (edPriv_pub sk) = box_public (edPriv_toBox sk)
}.

(** ** A concrete scheme for the witnesses

    A private key is a seed and its public half is its first 32 bytes; the
    shared key of two box keys is their sum, and a seal is a tag of key and
    nonce. *)

Definition seed_ed25519 : Ed25519 := {|
  ed_valid := fun _ => True;
  ed_public := fun sk => array_of 32 (take 32 (arr_list sk));
  ed_sign := fun sk m => take 32 (arr_list sk) ++ replicate 32 Byte.x00;
  ed_verify := fun pk m sig => bool_decide (take 32 sig = arr_list pk)
|}.

Definition seed_sha512 : Sha512 := {| sha512_Sum := fun seed => array_of 64 seed |}.

Definition add_bytes (a b : list byte) : list byte := zip_with (fun x y => z2b (b2z x + b2z y)) a b.
Definition toy_tag (n : boxNonce) (k : boxShared) : list byte :=
  add_bytes (drop 8 (arr_list n)) (take 16 (arr_list k)).

Definition toy_box : NaclBox := {|
  box_public := edPub_toBox;
  box_Precompute := fun p q => array_of 32 (add_bytes (arr_list p) (arr_list (edPub_toBox q)));
  box_Seal := fun m n k => toy_tag n k ++ m;
  box_Open := fun c n k => if bool_decide (take 16 c = toy_tag n k) then Some (drop 16 c) else None
|}.

Lemma add_bytes_comm a : forall b, add_bytes a b = add_bytes b a.
Proof.
  unfold add_bytes. induction a as [|x a IH]; intros [|y b]; simpl; [done..|].
  by rewrite Z.add_comm, IH.
Qed.

Lemma length_toy_tag n k : length (toy_tag n k) = 16%nat.
Proof. unfold toy_tag, add_bytes. by rewrite length_zip_with, length_drop, length_take, !length_array. Qed.

Lemma toy_box_laws : @NaclBoxLaws toy_box.
Proof.
  split; simpl.
  - intros m n k. by rewrite length_app, length_toy_tag.
  - intros m n k. rewrite take_app_length', drop_app_length' by by rewrite length_toy_tag.
    by rewrite bool_decide_true.
  - intros c n k m. case_bool_decide as E; [|done]. intros [= <-]. by rewrite <- E, take_drop.
  - intros a b. by rewrite add_bytes_comm.
Qed.

Lemma seed_ed25519_laws : @Ed25519Laws seed_ed25519.
Proof.
  assert (forall sk : privateKey, length (take 32 sk) = 32%nat) as Hlen.
  { intros sk. rewrite length_take, length_array. done. }
  split; simpl; intros sk m.
  - rewrite length_app, Hlen. done.
  - intros _. apply bool_decide_eq_true. rewrite take_app_length' by (symmetry; apply Hlen).
    symmetry. apply resize_all_alt. by rewrite Hlen.
Qed.

Lemma seed_keys_agree : @KeysAgree seed_ed25519 toy_box seed_sha512.
Proof.
  split. intros sk _. assert (length (take 32 (arr_list sk)) = 32%nat) as Hl
    by by rewrite length_take, length_array.
  unfold edPriv_pub, edPriv_toBox, Ed25519PrivateKeyToCurve25519. simpl. do 2 f_equal.
  rewrite (resize_ge (take 32 (arr_list sk)) 64) by lia. rewrite take_app_length' by lia. apply resize_all_alt. by rewrite Hl.
Qed.

(** The key pairs of the witnesses. *)
Definition w_supply (k : nat) : boxPriv := array_of 32 (be_bytes 8 (Z.of_nat (S k)) ++ replicate 24 Byte.x00).

Lemma w_supply_inj i j : (i < 1000)%nat -> (j < 1000)%nat -> w_supply i = w_supply j -> i = j.
Proof.
  intros Hi Hj E. apply (f_equal (fun a : boxPriv => be_val (take 8 (arr_list a)))) in E. unfold w_supply in E.
  rewrite !array_of_exact in E by by rewrite length_app, length_be_bytes, length_replicate.
  rewrite !take_app_length' in E by by rewrite length_be_bytes.
  rewrite !be_val_bytes_u64 in E by (unfold is_u64; lia). lia.
Qed.
