(* ===== verification/SessionInit.v ===== *)
(** * Session handshake messages

    [ironwood/encrypted/session.go], types [sessionInit] and [sessionAck]: the
    keys a node announces to another, signed with its Ed25519 key and sealed to
    the receiver with a throwaway key. *)

From S2P Require Import Prelude Crypto Wire Binary E2c Box.

Definition sessionTypeDummy : byte := Byte.x00.
Definition sessionTypeInit : byte := Byte.x01.
Definition sessionTypeAck : byte := Byte.x02.
Definition sessionTypeTraffic : byte := Byte.x03.

(** Sizes in bytes. *)
Definition sessionTrafficOverheadMin : nat := 1 + 1 + 1 + 1 + boxOverhead + boxPubSize.
Definition sessionTrafficOverhead : nat := sessionTrafficOverheadMin + 9 + 9 + 9.
Definition sessionInitSize : nat := 1 + boxPubSize + boxOverhead + edSigSize + boxPubSize + boxPubSize + 8 + 8.
Definition sessionAckSize : nat := sessionInitSize.

Record sessionInit := MkInit {
  si_current : boxPub;
  si_next : boxPub;
  si_keySeq : Z;
  si_seq : Z
}.

#[global] Instance sessionInit_eq_dec : EqDecision sessionInit.
Proof. solve_decision. Defined.

(** [now] is [time.Now()] in nanoseconds. *)
Definition newSessionInit (now : Z) (current next : boxPub) (keySeq : Z) : sessionInit :=
  MkInit current next keySeq (u64 (now / 1000000000)).

Section init.
Context `{Ed25519} `{NaclBox} `{Sha512}.

(** The bytes that are signed; all but the first 32 are sent with the signature. *)
Definition sigBytes (fromPub : boxPub) (init : sessionInit) : list byte :=
  arr_list fromPub ++ arr_list (si_current init) ++ arr_list (si_next init)
    ++ be_bytes 8 (si_keySeq init) ++ be_bytes 8 (si_seq init).

(** [fromPriv] is the key pair the call generates. *)
Definition sessionInit_encrypt (fromPriv : boxPriv) (init : sessionInit) (from : edPriv) (to : edPub)
    : result (list byte) :=
  let fromPub := box_public fromPriv in
  let toBox := edPub_toBox to in
  let sigBytes := sigBytes fromPub init in
  let sig := edSign sigBytes from in
  let payload := arr_list sig ++ drop boxPubSize sigBytes in
  let shared := getShared toBox fromPriv in
  let bs := boxSeal [] payload 0 shared in
  let data := [sessionTypeInit] ++ arr_list fromPub ++ bs in
  if (length data =? sessionInitSize)%nat then mret data else Panic.

(** [None] where the code returns false. *)
Definition sessionInit_decrypt (priv : boxPriv) (from : edPub) (data : list byte) : option sessionInit :=
  if negb (length data =? sessionInitSize)%nat then None
  else
    let '(fromBox, offset) := bytesPop boxPubSize data 1 in
    let bs := drop offset data in
    let shared := getShared fromBox priv in
    match boxOpen [] bs 0 shared with
    | None => None
    | Some payload =>
        let '(sig, offset) := bytesPop edSigSize payload 0 in
        let tmp := drop offset payload in
        let '(current, offset) := bytesPop boxPubSize payload offset in
        let '(next, offset) := bytesPop boxPubSize payload offset in
        let keySeq := be_val (take 8 (drop offset payload)) in
        let seq := be_val (take 8 (drop (offset + 8) payload)) in
        if edCheck (arr_list fromBox ++ tmp) sig from then Some (MkInit current next keySeq seq) else None
    end.

Definition sessionAck_encrypt (fromPriv : boxPriv) (ack : sessionInit) (from : edPriv) (to : edPub)
    : result (list byte) :=
  data ← sessionInit_encrypt fromPriv ack from to;
  mret (<[0%nat := sessionTypeAck]> data).

Definition init_ok (init : sessionInit) : Prop := is_u64 (si_keySeq init) /\ is_u64 (si_seq init).

(** ** Lemmas *)

(** The message of one of the two types. *)
Definition init_data (ty : byte) (fromPriv : boxPriv) (init : sessionInit) (from : edPriv) (to : edPub)
    : list byte :=
  let sb := sigBytes (box_public fromPriv) init in
  ty :: arr_list (box_public fromPriv)
    ++ boxSeal [] (arr_list (edSign sb from) ++ drop boxPubSize sb) 0 (getShared (edPub_toBox to) fromPriv).

Lemma length_sigBytes fromPub init : length (sigBytes fromPub init) = 112%nat.
Proof. unfold sigBytes. by rewrite !length_app, !length_array, !length_be_bytes. Qed.

Lemma length_init_data `{!NaclBoxLaws} ty fromPriv init from to :
  length (init_data ty fromPriv init from to) = sessionInitSize.
Proof.
  unfold init_data. cbv zeta. cbn [length]. rewrite length_app, length_boxSeal, length_app, !length_array.
  by rewrite length_drop, length_sigBytes.
Qed.

Lemma encrypt_init `{!NaclBoxLaws} fromPriv init from to :
  sessionInit_encrypt fromPriv init from to = Ret (init_data sessionTypeInit fromPriv init from to) /\
  sessionAck_encrypt fromPriv init from to = Ret (init_data sessionTypeAck fromPriv init from to).
Proof.
  assert (sessionInit_encrypt fromPriv init from to = Ret (init_data sessionTypeInit fromPriv init from to)) as E.
  { unfold sessionInit_encrypt. cbv zeta. fold (init_data sessionTypeInit fromPriv init from to).
    pose proof (length_init_data sessionTypeInit fromPriv init from to) as Hl. unfold init_data in Hl.
    cbv zeta in Hl. cbn [app]. by rewrite Hl, Nat.eqb_refl. }
  split; [done|]. unfold sessionAck_encrypt. by rewrite E.
Qed.

(** What [decrypt] reads of a well-sealed message. *)
Lemma decrypt_data `{!NaclBoxLaws, !Ed25519Laws, !KeysAgree} ty fromPriv init from to_priv :
  ed_valid from -> ed_valid to_priv -> init_ok init ->
  sessionInit_decrypt (edPriv_toBox to_priv) (edPriv_pub from)
    (init_data ty fromPriv init from (edPriv_pub to_priv)) = Some init.
Proof.
  intros Hf Ht [Hk Hs]. unfold sessionInit_decrypt. rewrite length_init_data, Nat.eqb_refl. cbn [negb].
  unfold init_data. cbv zeta. set (fromPub := box_public fromPriv). set (sb := sigBytes fromPub init).
  assert (sb = arr_list fromPub ++ drop boxPubSize sb) as Esb.
  { unfold sb, sigBytes. by rewrite drop_app_length' by by rewrite length_array. }
  assert (drop boxPubSize sb = arr_list (si_current init) ++ arr_list (si_next init)
    ++ be_bytes 8 (si_keySeq init) ++ be_bytes 8 (si_seq init)) as Ed.
  { unfold sb, sigBytes. by rewrite drop_app_length' by by rewrite length_array. }
  set (sig := edSign sb from). set (sealed := boxSeal [] _ 0 _).
  destruct (bytesPop_at fromPub (ty :: arr_list fromPub ++ sealed) 1 sealed eq_refl) as [E1 D1].
  change (bytesPop boxPubSize) with (bytesPop 32). rewrite E1, D1.
  unfold sealed. rewrite toBox_agree by done. unfold getShared. unfold fromPub at 1.
  rewrite box_precompute_comm, boxOpen_boxSeal. cbn [app].
  set (payload := arr_list sig ++ drop boxPubSize sb).
  destruct (bytesPop_at sig payload 0 (drop boxPubSize sb) eq_refl) as [E2 D2].
  change (bytesPop edSigSize) with (bytesPop 64). rewrite E2, D2.
  destruct (bytesPop_at (si_current init) payload (0 + 64) _ (eq_trans D2 Ed)) as [E3 D3]. rewrite E3.
  destruct (bytesPop_at (si_next init) payload (0 + 64 + 32) _ D3) as [E4 D4]. rewrite E4.
  assert (drop (0 + 64 + 32 + 32 + 8) payload = drop 8 (drop (0 + 64 + 32 + 32) payload)) as ->
    by by rewrite drop_drop.
  rewrite D4. rewrite take_app_length', drop_app_length' by by rewrite length_be_bytes.
  rewrite take_ge by by rewrite length_be_bytes. rewrite !be_val_bytes_u64 by done.
  assert (edCheck (arr_list fromPub ++ drop boxPubSize sb) sig (edPriv_pub from) = true) as Ec.
  { rewrite <- Esb. by apply edCheck_edSign. }
  lazymatch goal with |- (if ?b then _ else _) = _ => assert (b = true) as -> by exact Ec end.
  by destruct init.
Qed.

(** What an accepted message proves: it is sealed, and signed by the sender. *)
Lemma decrypt_authentic `{!NaclBoxLaws} priv from data init : sessionInit_decrypt priv from data = Some init ->
  exists ty fromBox sig, data = ty :: arr_list fromBox ++
      boxSeal [] (arr_list sig ++ drop boxPubSize (sigBytes fromBox init)) 0 (getShared fromBox priv) /\
    edCheck (sigBytes fromBox init) sig from = true /\ init_ok init.
Proof.
  unfold sessionInit_decrypt. destruct (Nat.eqb_spec (length data) sessionInitSize) as [Hl|]; [|done].
  cbn [negb]. destruct data as [|ty data]; [done|].
  assert (length data = 192%nat) as Hl' by (injection Hl; done). clear Hl.
  set (fromBox := array_of 32 (take 32 data)).
  assert (data = arr_list fromBox ++ drop 32 data) as Ed.
  { unfold fromBox. rewrite array_of_exact, take_drop; [done|]. rewrite length_take. lia. }
  destruct (bytesPop_at fromBox (ty :: data) 1 (drop 32 data) Ed) as [E1 D1].
  change (bytesPop boxPubSize) with (bytesPop 32). rewrite E1, D1.
  destruct (boxOpen [] (drop 32 data) 0 (getShared fromBox priv)) as [payload|] eqn:Eo; [|done].
  apply boxOpen_sealed in Eo. assert (length payload = 144%nat) as Hp.
  { apply (f_equal length) in Eo. rewrite length_boxSeal, length_drop in Eo. unfold boxOverhead in Eo. lia. }
  assert (forall n off, (off + n <= 144)%nat -> drop off payload = arr_list (array_of n (take n (drop off payload)))
    ++ drop (off + n) payload) as Hcut.
  { intros n off Hn. rewrite array_of_exact, <- drop_drop, take_drop; [done|].
    rewrite length_take, length_drop. lia. }
  pose proof (Hcut 64%nat 0%nat ltac:(lia)) as C1. pose proof (Hcut 32%nat 64%nat ltac:(lia)) as C2.
  pose proof (Hcut 32%nat 96%nat ltac:(lia)) as C3. pose proof (Hcut 8%nat 128%nat ltac:(lia)) as C4.
  pose proof (Hcut 8%nat 136%nat ltac:(lia)) as C5. clear Hcut.
  cbn [Nat.add] in *. rewrite drop_0 in C1.
  set (sig := array_of 64 _) in C1. set (current := array_of 32 _) in C2. set (next := array_of 32 _) in C3.
  change (bytesPop edSigSize) with (bytesPop 64).
  destruct (bytesPop_at sig payload 0 _ C1) as [-> D2]. cbn [Nat.add].
  destruct (bytesPop_at current payload 64 _ C2) as [-> D3]. cbn [Nat.add].
  destruct (bytesPop_at next payload 96 _ C3) as [-> D4]. cbn [Nat.add].
  destruct (edCheck _ sig from) eqn:Ec; [|done]. intros [= <-].
  assert (forall n off, (off + n <= 144)%nat -> length (take n (drop off payload)) = n) as Hlen.
  { intros n off Hn. rewrite length_take, length_drop. lia. }
  assert (drop 64 payload = arr_list current ++ arr_list next ++ be_bytes 8 (be_val (take 8 (drop 128 payload)))
    ++ be_bytes 8 (be_val (take 8 (drop 136 payload)))) as Etmp.
  { rewrite C2, C3. do 2 f_equal. rewrite !be_bytes_val by (apply Hlen; lia).
    rewrite array_of_exact in C4 by (apply Hlen; lia).
    rewrite (take_ge (drop 136 payload)) by (rewrite length_drop; lia). exact C4. }
  set (init := MkInit current next _ _) in *.
  assert (sigBytes fromBox init = arr_list fromBox ++ drop 64 payload) as Es by by rewrite Etmp.
  exists ty, fromBox, sig. split_and!.
  - rewrite Es, drop_app_length' by by rewrite length_array. rewrite <- C1, <- Eo. by rewrite <- Ed.
  - rewrite Es. exact Ec.
  - split; apply be_val_u64, Hlen; lia.
Qed.

(** Handshake messages round trip and are authentic: what a node encrypts,
    as an init or as an ack, has the fixed size and decrypts at the receiver to
    the same keys and numbers; and whatever [decrypt] accepts as coming from a
    node is sealed for the receiver and carries a signature that verifies under
    that node's key over exactly the throwaway key, the keys and the numbers
    that it returns, but for the first byte, the type, which nothing protects. *)
Theorem init_round_trip `{!NaclBoxLaws, !Ed25519Laws, !KeysAgree} fromPriv init from to_priv :
  ed_valid from -> ed_valid to_priv -> init_ok init ->
  (exists data ack, sessionInit_encrypt fromPriv init from (edPriv_pub to_priv) = Ret data /\
    sessionAck_encrypt fromPriv init from (edPriv_pub to_priv) = Ret ack /\
    length data = sessionInitSize /\ length ack = sessionAckSize /\
    sessionInit_decrypt (edPriv_toBox to_priv) (edPriv_pub from) data = Some init /\
    sessionInit_decrypt (edPriv_toBox to_priv) (edPriv_pub from) ack = Some init) /\
  (forall priv pub data init', sessionInit_decrypt priv pub data = Some init' ->
    exists ty fromBox sig, data = ty :: arr_list fromBox ++
        boxSeal [] (arr_list sig ++ drop boxPubSize (sigBytes fromBox init')) 0 (getShared fromBox priv) /\
      edCheck (sigBytes fromBox init') sig pub = true /\ init_ok init').
Proof.
  intros Hf Ht Hi. split; [|intros; by apply decrypt_authentic].
  destruct (encrypt_init fromPriv init from (edPriv_pub to_priv)) as [E1 E2]. eexists _, _.
  split_and!; [exact E1|exact E2|apply length_init_data|apply length_init_data|by apply decrypt_data|by apply decrypt_data].
Qed.
End init.
