(* ===== verification/Session.v ===== *)
(** * Sessions

    [ironwood/encrypted/session.go]: the end-to-end encrypted sessions between
    nodes. A [sessionInfo] and the [sessionManager] are actors. A session's
    handler runs on its own fields; the manager keeps pointers to sessions, here
    numbers into a heap, because a session out of the manager's map can still
    have messages to handle. [newBoxKeys] takes the next of an endless supply of
    key pairs. *)

From S2P Require Import Prelude Crypto Wire Binary E2c Box SessionInit RouterState RouterCost.

Definition sessionTimeout : Z := Minute.

(** The fields of a session, but for the actor, the manager's pointer and [ack],
    which the code never uses; [rotated] is [None] for the zero time. *)
Record sessionInfo := MkSession {
  ss_seq : Z;
  ss_ed : edPub;
  ss_remoteKeySeq : Z;
  ss_current : boxPub;
  ss_next : boxPub;
  ss_localKeySeq : Z;
  ss_recvPriv : boxPriv;
  ss_recvPub : boxPub;
  ss_recvShared : boxShared;
  ss_recvNonce : Z;
  ss_sendPriv : boxPriv;
  ss_sendPub : boxPub;
  ss_sendShared : boxShared;
  ss_sendNonce : Z;
  ss_nextPriv : boxPriv;
  ss_nextPub : boxPub;
  ss_timer : option timer;
  ss_since : Z;
  ss_rotated : option Z;
  ss_rx : Z;
  ss_tx : Z;
  ss_nextSendShared : boxShared;
  ss_nextSendNonce : Z;
  ss_nextRecvShared : boxShared;
  ss_nextRecvNonce : Z
}.

Definition set_ss_update (current : boxPub) (next : boxPub) (seq : Z) (keySeq : Z) (i : sessionInfo) : sessionInfo :=
  MkSession seq (ss_ed i) keySeq current next (ss_localKeySeq i) (ss_recvPriv i) (ss_recvPub i)
    (ss_recvShared i) (ss_recvNonce i) (ss_sendPriv i) (ss_sendPub i) (ss_sendShared i)
    (ss_sendNonce i) (ss_nextPriv i) (ss_nextPub i) (ss_timer i) (ss_since i) (ss_rotated i)
    (ss_rx i) (ss_tx i) (ss_nextSendShared i) (ss_nextSendNonce i) (ss_nextRecvShared i)
    (ss_nextRecvNonce i).
Definition set_ss_remote (current : boxPub) (next : boxPub) (keySeq : Z) (i : sessionInfo) : sessionInfo :=
  MkSession (ss_seq i) (ss_ed i) keySeq current next (ss_localKeySeq i) (ss_recvPriv i) (ss_recvPub i)
    (ss_recvShared i) (ss_recvNonce i) (ss_sendPriv i) (ss_sendPub i) (ss_sendShared i)
    (ss_sendNonce i) (ss_nextPriv i) (ss_nextPub i) (ss_timer i) (ss_since i) (ss_rotated i)
    (ss_rx i) (ss_tx i) (ss_nextSendShared i) (ss_nextSendNonce i) (ss_nextRecvShared i)
    (ss_nextRecvNonce i).
Definition set_ss_recv (pub : boxPub) (priv : boxPriv) (i : sessionInfo) : sessionInfo :=
  MkSession (ss_seq i) (ss_ed i) (ss_remoteKeySeq i) (ss_current i) (ss_next i) (ss_localKeySeq i) priv
    pub (ss_recvShared i) (ss_recvNonce i) (ss_sendPriv i) (ss_sendPub i) (ss_sendShared i)
    (ss_sendNonce i) (ss_nextPriv i) (ss_nextPub i) (ss_timer i) (ss_since i) (ss_rotated i)
    (ss_rx i) (ss_tx i) (ss_nextSendShared i) (ss_nextSendNonce i) (ss_nextRecvShared i)
    (ss_nextRecvNonce i).
Definition set_ss_send (pub : boxPub) (priv : boxPriv) (i : sessionInfo) : sessionInfo :=
  MkSession (ss_seq i) (ss_ed i) (ss_remoteKeySeq i) (ss_current i) (ss_next i) (ss_localKeySeq i)
    (ss_recvPriv i) (ss_recvPub i) (ss_recvShared i) (ss_recvNonce i) priv pub (ss_sendShared i)
    (ss_sendNonce i) (ss_nextPriv i) (ss_nextPub i) (ss_timer i) (ss_since i) (ss_rotated i)
    (ss_rx i) (ss_tx i) (ss_nextSendShared i) (ss_nextSendNonce i) (ss_nextRecvShared i)
    (ss_nextRecvNonce i).
Definition set_ss_next (pub : boxPub) (priv : boxPriv) (i : sessionInfo) : sessionInfo :=
  MkSession (ss_seq i) (ss_ed i) (ss_remoteKeySeq i) (ss_current i) (ss_next i) (ss_localKeySeq i)
    (ss_recvPriv i) (ss_recvPub i) (ss_recvShared i) (ss_recvNonce i) (ss_sendPriv i)
    (ss_sendPub i) (ss_sendShared i) (ss_sendNonce i) priv pub (ss_timer i) (ss_since i)
    (ss_rotated i) (ss_rx i) (ss_tx i) (ss_nextSendShared i) (ss_nextSendNonce i)
    (ss_nextRecvShared i) (ss_nextRecvNonce i).
Definition set_ss_localKeySeq (keySeq : Z) (i : sessionInfo) : sessionInfo :=
  MkSession (ss_seq i) (ss_ed i) (ss_remoteKeySeq i) (ss_current i) (ss_next i) keySeq (ss_recvPriv i)
    (ss_recvPub i) (ss_recvShared i) (ss_recvNonce i) (ss_sendPriv i) (ss_sendPub i)
    (ss_sendShared i) (ss_sendNonce i) (ss_nextPriv i) (ss_nextPub i) (ss_timer i) (ss_since i)
    (ss_rotated i) (ss_rx i) (ss_tx i) (ss_nextSendShared i) (ss_nextSendNonce i)
    (ss_nextRecvShared i) (ss_nextRecvNonce i).
Definition set_ss_shared (recv : boxShared) (send : boxShared) (nextSend : boxShared) (nextRecv : boxShared) (i : sessionInfo) : sessionInfo :=
  MkSession (ss_seq i) (ss_ed i) (ss_remoteKeySeq i) (ss_current i) (ss_next i) (ss_localKeySeq i)
    (ss_recvPriv i) (ss_recvPub i) recv (ss_recvNonce i) (ss_sendPriv i) (ss_sendPub i) send
    (ss_sendNonce i) (ss_nextPriv i) (ss_nextPub i) (ss_timer i) (ss_since i) (ss_rotated i)
    (ss_rx i) (ss_tx i) nextSend (ss_nextSendNonce i) nextRecv (ss_nextRecvNonce i).
Definition set_ss_recvNonce (n : Z) (i : sessionInfo) : sessionInfo :=
  MkSession (ss_seq i) (ss_ed i) (ss_remoteKeySeq i) (ss_current i) (ss_next i) (ss_localKeySeq i)
    (ss_recvPriv i) (ss_recvPub i) (ss_recvShared i) n (ss_sendPriv i) (ss_sendPub i)
    (ss_sendShared i) (ss_sendNonce i) (ss_nextPriv i) (ss_nextPub i) (ss_timer i) (ss_since i)
    (ss_rotated i) (ss_rx i) (ss_tx i) (ss_nextSendShared i) (ss_nextSendNonce i)
    (ss_nextRecvShared i) (ss_nextRecvNonce i).
Definition set_ss_sendNonce (n : Z) (i : sessionInfo) : sessionInfo :=
  MkSession (ss_seq i) (ss_ed i) (ss_remoteKeySeq i) (ss_current i) (ss_next i) (ss_localKeySeq i)
    (ss_recvPriv i) (ss_recvPub i) (ss_recvShared i) (ss_recvNonce i) (ss_sendPriv i)
    (ss_sendPub i) (ss_sendShared i) n (ss_nextPriv i) (ss_nextPub i) (ss_timer i) (ss_since i)
    (ss_rotated i) (ss_rx i) (ss_tx i) (ss_nextSendShared i) (ss_nextSendNonce i)
    (ss_nextRecvShared i) (ss_nextRecvNonce i).
Definition set_ss_nextSendNonce (n : Z) (i : sessionInfo) : sessionInfo :=
  MkSession (ss_seq i) (ss_ed i) (ss_remoteKeySeq i) (ss_current i) (ss_next i) (ss_localKeySeq i)
    (ss_recvPriv i) (ss_recvPub i) (ss_recvShared i) (ss_recvNonce i) (ss_sendPriv i)
    (ss_sendPub i) (ss_sendShared i) (ss_sendNonce i) (ss_nextPriv i) (ss_nextPub i)
    (ss_timer i) (ss_since i) (ss_rotated i) (ss_rx i) (ss_tx i) (ss_nextSendShared i) n
    (ss_nextRecvShared i) (ss_nextRecvNonce i).
Definition set_ss_nextRecvNonce (n : Z) (i : sessionInfo) : sessionInfo :=
  MkSession (ss_seq i) (ss_ed i) (ss_remoteKeySeq i) (ss_current i) (ss_next i) (ss_localKeySeq i)
    (ss_recvPriv i) (ss_recvPub i) (ss_recvShared i) (ss_recvNonce i) (ss_sendPriv i)
    (ss_sendPub i) (ss_sendShared i) (ss_sendNonce i) (ss_nextPriv i) (ss_nextPub i)
    (ss_timer i) (ss_since i) (ss_rotated i) (ss_rx i) (ss_tx i) (ss_nextSendShared i)
    (ss_nextSendNonce i) (ss_nextRecvShared i) n.
Definition set_ss_timer (t : option timer) (i : sessionInfo) : sessionInfo :=
  MkSession (ss_seq i) (ss_ed i) (ss_remoteKeySeq i) (ss_current i) (ss_next i) (ss_localKeySeq i)
    (ss_recvPriv i) (ss_recvPub i) (ss_recvShared i) (ss_recvNonce i) (ss_sendPriv i)
    (ss_sendPub i) (ss_sendShared i) (ss_sendNonce i) (ss_nextPriv i) (ss_nextPub i) t
    (ss_since i) (ss_rotated i) (ss_rx i) (ss_tx i) (ss_nextSendShared i) (ss_nextSendNonce i)
    (ss_nextRecvShared i) (ss_nextRecvNonce i).
Definition set_ss_rotated (t : option Z) (i : sessionInfo) : sessionInfo :=
  MkSession (ss_seq i) (ss_ed i) (ss_remoteKeySeq i) (ss_current i) (ss_next i) (ss_localKeySeq i)
    (ss_recvPriv i) (ss_recvPub i) (ss_recvShared i) (ss_recvNonce i) (ss_sendPriv i)
    (ss_sendPub i) (ss_sendShared i) (ss_sendNonce i) (ss_nextPriv i) (ss_nextPub i)
    (ss_timer i) (ss_since i) t (ss_rx i) (ss_tx i) (ss_nextSendShared i) (ss_nextSendNonce i)
    (ss_nextRecvShared i) (ss_nextRecvNonce i).
Definition set_ss_rx (n : Z) (i : sessionInfo) : sessionInfo :=
  MkSession (ss_seq i) (ss_ed i) (ss_remoteKeySeq i) (ss_current i) (ss_next i) (ss_localKeySeq i)
    (ss_recvPriv i) (ss_recvPub i) (ss_recvShared i) (ss_recvNonce i) (ss_sendPriv i)
    (ss_sendPub i) (ss_sendShared i) (ss_sendNonce i) (ss_nextPriv i) (ss_nextPub i)
    (ss_timer i) (ss_since i) (ss_rotated i) n (ss_tx i) (ss_nextSendShared i)
    (ss_nextSendNonce i) (ss_nextRecvShared i) (ss_nextRecvNonce i).
Definition set_ss_tx (n : Z) (i : sessionInfo) : sessionInfo :=
  MkSession (ss_seq i) (ss_ed i) (ss_remoteKeySeq i) (ss_current i) (ss_next i) (ss_localKeySeq i)
    (ss_recvPriv i) (ss_recvPub i) (ss_recvShared i) (ss_recvNonce i) (ss_sendPriv i)
    (ss_sendPub i) (ss_sendShared i) (ss_sendNonce i) (ss_nextPriv i) (ss_nextPub i)
    (ss_timer i) (ss_since i) (ss_rotated i) (ss_rx i) n (ss_nextSendShared i)
    (ss_nextSendNonce i) (ss_nextRecvShared i) (ss_nextRecvNonce i).

(** The clock, the number of key pairs made, the next timer handle. *)
Record senv := MkSenv { se_now : Z; se_keys : nat; se_timer : timer }.

(** The messages of a session's actor. *)
Inductive sessionMsg :=
| MsgStart
| MsgInit (init : sessionInit)
| MsgAck (ack : sessionInit)
| MsgSend (msg : list byte)
| MsgRecv (msg : list byte).

(** The closures given to [time.AfterFunc]; buffers and sessions are pointers. *)
Inductive sessionTimer :=
| TimerNothing
| TimerSession (ed : edPub) (session : nat)
| TimerBuffer (toKey : edPub) (buffer : nat).

Inductive sessionEffect :=
| SWriteTo (dest : edPub) (bs : list byte)
| SNetworkRecv (from : edPub) (data : list byte)
| SPost (session : nat) (msg : sessionMsg)
| SAfterFunc (t : timer) (delay : Z) (what : sessionTimer)
| SStopTimer (t : timer).

(** ** Sessions *)

(** A session's actor: its fields and the environment. *)
Record sess := MkSess { s_info : sessionInfo; s_env : senv }.
Abbreviation S_ := (Act sess sessionEffect).
Abbreviation sret a := (mret (M := Act sess sessionEffect) a) (only parsing).
Abbreviation sgets f := (act_gets (S := sess) (E := sessionEffect) f).
Abbreviation smodify f := (act_modify (S := sess) (E := sessionEffect) (fun s => MkSess (f (s_info s)) (s_env s))).
Abbreviation semit e := (act_emit (S := sess) (E := sessionEffect) e).

Section session.
Context `{Ed25519} `{NaclBox} `{Sha512} (supply : nat -> boxPriv) (secretEd : edPriv).

(** A key pair of the supply. *)
Definition supply_pair (k : nat) : boxPub * boxPriv := (box_public (supply k), supply k).

Definition newBoxKeys : S_ (boxPub * boxPriv) :=
  k ← sgets (fun s => se_keys (s_env s));
  _ ← act_modify (fun s => let e := s_env s in MkSess (s_info s) (MkSenv (se_now e) (S k) (se_timer e)));
  sret (supply_pair k).

Definition sess_now : S_ Z := sgets (fun s => se_now (s_env s)).

Definition fixShared (recvNonce sendNonce : Z) (info : sessionInfo) : sessionInfo :=
  let info := set_ss_shared (getShared (ss_current info) (ss_recvPriv info))
                (getShared (ss_current info) (ss_sendPriv info))
                (getShared (ss_next info) (ss_sendPriv info))
                (getShared (ss_next info) (ss_recvPriv info)) info in
  let info := set_ss_nextRecvNonce 0 (set_ss_nextSendNonce 0 info) in
  set_ss_sendNonce sendNonce (set_ss_recvNonce recvNonce info).

(** [newSession] with the three key pairs it generates. *)
Definition newSession (now : Z) (k1 k2 k3 : boxPub * boxPriv) (ed : edPub) (current next : boxPub) (seq : Z)
    : sessionInfo :=
  let zero := zero_array 32 in
  fixShared 0 0
    (MkSession (u64 (seq - 1)) ed 0 current next 0 k1.2 k1.1 zero 0 k2.2 k2.1 zero 0 k3.2 k3.1
      None now None 0 0 zero 0 zero 0).

(** [id] is the session's pointer, which its timer's function holds. *)
Definition resetTimer (id : nat) : S_ unit :=
  info ← sgets s_info;
  _ ← match ss_timer info with Some t => semit (SStopTimer t) | None => sret tt end;
  t ← sgets (fun s => se_timer (s_env s));
  _ ← act_modify (fun s => let e := s_env s in MkSess (s_info s) (MkSenv (se_now e) (se_keys e) (S t)));
  _ ← semit (SAfterFunc t sessionTimeout (TimerSession (ss_ed info) id));
  smodify (set_ss_timer (Some t)).

(** The manager's [sendInit] and [sendAck]: an error is ignored. *)
Definition send_sealed (ack : bool) (dest : edPub) (init : sessionInit) : S_ unit :=
  '(_, fromPriv) ← newBoxKeys;
  match (if ack then sessionAck_encrypt fromPriv init secretEd dest
         else sessionInit_encrypt fromPriv init secretEd dest) with
  | Ret bs => semit (SWriteTo dest bs)
  | Fail _ => sret tt
  | Panic => act_panic
  end.

Definition session_sendInit : S_ unit :=
  info ← sgets s_info;
  now ← sess_now;
  send_sealed false (ss_ed info) (newSessionInit now (ss_sendPub info) (ss_nextPub info) (ss_localKeySeq info)).

Definition session_sendAck : S_ unit :=
  info ← sgets s_info;
  now ← sess_now;
  send_sealed true (ss_ed info) (newSessionInit now (ss_sendPub info) (ss_nextPub info) (ss_localKeySeq info)).

(** [recv] takes the keys of [send] and [send] those of [next]. *)
Definition shift_keys (info : sessionInfo) : sessionInfo :=
  let info := set_ss_recv (ss_sendPub info) (ss_sendPriv info) info in
  set_ss_send (ss_nextPub info) (ss_nextPriv info) info.

Definition handleUpdate (id : nat) (init : sessionInit) : S_ unit :=
  _ ← smodify (set_ss_update (si_current init) (si_next init) (si_seq init) (si_keySeq init));
  _ ← smodify shift_keys;
  '(nextPub, nextPriv) ← newBoxKeys;
  _ ← smodify (set_ss_next nextPub nextPriv);
  _ ← smodify (fun info => set_ss_localKeySeq (u64 (ss_localKeySeq info + 1)) info);
  _ ← smodify (fun info => fixShared 0 (ss_sendNonce info) info);
  resetTimer id.

Definition session_handleInit (id : nat) (init : sessionInit) : S_ unit :=
  seq ← sgets (fun s => ss_seq (s_info s));
  if si_seq init <=? seq then sret tt
  else
    _ ← handleUpdate id init;
    session_sendAck.

Definition session_handleAck (id : nat) (ack : sessionInit) : S_ unit :=
  seq ← sgets (fun s => ss_seq (s_info s));
  if si_seq ack <=? seq then sret tt
  else handleUpdate id ack.

(** The clear part of a traffic message. *)
Definition traffic_header (localKeySeq remoteKeySeq nonce : Z) : list byte :=
  [sessionTypeTraffic] ++ AppendUvarint [] localKeySeq ++ AppendUvarint [] remoteKeySeq ++ AppendUvarint [] nonce.

Definition doSend (id : nat) (msg : list byte) : S_ unit :=
  _ ← smodify (fun info => set_ss_sendNonce (u64 (ss_sendNonce info + 1)) info);
  info ← sgets s_info;
  _ ← (if ss_sendNonce info =? 0 then
         _ ← smodify shift_keys;
         '(nextPub, nextPriv) ← newBoxKeys;
         _ ← smodify (set_ss_next nextPub nextPriv);
         _ ← smodify (fun info => set_ss_localKeySeq (u64 (ss_localKeySeq info + 1)) info);
         smodify (fixShared 0 0)
       else sret tt);
  info ← sgets s_info;
  let bs := traffic_header (ss_localKeySeq info) (ss_remoteKeySeq info) (ss_sendNonce info) in
  let tmp := arr_list (ss_nextPub info) ++ msg in
  let bs := boxSeal bs tmp (ss_sendNonce info) (ss_sendShared info) in
  _ ← semit (SWriteTo (ss_ed info) bs);
  _ ← smodify (fun info => set_ss_tx (u64 (ss_tx info + Z.of_nat (length msg))) info);
  resetTimer id.

(** [onSuccess] of the two branches where the remote side has ratcheted forward. *)
Definition ratchet (nonce : Z) (innerKey : boxPub) : S_ unit :=
  info ← sgets s_info;
  now ← sess_now;
  if match ss_rotated info with None => true | Some t => Minute <? time_Sub now t end then
    _ ← smodify (fun info => set_ss_remote (ss_next info) innerKey (u64 (ss_remoteKeySeq info + 1)) info);
    _ ← smodify shift_keys;
    _ ← smodify (fun info => set_ss_localKeySeq (u64 (ss_localKeySeq info + 1)) info);
    '(nextPub, nextPriv) ← newBoxKeys;
    _ ← smodify (set_ss_next nextPub nextPriv);
    _ ← smodify (fixShared nonce 0);
    smodify (set_ss_rotated (Some now))
  else sret tt.

(** The end of [doRecv]; [unboxed[len(key):]] panics on a short payload. *)
Definition open_traffic (id : nat) (boxed : list byte) (nonce : Z) (shared : boxShared)
    (onSuccess : boxPub -> S_ unit) : S_ unit :=
  match boxOpen [] boxed nonce shared with
  | Some unboxed =>
      if (length unboxed <? boxPubSize)%nat then act_panic
      else
        let key := array_of boxPubSize unboxed in
        let msg := drop boxPubSize unboxed in
        ed ← sgets (fun s => ss_ed (s_info s));
        _ ← semit (SNetworkRecv ed msg);
        _ ← onSuccess key;
        _ ← smodify (fun info => set_ss_rx (u64 (ss_rx info + Z.of_nat (length msg))) info);
        resetTimer id
  | None => session_sendInit
  end.

(** The choice of key by the sequence numbers of a message. *)
Definition recv_traffic (id : nat) (remoteKeySeq localKeySeq nonce : Z) (msg : list byte) : S_ unit :=
  info ← sgets s_info;
  let fromCurrent := remoteKeySeq =? ss_remoteKeySeq info in
  let fromNext := remoteKeySeq =? u64 (ss_remoteKeySeq info + 1) in
  let toRecv := u64 (localKeySeq + 1) =? ss_localKeySeq info in
  let toSend := localKeySeq =? ss_localKeySeq info in
  if fromCurrent && toRecv then
    if negb (ss_recvNonce info <? nonce) then sret tt
    else open_traffic id msg nonce (ss_recvShared info) (fun _ => smodify (set_ss_recvNonce nonce))
  else if fromNext && toSend then
    if negb (ss_nextSendNonce info <? nonce) then sret tt
    else open_traffic id msg nonce (ss_nextSendShared info) (fun innerKey =>
           _ ← smodify (set_ss_nextSendNonce nonce); ratchet nonce innerKey)
  else if fromNext && toRecv then
    if negb (ss_nextRecvNonce info <? nonce) then sret tt
    else open_traffic id msg nonce (ss_nextRecvShared info) (fun innerKey =>
           _ ← smodify (set_ss_nextRecvNonce nonce); ratchet nonce innerKey)
  else session_sendInit.

(** The three varints of the header, and the rest. *)
Definition read_header (msg : list byte) : option (Z * Z * Z * list byte) :=
  let offset := 1%nat in
  let '(remoteKeySeq, rksLen) := Uvarint (drop offset msg) in
  if rksLen <=? 0 then None
  else
    let offset := (offset + Z.to_nat rksLen)%nat in
    let '(localKeySeq, lksLen) := Uvarint (drop offset msg) in
    if lksLen <=? 0 then None
    else
      let offset := (offset + Z.to_nat lksLen)%nat in
      let '(nonce, nonceLen) := Uvarint (drop offset msg) in
      if nonceLen <=? 0 then None
      else
        let offset := (offset + Z.to_nat nonceLen)%nat in
        Some (remoteKeySeq, localKeySeq, nonce, drop offset msg).

Definition doRecv (id : nat) (msg : list byte) : S_ unit :=
  if (length msg <? sessionTrafficOverheadMin)%nat || negb (bool_decide (head msg = Some sessionTypeTraffic))
  then sret tt
  else
    match read_header msg with
    | None => sret tt
    | Some (remoteKeySeq, localKeySeq, nonce, msg) => recv_traffic id remoteKeySeq localKeySeq nonce msg
    end.

(** A message of a session's actor. *)
Definition session_step (id : nat) (msg : sessionMsg) : S_ unit :=
  match msg with
  | MsgStart => resetTimer id
  | MsgInit init => session_handleInit id init
  | MsgAck ack => session_handleAck id ack
  | MsgSend msg => doSend id msg
  | MsgRecv msg => doRecv id msg
  end.
End session.
