(* ===== verification/SessionManager.v ===== *)
(** * The session manager

    [ironwood/encrypted/session.go], type [sessionManager]: which sessions and
    which buffers of unsent data exist, and what arriving and written messages
    do to them. A buffer's pointer is a number, for the comparison [b == buf]. *)

From S2P Require Import Prelude Crypto Wire Binary E2c Box SessionInit RouterState RouterCost Session.

(** [data] is [None] for a nil slice. *)
Record sessionBuffer := MkBuffer {
  sb_id : nat;
  sb_data : option (list byte);
  sb_init : sessionInit;
  sb_currentPriv : boxPriv;
  sb_nextPriv : boxPriv;
  sb_timer : timer
}.

(** [m_heap] holds every session made, [m_next] the next pointer. *)
Record sessionManager := MkManager {
  m_sessions : gmap edPub nat;
  m_buffers : gmap edPub sessionBuffer;
  m_heap : gmap nat sessionInfo;
  m_next : nat;
  m_env : senv
}.

(** [init]: no session and no buffer. *)
Definition manager_init (e : senv) : sessionManager := MkManager ∅ ∅ ∅ 0 e.

Abbreviation M_ := (Act sessionManager sessionEffect).
Abbreviation kret a := (mret (M := Act sessionManager sessionEffect) a) (only parsing).
Abbreviation kgets f := (act_gets (S := sessionManager) (E := sessionEffect) f).
Abbreviation kmodify f := (act_modify (S := sessionManager) (E := sessionEffect) f).
Abbreviation kemit e := (act_emit (S := sessionManager) (E := sessionEffect) e).

Definition set_m_sessions (f : gmap edPub nat -> gmap edPub nat) (m : sessionManager) : sessionManager :=
  MkManager (f (m_sessions m)) (m_buffers m) (m_heap m) (m_next m) (m_env m).
Definition set_m_buffers (f : gmap edPub sessionBuffer -> gmap edPub sessionBuffer) (m : sessionManager)
    : sessionManager :=
  MkManager (m_sessions m) (f (m_buffers m)) (m_heap m) (m_next m) (m_env m).
Definition set_m_heap (f : gmap nat sessionInfo -> gmap nat sessionInfo) (m : sessionManager) : sessionManager :=
  MkManager (m_sessions m) (m_buffers m) (f (m_heap m)) (m_next m) (m_env m).
Definition set_m_env (e : senv) (m : sessionManager) : sessionManager :=
  MkManager (m_sessions m) (m_buffers m) (m_heap m) (m_next m) e.

(** [new(T)]: a fresh pointer. *)
Definition new_pointer : M_ nat :=
  id ← kgets m_next;
  _ ← kmodify (fun m => MkManager (m_sessions m) (m_buffers m) (m_heap m) (S (m_next m)) (m_env m));
  kret id.

Section manager.
Context `{Ed25519} `{NaclBox} `{Sha512} (supply : nat -> boxPriv) (secretEd : edPriv) (secretBox : boxPriv).

Definition mgr_newBoxKeys : M_ (boxPub * boxPriv) :=
  e ← kgets m_env;
  _ ← kmodify (set_m_env (MkSenv (se_now e) (S (se_keys e)) (se_timer e)));
  kret (supply_pair supply (se_keys e)).

Definition mgr_AfterFunc (delay : Z) (what : sessionTimer) : M_ timer :=
  e ← kgets m_env;
  _ ← kmodify (set_m_env (MkSenv (se_now e) (se_keys e) (S (se_timer e))));
  _ ← kemit (SAfterFunc (se_timer e) delay what);
  kret (se_timer e).

Definition mgr_sendInit (dest : edPub) (init : sessionInit) : M_ unit :=
  '(_, fromPriv) ← mgr_newBoxKeys;
  match sessionInit_encrypt fromPriv init secretEd dest with
  | Ret bs => kemit (SWriteTo dest bs)
  | Fail _ => kret tt
  | Panic => act_panic
  end.

(** A session and its pointer; the session's actor is asked to start its timer. *)
Definition mgr_newSession (ed : edPub) (recv send : boxPub) (seq : Z) : M_ nat :=
  k1 ← mgr_newBoxKeys;
  k2 ← mgr_newBoxKeys;
  k3 ← mgr_newBoxKeys;
  now ← kgets (fun m => se_now (m_env m));
  id ← new_pointer;
  _ ← kmodify (set_m_heap (<[id := newSession now k1 k2 k3 ed recv send seq]>));
  _ ← kemit (SPost id MsgStart);
  _ ← kmodify (set_m_sessions (<[ed := id]>));
  kret id.

(** The buffered keys become the session's. *)
Definition adopt_buffer (buf : sessionBuffer) (info : sessionInfo) : sessionInfo :=
  let info := set_ss_send (si_current (sb_init buf)) (sb_currentPriv buf) info in
  let info := set_ss_next (si_next (sb_init buf)) (sb_nextPriv buf) info in
  fixShared 0 0 info.

Definition sessionForInit (pub : edPub) (init : sessionInit) : M_ (nat * option sessionBuffer) :=
  info ← kgets (fun m => m_sessions m !! pub);
  match info with
  | Some id => kret (id, None)
  | None =>
      id ← mgr_newSession pub (si_current init) (si_next init) (si_seq init);
      buf ← kgets (fun m => m_buffers m !! pub);
      _ ← match buf with
          | Some buf =>
              _ ← kemit (SStopTimer (sb_timer buf));
              _ ← kmodify (set_m_buffers (delete pub));
              kmodify (set_m_heap (alter (adopt_buffer buf) id))
          | None => kret tt
          end;
      kret (id, buf)
  end.

(** The data that waited for the session. *)
Definition send_buffered (id : nat) (buf : option sessionBuffer) : M_ unit :=
  match buf with
  | Some buf => match sb_data buf with Some data => kemit (SPost id (MsgSend data)) | None => kret tt end
  | None => kret tt
  end.

Definition mgr_handleInit (pub : edPub) (init : sessionInit) : M_ unit :=
  '(id, buf) ← sessionForInit pub init;
  _ ← kemit (SPost id (MsgInit init));
  send_buffered id buf.

Definition mgr_handleAck (pub : edPub) (ack : sessionInit) : M_ unit :=
  isOld ← kgets (fun m => bool_decide (is_Some (m_sessions m !! pub)));
  '(id, buf) ← sessionForInit pub ack;
  _ ← kemit (SPost id (if isOld : bool then MsgAck ack else MsgInit ack));
  send_buffered id buf.

Definition mgr_handleTraffic (pub : edPub) (msg : list byte) : M_ unit :=
  info ← kgets (fun m => m_sessions m !! pub);
  match info with
  | Some id => kemit (SPost id (MsgRecv msg))
  | None =>
      '(currentPub, _) ← mgr_newBoxKeys;
      '(nextPub, _) ← mgr_newBoxKeys;
      now ← kgets (fun m => se_now (m_env m));
      mgr_sendInit pub (newSessionInit now currentPub nextPub 0)
  end.

Definition handleData (pub : edPub) (data : list byte) : M_ unit :=
  match data with
  | [] => kret tt
  | ty :: _ =>
      if bool_decide (ty = sessionTypeInit) then
        match sessionInit_decrypt secretBox pub data with
        | Some init => mgr_handleInit pub init
        | None => kret tt
        end
      else if bool_decide (ty = sessionTypeAck) then
        match sessionInit_decrypt secretBox pub data with
        | Some ack => mgr_handleAck pub ack
        | None => kret tt
        end
      else if bool_decide (ty = sessionTypeTraffic) then mgr_handleTraffic pub data
      else kret tt
  end.

Definition bufferAndInit (toKey : edPub) (msg : option (list byte)) : M_ unit :=
  old ← kgets (fun m => m_buffers m !! toKey);
  buf ← match old with
        | Some buf => kret buf
        | None =>
            id ← new_pointer;
            '(currentPub, currentPriv) ← mgr_newBoxKeys;
            '(nextPub, nextPriv) ← mgr_newBoxKeys;
            now ← kgets (fun m => se_now (m_env m));
            t ← mgr_AfterFunc 0 TimerNothing;
            kret (MkBuffer id None (newSessionInit now currentPub nextPub 0) currentPriv nextPriv t)
        end;
  let buf := MkBuffer (sb_id buf) msg (sb_init buf) (sb_currentPriv buf) (sb_nextPriv buf) (sb_timer buf) in
  _ ← kmodify (set_m_buffers (<[toKey := buf]>));
  _ ← kemit (SStopTimer (sb_timer buf));
  _ ← mgr_sendInit toKey (sb_init buf);
  t ← mgr_AfterFunc sessionTimeout (TimerBuffer toKey (sb_id buf));
  kmodify (set_m_buffers (<[toKey := MkBuffer (sb_id buf) msg (sb_init buf) (sb_currentPriv buf) (sb_nextPriv buf) t]>)).

(** [msg] is [None] for a nil slice. *)
Definition mgr_writeTo (toKey : edPub) (msg : option (list byte)) : M_ unit :=
  info ← kgets (fun m => m_sessions m !! toKey);
  match info with
  | Some id => kemit (SPost id (MsgSend (default [] msg)))
  | None => bufferAndInit toKey msg
  end.

(** The functions of expired timers. *)
Definition mgr_timer (what : sessionTimer) : M_ unit :=
  match what with
  | TimerNothing => kret tt
  | TimerSession ed id =>
      oldInfo ← kgets (fun m => m_sessions m !! ed);
      if bool_decide (oldInfo = Some id) then kmodify (set_m_sessions (delete ed)) else kret tt
  | TimerBuffer toKey id =>
      b ← kgets (fun m => m_buffers m !! toKey);
      match b with
      | Some b =>
          if bool_decide (sb_id b = id) then
            _ ← kemit (SStopTimer (sb_timer b));
            kmodify (set_m_buffers (delete toKey))
          else kret tt
      | None => kret tt
      end
  end.

(** A session's actor handles a message. *)
Definition on_session (id : nat) (msg : sessionMsg) : M_ unit := fun m =>
  match m_heap m !! id with
  | None => None
  | Some info =>
      match session_step supply secretEd id msg (MkSess info (m_env m)) with
      | None => None
      | Some (_, s, es) => Some (tt, set_m_env (s_env s) (set_m_heap (<[id := s_info s]>) m), es)
      end
  end.

(** The steps of the two kinds of actors. *)
Inductive mgrEvent :=
| MgrData (pub : edPub) (data : list byte)
| MgrWrite (toKey : edPub) (msg : option (list byte))
| MgrTimer (what : sessionTimer)
| MgrSession (id : nat) (msg : sessionMsg)
| MgrTime (now : Z).

Definition mgr_step (ev : mgrEvent) : M_ unit :=
  match ev with
  | MgrData pub data => handleData pub data
  | MgrWrite toKey msg => mgr_writeTo toKey msg
  | MgrTimer what => mgr_timer what
  | MgrSession id msg => on_session id msg
  | MgrTime now => kmodify (fun m => set_m_env (MkSenv now (se_keys (m_env m)) (se_timer (m_env m))) m)
  end.
End manager.
