(* ===== verification/SessionSteps.v ===== *)
(** * What a session's messages do

    The handlers of [ironwood/encrypted/session.go] as pure functions on the
    fields that matter: keys, sequence numbers and nonces. The timer and the
    byte counters of a session are left out by [core_of]. *)

From S2P Require Import Prelude Crypto Wire Binary E2c Box SessionInit RouterState RouterCost Session.

Definition core_of (info : sessionInfo) : sessionInfo :=
  set_ss_timer None (set_ss_rx 0 (set_ss_tx 0 info)).

(** What the effects of a step give to the network and to the application. *)
Definition wrote (es : list sessionEffect) : list (edPub * list byte) :=
  omap (fun e => match e with SWriteTo dest bs => Some (dest, bs) | _ => None end) es.
Definition delivered (es : list sessionEffect) : list (edPub * list byte) :=
  omap (fun e => match e with SNetworkRecv from data => Some (from, data) | _ => None end) es.

Lemma wrote_app es es' : wrote (es ++ es') = wrote es ++ wrote es'.
Proof. apply omap_app. Qed.
Lemma delivered_app es es' : delivered (es ++ es') = delivered es ++ delivered es'.
Proof. apply omap_app. Qed.

Section steps.
Context `{Ed25519} `{NaclBox} `{Sha512} (supply : nat -> boxPriv) (secretEd : edPriv).

(** ** Pure forms *)

(** Rotating our own keys; [k] is the new [next] key. *)
Definition rotate (k : nat) (info : sessionInfo) : sessionInfo :=
  set_ss_localKeySeq (u64 (ss_localKeySeq info + 1))
    (set_ss_next (box_public (supply k)) (supply k) (shift_keys info)).

Definition after_update (k : nat) (init : sessionInit) (info : sessionInfo) : sessionInfo :=
  fixShared 0 (ss_sendNonce info)
    (rotate k (set_ss_update (si_current init) (si_next init) (si_seq init) (si_keySeq init) info)).

Definition after_send (k : nat) (info : sessionInfo) : sessionInfo :=
  let info := set_ss_sendNonce (u64 (ss_sendNonce info + 1)) info in
  if ss_sendNonce info =? 0 then fixShared 0 0 (rotate k info) else info.

(** The keys taken by a send. *)
Definition send_keys (info : sessionInfo) : nat :=
  if u64 (ss_sendNonce info + 1) =? 0 then 1 else 0.

Definition may_rotate (now : Z) (info : sessionInfo) : bool :=
  match ss_rotated info with None => true | Some t => Minute <? time_Sub now t end.

Definition after_ratchet (k : nat) (now nonce : Z) (innerKey : boxPub) (info : sessionInfo) : sessionInfo :=
  if may_rotate now info then
    set_ss_rotated (Some now) (fixShared nonce 0
      (rotate k (set_ss_remote (ss_next info) innerKey (u64 (ss_remoteKeySeq info + 1)) info)))
  else info.
Definition ratchet_keys (now : Z) (info : sessionInfo) : nat := if may_rotate now info then 1 else 0.

(** ** The monadic code *)

Lemma resetTimer_eq id s : exists s' es, resetTimer id s = Some (tt, s', es) /\
  core_of (s_info s') = core_of (s_info s) /\ se_keys (s_env s') = se_keys (s_env s) /\
  se_now (s_env s') = se_now (s_env s) /\ wrote es = [] /\ delivered es = [].
Proof.
  unfold resetTimer, mbind, act_bind, act_gets. destruct (ss_timer (s_info s)); simpl; by eexists _, _.
Qed.

Lemma send_sealed_eq `{!NaclBoxLaws} ack dest init s :
  exists es, send_sealed supply secretEd ack dest init s =
      Some (tt, MkSess (s_info s) (MkSenv (se_now (s_env s)) (S (se_keys (s_env s))) (se_timer (s_env s))), es) /\
    wrote es = [(dest, init_data (if ack then sessionTypeAck else sessionTypeInit)
      (supply (se_keys (s_env s))) init secretEd dest)] /\ delivered es = [].
Proof.
  unfold send_sealed, newBoxKeys, mbind, act_bind, act_gets, act_modify. cbn.
  destruct (encrypt_init (supply (se_keys (s_env s))) init secretEd dest) as [E1 E2].
  destruct ack; rewrite ?E1, ?E2; by eexists.
Qed.

(** A step that ends with the timer. *)
Lemma then_timer id (m : S_ unit) s s1 es1 : m s = Some (tt, s1, es1) ->
  exists s' es, (_ ← m; resetTimer id) s = Some (tt, s', es) /\ core_of (s_info s') = core_of (s_info s1) /\
    se_keys (s_env s') = se_keys (s_env s1) /\ se_now (s_env s') = se_now (s_env s1) /\
    wrote es = wrote es1 /\ delivered es = delivered es1.
Proof.
  intros E. destruct (resetTimer_eq id s1) as (s' & es & E' & Hc & Hk & Hn & Hw & Hd).
  exists s', (es1 ++ es). unfold mbind, act_bind. rewrite E, E'.
  rewrite wrote_app, delivered_app, Hw, Hd, !app_nil_r. done.
Qed.

Lemma handleUpdate_eq id init s : exists s' es, handleUpdate supply id init s = Some (tt, s', es) /\
  core_of (s_info s') = core_of (after_update (se_keys (s_env s)) init (s_info s)) /\
  se_keys (s_env s') = S (se_keys (s_env s)) /\ se_now (s_env s') = se_now (s_env s) /\
  wrote es = [] /\ delivered es = [].
Proof.
  set (s1 := MkSess (after_update (se_keys (s_env s)) init (s_info s))
    (MkSenv (se_now (s_env s)) (S (se_keys (s_env s))) (se_timer (s_env s)))).
  destruct (resetTimer_eq id s1) as (s' & es & E & Hc & Hk & Hn & Hw & Hd).
  exists s', es. split_and!; try done. unfold handleUpdate, newBoxKeys, mbind, act_bind, act_modify, act_gets.
  cbn. change (resetTimer id _) with (resetTimer id s1). by rewrite E.
Qed.

Lemma ratchet_eq nonce innerKey s :
  ratchet supply nonce innerKey s =
    Some (tt, MkSess (after_ratchet (se_keys (s_env s)) (se_now (s_env s)) nonce innerKey (s_info s))
      (MkSenv (se_now (s_env s)) (se_keys (s_env s) + ratchet_keys (se_now (s_env s)) (s_info s))%nat
        (se_timer (s_env s))), []).
Proof.
  unfold ratchet, after_ratchet, ratchet_keys, may_rotate, sess_now, mbind, act_bind, act_gets, act_modify.
  cbn. destruct s as [info [now keys timer]]. cbn. destruct (ss_rotated info) as [t|]; cbn.
  - destruct (Minute <? time_Sub now t); cbn; rewrite ?Nat.add_1_r, ?Nat.add_0_r; done.
  - by rewrite Nat.add_1_r.
Qed.

(** The sealed message of a send. *)
Definition sealed_traffic (info : sessionInfo) (msg : list byte) : list byte :=
  boxSeal (traffic_header (ss_localKeySeq info) (ss_remoteKeySeq info) (ss_sendNonce info))
    (arr_list (ss_nextPub info) ++ msg) (ss_sendNonce info) (ss_sendShared info).

Lemma doSend_eq id msg s : let info := after_send (se_keys (s_env s)) (s_info s) in
  exists s' es, doSend supply id msg s = Some (tt, s', es) /\
    core_of (s_info s') = core_of info /\
    se_keys (s_env s') = (se_keys (s_env s) + send_keys (s_info s))%nat /\ se_now (s_env s') = se_now (s_env s) /\
    wrote es = [(ss_ed (s_info s), sealed_traffic info msg)] /\ delivered es = [].
Proof.
  intros info. set (env := MkSenv (se_now (s_env s)) (se_keys (s_env s) + send_keys (s_info s))%nat (se_timer (s_env s))).
  set (s1 := MkSess (set_ss_tx (u64 (ss_tx info + Z.of_nat (length msg))) info) env).
  destruct (resetTimer_eq id s1) as (s' & es & E & Hc & Hk & Hn & Hw & Hd).
  exists s', (SWriteTo (ss_ed info) (sealed_traffic info msg) :: es). split.
  - unfold doSend, newBoxKeys, mbind, act_bind, act_modify, act_gets. cbn.
    destruct s as [i [now keys timer]]. subst info s1 env. cbn in *.
    revert E. unfold after_send, send_keys. cbn.
    destruct (u64 (ss_sendNonce i + 1) =? 0); cbn; rewrite ?Nat.add_1_r, ?Nat.add_0_r; intros E.
    all: match type of E with resetTimer _ ?a = _ => match goal with |- context [resetTimer _ ?b] => change b with a end end.
    all: by rewrite E.
  - split_and!; try done. simpl. rewrite Hw. do 2 f_equal. unfold info, after_send. by case_match.
Qed.

(** A handshake message about the session's own keys, with a throwaway key. *)
Definition announce (ty : byte) (k : nat) (now : Z) (info : sessionInfo) : list byte :=
  init_data ty (supply k) (newSessionInit now (ss_sendPub info) (ss_nextPub info) (ss_localKeySeq info))
    secretEd (ss_ed info).

Lemma session_sendInit_eq `{!NaclBoxLaws} s : exists es,
  session_sendInit supply secretEd s =
    Some (tt, MkSess (s_info s) (MkSenv (se_now (s_env s)) (S (se_keys (s_env s))) (se_timer (s_env s))), es) /\
  wrote es = [(ss_ed (s_info s), announce sessionTypeInit (se_keys (s_env s)) (se_now (s_env s)) (s_info s))] /\
  delivered es = [].
Proof.
  destruct (send_sealed_eq false (ss_ed (s_info s)) (newSessionInit (se_now (s_env s)) (ss_sendPub (s_info s))
    (ss_nextPub (s_info s)) (ss_localKeySeq (s_info s))) s) as (es & E & Hw & Hd).
  exists es. split; [|done]. unfold session_sendInit, sess_now, mbind, act_bind, act_gets. cbn. by rewrite E.
Qed.

(** What a new init, answered or not, does. *)
Lemma handleInit_eq `{!NaclBoxLaws} id init s : ss_seq (s_info s) < si_seq init ->
  let info := after_update (se_keys (s_env s)) init (s_info s) in
  exists s' es, session_handleInit supply secretEd id init s = Some (tt, s', es) /\
    core_of (s_info s') = core_of info /\
    se_keys (s_env s') = S (S (se_keys (s_env s))) /\ se_now (s_env s') = se_now (s_env s) /\
    wrote es = [(ss_ed info, announce sessionTypeAck (S (se_keys (s_env s))) (se_now (s_env s)) info)] /\
    delivered es = [].
Proof.
  intros Hs info. destruct (handleUpdate_eq id init s) as (s1 & es1 & E1 & Hc & Hk & Hn & Hw & Hd).
  destruct (send_sealed_eq true (ss_ed (s_info s1)) (newSessionInit (se_now (s_env s1)) (ss_sendPub (s_info s1))
    (ss_nextPub (s_info s1)) (ss_localKeySeq (s_info s1))) s1) as (es2 & E2 & Hw2 & Hd2).
  eexists _, (es1 ++ es2). split_and!.
  - unfold session_handleInit, mbind, act_bind, act_gets. cbn. destruct (Z.leb_spec (si_seq init) (ss_seq (s_info s))); [lia|].
    rewrite E1. unfold session_sendAck, sess_now, mbind, act_bind, act_gets. cbn. rewrite E2. done.
  - exact Hc.
  - cbn. by rewrite Hk.
  - done.
  - rewrite wrote_app, Hw, Hw2, Hk, Hn. pose proof (f_equal ss_ed Hc) as He. pose proof (f_equal ss_sendPub Hc) as Hs1.
    pose proof (f_equal ss_nextPub Hc) as Hs2. pose proof (f_equal ss_localKeySeq Hc) as Hs3.
    cbn in He, Hs1, Hs2, Hs3. unfold announce. by rewrite He, Hs1, Hs2, Hs3.
  - by rewrite delivered_app, Hd, Hd2.
Qed.

(** ** Receiving *)

(** The shared key and the nonce a message is tried with. *)
Inductive recvKey := RecvCurrent | RecvNextSend | RecvNextRecv.

Definition key_for (info : sessionInfo) (rks lks : Z) : option recvKey :=
  let fromNext := rks =? u64 (ss_remoteKeySeq info + 1) in
  let toRecv := u64 (lks + 1) =? ss_localKeySeq info in
  if (rks =? ss_remoteKeySeq info) && toRecv then Some RecvCurrent
  else if fromNext && (lks =? ss_localKeySeq info) then Some RecvNextSend
  else if fromNext && toRecv then Some RecvNextRecv
  else None.

Definition key_nonce (b : recvKey) (info : sessionInfo) : Z :=
  match b with
  | RecvCurrent => ss_recvNonce info
  | RecvNextSend => ss_nextSendNonce info
  | RecvNextRecv => ss_nextRecvNonce info
  end.
Definition key_shared (b : recvKey) (info : sessionInfo) : boxShared :=
  match b with
  | RecvCurrent => ss_recvShared info
  | RecvNextSend => ss_nextSendShared info
  | RecvNextRecv => ss_nextRecvShared info
  end.

(** [onSuccess] *)
Definition after_recv (b : recvKey) (k : nat) (now nonce : Z) (innerKey : boxPub) (info : sessionInfo)
    : sessionInfo :=
  match b with
  | RecvCurrent => set_ss_recvNonce nonce info
  | RecvNextSend => after_ratchet k now nonce innerKey (set_ss_nextSendNonce nonce info)
  | RecvNextRecv => after_ratchet k now nonce innerKey (set_ss_nextRecvNonce nonce info)
  end.
Definition recv_keys (b : recvKey) (now : Z) (info : sessionInfo) : nat :=
  match b with RecvCurrent => 0 | _ => ratchet_keys now info end.

Inductive recvOutcome :=
| RecvIgnored
| RecvConfused
| RecvPanics
| RecvOpened (b : recvKey) (rks lks nonce : Z) (innerKey : boxPub) (data : list byte).

(** A message is opened with a key if its nonce is new. *)
Definition open_outcome (info : sessionInfo) (b : recvKey) (rks lks nonce : Z) (boxed : list byte) : recvOutcome :=
  if negb (key_nonce b info <? nonce) then RecvIgnored
  else
    match boxOpen [] boxed nonce (key_shared b info) with
    | None => RecvConfused
    | Some unboxed =>
        if (length unboxed <? boxPubSize)%nat then RecvPanics
        else RecvOpened b rks lks nonce (array_of boxPubSize unboxed) (drop boxPubSize unboxed)
    end.

Definition recv_outcome (info : sessionInfo) (msg : list byte) : recvOutcome :=
  if (length msg <? sessionTrafficOverheadMin)%nat || negb (bool_decide (head msg = Some sessionTypeTraffic))
  then RecvIgnored
  else
    match read_header msg with
    | None => RecvIgnored
    | Some (rks, lks, nonce, boxed) =>
        match key_for info rks lks with
        | None => RecvConfused
        | Some b => open_outcome info b rks lks nonce boxed
        end
    end.

(** The effects of an outcome. *)
Definition outcome_effects (s : sess) (o : recvOutcome) (r : option (unit * sess * list sessionEffect)) : Prop :=
  let info := s_info s in let k := se_keys (s_env s) in let now := se_now (s_env s) in
  match o with
  | RecvIgnored => r = Some (tt, s, [])
  | RecvPanics => r = None
  | RecvConfused => exists s' es, r = Some (tt, s', es) /\
      s_info s' = info /\ se_keys (s_env s') = S k /\ se_now (s_env s') = now /\
      wrote es = [(ss_ed info, announce sessionTypeInit k now info)] /\ delivered es = []
  | RecvOpened b rks lks nonce innerKey data => exists s' es, r = Some (tt, s', es) /\
      core_of (s_info s') = core_of (after_recv b k now nonce innerKey info) /\
      se_keys (s_env s') = (k + recv_keys b now info)%nat /\ se_now (s_env s') = now /\
      wrote es = [] /\ delivered es = [(ss_ed info, data)]
  end.

Lemma confused_eq `{!NaclBoxLaws} s : outcome_effects s RecvConfused (session_sendInit supply secretEd s).
Proof. destruct (session_sendInit_eq s) as (es & -> & Hw & Hd). by eexists _, es. Qed.

Lemma open_traffic_eq `{!NaclBoxLaws} id rks lks boxed nonce b s onSuccess :
  (forall key, onSuccess key s = Some (tt, MkSess (after_recv b (se_keys (s_env s)) (se_now (s_env s)) nonce key (s_info s))
     (MkSenv (se_now (s_env s)) (se_keys (s_env s) + recv_keys b (se_now (s_env s)) (s_info s))%nat
       (se_timer (s_env s))), [])) ->
  outcome_effects s (open_outcome (s_info s) b rks lks nonce boxed)
    ((if negb (key_nonce b (s_info s) <? nonce) then sret tt
      else open_traffic supply secretEd id boxed nonce (key_shared b (s_info s)) onSuccess) s).
Proof.
  intros Hon. unfold open_outcome, open_traffic. destruct (negb _); [done|].
  destruct (boxOpen _ _ _ _) as [unboxed|]; [|apply confused_eq].
  destruct (length unboxed <? boxPubSize)%nat; [done|].
  set (key := array_of _ _). set (data := drop _ _). specialize (Hon key).
  set (s1 := MkSess _ _) in Hon.
  set (s2 := MkSess (set_ss_rx (u64 (ss_rx (s_info s1) + Z.of_nat (length data))) (s_info s1)) (s_env s1)).
  destruct (resetTimer_eq id s2) as (s' & es & E & Hc & Hk & Hn & Hw & Hd).
  exists s', (SNetworkRecv (ss_ed (s_info s)) data :: es). split_and!; try done.
  - unfold mbind, act_bind, act_gets, act_emit, act_modify. rewrite Hon. fold s2. by rewrite E.
  - transitivity ((ss_ed (s_info s), data) :: delivered es); [done|by rewrite Hd].
Qed.

Lemma gets_bind {S E A B} (f : S -> A) (k : A -> Act S E B) s : (act_gets f ≫= k) s = k (f s) s.
Proof. unfold mbind, act_bind, act_gets. by destruct (k (f s) s) as [[[? ?] ?]|]. Qed.

Lemma doRecv_eq `{!NaclBoxLaws} id msg s :
  outcome_effects s (recv_outcome (s_info s) msg) (doRecv supply secretEd id msg s).
Proof.
  unfold recv_outcome, doRecv.
  destruct (_ || _); [done|]. destruct (read_header msg) as [[[[rks lks] nonce] boxed]|]; [|done].
  unfold recv_traffic. rewrite gets_bind. cbv zeta. unfold key_for.
  set (fromCurrent := rks =? ss_remoteKeySeq (s_info s)).
  set (fromNext := rks =? u64 (ss_remoteKeySeq (s_info s) + 1)).
  destruct (fromCurrent && _); [|destruct (fromNext && _); [|destruct (fromNext && _)]].
  - apply (open_traffic_eq id rks lks boxed nonce RecvCurrent). intros key.
    destruct s as [info [now keys t]]. cbn. by rewrite Nat.add_0_r.
  - apply (open_traffic_eq id rks lks boxed nonce RecvNextSend). intros key.
    unfold mbind at 1, act_bind at 1, act_modify at 1. by rewrite ratchet_eq.
  - apply (open_traffic_eq id rks lks boxed nonce RecvNextRecv). intros key.
    unfold mbind at 1, act_bind at 1, act_modify at 1. by rewrite ratchet_eq.
  - apply confused_eq.
Qed.

(** ** Traffic that was sealed for a session *)

Lemma uvarint_at (msg rest : list byte) offset x : is_u64 x -> drop offset msg = AppendUvarint [] x ++ rest ->
  exists l, Uvarint (drop offset msg) = (x, l) /\ 0 < l /\ drop (offset + Z.to_nat l) msg = rest.
Proof.
  intros Hx E. exists (wireSizeUint x). split_and!; [by rewrite E, <- (Uvarint_append x rest)|apply wireSizeUint_pos|].
  rewrite <- drop_drop, E. apply drop_app_length'. pose proof (length_wireAppendUint [] x) as Hl.
  cbn [length] in Hl. unfold wireAppendUint in Hl. lia.
Qed.

Lemma read_header_traffic lks rks nonce boxed : is_u64 lks -> is_u64 rks -> is_u64 nonce ->
  read_header (traffic_header lks rks nonce ++ boxed) = Some (lks, rks, nonce, boxed).
Proof.
  intros Hl Hr Hn. set (msg := _ ++ boxed).
  assert (drop 1 msg = AppendUvarint [] lks ++ AppendUvarint [] rks ++ AppendUvarint [] nonce ++ boxed) as E1
    by (unfold msg, traffic_header; by rewrite <- !app_assoc).
  unfold read_header. destruct (uvarint_at msg _ 1 lks Hl E1) as (l1 & -> & P1 & E2).
  destruct (Z.leb_spec l1 0); [lia|].
  destruct (uvarint_at msg _ _ rks Hr E2) as (l2 & -> & P2 & E3). destruct (Z.leb_spec l2 0); [lia|].
  destruct (uvarint_at msg _ _ nonce Hn E3) as (l3 & -> & P3 & E4). destruct (Z.leb_spec l3 0); [lia|].
  by rewrite E4.
Qed.

Lemma length_traffic_header lks rks nonce : (4 <= length (traffic_header lks rks nonce) <= 31)%nat.
Proof.
  unfold traffic_header, AppendUvarint. cbn [app length]. rewrite !length_app.
  pose proof (uvarint_bytes_length 10 lks). pose proof (uvarint_bytes_length 10 rks).
  pose proof (uvarint_bytes_length 10 nonce). lia.
Qed.

(** How a sealed message is received, its payload long enough or not. *)
Lemma recv_sealed `{!NaclBoxLaws} info b lks rks nonce payload :
  is_u64 lks -> is_u64 rks -> is_u64 nonce ->
  key_for info lks rks = Some b -> key_nonce b info < nonce ->
  (sessionTrafficOverheadMin <= length (traffic_header lks rks nonce) + boxOverhead + length payload)%nat ->
  recv_outcome info (boxSeal (traffic_header lks rks nonce) payload nonce (key_shared b info)) =
    if (length payload <? boxPubSize)%nat then RecvPanics
    else RecvOpened b lks rks nonce (array_of boxPubSize payload) (drop boxPubSize payload).
Proof.
  intros Hl Hr Hn Hk Hb Hlen. unfold recv_outcome, boxSeal. rewrite read_header_traffic by done.
  rewrite length_app, box_seal_length. destruct (Nat.ltb_spec (length (traffic_header lks rks nonce) +
    (boxOverhead + length payload)) sessionTrafficOverheadMin); [lia|].
  cbn [orb negb bool_decide head traffic_header app]. rewrite bool_decide_true by done. cbn [negb].
  rewrite Hk. unfold open_outcome. destruct (Z.ltb_spec (key_nonce b info) nonce); [|lia]. cbn [negb].
  unfold boxOpen. by rewrite box_open_seal.
Qed.
End steps.
