(* ===== verification/SessionInv.v ===== *)
(** * The invariant of a session

    What holds of a [sessionInfo] between two messages of its actor, the keys
    and nonces a session seals with, and the only message it can panic on
    ([ironwood/encrypted/session.go]). *)

From S2P Require Import Prelude Crypto Wire Binary E2c Box SessionInit RouterState RouterCost Session SessionSteps.

Section invariant.
Context `{Ed25519} `{NaclBox} `{Sha512} (supply : nat -> boxPriv) (secretEd : edPriv).

(** ** Only the core matters *)

Lemma core_update k init a b : core_of a = core_of b ->
  core_of (after_update supply k init a) = core_of (after_update supply k init b).
Proof.
  assert (forall i, core_of (after_update supply k init (core_of i)) = core_of (after_update supply k init i)) as E
    by by intros [].
  intros Hc. by rewrite <- (E a), Hc, E.
Qed.

Lemma core_recv msg a b : core_of a = core_of b -> recv_outcome a msg = recv_outcome b msg.
Proof.
  assert (forall i, recv_outcome (core_of i) msg = recv_outcome i msg) as E by by intros [].
  intros Hc. by rewrite <- (E a), Hc, E.
Qed.

Lemma core_send k a b : core_of a = core_of b -> core_of (after_send supply k a) = core_of (after_send supply k b).
Proof.
  assert (forall i, core_of (after_send supply k (core_of i)) = core_of (after_send supply k i)) as E.
  { intros []. unfold after_send. cbn. by case_match. }
  intros Hc. by rewrite <- (E a), Hc, E.
Qed.

Lemma core_announce ty k now a b : core_of a = core_of b ->
  announce supply secretEd ty k now a = announce supply secretEd ty k now b.
Proof.
  assert (forall i, announce supply secretEd ty k now (core_of i) = announce supply secretEd ty k now i) as E by by intros [].
  intros Hc. by rewrite <- (E a), Hc, E.
Qed.

Lemma core_sealed msg a b : core_of a = core_of b -> sealed_traffic a msg = sealed_traffic b msg.
Proof.
  assert (forall i, sealed_traffic (core_of i) msg = sealed_traffic i msg) as E by by intros [].
  intros Hc. by rewrite <- (E a), Hc, E.
Qed.

(** ** The invariant *)

Lemma core_same (P : sessionInfo -> Prop) a b : (forall info, P (core_of info) <-> P info) ->
  core_of a = core_of b -> P b -> P a.
Proof. intros Hp E Hb. apply Hp. rewrite E. by apply Hp. Qed.
(** The shared keys belong to the key pairs, the public keys to the private
    ones, and the counters are 64-bit. *)
Definition session_ok (info : sessionInfo) : Prop :=
  (ss_recvShared info = getShared (ss_current info) (ss_recvPriv info) /\
   ss_sendShared info = getShared (ss_current info) (ss_sendPriv info) /\
   ss_nextSendShared info = getShared (ss_next info) (ss_sendPriv info) /\
   ss_nextRecvShared info = getShared (ss_next info) (ss_recvPriv info)) /\
  (ss_recvPub info = box_public (ss_recvPriv info) /\
   ss_sendPub info = box_public (ss_sendPriv info) /\
   ss_nextPub info = box_public (ss_nextPriv info)) /\
  (is_u64 (ss_seq info) /\ is_u64 (ss_remoteKeySeq info) /\ is_u64 (ss_localKeySeq info) /\
   is_u64 (ss_recvNonce info) /\ is_u64 (ss_sendNonce info) /\
   is_u64 (ss_nextSendNonce info) /\ is_u64 (ss_nextRecvNonce info)).

Lemma core_session_ok a b : core_of a = core_of b -> session_ok b -> session_ok a.
Proof. by apply core_same. Qed.

Lemma fixShared_ok info recvNonce sendNonce : is_u64 recvNonce -> is_u64 sendNonce ->
  (ss_recvPub info = box_public (ss_recvPriv info) /\ ss_sendPub info = box_public (ss_sendPriv info) /\
   ss_nextPub info = box_public (ss_nextPriv info)) ->
  is_u64 (ss_seq info) -> is_u64 (ss_remoteKeySeq info) -> is_u64 (ss_localKeySeq info) ->
  session_ok (fixShared recvNonce sendNonce info).
Proof. intros ? ? (? & ? & ?) ? ? ?. unfold session_ok. split_and!; try done; unfold is_u64; cbn; lia. Qed.

#[local] Hint Resolve fixShared_ok u64_range : core.
#[local] Hint Extern 1 (is_u64 0) => (unfold is_u64; lia) : core.

Lemma newSession_ok now k1 k2 k3 ed current next seq :
  session_ok (newSession now (supply_pair supply k1) (supply_pair supply k2) (supply_pair supply k3) ed current next seq).
Proof. apply fixShared_ok; cbn; auto. Qed.

Lemma rotate_keys k info : session_ok info ->
  ss_recvPub (rotate supply k info) = box_public (ss_recvPriv (rotate supply k info)) /\
  ss_sendPub (rotate supply k info) = box_public (ss_sendPriv (rotate supply k info)) /\
  ss_nextPub (rotate supply k info) = box_public (ss_nextPriv (rotate supply k info)).
Proof. intros (_ & (P1 & P2 & P3) & _). cbn. auto. Qed.

Lemma after_update_ok k init info : session_ok info -> init_ok init -> session_ok (after_update supply k init info).
Proof.
  intros Hi [Hk Hs]. destruct (rotate_keys k info Hi) as (P1 & P2 & P3). destruct Hi as (_ & _ & U).
  unfold after_update. apply fixShared_ok; cbn; auto; tauto.
Qed.

Lemma after_send_ok k info : session_ok info -> session_ok (after_send supply k info).
Proof.
  intros Hi. unfold after_send. cbv zeta. destruct (_ =? 0).
  - destruct (rotate_keys k info Hi) as (P1 & P2 & P3). destruct Hi as (_ & _ & U). apply fixShared_ok; cbn; auto; tauto.
  - destruct Hi as (S & P & U). unfold session_ok. cbn. split_and!; try tauto; auto.
Qed.

Lemma set_ss_rotated_ok t info : session_ok info -> session_ok (set_ss_rotated t info).
Proof. done. Qed.

Lemma after_ratchet_ok k now nonce key info : session_ok info -> is_u64 nonce ->
  session_ok (after_ratchet supply k now nonce key info).
Proof.
  intros Hi Hn. unfold after_ratchet. destruct (may_rotate now info); [|done].
  destruct (rotate_keys k info Hi) as (P1 & P2 & P3). destruct Hi as (_ & _ & U).
  apply set_ss_rotated_ok, fixShared_ok; cbn; auto; tauto.
Qed.

Lemma after_recv_ok b k now nonce key info : session_ok info -> is_u64 nonce ->
  session_ok (after_recv supply b k now nonce key info).
Proof.
  intros Hi Hn. assert (session_ok (set_ss_recvNonce nonce info) /\ session_ok (set_ss_nextSendNonce nonce info) /\
    session_ok (set_ss_nextRecvNonce nonce info)) as (H1' & H2' & H3').
  { destruct Hi as (S & P & U). unfold session_ok. cbn. tauto. }
  destruct b; [done|by apply after_ratchet_ok..].
Qed.

(** ** Steps *)

Definition sessionMsg_ok (msg : sessionMsg) : Prop :=
  match msg with MsgInit init | MsgAck init => init_ok init | _ => True end.

Lemma Uvarint_u64 buf u l : Uvarint buf = (u, l) -> 0 < l -> is_u64 u.
Proof.
  intros E Hl. pose proof (Uvarint_from_range buf 0 0 0 ltac:(lia) ltac:(lia) ltac:(lia)) as Hr.
  unfold Uvarint in E. rewrite E in Hr. by apply Hr.
Qed.

Lemma read_header_u64 msg rks lks nonce boxed : read_header msg = Some (rks, lks, nonce, boxed) ->
  is_u64 rks /\ is_u64 lks /\ is_u64 nonce.
Proof.
  unfold read_header. destruct (Uvarint (drop 1 msg)) as [u1 l1] eqn:E1. destruct (Z.leb_spec l1 0); [done|].
  destruct (Uvarint (drop (1 + Z.to_nat l1) msg)) as [u2 l2] eqn:E2. destruct (Z.leb_spec l2 0); [done|].
  destruct (Uvarint (drop (1 + Z.to_nat l1 + Z.to_nat l2) msg)) as [u3 l3] eqn:E3. destruct (Z.leb_spec l3 0); [done|].
  intros [= <- <- <- _]. split_and!; by eapply Uvarint_u64.
Qed.

Lemma recv_outcome_u64 info msg b rks lks n key data :
  recv_outcome info msg = RecvOpened b rks lks n key data -> is_u64 n.
Proof.
  unfold recv_outcome. destruct (_ || _); [done|].
  destruct (read_header msg) as [[[[r l] n'] boxed]|] eqn:Er; [|done]. apply read_header_u64 in Er as (_ & _ & Hn).
  destruct (key_for info r l); [|done]. unfold open_outcome. destruct (negb _); [done|].
  destruct (boxOpen _ _ _ _); [|done]. destruct (_ <? _)%nat; [done|]. by intros [= _ _ _ <- _ _].
Qed.

Lemma session_step_ok `{!NaclBoxLaws} id msg s : session_ok (s_info s) -> sessionMsg_ok msg ->
  match session_step supply secretEd id msg s with
  | None => exists m, msg = MsgRecv m /\ recv_outcome (s_info s) m = RecvPanics
  | Some (_, s', es) => session_ok (s_info s') /\ ss_ed (s_info s') = ss_ed (s_info s) /\
      (se_keys (s_env s) <= se_keys (s_env s'))%nat /\
      Forall (fun p => p.1 = ss_ed (s_info s)) (wrote es) /\
      match msg with MsgRecv m => recv_outcome (s_info s) m <> RecvPanics | _ => True end
  end.
Proof.
  intros Hi Hm. assert (forall info' i, core_of info' = core_of i -> session_ok i -> ss_ed i = ss_ed (s_info s) ->
    session_ok info' /\ ss_ed info' = ss_ed (s_info s)) as Hfin.
  { intros info' i Hc Ho <-. split; [by eapply core_session_ok|]. by apply (f_equal ss_ed) in Hc. }
  set (k := se_keys (s_env s)). destruct msg as [|init|ack|msg|msg]; cbn [session_step].
  - destruct (resetTimer_eq id s) as (s' & es & -> & Hc & -> & _ & -> & _).
    destruct (Hfin _ _ Hc Hi eq_refl). split_and!; done || lia.
  - destruct (Z.le_gt_cases (si_seq init) (ss_seq (s_info s))) as [Hs|Hs].
    { unfold session_handleInit. rewrite gets_bind. destruct (Z.leb_spec (si_seq init) (ss_seq (s_info s))); [|lia].
      split_and!; done || lia. }
    destruct (handleInit_eq supply secretEd id init s Hs) as (s' & es & -> & Hc & -> & _ & -> & _).
    destruct (Hfin _ _ Hc (after_update_ok k init _ Hi Hm) eq_refl). split_and!; try done; [lia|]. by apply Forall_singleton.
  - unfold session_handleAck. rewrite gets_bind. destruct (Z.leb_spec (si_seq ack) (ss_seq (s_info s))); [split_and!; done || lia|].
    destruct (handleUpdate_eq supply id ack s) as (s' & es & -> & Hc & -> & _ & -> & _).
    destruct (Hfin _ _ Hc (after_update_ok k ack _ Hi Hm) eq_refl). split_and!; done || lia.
  - destruct (doSend_eq supply id msg s) as (s' & es & -> & Hc & -> & _ & -> & _).
    destruct (Hfin _ _ Hc (after_send_ok k _ Hi)); [unfold after_send; by case_match|].
    split_and!; try done; [lia|]. by apply Forall_singleton.
  - pose proof (doRecv_eq supply secretEd id msg s) as Ho.
    destruct (recv_outcome (s_info s) msg) as [| | |b rks lks n key data] eqn:Er; cbn [outcome_effects] in Ho.
    + rewrite Ho. split_and!; done || lia.
    + destruct Ho as (s' & es & -> & -> & -> & _ & -> & _). split_and!; try done; [lia|]. by apply Forall_singleton.
    + rewrite Ho. by eexists.
    + destruct Ho as (s' & es & -> & Hc & -> & _ & -> & _). apply recv_outcome_u64 in Er.
      destruct (Hfin _ _ Hc (after_recv_ok b k _ n key _ Hi Er)).
      { destruct b; [done| |]; unfold after_recv, after_ratchet; by case_match. }
      split_and!; done || lia.
Qed.

(** ** Keys and nonces *)

(** One sealed message: the private key, the other side's public key, the nonce,
    the clear text before the box and the payload in it. *)
Record seal := MkSeal { sl_priv : boxPriv; sl_pub : boxPub; sl_nonce : Z; sl_clear : list byte; sl_payload : list byte }.

Definition seal_bytes (sl : seal) : list byte :=
  boxSeal (sl_clear sl) (sl_payload sl) (sl_nonce sl) (getShared (sl_pub sl) (sl_priv sl)).
Definition seal_key (sl : seal) : boxPriv * Z := (sl_priv sl, sl_nonce sl).

Context (keys : nat).

(** [used] are keys and nonces that were used; [send], with nonces up to [nonce],
    [next] and the keys of the supply from [k] on are the ones to come; [keys] is
    how many are taken in all. *)
Record keys_inv (send next : boxPriv) (nonce : Z) (k : nat) (used : list (boxPriv * Z)) : Prop := {
  keys_apart : send <> next;
  keys_fresh j : (k <= j < keys)%nat -> supply j <> send /\ supply j <> next;
  keys_used p n : (p, n) ∈ used -> p <> next /\ (forall j, (k <= j < keys)%nat -> p <> supply j) /\ (p = send -> n <= nonce)
}.

(** The key pairs are all different. *)
Context (supply_distinct : forall i j, (i < keys)%nat -> (j < keys)%nat -> supply i = supply j -> i = j).

Lemma keys_rotate send next nonce nonce' k used : (k < keys)%nat -> keys_inv send next nonce k used ->
  keys_inv next (supply k) nonce' (S k) used.
Proof.
  intros Hkeys [A F U]. split.
  - intros E. by apply (F k).
  - intros j Hj. split; [apply F; lia|]. intros E. apply supply_distinct in E; lia.
  - intros p n (U1 & U2 & U3)%U. split_and!; [by apply U2|intros j Hj; apply U2; lia|done].
Qed.

Lemma keys_seal send next nonce nonce' k used : keys_inv send next nonce k used -> nonce < nonce' ->
  (send, nonce') ∉ used /\ keys_inv send next nonce' k (used ++ [(send, nonce')]).
Proof.
  intros [A F U] Hn. split.
  - intros (_ & _ & U3)%U. specialize (U3 eq_refl). lia.
  - split; [done|done|]. intros p n [(U1 & U2 & U3)%U| [= -> ->]%list_elem_of_singleton]%elem_of_app.
    + split_and!; [done|done|]. intros E. specialize (U3 E). lia.
    + split_and!; [done| |lia]. intros j Hj E. destruct (F j Hj) as [F1 _]. by apply F1.
Qed.

Lemma keys_throwaway send next nonce k used : (k < keys)%nat -> keys_inv send next nonce k used ->
  (supply k, 0) ∉ used /\ keys_inv send next nonce (S k) (used ++ [(supply k, 0)]).
Proof.
  intros Hkeys [A F U]. split.
  - intros (_ & U2 & _)%U. by apply (U2 k).
  - split; [done|intros j Hj; apply F; lia|].
    intros p n [(U1 & U2 & U3)%U| [= -> ->]%list_elem_of_singleton]%elem_of_app.
    + split_and!; [done|intros j Hj; apply U2; lia|done].
    + destruct (F k) as [F1 F2]; [lia|]. split_and!; [done| |by intros E].
      intros j Hj E. apply supply_distinct in E; lia.
Qed.

Definition sess_keys_inv (s : sess) (used : list (boxPriv * Z)) : Prop :=
  keys_inv (ss_sendPriv (s_info s)) (ss_nextPriv (s_info s)) (ss_sendNonce (s_info s)) (se_keys (s_env s)) used.

Lemma sess_keys_same s s' used : core_of (s_info s') = core_of (s_info s) -> se_keys (s_env s') = se_keys (s_env s) ->
  sess_keys_inv s used -> sess_keys_inv s' used.
Proof.
  intros Hc Hk. unfold sess_keys_inv. rewrite Hk.
  pose proof (f_equal ss_sendPriv Hc) as E1. pose proof (f_equal ss_nextPriv Hc) as E2.
  pose proof (f_equal ss_sendNonce Hc) as E3. cbn in E1, E2, E3. by rewrite E1, E2, E3.
Qed.

(** What a message seals. *)
Definition traffic_seal (info : sessionInfo) (msg : list byte) : seal :=
  MkSeal (ss_sendPriv info) (ss_current info) (ss_sendNonce info)
    (traffic_header (ss_localKeySeq info) (ss_remoteKeySeq info) (ss_sendNonce info)) (arr_list (ss_nextPub info) ++ msg).
Definition announce_seal (ty : byte) (k : nat) (now : Z) (info : sessionInfo) : seal :=
  let init := newSessionInit now (ss_sendPub info) (ss_nextPub info) (ss_localKeySeq info) in
  let sb := sigBytes (box_public (supply k)) init in
  MkSeal (supply k) (edPub_toBox (ss_ed info)) 0 (ty :: arr_list (box_public (supply k)))
    (arr_list (edSign sb secretEd) ++ drop boxPubSize sb).

Lemma traffic_seal_bytes info msg : session_ok info -> seal_bytes (traffic_seal info msg) = sealed_traffic info msg.
Proof. intros ((_ & E & _) & _). unfold seal_bytes, sealed_traffic. by rewrite E. Qed.
Lemma announce_seal_bytes ty k now info : seal_bytes (announce_seal ty k now info) = announce supply secretEd ty k now info.
Proof. done. Qed.

(** What one message seals: nothing that was sealed before. *)
Definition seals_fresh (s' : sess) (used : list (boxPriv * Z)) (written : list (edPub * list byte)) : Prop :=
  exists seals, map snd written = map seal_bytes seals /\ NoDup (map seal_key seals) /\
    (forall x, x ∈ map seal_key seals -> x ∉ used) /\ sess_keys_inv s' (used ++ map seal_key seals).

Lemma seals_none s' used : sess_keys_inv s' used -> seals_fresh s' used [].
Proof.
  intros Hk. exists []. split_and!; [done|apply NoDup_nil_2|set_solver|]. by rewrite app_nil_r.
Qed.

Lemma seals_one s' used dest sl : seal_key sl ∉ used -> sess_keys_inv s' (used ++ [seal_key sl]) ->
  seals_fresh s' used [(dest, seal_bytes sl)].
Proof.
  intros Hn Hk. exists [sl]. split_and!; [done|apply NoDup_singleton| |done].
  by intros x ->%list_elem_of_singleton.
Qed.

(** The keys of a session in a pure form and of its actor's state. *)
Lemma sess_keys_of info k used s' : keys_inv (ss_sendPriv info) (ss_nextPriv info) (ss_sendNonce info) k used ->
  core_of (s_info s') = core_of info -> se_keys (s_env s') = k -> sess_keys_inv s' used.
Proof. intros Hk Hc <-. by apply (sess_keys_same (MkSess info (s_env s'))). Qed.

Lemma after_ratchet_keys info k now nonce key used : (k + ratchet_keys now info <= keys)%nat ->
  keys_inv (ss_sendPriv info) (ss_nextPriv info) (ss_sendNonce info) k used ->
  let info' := after_ratchet supply k now nonce key info in
  keys_inv (ss_sendPriv info') (ss_nextPriv info') (ss_sendNonce info') (k + ratchet_keys now info) used.
Proof.
  unfold after_ratchet, ratchet_keys. intros Hkeys Hk. cbv zeta.
  destruct (may_rotate now info); rewrite ?Nat.add_0_r; [|done].
  rewrite Nat.add_1_r in *. cbn. by eapply keys_rotate.
Qed.

Lemma after_recv_keys info b k now nonce key used : (k + recv_keys b now info <= keys)%nat ->
  keys_inv (ss_sendPriv info) (ss_nextPriv info) (ss_sendNonce info) k used ->
  let info' := after_recv supply b k now nonce key info in
  keys_inv (ss_sendPriv info') (ss_nextPriv info') (ss_sendNonce info') (k + recv_keys b now info) used.
Proof.
  intros Hkeys Hk. destruct b; cbn [after_recv recv_keys] in *.
  - by rewrite Nat.add_0_r.
  - by apply (after_ratchet_keys (set_ss_nextSendNonce nonce info)).
  - by apply (after_ratchet_keys (set_ss_nextRecvNonce nonce info)).
Qed.

Lemma after_send_seal info k msg used : (k + send_keys info <= keys)%nat -> session_ok info ->
  keys_inv (ss_sendPriv info) (ss_nextPriv info) (ss_sendNonce info) k used ->
  let info' := after_send supply k info in
  seal_key (traffic_seal info' msg) ∉ used /\
  keys_inv (ss_sendPriv info') (ss_nextPriv info') (ss_sendNonce info') (k + send_keys info)
    (used ++ [seal_key (traffic_seal info' msg)]).
Proof.
  unfold after_send, send_keys. intros Hkeys (_ & _ & _ & _ & _ & _ & Hn & _) Hk. cbv zeta. cbn [ss_sendNonce set_ss_sendNonce].
  destruct (Z.eqb_spec (u64 (ss_sendNonce info + 1)) 0) as [E|E].
  - rewrite Nat.add_1_r in *. apply (keys_seal _ _ (-1)); [|done]. by eapply keys_rotate.
  - rewrite Nat.add_0_r. apply (keys_seal _ _ (ss_sendNonce info)); [done|]. cbn. revert E. unfold u64.
    unfold is_u64 in Hn. destruct (decide (ss_sendNonce info = 2 ^ 64 - 1)) as [->|]; [done|].
    rewrite Z.mod_small by lia. lia.
Qed.

Lemma session_step_seals `{!NaclBoxLaws} id msg s s' es used : (se_keys (s_env s') <= keys)%nat -> session_ok (s_info s) -> sess_keys_inv s used ->
  session_step supply secretEd id msg s = Some (tt, s', es) -> seals_fresh s' used (wrote es).
Proof.
  intros Hkeys Hi Hk E. set (k := se_keys (s_env s)) in *.
  assert (forall s1 k', keys_inv (ss_sendPriv (s_info s)) (ss_nextPriv (s_info s)) (ss_sendNonce (s_info s)) k' used ->
    core_of (s_info s1) = core_of (s_info s) -> se_keys (s_env s1) = k' -> sess_keys_inv s1 used) as Hsame.
  { intros. by eapply sess_keys_of. }
  destruct msg as [|init|ack|msg|msg]; cbn [session_step] in E.
  - destruct (resetTimer_eq id s) as (s1 & es1 & E1 & Hc & Hk1 & _ & Hw & _). rewrite E1 in E. injection E as <- <-.
    rewrite Hw. apply seals_none. by eapply Hsame.
  - unfold session_handleInit in E. rewrite gets_bind in E.
    destruct (Z.leb_spec (si_seq init) (ss_seq (s_info s))) as [Hs|Hs]; [by injection E as <- <-; apply seals_none|].
    destruct (handleInit_eq supply secretEd id init s Hs) as (s1 & es1 & E1 & Hc & Hk1 & _ & Hw & _).
    unfold session_handleInit in E1. rewrite gets_bind in E1.
    destruct (Z.leb_spec (si_seq init) (ss_seq (s_info s))); [lia|]. rewrite E1 in E. injection E as <- <-. rewrite Hw.
    set (info := after_update _ _ _ _) in *. rewrite <- announce_seal_bytes.
    rewrite Hk1 in Hkeys.
    apply (keys_rotate _ _ _ (ss_sendNonce (s_info s))) in Hk; [|lia].
    destruct (keys_throwaway _ _ _ _ _ Hkeys Hk) as [Hf Hk']. apply seals_one; [done|].
    by apply (sess_keys_of info (S (S k))).
  - unfold session_handleAck in E. rewrite gets_bind in E.
    destruct (Z.leb_spec (si_seq ack) (ss_seq (s_info s))) as [Hs|Hs]; [by injection E as <- <-; apply seals_none|].
    destruct (handleUpdate_eq supply id ack s) as (s1 & es1 & E1 & Hc & Hk1 & _ & Hw & _). rewrite E1 in E.
    injection E as <- <-. rewrite Hw. apply seals_none.
    apply (keys_rotate _ _ _ (ss_sendNonce (s_info s))) in Hk; [|by rewrite Hk1 in Hkeys].
    by apply (sess_keys_of (after_update supply k ack (s_info s)) (S k)).
  - destruct (doSend_eq supply id msg s) as (s1 & es1 & E1 & Hc & Hk1 & _ & Hw & _). rewrite E1 in E.
    injection E as <- <-. rewrite Hw. set (info := after_send _ _ _) in *.
    rewrite <- traffic_seal_bytes by by apply after_send_ok.
    rewrite Hk1 in Hkeys. destruct (after_send_seal (s_info s) k msg used Hkeys Hi Hk) as [Hf Hk']. apply seals_one; [done|].
    by apply (sess_keys_of info (k + send_keys (s_info s))).
  - pose proof (doRecv_eq supply secretEd id msg s) as Ho. rewrite E in Ho.
    destruct (recv_outcome (s_info s) msg) as [| | |b rks lks n key data] eqn:Er; cbn [outcome_effects] in Ho.
    + injection Ho as -> ->. by apply seals_none.
    + destruct Ho as (s1 & es1 & [= <- <-] & Hi1 & Hk1 & _ & -> & _). rewrite <- announce_seal_bytes.
      rewrite Hk1 in Hkeys. destruct (keys_throwaway _ _ _ _ _ Hkeys Hk) as [Hf Hk']. apply seals_one; [done|].
      apply (sess_keys_of (s_info s) (S k)); [done|by rewrite Hi1|done].
    + done.
    + destruct Ho as (s1 & es1 & [= <- <-] & Hc & Hk1 & _ & -> & _). apply seals_none.
      by apply (sess_keys_of _ _ _ s' (after_recv_keys _ b k (se_now (s_env s)) n key used ltac:(by rewrite Hk1 in Hkeys) Hk)).
Qed.
End invariant.
