(* ===== verification/SessionSafety.v ===== *)
(** * What sessions guarantee

    Replay protection of a session between two handshakes, the handshake that
    reopens it, the keys and nonces of everything a session seals, and when a
    message makes it panic ([ironwood/encrypted/session.go]). *)

From S2P Require Import Prelude Crypto Wire Binary E2c Box SessionInit RouterState RouterCost Session SessionSteps SessionInv.

Section safety.
Context `{Ed25519} `{NaclBox} `{Sha512} (supply : nat -> boxPriv) (secretEd : edPriv).

(** ** Runs *)

Definition at_time (now : Z) (s : sess) : sess :=
  MkSess (s_info s) (MkSenv now (se_keys (s_env s)) (se_timer (s_env s))).

(** A session handles messages one after the other, each at its time. *)
Fixpoint session_run (id : nat) (evs : list (Z * sessionMsg)) : S_ unit :=
  match evs with
  | [] => sret tt
  | (now, msg) :: evs =>
      _ ← act_modify (at_time now);
      _ ← session_step supply secretEd id msg;
      session_run id evs
  end.

(** The header of the message that is opened, if one is. *)
Definition opened_by (info : sessionInfo) (msg : sessionMsg) : list (Z * Z * Z) :=
  match msg with
  | MsgRecv msg => match recv_outcome info msg with RecvOpened _ rks lks n _ _ => [(rks, lks, n)] | _ => [] end
  | _ => []
  end.

Fixpoint opened (id : nat) (evs : list (Z * sessionMsg)) (s : sess) : list (Z * Z * Z) :=
  match evs with
  | [] => []
  | (now, msg) :: evs =>
      let s := at_time now s in
      opened_by (s_info s) msg ++
        match session_step supply secretEd id msg s with Some (_, s', _) => opened id evs s' | None => [] end
  end.

(** No handshake message. *)
Definition quiet (msg : sessionMsg) : Prop :=
  match msg with MsgInit _ | MsgAck _ => False | _ => True end.

(** The parts of a run. *)
Lemma session_run_cons id now msg evs s s' es : session_run id ((now, msg) :: evs) s = Some (tt, s', es) ->
  exists s1 es1 es2, session_step supply secretEd id msg (at_time now s) = Some (tt, s1, es1) /\
    session_run id evs s1 = Some (tt, s', es2) /\ es = es1 ++ es2.
Proof.
  intros E. cbn [session_run] in E. unfold mbind, act_bind, act_modify in E.
  destruct (session_step supply secretEd id msg (at_time now s)) as [[[[] s1] es1]|]; [|done].
  destruct (session_run id evs s1) as [[[[] s2] es2]|] eqn:E2; [|done]. injection E as <- <-. by exists s1, es1, es2.
Qed.

(** ** Replays *)

(** [m] more messages cannot overflow a counter. *)
Definition counters_below (m : nat) (info : sessionInfo) : Prop :=
  (0 <= ss_remoteKeySeq info /\ ss_remoteKeySeq info + Z.of_nat m < 2 ^ 64 - 1) /\
  (0 <= ss_localKeySeq info /\ ss_localKeySeq info + Z.of_nat m < 2 ^ 64) /\
  (0 <= ss_sendNonce info /\ ss_sendNonce info + Z.of_nat m < 2 ^ 64).

(** A header the session will not open again. *)
Definition spent (info : sessionInfo) (h : Z * Z * Z) : Prop :=
  let '(rks, lks, n) := h in
  rks <= ss_remoteKeySeq info + 1 /\
  (rks = ss_remoteKeySeq info -> u64 (lks + 1) = ss_localKeySeq info -> n <= ss_recvNonce info) /\
  (rks = ss_remoteKeySeq info + 1 -> lks = ss_localKeySeq info -> n <= ss_nextSendNonce info) /\
  (rks = ss_remoteKeySeq info + 1 -> u64 (lks + 1) = ss_localKeySeq info -> n <= ss_nextRecvNonce info).

(** Messages sealed with the same key of the sender are sealed to the same key of ours. *)
Definition one_target (hs : list (Z * Z * Z)) : Prop :=
  forall rks l1 n1 l2 n2, (rks, l1, n1) ∈ hs -> (rks, l2, n2) ∈ hs -> l1 = l2.

Lemma recv_outcome_opened info msg b rks lks n key data :
  recv_outcome info msg = RecvOpened b rks lks n key data ->
  key_for info rks lks = Some b /\ key_nonce b info < n.
Proof.
  unfold recv_outcome. destruct (_ || _); [done|].
  destruct (read_header msg) as [[[[rks' lks'] n'] boxed]|]; [|done].
  destruct (key_for info rks' lks') as [b'|] eqn:Hk; [|done]. unfold open_outcome.
  destruct (Z.ltb_spec (key_nonce b' info) n'); [|done]. cbn [negb].
  destruct (boxOpen _ _ _ _) as [unboxed|]; [|done]. destruct (_ <? _)%nat; [done|].
  by intros [= <- <- <- <- _ _].
Qed.

Lemma key_for_spec info rks lks b : 0 <= ss_remoteKeySeq info < 2 ^ 64 - 1 -> key_for info rks lks = Some b ->
  match b with
  | RecvCurrent => rks = ss_remoteKeySeq info /\ u64 (lks + 1) = ss_localKeySeq info
  | RecvNextSend => rks = ss_remoteKeySeq info + 1 /\ lks = ss_localKeySeq info
  | RecvNextRecv => rks = ss_remoteKeySeq info + 1 /\ u64 (lks + 1) = ss_localKeySeq info
  end.
Proof.
  intros HR. unfold key_for. cbv zeta. rewrite (u64_small (ss_remoteKeySeq info + 1)) by (unfold is_u64; lia).
  destruct (Z.eqb_spec rks (ss_remoteKeySeq info)), (Z.eqb_spec rks (ss_remoteKeySeq info + 1)),
    (Z.eqb_spec (u64 (lks + 1)) (ss_localKeySeq info)), (Z.eqb_spec lks (ss_localKeySeq info));
    cbn; intros [= <-]; lia.
Qed.

Lemma u64_succ_ne l : 0 <= l < 2 ^ 64 -> u64 (l + 1) <> l.
Proof.
  intros Hl E. unfold u64 in E. destruct (decide (l = 2 ^ 64 - 1)) as [->|]; [done|].
  rewrite Z.mod_small in E; lia.
Qed.

(** What opening a message leaves spent. *)
Lemma after_recv_spent info m b k now rks lks n key : counters_below (S m) info ->
  key_for info rks lks = Some b -> key_nonce b info < n ->
  let info' := after_recv supply b k now n key info in
  counters_below m info' /\ spent info' (rks, lks, n) /\
  forall h, spent info h -> (h.1.1 = rks -> h.1.2 = lks) -> spent info' h /\ h <> (rks, lks, n).
Proof.
  intros ([HR1 HR2] & [HL1 HL2] & [HS1 HS2]) Hk Hn info'.
  assert (u64 (ss_remoteKeySeq info + 1) = ss_remoteKeySeq info + 1) as ER by (apply u64_small; unfold is_u64; lia).
  assert (u64 (ss_localKeySeq info + 1) = ss_localKeySeq info + 1) as EL by (apply u64_small; unfold is_u64; lia).
  pose proof (u64_succ_ne (ss_localKeySeq info) ltac:(lia)) as NL.
  apply key_for_spec in Hk; [|lia]. unfold spent, counters_below.
  destruct b; destruct Hk as [-> Hl]; unfold info', after_recv, after_ratchet, may_rotate in *; cbn in Hn |- *;
    try (change (ss_rotated (set_ss_nextSendNonce n info)) with (ss_rotated info));
    try (change (ss_rotated (set_ss_nextRecvNonce n info)) with (ss_rotated info));
    try (destruct (match ss_rotated info with None => true | Some t => _ end)); cbn; rewrite ?ER, ?EL.
  all: split_and!; try lia; try (intros _ E; exfalso; congruence).
  all: intros [[r l] n'] (P1 & P2 & P3 & P4) Hh; cbn in Hh |- *.
  all: split; [|intros E; injection E as E1 -> ->; lia]; split_and!; intros; try lia; try (exfalso; congruence).
  rewrite Hh in * by done. lia.
Qed.

(** Sending. *)
Lemma after_send_spent info m k : counters_below (S m) info ->
  counters_below m (after_send supply k info) /\ forall h, spent info h -> spent (after_send supply k info) h.
Proof.
  intros (HR & HL & [HS1 HS2]). unfold after_send. cbv zeta. cbn [ss_sendNonce set_ss_sendNonce].
  rewrite u64_small by (unfold is_u64; lia). destruct (Z.eqb_spec (ss_sendNonce info + 1) 0); [lia|].
  split; [|by intros [[??] ?]]. unfold counters_below. cbn. lia.
Qed.

Lemma counters_below_S m info : counters_below (S m) info -> counters_below m info.
Proof. unfold counters_below. lia. Qed.

Lemma core_counters m a b : core_of a = core_of b -> counters_below m b -> counters_below m a.
Proof. by apply core_same. Qed.
Lemma core_spent h a b : core_of a = core_of b -> spent b h -> spent a h.
Proof. destruct h as [[??] ?]. by apply (core_same (fun info => spent info (_, _, _))). Qed.

(** One step: what is opened was not spent, and is. *)
Definition step_spends (m : nat) (info info' : sessionInfo) (hs : list (Z * Z * Z)) : Prop :=
  counters_below m info' /\ Forall (spent info') hs /\ NoDup hs /\
  forall h, spent info h -> one_target (h :: hs) -> spent info' h /\ h ∉ hs.

Lemma spends_nothing m info info' : counters_below m info' -> (forall h, spent info h -> spent info' h) ->
  step_spends m info info' [].
Proof. intros Hm Hs. split_and!; [done|done|apply NoDup_nil_2|]. intros h Hh _. split; [by apply Hs|set_solver]. Qed.

Lemma quiet_step `{!NaclBoxLaws} id msg s s' es m : quiet msg ->
  session_step supply secretEd id msg s = Some (tt, s', es) -> counters_below (S m) (s_info s) ->
  step_spends m (s_info s) (s_info s') (opened_by (s_info s) msg) /\
  length (delivered es) = length (opened_by (s_info s) msg).
Proof.
  intros Hq E Hm. pose proof (counters_below_S _ _ Hm) as Hm'. destruct msg as [|init|ack|msg|msg]; [|done|done| |].
  - destruct (resetTimer_eq id s) as (s1 & es1 & E1 & Hc & Hk & Hn & Hw & Hd).
    cbn in E. rewrite E1 in E. injection E as <- <-. rewrite Hd. split; [|done].
    apply spends_nothing; [by eapply core_counters|]. intros h. by apply core_spent.
  - destruct (doSend_eq supply id msg s) as (s1 & es1 & E1 & Hc & Hk & Hn & Hw & Hd).
    cbn in E. rewrite E1 in E. injection E as <- <-. rewrite Hd. split; [|done].
    destruct (after_send_spent (s_info s) m (se_keys (s_env s)) Hm) as [Hm1 Hs].
    apply spends_nothing; [by eapply core_counters|]. intros h Hh. by eapply core_spent, Hs.
  - pose proof (doRecv_eq supply secretEd id msg s) as Ho. cbn [session_step] in E. rewrite E in Ho.
    cbn [opened_by]. destruct (recv_outcome (s_info s) msg) as [| | |b rks lks n key data] eqn:Er; cbn in Ho.
    + injection Ho as -> ->. split; [|done]. by apply spends_nothing.
    + destruct Ho as (s1 & es1 & [= <- <-] & Hi & _ & _ & _ & ->). split; [|done]. rewrite Hi. by apply spends_nothing.
    + done.
    + destruct Ho as (s1 & es1 & [= <- <-] & Hc & _ & _ & _ & ->). split; [|done].
      destruct (recv_outcome_opened _ _ _ _ _ _ _ _ Er) as [Hk Hn].
      destruct (after_recv_spent (s_info s) m b (se_keys (s_env s)) (se_now (s_env s)) rks lks n key Hm Hk Hn)
        as (C & D & F).
      split_and!; [by eapply core_counters| |apply NoDup_singleton|].
      { apply Forall_singleton. by eapply core_spent. }
      intros [[r l] n'] Hh Ht. destruct (F _ Hh) as [F1 F2].
      { cbn. intros ->. apply (Ht rks l n' lks n); set_solver. }
      split; [by eapply core_spent|]. by rewrite list_elem_of_singleton.
Qed.

Lemma quiet_run `{!NaclBoxLaws} id : forall evs s s' es seen, Forall quiet (map snd evs) ->
  session_run id evs s = Some (tt, s', es) -> counters_below (length evs) (s_info s) ->
  Forall (spent (s_info s)) seen -> one_target (seen ++ opened id evs s) ->
  NoDup (opened id evs s) /\ (forall h, h ∈ seen -> h ∉ opened id evs s) /\
  length (delivered es) = length (opened id evs s).
Proof.
  induction evs as [|[now msg] evs IH]; intros s s' es seen Hq E Hm Hs Ht.
  { injection E as <- <-. split_and!; [apply NoDup_nil_2|set_solver|done]. }
  apply Forall_cons in Hq as [Hq1 Hq]. apply session_run_cons in E as (s1 & es1 & es2 & E1 & E2 & ->).
  cbn [opened] in Ht |- *. set (s0 := at_time now s) in *. rewrite E1 in *.
  destruct (quiet_step id msg s0 s1 es1 (length evs) Hq1 E1 Hm) as [(C & D & N & F) L].
  set (hs := opened_by (s_info s0) msg) in *.
  destruct (IH s1 s' es2 (seen ++ hs) Hq E2 C) as (I1 & I2 & I3).
  { apply Forall_app. split; [|done]. rewrite Forall_forall in Hs |- *. intros h Hh.
    apply (F h (Hs h Hh)). intros r l1 n1 l2 n2 H3 H4. apply (Ht r l1 n1 l2 n2); set_solver. }
  { by rewrite <- app_assoc. }
  split_and!.
  - apply NoDup_app. split_and!; [done| |done]. intros h Hh. apply I2. set_solver.
  - intros h Hh. rewrite not_elem_of_app. split; [|apply I2; set_solver].
    rewrite Forall_forall in Hs. apply (F h (Hs h Hh)). intros r l1 n1 l2 n2 H3 H4. apply (Ht r l1 n1 l2 n2); set_solver.
  - by rewrite delivered_app, !length_app, L, I3.
Qed.

(** C5: between two handshakes a session opens no message twice: in every run
    without inits and acks, as long as the counters do not overflow and the
    sender seals all messages of one of its keys to one of ours, the headers of
    the opened messages (the two key numbers and the nonce) are all different,
    whatever is sent meanwhile and however often the keys are rotated; and as
    many messages are delivered. *)
Theorem no_replay `{!NaclBoxLaws} id evs s s' es : Forall quiet (map snd evs) ->
  session_run id evs s = Some (tt, s', es) -> counters_below (length evs) (s_info s) ->
  one_target (opened id evs s) ->
  NoDup (opened id evs s) /\ length (delivered es) = length (opened id evs s).
Proof.
  intros Hq E Hm Ht. by destruct (quiet_run id evs s s' es [] Hq E Hm (Forall_nil_2 _) Ht) as (N & _ & L).
Qed.

(** ** Replays after a handshake *)

(** A message opened with the key [nextSend], but too soon to rotate, is opened
    again with the key [recv] once an init of the sender has made its key current. *)
Lemma recv_outcome_again info msg rks lks n key data k init : session_ok info ->
  recv_outcome info msg = RecvOpened RecvNextSend rks lks n key data ->
  si_current init = ss_next info -> si_keySeq init = rks ->
  recv_outcome (after_update supply k init (set_ss_nextSendNonce n info)) msg = RecvOpened RecvCurrent rks lks n key data.
Proof.
  intros Hi E Hc Hs. destruct (recv_outcome_opened _ _ _ _ _ _ _ _ E) as [Hk Hn].
  destruct Hi as ((_ & _ & Hsh & _) & _ & (_ & HR & HL & _ & _ & HN & _)). unfold is_u64 in *. cbn [key_nonce] in Hn.
  assert (lks = ss_localKeySeq info) as El.
  { revert Hk. unfold key_for. cbv zeta. destruct (Z.eqb_spec lks (ss_localKeySeq info)); [done|].
    rewrite andb_false_r. by repeat case_match. }
  revert E. unfold recv_outcome. destruct (_ || _); [done|].
  destruct (read_header msg) as [[[[r l] n'] boxed]|]; [|done].
  destruct (key_for info r l) as [b|] eqn:Ek; [|done]. unfold open_outcome.
  destruct (negb (key_nonce b info <? n')) eqn:En; [done|].
  destruct (boxOpen [] boxed n' (key_shared b info)) as [unboxed|] eqn:Eo; [|done].
  destruct (length unboxed <? boxPubSize)%nat eqn:Ep; [done|]. intros [= -> -> -> -> E1 E2].
  assert (key_for (after_update supply k init (set_ss_nextSendNonce n info)) rks lks = Some RecvCurrent) as ->.
  { unfold key_for. cbn. by rewrite Hs, El, !Z.eqb_refl. }
  cbn [key_nonce key_shared]. change (ss_recvNonce (after_update _ _ _ _)) with 0.
  destruct (Z.ltb_spec 0 n); [|lia]. cbn [negb].
  change (ss_recvShared (after_update _ _ _ _)) with (getShared (si_current init) (ss_sendPriv info)).
  rewrite Hc, <- Hsh. cbn [key_shared] in Eo. by rewrite Eo, Ep, E1, E2.
Qed.

(** What handshakes do to replay protection: a message that a session opens
    with the key [nextSend] less than a minute after its last rotation is
    delivered a second time when it arrives again after an init in which the
    sender announces, truthfully, that key as its current one: the update starts
    the nonces of that key at zero. *)
Theorem replay_after_init `{!NaclBoxLaws} id s t1 t2 t3 msg rks lks n key data init :
  session_ok (s_info s) -> recv_outcome (s_info s) msg = RecvOpened RecvNextSend rks lks n key data ->
  may_rotate t1 (s_info s) = false ->
  ss_seq (s_info s) < si_seq init -> si_current init = ss_next (s_info s) -> si_keySeq init = rks ->
  exists s' es, session_run id [(t1, MsgRecv msg); (t2, MsgInit init); (t3, MsgRecv msg)] s = Some (tt, s', es) /\
    delivered es = [(ss_ed (s_info s), data); (ss_ed (s_info s), data)].
Proof.
  intros Hi Eo Hrot Hseq Hc Hk. unfold session_run. cbn [session_step].
  pose proof (doRecv_eq supply secretEd id msg (at_time t1 s)) as E1. cbn [at_time s_info] in E1.
  rewrite Eo in E1. destruct E1 as (s1 & es1 & E1 & Hc1 & _ & _ & _ & Hd1).
  assert (core_of (s_info s1) = core_of (set_ss_nextSendNonce n (s_info s))) as Hc1'.
  { rewrite Hc1. cbn [after_recv]. unfold after_ratchet. cbn [at_time s_env se_now s_info].
    unfold may_rotate in *. cbn [ss_rotated set_ss_nextSendNonce]. by rewrite Hrot. }
  assert (ss_seq (s_info s1) < si_seq init) as Hseq1 by by rewrite (f_equal ss_seq Hc1' : ss_seq (s_info s1) = _).
  destruct (handleInit_eq supply secretEd id init (at_time t2 s1) Hseq1) as (s2 & es2 & E2 & Hc2 & _ & _ & _ & Hd2).
  pose proof (doRecv_eq supply secretEd id msg (at_time t3 s2)) as E3. cbn [at_time s_info] in E3.
  set (k := se_keys (s_env (at_time t2 s1))) in *.
  assert (core_of (s_info s2) = core_of (after_update supply k init (set_ss_nextSendNonce n (s_info s)))) as Hc2'.
  { rewrite Hc2. by apply core_update. }
  assert (recv_outcome (s_info s2) msg = RecvOpened RecvCurrent rks lks n key data) as Eo2.
  { rewrite <- (recv_outcome_again (s_info s) msg rks lks n key data k init Hi Eo Hc Hk).
    by apply core_recv. }
  rewrite Eo2 in E3. destruct E3 as (s3 & es3 & E3 & Hc3 & _ & _ & _ & Hd3).
  exists s3, (es1 ++ es2 ++ es3). split.
  - unfold mbind, act_bind, act_modify. rewrite E1, E2, E3. cbn. by rewrite app_nil_r.
  - rewrite !delivered_app, Hd1, Hd2, Hd3. cbn. do 2 f_equal.
    by rewrite (f_equal ss_ed Hc2' : ss_ed (s_info s2) = _).
Qed.

(** ** Panics *)

(** C17: in every run a session keeps its invariant: the four shared keys belong
    to its key pairs and the other side's keys, the public keys to the private
    ones, and the counters are 64-bit; everything is written to the node the
    session is with. A message stops it, with a panic, only if it opens to less
    than the 32 bytes of a key. *)
Theorem session_safe `{!NaclBoxLaws} id : forall evs s, session_ok (s_info s) -> Forall sessionMsg_ok (map snd evs) ->
  match session_run id evs s with
  | Some (_, s', es) => session_ok (s_info s') /\ Forall (fun p => p.1 = ss_ed (s_info s)) (wrote es)
  | None => exists evs1 evs2 s1 es1 now msg, evs = evs1 ++ (now, MsgRecv msg) :: evs2 /\
      session_run id evs1 s = Some (tt, s1, es1) /\ recv_outcome (s_info s1) msg = RecvPanics
  end.
Proof.
  induction evs as [|[now msg] evs IH]; intros s Hi Hm; [by split|]. apply Forall_cons in Hm as [Hm1 Hm].
  cbn [session_run]. unfold mbind, act_bind, act_modify. set (s0 := at_time now s).
  pose proof (session_step_ok supply secretEd id msg s0 Hi Hm1) as Hstep.
  destruct (session_step supply secretEd id msg s0) as [[[[] s1] es1]|] eqn:E1.
  - destruct Hstep as (Hi1 & Hed & _ & Hw & _). specialize (IH s1 Hi1 Hm).
    destruct (session_run id evs s1) as [[[[] s2] es2]|].
    + destruct IH as [IH1 IH2]. split; [done|]. cbn [app]. rewrite wrote_app. apply Forall_app. split; [done|].
      rewrite Hed in IH2. done.
    + destruct IH as (evs1 & evs2 & s2 & es2 & now' & msg' & -> & E2 & Ep).
      exists ((now, msg) :: evs1), evs2, s2, ([] ++ es1 ++ es2), now', msg'. split_and!; [done| |done].
      cbn [session_run]. unfold mbind, act_bind, act_modify. fold s0. by rewrite E1, E2.
  - destruct Hstep as (m & -> & Ep). by exists [], evs, s, [], now, m.
Qed.

(** The other side of a session can stop this node: whatever the session's
    state is, a payload of 23 to 31 bytes, sealed with the key pair it has
    announced as its next one and the highest nonce, makes the session panic. *)
Theorem short_payload_panics `{!NaclBoxLaws} id s nextPriv payload : session_ok (s_info s) ->
  let info := s_info s in let n := 2 ^ 64 - 1 in
  ss_next info = box_public nextPriv -> ss_nextSendNonce info < n -> (23 <= length payload < 32)%nat ->
  session_step supply secretEd id
    (MsgRecv (boxSeal (traffic_header (u64 (ss_remoteKeySeq info + 1)) (ss_localKeySeq info) n) payload n
       (getShared (ss_sendPub info) nextPriv))) s = None.
Proof.
  intros Hi info n Hnext Hn Hl. pose proof Hi as ((_ & _ & Hsh & _) & (_ & Hpub & _) & (_ & HR & HL & _)).
  assert (getShared (ss_sendPub info) nextPriv = key_shared RecvNextSend info) as ->.
  { cbn [key_shared]. unfold info. rewrite Hsh. unfold info in Hnext. rewrite Hnext, Hpub. apply box_precompute_comm. }
  pose proof (doRecv_eq supply secretEd id (boxSeal (traffic_header (u64 (ss_remoteKeySeq info + 1)) (ss_localKeySeq info) n)
    payload n (key_shared RecvNextSend info)) s) as Ho.
  rewrite (recv_sealed info RecvNextSend) in Ho.
  - destruct (Nat.ltb_spec (length payload) boxPubSize) as [|Hp]; [done|]. unfold boxPubSize in Hp. lia.
  - apply u64_range.
  - done.
  - by unfold n, is_u64.
  - unfold key_for. cbv zeta. rewrite !Z.eqb_refl. cbn [andb].
    pose proof (u64_succ_ne (ss_remoteKeySeq info) HR). destruct (Z.eqb_spec (u64 (ss_remoteKeySeq info + 1)) (ss_remoteKeySeq info)); done.
  - done.
  - unfold traffic_header, AppendUvarint. cbn [app length]. rewrite !length_app.
    assert (length (uvarint_bytes 10 n) = 10%nat) as -> by reflexivity.
    pose proof (uvarint_bytes_length 10 (u64 (ss_remoteKeySeq info + 1))). pose proof (uvarint_bytes_length 10 (ss_localKeySeq info)).
    unfold sessionTrafficOverheadMin, boxOverhead, boxPubSize. lia.
Qed.

(** ** Nonces *)

Lemma run_keys_mono `{!NaclBoxLaws} id : forall evs s s' es, session_ok (s_info s) -> Forall sessionMsg_ok (map snd evs) ->
  session_run id evs s = Some (tt, s', es) -> (se_keys (s_env s) <= se_keys (s_env s'))%nat.
Proof.
  induction evs as [|[now msg] evs IH]; intros s s' es Hi Hm E; [by injection E as <- <-|].
  apply Forall_cons in Hm as [Hm1 Hm]. apply session_run_cons in E as (s1 & es1 & es2 & E1 & E2 & _).
  pose proof (session_step_ok supply secretEd id msg (at_time now s) Hi Hm1) as Hstep. rewrite E1 in Hstep.
  destruct Hstep as (Hi1 & _ & Hk1 & _). specialize (IH _ _ _ Hi1 Hm E2). cbn in Hk1. lia.
Qed.

Lemma run_seals `{!NaclBoxLaws} keys id : (forall i j, (i < keys)%nat -> (j < keys)%nat -> supply i = supply j -> i = j) ->
  forall evs s s' es used, session_ok (s_info s) -> Forall sessionMsg_ok (map snd evs) ->
  session_run id evs s = Some (tt, s', es) -> (se_keys (s_env s') <= keys)%nat ->
  sess_keys_inv supply keys s used -> seals_fresh supply keys s' used (wrote es).
Proof.
  intros Hd. induction evs as [|[now msg] evs IH]; intros s s' es used Hi Hm E Hk Hu.
  { injection E as <- <-. by apply seals_none. }
  apply Forall_cons in Hm as [Hm1 Hm]. apply session_run_cons in E as (s1 & es1 & es2 & E1 & E2 & ->).
  pose proof (session_step_ok supply secretEd id msg (at_time now s) Hi Hm1) as Hstep. rewrite E1 in Hstep.
  destruct Hstep as (Hi1 & _ & Hk1 & _). pose proof (run_keys_mono id _ _ _ _ Hi1 Hm E2) as Hk2.
  destruct (session_step_seals supply secretEd keys Hd id msg (at_time now s) s1 es1 used ltac:(lia) Hi Hu E1) as (l1 & W1 & N1 & D1 & K1).
  destruct (IH _ _ _ _ Hi1 Hm E2 Hk K1) as (l2 & W2 & N2 & D2 & K2).
  exists (l1 ++ l2). rewrite wrote_app, !map_app, W1, W2. split_and!; [done| | |].
  - apply NoDup_app. split_and!; [done| |done]. intros x H1x H2x. apply (D2 x H2x). set_solver.
  - intros x [Hx|Hx]%elem_of_app; [by apply D1|]. specialize (D2 x Hx). set_solver.
  - by rewrite app_assoc.
Qed.

(** C6: no key is used twice with the same nonce: in every run, everything that
    the session writes was sealed, each with a private key and a nonce that
    nothing else of the run was sealed with (traffic, inits and acks, across
    rotations, updates and an overflow of the nonce), if the generated keys are
    all different. *)
Theorem seals_never_repeat `{!NaclBoxLaws} id evs s s' es : session_ok (s_info s) -> Forall sessionMsg_ok (map snd evs) ->
  session_run id evs s = Some (tt, s', es) ->
  (forall i j, (i < se_keys (s_env s'))%nat -> (j < se_keys (s_env s'))%nat -> supply i = supply j -> i = j) ->
  ss_sendPriv (s_info s) <> ss_nextPriv (s_info s) ->
  (forall j, (se_keys (s_env s) <= j < se_keys (s_env s'))%nat ->
    supply j <> ss_sendPriv (s_info s) /\ supply j <> ss_nextPriv (s_info s)) ->
  exists seals, map snd (wrote es) = map seal_bytes seals /\ NoDup (map seal_key seals).
Proof.
  intros Hi Hm E Hd Ha Hf.
  destruct (run_seals _ id Hd evs s s' es [] Hi Hm E (Nat.le_refl _)) as (seals & Hw & Hn & _); [|by exists seals].
  split; [done|done|]. intros p n. set_solver.
Qed.

End safety.

(** ** Concrete sessions *)

Definition w_secret : edPriv := array_of 64 (be_bytes 4 7).

(** A session with the node of key 9, whose box keys are [w_supply 100] and
    [w_supply 101]. *)
Definition w_session : sess :=
  MkSess
    (@newSession toy_box 0 (@supply_pair toy_box w_supply 0) (@supply_pair toy_box w_supply 1) (@supply_pair toy_box w_supply 2)
      (array_of 32 [Byte.x09]) (edPub_toBox (w_supply 100)) (edPub_toBox (w_supply 101)) 50)
    (MkSenv 0 3 0).
(** The same, just after a rotation. *)
Definition w_rotated : sess := MkSess (set_ss_rotated (Some 0) (s_info w_session)) (s_env w_session).

(** A message that the node seals. *)
Definition w_message (info : sessionInfo) (b : recvKey) (lks rks nonce : Z) (data : list byte) : list byte :=
  @boxSeal toy_box (traffic_header lks rks nonce) (arr_list (edPub_toBox (w_supply 102)) ++ data) nonce (key_shared b info).

Definition w_hello : list byte := [Byte.x68; Byte.x69].
Definition w_first : list byte := w_message (s_info w_session) RecvNextSend 1 0 1 w_hello.

Lemma w_session_ok : @session_ok toy_box (s_info w_session).
Proof. apply newSession_ok. Qed.
Lemma w_rotated_ok : @session_ok toy_box (s_info w_rotated).
Proof. apply set_ss_rotated_ok, newSession_ok. Qed.

(** The first message is replayed, answered and followed by another. *)
Definition w_events : list (Z * sessionMsg) :=
  [(1, MsgRecv w_first); (2, MsgRecv w_first); (3, MsgSend w_hello); (4, MsgRecv w_first)].

Lemma no_replay_witness : exists s' es,
  @session_run seed_ed25519 toy_box w_supply w_secret 0 w_events w_session = Some (tt, s', es) /\
  (NoDup (@opened seed_ed25519 toy_box w_supply w_secret 0 w_events w_session) /\
   length (delivered es) = length (@opened seed_ed25519 toy_box w_supply w_secret 0 w_events w_session)) /\
  delivered es = [(ss_ed (s_info w_session), w_hello)].
Proof.
  eexists _, _. split; [vm_compute; reflexivity|].
  split; [|vm_compute; reflexivity].
  eapply (@no_replay seed_ed25519 toy_box w_supply w_secret toy_box_laws 0 w_events w_session).
  - repeat constructor.
  - vm_compute. reflexivity.
  - unfold counters_below; vm_compute; repeat split; discriminate || reflexivity.
  - intros rks l1 n1 l2 n2.
    assert (@opened seed_ed25519 toy_box w_supply w_secret 0 w_events w_session = [(1, 0, 1)]) as -> by (vm_compute; reflexivity).
    intros [= _ -> _]%list_elem_of_singleton [= _ -> _]%list_elem_of_singleton. done.
Defined.

Definition w_init : sessionInit := MkInit (edPub_toBox (w_supply 101)) (edPub_toBox (w_supply 102)) 1 60.

Lemma session_safe_witness :
  match @session_run seed_ed25519 toy_box w_supply w_secret 0 w_events w_session with
  | Some (_, s', es) => @session_ok toy_box (s_info s') /\ Forall (fun p => p.1 = ss_ed (s_info w_session)) (wrote es)
  | None => exists evs1 evs2 s1 es1 now msg, w_events = evs1 ++ (now, MsgRecv msg) :: evs2 /\
      @session_run seed_ed25519 toy_box w_supply w_secret 0 evs1 w_session = Some (tt, s1, es1) /\
      @recv_outcome toy_box (s_info s1) msg = RecvPanics
  end.
Proof.
  apply (@session_safe seed_ed25519 toy_box w_supply w_secret toy_box_laws 0 w_events w_session).
  - exact w_session_ok.
  - repeat constructor.
Defined.

Lemma seals_never_repeat_witness : exists s' es,
  @session_run seed_ed25519 toy_box w_supply w_secret 0 w_events w_session = Some (tt, s', es) /\
  exists seals, map snd (wrote es) = map (@seal_bytes toy_box) seals /\ NoDup (map seal_key seals).
Proof.
  eexists _, _. split; [vm_compute; reflexivity|].
  eapply (@seals_never_repeat seed_ed25519 toy_box w_supply w_secret toy_box_laws 0 w_events w_session).
  - exact w_session_ok.
  - repeat constructor.
  - vm_compute. reflexivity.
  - cbn [se_keys s_env]. intros i j Hi Hj. apply w_supply_inj; lia.
  - change (w_supply 1 <> w_supply 2). intros E%w_supply_inj; lia.
  - cbn [se_keys s_env w_session]. intros j Hj.
    change (w_supply j <> w_supply 1 /\ w_supply j <> w_supply 2). split; intros E%w_supply_inj; lia.
Defined.
