(* ===== verification/FirstContact.v ===== *)
(** * First contact

    Two nodes without a session: a message written by one starts the handshake
    of [ironwood/encrypted/session.go], at whose end it is delivered to the
    other. *)

From S2P Require Import Prelude Crypto Wire Binary E2c Box SessionInit RouterState RouterCost Session SessionManager SessionSteps SessionInv.

(** A node's keys and its supply of key pairs. *)
Record node := MkNode { n_supply : nat -> boxPriv; n_secret : edPriv }.

Section contact.
Context `{Ed25519} `{NaclBox} `{Sha512}.

Definition n_pub (n : node) : edPub := edPriv_pub (n_secret n).

(** The sessions handle what was posted to them, in order. *)
Fixpoint run_posts (n : node) (es : list sessionEffect) : M_ unit :=
  match es with
  | [] => kret tt
  | SPost id msg :: es => _ ← on_session (n_supply n) (n_secret n) id msg; run_posts n es
  | _ :: es => run_posts n es
  end.

(** The manager handles an event at a time, and the sessions what follows. *)
Definition node_step (n : node) (now : Z) (ev : mgrEvent) : M_ unit := fun m =>
  match (_ ← mgr_step (n_supply n) (n_secret n) (edPriv_toBox (n_secret n)) (MgrTime now);
         mgr_step (n_supply n) (n_secret n) (edPriv_toBox (n_secret n)) ev) m with
  | None => None
  | Some (_, m1, es1) =>
      match run_posts n es1 m1 with
      | None => None
      | Some (_, m2, es2) => Some (tt, m2, es1 ++ es2)
      end
  end.

(** ** Steps *)

(** A step of one session: what it and the clock become, what is written and
    delivered. *)
Definition session_at (m : sessionManager) (id : nat) (info : sessionInfo) : Prop :=
  exists i, m_heap m !! id = Some i /\ core_of i = core_of info.

Definition steps_to (r : option (unit * sessionManager * list sessionEffect)) (m : sessionManager) (id : nat)
    (info : sessionInfo) (k : nat) (w d : list (edPub * list byte)) : Prop :=
  exists m' es, r = Some (tt, m', es) /\ m_sessions m' = m_sessions m /\ m_buffers m' = m_buffers m /\
    session_at m' id info /\ se_keys (m_env m') = k /\ se_now (m_env m') = se_now (m_env m) /\
    wrote es = w /\ delivered es = d.

Lemma on_session_steps n id msg m i info' s' es k w d :
  m_heap m !! id = Some i -> session_step (n_supply n) (n_secret n) id msg (MkSess i (m_env m)) = Some (tt, s', es) ->
  core_of (s_info s') = core_of info' -> se_keys (s_env s') = k -> se_now (s_env s') = se_now (m_env m) ->
  wrote es = w -> delivered es = d ->
  steps_to (on_session (n_supply n) (n_secret n) id msg m) m id info' k w d.
Proof.
  intros E1 E2 Hc Hk Hn Hw Hd. eexists _, es. split; [unfold on_session; by rewrite E1, E2|].
  split_and!; try done. eexists. split; [apply lookup_insert_eq|done].
Qed.

Section laws.
Context `{!NaclBoxLaws} (n : node).
Implicit Types (m : sessionManager) (info : sessionInfo).

Lemma steps_start id m info : session_at m id info ->
  steps_to (on_session (n_supply n) (n_secret n) id MsgStart m) m id info (se_keys (m_env m)) [] [].
Proof.
  intros (i & E & Hc). destruct (resetTimer_eq id (MkSess i (m_env m))) as (s' & es & E' & Hc' & ? & ? & ? & ?).
  apply (on_session_steps n id MsgStart m i info s' es); try done. by rewrite Hc'.
Qed.

Lemma steps_init id init m info : session_at m id info -> ss_seq info < si_seq init ->
  let info' := after_update (n_supply n) (se_keys (m_env m)) init info in
  steps_to (on_session (n_supply n) (n_secret n) id (MsgInit init) m) m id info' (S (S (se_keys (m_env m))))
    [(ss_ed info, announce (n_supply n) (n_secret n) sessionTypeAck (S (se_keys (m_env m))) (se_now (m_env m)) info')] [].
Proof.
  intros (i & E & Hc) Hs info'. pose proof (f_equal ss_seq Hc : ss_seq i = ss_seq info) as Hseq.
  pose proof (f_equal ss_ed Hc : ss_ed i = ss_ed info) as Hed.
  destruct (handleInit_eq (n_supply n) (n_secret n) id init (MkSess i (m_env m))) as (s' & es & E' & Hc' & Hk & Hn & Hw & Hd).
  { cbn. lia. }
  cbn [s_info s_env] in *. pose proof (core_update (n_supply n) (se_keys (m_env m)) init _ _ Hc) as Hu.
  apply (on_session_steps n id (MsgInit init) m i info' s' es); try done; [by rewrite Hc', Hu|].
  rewrite Hw. do 2 f_equal; [done|]. by apply core_announce.
Qed.

Lemma steps_ack id ack m info : session_at m id info ->
  let fresh := bool_decide (ss_seq info < si_seq ack) in
  steps_to (on_session (n_supply n) (n_secret n) id (MsgAck ack) m) m id
    (if fresh then after_update (n_supply n) (se_keys (m_env m)) ack info else info)
    (if fresh then S (se_keys (m_env m)) else se_keys (m_env m)) [] [].
Proof.
  intros (i & E & Hc) fresh. pose proof (f_equal ss_seq Hc : ss_seq i = ss_seq info) as Hseq. unfold fresh.
  destruct (Z.leb_spec (si_seq ack) (ss_seq info)) as [Hs|Hs].
  - rewrite bool_decide_false by lia.
    apply (on_session_steps n id (MsgAck ack) m i info (MkSess i (m_env m)) []); try done.
    cbn [session_step]. unfold session_handleAck. rewrite gets_bind. cbn [s_info].
    destruct (Z.leb_spec (si_seq ack) (ss_seq i)); [done|lia].
  - rewrite bool_decide_true by lia.
    destruct (handleUpdate_eq (n_supply n) id ack (MkSess i (m_env m))) as (s' & es & E' & Hc' & Hk & Hn & Hw & Hd).
    apply (on_session_steps n id (MsgAck ack) m i _ s' es); try done.
    + cbn [session_step]. unfold session_handleAck. rewrite gets_bind. cbn [s_info].
      destruct (Z.leb_spec (si_seq ack) (ss_seq i)); [lia|done].
    + rewrite Hc'. by apply core_update.
Qed.

Lemma steps_send id msg m info : session_at m id info ->
  let info' := after_send (n_supply n) (se_keys (m_env m)) info in
  steps_to (on_session (n_supply n) (n_secret n) id (MsgSend msg) m) m id info'
    (se_keys (m_env m) + send_keys info)%nat [(ss_ed info, sealed_traffic info' msg)] [].
Proof.
  intros (i & E & Hc) info'. pose proof (f_equal ss_ed Hc : ss_ed i = ss_ed info) as Hed.
  pose proof (f_equal ss_sendNonce Hc : ss_sendNonce i = ss_sendNonce info) as Hn'.
  destruct (doSend_eq (n_supply n) id msg (MkSess i (m_env m))) as (s' & es & E' & Hc' & Hk & Hn & Hw & Hd).
  cbn [s_info s_env] in *. pose proof (core_send (n_supply n) (se_keys (m_env m)) _ _ Hc) as Hu.
  apply (on_session_steps n id (MsgSend msg) m i info' s' es); try done.
  - by rewrite Hc', Hu.
  - rewrite Hk. unfold send_keys. by rewrite Hn'.
  - rewrite Hw. do 2 f_equal; [done|]. by apply core_sealed.
Qed.

Lemma steps_recv id msg m info b rks lks nonce key data : session_at m id info ->
  recv_outcome info msg = RecvOpened b rks lks nonce key data ->
  exists info' k', steps_to (on_session (n_supply n) (n_secret n) id (MsgRecv msg) m) m id info' k' [] [(ss_ed info, data)].
Proof.
  intros (i & E & Hc) Ho. pose proof (f_equal ss_ed Hc : ss_ed i = ss_ed info) as Hed.
  pose proof (doRecv_eq (n_supply n) (n_secret n) id msg (MkSess i (m_env m))) as Hr. cbn [s_info] in Hr.
  rewrite (core_recv msg _ _ Hc), Ho in Hr. destruct Hr as (s' & es & E' & _ & _ & Hn & Hw & Hd).
  exists (s_info s'), (se_keys (s_env s')). apply (on_session_steps n id (MsgRecv msg) m i _ s' es); try done.
  rewrite Hd. cbn [s_info]. by rewrite Hed.
Qed.

Lemma steps_then id msg es m info1 k1 w1 d1 info2 k2 w2 d2 :
  steps_to (on_session (n_supply n) (n_secret n) id msg m) m id info1 k1 w1 d1 ->
  (forall m1, session_at m1 id info1 -> se_keys (m_env m1) = k1 -> se_now (m_env m1) = se_now (m_env m) ->
    steps_to (run_posts n es m1) m1 id info2 k2 w2 d2) ->
  steps_to (run_posts n (SPost id msg :: es) m) m id info2 k2 (w1 ++ w2) (d1 ++ d2).
Proof.
  intros (m1 & es1 & E1 & S1 & B1 & H1' & K1 & N1 & <- & <-) Hnext.
  destruct (Hnext m1 H1' K1 N1) as (m2 & es2 & E2 & S2 & B2 & H2' & K2 & N2 & <- & <-).
  exists m2, (es1 ++ es2). cbn [run_posts]. unfold mbind, act_bind. rewrite E1, E2.
  split_and!; try congruence; try done; [by rewrite wrote_app|by rewrite delivered_app].
Qed.

Lemma steps_done id m info : session_at m id info -> steps_to (run_posts n [] m) m id info (se_keys (m_env m)) [] [].
Proof. intros Hs. exists m, []. by split_and!. Qed.

(** A single message. *)
Lemma steps_one id msg m info k w d :
  steps_to (on_session (n_supply n) (n_secret n) id msg m) m id info k w d ->
  steps_to (run_posts n [SPost id msg] m) m id info k w d.
Proof.
  intros Hs. rewrite <- (app_nil_r w), <- (app_nil_r d). eapply steps_then; [done|].
  intros m1 Hm1 <- _. by apply steps_done.
Qed.

(** ** The manager *)

Definition with_time (now : Z) (m : sessionManager) : sessionManager :=
  set_m_env (MkSenv now (se_keys (m_env m)) (se_timer (m_env m))) m.

Lemma node_step_eq now ev m m1 es1 m2 es2 :
  mgr_step (n_supply n) (n_secret n) (edPriv_toBox (n_secret n)) ev (with_time now m) = Some (tt, m1, es1) ->
  run_posts n es1 m1 = Some (tt, m2, es2) -> node_step n now ev m = Some (tt, m2, es1 ++ es2).
Proof.
  intros E1 E2. unfold node_step, mbind, act_bind. cbn [mgr_step]. unfold act_modify. fold (with_time now m).
  rewrite E1. cbn [app]. by rewrite E2.
Qed.

(** Data for a node without session and buffer is kept, and an init sent. *)
Definition first_init (now : Z) (k : nat) : sessionInit :=
  newSessionInit now (box_public (n_supply n k)) (box_public (n_supply n (S k))) 0.

Definition buffered (m : sessionManager) (dest : edPub) (now : Z) (k : nat) (msg : option (list byte)) : Prop :=
  exists buf, m_buffers m !! dest = Some buf /\ sb_data buf = msg /\ sb_init buf = first_init now k /\
    sb_currentPriv buf = n_supply n k /\ sb_nextPriv buf = n_supply n (S k).

Lemma write_first now dest msg m : m_sessions m !! dest = None -> m_buffers m !! dest = None ->
  let k := se_keys (m_env m) in
  exists m' es, node_step n now (MgrWrite dest msg) m = Some (tt, m', es) /\
    m_sessions m' = m_sessions m /\ buffered m' dest now k msg /\
    wrote es = [(dest, init_data sessionTypeInit (n_supply n (S (S k))) (first_init now k) (n_secret n) dest)] /\
    delivered es = [].
Proof.
  intros Hs Hb k. destruct (encrypt_init (n_supply n (S (S k))) (first_init now k) (n_secret n) dest) as [E _].
  eexists _, _. split.
  - eapply node_step_eq.
    + cbn [mgr_step]. unfold mgr_writeTo, bufferAndInit, mgr_sendInit, mgr_newBoxKeys, mgr_AfterFunc, new_pointer.
      unfold mbind, act_bind, act_gets, act_modify, act_emit. cbn. rewrite Hs. cbn. rewrite Hb. cbn.
      fold k. fold (first_init now k). rewrite E. reflexivity.
    + reflexivity.
  - cbn. split_and!; try done. eexists. split; [apply lookup_insert_eq|done].
Qed.

(** A handshake message for this node is understood. *)
Lemma handle_init_data `{!Ed25519Laws, !KeysAgree} ty fromPriv init from m : ed_valid from -> ed_valid (n_secret n) ->
  init_ok init -> ty = sessionTypeInit \/ ty = sessionTypeAck ->
  handleData (n_supply n) (n_secret n) (edPriv_toBox (n_secret n)) (edPriv_pub from)
    (init_data ty fromPriv init from (n_pub n)) m =
  (if bool_decide (ty = sessionTypeInit) then mgr_handleInit (n_supply n) (edPriv_pub from) init m
   else mgr_handleAck (n_supply n) (edPriv_pub from) init m).
Proof.
  intros Hf Hn Hi Ht. pose proof (decrypt_data ty fromPriv init from (n_secret n) Hf Hn Hi) as E.
  unfold handleData. unfold n_pub. destruct (init_data ty fromPriv init from _) as [|ty' data] eqn:Ed; [done|].
  assert (ty' = ty) as -> by (unfold init_data in Ed; injection Ed; done). rewrite E. by destruct Ht as [-> | ->].
Qed.

(** An ack for a node without session is handled as an init. *)
Lemma handleAck_new pub ack m : m_sessions m !! pub = None ->
  mgr_handleAck (n_supply n) pub ack m = mgr_handleInit (n_supply n) pub ack m.
Proof.
  intros Hs. unfold mgr_handleAck. rewrite gets_bind. rewrite Hs, bool_decide_false by by intros [].
  done.
Qed.

(** The session that a handshake message creates. *)
Definition new_info (now : Z) (k : nat) (pub : edPub) (init : sessionInit) : sessionInfo :=
  newSession now (supply_pair (n_supply n) k) (supply_pair (n_supply n) (S k)) (supply_pair (n_supply n) (S (S k)))
    pub (si_current init) (si_next init) (si_seq init).

Lemma handleInit_new pub init m ob : m_sessions m !! pub = None -> m_buffers m !! pub = ob ->
  let id := m_next m in let k := se_keys (m_env m) in
  let info := new_info (se_now (m_env m)) k pub init in
  exists m' stops, mgr_handleInit (n_supply n) pub init m = Some (tt, m',
      [SPost id MsgStart] ++ stops ++ [SPost id (MsgInit init)] ++
      match ob with Some buf => match sb_data buf with Some data => [SPost id (MsgSend data)] | None => [] end | None => [] end) /\
    (stops = [] \/ exists t, stops = [SStopTimer t]) /\
    m_sessions m' !! pub = Some id /\ se_keys (m_env m') = S (S (S k)) /\ se_now (m_env m') = se_now (m_env m) /\
    m_heap m' !! id = Some (match ob with Some buf => adopt_buffer buf info | None => info end).
Proof.
  intros Hs Hb id k info. unfold mgr_handleInit, sessionForInit, mgr_newSession, mgr_newBoxKeys, new_pointer.
  unfold mbind, act_bind, act_gets, act_modify, act_emit. cbn. rewrite Hs. cbn. rewrite Hb.
  destruct ob as [buf|]; cbn.
  - destruct (sb_data buf) as [data|]; cbn; eexists _, [SStopTimer (sb_timer buf)]; (split; [reflexivity|]); cbn.
    all: split_and!; try done; [by right; eexists|by rewrite lookup_insert_eq|].
    all: by rewrite lookup_alter_eq, lookup_insert_eq.
  - eexists _, []. split; [reflexivity|]. cbn. split_and!; try done; [by left|by rewrite lookup_insert_eq|].
    by rewrite lookup_insert_eq.
Qed.

Lemma new_info_seq now k pub init : 0 < si_seq init < 2 ^ 64 -> ss_seq (new_info now k pub init) < si_seq init.
Proof. intros Hs. cbn. rewrite u64_small by (unfold is_u64; lia). lia. Qed.

(** The end of a step of the manager whose posts are for one session. *)
Lemma node_steps now ev m m1 es1 id info k w d : wrote es1 = [] -> delivered es1 = [] ->
  mgr_step (n_supply n) (n_secret n) (edPriv_toBox (n_secret n)) ev (with_time now m) = Some (tt, m1, es1) ->
  m_sessions m1 !! (ss_ed info) = Some id ->
  steps_to (run_posts n es1 m1) m1 id info k w d ->
  exists m' es, node_step n now ev m = Some (tt, m', es) /\ m_sessions m' !! (ss_ed info) = Some id /\
    session_at m' id info /\ se_keys (m_env m') = k /\ wrote es = w /\ delivered es = d.
Proof.
  intros Hw Hd E1 Hs (m2 & es2 & E2 & S2 & _ & A2 & K2 & _ & <- & <-).
  exists m2, (es1 ++ es2). split; [by eapply node_step_eq|].
  rewrite wrote_app, delivered_app, Hw, Hd, S2. by split_and!.
Qed.

Lemma run_stops stops es m : stops = [] \/ (exists t, stops = [SStopTimer t]) ->
  run_posts n (stops ++ es) m = run_posts n es m.
Proof. by intros [-> | [t ->]]. Qed.

Context `{!Ed25519Laws, !KeysAgree}.

(** A first init is answered with an ack. *)
Lemma init_arrives now fromPriv init from m : ed_valid from -> ed_valid (n_secret n) -> init_ok init -> 0 < si_seq init ->
  let pub := edPriv_pub from in let k := se_keys (m_env m) in
  let info := after_update (n_supply n) (S (S (S k))) init (new_info now k pub init) in
  m_sessions m !! pub = None -> m_buffers m !! pub = None ->
  exists m' es id, node_step n now (MgrData pub (init_data sessionTypeInit fromPriv init from (n_pub n))) m = Some (tt, m', es) /\
    m_sessions m' !! pub = Some id /\ session_at m' id info /\
    wrote es = [(pub, announce (n_supply n) (n_secret n) sessionTypeAck (S (S (S (S k)))) now info)] /\ delivered es = [].
Proof.
  intros Hf Hn Hi Hseq pub k info Hs Hb.
  destruct (handleInit_new pub init (with_time now m) None Hs Hb) as (m1 & stops & E1 & Hst & Hs1 & K1 & N1 & H1').
  change (se_keys (m_env m1) = S (S (S k))) in K1. change (se_now (m_env m1) = now) in N1.
  set (id := m_next (with_time now m)) in *.
  destruct (node_steps now (MgrData pub (init_data sessionTypeInit fromPriv init from (n_pub n))) m m1
    ([SPost id MsgStart] ++ stops ++ [SPost id (MsgInit init)] ++ []) id info (S (S (S (S (S k)))))
    [(pub, announce (n_supply n) (n_secret n) sessionTypeAck (S (S (S (S k)))) now info)] [])
    as (m' & es & E & Hs' & Hat & _ & Hw & Hd).
  - by destruct Hst as [-> | [t ->]].
  - by destruct Hst as [-> | [t ->]].
  - cbn [mgr_step]. unfold pub. rewrite handle_init_data by auto. by rewrite bool_decide_true.
  - done.
  - cbn [app]. apply (steps_then id MsgStart _ m1 (new_info now k pub init) (S (S (S k))) [] []).
    { rewrite <- K1. apply steps_start. by eexists. }
    intros m2 A2 K2 N2. rewrite run_stops by done. apply steps_one.
    pose proof (steps_init id init m2 _ A2 (new_info_seq _ _ _ _ (conj Hseq (proj2 (proj2 Hi))))) as Hstep.
    rewrite K2, N2, N1 in Hstep. exact Hstep.
  - by exists m', es, id.
Qed.

(** The first ack completes the session, which sends the data that waited. *)
Definition adopted (now : Z) (k0 : nat) (info : sessionInfo) : sessionInfo :=
  let init := first_init now k0 in
  fixShared 0 0 (set_ss_next (si_next init) (n_supply n (S k0)) (set_ss_send (si_current init) (n_supply n k0) info)).

Lemma ack_arrives now then_ k0 fromPriv ack from msg m : ed_valid from -> ed_valid (n_secret n) -> init_ok ack ->
  0 < si_seq ack ->
  let pub := edPriv_pub from in let k := se_keys (m_env m) in
  let info := after_update (n_supply n) (S (S (S k))) ack (adopted then_ k0 (new_info now k pub ack)) in
  let info' := after_send (n_supply n) (S (S (S (S (S k))))) info in
  m_sessions m !! pub = None -> buffered m pub then_ k0 (Some msg) ->
  exists m' es, node_step n now (MgrData pub (init_data sessionTypeAck fromPriv ack from (n_pub n))) m = Some (tt, m', es) /\
    wrote es = [(pub, announce (n_supply n) (n_secret n) sessionTypeAck (S (S (S (S k)))) now info);
                (pub, sealed_traffic info' msg)] /\ delivered es = [].
Proof.
  intros Hf Hn Hi Hseq pub k info info' Hs (buf & Hb & Bd & Bi & Bc & Bn).
  destruct (handleInit_new pub ack (with_time now m) (Some buf) Hs Hb) as (m1 & stops & E1 & Hst & Hs1 & K1 & N1 & H1').
  change (se_keys (m_env m1) = S (S (S k))) in K1. change (se_now (m_env m1) = now) in N1.
  set (id := m_next (with_time now m)) in *. rewrite Bd in E1.
  destruct (node_steps now (MgrData pub (init_data sessionTypeAck fromPriv ack from (n_pub n))) m m1
    ([SPost id MsgStart] ++ stops ++ [SPost id (MsgInit ack)] ++ [SPost id (MsgSend msg)]) id info'
    (S (S (S (S (S k)))) + send_keys info)%nat
    [(pub, announce (n_supply n) (n_secret n) sessionTypeAck (S (S (S (S k)))) now info); (pub, sealed_traffic info' msg)] [])
    as (m' & es & E & Hs' & Hat & _ & Hw & Hd).
  - by destruct Hst as [-> | [t ->]].
  - by destruct Hst as [-> | [t ->]].
  - cbn [mgr_step]. unfold pub. rewrite handle_init_data by auto. rewrite bool_decide_false by done.
    by rewrite handleAck_new.
  - exact Hs1.
  - cbn [app]. change (m_heap m1 !! id = Some (adopt_buffer buf (new_info now k pub ack))) in H1'.
    set (info0 := adopt_buffer buf (new_info now k pub ack)) in H1' |- *.
    assert (info0 = adopted then_ k0 (new_info now k pub ack)) as Ea.
    { unfold info0, adopt_buffer, adopted. by rewrite Bi, Bc, Bn. }
    apply (steps_then id MsgStart _ m1 info0 (S (S (S k))) [] []).
    { rewrite <- K1. apply steps_start. exact (ex_intro _ info0 (conj H1' eq_refl)). }
    intros m2 A2 K2 N2. rewrite run_stops by done. cbn [app].
    apply (steps_then id (MsgInit ack) [SPost id (MsgSend msg)] m2 info (S (S (S (S (S k)))))
      [(pub, announce (n_supply n) (n_secret n) sessionTypeAck (S (S (S (S k)))) now info)] []).
    { pose proof (steps_init id ack m2 info0 A2) as Hstep. rewrite K2, N2, N1, Ea in Hstep. apply Hstep.
      exact (new_info_seq now k pub ack (conj Hseq (proj2 (proj2 Hi)))). }
    intros m3 A3 K3 N3. apply steps_one. pose proof (steps_send id msg m3 info A3) as Hstep. rewrite K3 in Hstep.
    exact Hstep.
  - by exists m', es.
Qed.

(** An ack for a session. *)
Lemma ack_again now fromPriv ack from m id info : ed_valid from -> ed_valid (n_secret n) -> init_ok ack ->
  let pub := edPriv_pub from in m_sessions m !! pub = Some id -> session_at m id info -> ss_ed info = pub ->
  exists m' es k', node_step n now (MgrData pub (init_data sessionTypeAck fromPriv ack from (n_pub n))) m = Some (tt, m', es) /\
    m_sessions m' !! pub = Some id /\ wrote es = [] /\ delivered es = [] /\
    session_at m' id (if bool_decide (ss_seq info < si_seq ack) then after_update (n_supply n) k' ack info else info).
Proof.
  intros Hf Hn Hi pub Hs Hat Hed. set (m0 := with_time now m).
  pose proof (steps_ack id ack m0 info Hat) as Hstep. cbv zeta in Hstep. set (info' := if bool_decide _ then _ else info) in Hstep.
  apply steps_one in Hstep. set (k2 := if bool_decide _ then _ else _) in Hstep.
  assert (ss_ed info' = pub) as Hed' by (unfold info'; by case_bool_decide).
  destruct (node_steps now (MgrData pub (init_data sessionTypeAck fromPriv ack from (n_pub n))) m m0 [SPost id (MsgAck ack)]
    id info' k2 [] [] eq_refl eq_refl) as (m' & es & E & Hs' & Hat' & _ & Hw & Hd).
  - cbn [mgr_step]. unfold pub. rewrite handle_init_data by auto. rewrite bool_decide_false by done.
    unfold mgr_handleAck, sessionForInit. unfold mbind, act_bind, act_gets. cbn. change (m_sessions m !! edPriv_pub from = Some id) in Hs.
    rewrite Hs. by rewrite bool_decide_true.
  - by rewrite Hed'.
  - exact Hstep.
  - rewrite Hed' in Hs'. by exists m', es, (se_keys (m_env m0)).
Qed.

(** Traffic for a session. *)
Lemma traffic_arrives now m id info msg b rks lks nonce key data :
  m_sessions m !! (ss_ed info) = Some id -> session_at m id info -> head msg = Some sessionTypeTraffic ->
  recv_outcome info msg = RecvOpened b rks lks nonce key data ->
  exists m' es, node_step n now (MgrData (ss_ed info) msg) m = Some (tt, m', es) /\
    wrote es = [] /\ delivered es = [(ss_ed info, data)].
Proof.
  intros Hs Hat Hty Ho. set (m0 := with_time now m).
  destruct (steps_recv id msg m0 info b rks lks nonce key data Hat Ho) as (info' & k' & Hstep%steps_one).
  destruct Hstep as (m2 & es2 & E2 & _ & _ & _ & _ & _ & Hw & Hd).
  exists m2, ([SPost id (MsgRecv msg)] ++ es2). split_and!; [|done|done].
  apply (node_step_eq _ _ _ m0); [|done]. cbn [mgr_step]. unfold handleData. destruct msg as [|ty msg]; [done|].
  injection Hty as ->. rewrite !bool_decide_false by done. rewrite bool_decide_true by done.
  unfold mgr_handleTraffic. rewrite gets_bind. cbn [m0 with_time m_sessions set_m_env]. by rewrite Hs.
Qed.
End laws.

(** ** Two nodes *)

Lemma after_maybe_ed n k ack info (b : bool) : ss_ed (if b then after_update (n_supply n) k ack info else info) = ss_ed info.
Proof. by destruct b. Qed.

(** The session of the node that was written to, after the init. *)
Record answered (n : node) (pub : edPub) (init : sessionInit) (info : sessionInfo) : Prop := {
  answered_ed : ss_ed info = pub;
  answered_local : ss_localKeySeq info = 1;
  answered_remote : ss_remoteKeySeq info = si_keySeq init;
  answered_pub : ss_sendPub info = box_public (ss_sendPriv info);
  answered_nonce : ss_nextSendNonce info = 0;
  answered_shared : ss_nextSendShared info = getShared (si_next init) (ss_sendPriv info)
}.

Lemma new_answered n now k k' pub init :
  answered n pub init (after_update (n_supply n) k' init (new_info n now k pub init)).
Proof. by split. Qed.

(** The session of the writer, after the ack; its keys are those of the init. *)
Record completed (n : node) (k0 : nat) (pub : edPub) (ack : sessionInit) (info : sessionInfo) : Prop := {
  completed_ed : ss_ed info = pub;
  completed_local : ss_localKeySeq info = 1;
  completed_remote : ss_remoteKeySeq info = si_keySeq ack;
  completed_pub : ss_sendPub info = box_public (n_supply n (S k0));
  completed_nonce : ss_sendNonce info = 0;
  completed_shared : ss_sendShared info = getShared (si_current ack) (n_supply n (S k0))
}.

Lemma adopted_completed n now then_ k0 k k' pub ack :
  completed n k0 pub ack (after_update (n_supply n) k' ack (adopted n then_ k0 (new_info n now k pub ack))).
Proof. by split. Qed.

(** The first message of a completed session. *)
Lemma sealed_first n k info msg : ss_sendNonce info = 0 -> ss_localKeySeq info = 1 -> ss_remoteKeySeq info = 1 ->
  sealed_traffic (after_send (n_supply n) k info) msg =
    boxSeal (traffic_header 1 1 1) (arr_list (ss_nextPub info) ++ msg) 1 (ss_sendShared info).
Proof.
  intros Hn Hl Hr. unfold after_send. cbv zeta. cbn [ss_sendNonce set_ss_sendNonce]. rewrite Hn.
  rewrite (u64_small (0 + 1)) by by vm_compute.
  replace (0 + 1 =? 0) with false by done. replace (0 + 1) with 1 by done.
  unfold sealed_traffic. cbn [set_ss_sendNonce ss_localKeySeq ss_remoteKeySeq ss_sendNonce ss_sendShared ss_nextPub].
  by rewrite Hl, Hr.
Qed.

(** How it is received, by a session that has seen the last ack or not. *)
Lemma first_received `{!NaclBoxLaws} info r key msg shared : key_for info 1 1 = Some r -> key_nonce r info < 1 ->
  key_shared r info = shared ->
  recv_outcome info (boxSeal (traffic_header 1 1 1) (arr_list (key : boxPub) ++ msg) 1 shared) = RecvOpened r 1 1 1 key msg.
Proof.
  intros Hk Hn <-. rewrite recv_sealed; try done.
  - rewrite length_app, length_array. destruct (Nat.ltb_spec (32 + length msg) boxPubSize) as [Hl|]; [unfold boxPubSize in Hl; lia|].
    rewrite drop_app_length' by by rewrite length_array. f_equal.
    unfold array_of. apply array_eq. cbn [arr_list]. rewrite resize_le; [|rewrite length_app, length_array; unfold boxPubSize; lia].
    by rewrite take_app_length' by by rewrite length_array.
  - rewrite length_app, length_array. pose proof (length_traffic_header 1 1 1).
    unfold sessionTrafficOverheadMin, boxOverhead, boxPubSize in *. lia.
Qed.

Lemma received_new `{!NaclBoxLaws} n k ack info key msg shared : ss_localKeySeq info = 1 -> si_keySeq ack = 1 ->
  getShared (si_current ack) (ss_sendPriv info) = shared ->
  recv_outcome (after_update (n_supply n) k ack info)
    (boxSeal (traffic_header 1 1 1) (arr_list (key : boxPub) ++ msg) 1 shared) = RecvOpened RecvCurrent 1 1 1 key msg.
Proof.
  intros Hl Hk Hs. apply first_received; [|done|done].
  unfold key_for. change (ss_remoteKeySeq (after_update _ _ _ _)) with (si_keySeq ack).
  change (ss_localKeySeq (after_update _ _ _ _)) with (u64 (ss_localKeySeq info + 1)). by rewrite Hk, Hl.
Qed.

Lemma received_old `{!NaclBoxLaws} info key msg shared : ss_localKeySeq info = 1 -> ss_remoteKeySeq info = 0 ->
  ss_nextSendNonce info = 0 -> ss_nextSendShared info = shared ->
  recv_outcome info (boxSeal (traffic_header 1 1 1) (arr_list (key : boxPub) ++ msg) 1 shared) =
    RecvOpened RecvNextSend 1 1 1 key msg.
Proof.
  intros Hl Hr Hn Hs. apply first_received; [|cbn; by rewrite Hn|done]. unfold key_for. by rewrite Hl, Hr.
Qed.

(** The five steps of a first contact. *)
Definition first_contact (a b : node) (mA mB : sessionManager) (msg : list byte) (t1 t2 t3 t4 t5 : Z) : Prop :=
  exists mA1 mA2 mB1 mB2 mB3 es1 es2 es3 es4 es5 init ack ack' traffic,
    node_step a t1 (MgrWrite (n_pub b) (Some msg)) mA = Some (tt, mA1, es1) /\ wrote es1 = [(n_pub b, init)] /\
    node_step b t2 (MgrData (n_pub a) init) mB = Some (tt, mB1, es2) /\ wrote es2 = [(n_pub a, ack)] /\
    node_step a t3 (MgrData (n_pub b) ack) mA1 = Some (tt, mA2, es3) /\
    wrote es3 = [(n_pub b, ack'); (n_pub b, traffic)] /\
    node_step b t4 (MgrData (n_pub a) ack') mB1 = Some (tt, mB2, es4) /\ wrote es4 = [] /\
    node_step b t5 (MgrData (n_pub a) traffic) mB2 = Some (tt, mB3, es5) /\ wrote es5 = [] /\
    delivered (es1 ++ es2 ++ es3 ++ es4) = [] /\ delivered es5 = [(n_pub a, msg)].

(** C4: a message for a node there is no session with is delivered: the writer
    keeps it and sends an init, the other node answers with an ack, the writer
    completes the session and sends an ack and the message, and the other node
    hands exactly that message to its application, whatever the two clocks say
    and even if the last ack is too old to be used; nothing else is delivered on
    the way. *)
Theorem first_contact_delivers `{!NaclBoxLaws, !Ed25519Laws, !KeysAgree} (a b : node) mA mB msg t1 t2 t3 t4 t5 :
  ed_valid (n_secret a) -> ed_valid (n_secret b) ->
  (forall t, t ∈ [t1; t2; t3] -> 1000000000 <= t < 2 ^ 64) ->
  m_sessions mA !! n_pub b = None -> m_buffers mA !! n_pub b = None ->
  m_sessions mB !! n_pub a = None -> m_buffers mB !! n_pub a = None ->
  first_contact a b mA mB msg t1 t2 t3 t4 t5.
Proof.
  intros Ha Hb Ht SA BA SB BB.
  assert (forall t, t ∈ [t1; t2; t3] -> 0 < u64 (t / 1000000000) < 2 ^ 64) as Hu.
  { intros t H'%Ht. assert (1 <= t / 1000000000) by (apply Z.div_le_lower_bound; lia).
    assert (t / 1000000000 < 2 ^ 64) by (apply Z.div_lt_upper_bound; lia).
    rewrite u64_small by (unfold is_u64; lia). lia. }
  destruct (write_first a t1 (n_pub b) (Some msg) mA SA BA) as (mA1 & es1 & E1 & SA1 & BA1 & W1 & D1).
  set (kA := se_keys (m_env mA)) in *. set (init := first_init a t1 kA) in *.
  assert (init_ok init /\ 0 < si_seq init) as [Hi1 Hi2].
  { destruct (Hu t1) as [? ?]; [set_solver|]. repeat split; cbn; lia. }
  destruct (init_arrives b t2 (n_supply a (S (S kA))) init (n_secret a) mB Ha Hb Hi1 Hi2 SB BB)
    as (mB1 & es2 & idB & E2 & SB1 & AB1 & W2 & D2).
  set (kB := se_keys (m_env mB)) in *.
  destruct (new_answered b t2 kB (S (S (S kB))) (n_pub a) init) as [Be Bl Br Bp Bn Bs].
  fold (n_pub a) in E2, SB1, AB1, W2. set (infoB := after_update _ _ _ _) in *. clearbody infoB.
  set (ack := newSessionInit t2 (ss_sendPub infoB) (ss_nextPub infoB) (ss_localKeySeq infoB)).
  unfold announce in W2. fold ack in W2. rewrite Be in W2.
  assert (init_ok ack /\ 0 < si_seq ack) as [Hk1 Hk2].
  { destruct (Hu t2) as [? ?]; [set_solver|]. split; [split; [cbn; by rewrite Bl|apply u64_range]|done]. }
  destruct (ack_arrives a t3 t1 kA (n_supply b (S (S (S (S kB))))) ack (n_secret b) msg mA1 Hb Ha Hk1 Hk2)
    as (mA2 & es3 & E3 & W3 & D3); [by rewrite SA1|done|].
  set (kA1 := se_keys (m_env mA1)) in *. fold (n_pub b) in E3, W3.
  destruct (adopted_completed a t3 t1 kA kA1 (S (S (S kA1))) (n_pub b) ack) as [Ae Al Ar Ap An As_].
  set (infoA := after_update _ _ _ _) in *. clearbody infoA.
  set (ack' := newSessionInit t3 (ss_sendPub infoA) (ss_nextPub infoA) (ss_localKeySeq infoA)).
  unfold announce in W3. fold ack' in W3. rewrite Ae, sealed_first in W3; [|done|done|by rewrite Ar; exact Bl].
  assert (init_ok ack') as Hl1 by (split; [cbn; by rewrite Al|apply u64_range]).
  destruct (ack_again b t4 (n_supply a (S (S (S (S kA1))))) ack' (n_secret a) mB1 idB infoB Ha Hb Hl1 SB1 AB1 Be)
    as (mB2 & es4 & k' & E4 & SB2 & W4 & D4 & AB2). fold (n_pub a) in E4, SB2.
  set (infoB' := if bool_decide _ then _ else _) in AB2. set (traffic := boxSeal _ _ _ _) in W3.
  assert (exists r, recv_outcome infoB' traffic = RecvOpened r 1 1 1 (ss_nextPub infoA) msg) as [r Ho].
  { assert (getShared (box_public (n_supply a (S kA))) (ss_sendPriv infoB) = ss_sendShared infoA) as Hsh.
    { rewrite As_. cbn [ack newSessionInit si_current]. rewrite Bp. apply box_precompute_comm. }
    unfold infoB'. case_bool_decide as Hf.
    - exists RecvCurrent. apply received_new; [done|exact Al|]. cbn [ack' newSessionInit si_current]. by rewrite Ap.
    - exists RecvNextSend. apply received_old; [done|done|done|]. by rewrite Bs. }
  assert (ss_ed infoB' = n_pub a) as Hed by (rewrite <- Be; apply after_maybe_ed).
  destruct (traffic_arrives b t5 mB2 idB infoB' traffic r 1 1 1 (ss_nextPub infoA) msg) as (mB3 & es5 & E5 & W5 & D5);
    [by rewrite Hed|done|done|done|].
  rewrite Hed in E5, D5.
  exists mA1, mA2, mB1, mB2, mB3, es1, es2, es3, es4, es5. do 4 eexists.
  do 10 (split; [eassumption|]). split; [|exact D5]. by rewrite !delivered_app, D1, D2, D3, D4.
Qed.
End contact.

Definition w_alice : node := MkNode w_supply (array_of 64 [Byte.x07]).
Definition w_bob : node := MkNode (fun k => w_supply (100 + k)) (array_of 64 [Byte.x09]).

Lemma first_contact_delivers_witness :
  @first_contact seed_ed25519 toy_box seed_sha512 w_alice w_bob (manager_init (MkSenv 0 0 0)) (manager_init (MkSenv 0 0 0))
    [Byte.x68; Byte.x69] 5000000000 6000000000 7000000000 8000000000 9000000000.
Proof.
  apply (@first_contact_delivers seed_ed25519 toy_box seed_sha512 toy_box_laws seed_ed25519_laws seed_keys_agree).
  - exact I.
  - exact I.
  - intros t. rewrite !elem_of_cons, elem_of_nil. lia.
  - reflexivity.
  - reflexivity.
  - reflexivity.
  - reflexivity.
Defined.
