(* ===== verification/Address.v ===== *)
(** * IPv6 addresses of keys

    [src/address/address.go]: the address and the /64 subnet of a public key,
    and the part of a key that can be read back from one. The prefix, a global
    that is set once at startup, is an argument. *)

From S2P Require Import Prelude Crypto.

Abbreviation Address := (array 16).
Abbreviation Subnet := (array 8).

(** A byte of an array, as a number. *)
Definition byte_at (l : list byte) (i : nat) : Z := b2z (default Byte.x00 (l !! i)).

(** [l[i] |= m] *)
Definition or_at (l : list byte) (i : nat) (m : Z) : list byte :=
  alter (fun b => z2b (Z.lor (b2z b) m)) i l.

(** [^b] *)
Definition byte_not (b : byte) : byte := z2b (255 - b2z b).

(** [SetPrefix]: an odd prefix is refused. *)
Definition SetPrefix (old p : byte) : byte * bool :=
  if negb (Z.land (b2z p) 1 =? 0) then (old, false) else (p, true).

Section address.
Context (prefix : byte).

Definition GetPrefix : list byte := [prefix].

Definition Address_IsValid (a : Address) : bool := bool_decide (take (length GetPrefix) (arr_list a) = GetPrefix).

Definition Subnet_IsValid (s : Subnet) : bool :=
  let l := length GetPrefix in
  bool_decide (take (l - 1) (arr_list s) = take (l - 1) GetPrefix) &&
  (byte_at s (l - 1) =? Z.lor (byte_at GetPrefix (l - 1)) 1).

(** The variables of the loop over the bits of the inverted key. *)
Record addrLoop := MkAddrLoop { al_done : bool; al_ones : Z; al_bits : Z; al_nBits : Z; al_temp : list byte }.

Definition addr_step (buf : list byte) (st : addrLoop) (idx : nat) : addrLoop :=
  let r := Z.of_nat (idx mod 8) in
  let bit := Z.shiftr (Z.land (byte_at buf (idx / 8)) (Z.shiftr 128 r)) (7 - r) in
  if negb (al_done st) && negb (bit =? 0) then
    MkAddrLoop (al_done st) ((al_ones st + 1) mod 256) (al_bits st) (al_nBits st) (al_temp st)
  else if negb (al_done st) && (bit =? 0) then
    MkAddrLoop true (al_ones st) (al_bits st) (al_nBits st) (al_temp st)
  else
    let bits := Z.lor (Z.shiftl (al_bits st) 1 mod 256) bit in
    let nBits := al_nBits st + 1 in
    if nBits =? 8 then MkAddrLoop (al_done st) (al_ones st) bits 0 (al_temp st ++ [z2b bits])
    else MkAddrLoop (al_done st) (al_ones st) bits nBits (al_temp st).

(** [copy(dst[i:], src)] *)
Definition copy_at {n} (dst : array n) (i : nat) (src : list byte) : array n :=
  array_of n (take i (arr_list dst) ++ take (n - i) src ++ drop (i + length src) (arr_list dst)).

Definition AddrForKey (publicKey : list byte) : option Address :=
  if negb (length publicKey =? publicKeySize)%nat then None
  else
    let buf := map byte_not publicKey in
    let st := fold_left (addr_step buf) (seq 0 (8 * length buf)) (MkAddrLoop false 0 0 0 []) in
    let addr := copy_at (zero_array 16) 0 GetPrefix in
    let addr := copy_at addr (length GetPrefix) [z2b (al_ones st)] in
    Some (copy_at addr (length GetPrefix + 1) (al_temp st)).

Definition SubnetForKey (publicKey : list byte) : option Subnet :=
  match AddrForKey publicKey with
  | None => None
  | Some addr =>
      let snet := array_of 8 (arr_list addr) in
      Some (array_of 8 (or_at snet (length GetPrefix - 1) 1))
  end.

(** The two loops of [GetKey]. *)
Definition set_ones (key : list byte) (idx : nat) : list byte :=
  or_at key (idx / 8) (Z.shiftr 128 (Z.of_nat (idx mod 8))).

Definition copy_bit (a : list byte) (keyOffset addrOffset : nat) (key : list byte) (idx : nat) : list byte :=
  let bits := Z.land (byte_at a (idx / 8)) (Z.shiftr 128 (Z.of_nat (idx mod 8))) in
  let bits := Z.shiftl bits (Z.of_nat (idx mod 8)) mod 256 in
  let keyIdx := (keyOffset + (idx - addrOffset))%nat in
  let bits := Z.shiftr bits (Z.of_nat (keyIdx mod 8)) in
  or_at key (keyIdx / 8) bits.

Definition Address_GetKey (a : Address) : array 32 :=
  let ones := Z.to_nat (byte_at a (length GetPrefix)) in
  let key := fold_left set_ones (seq 0 ones) (arr_list (zero_array 32)) in
  let keyOffset := (ones + 1)%nat in
  let addrOffset := (8 * length GetPrefix + 8)%nat in
  let key := fold_left (copy_bit a keyOffset addrOffset) (seq addrOffset (8 * 16 - addrOffset)) key in
  array_of 32 (map byte_not key).

Definition Subnet_GetKey (s : Subnet) : array 32 := Address_GetKey (array_of 16 (arr_list s)).

(** The transform of the Bloom filters, a function literal of [New] in
    [core.go]: [None] is the panic on a key of another length. *)
Definition keyXform (key : list byte) : option (list byte) :=
  match SubnetForKey key with
  | None => None
  | Some snet => Some (arr_list (Subnet_GetKey snet))
  end.
End address.
