(* ===== verification/AddressBits.v ===== *)
(** * Addresses as lists of bits

    What the loops of [src/address/address.go] compute, bit by bit: the address
    of a key is the number of its leading zeros and the bits after the first
    one, inverted; [GetKey] reads them back. *)

From S2P Require Import Prelude Crypto Address.

(** ** Bits of byte strings, the most significant first *)

Definition bit (l : list byte) (j : nat) : bool := Z.testbit (byte_at l (j / 8)) (7 - Z.of_nat (j mod 8)).

Lemma byte_at_range l i : 0 <= byte_at l i < 256.
Proof. unfold byte_at. apply b2z_range. Qed.

Lemma byte_at_beyond l i : (length l <= i)%nat -> byte_at l i = 0.
Proof. intros Hi. unfold byte_at. by rewrite lookup_ge_None_2. Qed.

Lemma bit_beyond l j : (8 * length l <= j)%nat -> bit l j = false.
Proof.
  intros Hj. unfold bit. rewrite byte_at_beyond; [by rewrite Z.testbit_0_l|].
  apply Nat.div_le_lower_bound; lia.
Qed.

Lemma bit_app l k j : bit (l ++ k) j = if (j <? 8 * length l)%nat then bit l j else bit k (j - 8 * length l).
Proof.
  unfold bit, byte_at. destruct (Nat.ltb_spec j (8 * length l)).
  - rewrite lookup_app_l; [done|]. apply Nat.Div0.div_lt_upper_bound; lia.
  - assert ((j - 8 * length l) / 8 = j / 8 - length l /\ (j - 8 * length l) mod 8 = j mod 8)%nat as [-> ->].
    { pose proof (Nat.div_mod_eq j 8). pose proof (Nat.mod_upper_bound j 8).
      replace (j - 8 * length l)%nat with (j mod 8 + (j / 8 - length l) * 8)%nat by lia.
      rewrite Nat.div_add, Nat.Div0.mod_add, Nat.Div0.mod_mod, Nat.div_small by lia. lia. }
    rewrite lookup_app_r; [done|]. apply Nat.div_le_lower_bound; lia.
Qed.

(** Byte strings with the same bits are equal. *)
Lemma bit_ext l k : length l = length k -> (forall j, (j < 8 * length l)%nat -> bit l j = bit k j) -> l = k.
Proof.
  intros Hl Hb. apply list_eq_same_length with (n := length l); [done|done|].
  intros i x y Hi Ex Ey. apply b2z_inj. apply Z.bits_inj_iff'. intros n Hn.
  destruct (decide (n < 8)) as [Hn8|Hn8].
  - specialize (Hb (8 * i + (7 - Z.to_nat n))%nat ltac:(lia)). unfold bit, byte_at in Hb.
    replace (8 * i + (7 - Z.to_nat n))%nat with ((7 - Z.to_nat n) + i * 8)%nat in Hb by lia.
    rewrite Nat.div_add, Nat.Div0.mod_add, Nat.div_small, Nat.mod_small in Hb by lia. cbn [Nat.add] in Hb.
    rewrite Ex, Ey in Hb. cbn in Hb. by replace (7 - Z.of_nat (7 - Z.to_nat n)) with n in Hb by lia.
  - assert (forall b : byte, Z.testbit (b2z b) n = false) as Hz; [|by rewrite !Hz].
    intros b. pose proof (b2z_range b). destruct (decide (b2z b = 0)) as [->|]; [by rewrite Z.testbit_0_l|].
    apply Z.bits_above_log2; [lia|]. assert (Z.log2 (b2z b) < 8); [|lia]. apply Z.log2_lt_pow2; lia.
Qed.

(** ** Single bits *)

Lemma bit_mask (b : byte) (r : nat) : (r < 8)%nat ->
  Z.land (b2z b) (Z.shiftr 128 (Z.of_nat r)) = if Z.testbit (b2z b) (7 - Z.of_nat r) then Z.shiftr 128 (Z.of_nat r) else 0.
Proof. intros Hr. do 8 (destruct r as [|r]; [destruct b; reflexivity|]). lia. Qed.

Lemma shiftr_128_bit (r : nat) n : (r < 8)%nat -> 0 <= n ->
  Z.testbit (Z.shiftr 128 (Z.of_nat r)) n = (n =? 7 - Z.of_nat r).
Proof.
  intros Hr Hn. change 128 with (2 ^ 7). rewrite Z.shiftr_spec by done. rewrite Z.pow2_bits_eqb by lia.
  destruct (Z.eqb_spec 7 (n + Z.of_nat r)), (Z.eqb_spec n (7 - Z.of_nat r)); lia || done.
Qed.

Lemma testbit_small m n : 0 <= m < 256 -> 8 <= n -> Z.testbit m n = false.
Proof.
  intros Hm Hn. destruct (decide (m = 0)) as [->|]; [by rewrite Z.testbit_0_l|].
  apply Z.bits_above_log2; [lia|]. assert (Z.log2 m < 8); [|lia]. apply Z.log2_lt_pow2; lia.
Qed.

Lemma lor_byte a b : 0 <= a < 256 -> 0 <= b < 256 -> 0 <= Z.lor a b < 256.
Proof.
  intros Ha Hb. assert (0 <= Z.lor a b) as H0 by (apply Z.lor_nonneg; lia). split; [done|].
  destruct (decide (Z.lor a b = 0)); [lia|]. change 256 with (2 ^ 8). apply Z.log2_lt_pow2; [lia|].
  rewrite Z.log2_lor by lia.
  assert (forall x, 0 <= x < 256 -> Z.log2 x < 8) as Hlog; [|apply Z.max_lub_lt; by apply Hlog].
  intros x Hx. destruct (decide (x = 0)) as [->|]; [done|]. apply Z.log2_lt_pow2; lia.
Qed.

Lemma bit_or_at l i m j : 0 <= m < 256 -> (j < 8 * length l)%nat ->
  bit (or_at l i m) j = bit l j || ((j / 8 =? i)%nat && Z.testbit m (7 - Z.of_nat (j mod 8))).
Proof.
  intros Hm Hj. unfold bit, byte_at, or_at.
  assert (j / 8 < length l)%nat as Hd by (apply Nat.Div0.div_lt_upper_bound; lia).
  destruct (lookup_lt_is_Some_2 l (j / 8) Hd) as [b Eb]. destruct (Nat.eqb_spec (j / 8) i) as [<-|Hne].
  - rewrite list_lookup_alter_eq, Eb. cbn. rewrite b2z_z2b_small.
    + by rewrite Z.lor_spec.
    + apply lor_byte; [apply b2z_range|done].
  - rewrite list_lookup_alter_ne by done. cbn. by rewrite orb_false_r.
Qed.

Lemma length_or_at l i m : length (or_at l i m) = length l.
Proof. apply length_alter. Qed.

Lemma bit_not l j : (j < 8 * length l)%nat -> bit (map byte_not l) j = negb (bit l j).
Proof.
  intros Hj. unfold bit, byte_at. assert (j / 8 < length l)%nat as Hd by (apply Nat.Div0.div_lt_upper_bound; lia).
  destruct (lookup_lt_is_Some_2 l (j / 8) Hd) as [b Eb]. rewrite list_lookup_fmap, Eb.
  pose proof (Nat.mod_upper_bound j 8 ltac:(lia)) as Hr. revert Hr. generalize (j mod 8)%nat. intros r Hr. cbn.
  do 8 (destruct r as [|r]; [destruct b; reflexivity|]). lia.
Qed.

(** ** The loop of [AddrForKey] *)

(** One round, on the bit that it looks at. *)
Definition bit_step (st : addrLoop) (b : bool) : addrLoop :=
  if negb (al_done st) && b then MkAddrLoop (al_done st) ((al_ones st + 1) mod 256) (al_bits st) (al_nBits st) (al_temp st)
  else if negb (al_done st) then MkAddrLoop true (al_ones st) (al_bits st) (al_nBits st) (al_temp st)
  else
    let bits := Z.lor (Z.shiftl (al_bits st) 1 mod 256) (Z.b2z b) in
    if al_nBits st + 1 =? 8 then MkAddrLoop (al_done st) (al_ones st) bits 0 (al_temp st ++ [z2b bits])
    else MkAddrLoop (al_done st) (al_ones st) bits (al_nBits st + 1) (al_temp st).

Lemma addr_step_bit buf st idx : addr_step buf st idx = bit_step st (bit buf idx).
Proof.
  unfold addr_step, bit_step. cbv zeta.
  assert (Z.shiftr (Z.land (byte_at buf (idx / 8)) (Z.shiftr 128 (Z.of_nat (idx mod 8)))) (7 - Z.of_nat (idx mod 8)) =
    Z.b2z (bit buf idx)) as ->.
  { unfold bit, byte_at. pose proof (Nat.mod_upper_bound idx 8 ltac:(lia)) as Hr. revert Hr.
    generalize (idx mod 8)%nat. intros r Hr. rewrite bit_mask by done.
    do 8 (destruct r as [|r]; [by destruct (Z.testbit _ _)|]). lia. }
  by destruct (al_done st), (bit buf idx).
Qed.

(** The bytes of a list of bits; what does not fill a byte is dropped. *)
Definition bits_val (p : list bool) : Z := fold_left (fun acc b => 2 * acc + Z.b2z b) p 0.

Fixpoint pack (r : list bool) : list byte :=
  match r with
  | b0 :: b1 :: b2 :: b3 :: b4 :: b5 :: b6 :: b7 :: r' => z2b (bits_val [b0; b1; b2; b3; b4; b5; b6; b7]) :: pack r'
  | _ => []
  end.

Lemma bits_val_snoc p b : bits_val (p ++ [b]) = 2 * bits_val p + Z.b2z b.
Proof. unfold bits_val. by rewrite fold_left_app. Qed.

Lemma bits_val_range p : 0 <= bits_val p < 2 ^ Z.of_nat (length p).
Proof.
  induction p as [|b p IH] using rev_ind; [done|]. rewrite bits_val_snoc, length_app, Nat2Z.inj_add, Z.pow_add_r by lia.
  change (2 ^ Z.of_nat (length [b])) with 2. destruct b; cbn [Z.b2z]; lia.
Qed.

Lemma pack_short p : (length p < 8)%nat -> pack p = [].
Proof. intros Hp. do 8 (destruct p as [|? p]; [done|]). cbn in Hp. lia. Qed.

Lemma pack_cons p r : length p = 8%nat -> pack (p ++ r) = z2b (bits_val p) :: pack r.
Proof. intros Hp. do 8 (destruct p as [|? p]; [done|]). by destruct p. Qed.

Lemma shift_in bits b : 0 <= bits < 256 ->
  Z.lor (Z.shiftl bits 1 mod 256) (Z.b2z b) = (2 * bits + Z.b2z b) mod 256.
Proof.
  intros Hb. rewrite Z.shiftl_mul_pow2 by done. change 256 with (128 * 2). change (2 ^ 1) with 2.
  rewrite Z.mul_mod_distr_r by lia. set (y := bits mod 128).
  assert (Z.lor (y * 2) (Z.b2z b) = y * 2 + Z.b2z b) as ->.
  { destruct b; cbn [Z.b2z]; [|by rewrite Z.lor_0_r, Z.add_0_r].
    rewrite <- Z.add_lor_land. assert (Z.land (y * 2) 1 = 0) as ->; [|lia].
    change 1 with (Z.ones 1). rewrite Z.land_ones by done. by rewrite Z.mod_mul. }
  unfold y. pose proof (Z.div_mod bits 128 ltac:(lia)). pose proof (Z.mod_pos_bound bits 128 ltac:(lia)).
  replace (2 * bits + Z.b2z b) with (bits mod 128 * 2 + Z.b2z b + bits / 128 * (128 * 2)) by lia.
  rewrite Z.mod_add by lia. symmetry. apply Z.mod_small. destruct b; cbn [Z.b2z]; lia.
Qed.

(** Once a one was seen, the bits are packed; [p] are those that wait. *)
Lemma done_steps : forall r p o bits temp, (length p < 8)%nat -> 0 <= bits < 256 ->
  bits mod 2 ^ Z.of_nat (length p) = bits_val p ->
  let st := fold_left bit_step r (MkAddrLoop true o bits (Z.of_nat (length p)) temp) in
  al_ones st = o /\ al_temp st = temp ++ pack (p ++ r).
Proof.
  induction r as [|b r IH]; intros p o bits temp Hp Hb Hv; cbn [fold_left].
  { rewrite app_nil_r, pack_short by done. cbn. by rewrite app_nil_r. }
  set (bits' := Z.lor (Z.shiftl bits 1 mod 256) (Z.b2z b)).
  assert (bits' = (2 * bits + Z.b2z b) mod 256) as Hbits by by apply shift_in.
  assert (bits' mod 2 ^ Z.of_nat (length (p ++ [b])) = bits_val (p ++ [b])) as Hv'.
  { rewrite bits_val_snoc, <- Hv, length_app, Nat2Z.inj_add, Z.pow_add_r, Hbits by lia. cbn [length].
    set (w := 2 ^ Z.of_nat (length p)) in *. change (2 ^ Z.of_nat 1) with 2.
    assert (w * 2 | 256) as Hd.
    { exists (2 ^ (7 - Z.of_nat (length p))). unfold w. rewrite Z.mul_assoc, <- Z.pow_add_r by lia.
      replace (7 - Z.of_nat (length p) + Z.of_nat (length p)) with 7 by lia. done. }
    assert (0 < w) by (unfold w; lia).
    rewrite Z.mod_mod_divide by done.
    pose proof (Z.div_mod bits w ltac:(lia)) as Hdm. pose proof (Z.mod_pos_bound bits w ltac:(lia)).
    rewrite Hdm at 1. replace (2 * (w * (bits / w) + bits mod w) + Z.b2z b) with
      (2 * (bits mod w) + Z.b2z b + bits / w * (w * 2)) by lia.
    rewrite Z.mod_add by lia. apply Z.mod_small. destruct b; cbn [Z.b2z]; lia. }
  assert (0 <= bits' < 256) as Hr by (rewrite Hbits; apply Z.mod_pos_bound; lia).
  unfold bit_step at 2 4. cbn [al_done al_ones al_bits al_nBits al_temp negb andb]. fold bits'.
  destruct (Z.eqb_spec (Z.of_nat (length p) + 1) 8) as [H8|H8].
  - destruct (IH [] o bits' (temp ++ [z2b bits'])) as [I1 I2]; [cbn; lia|done|by rewrite Z.mod_1_r|].
    split; [exact I1|]. cbn [length app] in I2. change (Z.of_nat 0) with 0 in I2. rewrite I2.
    replace (p ++ b :: r) with ((p ++ [b]) ++ r) by by rewrite <- app_assoc.
    rewrite pack_cons, <- app_assoc by (rewrite length_app; cbn; lia). cbn [app]. do 3 f_equal.
    rewrite <- Hv', length_app. cbn [length]. replace (Z.of_nat (length p + 1)) with 8 by lia.
    by rewrite Z.mod_small.
  - destruct (IH (p ++ [b]) o bits' temp) as [I1 I2]; [rewrite length_app; cbn; lia|done|done|].
    rewrite length_app in I1, I2. cbn [length] in I1, I2. rewrite Nat2Z.inj_add in I1, I2.
    split; [exact I1|]. rewrite <- app_assoc in I2. exact I2.
Qed.

(** Leading ones are counted, the first zero is skipped, the rest is packed. *)
Lemma ones_steps k : forall o r, 0 <= o ->
  fold_left bit_step (replicate k true ++ r) (MkAddrLoop false (o mod 256) 0 0 []) =
    fold_left bit_step r (MkAddrLoop false ((o + Z.of_nat k) mod 256) 0 0 []).
Proof.
  induction k as [|k IH]; intros o r Ho; cbn [replicate app fold_left]; [by rewrite Z.add_0_r|].
  unfold bit_step at 2. cbn [al_done al_ones al_bits al_nBits al_temp negb andb].
  rewrite Z.add_mod_idemp_l by lia. rewrite IH by lia.
  by replace (o + Z.of_nat (S k)) with (o + 1 + Z.of_nat k) by lia.
Qed.

Lemma leading_steps k r : let st := fold_left bit_step (replicate k true ++ false :: r) (MkAddrLoop false 0 0 0 []) in
  al_ones st = Z.of_nat k mod 256 /\ al_temp st = pack r.
Proof.
  pose proof (ones_steps k 0 (false :: r) (Z.le_refl 0)) as E. change (0 mod 256) with 0 in E. cbv zeta.
  rewrite E. cbn [fold_left]. change (bit_step (MkAddrLoop false ?o 0 0 []) false) with (MkAddrLoop true o 0 0 []).
  exact (done_steps r [] _ 0 [] ltac:(cbn; lia) ltac:(lia) eq_refl).
Qed.

Lemma all_ones_steps k : let st := fold_left bit_step (replicate k true) (MkAddrLoop false 0 0 0 []) in
  al_ones st = Z.of_nat k mod 256 /\ al_temp st = [].
Proof.
  pose proof (ones_steps k 0 [] (Z.le_refl 0)) as E. change (0 mod 256) with 0 in E. rewrite app_nil_r in E.
  cbv zeta. by rewrite E.
Qed.

(** The bits of what was packed. *)
Lemma bit_byte (b0 b1 b2 b3 b4 b5 b6 b7 : bool) l (j : nat) : (j < 8)%nat ->
  bit (z2b (bits_val [b0; b1; b2; b3; b4; b5; b6; b7]) :: l) j = nth j [b0; b1; b2; b3; b4; b5; b6; b7] false.
Proof.
  intros Hj. do 8 (destruct j as [|j]; [destruct b0, b1, b2, b3, b4, b5, b6, b7; reflexivity|]). lia.
Qed.

Lemma length_pack r : length (pack r) = (length r / 8)%nat.
Proof.
  revert r. fix IH 1. intros r. do 8 (destruct r as [|? r]; [reflexivity|]).
  cbn [pack length]. rewrite IH. replace (S (S (S (S (S (S (S (S (length r))))))))) with (length r + 1 * 8)%nat by lia.
  rewrite Nat.div_add by lia. lia.
Qed.

Lemma bit_pack : forall r j, (j < 8 * (length r / 8))%nat -> bit (pack r) j = nth j r false.
Proof.
  fix IH 1. intros r j Hj. do 8 (destruct r as [|? r]; [exfalso; cbn in Hj; lia|]). cbn [pack].
  destruct (Nat.lt_ge_cases j 8) as [H8|H8].
  - rewrite bit_byte by done. by do 8 (destruct j as [|j]; [reflexivity|]); lia.
  - change (z2b ?v :: pack r) with ([z2b v] ++ pack r). rewrite bit_app. cbn [length].
    destruct (Nat.ltb_spec j (8 * 1)); [lia|]. replace (j - 8 * 1)%nat with (j - 8)%nat by lia. rewrite IH.
    + do 8 (destruct j as [|j]; [lia|]). cbn [Nat.sub nth]. by rewrite Nat.sub_0_r.
    + cbn [length] in Hj. replace (S (S (S (S (S (S (S (S (length r))))))))) with (length r + 1 * 8)%nat in Hj by lia.
      rewrite Nat.div_add in Hj by lia. lia.
Qed.

(** ** The loops of [GetKey] *)

Lemma shiftr_128_range r : 0 <= Z.shiftr 128 (Z.of_nat r) < 256.
Proof.
  rewrite Z.shiftr_div_pow2 by lia. split; [apply Z.div_pos; lia|]. apply Z.div_lt_upper_bound; nia.
Qed.

(** The mask of a bit, at the byte of the bit. *)
Lemma bit_mask_at i j : (j / 8 =? i / 8)%nat && Z.testbit (Z.shiftr 128 (Z.of_nat (i mod 8))) (7 - Z.of_nat (j mod 8)) =
  (j =? i)%nat.
Proof.
  pose proof (Nat.mod_upper_bound i 8 ltac:(lia)). pose proof (Nat.mod_upper_bound j 8 ltac:(lia)).
  pose proof (Nat.div_mod_eq i 8). pose proof (Nat.div_mod_eq j 8). rewrite shiftr_128_bit by lia.
  destruct (Nat.eqb_spec (j / 8) (i / 8)), (Nat.eqb_spec j i),
    (Z.eqb_spec (7 - Z.of_nat (j mod 8)) (7 - Z.of_nat (i mod 8))); cbn; lia || subst; done.
Qed.

Lemma length_set_ones n : forall l, length (fold_left set_ones (seq 0 n) l) = length l.
Proof.
  induction n as [|n IHn]; intros l; [done|]. rewrite seq_S, fold_left_app. cbn [fold_left]. unfold set_ones at 1.
  by rewrite length_or_at.
Qed.

Lemma fold_set_ones n : forall l j, (j < 8 * length l)%nat ->
  bit (fold_left set_ones (seq 0 n) l) j = bit l j || (j <? n)%nat.
Proof.
  induction n as [|n IH]; intros l j Hj; [by rewrite orb_false_r|]. rewrite seq_S, fold_left_app. cbn [fold_left Nat.add].
  unfold set_ones at 1. rewrite bit_or_at, IH, bit_mask_at by (done || by rewrite ?length_set_ones || apply shiftr_128_range).
  rewrite <- orb_assoc. f_equal.
  destruct (Nat.ltb_spec j n), (Nat.eqb_spec j n), (Nat.ltb_spec j (S n)); cbn; lia || done.
Qed.

(** A bit is moved to its new place. *)
Lemma copy_bit_spec a ko ao key idx j : (j < 8 * length key)%nat -> (ao <= idx)%nat ->
  bit (copy_bit a ko ao key idx) j = bit key j || ((j =? ko + (idx - ao))%nat && bit a idx).
Proof.
  intros Hj Hi. unfold copy_bit. cbv zeta. set (ki := (ko + (idx - ao))%nat).
  pose proof (Nat.mod_upper_bound idx 8 ltac:(lia)) as Hr.
  assert (Z.shiftl (Z.land (byte_at a (idx / 8)) (Z.shiftr 128 (Z.of_nat (idx mod 8)))) (Z.of_nat (idx mod 8)) mod 256 =
    if bit a idx then 128 else 0) as ->.
  { unfold bit, byte_at. revert Hr. generalize (idx mod 8)%nat. intros r Hr. rewrite bit_mask by done.
    do 8 (destruct r as [|r]; [by destruct (Z.testbit _ _)|]). lia. }
  destruct (bit a idx).
  - by rewrite bit_or_at, bit_mask_at, andb_true_r by (done || apply shiftr_128_range).
  - rewrite Z.shiftr_0_l, bit_or_at, Z.testbit_0_l by (done || lia). by rewrite !andb_false_r.
Qed.

Lemma length_copy_bits a ko ao n : forall key, length (fold_left (copy_bit a ko ao) (seq ao n) key) = length key.
Proof.
  induction n as [|n IH]; intros key; [done|]. rewrite seq_S, fold_left_app. cbn [fold_left]. unfold copy_bit at 1.
  by rewrite length_or_at.
Qed.

Lemma fold_copy_bits a ko ao n : forall key j, (j < 8 * length key)%nat ->
  bit (fold_left (copy_bit a ko ao) (seq ao n) key) j =
    bit key j || ((ko <=? j)%nat && (j <? ko + n)%nat && bit a (j - ko + ao)).
Proof.
  induction n as [|n IH]; intros key j Hj.
  { destruct (Nat.leb_spec ko j), (Nat.ltb_spec j (ko + 0)); try lia; cbn [andb]; by rewrite orb_false_r. }
  rewrite seq_S, fold_left_app. cbn [fold_left].
  rewrite copy_bit_spec, IH by (done || by rewrite ?length_copy_bits || lia). rewrite <- orb_assoc. f_equal.
  destruct (Nat.eqb_spec j (ko + (ao + n - ao))) as [->|Hne].
  - replace (ko + (ao + n - ao) - ko + ao)%nat with (ao + n)%nat by lia.
    destruct (Nat.leb_spec ko (ko + (ao + n - ao))), (Nat.ltb_spec (ko + (ao + n - ao)) (ko + n)),
      (Nat.ltb_spec (ko + (ao + n - ao)) (ko + S n)); cbn; lia || done.
  - destruct (Nat.leb_spec ko j), (Nat.ltb_spec j (ko + n)), (Nat.ltb_spec j (ko + S n)); cbn [andb orb];
      rewrite ?orb_false_r; lia || done.
Qed.
