(* ===== verification/AddressSafety.v ===== *)
(** * Addresses and keys

    Which part of a key its address determines, and that what [GetKey] reads
    back from an address or a subnet stands for the same address and subnet
    ([src/address/address.go]): the router's Bloom filters and the lookups by
    IPv6 address rely on it. *)

From S2P Require Import Prelude Crypto Address AddressBits.

(** A key with [k] leading zero bits. *)
Definition leading_zeros (key : list byte) (k : nat) : Prop :=
  (k < 256)%nat /\ (forall j, (j < k)%nat -> bit key j = false) /\ bit key k = true.

(** The bytes of an address after the prefix and the count. *)
Definition addr_tail (r : list bool) : list byte := take 14 (pack r) ++ replicate (14 - length (pack r)) Byte.x00.

Lemma length_addr_tail r : length (addr_tail r) = 14%nat.
Proof. unfold addr_tail. rewrite length_app, length_take, length_replicate. lia. Qed.

Lemma map_constant {A B} (f : A -> B) c l : (forall x, x ∈ l -> f x = c) -> map f l = replicate (length l) c.
Proof.
  induction l as [|x l IH]; intros Hf; [done|]. cbn. rewrite Hf by left. f_equal. apply IH. intros y Hy. apply Hf. by right.
Qed.

Section prefix.
Context (prefix : byte).

Lemma fold_addr_step buf idxs st : fold_left (addr_step buf) idxs st = fold_left bit_step (map (bit buf) idxs) st.
Proof. revert st. induction idxs as [|i idxs IH]; intros st; [done|]. cbn [fold_left map]. by rewrite addr_step_bit. Qed.

Lemma copy_at_eq {n} (dst : array n) i src : (i <= n)%nat ->
  arr_list (copy_at dst i src) = take i (arr_list dst) ++ take (n - i) src ++ drop (i + length src) (arr_list dst).
Proof.
  intros Hi. unfold copy_at. apply array_of_exact. rewrite !length_app, !length_take, length_drop, length_array. lia.
Qed.

Lemma copies_eq ones temp :
  arr_list (copy_at (copy_at (copy_at (zero_array 16) 0 [prefix]) 1 [ones]) 2 temp) =
    prefix :: ones :: (take 14 temp ++ replicate (14 - length temp) Byte.x00).
Proof.
  rewrite !copy_at_eq by lia. change (arr_list (zero_array 16)) with (replicate 16 Byte.x00).
  cbn [length Nat.add Nat.sub take app replicate drop]. do 2 f_equal.
  change [Byte.x00; Byte.x00; Byte.x00; Byte.x00; Byte.x00; Byte.x00; Byte.x00; Byte.x00; Byte.x00; Byte.x00; Byte.x00;
    Byte.x00; Byte.x00; Byte.x00] with (replicate 14 Byte.x00). by rewrite drop_replicate.
Qed.

Lemma AddrForKey_eq key k : length key = 32%nat -> leading_zeros key k ->
  exists a, AddrForKey prefix key = Some a /\
    arr_list a = prefix :: z2b (Z.of_nat k) :: addr_tail (map (fun j => negb (bit key j)) (seq (S k) (255 - k))).
Proof.
  intros Hl (Hk & Hz & Ho). unfold AddrForKey, publicKeySize. rewrite Hl. cbn [Nat.eqb negb].
  rewrite length_map, Hl, fold_addr_step. eexists. split; [reflexivity|]. cbn [GetPrefix length Nat.add].
  unfold GetPrefix. rewrite copies_eq.
  assert (map (bit (map byte_not key)) (seq 0 (8 * 32)) =
    replicate k true ++ false :: map (fun j => negb (bit key j)) (seq (S k) (255 - k))) as ->.
  { replace (8 * 32)%nat with (k + S (255 - k))%nat by lia. rewrite seq_app, map_app. cbn [Nat.add seq map].
    assert (forall j, (j < 256)%nat -> bit (map byte_not key) j = negb (bit key j)) as Hn.
    { intros j Hj. apply bit_not. lia. }
    f_equal.
    - rewrite <- (length_seq k 0) at 2. apply map_constant. intros j Hj%elem_of_seq. rewrite Hn, Hz by lia. done.
    - rewrite Hn, Ho by lia. cbn [negb]. f_equal. apply list_fmap_ext. intros ? j Hj%lookup_seq. apply Hn. lia. }
  destruct (leading_steps k (map (fun j => negb (bit key j)) (seq (S k) (255 - k)))) as [-> ->].
  rewrite Z.mod_small by lia. done.
Qed.

(** What [GetKey] reads, bit by bit. *)
Lemma GetKey_bits (a : Address) j : let ones := Z.to_nat (byte_at a 1) in (j < 256)%nat ->
  bit (Address_GetKey prefix a) j =
    negb ((j <? ones)%nat || ((S ones <=? j)%nat && (j <? S ones + 112)%nat && bit a (j - S ones + 16))).
Proof.
  intros ones Hj. unfold Address_GetKey. cbn [GetPrefix length]. fold ones.
  replace (ones + 1)%nat with (S ones) by lia. change (8 * 1 + 8)%nat with 16%nat. change (8 * 16 - 16)%nat with 112%nat.
  set (k1 := fold_left set_ones _ _). set (k2 := fold_left _ _ k1).
  assert (length k1 = 32%nat) as Hl1 by (unfold k1; by rewrite length_set_ones, length_array).
  assert (length k2 = 32%nat) as Hl2 by (unfold k2; by rewrite length_copy_bits).
  rewrite array_of_exact by by rewrite length_map. rewrite bit_not by lia. f_equal.
  unfold k2. rewrite fold_copy_bits by lia. f_equal. unfold k1. rewrite fold_set_ones by (rewrite length_array; lia).
  assert (bit (arr_list (zero_array 32)) j = false) as ->; [|done].
  unfold bit, byte_at. change (arr_list (zero_array 32)) with (replicate 32 Byte.x00).
  destruct (replicate 32 Byte.x00 !! (j / 8)%nat) as [b|] eqn:E; [|by rewrite Z.testbit_0_l].
  apply lookup_replicate in E as [-> _]. by rewrite Z.testbit_0_l.
Qed.

(** ** Bits of the address *)

Lemma byte_at_array n l i : byte_at (array_of n l) i = if (i <? n)%nat then byte_at l i else 0.
Proof.
  unfold byte_at, array_of. cbn [arr_list]. destruct (Nat.ltb_spec i n) as [Hi|Hi].
  - destruct (Nat.lt_ge_cases i (length l)) as [Hl|Hl].
    + by rewrite lookup_resize.
    + rewrite lookup_resize_new by lia. by rewrite (lookup_ge_None_2 l i).
  - by rewrite lookup_resize_old by lia.
Qed.

Lemma bit_array n l j : bit (array_of n l) j = (j <? 8 * n)%nat && bit l j.
Proof.
  unfold bit. rewrite byte_at_array.
  assert ((j / 8 <? n)%nat = (j <? 8 * n)%nat) as ->.
  { destruct (Nat.ltb_spec j (8 * n)) as [H|H].
    - apply Nat.ltb_lt, Nat.Div0.div_lt_upper_bound. lia.
    - apply Nat.ltb_ge, Nat.div_le_lower_bound; lia. }
  by destruct (j <? 8 * n)%nat; [|rewrite Z.testbit_0_l].
Qed.

Lemma bit_addr_tail r i : (i < 112)%nat -> (i < 8 * (length r / 8))%nat -> bit (addr_tail r) i = nth i r false.
Proof.
  intros H1 H2. rewrite <- (bit_pack r i H2). unfold addr_tail. rewrite <- (length_pack r) in H2.
  rewrite bit_app, length_take. destruct (Nat.ltb_spec i (8 * (14 `min` length (pack r)))) as [_|]; [|lia].
  unfold bit, byte_at. rewrite lookup_take_lt; [done|]. apply Nat.Div0.div_lt_upper_bound. lia.
Qed.

(** What an address says of its key: the number [k] of leading zeros, and the
    bits that follow the first one, as many as fit in whole bytes. *)
Lemma addr_of_key key k a : length key = 32%nat -> leading_zeros key k -> AddrForKey prefix key = Some a ->
  byte_at a 0 = b2z prefix /\ byte_at a 1 = Z.of_nat k /\
  forall i, (i < 112)%nat -> (i < 8 * ((255 - k) / 8))%nat -> bit a (16 + i) = negb (bit key (S k + i)).
Proof.
  intros Hl Hz Ha. destruct (AddrForKey_eq key k Hl Hz) as (a' & Ea & El). simplify_eq.
  destruct Hz as [Hk _]. rewrite El. split_and!; [done| |].
  - unfold byte_at. cbn. apply b2z_z2b_small. lia.
  - intros i H1 H2. set (r := map _ _). change (prefix :: ?y :: ?t) with ([prefix; y] ++ t).
    rewrite bit_app. cbn [length]. destruct (Nat.ltb_spec (16 + i) (8 * 2)); [lia|].
    replace (16 + i - 8 * 2)%nat with i by lia.
    assert (length r = (255 - k)%nat) as Hr by (unfold r; by rewrite length_map, length_seq).
    rewrite bit_addr_tail by (done || by rewrite Hr). assert (i < 255 - k)%nat as Hi.
    { pose proof (Nat.Div0.mul_div_le (255 - k) 8). lia. }
    unfold r. erewrite nth_indep by by rewrite length_map, length_seq.
    rewrite (map_nth (fun j => negb (bit key j)) _ 0%nat), seq_nth by done. done.
Qed.

(** The same of a subnet, which keeps 48 bits. *)
Lemma subnet_of_key key k : length key = 32%nat -> leading_zeros key k -> (k <= 207)%nat ->
  exists s, SubnetForKey prefix key = Some s /\ byte_at s 0 = Z.lor (b2z prefix) 1 /\ byte_at s 1 = Z.of_nat k /\
    forall i, (i < 48)%nat -> bit s (16 + i) = negb (bit key (S k + i)).
Proof.
  intros Hl Hz Hk. destruct (AddrForKey_eq key k Hl Hz) as (a & Ea & _).
  destruct (addr_of_key key k a Hl Hz Ea) as (A0 & A1 & Ab). unfold SubnetForKey. rewrite Ea.
  eexists. split; [reflexivity|]. cbn [GetPrefix length Nat.sub].
  set (snet := array_of 8 (arr_list a)). pose proof (length_array snet) as Hs.
  assert (forall i, byte_at snet i = if (i <? 8)%nat then byte_at a i else 0) as Hsi by (intros; apply byte_at_array).
  split_and!.
  - rewrite byte_at_array. cbn [Nat.ltb Nat.leb]. specialize (Hsi 0%nat). cbn [Nat.ltb Nat.leb] in Hsi. rewrite A0 in Hsi.
    unfold byte_at, or_at in *. rewrite list_lookup_alter_eq.
    destruct (arr_list snet !! 0%nat) as [b|] eqn:E; [|apply lookup_ge_None in E; lia]. cbn in *. rewrite Hsi.
    apply b2z_z2b_small, lor_byte; [apply b2z_range|lia].
  - rewrite byte_at_array. cbn [Nat.ltb Nat.leb]. rewrite <- A1. specialize (Hsi 1%nat). cbn [Nat.ltb Nat.leb] in Hsi.
    rewrite <- Hsi. unfold byte_at, or_at. by rewrite list_lookup_alter_ne.
  - intros i Hi. rewrite bit_array, bit_or_at by (lia || rewrite Hs; lia).
    assert ((16 + i) / 8 =? 0 = false)%nat as ->.
    { apply Nat.eqb_neq. assert (2 <= (16 + i) / 8)%nat; [|lia]. apply Nat.div_le_lower_bound; lia. }
    cbn [andb]. rewrite orb_false_r. unfold snet. rewrite bit_array.
    destruct (Nat.ltb_spec (16 + i) (8 * 8)); [|lia]. cbn [andb]. apply Ab; [lia|].
    assert (6 <= (255 - k) / 8)%nat; [|lia]. apply Nat.div_le_lower_bound; lia.
Qed.

(** ** What is read back *)

(** [GetKey] where [n] bits of the key are there. *)
Lemma GetKey_agrees (b : Address) key k n : leading_zeros key k -> byte_at b 1 = Z.of_nat k ->
  (n <= 112)%nat -> (forall i, (i < n)%nat -> bit b (16 + i) = negb (bit key (S k + i))) ->
  (forall i, (n <= i < 112)%nat -> bit b (16 + i) = false) ->
  forall j, (j < 256)%nat -> bit (Address_GetKey prefix b) j = if (j <? S k + n)%nat then bit key j else true.
Proof.
  intros (Hk & Hz & Ho) Hb Hn Hin Hout j Hj. rewrite GetKey_bits, Hb, Nat2Z.id by done.
  destruct (Nat.ltb_spec j k) as [H1|H1]; cbn [orb negb].
  { destruct (Nat.ltb_spec j (S k + n)); [|lia]. by rewrite Hz. }
  destruct (Nat.leb_spec (S k) j) as [H2|H2]; cbn [andb negb].
  - replace (j - S k + 16)%nat with (16 + (j - S k))%nat by lia.
    destruct (Nat.ltb_spec j (S k + n)) as [H3|H3].
    + destruct (Nat.ltb_spec j (S k + 112)); [|lia]. cbn [andb]. rewrite Hin by lia.
      replace (S k + (j - S k))%nat with j by lia. by rewrite negb_involutive.
    + destruct (Nat.ltb_spec j (S k + 112)); [|done]. cbn [andb]. by rewrite Hout by lia.
  - assert (j = k) as -> by lia. destruct (Nat.ltb_spec k (S k + n)); [|lia]. done.
Qed.

Lemma leading_zeros_agree key key' k n : leading_zeros key k ->
  (forall j, (j < S k + n)%nat -> bit key' j = bit key j) -> leading_zeros key' k.
Proof.
  intros (Hk & Hz & Ho) Ha. split_and!; [done| |rewrite Ha by lia; done]. intros j Hj. rewrite Ha by lia. by apply Hz.
Qed.

(** Keys that agree on the first bits have the same address, the same subnet
    and the same transform. *)
Lemma AddrForKey_agree key key' k : length key = 32%nat -> length key' = 32%nat -> leading_zeros key k -> (k <= 143)%nat ->
  (forall j, (j < S k + 112)%nat -> bit key' j = bit key j) -> AddrForKey prefix key' = AddrForKey prefix key.
Proof.
  intros Hl Hl' Hz Hk Ha. pose proof (leading_zeros_agree key key' k 112 Hz Ha) as Hz'.
  destruct (AddrForKey_eq key k Hl Hz) as (a & Ea & La), (AddrForKey_eq key' k Hl' Hz') as (a' & Ea' & La').
  rewrite Ea, Ea'. f_equal. apply array_eq. rewrite La, La'. do 2 f_equal.
  destruct (addr_of_key key k a Hl Hz Ea) as (_ & _ & Ab), (addr_of_key key' k a' Hl' Hz' Ea') as (_ & _ & Ab').
  assert (14 <= (255 - k) / 8)%nat as Hq by (apply Nat.div_le_lower_bound; lia).
  apply bit_ext; [by rewrite !length_addr_tail|]. rewrite length_addr_tail. intros i Hi.
  assert (forall r (x : Address), arr_list x = prefix :: z2b (Z.of_nat k) :: addr_tail r -> bit (addr_tail r) i = bit x (16 + i)) as Hx.
  { intros r x ->. change (prefix :: ?y :: ?t) with ([prefix; y] ++ t). rewrite bit_app. cbn [length].
    destruct (Nat.ltb_spec (16 + i) (8 * 2)); [lia|]. by replace (16 + i - 8 * 2)%nat with i by lia. }
  rewrite (Hx _ _ La), (Hx _ _ La'), Ab, Ab' by lia. by rewrite Ha by lia.
Qed.

Lemma SubnetForKey_agree key key' k : length key = 32%nat -> length key' = 32%nat -> leading_zeros key k -> (k <= 207)%nat ->
  (forall j, (j < S k + 48)%nat -> bit key' j = bit key j) -> SubnetForKey prefix key' = SubnetForKey prefix key.
Proof.
  intros Hl Hl' Hz Hk Ha. pose proof (leading_zeros_agree key key' k 48 Hz Ha) as Hz'.
  destruct (subnet_of_key key k Hl Hz Hk) as (s & -> & S0 & S1 & Sb), (subnet_of_key key' k Hl' Hz' Hk) as (s' & -> & S0' & S1' & Sb').
  f_equal. apply array_eq, bit_ext; [by rewrite !length_array|]. rewrite length_array. intros j Hj.
  destruct (Nat.lt_ge_cases j 16) as [H16|H16].
  - unfold bit. assert (j / 8 = 0 \/ j / 8 = 1)%nat as [->| ->]; [|by rewrite S0, S0'|by rewrite S1, S1'].
    assert (j / 8 < 2)%nat; [|lia]. apply Nat.Div0.div_lt_upper_bound. lia.
  - replace j with (16 + (j - 16))%nat by lia. rewrite Sb, Sb', Ha by lia. done.
Qed.

Lemma keyXform_agree key key' k : length key = 32%nat -> length key' = 32%nat -> leading_zeros key k -> (k <= 207)%nat ->
  (forall j, (j < S k + 48)%nat -> bit key' j = bit key j) -> keyXform prefix key' = keyXform prefix key.
Proof. intros Hl Hl' Hz Hk Ha. unfold keyXform. by rewrite (SubnetForKey_agree key key' k). Qed.

Lemma address_bits key k a : length key = 32%nat -> leading_zeros key k -> (k <= 143)%nat -> AddrForKey prefix key = Some a ->
  forall j, (j < 256)%nat -> bit (Address_GetKey prefix a) j = if (j <? k + 113)%nat then bit key j else true.
Proof.
  intros Hl Hz Hk Ha. destruct (addr_of_key key k a Hl Hz Ha) as (_ & A1 & Ab).
  replace (k + 113)%nat with (S k + 112)%nat by lia.
  assert (14 <= (255 - k) / 8)%nat as Hq by (apply Nat.div_le_lower_bound; lia).
  apply GetKey_agrees; [done|done|done| |lia]. intros i Hi. apply Ab; lia.
Qed.

Lemma subnet_bits key k s : length key = 32%nat -> leading_zeros key k -> (k <= 207)%nat -> SubnetForKey prefix key = Some s ->
  forall j, (j < 256)%nat -> bit (Subnet_GetKey prefix s) j = if (j <? k + 49)%nat then bit key j else true.
Proof.
  intros Hl Hz Hk Hs. destruct (subnet_of_key key k Hl Hz Hk) as (s' & Es & _ & S1 & Sb). simplify_eq.
  replace (k + 49)%nat with (S k + 48)%nat by lia. unfold Subnet_GetKey. apply GetKey_agrees; [done| |lia| |].
  - by rewrite byte_at_array.
  - intros i Hi. rewrite bit_array. destruct (Nat.ltb_spec (16 + i) (8 * 16)); [|lia]. cbn [andb]. by apply Sb.
  - intros i Hi. rewrite bit_array, bit_beyond by (rewrite length_array; lia). by destruct (_ <? _)%nat.
Qed.

(** Every key has an address and a subnet, with the prefix in front. *)
Lemma first_bytes key : length key = 32%nat ->
  exists a s, AddrForKey prefix key = Some a /\ SubnetForKey prefix key = Some s /\
    take 1 (arr_list a) = [prefix] /\ byte_at s 0 = Z.lor (b2z prefix) 1.
Proof.
  intros Hl. unfold SubnetForKey, AddrForKey, publicKeySize. rewrite Hl. cbn [Nat.eqb negb].
  set (st := fold_left _ _ _). do 2 eexists. split_and!; [reflexivity|reflexivity| |];
    cbn [GetPrefix length Nat.add Nat.sub]; unfold GetPrefix.
  - by rewrite copies_eq.
  - rewrite byte_at_array. cbn [Nat.ltb Nat.leb]. unfold byte_at, or_at. rewrite list_lookup_alter_eq.
    assert (forall (x : Address) l, arr_list x = prefix :: l -> arr_list (array_of 8 (arr_list x)) !! 0%nat = Some prefix) as Hx.
    { intros x l Ex. unfold array_of. cbn [arr_list]. rewrite lookup_resize by (rewrite ?Ex; cbn; lia). by rewrite Ex. }
    erewrite Hx by apply copies_eq. cbn [fmap option_fmap option_map default].
    apply b2z_z2b_small, lor_byte; [apply b2z_range|lia].
Qed.

(** ** Properties *)

(** C19: the address of a key with at most 143 leading zeros determines its first
    [k + 113] bits: [GetKey] reads exactly these back and leaves the rest all
    ones, and the key that it reads has the same address; the subnet determines
    the first [k + 49] bits, and the key read from it has the same subnet. *)
Theorem address_round_trip key k a s : length key = 32%nat -> leading_zeros key k -> (k <= 143)%nat ->
  AddrForKey prefix key = Some a -> SubnetForKey prefix key = Some s ->
  (forall j, (j < 256)%nat -> bit (Address_GetKey prefix a) j = if (j <? k + 113)%nat then bit key j else true) /\
  AddrForKey prefix (Address_GetKey prefix a) = Some a /\
  (forall j, (j < 256)%nat -> bit (Subnet_GetKey prefix s) j = if (j <? k + 49)%nat then bit key j else true) /\
  SubnetForKey prefix (Subnet_GetKey prefix s) = Some s.
Proof.
  intros Hl Hz Hk Ha Hs. pose proof (address_bits key k a Hl Hz Hk Ha) as Hab.
  pose proof (subnet_bits key k s Hl Hz ltac:(lia) Hs) as Hsb. split_and!; [exact Hab| |exact Hsb|].
  - rewrite <- Ha. apply AddrForKey_agree with k; [done|apply length_array|done|done|]. intros j Hj.
    rewrite Hab by lia. by destruct (Nat.ltb_spec j (k + 113)); [|lia].
  - rewrite <- Hs. apply SubnetForKey_agree with k; [done|apply length_array|done|lia|]. intros j Hj.
    rewrite Hsb by lia. by destruct (Nat.ltb_spec j (k + 49)); [|lia].
Qed.

(** The transform of the Bloom filters gives the same value for a key, for
    what is read back from its address and for what is read back from its
    subnet: a lookup by an IPv6 address passes every filter that the full key
    was added to. *)
Theorem lookup_transform key k a s : length key = 32%nat -> leading_zeros key k -> (k <= 143)%nat ->
  AddrForKey prefix key = Some a -> SubnetForKey prefix key = Some s ->
  keyXform prefix key <> None /\
  keyXform prefix (Address_GetKey prefix a) = keyXform prefix key /\
  keyXform prefix (Subnet_GetKey prefix s) = keyXform prefix key.
Proof.
  intros Hl Hz Hk Ha Hs. pose proof (address_bits key k a Hl Hz Hk Ha) as Hab.
  pose proof (subnet_bits key k s Hl Hz ltac:(lia) Hs) as Hsb. split_and!.
  - unfold keyXform. by rewrite Hs.
  - apply keyXform_agree with k; [done|apply length_array|done|lia|]. intros j Hj.
    rewrite Hab by lia. by destruct (Nat.ltb_spec j (k + 113)); [|lia].
  - apply keyXform_agree with k; [done|apply length_array|done|lia|]. intros j Hj.
    rewrite Hsb by lia. by destruct (Nat.ltb_spec j (k + 49)); [|lia].
Qed.
End prefix.

(** A key with nine leading zeros. *)
Definition w_addr_key : list byte := Byte.x00 :: Byte.x5a :: replicate 30 Byte.xc3.

Lemma w_addr_zeros : leading_zeros w_addr_key 9.
Proof.
  split_and!; [lia| |reflexivity]. intros j Hj.
  do 9 (destruct j as [|j]; [reflexivity|]). lia.
Qed.

Lemma address_round_trip_witness : exists a s,
  AddrForKey Byte.x02 w_addr_key = Some a /\ SubnetForKey Byte.x02 w_addr_key = Some s /\
  AddrForKey Byte.x02 (Address_GetKey Byte.x02 a) = Some a.
Proof.
  destruct (first_bytes Byte.x02 w_addr_key eq_refl) as (a & s & Ea & Es & _). exists a, s. split_and!; [done|done|].
  exact (proj1 (proj2 (address_round_trip Byte.x02 w_addr_key 9 a s eq_refl w_addr_zeros ltac:(lia) Ea Es))).
Defined.

(** Only even prefixes are accepted, and under such a prefix the address of
    every key is a valid address and its subnet a valid subnet, while no
    sixteen bytes are both: a packet's destination is either a node or a
    subnet. *)
Theorem addresses_distinct old p prefix : Z.land (b2z old) 1 = 0 -> SetPrefix old p = (prefix, true) ->
  Z.land (b2z prefix) 1 = 0 /\
  (forall key, length key = 32%nat -> exists a s, AddrForKey prefix key = Some a /\ SubnetForKey prefix key = Some s /\
    Address_IsValid prefix a = true /\ Subnet_IsValid prefix s = true) /\
  (forall a : Address, Address_IsValid prefix a && Subnet_IsValid prefix (array_of 8 (arr_list a)) = false).
Proof.
  intros Ho Hp. assert (Z.land (b2z prefix) 1 = 0) as He.
  { unfold SetPrefix in Hp. destruct (Z.eqb_spec (Z.land (b2z p) 1) 0) as [E|E]; cbn in Hp; by simplify_eq. }
  split_and!; [exact He| |].
  - intros key Hl. destruct (first_bytes prefix key Hl) as (a & s & Ea & Es & Ha & Hs). exists a, s.
    split_and!; [done|done| |].
    + unfold Address_IsValid. cbn [GetPrefix length]. by apply bool_decide_eq_true.
    + unfold Subnet_IsValid. cbn [GetPrefix length Nat.sub take]. rewrite Hs. cbn. apply Z.eqb_refl.
  - intros a. unfold Address_IsValid, Subnet_IsValid. cbn [GetPrefix length Nat.sub take].
    destruct (bool_decide_reflect (take 1 (arr_list a) = GetPrefix prefix)) as [Ha|]; [|done].
    destruct (Z.eqb_spec (byte_at (array_of 8 (arr_list a)) 0) (Z.lor (byte_at (GetPrefix prefix) 0) 1)) as [E|];
      [|by rewrite andb_false_r].
    exfalso. rewrite byte_at_array in E. cbn [Nat.ltb Nat.leb] in E.
    destruct (arr_list a) as [|x l]; [done|]. cbn in Ha. injection Ha as ->. unfold byte_at in E. cbn in E.
    apply (f_equal (fun z => Z.testbit z 0)) in E. apply (f_equal (fun z => Z.testbit z 0)) in He.
    rewrite Z.lor_spec, orb_true_r in E. rewrite Z.land_spec, E in He. done.
Qed.

(** The count of leading zeros is a byte: on the all zero key it wraps to
    zero, and the address of that key is the address of the all ones key. *)
Theorem zero_key_collides prefix : AddrForKey prefix (replicate 32 Byte.x00) = AddrForKey prefix (replicate 32 Byte.xff) /\
  AddrForKey prefix (replicate 32 Byte.x00) <> None.
Proof. split; [|done]. vm_compute. done. Qed.
