(* ===== verification/Version.v ===== *)
(** * The handshake message of a link

    [src/core/version.go]: the metadata that both sides of a new connection send
    first, a sequence of fields with a type and a length, followed by a
    signature over a hash of the public key that is keyed with the password.

    Slices are taken with Go's bounds check, [slice], whose failure is a panic;
    running out of the fuel of the loop counts as a panic too, so that "never
    panics" says that the fuel is enough. *)

From S2P Require Import Prelude Crypto Binary Link.

(** BLAKE2b-512 ([golang.org/x/crypto/blake2b]): the keyed hash; with the empty
    key it is the plain one. *)
Class Blake2b := { blake2b_512 : list byte -> list byte -> array 64 }.

(** [New512] refuses keys above [blake2b.Size]. *)
Definition blake2b_Size : nat := 64.
Definition blake2b_New512 `{Blake2b} (key : list byte) : option (list byte -> array 64) :=
  if (blake2b_Size <? length key)%nat then None else Some (blake2b_512 key).
Definition blake2b_Sum512 `{Blake2b} (data : list byte) : array 64 := blake2b_512 [] data.

Record version_metadata := MkMetadata {
  vm_majorVer : Z;
  vm_minorVer : Z;
  vm_publicKey : list byte;
  vm_priority : Z;
  vm_features : Z;
  vm_communityProof : list byte;
  vm_nodeInfo : list byte
}.

Definition vm_set_majorVer (v : Z) (m : version_metadata) : version_metadata :=
  MkMetadata v (vm_minorVer m) (vm_publicKey m) (vm_priority m) (vm_features m) (vm_communityProof m) (vm_nodeInfo m).
Definition vm_set_minorVer (v : Z) (m : version_metadata) : version_metadata :=
  MkMetadata (vm_majorVer m) v (vm_publicKey m) (vm_priority m) (vm_features m) (vm_communityProof m) (vm_nodeInfo m).
Definition vm_set_publicKey (v : list byte) (m : version_metadata) : version_metadata :=
  MkMetadata (vm_majorVer m) (vm_minorVer m) v (vm_priority m) (vm_features m) (vm_communityProof m) (vm_nodeInfo m).
Definition vm_set_priority (v : Z) (m : version_metadata) : version_metadata :=
  MkMetadata (vm_majorVer m) (vm_minorVer m) (vm_publicKey m) v (vm_features m) (vm_communityProof m) (vm_nodeInfo m).
Definition vm_set_features (v : Z) (m : version_metadata) : version_metadata :=
  MkMetadata (vm_majorVer m) (vm_minorVer m) (vm_publicKey m) (vm_priority m) v (vm_communityProof m) (vm_nodeInfo m).
Definition vm_set_communityProof (v : list byte) (m : version_metadata) : version_metadata :=
  MkMetadata (vm_majorVer m) (vm_minorVer m) (vm_publicKey m) (vm_priority m) (vm_features m) v (vm_nodeInfo m).
Definition vm_set_nodeInfo (v : list byte) (m : version_metadata) : version_metadata :=
  MkMetadata (vm_majorVer m) (vm_minorVer m) (vm_publicKey m) (vm_priority m) (vm_features m) (vm_communityProof m) v.

#[global] Instance version_metadata_eq_dec : EqDecision version_metadata.
Proof. solve_decision. Defined.

(** [version_metadata{}] *)
Definition zero_metadata : version_metadata := MkMetadata 0 0 [] 0 0 [] [].

Definition ProtocolVersionMajor : Z := 0.
Definition ProtocolVersionMinor : Z := 5.

Definition FeatureCommunity : Z := Z.shiftl 1 0.

Definition metaVersionMajor : Z := 0.
Definition metaVersionMinor : Z := 1.
Definition metaPublicKey : Z := 2.
Definition metaPriority : Z := 3.
Definition metaFeatures : Z := 4.
Definition metaCommunityProof : Z := 5.
Definition metaNodeInfo : Z := 6.

(** [handshakeError]; the last two are [ErrHandshakeCommunityRequired] and
    [ErrHandshakeCommunityMismatch], which the link handler returns. *)
Inductive handshakeError :=
| ErrHandshakeInvalidPreamble
| ErrHandshakeInvalidLength
| ErrHandshakeInvalidPassword
| ErrHandshakeHashFailure
| ErrHandshakeIncorrectPassword
| ErrHandshakeCommunityRequired
| ErrHandshakeCommunityMismatch.

(** The errors of this file: one of the above, of the connection, or the
    message about the size of the node information. *)
Inductive versionError :=
| VHandshake (e : handshakeError)
| VRead (e : readError)
| VNodeInfoSize.

#[global] Instance handshakeError_eq_dec : EqDecision handshakeError.
Proof. solve_decision. Defined.
#[global] Instance versionError_eq_dec : EqDecision versionError.
Proof. solve_decision. Defined.

Definition version_getBaseMetadata : version_metadata := MkMetadata ProtocolVersionMajor ProtocolVersionMinor [] 0 0 [] [].

(** ** Community proofs *)

Section community.
Context `{Blake2b}.

Definition communityProofKey (community : list byte) : list byte :=
  if (length community <=? blake2b_Size)%nat then community else arr_list (blake2b_Sum512 community).

Definition newCommunityProof (community pubkey : list byte) : option (list byte) :=
  match blake2b_New512 (communityProofKey community) with
  | None => None
  | Some hasher => Some (arr_list (hasher pubkey))
  end.

Definition verifyCommunityProof (community proof pubkey : list byte) : bool :=
  match newCommunityProof community pubkey with
  | None => false
  | Some expected => bool_decide (expected = proof)
  end.
End community.

(** ** Encoding *)

(** Type, length and value; the length is what the code writes there. *)
Definition tlv (op len : Z) (field : list byte) : list byte := be_bytes 2 op ++ be_bytes 2 len ++ field.

Definition meta_bytes : list byte := [Byte.x6d; Byte.x65; Byte.x74; Byte.x61].

Definition maxNodeInfo : Z := 16384.

(** The fields of a message; [None] where the node information is too long. *)
Definition encode_fields (m : version_metadata) : option (list byte) :=
  let bs := tlv metaVersionMajor 2 (be_bytes 2 (vm_majorVer m)) in
  let bs := bs ++ tlv metaVersionMinor 2 (be_bytes 2 (vm_minorVer m)) in
  let bs := bs ++ tlv metaPublicKey (Z.of_nat publicKeySize) (vm_publicKey m) in
  let bs := bs ++ tlv metaPriority 1 [z2b (vm_priority m)] in
  let bs := if negb (vm_features m =? 0) then bs ++ tlv metaFeatures 8 (be_bytes 8 (vm_features m)) else bs in
  let bs := if (0 <? length (vm_communityProof m))%nat
            then bs ++ tlv metaCommunityProof (Z.of_nat (length (vm_communityProof m))) (vm_communityProof m) else bs in
  if (0 <? length (vm_nodeInfo m))%nat then
    if maxNodeInfo <? Z.of_nat (length (vm_nodeInfo m)) then None
    else Some (bs ++ tlv metaNodeInfo (Z.of_nat (length (vm_nodeInfo m))) (vm_nodeInfo m))
  else Some bs.

Section signature.
Context `{Ed25519, Blake2b}.

(** What is signed: the key, hashed with the password. *)
Definition signedHash (password publicKey : list byte) : sum versionError (list byte) :=
  match blake2b_New512 password with
  | None => inl (VHandshake ErrHandshakeInvalidPassword)
  | Some hasher =>
      if negb (length publicKey =? publicKeySize)%nat then inl (VHandshake ErrHandshakeHashFailure)
      else inr (arr_list (hasher publicKey))
  end.

Definition version_encode (m : version_metadata) (sk : privateKey) (password : list byte) : sum versionError (list byte) :=
  match encode_fields m with
  | None => inl VNodeInfoSize
  | Some bs =>
      match signedHash password (vm_publicKey m) with
      | inl e => inl e
      | inr hash =>
          let bs := bs ++ ed_sign sk hash in
          inr (meta_bytes ++ be_bytes 2 (Z.of_nat (length bs)) ++ bs)
      end
  end.

(** ** Decoding *)

(** [l[i:j]] *)
Definition slice {E} (l : list byte) (i j : nat) : outcome E (list byte) :=
  if (i <=? j)%nat && (j <=? length l)%nat then Ret (take (j - i) (drop i l)) else Panic.

Definition short : outcome versionError version_metadata := Fail (VHandshake ErrHandshakeInvalidLength).

(** The [switch] on the type of a field. *)
Definition decode_field (op : Z) (oplen : nat) (field : list byte) (m : version_metadata) : outcome versionError version_metadata :=
  if op =? metaVersionMajor then
    if negb (length field =? 2)%nat then short else Ret (vm_set_majorVer (be_val field) m)
  else if op =? metaVersionMinor then
    if negb (length field =? 2)%nat then short else Ret (vm_set_minorVer (be_val field) m)
  else if op =? metaPublicKey then
    if negb (length field =? publicKeySize)%nat then short else Ret (vm_set_publicKey field m)
  else if op =? metaPriority then
    if negb (length field =? 1)%nat then short
    else match field with b :: _ => Ret (vm_set_priority (b2z b) m) | [] => Panic end
  else if op =? metaFeatures then
    if (8 <=? oplen)%nat then
      v ← slice field 0 8; Ret (vm_set_features (be_val v) m)
    else Ret m
  else if op =? metaCommunityProof then Ret (vm_set_communityProof field m)
  else if op =? metaNodeInfo then
    if maxNodeInfo <? Z.of_nat oplen then Fail VNodeInfoSize
    else Ret (vm_set_nodeInfo (arr_list (array_of oplen field)) m)
  else Ret m.

Fixpoint decode_fields (fuel : nat) (bs : list byte) (m : version_metadata) : outcome versionError version_metadata :=
  match fuel with
  | O => Panic
  | S fuel =>
      if (4 <=? length bs)%nat then
        op ← slice bs 0 2;
        oplen ← slice bs 2 4;
        let oplen := Z.to_nat (be_val oplen) in
        bs ← slice bs 4 (length bs);
        if (length bs <? oplen)%nat then short
        else
          field ← slice bs 0 oplen;
          m ← decode_field (be_val op) oplen field m;
          bs ← slice bs oplen (length bs);
          decode_fields fuel bs m
      else if negb (length bs =? 0)%nat then short
      else Ret m
  end.

(** [r] is what the connection delivers before it fails; the result has the
    signature, the metadata and what was not read. *)
Definition decodeTLV (m : version_metadata) (r : list byte) :
    outcome versionError (list byte * version_metadata * list byte) :=
  match ReadFull 6 r with
  | inl e => Fail (VRead e)
  | inr (bh, r) =>
      tag ← slice bh 0 4;
      hl ← slice bh 4 6;
      let hl := Z.to_nat (be_val hl) in
      if negb (bool_decide (tag = meta_bytes)) then Fail (VHandshake ErrHandshakeInvalidPreamble)
      else if (hl <? signatureSize)%nat then Fail (VHandshake ErrHandshakeInvalidLength)
      else match ReadFull hl r with
      | inl e => Fail (VRead e)
      | inr (bs, r) =>
          sig ← slice bs (length bs - signatureSize) (length bs);
          bs ← slice bs 0 (length bs - signatureSize);
          m ← decode_fields (S (length bs)) bs m;
          Ret (sig, m, r)
      end
  end.

Definition verifySignature (m : version_metadata) (sig password : list byte) : option versionError :=
  match signedHash password (vm_publicKey m) with
  | inl e => Some e
  | inr hash =>
      if negb (ed_verify (array_of 32 (vm_publicKey m)) hash sig) then Some (VHandshake ErrHandshakeIncorrectPassword)
      else None
  end.

(** [decode]: the metadata is filled in even where the signature is refused. *)
Definition version_decode (m : version_metadata) (r password : list byte) :
    outcome versionError (version_metadata * list byte) :=
  '(sig, m, r) ← decodeTLV m r;
  match verifySignature m sig password with
  | Some e => Fail e
  | None => Ret (m, r)
  end.
End signature.

Definition version_check (m : version_metadata) : bool :=
  if negb (vm_majorVer m =? ProtocolVersionMajor) then false
  else if negb (vm_minorVer m =? ProtocolVersionMinor) then false
  else if negb (length (vm_publicKey m) =? publicKeySize)%nat then false
  else true.
