(* ===== verification/VersionSafety.v ===== *)
(** * Properties of the handshake message

    Encoding and decoding of [src/core/version.go]: the round trip, what any
    input may lead to, how unknown fields are treated and what the signature
    does not cover. *)

From S2P Require Import Prelude Crypto Binary Link Version.

(** ** Slices *)

Lemma slice_app_l {E} (a b : list byte) n : n = length a -> slice (E := E) (a ++ b) 0 n = Ret a.
Proof.
  intros ->. unfold slice. rewrite length_app. destruct (Nat.leb_spec (length a) (length a + length b)); [|lia].
  cbn [andb Nat.leb]. by rewrite Nat.sub_0_r, drop_0, take_app_length.
Qed.

Lemma slice_app_r {E} (a b : list byte) n k : n = length a -> k = (length a + length b)%nat -> slice (E := E) (a ++ b) n k = Ret b.
Proof.
  intros -> ->. unfold slice. rewrite length_app, Nat.leb_refl.
  destruct (Nat.leb_spec (length a) (length a + length b)); [|lia]. cbn [andb].
  rewrite drop_app_length. f_equal. apply take_ge. lia.
Qed.

Lemma slice_Ret {E} (l : list byte) i j : (i <= j <= length l)%nat -> slice (E := E) l i j = Ret (take (j - i) (drop i l)).
Proof. intros H. unfold slice. by destruct (Nat.leb_spec i j), (Nat.leb_spec j (length l)); try lia. Qed.

Lemma slice_inv {E} (l : list byte) i j : (i <= j <= length l)%nat ->
  exists s, slice (E := E) l i j = Ret s /\ length s = (j - i)%nat.
Proof. intros H. exists (take (j - i) (drop i l)). split; [by apply slice_Ret|]. rewrite length_take, length_drop. lia. Qed.

(** ** Messages as lists of fields *)

Abbreviation metaField := (Z * list byte)%type.

Definition field_bytes (f : metaField) : list byte := tlv f.1 (Z.of_nat (length f.2)) f.2.

Definition field_ok (f : metaField) : Prop := 0 <= f.1 < 2 ^ 16 /\ Z.of_nat (length f.2) < 2 ^ 16.

Definition fields_bytes (l : list metaField) : list byte := concat (map field_bytes l).

(** Decoding field after field. *)
Fixpoint decode_list (l : list metaField) (m : version_metadata) : outcome versionError version_metadata :=
  match l with
  | [] => Ret m
  | f :: l => m ← decode_field f.1 (length f.2) f.2 m; decode_list l m
  end.

Lemma length_field_bytes f : length (field_bytes f) = (4 + length f.2)%nat.
Proof. unfold field_bytes, tlv. by rewrite !length_app, !length_be_bytes. Qed.

Lemma fields_bytes_cons f l : fields_bytes (f :: l) = field_bytes f ++ fields_bytes l.
Proof. done. Qed.

Lemma decode_one fuel f bs m : field_ok f ->
  decode_fields (S fuel) (field_bytes f ++ bs) m =
    (m ← decode_field f.1 (length f.2) f.2 m; decode_fields fuel bs m).
Proof.
  intros [Ho Hf]. cbn [decode_fields]. rewrite length_app, length_field_bytes.
  destruct (Nat.leb_spec 4 (4 + length f.2 + length bs)); [|lia]. unfold field_bytes, tlv.
  rewrite <- !app_assoc. rewrite slice_app_l by by rewrite length_be_bytes. rewrite outcome_bind_ret.
  rewrite (slice_Ret _ 2 4) by (rewrite !length_app, !length_be_bytes; lia). change (4 - 2)%nat with 2%nat.
  rewrite drop_app_length' by by rewrite length_be_bytes. rewrite take_app_length' by by rewrite length_be_bytes.
  rewrite outcome_bind_ret. rewrite app_assoc. rewrite (slice_app_r (be_bytes 2 f.1 ++ _)) by
    (rewrite !length_app, !length_be_bytes; lia). rewrite outcome_bind_ret.
  rewrite !be_val_bytes. change (256 ^ Z.of_nat 2) with (2 ^ 16). rewrite !Z.mod_small by lia. rewrite Nat2Z.id.
  rewrite length_app. destruct (Nat.ltb_spec (length f.2 + length bs) (length f.2)); [lia|].
  rewrite slice_app_l by done. rewrite outcome_bind_ret. destruct (decode_field _ _ _ m); [|done..].
  rewrite !outcome_bind_ret. by rewrite slice_app_r.
Qed.

(** The loop decodes field after field, and its fuel is enough. *)
Lemma decode_fields_list l : forall fuel m, Forall field_ok l -> (length l < fuel)%nat ->
  decode_fields fuel (fields_bytes l) m = decode_list l m.
Proof.
  induction l as [|f l IH]; intros fuel m Hl Hf; (destruct fuel as [|fuel]; [cbn in Hf; lia|]); [done|].
  apply Forall_cons in Hl as [Ho Hl]. rewrite fields_bytes_cons, decode_one by done. cbn [decode_list].
  destruct (decode_field _ _ _ m); [|done..]. apply IH; [done|]. cbn in Hf. lia.
Qed.

Lemma length_fields_bytes l : (length l <= length (fields_bytes l))%nat.
Proof. induction l as [|f l IH]; [done|]. rewrite fields_bytes_cons, length_app, length_field_bytes. cbn. lia. Qed.

(** ** What the loop can end with *)

Lemma decode_features field m : (8 <= length field)%nat ->
  (v ← slice field 0 8; Ret (vm_set_features (be_val v) m)) =
    Ret (E := versionError) (vm_set_features (be_val (take 8 field)) m).
Proof. intros Hf. rewrite slice_Ret by lia. by rewrite drop_0. Qed.

(** What a decoded field leaves in the metadata. *)
Definition metadata_sized (m : version_metadata) : Prop :=
  0 <= vm_majorVer m < 2 ^ 16 /\ 0 <= vm_minorVer m < 2 ^ 16 /\
  (vm_publicKey m = [] \/ length (vm_publicKey m) = 32%nat) /\
  0 <= vm_priority m < 256 /\ 0 <= vm_features m < 2 ^ 64 /\
  Z.of_nat (length (vm_communityProof m)) < 2 ^ 16 /\ Z.of_nat (length (vm_nodeInfo m)) <= maxNodeInfo.

Lemma be_val_sized bs n : length bs = n -> 0 <= be_val bs < 256 ^ Z.of_nat n.
Proof. intros <-. apply be_val_range. Qed.

Lemma decode_field_sized op field m : Z.of_nat (length field) < 2 ^ 16 -> metadata_sized m ->
  match decode_field op (length field) field m with
  | Ret m' => metadata_sized m'
  | Fail _ => True
  | Panic => False
  end.
Proof.
  intros Hlen (H1 & H2 & H3 & H4 & H5 & H6 & H7). unfold decode_field.
  destruct (op =? metaVersionMajor).
  { destruct (Nat.eqb_spec (length field) 2) as [E|E]; [|done]. apply be_val_sized in E.
    change (256 ^ Z.of_nat 2) with (2 ^ 16) in E. split_and!; cbn; done || lia. }
  destruct (op =? metaVersionMinor).
  { destruct (Nat.eqb_spec (length field) 2) as [E|E]; [|done]. apply be_val_sized in E.
    change (256 ^ Z.of_nat 2) with (2 ^ 16) in E. split_and!; cbn; done || lia. }
  destruct (op =? metaPublicKey).
  { destruct (Nat.eqb_spec (length field) publicKeySize) as [E|E]; [|done]. split_and!; cbn; done || lia || by right. }
  destruct (op =? metaPriority).
  { destruct field as [|b [|b' field]]; try done. pose proof (b2z_range b). split_and!; cbn; done || lia. }
  destruct (op =? metaFeatures).
  { destruct (Nat.leb_spec 8 (length field)) as [E|E]; [|done]. rewrite decode_features by done.
    pose proof (be_val_sized (take 8 field) 8 ltac:(rewrite length_take; lia)) as Hv.
    change (256 ^ Z.of_nat 8) with (2 ^ 64) in Hv. split_and!; cbn; done || lia. }
  destruct (op =? metaCommunityProof); [split_and!; cbn; done || lia|].
  destruct (op =? metaNodeInfo); [|done].
  destruct (Z.ltb_spec maxNodeInfo (Z.of_nat (length field))) as [E|E]; [done|].
  split_and!; cbn [vm_set_nodeInfo vm_majorVer vm_minorVer vm_publicKey vm_priority vm_features vm_communityProof vm_nodeInfo];
    try done; try lia. by rewrite length_array.
Qed.

Lemma decode_fields_sized fuel : forall bs m, (length bs < fuel)%nat -> metadata_sized m ->
  match decode_fields fuel bs m with
  | Ret m' => metadata_sized m'
  | Fail _ => True
  | Panic => False
  end.
Proof.
  induction fuel as [|fuel IH]; intros bs m Hf Hm; [lia|]. cbn [decode_fields].
  destruct (Nat.leb_spec 4 (length bs)) as [H4|H4]; [|by destruct (negb (length bs =? 0)%nat)].
  rewrite !slice_Ret by lia. rewrite !outcome_bind_ret.
  set (oplen := Z.to_nat _). set (bs' := take _ (drop 4 bs)).
  assert (length bs' = length bs - 4)%nat as Hl by (unfold bs'; rewrite length_take, length_drop; lia).
  assert (Z.of_nat oplen < 2 ^ 16) as Ho.
  { unfold oplen. pose proof (be_val_sized (take (4 - 2) (drop 2 bs)) 2 ltac:(rewrite length_take, length_drop; lia)) as Hb.
    change (256 ^ Z.of_nat 2) with (2 ^ 16) in Hb. lia. }
  destruct (Nat.ltb_spec (length bs') oplen) as [|Hlo]; [done|]. rewrite (slice_Ret bs' 0 oplen), outcome_bind_ret by lia.
  set (field := take _ (drop 0 bs')).
  assert (length field = oplen) as Hfl by (unfold field; rewrite length_take, length_drop; lia).
  pose proof (decode_field_sized (be_val (take (2 - 0) (drop 0 bs))) field m ltac:(lia) Hm) as Hd. rewrite Hfl in Hd.
  destruct (decode_field _ _ _ m) as [m'|e|]; [|done|done]. rewrite outcome_bind_ret, slice_Ret by lia.
  rewrite outcome_bind_ret. apply IH; [|done]. rewrite length_take, length_drop. lia.
Qed.

(** ** Whole messages *)

Definition message (l : list metaField) (sig : list byte) : list byte :=
  let bs := fields_bytes l ++ sig in meta_bytes ++ be_bytes 2 (Z.of_nat (length bs)) ++ bs.

(** The whole message fits its length field. *)
Definition message_ok (l : list metaField) : Prop :=
  Forall field_ok l /\ Z.of_nat (length (fields_bytes l)) + 64 < 2 ^ 16.

Lemma ReadFull_app a b n : n = length a -> ReadFull n (a ++ b) = inr (a, b).
Proof.
  intros ->. unfold ReadFull. rewrite length_app. destruct (Nat.leb_spec (length a) (length a + length b)); [|lia].
  by rewrite take_app_length, drop_app_length.
Qed.

Lemma decodeTLV_message l sig rest m : message_ok l -> length sig = signatureSize ->
  decodeTLV m (message l sig ++ rest) = (m' ← decode_list l m; Ret (sig, m', rest)).
Proof.
  intros [Hl Hb] Hs. unfold decodeTLV, message. set (n := Z.of_nat _).
  assert (n = Z.of_nat (length (fields_bytes l)) + 64) as Hn.
  { unfold n. rewrite length_app, Hs. unfold signatureSize. lia. }
  rewrite <- !app_assoc. rewrite (app_assoc meta_bytes).
  rewrite ReadFull_app by by rewrite length_app, length_be_bytes. rewrite slice_app_l by done.
  rewrite outcome_bind_ret. rewrite slice_app_r by by rewrite ?length_be_bytes. rewrite outcome_bind_ret.
  rewrite be_val_bytes. change (256 ^ Z.of_nat 2) with (2 ^ 16). rewrite Z.mod_small by lia.
  rewrite bool_decide_eq_true_2 by done. cbn [negb].
  destruct (Nat.ltb_spec (Z.to_nat n) signatureSize) as [H|_]; [unfold signatureSize in H; lia|].
  rewrite (app_assoc (fields_bytes l)). rewrite ReadFull_app by (unfold n; by rewrite Nat2Z.id).
  rewrite length_app, Hs. replace (length (fields_bytes l) + signatureSize - signatureSize)%nat with (length (fields_bytes l)) by lia.
  rewrite (slice_app_r (fields_bytes l) sig (length (fields_bytes l))) by (done || by rewrite Hs). rewrite outcome_bind_ret. rewrite slice_app_l by done.
  rewrite outcome_bind_ret. rewrite decode_fields_list; [done|done|]. pose proof (length_fields_bytes l). lia.
Qed.

(** What the result of [decodeTLV] says of its input. *)
Lemma decodeTLV_inv m r : metadata_sized m ->
  match decodeTLV m r with
  | Ret (sig, m', rest) => metadata_sized m' /\ length sig = signatureSize /\
      exists c, r = c ++ sig ++ rest /\ 6 <= Z.of_nat (length c) < 2 ^ 16 + 6 - 64 /\ take 4 c = meta_bytes
  | Fail _ => True
  | Panic => False
  end.
Proof.
  intros Hm. unfold decodeTLV, ReadFull. destruct (Nat.leb_spec 6 (length r)) as [H6|]; [|done].
  assert (length (take 6 r) = 6%nat) as Hl by (rewrite length_take; lia).
  rewrite (slice_Ret _ 0 4), (slice_Ret _ 4 6), !outcome_bind_ret by lia. change (4 - 0)%nat with 4%nat. change (6 - 4)%nat with 2%nat.
  rewrite drop_0. case_bool_decide as Ht; [|done]. cbn [negb].
  set (h := be_val _). assert (0 <= h < 2 ^ 16) as Hh.
  { unfold h. pose proof (be_val_sized (take 2 (drop 4 (take 6 r))) 2 ltac:(rewrite length_take, length_drop; lia)) as Hb.
    change (256 ^ Z.of_nat 2) with (2 ^ 16) in Hb. lia. }
  destruct (Nat.ltb_spec (Z.to_nat h) signatureSize) as [|Hs]; [done|].
  destruct (Nat.leb_spec (Z.to_nat h) (length (drop 6 r))) as [Hr|]; [|done].
  set (bs := take (Z.to_nat h) (drop 6 r)). assert (length bs = Z.to_nat h) as Hb by (unfold bs; rewrite length_take; lia).
  rewrite (slice_Ret bs _ (length bs)), (slice_Ret bs 0), !outcome_bind_ret by lia.
  set (fs := take _ (drop 0 bs)).
  pose proof (decode_fields_sized (S (length fs)) fs m ltac:(lia) Hm) as Hd.
  destruct (decode_fields _ fs m) as [m'|e|]; [|done|done]. rewrite outcome_bind_ret. split_and!; [done| |].
  - rewrite length_take, length_drop. lia.
  - unfold signatureSize in *. exists (take 6 r ++ take (length bs - 64) bs). split_and!.
    + replace (length bs - (length bs - 64))%nat with 64%nat by lia.
      rewrite (take_ge (drop _ bs)) by (rewrite length_drop; lia).
      rewrite <- app_assoc, (app_assoc (take _ bs)), take_drop. unfold bs. by rewrite !take_drop.
    + rewrite length_app, Hl, length_take. lia.
    + rewrite length_app, Hl, length_take. lia.
    + by rewrite take_app_le by lia.
Qed.

(** The fields that [encode] writes. *)
Definition fields_of (m : version_metadata) : list metaField :=
  [(metaVersionMajor, be_bytes 2 (vm_majorVer m)); (metaVersionMinor, be_bytes 2 (vm_minorVer m));
   (metaPublicKey, vm_publicKey m); (metaPriority, [z2b (vm_priority m)])] ++
  (if negb (vm_features m =? 0) then [(metaFeatures, be_bytes 8 (vm_features m))] else []) ++
  (if (0 <? length (vm_communityProof m))%nat then [(metaCommunityProof, vm_communityProof m)] else []) ++
  (if (0 <? length (vm_nodeInfo m))%nat then [(metaNodeInfo, vm_nodeInfo m)] else []).

(** A complete metadata record: what a node makes of its configuration. *)
Definition metadata_ok (m : version_metadata) : Prop :=
  metadata_sized m /\ length (vm_publicKey m) = 32%nat /\ (length (vm_communityProof m) <= 64)%nat.

Lemma fields_bytes_app l k : fields_bytes (l ++ k) = fields_bytes l ++ fields_bytes k.
Proof. unfold fields_bytes. by rewrite map_app, concat_app. Qed.

Lemma encode_fields_eq m : metadata_ok m -> encode_fields m = Some (fields_bytes (fields_of m)).
Proof.
  intros ((_ & _ & _ & _ & _ & _ & Hn) & Hk & _). unfold encode_fields, fields_of. rewrite !fields_bytes_app.
  destruct (Z.ltb_spec maxNodeInfo (Z.of_nat (length (vm_nodeInfo m)))) as [|_]; [lia|].
  assert (forall f, fields_bytes [f] = field_bytes f) as Hone by (intros; apply app_nil_r).
  assert (fields_bytes [(metaVersionMajor, be_bytes 2 (vm_majorVer m)); (metaVersionMinor, be_bytes 2 (vm_minorVer m));
    (metaPublicKey, vm_publicKey m); (metaPriority, [z2b (vm_priority m)])] =
    ((tlv metaVersionMajor 2 (be_bytes 2 (vm_majorVer m)) ++ tlv metaVersionMinor 2 (be_bytes 2 (vm_minorVer m))) ++
    tlv metaPublicKey (Z.of_nat publicKeySize) (vm_publicKey m)) ++ tlv metaPriority 1 [z2b (vm_priority m)]) as ->.
  { unfold fields_bytes, field_bytes. cbn [map concat fst snd]. by rewrite !length_be_bytes, Hk, app_nil_r, <- !app_assoc. }
  assert (fields_bytes (if negb (vm_features m =? 0) then [(metaFeatures, be_bytes 8 (vm_features m))] else []) =
    if negb (vm_features m =? 0) then tlv metaFeatures 8 (be_bytes 8 (vm_features m)) else []) as ->.
  { destruct (negb _); [|done]. rewrite Hone. unfold field_bytes. cbn [fst snd]. by rewrite length_be_bytes. }
  destruct (negb (vm_features m =? 0)), (0 <? length (vm_communityProof m))%nat, (0 <? length (vm_nodeInfo m))%nat;
    rewrite ?Hone; change (fields_bytes []) with (@nil byte); rewrite ?app_nil_l, ?app_nil_r, <- ?app_assoc; done.
Qed.

Lemma length_tlvs (l : list metaField) : length (fields_bytes l) = foldr (fun f n => 4 + length f.2 + n)%nat 0%nat l.
Proof. induction l as [|f l IH]; [done|]. rewrite fields_bytes_cons, length_app, length_field_bytes, IH. done. Qed.

Lemma fields_of_ok m : metadata_ok m -> message_ok (fields_of m).
Proof.
  intros ((H1 & H2 & H3 & H4 & H5 & H6 & H7) & Hk & Hp). unfold maxNodeInfo in H7. split.
  - unfold fields_of. apply Forall_app_2; [|apply Forall_app_2; [|apply Forall_app_2]].
    + do 4 (apply Forall_cons_2; [split; cbn [fst snd]; rewrite ?length_be_bytes, ?Hk; done|]). constructor.
    + destruct (negb _); [|constructor]. apply Forall_singleton. done.
    + destruct (0 <? length (vm_communityProof m))%nat; [|constructor]. apply Forall_singleton. done.
    + destruct (0 <? length (vm_nodeInfo m))%nat; [|constructor]. apply Forall_singleton. split; [done|cbn [snd]; lia].
  - unfold fields_of. rewrite !fields_bytes_app, !length_app, !length_tlvs. cbn [foldr fst snd length].
    rewrite !length_be_bytes, Hk. destruct (negb _), (0 <? _)%nat, (0 <? length (vm_nodeInfo m))%nat; cbn [foldr fst snd];
      rewrite ?length_be_bytes; lia.
Qed.

Lemma decode_two v : 0 <= v < 2 ^ 16 -> be_val (be_bytes 2 v) = v.
Proof. intros Hv. rewrite be_val_bytes. by apply Z.mod_small. Qed.

Lemma decode_list_app l k m : decode_list (l ++ k) m = (m ← decode_list l m; decode_list k m).
Proof.
  revert m. induction l as [|f l IH]; intros m; [done|]. cbn [app decode_list].
  destruct (decode_field _ _ _ m); [|done..]. rewrite !outcome_bind_ret. apply IH.
Qed.

(** The fields that were written give the metadata back. *)
Lemma decode_list_fields_of m : metadata_ok m -> decode_list (fields_of m) zero_metadata = Ret m.
Proof.
  destruct m as [ma mi pk pr fe pf ni]. intros ((H1 & H2 & _ & H4 & H5 & H6 & H7) & Hk & Hp). unfold fields_of.
  cbn [vm_majorVer vm_minorVer vm_publicKey vm_priority vm_features vm_communityProof vm_nodeInfo] in *.
  rewrite !decode_list_app. cbn [decode_list fst snd].
  assert (decode_field metaVersionMajor (length (be_bytes 2 ma)) (be_bytes 2 ma) zero_metadata =
    Ret (vm_set_majorVer ma zero_metadata)) as -> by (unfold decode_field; cbn -[be_val be_bytes]; by rewrite length_be_bytes, decode_two).
  rewrite outcome_bind_ret. set (m1 := vm_set_majorVer _ _).
  assert (decode_field metaVersionMinor (length (be_bytes 2 mi)) (be_bytes 2 mi) m1 = Ret (vm_set_minorVer mi m1)) as -> by
    (unfold decode_field; cbn -[be_val be_bytes]; by rewrite length_be_bytes, decode_two).
  rewrite outcome_bind_ret. set (m2 := vm_set_minorVer _ _).
  assert (decode_field metaPublicKey (length pk) pk m2 = Ret (vm_set_publicKey pk m2)) as -> by
    (unfold decode_field; rewrite Hk; done).
  rewrite outcome_bind_ret. set (m3 := vm_set_publicKey _ _).
  assert (decode_field metaPriority (length [z2b pr]) [z2b pr] m3 = Ret (vm_set_priority pr m3)) as -> by
    (unfold decode_field; cbn -[b2z z2b]; by rewrite b2z_z2b_small).
  rewrite !outcome_bind_ret. set (m4 := vm_set_priority _ _). rewrite !decode_list_app.
  assert (decode_list (if negb (fe =? 0) then [(metaFeatures, be_bytes 8 fe)] else []) m4 = Ret (vm_set_features fe m4)) as ->.
  { destruct (Z.eqb_spec fe 0) as [->|Hf]; [done|]. cbn [negb decode_list fst snd]. unfold decode_field.
    cbn [Z.eqb metaFeatures metaVersionMajor metaVersionMinor metaPublicKey metaPriority Pos.eqb]. rewrite length_be_bytes.
    rewrite decode_features by by rewrite length_be_bytes. change (8 <=? 8)%nat with true. cbv iota.
    rewrite outcome_bind_ret, take_ge, be_val_bytes, Z.mod_small by (rewrite ?length_be_bytes; done). done. }
  rewrite outcome_bind_ret. set (m5 := vm_set_features _ _). rewrite decode_list_app.
  assert (decode_list (if (0 <? length pf)%nat then [(metaCommunityProof, pf)] else []) m5 = Ret (vm_set_communityProof pf m5)) as ->.
  { destruct pf; done. }
  rewrite outcome_bind_ret. set (m6 := vm_set_communityProof _ _).
  destruct (Nat.ltb_spec 0 (length ni)) as [Hn|Hn]; [|by destruct ni; [|cbn in Hn; lia]].
  cbn [decode_list fst snd]. unfold decode_field.
  cbn [Z.eqb metaFeatures metaVersionMajor metaVersionMinor metaPublicKey metaPriority metaCommunityProof metaNodeInfo Pos.eqb].
  destruct (Z.ltb_spec maxNodeInfo (Z.of_nat (length ni))) as [|_]; [lia|]. rewrite outcome_bind_ret.
  rewrite array_of_exact by done. done.
Qed.

(** A message that is cut off is never accepted. *)
Lemma truncated_message `{Ed25519, Blake2b} l sig n m password : message_ok l -> length sig = signatureSize ->
  (n < length (message l sig))%nat -> exists e, version_decode m (take n (message l sig)) password = Fail (VRead e).
Proof.
  intros [_ Hb] Hs Hn. unfold version_decode, decodeTLV. unfold message in *. set (bs := fields_bytes l ++ sig) in *.
  assert (length bs = length (fields_bytes l) + 64)%nat as Hl by (unfold bs; by rewrite length_app, Hs).
  rewrite app_assoc in *. set (hd := meta_bytes ++ be_bytes 2 (Z.of_nat (length bs))) in *.
  assert (length hd = 6)%nat as Hh by (unfold hd; by rewrite length_app, length_be_bytes).
  rewrite length_app, Hh in Hn. unfold ReadFull at 1. rewrite length_take, length_app, Hh.
  destruct (Nat.leb_spec 6 (n `min` (6 + length bs))) as [H6|H6]; [|by eexists].
  rewrite take_take. replace (6 `min` n)%nat with 6%nat by lia.
  rewrite (take_app_length' hd bs 6) by by rewrite Hh.
  assert (slice (E := versionError) hd 0 4 = Ret meta_bytes) as -> by by apply slice_app_l.
  assert (slice (E := versionError) hd 4 6 = Ret (be_bytes 2 (Z.of_nat (length bs)))) as -> by
    (apply slice_app_r; by rewrite ?length_be_bytes).
  rewrite !outcome_bind_ret.
  rewrite be_val_bytes. change (256 ^ Z.of_nat 2) with (2 ^ 16). rewrite Z.mod_small by lia. rewrite Nat2Z.id.
  rewrite bool_decide_eq_true_2 by done. cbn [negb].
  destruct (Nat.ltb_spec (length bs) signatureSize) as [|_]; [unfold signatureSize in *; lia|].
  unfold ReadFull. fold hd. rewrite length_drop, length_take, length_app, Hh.
  destruct (Nat.leb_spec (length bs) (n `min` (6 + length bs) - 6)) as [|_]; [lia|]. by eexists.
Qed.

(** ** Properties *)

Section properties.
Context `{Ed25519, Blake2b}.

Lemma encode_eq m sk password : metadata_ok m -> (length password <= blake2b_Size)%nat ->
  version_encode m sk password = inr (message (fields_of m) (ed_sign sk (blake2b_512 password (vm_publicKey m)))).
Proof.
  intros Hm Hp. unfold version_encode. rewrite encode_fields_eq by done. unfold signedHash, blake2b_New512.
  destruct (Nat.ltb_spec blake2b_Size (length password)) as [|_]; [lia|]. destruct Hm as (_ & -> & _). done.
Qed.

Lemma verifySignature_spec m sig password : verifySignature m sig password = None <->
  (length password <= blake2b_Size)%nat /\ length (vm_publicKey m) = publicKeySize /\
  ed_verify (array_of 32 (vm_publicKey m)) (blake2b_512 password (vm_publicKey m)) sig = true.
Proof.
  unfold verifySignature, signedHash, blake2b_New512.
  destruct (Nat.ltb_spec blake2b_Size (length password)); [split; [done|lia]|].
  destruct (Nat.eqb_spec (length (vm_publicKey m)) publicKeySize); [|split; [done|naive_solver]].
  cbn [negb]. destruct (ed_verify _ _ _); cbn [negb]; naive_solver.
Qed.

(** C20: [decode] is the inverse of [encode]: the metadata of a node, signed with
    the private half of its key, is decoded from any stream that starts with
    its encoding, by a node with the same password, and exactly the encoding is
    read; for every strict prefix, the decoder reports the end of the stream. *)
Theorem handshake_round_trip `{!Ed25519Laws} m sk password rest : metadata_ok m -> ed_valid sk ->
  arr_list (ed_public sk) = vm_publicKey m -> (length password <= blake2b_Size)%nat ->
  exists bs, version_encode m sk password = inr bs /\
    version_decode zero_metadata (bs ++ rest) password = Ret (m, rest) /\
    forall n, (n < length bs)%nat -> exists e, version_decode zero_metadata (take n bs) password = Fail (VRead e).
Proof.
  intros Hm Hv Hk Hp. rewrite encode_eq by done. eexists. split; [reflexivity|]. split.
  - unfold version_decode. rewrite decodeTLV_message by (by apply fields_of_ok || apply ed_sign_length).
    rewrite decode_list_fields_of, !outcome_bind_ret by done.
    enough (verifySignature m (ed_sign sk (blake2b_512 password (vm_publicKey m))) password = None) as -> by done.
    apply verifySignature_spec. split_and!; [done|apply Hm|]. rewrite <- Hk, array_of_list. by apply ed_verify_sign.
  - intros n Hn. by apply truncated_message; [apply fields_of_ok|apply ed_sign_length|].
Qed.

Lemma zero_sized : metadata_sized zero_metadata.
Proof. split_and!; try done. by left. Qed.

(** Whatever bytes the other side sends, decoding neither panics nor runs
    for ever; what it accepts is at most 64 KiB long, starts with the four
    bytes of the protocol, has a key of 32 bytes, fields within their bounds,
    and ends with a signature by that key of its hash under the password. *)
Theorem decode_total r password :
  match version_decode zero_metadata r password with
  | Ret (m, rest) => metadata_sized m /\ length (vm_publicKey m) = 32%nat /\ (length password <= blake2b_Size)%nat /\
      exists c sig, r = c ++ sig ++ rest /\ 6 <= Z.of_nat (length c) < 2 ^ 16 + 6 - 64 /\ take 4 c = meta_bytes /\
        length sig = signatureSize /\
        ed_verify (array_of 32 (vm_publicKey m)) (blake2b_512 password (vm_publicKey m)) sig = true
  | Fail _ => True
  | Panic => False
  end.
Proof.
  unfold version_decode. pose proof (decodeTLV_inv zero_metadata r zero_sized) as Hi.
  destruct (decodeTLV zero_metadata r) as [[[sig m] rest]|e|]; [|done|done]. rewrite outcome_bind_ret.
  destruct Hi as (Hm & Hs & c & Hr & Hc & Ht). destruct (verifySignature m sig password) as [e|] eqn:E; [done|].
  apply verifySignature_spec in E as (Hp & Hk & Hv). split_and!; [done|done|done|]. by exists c, sig.
Qed.

(** What the program knows of the types of fields. *)
Definition known_field (op : Z) : Prop := 0 <= op <= 6.

Lemma unknown_skipped op field m : ~ known_field op -> decode_field op (length field) field m = Ret m.
Proof.
  intros Hop. unfold decode_field, known_field, metaVersionMajor, metaVersionMinor, metaPublicKey, metaPriority, metaFeatures,
    metaCommunityProof, metaNodeInfo in *.
  repeat match goal with |- context [?x =? ?y] => destruct (Z.eqb_spec x y); [exfalso; lia|] end. done.
Qed.

(** Later versions may add fields: a field of a type that is not known,
    wherever it stands in a message, changes nothing in what is decoded. *)
Theorem unknown_fields_skipped l1 f l2 sig m rest : message_ok (l1 ++ f :: l2) -> ~ known_field f.1 ->
  length sig = signatureSize ->
  decodeTLV m (message (l1 ++ f :: l2) sig ++ rest) = decodeTLV m (message (l1 ++ l2) sig ++ rest).
Proof.
  intros Hok Hf Hs. assert (message_ok (l1 ++ l2)) as Hok'.
  { destruct Hok as [Hl Hb]. apply Forall_app in Hl as [H1 [_ H2]%Forall_cons]. split; [by apply Forall_app|].
    rewrite fields_bytes_app, fields_bytes_cons, !length_app in Hb. rewrite fields_bytes_app, length_app. lia. }
  rewrite !decodeTLV_message by done. rewrite !decode_list_app.
  destruct (decode_list l1 m) as [m1|e|]; [|done|done]. rewrite !outcome_bind_ret. cbn [decode_list].
  by rewrite unknown_skipped, outcome_bind_ret.
Qed.

(** The signature covers the public key and the password only: from one
    message of a node anyone can make an accepted one with other versions,
    priority, features, community proof and node information. *)
Theorem signature_covers_key_only `{!Ed25519Laws} m m' sk password bs : metadata_ok m -> metadata_ok m' ->
  vm_publicKey m' = vm_publicKey m -> ed_valid sk -> arr_list (ed_public sk) = vm_publicKey m ->
  version_encode m sk password = inr bs ->
  version_decode zero_metadata (message (fields_of m') (drop (length bs - signatureSize) bs)) password = Ret (m', []).
Proof.
  intros Hm Hm' Hk Hv Hp He. assert (length password <= blake2b_Size)%nat as Hpw.
  { unfold version_encode, signedHash, blake2b_New512 in He. destruct (encode_fields m); [|done].
    by destruct (Nat.ltb_spec blake2b_Size (length password)). }
  rewrite encode_eq in He by done. injection He as <-. set (sig := ed_sign _ _).
  assert (length sig = signatureSize) as Hs by apply ed_sign_length.
  assert (forall l, drop (length (message l sig) - signatureSize) (message l sig) = sig) as ->.
  { intros l. unfold message. rewrite !app_assoc. apply drop_app_length'. rewrite !length_app, Hs. lia. }
  rewrite <- (app_nil_r (message _ _)). unfold version_decode. rewrite decodeTLV_message by (done || by apply fields_of_ok).
  rewrite decode_list_fields_of, !outcome_bind_ret by done.
  enough (verifySignature m' sig password = None) as -> by done.
  apply verifySignature_spec. split_and!; [done|apply Hm'|]. unfold sig. rewrite Hk, <- Hp, array_of_list. by apply ed_verify_sign.
Qed.
End properties.

(** ** Witnesses *)

(** Something in place of a hash. *)
Definition toy_blake2b : Blake2b := {| blake2b_512 key data := array_of 64 (key ++ data) |}.

Definition w_sk : privateKey := array_of 64 (replicate 32 Byte.x11 ++ replicate 32 Byte.x2a).
Definition w_metadata : version_metadata :=
  MkMetadata 0 5 (replicate 32 Byte.x2a) 7 FeatureCommunity (replicate 64 Byte.x33) [Byte.x7b; Byte.x7d].
Definition w_metadata' : version_metadata := MkMetadata 0 5 (replicate 32 Byte.x2a) 0 0 [] [].
Definition w_password : list byte := [Byte.x70; Byte.x77].

Lemma w_metadata_ok : metadata_ok w_metadata /\ metadata_ok w_metadata'.
Proof. split; (split; [unfold metadata_sized; repeat split; try done; by right|split; [reflexivity|cbn; lia]]). Qed.

Lemma handshake_round_trip_witness : exists bs,
  @version_encode toy_ed25519 toy_blake2b w_metadata w_sk w_password = inr bs /\
  @version_decode toy_ed25519 toy_blake2b zero_metadata (bs ++ [Byte.x00]) w_password = Ret (w_metadata, [Byte.x00]).
Proof.
  destruct (@handshake_round_trip toy_ed25519 toy_blake2b toy_ed25519_laws w_metadata w_sk w_password [Byte.x00]
    (proj1 w_metadata_ok) I eq_refl ltac:(unfold blake2b_Size; cbn; lia)) as (bs & He & Hd & _). by exists bs.
Defined.
