(* ===== verification/Handshake.v ===== *)
(** * The handshake of a link

    [src/core/link.go], [handler], and the setup options of
    [src/core/options.go] that it reads: both ends of a new connection send
    their metadata, check the other's, and hand the connection to the network
    layer.

    The connection is an environment: whether its deadlines can be set, what
    its write returns, and the bytes that arrive before it ends or the deadline
    passes. The code's effects, in order, are returned with the result; log
    messages and the strings made for them are left out. *)

From S2P Require Import Prelude Crypto Binary Link PacketConn Address Version.

Inductive linkType := linkTypePersistent | linkTypeEphemeral | linkTypeIncoming.
#[global] Instance linkType_eq_dec : EqDecision linkType.
Proof. solve_decision. Defined.

Inductive communityMode := CommunityModeStrict | CommunityModeSoft.
#[global] Instance communityMode_eq_dec : EqDecision communityMode.
Proof. solve_decision. Defined.

(** The part of [Core] that links use. *)
Record coreConfig := MkCoreConfig {
  cc_secret : privateKey;
  cc_public : list byte;
  cc_prefix : byte;
  cc_community : list byte;
  cc_communityMode : communityMode;
  cc_allowedPublicKeys : gset (array 32);
  cc_nodeInfo : list byte
}.

(** ** Setup options *)

(** [SetupOption]s; [CommunityMode] is a string. *)
Inductive setupOption :=
| AllowedPublicKey (key : list byte)
| Community (community : list byte)
| CommunityMode (mode : string).

Definition set_allowed (keys : gset (array 32)) (c : coreConfig) : coreConfig :=
  MkCoreConfig (cc_secret c) (cc_public c) (cc_prefix c) (cc_community c) (cc_communityMode c) keys (cc_nodeInfo c).
Definition set_community (community : list byte) (c : coreConfig) : coreConfig :=
  MkCoreConfig (cc_secret c) (cc_public c) (cc_prefix c) community (cc_communityMode c) (cc_allowedPublicKeys c) (cc_nodeInfo c).
Definition set_communityMode (mode : communityMode) (c : coreConfig) : coreConfig :=
  MkCoreConfig (cc_secret c) (cc_public c) (cc_prefix c) (cc_community c) mode (cc_allowedPublicKeys c) (cc_nodeInfo c).

(** [false] is the error for another mode. *)
Definition applyOption (opt : setupOption) (c : coreConfig) : coreConfig * bool :=
  match opt with
  | AllowedPublicKey key => (set_allowed (cc_allowedPublicKeys c ∪ {[array_of 32 key]}) c, true)
  | Community community => (set_community community c, true)
  | CommunityMode mode =>
      if String.eqb mode "" || String.eqb mode "strict" then (set_communityMode CommunityModeStrict c, true)
      else if String.eqb mode "soft" then (set_communityMode CommunityModeSoft c, true)
      else (c, false)
  end.

(** ** The handler *)

Record linkOptions := MkLinkOptions {
  lo_pinnedEd25519Keys : gset (array 32);
  lo_priority : Z;
  lo_tlsSNI : string;
  lo_password : list byte;
  lo_maxBackoff : Z
}.

Inductive hsError :=
| HsCommunityProof
| HsEncode (e : versionError)
| HsSetDeadline
| HsWrite
| HsIncomplete
| HsVersion (e : versionError)
| HsIncompatible
| HsClearDeadline
| ErrLinkToSelf
| HsNotPinned
| HsNotAllowed
| HsConn (e : connError).

Inductive hsEffect :=
| HDeadline (seconds : Z)
| HClearDeadline
| HSend (bs : list byte)
| HClose
| HCommunityStatus (status : string)
| HNodeInfo (info : list byte)
| HSuccess
| HHandleConn (key : list byte) (prio : Z).

(** The connection. [hc_write n] is what a write of [n] bytes returns. *)
Record hsConn := MkHsConn {
  hc_setDeadline : bool;
  hc_write : nat -> option nat;
  hc_stream : list byte;
  hc_clearDeadline : bool;
  hc_handle : list byte -> Z -> list byte -> option connError
}.

(** Effects in order, and a result. *)
Definition H_ (A : Type) : Type := list hsEffect * outcome hsError A.
#[global] Instance h_ret : MRet H_ := fun A a => ([], Ret a).
#[global] Instance h_bind : MBind H_ := fun A B f m =>
  match m with
  | (es, Ret a) => let '(es', r) := f a in (es ++ es', r)
  | (es, Fail e) => (es, Fail e)
  | (es, Panic) => (es, Panic)
  end.
Definition hret {A} (a : A) : H_ A := ([], Ret a).
Definition hfail {A} (e : hsError) : H_ A := ([], Fail e).
Definition hemit (e : hsEffect) : H_ unit := ([e], Ret tt).
Definition hpanic {A} : H_ A := ([], Panic).

Section handshake.
Context `{Ed25519, Blake2b} (c : coreConfig).

(** What this node sends. *)
Definition own_metadata (priority : Z) : option version_metadata :=
  let meta := version_getBaseMetadata in
  let meta := vm_set_publicKey (cc_public c) meta in
  let meta := vm_set_priority priority meta in
  let meta := vm_set_nodeInfo (cc_nodeInfo c) meta in
  if (0 <? length (cc_community c))%nat then
    let meta := vm_set_features (Z.lor (vm_features meta) FeatureCommunity) meta in
    match newCommunityProof (cc_community c) (cc_public c) with
    | None => None
    | Some proof => Some (vm_set_communityProof proof meta)
    end
  else Some meta.

(** The check of the community, and how the link is classified. *)
Definition check_community (lt : linkType) (meta : version_metadata) : H_ string :=
  if (0 <? length (cc_community c))%nat then
    let remoteHasCommunity := negb (Z.land (vm_features meta) FeatureCommunity =? 0) in
    if negb remoteHasCommunity then
      let allowLegacyOutbound :=
        bool_decide (cc_communityMode c = CommunityModeSoft) && negb (bool_decide (lt = linkTypeIncoming)) in
      if negb allowLegacyOutbound then
        hemit HClose ≫= fun _ => hfail (HsVersion (VHandshake ErrHandshakeCommunityRequired))
      else hret "legacy"%string
    else if negb (verifyCommunityProof (cc_community c) (vm_communityProof meta) (vm_publicKey meta)) then
      hemit HClose ≫= fun _ => hfail (HsVersion (VHandshake ErrHandshakeCommunityMismatch))
    else hret "strict"%string
  else hret "off"%string.

(** The checks of the key: not our own, one of those that were asked for, and
    one of those that may connect. *)
Definition check_key (lt : linkType) (options : linkOptions) (local : bool) (meta : version_metadata) : H_ unit :=
  let pinned := lo_pinnedEd25519Keys options in
  let allowed := cc_allowedPublicKeys c in
  let isallowed := bool_decide (allowed = ∅) || bool_decide (vm_publicKey meta ∈ map arr_list (elements allowed)) in
  if bool_decide (vm_publicKey meta = cc_public c) then hfail ErrLinkToSelf
  else if negb (bool_decide (pinned = ∅)) && negb (bool_decide (array_of 32 (vm_publicKey meta) ∈ pinned)) then hfail HsNotPinned
  else if negb local && (bool_decide (lt = linkTypeIncoming) && negb isallowed) then hfail HsNotAllowed
  else hret tt.

(** The second half of [handler], after the metadata has been sent. [state] is
    whether there is a link state, [success] whether there is a callback. *)
Definition links_received (lt : linkType) (options : linkOptions) (conn : hsConn) (state success local : bool) : H_ unit :=
  match decodeTLV zero_metadata (hc_stream conn) with
  | Panic => hpanic
  | Fail e => hemit HClose ≫= fun _ => hfail (HsVersion e)
  | Ret (sig, meta, rest) =>
      communityStatus ← check_community lt meta;
      match verifySignature meta sig (lo_password options) with
      | Some e => hemit HClose ≫= fun _ => hfail (HsVersion e)
      | None =>
          if negb (version_check meta) then hfail HsIncompatible
          else
            _ ← hemit HClearDeadline;
            if negb (hc_clearDeadline conn) then hfail HsClearDeadline
            else
              _ ← (if state then hemit (HCommunityStatus communityStatus) else hret tt);
              _ ← check_key lt options local meta;
              _ ← (if (0 <? length (vm_nodeInfo meta))%nat && state then hemit (HNodeInfo (vm_nodeInfo meta)) else hret tt);
              match AddrForKey (cc_prefix c) (vm_publicKey meta) with
              | None => hpanic
              | Some _ =>
                  let priority := lo_priority options in
                  let priority := if priority <? vm_priority meta then vm_priority meta else priority in
                  _ ← (if success then hemit HSuccess else hret tt);
                  _ ← hemit (HHandleConn (vm_publicKey meta) priority);
                  match hc_handle conn (vm_publicKey meta) priority rest with
                  | None => hret tt
                  | Some e => hfail (HsConn e)
                  end
              end
      end
  end.

Definition links_handler (lt : linkType) (options : linkOptions) (conn : hsConn) (state success local : bool) : H_ unit :=
  match own_metadata (lo_priority options) with
  | None => hfail HsCommunityProof
  | Some meta =>
      match version_encode meta (cc_secret c) (lo_password options) with
      | inl e => hfail (HsEncode e)
      | inr metaBytes =>
          _ ← hemit (HDeadline 6);
          if negb (hc_setDeadline conn) then hfail HsSetDeadline
          else
            _ ← hemit (HSend metaBytes);
            match hc_write conn (length metaBytes) with
            | None => hfail HsWrite
            | Some n =>
                if negb (n =? length metaBytes)%nat then hfail HsIncomplete
                else links_received lt options conn state success local
            end
      end
  end.
End handshake.
