(* ===== verification/HandshakeSafety.v ===== *)
(** * Who gets a link

    What [handler] of [src/core/link.go] guarantees of the nodes that it hands
    to the network layer, and that two nodes that agree on their settings do
    connect. *)

From S2P Require Import Prelude Crypto Binary Link PacketConn Address Version VersionSafety Handshake.

Section safety.
Context `{Ed25519, Blake2b} (c : coreConfig).

(** A node of a community takes part in it, or is one that an outbound link may
    reach in soft mode. *)
Definition community_admits (lt : linkType) (m : version_metadata) : Prop :=
  cc_community c = [] \/
  (Z.land (vm_features m) FeatureCommunity <> 0 /\
    newCommunityProof (cc_community c) (vm_publicKey m) = Some (vm_communityProof m)) \/
  (Z.land (vm_features m) FeatureCommunity = 0 /\ cc_communityMode c = CommunityModeSoft /\ lt <> linkTypeIncoming).

Definition key_admits (lt : linkType) (options : linkOptions) (local : bool) (m : version_metadata) : Prop :=
  vm_publicKey m <> cc_public c /\
  (lo_pinnedEd25519Keys options = ∅ \/ array_of 32 (vm_publicKey m) ∈ lo_pinnedEd25519Keys options) /\
  (local = true \/ lt <> linkTypeIncoming \/ cc_allowedPublicKeys c = ∅ \/
    array_of 32 (vm_publicKey m) ∈ cc_allowedPublicKeys c).

(** The whole of what the other side has to show. *)
Definition admits (lt : linkType) (options : linkOptions) (local : bool) (m : version_metadata) (sig : list byte) : Prop :=
  community_admits lt m /\ verifySignature m sig (lo_password options) = None /\ version_check m = true /\
  key_admits lt options local m.

Lemma check_community_spec lt m :
  (community_admits lt m /\ exists status, check_community c lt m = ([], Ret status)) \/
  (~ community_admits lt m /\ exists e, check_community c lt m = ([HClose], Fail (HsVersion (VHandshake e)))).
Proof.
  unfold check_community, community_admits. destruct (cc_community c) as [|x l] eqn:E; [left; eauto|].
  cbn [length Nat.ltb Nat.leb]. rewrite <- E. assert (cc_community c <> []) as Hne by by rewrite E. clear x l E.
  destruct (Z.eqb_spec (Z.land (vm_features m) FeatureCommunity) 0) as [Hf|Hf]; cbn [negb].
  - case_bool_decide as Hs; [case_bool_decide as Hl|]; cbn [negb andb].
    + right. split; [naive_solver|]. eexists. done.
    + left. split; [naive_solver|]. eexists. done.
    + right. split; [naive_solver|]. eexists. done.
  - unfold verifyCommunityProof. destruct (newCommunityProof _ _) as [p|].
    + case_bool_decide as Hp; cbn [negb]; [left; split; [naive_solver congruence|eexists; done]|].
      right. split; [naive_solver congruence|]. eexists. done.
    + right. split; [naive_solver|]. eexists. done.
Qed.

Lemma elem_of_arrays (k : list byte) (X : gset (array 32)) : length k = 32%nat ->
  k ∈ map arr_list (elements X) <-> array_of 32 k ∈ X.
Proof.
  intros Hk. rewrite list_elem_of_fmap. split.
  - intros (a & -> & Ha). rewrite array_of_list. by apply elem_of_elements.
  - intros Ha. exists (array_of 32 k). split; [by rewrite array_of_exact|by apply elem_of_elements].
Qed.

Lemma check_key_spec lt options local m : length (vm_publicKey m) = 32%nat ->
  (key_admits lt options local m /\ check_key c lt options local m = ([], Ret tt)) \/
  (~ key_admits lt options local m /\ exists e, check_key c lt options local m = ([], Fail e)).
Proof.
  intros Hk. unfold check_key, key_admits. case_bool_decide as Hs; [right; split; [naive_solver|by eexists]|].
  destruct (bool_decide (lo_pinnedEd25519Keys options = ∅) || bool_decide (array_of 32 (vm_publicKey m) ∈ lo_pinnedEd25519Keys options)) eqn:Hp.
  - assert (lo_pinnedEd25519Keys options = ∅ \/ array_of 32 (vm_publicKey m) ∈ lo_pinnedEd25519Keys options) as Hpin.
    { apply orb_true_iff in Hp as [Hp|Hp]; apply bool_decide_eq_true in Hp; auto. }
    rewrite <- negb_orb, Hp. cbn [negb].
    destruct local; [left; split; [naive_solver|done]|]. cbn [negb andb].
    destruct (bool_decide_reflect (lt = linkTypeIncoming)) as [Hl|Hl]; [|left; split; [naive_solver|done]]. cbn [andb].
    destruct (bool_decide (cc_allowedPublicKeys c = ∅) || _) eqn:Ha; cbn [negb].
    + left. split; [|done]. split_and!; [done|done|]. right. right.
      apply orb_true_iff in Ha as [Ha|Ha]; apply bool_decide_eq_true in Ha; [by left|right; by apply elem_of_arrays].
    + right. split; [|by eexists]. apply orb_false_iff in Ha as [H1%bool_decide_eq_false H2%bool_decide_eq_false].
      rewrite elem_of_arrays in H2 by done. naive_solver.
  - rewrite <- negb_orb, Hp. cbn [negb]. right. split; [|by eexists].
    apply orb_false_iff in Hp as [H1%bool_decide_eq_false H2%bool_decide_eq_false]. naive_solver.
Qed.

(** The effect that hands the connection over. *)
Definition hands_over (e : hsEffect) : bool := match e with HHandleConn _ _ => true | _ => false end.

(** The second half: the connection is handed over, as the last effect, exactly
    where the other side is admitted. *)
Lemma received_spec lt options conn state success local :
  match decodeTLV zero_metadata (hc_stream conn) with
  | Panic => False
  | Fail e => links_received c lt options conn state success local = ([HClose], Fail (HsVersion e))
  | Ret (sig, m, rest) =>
      (admits lt options local m sig /\ hc_clearDeadline conn = true /\ exists es,
        Forall (fun e => hands_over e = false) es /\
        links_received c lt options conn state success local =
          (es ++ [HHandleConn (vm_publicKey m) (Z.max (lo_priority options) (vm_priority m))],
           match hc_handle conn (vm_publicKey m) (Z.max (lo_priority options) (vm_priority m)) rest with
           | None => Ret tt
           | Some e => Fail (HsConn e)
           end)) \/
      (~ (admits lt options local m sig /\ hc_clearDeadline conn = true) /\ exists es e,
        Forall (fun e => hands_over e = false) es /\
        links_received c lt options conn state success local = (es, Fail e))
  end.
Proof.
  unfold links_received, admits. pose proof (decodeTLV_inv zero_metadata (hc_stream conn) zero_sized) as Hi.
  destruct (decodeTLV zero_metadata (hc_stream conn)) as [[[sig m] rest]|e|]; [|done|done]. clear Hi.
  destruct (check_community_spec lt m) as [[Hc [status ->]]|[Hc [e ->]]].
  2: { right. split; [tauto|]. do 2 eexists. split; [|reflexivity]. by repeat constructor. }
  cbn [mbind h_bind]. destruct (verifySignature m sig (lo_password options)) as [e|] eqn:Hv.
  { right. split; [naive_solver|]. do 2 eexists. split; [|reflexivity]. by repeat constructor. }
  destruct (version_check m) eqn:Hm; cbn [negb].
  2: { right. split; [naive_solver|]. do 2 eexists. split; [|reflexivity]. by repeat constructor. }
  apply verifySignature_spec in Hv as (Hp & Hk & _). unfold publicKeySize in Hk.
  destruct (hc_clearDeadline conn); cbn [negb].
  2: { right. split; [naive_solver|]. do 2 eexists. split; [|reflexivity]. by repeat constructor. }
  destruct (check_key_spec lt options local m Hk) as [[Ha ->]|[Ha [e ->]]].
  2: { right. split; [tauto|]. destruct state; (do 2 eexists; split; [|reflexivity]; by repeat constructor). }
  left. split; [done|]. split; [done|].
  assert (length (vm_publicKey m) = publicKeySize) as Hk' by done.
  unfold AddrForKey. rewrite Hk'. cbn [negb Nat.eqb].
  assert ((if lo_priority options <? vm_priority m then vm_priority m else lo_priority options) =
    Z.max (lo_priority options) (vm_priority m)) as -> by (destruct (Z.ltb_spec (lo_priority options) (vm_priority m)); lia).
  exists ([HClearDeadline] ++ (if state then [HCommunityStatus status] else []) ++
    (if (0 <? length (vm_nodeInfo m))%nat && state then [HNodeInfo (vm_nodeInfo m)] else []) ++
    (if success then [HSuccess] else [])).
  destruct state, success, (0 <? length (vm_nodeInfo m))%nat; cbn [andb];
    (split; [by repeat constructor|by destruct (hc_handle conn _ _ rest)]).
Qed.

(** What a node sends is well formed. *)
Definition config_ok : Prop :=
  cc_public c = arr_list (ed_public (cc_secret c)) /\ ed_valid (cc_secret c) /\
  Z.of_nat (length (cc_nodeInfo c)) <= maxNodeInfo.

Definition options_ok (options : linkOptions) : Prop :=
  0 <= lo_priority options < 256 /\ (length (lo_password options) <= blake2b_Size)%nat.

Lemma communityProofKey_size community : (length (communityProofKey community) <= blake2b_Size)%nat.
Proof.
  unfold communityProofKey. destruct (Nat.leb_spec (length community) blake2b_Size); [done|].
  rewrite length_array. unfold blake2b_Size. lia.
Qed.

Lemma newCommunityProof_eq community key :
  newCommunityProof community key = Some (arr_list (blake2b_512 (communityProofKey community) key)).
Proof.
  unfold newCommunityProof, blake2b_New512. pose proof (communityProofKey_size community).
  destruct (Nat.ltb_spec blake2b_Size (length (communityProofKey community))); [lia|done].
Qed.

(** The metadata of the node. *)
Definition own (priority : Z) : version_metadata :=
  MkMetadata ProtocolVersionMajor ProtocolVersionMinor (cc_public c) priority
    (if bool_decide (cc_community c = []) then 0 else FeatureCommunity)
    (if bool_decide (cc_community c = []) then [] else arr_list (blake2b_512 (communityProofKey (cc_community c)) (cc_public c)))
    (cc_nodeInfo c).

Lemma own_metadata_eq priority : own_metadata c priority = Some (own priority).
Proof.
  unfold own_metadata, own. destruct (cc_community c) as [|x l] eqn:E; [done|]. rewrite <- E.
  cbn [length Nat.ltb Nat.leb]. rewrite newCommunityProof_eq. rewrite bool_decide_eq_false_2 by by rewrite E.
  rewrite E. done.
Qed.

Lemma own_ok priority : config_ok -> 0 <= priority < 256 -> metadata_ok (own priority).
Proof.
  intros (Hk & _ & Hn) Hp. unfold metadata_ok, metadata_sized, own. cbn.
  assert (length (cc_public c) = 32%nat) as Hl by (rewrite Hk; apply length_array).
  destruct (bool_decide (cc_community c = [])); rewrite ?length_array; split_and!; try done; try lia; try (cbn; lia); auto.
Qed.

(** The bytes that the node sends. *)
Definition hello (options : linkOptions) : list byte :=
  message (fields_of (own (lo_priority options))) (ed_sign (cc_secret c) (blake2b_512 (lo_password options) (cc_public c))).

Lemma hello_eq options : config_ok -> options_ok options ->
  version_encode (own (lo_priority options)) (cc_secret c) (lo_password options) = inr (hello options).
Proof. intros Hc [Hp Hw]. rewrite encode_eq by (done || by apply own_ok). done. Qed.

(** A connection that works and delivers [stream]. *)
Definition works (conn : hsConn) (stream : list byte) : Prop :=
  hc_setDeadline conn = true /\ (forall n, hc_write conn n = Some n) /\ hc_stream conn = stream /\ hc_clearDeadline conn = true.

Lemma handler_sends lt options conn state success local stream : config_ok -> options_ok options -> works conn stream ->
  links_handler c lt options conn state success local =
    let '(es, r) := links_received c lt options conn state success local in
    ([HDeadline 6; HSend (hello options)] ++ es, r).
Proof.
  intros Hc Ho (Hd & Hw & _ & _). unfold links_handler. rewrite own_metadata_eq, hello_eq by done. cbn [mbind h_bind hemit].
  rewrite Hd, Hw, Nat.eqb_refl. cbn [negb].
  by destruct (links_received c lt options conn state success local) as [es r].
Qed.

(** C21: whatever the other side sends and however the connection fails, the
    handler does not panic, and it hands the connection over at most once, as
    the last thing it does, and only for a key of 32 bytes whose owner signed
    the handshake under the password, which is not the node itself, is one of
    the pinned keys and may connect, with the right version and community, at
    the higher of the two priorities; otherwise it ends with an error. *)
Theorem only_admitted_nodes lt options conn state success local :
  let '(es, r) := links_handler c lt options conn state success local in
  r <> Panic /\
  ((Forall (fun e => hands_over e = false) es /\ exists e, r = Fail e) \/
   exists es' sig m rest, es = es' ++ [HHandleConn (vm_publicKey m) (Z.max (lo_priority options) (vm_priority m))] /\
     Forall (fun e => hands_over e = false) es' /\
     decodeTLV zero_metadata (hc_stream conn) = Ret (sig, m, rest) /\ length (vm_publicKey m) = 32%nat /\
     ed_verify (array_of 32 (vm_publicKey m)) (blake2b_512 (lo_password options) (vm_publicKey m)) sig = true /\
     version_check m = true /\ community_admits lt m /\ key_admits lt options local m).
Proof.
  unfold links_handler. rewrite own_metadata_eq. destruct (version_encode _ _ _) as [e|bs].
  { split; [done|]. left. split; [constructor|by eexists]. }
  cbn [mbind h_bind hemit]. destruct (hc_setDeadline conn); cbn [negb].
  2: { split; [done|]. left. split; [by repeat constructor|by eexists]. }
  destruct (hc_write conn (length bs)) as [n|]; [destruct (n =? length bs)%nat|]; cbn [negb].
  2-3: split; [done|]; left; split; [by repeat constructor|by eexists].
  pose proof (received_spec lt options conn state success local) as Hr.
  destruct (decodeTLV zero_metadata (hc_stream conn)) as [[[sig m] rest]|e|]; [|rewrite Hr|done].
  2: { split; [done|]. left. split; [by repeat constructor|by eexists]. }
  destruct Hr as [((Hc & Hv & Hm & Hk) & _ & es & Hes & ->)|[_ (es & e & Hes & ->)]].
  - split; [by destruct (hc_handle conn _ _ rest)|]. right. apply verifySignature_spec in Hv as (_ & Hl & Hv).
    exists ([HDeadline 6; HSend bs] ++ es), sig, m, rest. split_and!; try done. by repeat constructor.
  - split; [done|]. left. split; [by repeat constructor|by eexists].
Qed.
End safety.

(** A node with settings [c] accepts what a node with settings [c'] shows of its
    community. *)
Definition compatible `{Blake2b} (c c' : coreConfig) (lt : linkType) : Prop :=
  cc_community c = [] \/
  (cc_community c' <> [] /\ blake2b_512 (communityProofKey (cc_community c)) (cc_public c') =
    blake2b_512 (communityProofKey (cc_community c')) (cc_public c')) \/
  (cc_community c' = [] /\ cc_communityMode c = CommunityModeSoft /\ lt <> linkTypeIncoming).

Definition handed_over (es : list hsEffect) (key : list byte) (prio : Z) : Prop :=
  exists es', es = es' ++ [HHandleConn key prio].

Section two_nodes.
Context `{Ed25519, !Ed25519Laws, Blake2b}.

Lemma community_of_own c c' lt priority : community_admits c lt (own c' priority) <-> compatible c c' lt.
Proof.
  unfold community_admits, compatible, own. cbn. rewrite newCommunityProof_eq.
  destruct (bool_decide_reflect (cc_community c' = [])) as [E|E].
  - change (Z.land 0 FeatureCommunity) with 0. naive_solver.
  - change (Z.land FeatureCommunity FeatureCommunity) with 1. split.
    + intros [?|[[_ Hp]|[? _]]]; [by left| |done]. right. left. split; [done|]. injection Hp as Hp. by apply array_eq.
    + intros [?|[[_ Hp]|[? _]]]; [by left| |done]. right. left. split; [done|]. by rewrite Hp.
Qed.

Lemma decode_hello c options rest : config_ok c -> options_ok options ->
  decodeTLV zero_metadata (hello c options ++ rest) =
    Ret (ed_sign (cc_secret c) (blake2b_512 (lo_password options) (cc_public c)), own c (lo_priority options), rest).
Proof.
  intros Hc [Hp _]. pose proof (own_ok c (lo_priority options) Hc Hp) as Hm. unfold hello.
  rewrite decodeTLV_message; [|by apply fields_of_ok|apply ed_sign_length].
  by rewrite (decode_list_fields_of _ Hm), outcome_bind_ret.
Qed.

(** What one side does with the other's message. *)
Lemma peer_verdict c c' lt options options' conn state success local rest :
  config_ok c -> config_ok c' -> options_ok options -> options_ok options' ->
  lo_password options = lo_password options' -> works conn (hello c' options' ++ rest) ->
  let '(es, r) := links_handler c lt options conn state success local in
  (compatible c c' lt /\ key_admits c lt options local (own c' (lo_priority options')) ->
     handed_over es (cc_public c') (Z.max (lo_priority options) (lo_priority options'))) /\
  (~ (compatible c c' lt /\ key_admits c lt options local (own c' (lo_priority options'))) ->
     Forall (fun e => hands_over e = false) es /\ exists e, r = Fail e).
Proof.
  intros Hc Hc' Ho Ho' Hpw Hw. rewrite (handler_sends c lt options conn state success local _ Hc Ho Hw).
  destruct Hw as (_ & _ & Hs & Hcl). pose proof (received_spec c lt options conn state success local) as Hr.
  destruct Ho' as [Hp' Hw']. pose proof (own_ok c' (lo_priority options') Hc' Hp') as Hm.
  rewrite Hs, (decode_hello c' options' rest Hc' (conj Hp' Hw')) in Hr.
  assert (admits c lt options local (own c' (lo_priority options'))
    (ed_sign (cc_secret c') (blake2b_512 (lo_password options') (cc_public c'))) <->
    compatible c c' lt /\ key_admits c lt options local (own c' (lo_priority options'))) as Ha.
  { unfold admits. rewrite community_of_own. split; [tauto|]. intros [Hco Hke]. split_and!; try done.
    - apply verifySignature_spec. destruct Hc' as (Hk & Hv & _). rewrite Hpw. split_and!; [done|apply Hm|]. cbn.
      rewrite Hk, array_of_list. by apply ed_verify_sign.
    - unfold version_check. destruct Hm as (_ & Hl & _). rewrite Hl. done. }
  destruct Hr as [(Had & _ & es & Hes & ->)|(Had & es & e & Hes & ->)].
  - apply Ha in Had. split; [|tauto]. intros _. by exists ([HDeadline 6; HSend (hello c options)] ++ es).
  - split; [intros Hx; exfalso; apply Had; split; [by apply Ha|done]|]. intros _. split; [by repeat constructor|by eexists].
Qed.

(** C22: two nodes with the same password that dial and accept a connection that
    works: each of them hands it over exactly where the settings of the other
    node satisfy it, its community and its keys; where both do, they agree on
    the priority of the link. *)
Theorem links_agree c1 c2 lt1 lt2 o1 o2 conn1 conn2 state1 state2 success1 success2 local1 local2 rest1 rest2 :
  config_ok c1 -> config_ok c2 -> options_ok o1 -> options_ok o2 -> lo_password o1 = lo_password o2 ->
  works conn1 (hello c2 o2 ++ rest1) -> works conn2 (hello c1 o1 ++ rest2) ->
  let '(es1, r1) := links_handler c1 lt1 o1 conn1 state1 success1 local1 in
  let '(es2, r2) := links_handler c2 lt2 o2 conn2 state2 success2 local2 in
  let prio := Z.max (lo_priority o1) (lo_priority o2) in
  let ok1 := compatible c1 c2 lt1 /\ key_admits c1 lt1 o1 local1 (own c2 (lo_priority o2)) in
  let ok2 := compatible c2 c1 lt2 /\ key_admits c2 lt2 o2 local2 (own c1 (lo_priority o1)) in
  HSend (hello c1 o1) ∈ es1 /\ HSend (hello c2 o2) ∈ es2 /\
  (ok1 -> handed_over es1 (cc_public c2) prio) /\ (ok2 -> handed_over es2 (cc_public c1) prio) /\
  (~ ok1 -> Forall (fun e => hands_over e = false) es1 /\ exists e, r1 = Fail e) /\
  (~ ok2 -> Forall (fun e => hands_over e = false) es2 /\ exists e, r2 = Fail e).
Proof.
  intros Hc1 Hc2 Ho1 Ho2 Hp Hw1 Hw2.
  pose proof (peer_verdict c1 c2 lt1 o1 o2 conn1 state1 success1 local1 rest1 Hc1 Hc2 Ho1 Ho2 Hp Hw1) as P1.
  pose proof (peer_verdict c2 c1 lt2 o2 o1 conn2 state2 success2 local2 rest2 Hc2 Hc1 Ho2 Ho1 (eq_sym Hp) Hw2) as P2.
  rewrite (handler_sends c1 lt1 o1 conn1 state1 success1 local1 _ Hc1 Ho1 Hw1) in *.
  rewrite (handler_sends c2 lt2 o2 conn2 state2 success2 local2 _ Hc2 Ho2 Hw2) in *.
  destruct (links_received c1 _ _ _ _ _ _) as [es1 r1], (links_received c2 _ _ _ _ _ _) as [es2 r2].
  rewrite (Z.max_comm (lo_priority o2)) in P2. destruct P1, P2. split_and!; try done.
  all: right; left.
Qed.
End two_nodes.

(** ** Witnesses *)

Definition w_sk1 : privateKey := array_of 64 (replicate 32 Byte.x11 ++ replicate 32 Byte.x2a).
Definition w_sk2 : privateKey := array_of 64 (replicate 32 Byte.x12 ++ replicate 32 Byte.x2b).
Definition w_config (sk : privateKey) (key : byte) : coreConfig :=
  MkCoreConfig sk (replicate 32 key) Byte.x02 [Byte.x63] CommunityModeStrict ∅ [Byte.x7b; Byte.x7d].
Definition w_options (prio : Z) : linkOptions := MkLinkOptions ∅ prio "" [Byte.x70] 0.
Definition w_conn (stream : list byte) : hsConn := MkHsConn true Some stream true (fun _ _ _ => None).

Lemma w_config_ok : @config_ok toy_ed25519 (w_config w_sk1 Byte.x2a) /\ @config_ok toy_ed25519 (w_config w_sk2 Byte.x2b).
Proof. split; (split; [reflexivity|split; [exact I|vm_compute; congruence]]). Qed.

Lemma w_options_ok prio : 0 <= prio < 256 -> options_ok (w_options prio).
Proof. intros Hp. split; [exact Hp|unfold blake2b_Size; cbn; lia]. Qed.

Lemma links_agree_witness :
  let c1 := w_config w_sk1 Byte.x2a in let c2 := w_config w_sk2 Byte.x2b in
  let es1 := (@links_handler toy_ed25519 toy_blake2b c1 linkTypePersistent (w_options 3)
    (w_conn (@hello toy_ed25519 toy_blake2b c2 (w_options 5) ++ [Byte.x00])) true true false).1 in
  let es2 := (@links_handler toy_ed25519 toy_blake2b c2 linkTypeIncoming (w_options 5)
    (w_conn (@hello toy_ed25519 toy_blake2b c1 (w_options 3) ++ [Byte.x00])) true true false).1 in
  handed_over es1 (replicate 32 Byte.x2b) 5 /\ handed_over es2 (replicate 32 Byte.x2a) 5.
Proof.
  intros c1 c2 es1 es2.
  pose proof (@links_agree toy_ed25519 toy_ed25519_laws toy_blake2b c1 c2 linkTypePersistent linkTypeIncoming
    (w_options 3) (w_options 5) (w_conn (@hello toy_ed25519 toy_blake2b c2 (w_options 5) ++ [Byte.x00]))
    (w_conn (@hello toy_ed25519 toy_blake2b c1 (w_options 3) ++ [Byte.x00])) true true true true false false
    [Byte.x00] [Byte.x00] (proj1 w_config_ok) (proj2 w_config_ok) (w_options_ok 3 ltac:(lia)) (w_options_ok 5 ltac:(lia))
    eq_refl (conj eq_refl (conj (fun n => eq_refl) (conj eq_refl eq_refl)))
    (conj eq_refl (conj (fun n => eq_refl) (conj eq_refl eq_refl)))) as Ha.
  subst es1 es2.
  destruct (@links_handler _ _ c1 _ _ _ _ _ _) as [es1 r1], (@links_handler _ _ c2 _ _ _ _ _ _) as [es2 r2].
  destruct Ha as (_ & _ & H1 & H2 & _). split; [apply H1|apply H2].
  all: split; [right; left; split; [discriminate|vm_compute; reflexivity]|].
  all: split_and!; [vm_compute; congruence|by left|right; right; by left].
Defined.
