(* ===== verification/LinkOptions.v ===== *)
(** * Options of a link

    [src/core/link.go]: the part of [add] that reads the options of a peering
    URI, [dialerFor], [urlForLinkInfo] and [stickySNI]. What Go's standard
    library makes of strings ([net/url], [net], [time.ParseDuration],
    [strings.TrimSpace]) is an interface; [strconv.ParseUint], hexadecimal
    strings, lower case and FNV-1a are written out. *)

From Stdlib Require Import Ascii String.
From S2P Require Import Prelude Crypto Link PacketConn Address Version Handshake RouterState.

(** A parsed URL: its scheme and host, its query in order, and the rest. *)
Record url := MkUrl { u_scheme : string; u_host : string; u_query : list (string * string); u_rest : string }.
#[global] Instance url_eq_dec : EqDecision url.
Proof. solve_decision. Defined.

Class GoStrings := {
  url_String : url -> string;
  ParseIP : string -> bool;
  SplitHostPort : string -> option (string * string);
  ParseDuration : string -> option Z;
  TrimSpace : string -> string
}.

(** [u.Query()[k]] and [u.Query().Get(k)] *)
Definition query_all (u : url) (k : string) : list string :=
  map snd (filter (fun kv => kv.1 = k) (u_query u)).
Definition query_get (u : url) (k : string) : string := default ""%string (head (query_all u k)).

Definition urlForLinkInfo (u : url) : url := MkUrl (u_scheme u) (u_host u) [] (u_rest u).

(** ** Strings *)

Definition ascii_lower (a : ascii) : ascii :=
  let n := N_of_ascii a in
  if (65 <=? n)%N && (n <=? 90)%N then ascii_of_N (n + 32) else a.
Fixpoint ToLower (s : string) : string :=
  match s with EmptyString => EmptyString | String a s => String (ascii_lower a) (ToLower s) end.
Definition ascii_upper (a : ascii) : ascii :=
  let n := N_of_ascii a in
  if (97 <=? n)%N && (n <=? 122)%N then ascii_of_N (n - 32) else a.
Fixpoint ToUpper (s : string) : string :=
  match s with EmptyString => EmptyString | String a s => String (ascii_upper a) (ToUpper s) end.

Definition hex_digit (a : ascii) : option Z :=
  let n := Z.of_N (N_of_ascii a) in
  if (48 <=? n) && (n <=? 57) then Some (n - 48)
  else if (97 <=? n) && (n <=? 102) then Some (n - 87)
  else if (65 <=? n) && (n <=? 70) then Some (n - 55)
  else None.

(** [hex.DecodeString]: [None] is its error. *)
Fixpoint hex_DecodeString (s : string) : option (list byte) :=
  match s with
  | EmptyString => Some []
  | String a EmptyString => None
  | String a (String b s) =>
      match hex_digit a, hex_digit b, hex_DecodeString s with
      | Some x, Some y, Some l => Some (z2b (16 * x + y) :: l)
      | _, _, _ => None
      end
  end.

(** [strconv.ParseUint(s, 10, 8)] *)
Fixpoint decimal (acc : Z) (s : string) : option Z :=
  match s with
  | EmptyString => Some acc
  | String a s =>
      let n := Z.of_N (N_of_ascii a) in
      if (48 <=? n) && (n <=? 57) then decimal (10 * acc + (n - 48)) s else None
  end.
Definition ParseUint8 (s : string) : option Z :=
  match s with
  | EmptyString => None
  | _ => match decimal 0 s with
         | None => None
         | Some n => if n <? 256 then Some n else None
         end
  end.

(** [fnv.New64a] *)
Definition fnv64a_step (h : Z) (b : Z) : Z := u64 (Z.lxor h b * 1099511628211).
Fixpoint string_codes (s : string) : list Z :=
  match s with EmptyString => [] | String a s => Z.of_N (N_of_ascii a) :: string_codes s end.
Definition fnv64a (data : list Z) : Z := fold_left fnv64a_step data 14695981039346656037.

(** ** Errors *)

Inductive linkError :=
| ErrLinkAlreadyConfigured
| ErrLinkNotConfigured
| ErrLinkPriorityInvalid
| ErrLinkPinnedKeyInvalid
| ErrLinkPasswordInvalid
| ErrLinkUnrecognisedSchema
| ErrLinkMaxBackoffInvalid.
#[global] Instance linkError_eq_dec : EqDecision linkError.
Proof. solve_decision. Defined.

(** ** The schemes *)

Inductive linkProtocol := linkTCP | linkTLS | linkSOCKS | linkUNIX | linkQUIC | linkWS | linkWSS | linkXrayReality | linkXrayHysteria.

Definition dialerFor (u : url) : option linkProtocol :=
  let s := ToLower (u_scheme u) in
  if String.eqb s "tcp" then Some linkTCP
  else if String.eqb s "tls" then Some linkTLS
  else if String.eqb s "socks" || String.eqb s "sockstls" then Some linkSOCKS
  else if String.eqb s "unix" then Some linkUNIX
  else if String.eqb s "quic" then Some linkQUIC
  else if String.eqb s "ws" then Some linkWS
  else if String.eqb s "wss" then Some linkWSS
  else if String.eqb s "xray+reality" then Some linkXrayReality
  else if String.eqb s "xray+hysteria" then Some linkXrayHysteria
  else None.

(** The protocols of [listen]. *)
Definition listenerFor (u : url) : option linkProtocol :=
  let s := ToLower (u_scheme u) in
  if String.eqb s "tcp" then Some linkTCP
  else if String.eqb s "tls" then Some linkTLS
  else if String.eqb s "unix" then Some linkUNIX
  else if String.eqb s "quic" then Some linkQUIC
  else if String.eqb s "ws" then Some linkWS
  else if String.eqb s "wss" then Some linkWSS
  else if String.eqb s "xray+reality" then Some linkXrayReality
  else if String.eqb s "xray+hysteria" then Some linkXrayHysteria
  else None.

(** ** Options *)

Definition defaultBackoffLimit : Z := Z.shiftl Second 12.
Definition minimumBackoffLimit : Z := Second * 5.

Section options.
Context `{GoStrings} (outboundSNIList : list string).

Definition stickySNI (u : url) (keyIDs : list string) : string :=
  let candidates := filter (fun sni => sni <> ""%string /\ ParseIP sni = false) (map TrimSpace outboundSNIList) in
  match candidates with
  | [] => ""%string
  | first :: _ =>
      let peerID :=
        match keyIDs with
        | k :: ks => ("key:" ++ fold_left (fun m k => if String.leb m k then m else k) ks k)%string
        | [] => if negb (String.eqb (u_host u) "") then ("host:" ++ ToLower (u_host u))%string else ("url:" ++ url_String u)%string
        end in
      let sum := fnv64a (string_codes (u_scheme u) ++ [0] ++ string_codes peerID) in
      default first (candidates !! Z.to_nat (sum mod Z.of_nat (length candidates)))
  end.

(** The keys that the URI pins, in lower case and decoded. *)
Fixpoint pinned_keys (l : list string) : option (gset (array 32) * list string) :=
  match l with
  | [] => Some (∅, [])
  | pubkey :: l =>
      let normalized := ToLower pubkey in
      match hex_DecodeString normalized with
      | None => None
      | Some sigPub =>
          match pinned_keys l with
          | None => None
          | Some (keys, ids) => Some ({[array_of 32 sigPub]} ∪ keys, normalized :: ids)
          end
      end
  end.

Definition sni_of (u : url) (keyIDs : list string) : string :=
  let sni := query_get u "sni" in
  let tlsSNI := if negb (String.eqb sni "") && negb (ParseIP sni) then sni else ""%string in
  let tlsSNI := if String.eqb tlsSNI "" then stickySNI u keyIDs else tlsSNI in
  if String.eqb tlsSNI "" then
    match SplitHostPort (u_host u) with
    | Some (host, _) => if negb (ParseIP host) then host else ""%string
    | None => ""%string
    end
  else tlsSNI.

(** Priority and password, of [add] and of [listen]. *)
Definition priority_of (u : url) : option Z :=
  let p := query_get u "priority" in
  if String.eqb p "" then Some 0 else ParseUint8 p.

Definition string_bytes (s : string) : list byte := map z2b (string_codes s).

Definition password_of (u : url) : option (list byte) :=
  let p := query_get u "password" in
  if String.eqb p "" then Some []
  else if (blake2b_Size <? length (string_bytes p))%nat then None
  else Some (string_bytes p).

Definition maxBackoff_of (u : url) : option Z :=
  let p := query_get u "maxbackoff" in
  if String.eqb p "" then Some defaultBackoffLimit
  else match ParseDuration p with
       | None => None
       | Some d => if d <? minimumBackoffLimit then None else Some d
       end.

Definition add_options (u : url) : sum linkError linkOptions :=
  match pinned_keys (query_all u "key") with
  | None => inl ErrLinkPinnedKeyInvalid
  | Some (keys, keyIDs) =>
      match priority_of u with
      | None => inl ErrLinkPriorityInvalid
      | Some priority =>
          match password_of u with
          | None => inl ErrLinkPasswordInvalid
          | Some password =>
              match maxBackoff_of u with
              | None => inl ErrLinkMaxBackoffInvalid
              | Some maxBackoff => inr (MkLinkOptions keys priority (sni_of u keyIDs) password maxBackoff)
              end
          end
      end
  end.

(** The options of [listen]; the rest of the record stays zero. *)
Definition listen_options (u : url) : sum linkError linkOptions :=
  match priority_of u with
  | None => inl ErrLinkPriorityInvalid
  | Some priority =>
      match password_of u with
      | None => inl ErrLinkPasswordInvalid
      | Some password => inr (MkLinkOptions ∅ priority "" password 0)
      end
  end.
End options.

(** A concrete instance, for examples. *)
Definition toy_strings : GoStrings := {|
  url_String := fun u => (u_scheme u ++ "://" ++ u_host u ++ u_rest u)%string;
  ParseIP := fun _ => false;
  SplitHostPort := fun _ => None;
  ParseDuration := fun _ => Some (10 * Second);
  TrimSpace := fun s => s
|}.
