(* ===== verification/Links.v ===== *)
(** * The links of a node

    [src/core/link.go]: the actor [links] with its table of links, the goroutine
    that [add] starts for every configured or discovered peer, and the goroutine
    that [listen] starts for every accepted connection. A goroutine is a program
    counter and its variables; its steps are those between two points at which
    it waits (for the actor, the network, the handler or the timer), and every
    block that it runs on the actor is one step.

    Pointers are numbers: [ls_heap] holds the [link] structures, [ls_conns] the
    connections. A panic is [None]. *)

From Stdlib Require Import String.
From S2P Require Import Prelude Crypto Link PacketConn Address Version Handshake LinkOptions RouterState.

Record linkInfo := MkLinkInfo { li_uri : string; li_sintf : string }.
#[global] Instance linkInfo_eq_dec : EqDecision linkInfo.
Proof. solve_decision. Defined.
#[global] Instance linkInfo_countable : Countable linkInfo :=
  inj_countable' (fun i => (li_uri i, li_sintf i)) (fun p => MkLinkInfo p.1 p.2) (fun i => match i with MkLinkInfo _ _ => eq_refl end).

(** Why a link has no connection. *)
Inductive linkFailure :=
| LDial
| LClosed
| LHandler (e : hsError).

(** [link]: [lk_cancelled] is [None] where [ctx] and [cancel] are nil. *)
Record linkState := MkLinkState {
  lk_cancelled : option bool;
  lk_linkType : linkType;
  lk_linkProto : string;
  lk_sni : string;
  lk_communityStatus : string;
  lk_conn : option nat;
  lk_err : option linkFailure;
  lk_errtime : Z;
  lk_nodeInfo : list byte
}.

Definition set_lk_cancelled (v : option bool) (s : linkState) : linkState :=
  MkLinkState v (lk_linkType s) (lk_linkProto s) (lk_sni s) (lk_communityStatus s) (lk_conn s) (lk_err s) (lk_errtime s) (lk_nodeInfo s).
Definition set_lk_sni (v : string) (s : linkState) : linkState :=
  MkLinkState (lk_cancelled s) (lk_linkType s) (lk_linkProto s) v (lk_communityStatus s) (lk_conn s) (lk_err s) (lk_errtime s) (lk_nodeInfo s).
Definition set_lk_communityStatus (v : string) (s : linkState) : linkState :=
  MkLinkState (lk_cancelled s) (lk_linkType s) (lk_linkProto s) (lk_sni s) v (lk_conn s) (lk_err s) (lk_errtime s) (lk_nodeInfo s).
Definition set_lk_conn (v : option nat) (s : linkState) : linkState :=
  MkLinkState (lk_cancelled s) (lk_linkType s) (lk_linkProto s) (lk_sni s) (lk_communityStatus s) v (lk_err s) (lk_errtime s) (lk_nodeInfo s).
Definition set_lk_err (v : option linkFailure) (t : Z) (s : linkState) : linkState :=
  MkLinkState (lk_cancelled s) (lk_linkType s) (lk_linkProto s) (lk_sni s) (lk_communityStatus s) (lk_conn s) v t (lk_nodeInfo s).
Definition set_lk_nodeInfo (v : list byte) (s : linkState) : linkState :=
  MkLinkState (lk_cancelled s) (lk_linkType s) (lk_linkProto s) (lk_sni s) (lk_communityStatus s) (lk_conn s) (lk_err s) (lk_errtime s) v.

(** [linkConn], with whether it was closed. *)
Record linkConn := MkLinkConn {
  lc_rx : Z; lc_tx : Z; lc_rxrate : Z; lc_txrate : Z; lc_lastrx : Z; lc_lasttx : Z;
  lc_up : Z;
  lc_protocol : string;
  lc_closed : bool
}.

Definition new_linkConn (up : Z) (protocol : string) : linkConn := MkLinkConn 0 0 0 0 0 0 up protocol false.
Definition linkConn_close (k : linkConn) : linkConn :=
  MkLinkConn (lc_rx k) (lc_tx k) (lc_rxrate k) (lc_txrate k) (lc_lastrx k) (lc_lasttx k) (lc_up k) (lc_protocol k) true.
Definition linkConn_Read (n : Z) (k : linkConn) : linkConn :=
  MkLinkConn (u64 (lc_rx k + n)) (lc_tx k) (lc_rxrate k) (lc_txrate k) (lc_lastrx k) (lc_lasttx k) (lc_up k) (lc_protocol k) (lc_closed k).
Definition linkConn_Write (n : Z) (k : linkConn) : linkConn :=
  MkLinkConn (lc_rx k) (u64 (lc_tx k + n)) (lc_rxrate k) (lc_txrate k) (lc_lastrx k) (lc_lasttx k) (lc_up k) (lc_protocol k) (lc_closed k).
Definition update_rates (k : linkConn) : linkConn :=
  MkLinkConn (lc_rx k) (lc_tx k) (u64 (lc_rx k - lc_lastrx k)) (u64 (lc_tx k - lc_lasttx k)) (lc_rx k) (lc_tx k)
    (lc_up k) (lc_protocol k) (lc_closed k).

(** ** Goroutines *)

(** Where the goroutine of [add] is: at the top of its loop, in [connect], in
    [handler], waiting in [backoffNow] until a time, if any, or about to run its
    deferred block. *)
Inductive dialPc :=
| DTop
| DConnecting
| DHandling (conn : nat)
| DWaiting (until : option Z)
| DLeaving.

Record dialer := MkDialer {
  dl_info : linkInfo;
  dl_ptr : nat;
  dl_url : url;
  dl_linkType : linkType;
  dl_options : linkOptions;
  dl_backoff : Z;
  dl_pc : dialPc
}.

Definition set_dl_pc (pc : dialPc) (d : dialer) : dialer :=
  MkDialer (dl_info d) (dl_ptr d) (dl_url d) (dl_linkType d) (dl_options d) (dl_backoff d) pc.
Definition set_dl_backoff (n : Z) (d : dialer) : dialer :=
  MkDialer (dl_info d) (dl_ptr d) (dl_url d) (dl_linkType d) (dl_options d) n (dl_pc d).

(** The goroutine of an accepted connection: it handles the connection [conn],
    or it is about to run its deferred calls. *)
Inductive acceptPc :=
| AHandling (conn : nat)
| ALeaving.

Record acceptor := MkAcceptor { ac_info : linkInfo; ac_ptr : nat; ac_pc : acceptPc }.

Record linksState := MkLinks {
  ls_links : gmap linkInfo nat;
  ls_heap : gmap nat linkState;
  ls_conns : gmap nat linkConn;
  ls_dialers : gmap nat dialer;
  ls_acceptors : gmap nat acceptor;
  ls_next : nat;
  ls_now : Z;
  ls_done : bool
}.

(** [init]: no links. *)
Definition links_init (now : Z) : linksState := MkLinks ∅ ∅ ∅ ∅ ∅ 0 now false.

Definition set_ls_links (f : gmap linkInfo nat -> gmap linkInfo nat) (s : linksState) : linksState :=
  MkLinks (f (ls_links s)) (ls_heap s) (ls_conns s) (ls_dialers s) (ls_acceptors s) (ls_next s) (ls_now s) (ls_done s).
Definition set_ls_heap (f : gmap nat linkState -> gmap nat linkState) (s : linksState) : linksState :=
  MkLinks (ls_links s) (f (ls_heap s)) (ls_conns s) (ls_dialers s) (ls_acceptors s) (ls_next s) (ls_now s) (ls_done s).
Definition set_ls_conns (f : gmap nat linkConn -> gmap nat linkConn) (s : linksState) : linksState :=
  MkLinks (ls_links s) (ls_heap s) (f (ls_conns s)) (ls_dialers s) (ls_acceptors s) (ls_next s) (ls_now s) (ls_done s).
Definition set_ls_dialers (f : gmap nat dialer -> gmap nat dialer) (s : linksState) : linksState :=
  MkLinks (ls_links s) (ls_heap s) (ls_conns s) (f (ls_dialers s)) (ls_acceptors s) (ls_next s) (ls_now s) (ls_done s).
Definition set_ls_acceptors (f : gmap nat acceptor -> gmap nat acceptor) (s : linksState) : linksState :=
  MkLinks (ls_links s) (ls_heap s) (ls_conns s) (ls_dialers s) (f (ls_acceptors s)) (ls_next s) (ls_now s) (ls_done s).
Definition set_ls_now (now : Z) (s : linksState) : linksState :=
  MkLinks (ls_links s) (ls_heap s) (ls_conns s) (ls_dialers s) (ls_acceptors s) (ls_next s) now (ls_done s).
Definition set_ls_done (s : linksState) : linksState :=
  MkLinks (ls_links s) (ls_heap s) (ls_conns s) (ls_dialers s) (ls_acceptors s) (ls_next s) (ls_now s) true.

(** What the environment sees: a call of [connect], and what [add] and [remove]
    return. *)
Inductive linksEffect :=
| LsConnect (u : url) (options : linkOptions)
| LsReturn (err : option linkError).

Abbreviation K_ := (Act linksState linksEffect).
Abbreviation zret a := (mret (M := Act linksState linksEffect) a) (only parsing).
Abbreviation zgets f := (act_gets (S := linksState) (E := linksEffect) f).
Abbreviation zmodify f := (act_modify (S := linksState) (E := linksEffect) f).
Abbreviation zemit e := (act_emit (S := linksState) (E := linksEffect) e).
Abbreviation zpanic := (act_panic (S := linksState) (E := linksEffect) (A := unit)).

Definition fresh : K_ nat :=
  p ← zgets ls_next;
  _ ← zmodify (fun s => MkLinks (ls_links s) (ls_heap s) (ls_conns s) (ls_dialers s) (ls_acceptors s) (S (ls_next s)) (ls_now s) (ls_done s));
  zret p.

(** [state.f = v], by pointer. *)
Definition on_link (p : nat) (f : linkState -> linkState) : K_ unit := zmodify (set_ls_heap (alter f p)).
Definition on_conn (k : nat) (f : linkConn -> linkConn) : K_ unit := zmodify (set_ls_conns (alter f k)).

(** [conn.Close()], if there is one. *)
Definition close_conn (k : option nat) : K_ unit :=
  match k with None => zret tt | Some k => on_conn k linkConn_close end.

(** The context of a link ends with that of the node. *)
Definition ctx_done (s : linksState) (st : linkState) : bool :=
  ls_done s || default false (lk_cancelled st).

Section links.
Context `{GoStrings} (outboundSNIList : list string).

(** [if l._links[info] == state { delete(l._links, info) }] *)
Definition drop_link (info : linkInfo) (p : nat) : K_ unit :=
  links ← zgets ls_links;
  if bool_decide (links !! info = Some p) then zmodify (set_ls_links (delete info)) else zret tt.

(** The goroutine returns, and its deferred block. *)
Definition dialer_exit (g : nat) (d : dialer) : K_ unit := zmodify (set_ls_dialers (insert g (set_dl_pc DLeaving d))).
Definition dialer_leave (g : nat) (d : dialer) : K_ unit :=
  _ ← zmodify (set_ls_dialers (delete g));
  drop_link (dl_info d) (dl_ptr d).

(** The first half of [backoffNow]: the counter, and how long to wait. *)
Definition backoff_next (backoff : Z) : Z := if (0 <=? backoff) && (backoff <? 32) then backoff + 1 else backoff.
Definition backoff_delay (backoff maxBackoff : Z) : option Z :=
  if backoff <? 0 then None
  else
    let duration := i64 (Z.shiftl Second backoff) in
    Some (if maxBackoff <? duration then maxBackoff else duration).

Definition backoffNow (g : nat) (d : dialer) : K_ unit :=
  now ← zgets ls_now;
  let backoff := backoff_next (dl_backoff d) in
  let until := option_map (Z.add now) (backoff_delay backoff (lo_maxBackoff (dl_options d))) in
  zmodify (set_ls_dialers (insert g (set_dl_pc (DWaiting until) (set_dl_backoff backoff d)))).

(** [state.kick <- struct{}{}], which only a waiting goroutine receives. *)
Definition waits_on (p : nat) (d : dialer) : bool :=
  bool_decide (dl_ptr d = p) && match dl_pc d with DWaiting _ => true | _ => false end.
Definition kick (p : nat) : K_ unit :=
  zmodify (set_ls_dialers (fmap (fun d => if waits_on p d then set_dl_pc DTop d else d))).

(** ** [add], [remove] and the rest of the interface *)

Definition info_for (u : url) (sintf : string) : linkInfo := MkLinkInfo (url_String (urlForLinkInfo u)) sintf.

Definition links_add (u : url) (sintf : string) (lt : linkType) : K_ unit :=
  match dialerFor u with
  | None => zemit (LsReturn (Some ErrLinkUnrecognisedSchema))
  | Some _ =>
      match add_options outboundSNIList u with
      | inl e => zemit (LsReturn (Some e))
      | inr options =>
          let info := info_for u sintf in
          links ← zgets ls_links;
          match links !! info with
          | Some p =>
              _ ← kick p;
              zemit (LsReturn (Some ErrLinkAlreadyConfigured))
          | None =>
              p ← fresh;
              _ ← zmodify (set_ls_heap (insert p (MkLinkState (Some false) lt (ToUpper (u_scheme u)) "" "" None None 0 [])));
              _ ← zmodify (set_ls_links (insert info p));
              g ← fresh;
              _ ← zmodify (set_ls_dialers (insert g (MkDialer info p u lt options 0 DTop)));
              zemit (LsReturn None)
          end
      end
  end.

Definition links_remove (u : url) (sintf : string) : K_ unit :=
  let info := info_for u sintf in
  links ← zgets ls_links;
  match links !! info with
  | None => zemit (LsReturn (Some ErrLinkNotConfigured))
  | Some p =>
      heap ← zgets ls_heap;
      match heap !! p with
      | None => zpanic
      | Some st =>
          match lk_cancelled st with
          | None => zpanic
          | Some _ =>
              _ ← on_link p (set_lk_cancelled (Some true));
              _ ← close_conn (lk_conn st);
              zemit (LsReturn None)
          end
      end
  end.

(** [RetryPeersNow] *)
Definition retry_all : K_ unit :=
  zmodify (fun s => set_ls_dialers (fmap (fun d =>
    if bool_decide (dl_ptr d ∈ map snd (map_to_list (ls_links s))) && waits_on (dl_ptr d) d then set_dl_pc DTop d else d)) s).

Definition linked_conns (s : linksState) : list nat :=
  omap (fun kv => ls_heap s !! kv.2 ≫= lk_conn) (map_to_list (ls_links s)).

(** [_updateAverages]; the closed context ends it. *)
Definition updateAverages : K_ unit :=
  zmodify (fun s => if ls_done s then s
    else set_ls_conns (fun m => foldr (alter update_rates) m (linked_conns s)) s).

(** [shutdown], after the node's context was cancelled. *)
Definition shutdown : K_ unit :=
  _ ← zmodify set_ls_done;
  zmodify (fun s => set_ls_conns (fun m => foldr (alter linkConn_close) m (linked_conns s)) s).

(** ** The goroutine of [add] *)

(** What [connect] returned. *)
Definition dialer_step_top (g : nat) (d : dialer) : K_ unit :=
  s ← zgets (fun s => s);
  match ls_heap s !! dl_ptr d with
  | None => zpanic
  | Some st =>
      if ctx_done s st then dialer_exit g d
      else
        _ ← zemit (LsConnect (dl_url d) (dl_options d));
        zmodify (set_ls_dialers (insert g (set_dl_pc DConnecting d)))
  end.

Definition dialer_failed (g : nat) (d : dialer) : K_ unit :=
  if bool_decide (dl_linkType d = linkTypePersistent) then
    now ← zgets ls_now;
    _ ← on_link (dl_ptr d) (fun st => set_lk_err (Some LDial) now (set_lk_conn None st));
    backoffNow g d
  else dialer_exit g d.

Definition dialer_connected (g : nat) (d : dialer) : K_ unit :=
  s ← zgets (fun s => s);
  match ls_heap s !! dl_ptr d with
  | None => zpanic
  | Some st =>
      k ← fresh;
      _ ← zmodify (set_ls_conns (insert k (new_linkConn (ls_now s) (lk_linkProto st))));
      _ ← on_link (dl_ptr d) (fun st => set_lk_err None (ls_now s) (set_lk_sni (lo_tlsSNI (dl_options d)) (set_lk_conn (Some k) st)));
      match lk_conn st with
      | Some _ => dialer_exit g d
      | None => zmodify (set_ls_dialers (insert g (set_dl_pc (DHandling k) d)))
      end
  end.

(** What the handler does to the link while it runs; [success] is
    [resetBackoff]. *)
Definition dialer_effect (g : nat) (d : dialer) (e : hsEffect) : K_ unit :=
  match e with
  | HCommunityStatus status => on_link (dl_ptr d) (set_lk_communityStatus status)
  | HNodeInfo info => on_link (dl_ptr d) (set_lk_nodeInfo info)
  | HSuccess => zmodify (set_ls_dialers (insert g (set_dl_backoff 0 d)))
  | _ => zret tt
  end.

(** The handler has returned [err]. *)
Definition dialer_handled (g : nat) (d : dialer) (k : nat) (err : option hsError) : K_ unit :=
  let d := match err with Some ErrLinkToSelf => set_dl_backoff (-1) d | _ => d end in
  _ ← on_conn k linkConn_close;
  now ← zgets ls_now;
  let failure := match err with None => LClosed | Some e => LHandler e end in
  _ ← on_link (dl_ptr d) (fun st => set_lk_err (Some failure) now (set_lk_communityStatus "" (set_lk_conn None st)));
  if bool_decide (dl_linkType d = linkTypePersistent) then backoffNow g d else dialer_exit g d.

(** ** Accepted connections *)

(** The goroutine of an accepted connection up to its first block. *)
Definition accept (u : url) (remoteAddr sintf : string) : K_ unit :=
  let info := info_for (MkUrl (u_scheme u) remoteAddr (u_query u) (u_rest u)) sintf in
  s ← zgets (fun s => s);
  p ← (match ls_links s !! info with
       | Some p => zret p
       | None =>
           p ← fresh;
           _ ← zmodify (set_ls_heap (insert p (MkLinkState None linkTypeIncoming (ToUpper (u_scheme u)) "" "" None None 0 [])));
           zret p
       end);
  heap ← zgets ls_heap;
  g ← fresh;
  match heap !! p with
  | None => zpanic
  | Some st =>
      match lk_conn st with
      | Some _ => zmodify (set_ls_acceptors (insert g (MkAcceptor info p ALeaving)))
      | None =>
          k ← fresh;
          _ ← zmodify (set_ls_conns (insert k (new_linkConn (ls_now s) (lk_linkProto st))));
          _ ← on_link p (fun st => set_lk_err None 0 (set_lk_communityStatus "" (set_lk_sni "" (set_lk_conn (Some k) st))));
          _ ← zmodify (set_ls_links (insert info p));
          zmodify (set_ls_acceptors (insert g (MkAcceptor info p (AHandling k))))
      end
  end.

(** The server name that [connSNI] found. *)
Definition acceptor_sni (a : acceptor) (sni : string) : K_ unit :=
  if negb (String.eqb sni "") then on_link (ac_ptr a) (set_lk_sni sni) else zret tt.

Definition acceptor_effect (a : acceptor) (e : hsEffect) : K_ unit :=
  match e with
  | HCommunityStatus status => on_link (ac_ptr a) (set_lk_communityStatus status)
  | HNodeInfo info => on_link (ac_ptr a) (set_lk_nodeInfo info)
  | _ => zret tt
  end.

Definition acceptor_handled (g : nat) (a : acceptor) (k : nat) : K_ unit :=
  _ ← on_conn k linkConn_close;
  zmodify (set_ls_acceptors (insert g (MkAcceptor (ac_info a) (ac_ptr a) ALeaving))).

Definition acceptor_leave (g : nat) (a : acceptor) : K_ unit :=
  _ ← zmodify (set_ls_acceptors (delete g));
  drop_link (ac_info a) (ac_ptr a).

(** ** Steps *)

Inductive linksEvent :=
| EAdd (u : url) (sintf : string) (lt : linkType)
| ERemove (u : url) (sintf : string)
| ERetry
| ETick (now : Z)
| EAverages
| EShutdown
| ETop (g : nat)
| EConnected (g : nat) (ok : bool)
| EEffect (g : nat) (e : hsEffect)
| EHandled (g : nat) (err : option hsError)
| EWake (g : nat)
| ECancelled (g : nat)
| ELeave (g : nat)
| EAccept (u : url) (remoteAddr sintf : string)
| EAcceptSNI (g : nat) (sni : string)
| EAcceptEffect (g : nat) (e : hsEffect)
| EAcceptHandled (g : nat)
| EAcceptLeave (g : nat)
| ERead (k : nat) (n : Z)
| EWrite (k : nat) (n : Z).

(** An event of a goroutine that is not at that point does nothing. *)
Definition links_step (ev : linksEvent) : K_ unit :=
  s ← zgets (fun s => s);
  match ev with
  | EAdd u sintf lt => links_add u sintf lt
  | ERemove u sintf => links_remove u sintf
  | ERetry => retry_all
  | ETick now => zmodify (set_ls_now now)
  | EAverages => updateAverages
  | EShutdown => shutdown
  | ETop g =>
      match ls_dialers s !! g with
      | Some d => match dl_pc d with DTop => dialer_step_top g d | _ => zret tt end
      | None => zret tt
      end
  | EConnected g ok =>
      match ls_dialers s !! g with
      | Some d => match dl_pc d with DConnecting => if ok : bool then dialer_connected g d else dialer_failed g d | _ => zret tt end
      | None => zret tt
      end
  | EEffect g e =>
      match ls_dialers s !! g with
      | Some d => match dl_pc d with DHandling _ => dialer_effect g d e | _ => zret tt end
      | None => zret tt
      end
  | EHandled g err =>
      match ls_dialers s !! g with
      | Some d => match dl_pc d with DHandling k => dialer_handled g d k err | _ => zret tt end
      | None => zret tt
      end
  | EWake g =>
      match ls_dialers s !! g with
      | Some d => match dl_pc d with
                  | DWaiting (Some t) => if t <=? ls_now s then zmodify (set_ls_dialers (insert g (set_dl_pc DTop d))) else zret tt
                  | _ => zret tt
                  end
      | None => zret tt
      end
  | ECancelled g =>
      match ls_dialers s !! g with
      | Some d => match dl_pc d, ls_heap s !! dl_ptr d with
                  | DWaiting _, Some st => if ctx_done s st then dialer_exit g d else zret tt
                  | _, _ => zret tt
                  end
      | None => zret tt
      end
  | ELeave g =>
      match ls_dialers s !! g with
      | Some d => match dl_pc d with DLeaving => dialer_leave g d | _ => zret tt end
      | None => zret tt
      end
  | EAccept u remoteAddr sintf => accept u remoteAddr sintf
  | EAcceptSNI g sni =>
      match ls_acceptors s !! g with
      | Some a => match ac_pc a with AHandling _ => acceptor_sni a sni | _ => zret tt end
      | None => zret tt
      end
  | EAcceptEffect g e =>
      match ls_acceptors s !! g with
      | Some a => match ac_pc a with AHandling _ => acceptor_effect a e | _ => zret tt end
      | None => zret tt
      end
  | EAcceptHandled g =>
      match ls_acceptors s !! g with
      | Some a => match ac_pc a with AHandling k => acceptor_handled g a k | _ => zret tt end
      | None => zret tt
      end
  | EAcceptLeave g =>
      match ls_acceptors s !! g with
      | Some a => match ac_pc a with ALeaving => acceptor_leave g a | _ => zret tt end
      | None => zret tt
      end
  | ERead k n => on_conn k (linkConn_Read n)
  | EWrite k n => on_conn k (linkConn_Write n)
  end.

Fixpoint links_run (evs : list linksEvent) : K_ unit :=
  match evs with
  | [] => zret tt
  | ev :: evs => links_step ev ≫= fun _ => links_run evs
  end.
End links.
