(* ===== verification/LinksInv.v ===== *)
(** * The invariant of the link table

    As long as no accepted connection has the URI of a link that exists, every
    goroutine of [src/core/link.go] owns exactly one entry of the table, and
    every entry has exactly one goroutine. *)

From Stdlib Require Import String.
From S2P Require Import Prelude Crypto Link PacketConn Address Version Handshake LinkOptions RouterState Links.

(** The connection that a goroutine has installed. *)
Definition pc_conn (d : dialer) : option nat := match dl_pc d with DHandling k => Some k | _ => None end.
Definition ac_conn_ok (a : acceptor) (st : linkState) : Prop :=
  match ac_pc a with AHandling k => lk_conn st = Some k | ALeaving => True end.

Record links_ok (s : linksState) : Prop := {
  ok_dialer g d : ls_dialers s !! g = Some d ->
    ls_links s !! dl_info d = Some (dl_ptr d) /\
    exists st, ls_heap s !! dl_ptr d = Some st /\ lk_cancelled st <> None /\ lk_conn st = pc_conn d;
  ok_acceptor g a : ls_acceptors s !! g = Some a ->
    ls_links s !! ac_info a = Some (ac_ptr a) /\
    exists st, ls_heap s !! ac_ptr a = Some st /\ lk_cancelled st = None /\ ac_conn_ok a st;
  ok_owner info p : ls_links s !! info = Some p ->
    (exists g d, ls_dialers s !! g = Some d /\ dl_info d = info) \/
    (exists g a, ls_acceptors s !! g = Some a /\ ac_info a = info);
  ok_dialer_inj g d g' d' : ls_dialers s !! g = Some d -> ls_dialers s !! g' = Some d' -> dl_info d = dl_info d' -> g = g';
  ok_acceptor_inj g a g' a' : ls_acceptors s !! g = Some a -> ls_acceptors s !! g' = Some a' -> ac_info a = ac_info a' -> g = g';
  ok_ptr_inj info info' p : ls_links s !! info = Some p -> ls_links s !! info' = Some p -> info = info';
  ok_fresh p : (ls_heap s !! p <> None \/ ls_dialers s !! p <> None \/ ls_acceptors s !! p <> None) -> (p < ls_next s)%nat
}.

Lemma links_ok_init now : links_ok (links_init now).
Proof. split; cbn; try done. intros p [?|[?|?]]; done. Qed.

(** ** Changes that keep it *)

(** What the invariant does not mention. *)
Lemma links_ok_same s s' : links_ok s -> ls_links s' = ls_links s -> ls_heap s' = ls_heap s ->
  ls_dialers s' = ls_dialers s -> ls_acceptors s' = ls_acceptors s -> (ls_next s <= ls_next s')%nat -> links_ok s'.
Proof.
  intros [] El Eh Ed Ea En. split; rewrite ?El, ?Eh, ?Ed, ?Ea; try done. intros p Hp. apply ok_fresh0 in Hp. lia.
Qed.

(** A dialer and its link state change together. *)
Lemma links_ok_dialer s g d d' f : links_ok s -> ls_dialers s !! g = Some d ->
  dl_info d' = dl_info d -> dl_ptr d' = dl_ptr d ->
  (forall st, lk_cancelled st <> None -> lk_cancelled (f st) <> None) ->
  (forall st, lk_conn st = pc_conn d -> lk_conn (f st) = pc_conn d') ->
  links_ok (set_ls_dialers (insert g d') (set_ls_heap (alter f (dl_ptr d)) s)).
Proof.
  intros Hok Hg Hi Hp Hc Hk. pose proof (ok_dialer _ Hok g d Hg) as (Hl & st & Hst & Hcs & Hks).
  destruct Hok as [Od Oa Oo Odi Oai Opi Of]. split; cbn [set_ls_dialers set_ls_heap ls_links ls_heap ls_dialers ls_acceptors ls_next].
  - intros g1 d1 [[<- <-]|[Hne H1]]%lookup_insert_Some.
    + rewrite Hi, Hp. split; [done|]. exists (f st). split_and!; [by rewrite lookup_alter_eq, Hst|by apply Hc|by apply Hk].
    + destruct (Od g1 d1 H1) as (Hl1 & st1 & Hst1 & H2). split; [done|]. exists st1. split; [|done].
      rewrite lookup_alter_ne; [done|]. intros E. apply Hne. apply (Odi g d g1 d1 Hg H1). apply (Opi _ _ (dl_ptr d)); [done|by rewrite E].
  - intros g1 a1 H1. destruct (Oa g1 a1 H1) as (Hl1 & st1 & Hst1 & Hn & H2). split; [done|]. exists st1. split; [|done].
    rewrite lookup_alter_ne; [done|]. intros E. rewrite E in Hst. simplify_eq.
  - intros info p [(g1 & d1 & H1 & H2)|H1]%Oo; [left|by right]. destruct (decide (g1 = g)) as [->|].
    + exists g, d'. rewrite lookup_insert_eq. split; [done|]. simplify_eq. done.
    + exists g1, d1. by rewrite lookup_insert_ne.
  - intros g1 d1 g2 d2 [[<- <-]|[Hn1 H1]]%lookup_insert_Some [[<- <-]|[Hn2 H2]]%lookup_insert_Some; rewrite ?Hi; intros E;
      [done| | |]; eauto.
  - done.
  - done.
  - intros p [Hh|[Hh|Hh]]; apply Of; [left|right; left|by right; right].
    + intros E. apply Hh. by rewrite lookup_alter_None.
    + intros E. apply Hh. rewrite lookup_insert_ne; [done|]. intros ->. by rewrite Hg in E.
Qed.

Lemma links_ok_dialer_link s g d f : links_ok s -> ls_dialers s !! g = Some d ->
  (forall st, lk_cancelled st <> None -> lk_cancelled (f st) <> None) ->
  (forall st, lk_conn st = pc_conn d -> lk_conn (f st) = pc_conn d) ->
  links_ok (set_ls_heap (alter f (dl_ptr d)) s).
Proof.
  intros Hok Hg Hc Hk. pose proof (links_ok_dialer s g d d f Hok Hg eq_refl eq_refl Hc Hk) as Hd.
  unfold set_ls_dialers in Hd. cbn [set_ls_heap ls_dialers] in Hd. by rewrite insert_id in Hd by done.
Qed.

Lemma links_ok_acceptor s g a a' f : links_ok s -> ls_acceptors s !! g = Some a ->
  ac_info a' = ac_info a -> ac_ptr a' = ac_ptr a ->
  (forall st, lk_cancelled st = None -> lk_cancelled (f st) = None) ->
  (forall st, ac_conn_ok a st -> ac_conn_ok a' (f st)) ->
  links_ok (set_ls_acceptors (insert g a') (set_ls_heap (alter f (ac_ptr a)) s)).
Proof.
  intros Hok Hg Hi Hp Hc Hk. pose proof (ok_acceptor _ Hok g a Hg) as (Hl & st & Hst & Hcs & Hks).
  destruct Hok as [Od Oa Oo Odi Oai Opi Of]. split; cbn [set_ls_acceptors set_ls_heap ls_links ls_heap ls_dialers ls_acceptors ls_next].
  - intros g1 d1 H1. destruct (Od g1 d1 H1) as (Hl1 & st1 & Hst1 & Hn & H2). split; [done|]. exists st1. split; [|done].
    rewrite lookup_alter_ne; [done|]. intros E. rewrite E in Hst. simplify_eq.
  - intros g1 a1 [[<- <-]|[Hne H1]]%lookup_insert_Some.
    + rewrite Hi, Hp. split; [done|]. exists (f st). split_and!; [by rewrite lookup_alter_eq, Hst|by apply Hc|by apply Hk].
    + destruct (Oa g1 a1 H1) as (Hl1 & st1 & Hst1 & H2). split; [done|]. exists st1. split; [|done].
      rewrite lookup_alter_ne; [done|]. intros E. apply Hne. apply (Oai g a g1 a1 Hg H1). apply (Opi _ _ (ac_ptr a)); [done|by rewrite E].
  - intros info p [H1|(g1 & a1 & H1 & H2)]%Oo; [by left|right]. destruct (decide (g1 = g)) as [->|].
    + exists g, a'. rewrite lookup_insert_eq. split; [done|]. simplify_eq. done.
    + exists g1, a1. by rewrite lookup_insert_ne.
  - done.
  - intros g1 d1 g2 d2 [[<- <-]|[Hn1 H1]]%lookup_insert_Some [[<- <-]|[Hn2 H2]]%lookup_insert_Some; rewrite ?Hi; intros E;
      [done| | |]; eauto.
  - done.
  - intros p [Hh|[Hh|Hh]]; apply Of; [left|by right; left|right; right].
    + intros E. apply Hh. by rewrite lookup_alter_None.
    + intros E. apply Hh. rewrite lookup_insert_ne; [done|]. intros ->. by rewrite Hg in E.
Qed.

(** Program counters change, and no connection comes or goes. *)
Lemma links_ok_fmap s f : links_ok s ->
  (forall d, dl_info (f d) = dl_info d /\ dl_ptr (f d) = dl_ptr d /\ pc_conn (f d) = pc_conn d) ->
  links_ok (set_ls_dialers (fmap f) s).
Proof.
  intros [Od Oa Oo Odi Oai Opi Of] Hf.
  split; cbn [set_ls_dialers ls_links ls_heap ls_dialers ls_acceptors ls_next]; try done.
  - intros g d. rewrite lookup_fmap_Some. intros (d0 & <- & H). destruct (Hf d0) as (-> & -> & ->). by apply Od in H.
  - intros info p [(g & d & H1 & H2)|H1]%Oo; [left|by right]. exists g, (f d). rewrite lookup_fmap, H1. split; [done|].
    by destruct (Hf d) as (-> & _).
  - intros g d g' d'. rewrite !lookup_fmap_Some. intros (d0 & <- & H) (d1 & <- & H').
    destruct (Hf d0) as (-> & _), (Hf d1) as (-> & _). eauto.
  - intros p [Hh|[Hh|Hh]]; apply Of; [by left|right; left|by right; right].
    intros E. apply Hh. by rewrite lookup_fmap, E.
Qed.

Lemma links_ok_alter s p f : links_ok s ->
  (forall st, (lk_cancelled (f st) = None <-> lk_cancelled st = None) /\ lk_conn (f st) = lk_conn st) ->
  links_ok (set_ls_heap (alter f p) s).
Proof.
  intros [Od Oa Oo Odi Oai Opi Of] Hf.
  assert (forall q st, ls_heap s !! q = Some st -> exists st', alter f p (ls_heap s) !! q = Some st' /\
    (lk_cancelled st' = None <-> lk_cancelled st = None) /\ lk_conn st' = lk_conn st) as Ha.
  { intros q st Hq. destruct (decide (q = p)) as [->|]; [|exists st; by rewrite lookup_alter_ne].
    exists (f st). rewrite lookup_alter_eq, Hq. split; [done|apply Hf]. }
  split; cbn [set_ls_heap ls_links ls_heap ls_dialers ls_acceptors ls_next]; try done.
  - intros g d (Hl & st & (st' & Hst & Hc & Hk)%Ha & Hn & He)%Od. split; [done|]. exists st'. rewrite Hk. tauto.
  - intros g a (Hl & st & (st' & Hst & Hc & Hk)%Ha & Hn & He)%Oa. split; [done|]. exists st'. split_and!; [done|tauto|].
    unfold ac_conn_ok in *. by rewrite Hk.
  - intros q [Hh|Hh]; apply Of; [left|by right]. intros E. apply Hh. by rewrite lookup_alter_None.
Qed.

(** A goroutine leaves and takes its entry with it. *)
Lemma links_ok_leave_dialer s g d : links_ok s -> ls_dialers s !! g = Some d ->
  links_ok (set_ls_links (delete (dl_info d)) (set_ls_dialers (delete g) s)).
Proof.
  intros Hok Hg. pose proof (ok_dialer _ Hok g d Hg) as (Hl & st & Hst & Hcs & Hks).
  destruct Hok as [Od Oa Oo Odi Oai Opi Of]. split; cbn [set_ls_dialers set_ls_links ls_links ls_heap ls_dialers ls_acceptors ls_next].
  - intros g1 d1 [Hne H1]%lookup_delete_Some. rewrite lookup_delete_ne; [by apply Od in H1|]. intros E. apply Hne. eauto.
  - intros g1 a1 H1. destruct (Oa g1 a1 H1) as (Hl1 & st1 & Hst1 & Hn & H2). rewrite lookup_delete_ne; [eauto 6|].
    intros E. rewrite <- E, Hl in Hl1. injection Hl1 as Hl1. rewrite <- Hl1, Hst in Hst1. simplify_eq.
  - intros info p [Hne [(g1 & d1 & H1 & H2)|H1]%Oo]%lookup_delete_Some; [left|by right].
    exists g1, d1. rewrite lookup_delete_ne; [done|]. intros ->. simplify_eq.
  - intros g1 d1 g2 d2 [_ H1]%lookup_delete_Some [_ H2]%lookup_delete_Some. eauto.
  - done.
  - intros i1 i2 p [_ H1]%lookup_delete_Some [_ H2]%lookup_delete_Some. eauto.
  - intros p [Hh|[Hh|Hh]]; apply Of; [by left|right; left|by right; right]. intros E. apply Hh. by apply lookup_delete_None; right.
Qed.

Lemma links_ok_leave_acceptor s g a : links_ok s -> ls_acceptors s !! g = Some a ->
  links_ok (set_ls_links (delete (ac_info a)) (set_ls_acceptors (delete g) s)).
Proof.
  intros Hok Hg. pose proof (ok_acceptor _ Hok g a Hg) as (Hl & st & Hst & Hcs & Hks).
  destruct Hok as [Od Oa Oo Odi Oai Opi Of]. split; cbn [set_ls_acceptors set_ls_links ls_links ls_heap ls_dialers ls_acceptors ls_next].
  - intros g1 d1 H1. destruct (Od g1 d1 H1) as (Hl1 & st1 & Hst1 & Hn & H2). rewrite lookup_delete_ne; [eauto 6|].
    intros E. rewrite <- E, Hl in Hl1. injection Hl1 as Hl1. rewrite <- Hl1, Hst in Hst1. simplify_eq.
  - intros g1 a1 [Hne H1]%lookup_delete_Some. rewrite lookup_delete_ne; [by apply Oa in H1|]. intros E. apply Hne. eauto.
  - intros info p [Hne [H1|(g1 & a1 & H1 & H2)]%Oo]%lookup_delete_Some; [by left|right].
    exists g1, a1. rewrite lookup_delete_ne; [done|]. intros ->. simplify_eq.
  - done.
  - intros g1 d1 g2 d2 [_ H1]%lookup_delete_Some [_ H2]%lookup_delete_Some. eauto.
  - intros i1 i2 p [_ H1]%lookup_delete_Some [_ H2]%lookup_delete_Some. eauto.
  - intros p [Hh|[Hh|Hh]]; apply Of; [by left|by right; left|right; right]. intros E. apply Hh. by apply lookup_delete_None; right.
Qed.

(** A new entry, with the goroutine that owns it. *)
Lemma links_ok_new s s' info p st : links_ok s -> ls_links s !! info = None -> (ls_next s <= p < ls_next s')%nat ->
  ls_links s' = <[info := p]> (ls_links s) -> ls_heap s' = <[p := st]> (ls_heap s) ->
  (exists g, (ls_next s <= g < ls_next s')%nat /\
    ((exists d, ls_dialers s' = <[g := d]> (ls_dialers s) /\ ls_acceptors s' = ls_acceptors s /\ dl_info d = info /\ dl_ptr d = p /\
       lk_cancelled st <> None /\ lk_conn st = pc_conn d) \/
     (exists a, ls_acceptors s' = <[g := a]> (ls_acceptors s) /\ ls_dialers s' = ls_dialers s /\ ac_info a = info /\ ac_ptr a = p /\
       lk_cancelled st = None /\ ac_conn_ok a st))) -> links_ok s'.
Proof.
  intros [Od Oa Oo Odi Oai Opi Of] Hfree Hp El Eh (g & Hg & Hcase).
  assert (forall q, ls_links s !! q <> Some p) as Hnp.
  { intros q Hq. assert (is_Some (ls_heap s !! p)) as Hs.
    { destruct (Oo q p Hq) as [(g1 & d1 & H1 & H2)|(g1 & a1 & H1 & H2)].
      - apply Od in H1 as (Hl & st1 & Hst & _). rewrite H2, Hq in Hl. simplify_eq. by eexists.
      - apply Oa in H1 as (Hl & st1 & Hst & _). rewrite H2, Hq in Hl. simplify_eq. by eexists. }
    assert (p < ls_next s)%nat; [|lia]. apply Of. left. by destruct Hs as [? ->]. }
  assert (forall q, ls_heap s !! q <> None -> q <> p) as Hnh by (intros q Hq ->; pose proof (Of p (or_introl Hq)); lia).
  assert (ls_dialers s !! g = None) as Hgd by (destruct (ls_dialers s !! g) eqn:E; [|done]; pose proof (Of g ltac:(rewrite E; auto)); lia).
  assert (ls_acceptors s !! g = None) as Hga by (destruct (ls_acceptors s !! g) eqn:E; [|done]; pose proof (Of g ltac:(rewrite E; auto)); lia).
  assert (forall g d, ls_dialers s !! g = Some d -> ls_links s' !! dl_info d = Some (dl_ptr d) /\
    exists st1, ls_heap s' !! dl_ptr d = Some st1 /\ lk_cancelled st1 <> None /\ lk_conn st1 = pc_conn d) as Od'.
  { intros g1 d1 (Hl & st1 & Hst & H1)%Od. rewrite El, Eh. split.
    - rewrite lookup_insert_ne; [done|]. intros ->. by rewrite Hfree in Hl.
    - exists st1. rewrite lookup_insert_ne; [done|]. intros E. symmetry in E. revert E. apply Hnh. by rewrite Hst. }
  assert (forall g a, ls_acceptors s !! g = Some a -> ls_links s' !! ac_info a = Some (ac_ptr a) /\
    exists st1, ls_heap s' !! ac_ptr a = Some st1 /\ lk_cancelled st1 = None /\ ac_conn_ok a st1) as Oa'.
  { intros g1 d1 (Hl & st1 & Hst & H1)%Oa. rewrite El, Eh. split.
    - rewrite lookup_insert_ne; [done|]. intros ->. by rewrite Hfree in Hl.
    - exists st1. rewrite lookup_insert_ne; [done|]. intros E. symmetry in E. revert E. apply Hnh. by rewrite Hst. }
  assert (forall i1 i2 q, ls_links s' !! i1 = Some q -> ls_links s' !! i2 = Some q -> i1 = i2) as Opi'.
  { intros i1 i2 q. rewrite El. intros [[<- <-]|[? H1]]%lookup_insert_Some [[<- ?]|[? H2]]%lookup_insert_Some; subst; try done.
    - by apply Hnp in H2. - by apply Hnp in H1. - eauto. }
  assert (forall q, (ls_heap s' !! q <> None -> (q < ls_next s')%nat)) as Hfh.
  { intros q. rewrite Eh. destruct (decide (q = p)) as [->|]; [lia|]. rewrite lookup_insert_ne by done.
    intros Hq. pose proof (Of q (or_introl Hq)). lia. }
  destruct Hcase as [(d & Ed & Ea & Hi & Hd & Hc & Hk)|(a & Ea & Ed & Hi & Hd & Hc & Hk)].
  - split; rewrite ?Ed, ?Ea; try done.
    + intros g1 d1 [[<- <-]|[_ H1]]%lookup_insert_Some; [|by apply Od' in H1].
      rewrite Hi, Hd, El, Eh, !lookup_insert_eq. split; [done|]. by exists st.
    + intros i1 q. rewrite El. intros [[<- _]|[Hne [(g1 & d1 & H1 & H2)|H1]%Oo]]%lookup_insert_Some; [left|left|by right].
      * exists g, d. by rewrite lookup_insert_eq.
      * exists g1, d1. rewrite lookup_insert_ne; [done|]. intros ->. by rewrite Hgd in H1.
    + intros g1 d1 g2 d2 [[<- <-]|[_ H1]]%lookup_insert_Some [[<- <-]|[_ H2]]%lookup_insert_Some; rewrite ?Hi; intros E; [done| | |eauto].
      * apply Od in H2 as [H2 _]. by rewrite <- E, Hfree in H2.
      * apply Od in H1 as [H1 _]. by rewrite E, Hfree in H1.
    + intros q [Hq|[Hq|Hq]]; [by apply Hfh| |pose proof (Of q ltac:(auto)); lia].
      destruct (decide (q = g)) as [->|]; [lia|]. rewrite lookup_insert_ne in Hq by done. pose proof (Of q ltac:(auto)). lia.
  - split; rewrite ?Ed, ?Ea; try done.
    + intros g1 d1 [[<- <-]|[_ H1]]%lookup_insert_Some; [|by apply Oa' in H1].
      rewrite Hi, Hd, El, Eh, !lookup_insert_eq. split; [done|]. by exists st.
    + intros i1 q. rewrite El. intros [[<- _]|[Hne [H1|(g1 & d1 & H1 & H2)]%Oo]]%lookup_insert_Some; [right|by left|right].
      * exists g, a. by rewrite lookup_insert_eq.
      * exists g1, d1. rewrite lookup_insert_ne; [done|]. intros ->. by rewrite Hga in H1.
    + intros g1 d1 g2 d2 [[<- <-]|[_ H1]]%lookup_insert_Some [[<- <-]|[_ H2]]%lookup_insert_Some; rewrite ?Hi; intros E; [done| | |eauto].
      * apply Oa in H2 as [H2 _]. by rewrite <- E, Hfree in H2.
      * apply Oa in H1 as [H1 _]. by rewrite E, Hfree in H1.
    + intros q [Hq|[Hq|Hq]]; [by apply Hfh|pose proof (Of q ltac:(auto)); lia|].
      destruct (decide (q = g)) as [->|]; [lia|]. rewrite lookup_insert_ne in Hq by done. pose proof (Of q ltac:(auto)). lia.
Qed.

(** ** Steps *)

Ltac run_links := cbv [mbind act_bind mret act_ret act_gets act_modify act_emit act_panic]; cbn [app].

Section steps.
Context `{GoStrings} (outboundSNIList : list string).

(** The URI under which an accepted connection is entered. *)
Definition accept_info (u : url) (remoteAddr sintf : string) : linkInfo :=
  info_for (MkUrl (u_scheme u) remoteAddr (u_query u) (u_rest u)) sintf.

(** No accepted connection has the URI of a link. *)
Definition no_collision (s : linksState) (ev : linksEvent) : Prop :=
  match ev with EAccept u r i => ls_links s !! accept_info u r i = None | _ => True end.

(** The links that [remove] panics on: those of accepted connections. *)
Definition accepted_link (s : linksState) (info : linkInfo) : Prop :=
  exists g a, ls_acceptors s !! g = Some a /\ ac_info a = info.

Definition step_ok (s : linksState) (ev : linksEvent) : Prop :=
  match links_step outboundSNIList ev s with
  | Some (_, s', _) => links_ok s'
  | None => match ev with ERemove u sintf => accepted_link s (info_for u sintf) | _ => False end
  end.

Lemma waits_top p d : let d' := if waits_on p d then set_dl_pc DTop d else d in
  dl_info d' = dl_info d /\ dl_ptr d' = dl_ptr d /\ pc_conn d' = pc_conn d.
Proof. unfold waits_on, pc_conn. by destruct (bool_decide _), (dl_pc d) eqn:E; cbn; rewrite ?E. Qed.

Lemma kick_ok s p : links_ok s -> links_ok (set_ls_dialers (fmap (fun d => if waits_on p d then set_dl_pc DTop d else d)) s).
Proof. intros Hok. apply links_ok_fmap; [done|]. intros d. apply waits_top. Qed.

Lemma retry_step s : links_ok s -> step_ok s ERetry.
Proof.
  intros Hok. unfold step_ok, links_step, retry_all. run_links. apply (links_ok_fmap s _ Hok).
  intros d. destruct (bool_decide _); [apply waits_top|done].
Qed.

Lemma add_step s u sintf lt : links_ok s -> step_ok s (EAdd u sintf lt).
Proof.
  intros Hok. unfold step_ok, links_step, links_add. run_links. destruct (dialerFor u); [|done].
  destruct (add_options outboundSNIList u) as [e|options]; [done|]. run_links.
  destruct (ls_links s !! info_for u sintf) as [p|] eqn:E; run_links; [by apply kick_ok|].
  eapply (links_ok_new s); [done|exact E| | | |]; cbn [set_ls_dialers set_ls_links set_ls_heap ls_links ls_heap ls_next ls_dialers ls_acceptors].
  - instantiate (1 := ls_next s). lia.
  - done.
  - done.
  - exists (S (ls_next s)). split; [lia|]. left. eexists. split_and!; [reflexivity|done|done|done|done|done].
Qed.

Lemma remove_step s u sintf : links_ok s -> step_ok s (ERemove u sintf).
Proof.
  intros Hok. unfold step_ok, links_step, links_remove. run_links.
  destruct (ls_links s !! info_for u sintf) as [p|] eqn:E; [|done]. run_links.
  destruct (ok_owner _ Hok _ _ E) as [(g & d & Hg & Hi)|(g & a & Hg & Hi)].
  - destruct (ok_dialer _ Hok g d Hg) as (Hl & st & Hst & Hc & Hk). rewrite Hi, E in Hl. simplify_eq. rewrite Hst.
    destruct (lk_cancelled st); [|done].
    assert (links_ok (set_ls_heap (alter (set_lk_cancelled (Some true)) (dl_ptr d)) s)) as Hok'.
    { by apply (links_ok_dialer_link s g d). }
    destruct (lk_conn st); run_links; [|done]. unfold close_conn, on_conn. run_links.
    eapply (links_ok_same _ _ Hok'); done.
  - destruct (ok_acceptor _ Hok g a Hg) as (Hl & st & Hst & Hc & Hk). rewrite Hi, E in Hl. simplify_eq. rewrite Hst, Hc.
    by exists g, a.
Qed.

(** A dialer's program counter changes, and nothing else. *)
Lemma dialer_pc_ok s g d d' : links_ok s -> ls_dialers s !! g = Some d -> dl_info d' = dl_info d -> dl_ptr d' = dl_ptr d ->
  pc_conn d' = pc_conn d -> links_ok (set_ls_dialers (insert g d') s).
Proof.
  intros Hok Hg Hi Hp Hk. pose proof (links_ok_dialer s g d d' id Hok Hg Hi Hp (fun _ h => h) (fun _ h => eq_trans h (eq_sym Hk))) as Hd.
  unfold set_ls_heap in Hd. rewrite alter_id in Hd by done. by destruct s.
Qed.

Lemma close_ok s k : links_ok s -> links_ok (set_ls_conns k s).
Proof. intros Hok. by apply (links_ok_same s). Qed.

Lemma top_step s g : links_ok s -> step_ok s (ETop g).
Proof.
  intros Hok. unfold step_ok, links_step. run_links. destruct (ls_dialers s !! g) as [d|] eqn:Hg; [|done].
  destruct (dl_pc d) eqn:Hpc; try done. unfold dialer_step_top. run_links.
  destruct (ok_dialer _ Hok g d Hg) as (Hl & st & -> & Hc & Hk).
  destruct (ctx_done s st); unfold dialer_exit; run_links; apply (dialer_pc_ok s g d); try done; unfold pc_conn; by rewrite Hpc.
Qed.

Lemma connected_step s g ok : links_ok s -> step_ok s (EConnected g ok).
Proof.
  intros Hok. unfold step_ok, links_step. run_links. destruct (ls_dialers s !! g) as [d|] eqn:Hg; [|done].
  destruct (dl_pc d) eqn:Hpc; try done. destruct (ok_dialer _ Hok g d Hg) as (Hl & st & Hst & Hc & Hk).
  assert (pc_conn d = None) as Hpn by (unfold pc_conn; by rewrite Hpc).
  destruct ok.
  - unfold dialer_connected. run_links. rewrite Hst. rewrite Hk, Hpn. run_links.
    eapply (links_ok_same _ _ (links_ok_dialer s g d (set_dl_pc (DHandling (ls_next s)) d)
      (fun st => set_lk_err None (ls_now s) (set_lk_sni (lo_tlsSNI (dl_options d)) (set_lk_conn (Some (ls_next s)) st)))
      Hok Hg eq_refl eq_refl (fun st h => h) (fun st h => eq_refl))); try done. cbn. lia.
  - unfold dialer_failed. case_bool_decide.
    + unfold backoffNow, on_link. run_links.
      apply (links_ok_dialer s g d _ _ Hok Hg); try done.
    + unfold dialer_exit. run_links. apply (dialer_pc_ok s g d); done.
Qed.

Lemma effect_step s g e : links_ok s -> step_ok s (EEffect g e).
Proof.
  intros Hok. unfold step_ok, links_step. run_links. destruct (ls_dialers s !! g) as [d|] eqn:Hg; [|done].
  destruct (dl_pc d) eqn:Hpc; try done. destruct e; unfold dialer_effect, on_link; run_links; try done.
  - by apply links_ok_alter.
  - by apply links_ok_alter.
  - by apply (dialer_pc_ok s g d).
Qed.

Lemma handled_step s g err : links_ok s -> step_ok s (EHandled g err).
Proof.
  intros Hok. unfold step_ok, links_step. run_links. destruct (ls_dialers s !! g) as [d|] eqn:Hg; [|done].
  destruct (dl_pc d) as [| |k| |] eqn:Hpc; try done. unfold dialer_handled, on_conn, on_link. run_links.
  set (d' := match err with Some ErrLinkToSelf => _ | _ => _ end).
  assert (dl_info d' = dl_info d /\ dl_ptr d' = dl_ptr d /\ dl_linkType d' = dl_linkType d) as (Hi & Hp & Ht) by (unfold d'; by repeat case_match).
  rewrite Hp. unfold backoffNow, dialer_exit. case_bool_decide; run_links;
    eapply (links_ok_same _ _ (links_ok_dialer s g d _ _ Hok Hg _ _ _ _)); try done.
  Unshelve. all: done.
Qed.

Lemma wake_step s g : links_ok s -> step_ok s (EWake g).
Proof.
  intros Hok. unfold step_ok, links_step. run_links. destruct (ls_dialers s !! g) as [d|] eqn:Hg; [|done].
  destruct (dl_pc d) as [| |k|[t|]|] eqn:Hpc; try done. destruct (t <=? ls_now s); [|done].
  apply (dialer_pc_ok s g d); try done. unfold pc_conn. by rewrite Hpc.
Qed.

Lemma cancelled_step s g : links_ok s -> step_ok s (ECancelled g).
Proof.
  intros Hok. unfold step_ok, links_step. run_links. destruct (ls_dialers s !! g) as [d|] eqn:Hg; [|done].
  destruct (dl_pc d) as [| |k|t|] eqn:Hpc; try done. destruct (ls_heap s !! dl_ptr d) as [st|]; [|done].
  destruct (ctx_done s st); [|done]. unfold dialer_exit. apply (dialer_pc_ok s g d); try done. unfold pc_conn. by rewrite Hpc.
Qed.

Lemma leave_step s g : links_ok s -> step_ok s (ELeave g).
Proof.
  intros Hok. unfold step_ok, links_step. run_links. destruct (ls_dialers s !! g) as [d|] eqn:Hg; [|done].
  destruct (dl_pc d) as [| |k|t|] eqn:Hpc; try done. unfold dialer_leave, drop_link. run_links.
  cbn [set_ls_dialers ls_links]. rewrite bool_decide_eq_true_2 by apply (ok_dialer _ Hok g d Hg).
  by apply links_ok_leave_dialer.
Qed.

Lemma accept_step s u r i : links_ok s -> ls_links s !! accept_info u r i = None -> step_ok s (EAccept u r i).
Proof.
  intros Hok Hfree. unfold step_ok, links_step, accept. run_links. fold (accept_info u r i). rewrite Hfree. unfold fresh, on_link.
  run_links. cbn [set_ls_heap ls_heap ls_next ls_links ls_conns ls_dialers ls_acceptors ls_now ls_done]. rewrite lookup_insert_eq.
  cbn [lk_conn lk_linkProto]. cbn [set_ls_conns set_ls_links set_ls_heap set_ls_acceptors ls_heap ls_next ls_links ls_conns ls_dialers ls_acceptors].
  eapply (links_ok_new s _ _ (ls_next s)); [done|exact Hfree| | | |];
    cbn [set_ls_conns set_ls_links set_ls_heap set_ls_acceptors ls_links ls_heap ls_next ls_dialers ls_acceptors].
  - lia.
  - done.
  - by rewrite alter_insert_eq.
  - exists (S (ls_next s)). split; [lia|]. right. eexists. split_and!; [reflexivity|done|done|done|done|done].
Qed.

Lemma acceptor_step s g : links_ok s ->
  (forall sni, step_ok s (EAcceptSNI g sni)) /\ (forall e, step_ok s (EAcceptEffect g e)) /\
  step_ok s (EAcceptHandled g) /\ step_ok s (EAcceptLeave g).
Proof.
  intros Hok. unfold step_ok, links_step. run_links.
  destruct (ls_acceptors s !! g) as [a|] eqn:Hg; [|done].
  destruct (ac_pc a) as [k|] eqn:Hpc; split_and!; try done.
  - intros sni. unfold acceptor_sni, on_link. destruct (negb _); run_links; [|done]. by apply links_ok_alter.
  - intros e. unfold acceptor_effect, on_link. destruct e; run_links; try done; by apply links_ok_alter.
  - unfold acceptor_handled, on_conn. run_links.
    eapply (links_ok_same _ _ (links_ok_acceptor s g a (MkAcceptor (ac_info a) (ac_ptr a) ALeaving) id Hok Hg eq_refl eq_refl
      (fun st h => h) (fun st h => I))); try done. cbn. by rewrite alter_id.
  - unfold acceptor_leave, drop_link. run_links. cbn [set_ls_acceptors ls_links].
    rewrite bool_decide_eq_true_2 by apply (ok_acceptor _ Hok g a Hg). by apply links_ok_leave_acceptor.
Qed.

(** Every step keeps the invariant, and only [remove] can panic, on a link of an
    accepted connection. *)
Lemma links_step_ok s ev : links_ok s -> no_collision s ev -> step_ok s ev.
Proof.
  intros Hok Hc. destruct ev.
  - by apply add_step.
  - by apply remove_step.
  - by apply retry_step.
  - by apply (links_ok_same s).
  - unfold step_ok, links_step, updateAverages. run_links. destruct (ls_done s); [done|by apply close_ok].
  - unfold step_ok, links_step, shutdown. run_links. by apply (links_ok_same s).
  - by apply top_step.
  - by apply connected_step.
  - by apply effect_step.
  - by apply handled_step.
  - by apply wake_step.
  - by apply cancelled_step.
  - by apply leave_step.
  - by apply accept_step.
  - by apply acceptor_step.
  - by apply acceptor_step.
  - by apply acceptor_step.
  - by apply acceptor_step.
  - unfold step_ok, links_step, on_conn. run_links. by apply close_ok.
  - unfold step_ok, links_step, on_conn. run_links. by apply close_ok.
Qed.
End steps.
