(* ===== verification/LinksSafety.v ===== *)
(** * Properties of the links

    The table of links of [src/core/link.go] and its goroutines over whole
    runs, how long a link waits before it is tried again, and what a connection
    does that is accepted under the URI of an existing link. *)

From Stdlib Require Import String.
From S2P Require Import Prelude Crypto Link PacketConn Address Version Handshake LinkOptions RouterState Links LinksInv.

(** ** Backing off *)

Lemma backoff_iter n : Nat.iter n backoff_next 0 = Z.min (Z.of_nat n) 32.
Proof.
  induction n as [|n IH]; [done|]. rewrite Nat.iter_succ, IH. unfold backoff_next.
  destruct (Z.leb_spec 0 (Z.min (Z.of_nat n) 32)), (Z.ltb_spec (Z.min (Z.of_nat n) 32) 32); cbn [andb]; lia.
Qed.

Lemma backoff_delay_spec k maxBackoff : 0 <= k <= 32 ->
  backoff_delay k maxBackoff = Some (Z.min (Second * 2 ^ k) maxBackoff).
Proof.
  intros Hk. unfold backoff_delay. destruct (Z.ltb_spec k 0); [lia|]. cbv zeta. rewrite Z.shiftl_mul_pow2 by lia.
  assert (0 < 2 ^ k <= 2 ^ 32) as Hb by (split; [apply Z.pow_pos_nonneg; lia|apply Z.pow_le_mono_r; lia]).
  assert (Second = 1000000000) as Hs by done.
  rewrite i64_small by (unfold is_i64; rewrite Hs; lia). f_equal.
  destruct (Z.ltb_spec maxBackoff (Second * 2 ^ k)); lia.
Qed.

Section options.
Context `{GoStrings} (outboundSNIList : list string).

Lemma ParseUint8_range p v : ParseUint8 p = Some v -> 0 <= v < 256.
Proof.
  intros Hv. assert (forall s acc w, 0 <= acc -> decimal acc s = Some w -> 0 <= w) as Hd.
  { induction s as [|a s IH]; intros acc w Ha; cbn [decimal]; [by intros [= ->]|].
    destruct (Z.leb_spec 48 (Z.of_N (Ascii.N_of_ascii a))), (Z.leb_spec (Z.of_N (Ascii.N_of_ascii a)) 57); cbn [andb];
      try done. apply IH. lia. }
  destruct p as [|a p]; [done|]. unfold ParseUint8 in Hv. destruct (decimal 0 (String a p)) as [w|] eqn:E; [|done].
  destruct (Z.ltb_spec w 256); [|done]. apply Hd in E; [|lia]. simplify_eq. lia.
Qed.

(** What the options of a URI that was accepted look like. *)
Lemma add_options_sound u options : add_options outboundSNIList u = inr options ->
  0 <= lo_priority options < 256 /\ (length (lo_password options) <= blake2b_Size)%nat /\
  minimumBackoffLimit <= lo_maxBackoff options.
Proof.
  unfold add_options. destruct (pinned_keys _) as [[keys ids]|]; [|done].
  destruct (priority_of u) as [prio|] eqn:Ep; [|done]. destruct (password_of u) as [pw|] eqn:Ew; [|done].
  destruct (maxBackoff_of u) as [mb|] eqn:Em; [|done]. intros [= <-]. cbn. split_and!.
  - unfold priority_of in Ep. destruct (String.eqb _ _); [by simplify_eq|]. apply ParseUint8_range in Ep. lia.
  - unfold priority_of in Ep. destruct (String.eqb _ _); [by simplify_eq|]. apply ParseUint8_range in Ep. lia.
  - unfold password_of in Ew. destruct (String.eqb _ _); [simplify_eq; cbn; lia|].
    destruct (Nat.ltb_spec blake2b_Size (length (string_bytes (query_get u "password")))); by simplify_eq.
  - unfold maxBackoff_of in Em. destruct (String.eqb _ _); [by simplify_eq|]. destruct (ParseDuration _) as [d|]; [|done].
    destruct (Z.ltb_spec d minimumBackoffLimit); by simplify_eq.
Qed.

(** After [n] failed attempts in a row a link whose URI was accepted waits
    2{^n} seconds, at most 2{^32}, or for the time that the URI allows, which is
    five seconds or more: the shift never overflows, and there is always a next
    attempt. *)
Theorem backoff_bounded u options n : add_options outboundSNIList u = inr options -> (0 < n)%nat ->
  exists t, backoff_delay (Nat.iter n backoff_next 0) (lo_maxBackoff options) = Some t /\
    t = Z.min (Second * 2 ^ Z.min (Z.of_nat n) 32) (lo_maxBackoff options) /\
    2 * Second <= t <= lo_maxBackoff options /\ is_i64 (Z.shiftl Second (Nat.iter n backoff_next 0)).
Proof.
  intros Ho Hn. apply add_options_sound in Ho as (_ & _ & Hm). rewrite backoff_iter, backoff_delay_spec by lia.
  assert (Second = 1000000000) as Hs by done. unfold minimumBackoffLimit in Hm.
  assert (2 ^ 1 <= 2 ^ Z.min (Z.of_nat n) 32 <= 2 ^ 32) as Hb by (split; apply Z.pow_le_mono_r; lia).
  eexists. split_and!; [done|done|rewrite Hs in *; lia|lia|].
  rewrite Z.shiftl_mul_pow2 by lia. unfold is_i64. rewrite Hs. lia.
Qed.
End options.

(** ** Runs *)

Section runs.
Context `{GoStrings} (outboundSNIList : list string).

(** No accepted connection has the URI of a link, all along. *)
Fixpoint collision_free (evs : list linksEvent) (s : linksState) : Prop :=
  match evs with
  | [] => True
  | ev :: evs => no_collision s ev /\
      match links_step outboundSNIList ev s with Some (_, s', _) => collision_free evs s' | None => True end
  end.

Lemma links_run_cons ev evs s : links_run outboundSNIList (ev :: evs) s =
  match links_step outboundSNIList ev s with
  | None => None
  | Some (_, s1, es1) =>
      match links_run outboundSNIList evs s1 with None => None | Some (u, s2, es2) => Some (u, s2, es1 ++ es2) end
  end.
Proof. cbn [links_run]. unfold mbind, act_bind. by destruct (links_step outboundSNIList ev s) as [[[? ?] ?]|]. Qed.

Lemma links_run_app evs evs' s : links_run outboundSNIList (evs ++ evs') s =
  match links_run outboundSNIList evs s with
  | None => None
  | Some (_, s1, es1) =>
      match links_run outboundSNIList evs' s1 with None => None | Some (u, s2, es2) => Some (u, s2, es1 ++ es2) end
  end.
Proof.
  revert s. induction evs as [|ev evs IH]; intros s.
  - cbn. by destruct (links_run outboundSNIList evs' s) as [[[? ?] ?]|].
  - cbn [app]. rewrite !links_run_cons. destruct (links_step outboundSNIList ev s) as [[[? s1] es1]|]; [|done]. rewrite IH.
    destruct (links_run outboundSNIList evs s1) as [[[? s2] es2]|]; [|done].
    destruct (links_run outboundSNIList evs' s2) as [[[? s3] es3]|]; [|done]. by rewrite app_assoc.
Qed.

(** C23: as long as no accepted connection has the URI of a link, every entry of
    the table belongs to exactly one goroutine and every goroutine to exactly
    one entry, with the connection that it handles, whatever is added, removed,
    connected, lost and accepted in whatever order; nothing panics, except for
    removing the link of an accepted connection. *)
Theorem link_table_exact evs s : links_ok s -> collision_free evs s ->
  match links_run outboundSNIList evs s with
  | Some (_, s', _) => links_ok s'
  | None => exists pre u sintf post s' es, evs = pre ++ ERemove u sintf :: post /\
      links_run outboundSNIList pre s = Some (tt, s', es) /\ accepted_link s' (info_for u sintf)
  end.
Proof.
  revert s. induction evs as [|ev evs IH]; intros s Hok Hc; [exact Hok|]. rewrite links_run_cons. destruct Hc as [Hn Hc].
  pose proof (links_step_ok outboundSNIList s ev Hok Hn) as Hs. unfold step_ok in Hs.
  destruct (links_step outboundSNIList ev s) as [[[[] s1] es1]|] eqn:E.
  - specialize (IH s1 Hs Hc). destruct (links_run outboundSNIList evs s1) as [[[[] s2] es2]|]; [done|].
    destruct IH as (pre & u & sintf & post & s' & es & -> & Hr & Ha). exists (ev :: pre), u, sintf, post, s', (es1 ++ es).
    split_and!; [done| |done]. by rewrite links_run_cons, E, Hr.
  - destruct ev; try done. by exists [], u, sintf, evs, s, [].
Qed.

(** ** Persistent links *)

(** The same goroutine, perhaps elsewhere in its loop. *)
Definition same_dialer (d d' : dialer) : Prop :=
  dl_info d' = dl_info d /\ dl_ptr d' = dl_ptr d /\ dl_url d' = dl_url d /\ dl_linkType d' = dl_linkType d /\
  dl_options d' = dl_options d.

Definition uncancelled (s : linksState) (p : nat) : Prop :=
  exists st, ls_heap s !! p = Some st /\ lk_cancelled st = Some false.

(** The goroutine [g] runs for the persistent link of [d]. *)
Definition runs (s : linksState) (g : nat) (d : dialer) : Prop :=
  exists d', ls_dialers s !! g = Some d' /\ same_dialer d d' /\ dl_pc d' <> DLeaving /\ ls_done s = false /\ uncancelled s (dl_ptr d).

(** The events that end a link. *)
Definition ends_link (d : dialer) (ev : linksEvent) : Prop :=
  match ev with EShutdown => True | ERemove u sintf => info_for u sintf = dl_info d | _ => False end.

Lemma uncancelled_alter s p q f : (forall st, lk_cancelled (f st) = lk_cancelled st) -> uncancelled s p ->
  uncancelled (set_ls_heap (alter f q) s) p.
Proof.
  intros Hf (st & Hst & Hc). unfold uncancelled. cbn. destruct (decide (q = p)) as [->|].
  - exists (f st). rewrite lookup_alter_eq, Hst, Hf. done.
  - exists st. by rewrite lookup_alter_ne.
Qed.

Lemma runs_pc s s' g d d1 g' d' : runs s g d -> ls_dialers s !! g = Some d1 ->
  ls_dialers s' = <[g' := d']> (ls_dialers s) -> ls_done s' = ls_done s -> uncancelled s' (dl_ptr d) ->
  (g' = g -> same_dialer d1 d' /\ dl_pc d' <> DLeaving) -> runs s' g d.
Proof.
  intros (d0 & Hg & Hs & Hp & Hd & _) Hg1 Ed Edn Hu Hsame. simplify_eq. unfold runs. rewrite Ed, Edn.
  destruct (decide (g' = g)) as [->|Hne].
  - destruct (Hsame eq_refl) as [(H1 & H2 & H3 & H4 & H5) Hpc]. exists d'. rewrite lookup_insert_eq. split; [done|].
    split; [|done]. destruct Hs as (? & ? & ? & ? & ?). unfold same_dialer. split_and!; congruence.
  - exists d0. by rewrite lookup_insert_ne.
Qed.

Lemma runs_frame s s' g d : runs s g d -> ls_dialers s' !! g = ls_dialers s !! g -> ls_done s' = ls_done s ->
  uncancelled s' (dl_ptr d) -> runs s' g d.
Proof. intros (d0 & Hg & Hs & Hp & Hd & _) Ed Edn Hu. unfold runs. rewrite Ed, Edn. by exists d0. Qed.

Lemma runs_fmap s f g d : runs s g d -> (forall d, same_dialer d (f d) /\ (dl_pc d <> DLeaving -> dl_pc (f d) <> DLeaving)) ->
  runs (set_ls_dialers (fmap f) s) g d.
Proof.
  intros (d0 & Hg & Hs & Hp & Hd & Hu) Hf. exists (f d0). cbn. rewrite lookup_fmap, Hg. split; [done|].
  destruct (Hf d0) as [(H1 & H2 & H3 & H4 & H5) Hpc]. split; [|by auto]. destruct Hs as (? & ? & ? & ? & ?). unfold same_dialer.
  split_and!; congruence.
Qed.

Lemma waits_same p d : let d' := if waits_on p d then set_dl_pc DTop d else d in
  same_dialer d d' /\ (dl_pc d <> DLeaving -> dl_pc d' <> DLeaving).
Proof. cbv zeta. by destruct (waits_on p d). Qed.

(** One step of the goroutine itself. *)
Lemma own_step s g d ev s' es : links_ok s -> runs s g d -> dl_linkType d = linkTypePersistent ->
  match ev with
  | ETop g' | EConnected g' _ | EEffect g' _ | EHandled g' _ | EWake g' | ECancelled g' | ELeave g' => g' = g
  | _ => False
  end ->
  links_step outboundSNIList ev s = Some (tt, s', es) -> runs s' g d.
Proof.
  intros Hok Hr Ht Hev. pose proof Hr as (d0 & Hg0 & (Hi & Hp & Hu & Hlt & Ho) & Hpc & Hdn & Hunc).
  destruct (ok_dialer _ Hok g d0 Hg0) as (_ & st & Hsti & _ & Hk).
  pose proof Hunc as (st' & Hst' & Hcan). rewrite <- Hp, Hsti in Hst'. injection Hst' as <-.
  assert (ctx_done s st = false) as Hctx by (unfold ctx_done; by rewrite Hdn, Hcan).
  assert (bool_decide (dl_linkType d0 = linkTypePersistent) = true) as Hper by (apply bool_decide_eq_true; congruence).
  assert (forall s1 d', ls_dialers s1 = <[g := d']> (ls_dialers s) -> ls_done s1 = ls_done s ->
    uncancelled s1 (dl_ptr d) -> same_dialer d0 d' -> dl_pc d' <> DLeaving -> runs s1 g d) as Hown.
  { intros s1 d' E1 E2 E3 E4 E5. by apply (runs_pc s s1 g d d0 g d'). }
  destruct ev; try done; subst; unfold links_step; run_links; rewrite Hg0; (destruct (dl_pc d0) as [| |k|t|] eqn:E; [..|done]);
    try (intros [= <- <-]; exact Hr).
  - unfold dialer_step_top. run_links. rewrite Hsti, Hctx. run_links. intros [= <- <-]. by apply (Hown _ (set_dl_pc DConnecting d0)).
  - destruct ok.
    + unfold dialer_connected. run_links. rewrite Hsti. assert (lk_conn st = None) as -> by (rewrite Hk; unfold pc_conn; by rewrite E).
      unfold on_link. run_links. intros [= <- <-]. apply (Hown _ (set_dl_pc (DHandling (ls_next s)) d0)); try done.
      by apply (uncancelled_alter s).
    + unfold dialer_failed, backoffNow, on_link. rewrite Hper. run_links. intros [= <- <-].
      eapply Hown; [reflexivity|done|by apply (uncancelled_alter s)|done|done].
  - destruct e; unfold dialer_effect, on_link; run_links; intros [= <- <-]; try exact Hr.
    + apply (runs_frame s); try done. by apply uncancelled_alter.
    + apply (runs_frame s); try done. by apply uncancelled_alter.
    + apply (Hown _ (set_dl_backoff 0 d0)); try done. cbn. by rewrite E.
  - unfold dialer_handled, backoffNow, on_link, on_conn. run_links.
    set (d' := match err with Some ErrLinkToSelf => _ | _ => _ end).
    assert (same_dialer d0 d') as Hsame by (unfold d'; by repeat case_match). pose proof Hsame as (_ & _ & _ & Hlt' & _).
    rewrite Hlt', Hper. run_links. intros [= <- <-].
    eapply Hown; [reflexivity|done|by apply (uncancelled_alter s)| |done].
    destruct Hsame as (? & ? & ? & ? & ?). unfold same_dialer. by split_and!.
  - destruct t as [t|]; [|intros [= <- <-]; exact Hr]. destruct (t <=? ls_now s); intros [= <- <-]; [|exact Hr].
    by apply (Hown _ (set_dl_pc DTop d0)).
  - rewrite Hsti, Hctx. intros [= <- <-]. exact Hr.
Qed.

(** What a step of another goroutine leaves alone. *)
Definition untouched (s s' : linksState) (g p : nat) : Prop :=
  ls_dialers s' !! g = ls_dialers s !! g /\ ls_done s' = ls_done s /\ (uncancelled s p -> uncancelled s' p).

Lemma untouched_refl s g p : untouched s s g p.
Proof. done. Qed.

Lemma untouched_runs s s' g d : runs s g d -> untouched s s' g (dl_ptr d) -> runs s' g d.
Proof. intros Hr (E1 & E2 & E3). apply (runs_frame s); [done|done|done|]. apply E3. by destruct Hr as (? & ? & ? & ? & ? & ?). Qed.

(** Only the entry of the goroutine that steps is written. *)
Lemma other_dialer_step s g g' p ev s' es : g' <> g ->
  match ev with
  | ETop h | EConnected h _ | EEffect h _ | EHandled h _ | EWake h | ECancelled h | ELeave h => h = g'
  | _ => False
  end ->
  links_step outboundSNIList ev s = Some (tt, s', es) -> untouched s s' g p.
Proof.
  intros Hne Hev.
  assert (forall d1 s1, ls_dialers s1 = <[g' := d1]> (ls_dialers s) -> ls_done s1 = ls_done s ->
    (uncancelled s p -> uncancelled s1 p) -> untouched s s1 g p) as Hins.
  { intros d1 s1 E1 E2 E3. split; [|done]. rewrite E1. by apply lookup_insert_ne. }
  destruct ev; try done; subst; unfold links_step; run_links;
    (destruct (ls_dialers s !! g') as [d|] eqn:Hg; [|intros [= <- <-]; apply untouched_refl]);
    (destruct (dl_pc d) as [| |k|t|] eqn:E; try (intros [= <- <-]; apply untouched_refl)).
  - unfold dialer_step_top, dialer_exit. run_links. destruct (ls_heap s !! dl_ptr d) as [st|]; [|done].
    destruct (ctx_done s st); run_links; intros [= <- <-]; by eapply Hins.
  - destruct ok.
    + unfold dialer_connected, dialer_exit, on_link. run_links. destruct (ls_heap s !! dl_ptr d) as [st|]; [|done].
      destruct (lk_conn st); run_links; intros [= <- <-]; (eapply Hins; [reflexivity|done|by apply (uncancelled_alter s)]).
    + unfold dialer_failed, backoffNow, dialer_exit, on_link. destruct (bool_decide _); run_links; intros [= <- <-];
        (eapply Hins; [reflexivity|done|]); [by apply (uncancelled_alter s)|done].
  - destruct e; unfold dialer_effect, on_link; run_links; intros [= <- <-]; try apply untouched_refl.
    + split_and!; [done|done|by apply uncancelled_alter].
    + split_and!; [done|done|by apply uncancelled_alter].
    + by eapply Hins.
  - unfold dialer_handled, backoffNow, dialer_exit, on_link, on_conn. run_links.
    destruct (bool_decide _); run_links; intros [= <- <-];
      (eapply Hins; [reflexivity|done|by apply (uncancelled_alter s)]).
  - destruct t as [t|]; [|intros [= <- <-]; apply untouched_refl].
    destruct (t <=? ls_now s); intros [= <- <-]; [by eapply Hins|apply untouched_refl].
  - destruct (ls_heap s !! dl_ptr d) as [st|]; [|intros [= <- <-]; apply untouched_refl]. unfold dialer_exit.
    destruct (ctx_done s st); run_links; intros [= <- <-]; [by eapply Hins|apply untouched_refl].
  - unfold dialer_leave, drop_link. run_links. intros Hs.
    assert (ls_dialers s' = delete g' (ls_dialers s) /\ ls_done s' = ls_done s /\ ls_heap s' = ls_heap s) as (E1 & E2 & E3).
    { destruct (bool_decide _) in Hs; revert Hs; run_links; by intros [= <- <-]. }
    split_and!; [rewrite E1; by apply lookup_delete_ne|done|]. unfold uncancelled. by rewrite E3.
Qed.

(** The same for an accepted connection. *)
Lemma acceptor_untouched s g p ev s' es :
  match ev with EAcceptSNI _ _ | EAcceptEffect _ _ | EAcceptHandled _ | EAcceptLeave _ => True | _ => False end ->
  links_step outboundSNIList ev s = Some (tt, s', es) -> untouched s s' g p.
Proof.
  intros Hev. destruct ev as [| | | | | | | | | | | | |? ? ?|h sni|h e|h|h| |]; try done; unfold links_step; run_links;
    (destruct (ls_acceptors s !! h) as [a|]; [|intros [= <- <-]; apply untouched_refl]);
    (destruct (ac_pc a); try (intros [= <- <-]; apply untouched_refl)).
  - unfold acceptor_sni, on_link. destruct (negb _); run_links; intros [= <- <-]; [|apply untouched_refl].
    split_and!; [done|done|by apply uncancelled_alter].
  - unfold acceptor_effect, on_link. destruct e; run_links; intros [= <- <-]; try apply untouched_refl;
      (split_and!; [done|done|by apply uncancelled_alter]).
  - unfold acceptor_handled, on_conn. run_links. by intros [= <- <-].
  - unfold acceptor_leave, drop_link. run_links. destruct (bool_decide _); run_links; by intros [= <- <-].
Qed.

(** A new link structure has a new pointer. *)
Lemma uncancelled_insert s s' p st : links_ok s -> uncancelled s p -> ls_heap s' = <[ls_next s := st]> (ls_heap s) -> uncancelled s' p.
Proof.
  intros Hok (st0 & Hst & Hc) Eh. exists st0. rewrite Eh. split; [|done]. rewrite lookup_insert_ne; [done|].
  intros <-. assert (ls_next s < ls_next s)%nat; [|lia]. apply (ok_fresh _ Hok). left. by rewrite Hst.
Qed.

Lemma fresh_dialer s g d k d' : links_ok s -> ls_dialers s !! g = Some d -> (ls_next s <= k)%nat -> <[k := d']> (ls_dialers s) !! g = ls_dialers s !! g.
Proof.
  intros Hok Hg Hk. apply lookup_insert_ne. intros ->. assert (g < ls_next s)%nat; [|lia]. apply (ok_fresh _ Hok). right. left. by rewrite Hg.
Qed.

Lemma add_runs s g d u sintf lt s' es : links_ok s -> runs s g d ->
  links_step outboundSNIList (EAdd u sintf lt) s = Some (tt, s', es) -> runs s' g d.
Proof.
  intros Hok Hr. pose proof Hr as (d0 & Hg & _ & _ & _ & Hu). unfold links_step, links_add. run_links.
  destruct (dialerFor u); [|by intros [= <- <-]]. destruct (add_options outboundSNIList u) as [e|o]; [by intros [= <- <-]|]. run_links.
  destruct (ls_links s !! info_for u sintf) as [p|]; unfold kick, fresh; run_links; intros [= <- <-].
  - apply runs_fmap; [done|]. intros d1. apply waits_same.
  - apply (runs_frame s); [done| |done|]; cbn [set_ls_dialers set_ls_links set_ls_heap ls_dialers ls_next].
    + apply (fresh_dialer s g d0); [done|done|lia].
    + by eapply (uncancelled_insert s).
Qed.

Lemma remove_runs s g d u sintf s' es : links_ok s -> runs s g d -> info_for u sintf <> dl_info d ->
  links_step outboundSNIList (ERemove u sintf) s = Some (tt, s', es) -> runs s' g d.
Proof.
  intros Hok Hr Hne. pose proof Hr as (d0 & Hg & (Hi & Hp & _) & _ & _ & st0 & Hst0 & Hc0). unfold links_step, links_remove. run_links.
  destruct (ls_links s !! info_for u sintf) as [p|] eqn:El; [|by intros [= <- <-]].
  destruct (ls_heap s !! p) as [st|]; [|done]. destruct (lk_cancelled st); [|done]. unfold on_link, close_conn, on_conn.
  assert (p <> dl_ptr d) as Hpp.
  { intros ->. apply Hne. rewrite <- Hi. destruct (ok_dialer _ Hok g d0 Hg) as [Hl _]. rewrite Hp in Hl. by apply (ok_ptr_inj _ Hok _ _ (dl_ptr d)). }
  assert (forall cs, uncancelled (set_ls_conns cs (set_ls_heap (alter (set_lk_cancelled (Some true)) p) s)) (dl_ptr d)) as Hu.
  { intros cs. exists st0. cbn. by rewrite lookup_alter_ne. }
  destruct (lk_conn st) as [k|]; run_links; intros [= <- <-]; apply (runs_frame s); try done. apply (Hu id).
Qed.

Lemma accept_runs s g d u r i s' es : links_ok s -> runs s g d -> ls_links s !! accept_info u r i = None ->
  links_step outboundSNIList (EAccept u r i) s = Some (tt, s', es) -> runs s' g d.
Proof.
  intros Hok Hr Hfree. pose proof Hr as (d0 & Hg & _ & _ & _ & Hu). unfold links_step, accept. run_links. fold (accept_info u r i).
  rewrite Hfree. unfold fresh, on_link. run_links.
  cbn [set_ls_heap ls_heap ls_next ls_links ls_conns ls_dialers ls_acceptors ls_now ls_done]. rewrite lookup_insert_eq.
  cbn [lk_conn lk_linkProto]. intros [= <- <-]. apply (runs_frame s); try done.
  eapply (uncancelled_insert s); [done|done|]. cbn. by rewrite alter_insert_eq.
Qed.

(** A step does not end the goroutine of a persistent link. *)
Lemma runs_step s g d ev s' es : links_ok s -> no_collision s ev -> runs s g d -> dl_linkType d = linkTypePersistent ->
  ~ ends_link d ev -> links_step outboundSNIList ev s = Some (tt, s', es) -> runs s' g d.
Proof.
  intros Hok Hn Hr Ht He Hs.
  assert (forall h, match ev with
    | ETop g' | EConnected g' _ | EEffect g' _ | EHandled g' _ | EWake g' | ECancelled g' | ELeave g' => g' = h
    | _ => False end -> runs s' g d) as Hd.
  { intros h Hh. destruct (decide (h = g)) as [->|Hne]; [by apply (own_step s g d ev s' es)|].
    apply (untouched_runs s); [done|]. by apply (other_dialer_step s g h _ ev s' es). }
  assert (match ev with EAcceptSNI _ _ | EAcceptEffect _ _ | EAcceptHandled _ | EAcceptLeave _ => True | _ => False end -> runs s' g d) as Ha.
  { intros Hh. apply (untouched_runs s); [done|]. by apply (acceptor_untouched s g _ ev s' es). }
  destruct ev; try (by eapply Hd); try (by apply Ha).
  - by apply (add_runs s g d u sintf lt s' es).
  - by apply (remove_runs s g d u sintf s' es).
  - revert Hs. unfold links_step, retry_all. run_links. intros [= <- <-]. apply (runs_fmap s _ g d Hr). intros d1.
    destruct (bool_decide _); [apply waits_same|done].
  - revert Hs. unfold links_step. run_links. intros [= <- <-]. by apply (untouched_runs s).
  - revert Hs. unfold links_step, updateAverages. run_links. intros [= <- <-]. apply (untouched_runs s); [done|].
    by destruct (ls_done s) eqn:E; split_and!.
  - by apply (accept_runs s g d u remoteAddr sintf s' es).
  - revert Hs. unfold links_step, on_conn. run_links. intros [= <- <-]. by apply (untouched_runs s).
  - revert Hs. unfold links_step, on_conn. run_links. intros [= <- <-]. by apply (untouched_runs s).
Qed.

(** ** When a persistent link is tried again *)

(** What the variables of the goroutine [g] can become in one step: [moved_wait]
    is the end of an attempt, after which it waits. *)
Inductive moved (s : linksState) (ev : linksEvent) (g : nat) (d : dialer) : dialer -> Prop :=
| moved_not : moved s ev g d d
| moved_pc pc : (forall t, pc <> DWaiting t) -> moved s ev g d (set_dl_pc pc d)
| moved_reset k : dl_pc d = DHandling k -> moved s ev g d (set_dl_backoff 0 d)
| moved_wait b : b = dl_backoff d \/ b = -1 /\ ev = EHandled g (Some ErrLinkToSelf) ->
    moved s ev g d (set_dl_pc (DWaiting (option_map (Z.add (ls_now s)) (backoff_delay (backoff_next b) (lo_maxBackoff (dl_options d)))))
      (set_dl_backoff (backoff_next b) d))
| moved_leave : ev = EHandled g (Some ErrLinkToSelf) -> moved s ev g d (set_dl_pc DLeaving (set_dl_backoff (-1) d)).

(** The entry of [g] after a step, if it still has one. *)
Definition steps_to (s : linksState) (ev : linksEvent) (g : nat) (d : dialer) (s' : linksState) : Prop :=
  forall d', ls_dialers s' !! g = Some d' -> moved s ev g d d'.

Lemma steps_same s ev g d s' : ls_dialers s !! g = Some d -> ls_dialers s' !! g = ls_dialers s !! g -> steps_to s ev g d s'.
Proof. intros Hg E d'. rewrite E, Hg. intros [= <-]. apply moved_not. Qed.

Lemma steps_insert s ev g d s' d1 : ls_dialers s' = <[g := d1]> (ls_dialers s) -> moved s ev g d d1 -> steps_to s ev g d s'.
Proof. intros E Hm d'. rewrite E, lookup_insert_eq. by intros [= <-]. Qed.

Lemma own_moved s g d ev s' es : ls_dialers s !! g = Some d ->
  match ev with
  | ETop g' | EConnected g' _ | EEffect g' _ | EHandled g' _ | EWake g' | ECancelled g' | ELeave g' => g' = g
  | _ => False
  end ->
  links_step outboundSNIList ev s = Some (tt, s', es) -> steps_to s ev g d s'.
Proof.
  intros Hg Hev. pose proof (steps_same s ev g d s Hg eq_refl) as Hstay.
  destruct ev; try done; subst; unfold links_step; run_links; rewrite Hg;
    (destruct (dl_pc d) as [| |k|t|] eqn:E; try (intros [= <- <-]; exact Hstay)).
  - unfold dialer_step_top, dialer_exit. run_links. destruct (ls_heap s !! dl_ptr d) as [st|]; [|done].
    destruct (ctx_done s st); run_links; intros [= <- <-]; (eapply steps_insert; [reflexivity|by apply moved_pc]).
  - destruct ok.
    + unfold dialer_connected, dialer_exit, on_link, fresh. run_links. destruct (ls_heap s !! dl_ptr d) as [st|]; [|done].
      destruct (lk_conn st); run_links; intros [= <- <-]; (eapply steps_insert; [reflexivity|by apply moved_pc]).
    + unfold dialer_failed, backoffNow, dialer_exit, on_link. destruct (bool_decide _); run_links; intros [= <- <-];
        (eapply steps_insert; [reflexivity|]); [apply moved_wait; by left|by apply moved_pc].
  - destruct e; unfold dialer_effect, on_link; run_links; intros [= <- <-]; try exact Hstay; try (by apply steps_same).
    eapply steps_insert; [reflexivity|by eapply moved_reset].
  - unfold dialer_handled, backoffNow, dialer_exit, on_link, on_conn. run_links.
    set (d1 := match err with Some ErrLinkToSelf => _ | _ => _ end).
    assert (d1 = d \/ err = Some ErrLinkToSelf /\ d1 = set_dl_backoff (-1) d) as [->|[-> ->]]; [unfold d1; repeat case_match; auto| |]; cycle 1.
    + destruct (bool_decide _); run_links; intros [= <- <-]; (eapply steps_insert; [reflexivity|]).
      * exact (moved_wait s _ g d (-1) (or_intror (conj eq_refl eq_refl))).
      * by apply moved_leave.
    + destruct (bool_decide _); run_links; intros [= <- <-]; (eapply steps_insert; [reflexivity|]);
        [apply moved_wait; by left|by apply moved_pc].
  - destruct t as [t|]; [|intros [= <- <-]; exact Hstay].
    destruct (t <=? ls_now s); intros [= <- <-]; [|exact Hstay]. eapply steps_insert; [reflexivity|by apply moved_pc].
  - destruct (ls_heap s !! dl_ptr d) as [st|]; [|intros [= <- <-]; exact Hstay]. unfold dialer_exit.
    destruct (ctx_done s st); run_links; intros [= <- <-]; [|exact Hstay]. eapply steps_insert; [reflexivity|by apply moved_pc].
  - unfold dialer_leave, drop_link. run_links. intros Hs d' Hd.
    assert (ls_dialers s' = delete g (ls_dialers s)) as E1.
    { destruct (bool_decide _) in Hs; revert Hs; run_links; by intros [= <- <-]. }
    by rewrite E1, lookup_delete_eq in Hd.
Qed.

Lemma fmap_moved s ev g d f : ls_dialers s !! g = Some d -> (forall d, f d = d \/ f d = set_dl_pc DTop d) ->
  steps_to s ev g d (set_ls_dialers (fmap f) s).
Proof.
  intros Hg Hf d'. cbn. rewrite lookup_fmap, Hg. intros [= <-]. destruct (Hf d) as [->| ->]; [apply moved_not|by apply moved_pc].
Qed.

(** Any step of a run. *)
Lemma step_moved s g d ev s' es : links_ok s -> no_collision s ev -> ls_dialers s !! g = Some d ->
  links_step outboundSNIList ev s = Some (tt, s', es) -> steps_to s ev g d s'.
Proof.
  intros Hok Hn Hg Hs.
  assert (forall h, match ev with
    | ETop g' | EConnected g' _ | EEffect g' _ | EHandled g' _ | EWake g' | ECancelled g' | ELeave g' => g' = h
    | _ => False end -> steps_to s ev g d s') as Hd.
  { intros h Hh. destruct (decide (h = g)) as [->|Hne]; [by apply (own_moved s g d ev s' es)|].
    apply steps_same; [done|]. by apply (other_dialer_step s g h (dl_ptr d) ev s' es). }
  assert (match ev with EAcceptSNI _ _ | EAcceptEffect _ _ | EAcceptHandled _ | EAcceptLeave _ => True | _ => False end -> steps_to s ev g d s') as Ha.
  { intros Hh. apply steps_same; [done|]. by apply (acceptor_untouched s g (dl_ptr d) ev s' es). }
  destruct ev; try (by eapply Hd); try (by apply Ha); revert Hs; unfold links_step.
  - unfold links_add. run_links. destruct (dialerFor u); [|intros [= <- <-]; by apply steps_same].
    destruct (add_options outboundSNIList u) as [e|o]; [intros [= <- <-]; by apply steps_same|]. run_links.
    destruct (ls_links s !! info_for u sintf) as [p|]; unfold kick, fresh; run_links; intros [= <- <-].
    + apply fmap_moved; [done|]. intros d1. destruct (waits_on p d1); auto.
    + apply steps_same; [done|]. cbn [set_ls_dialers set_ls_links set_ls_heap ls_dialers ls_next]. apply (fresh_dialer s g d); [done|done|lia].
  - unfold links_remove. run_links. destruct (ls_links s !! info_for u sintf) as [p|]; [|intros [= <- <-]; by apply steps_same].
    destruct (ls_heap s !! p) as [st|]; [|done]. destruct (lk_cancelled st); [|done]. unfold on_link, close_conn, on_conn.
    destruct (lk_conn st); run_links; intros [= <- <-]; by apply steps_same.
  - unfold retry_all. run_links. intros [= <- <-]. apply fmap_moved; [done|]. intros d1. case_match; auto.
  - run_links. intros [= <- <-]. by apply steps_same.
  - unfold updateAverages. run_links. intros [= <- <-]. apply steps_same; [done|]. by destruct (ls_done s).
  - unfold shutdown. run_links. intros [= <- <-]. by apply steps_same.
  - unfold accept. run_links. fold (accept_info u remoteAddr sintf). rewrite Hn. unfold fresh, on_link. run_links.
    cbn [set_ls_heap ls_heap ls_next ls_links ls_conns ls_dialers ls_acceptors ls_now ls_done]. rewrite lookup_insert_eq.
    cbn [lk_conn lk_linkProto]. intros [= <- <-]. by apply steps_same.
  - unfold on_conn. run_links. intros [= <- <-]. by apply steps_same.
  - unfold on_conn. run_links. intros [= <- <-]. by apply steps_same.
Qed.

(** The times that the clock has shown. *)
Definition clock (s : linksState) (evs : list linksEvent) : list Z :=
  ls_now s :: omap (fun ev => match ev with ETick now => Some now | _ => None end) evs.

(** How long a goroutine waits: for one of the delays 2{^n} seconds, or the limit of
    the URI, from a time on that the clock has shown; without an end only after
    its handler has found that the other side is this node. *)
Definition wait_bounded (times : list Z) (to_self : Prop) (d : dialer) : Prop :=
  match dl_pc d with
  | DWaiting (Some t) => exists now n, now ∈ times /\ 1 <= n <= 32 /\ t = now + Z.min (Second * 2 ^ n) (lo_maxBackoff (dl_options d))
  | DWaiting None => to_self
  | _ => True
  end.
Definition paced (times : list Z) (to_self : Prop) (d : dialer) : Prop :=
  -1 <= dl_backoff d <= 32 /\ (dl_backoff d = -1 -> to_self) /\ wait_bounded times to_self d.

Lemma paced_mono times times' (P P' : Prop) d : times ⊆ times' -> (P -> P') -> paced times P d -> paced times' P' d.
Proof.
  intros Hsub HP (Hb & Hm & Hw). split; [done|]. split; [auto|]. unfold wait_bounded in *.
  destruct (dl_pc d) as [| | |[t|]|]; auto. destruct Hw as (now & n & Hin & Hw). eauto 10.
Qed.

Lemma paced_moved s ev g d d' times (P : Prop) : ls_now s ∈ times -> paced times P d -> moved s ev g d d' ->
  paced times (P \/ ev = EHandled g (Some ErrLinkToSelf)) d'.
Proof.
  intros Hnow (Hb & Hm & Hw) Hmv. destruct Hmv as [|pc Hpc| k Hk |b Hbk|].
  - apply (paced_mono times times P); [done|by left|done].
  - split; [done|]. split; [by left; apply Hm|]. unfold wait_bounded. cbn. destruct pc as [| | |t|]; try done. by destruct (Hpc t).
  - split; [cbn; lia|]. split; [cbn; lia|]. unfold wait_bounded. cbn. by rewrite Hk.
  - assert (-1 <= b <= 32 /\ (b = -1 -> P \/ ev = EHandled g (Some ErrLinkToSelf))) as [Hb1 Hb2].
    { destruct Hbk as [->|[-> ->]]; [split; [done|by left; apply Hm]|split; [lia|by right]]. }
    assert (b = -1 /\ backoff_next b = -1 \/ 1 <= backoff_next b <= 32) as Hnx.
    { unfold backoff_next. destruct (Z.leb_spec 0 b), (Z.ltb_spec b 32); cbn [andb]; lia. }
    unfold paced, wait_bounded. cbn [set_dl_pc set_dl_backoff dl_backoff dl_pc dl_options].
    destruct Hnx as [[Hb' ->]|Hnx].
    + split; [lia|]. split; [by auto|]. by apply Hb2.
    + split; [lia|]. split; [lia|]. rewrite backoff_delay_spec by lia. cbn. by exists (ls_now s), (backoff_next b).
  - split; [cbn; lia|]. split; [by auto|done].
Qed.

(** A run of events that connects. *)
Definition connects (evs : list linksEvent) (s : linksState) (d : dialer) : Prop :=
  exists s', links_run outboundSNIList evs s = Some (tt, s', [LsConnect (dl_url d) (dl_options d)]).
(** A step after which [g] waits. *)
Definition waits_after (ev : linksEvent) (s : linksState) (g : nat) : Prop :=
  exists s' es d' until, links_step outboundSNIList ev s = Some (tt, s', es) /\ ls_dialers s' !! g = Some d' /\ dl_pc d' = DWaiting until.

(** Where the goroutine [g] of [d] is, and how it gets from there to its next attempt. *)
Definition tries_again (s : linksState) (g : nat) (d d' : dialer) : Prop :=
  match dl_pc d' with
  | DTop => connects [ETop g] s d
  | DConnecting => waits_after (EConnected g false) s g
  | DHandling _ => forall err, waits_after (EHandled g err) s g
  | DWaiting until => connects [ERetry; ETop g] s d /\
      forall t now, until = Some t -> t <= now -> connects [ETick now; EWake g; ETop g] s d
  | DLeaving => False
  end.

(** From the top of its loop it connects. *)
Lemma top_connects s g d d1 : ls_dialers s !! g = Some d1 -> dl_pc d1 = DTop -> same_dialer d d1 -> ls_done s = false -> uncancelled s (dl_ptr d) ->
  exists s', links_step outboundSNIList (ETop g) s = Some (tt, s', [LsConnect (dl_url d) (dl_options d)]).
Proof.
  intros Hg Hpc (Hi & Hp & Hu & _ & Ho) Hdn (st & Hst & Hc). unfold links_step. run_links. rewrite Hg, Hpc.
  unfold dialer_step_top. run_links. rewrite Hp, Hst. unfold ctx_done. rewrite Hdn, Hc. cbn [default orb]. run_links.
  rewrite Hu, Ho. by eexists.
Qed.

Lemma next_attempt s g d d' : links_ok s -> runs s g d -> dl_linkType d = linkTypePersistent -> ls_dialers s !! g = Some d' -> tries_again s g d d'.
Proof.
  intros Hok (d0 & Hg0 & Hsame & Hpc & Hdn & Hunc) Ht Hg. rewrite Hg0 in Hg. injection Hg as ->.
  pose proof Hsame as (Hi & Hp & Hu & Hlt & Ho).
  assert (bool_decide (dl_linkType d' = linkTypePersistent) = true) as Hper by (apply bool_decide_eq_true; congruence).
  assert (forall s1 evs d1, links_run outboundSNIList evs s = Some (tt, s1, []) -> ls_dialers s1 !! g = Some d1 -> dl_pc d1 = DTop ->
    same_dialer d d1 -> ls_done s1 = false -> uncancelled s1 (dl_ptr d) -> connects (evs ++ [ETop g]) s d) as Hrun.
  { intros s1 evs d1 Hr H1 H2 H3 H4 H5. destruct (top_connects s1 g d d1 H1 H2 H3 H4 H5) as [s2 E2]. exists s2.
    rewrite (links_run_app evs [ETop g]), Hr, links_run_cons, E2. done. }
  unfold tries_again. destruct (dl_pc d') as [| |k|until|] eqn:E; [| | | |done].
  - by apply (Hrun s [] d').
  - unfold waits_after, links_step. run_links. rewrite Hg0, E. unfold dialer_failed, backoffNow, on_link. rewrite Hper. run_links.
    eexists _, _, _, _. split; [reflexivity|]. cbn [set_ls_dialers set_ls_heap ls_dialers]. rewrite lookup_insert_eq. done.
  - intros err. unfold waits_after, links_step. run_links. rewrite Hg0, E. unfold dialer_handled, backoffNow, on_link, on_conn. run_links.
    set (d1 := match err with Some ErrLinkToSelf => _ | _ => _ end).
    assert (dl_linkType d1 = dl_linkType d') as -> by (unfold d1; by repeat case_match). rewrite Hper. run_links.
    eexists _, _, _, _. split; [reflexivity|]. cbn [set_ls_dialers set_ls_heap set_ls_conns ls_dialers]. rewrite lookup_insert_eq. done.
  - split.
    + apply (Hrun (set_ls_dialers (fmap (fun d => if bool_decide (dl_ptr d ∈ map snd (map_to_list (ls_links s))) && waits_on (dl_ptr d) d
        then set_dl_pc DTop d else d)) s) [ERetry] (set_dl_pc DTop d')); [reflexivity| |done|done|done|done].
      cbn [set_ls_dialers ls_dialers]. rewrite lookup_fmap, Hg0. cbn [fmap option_fmap option_map].
      rewrite bool_decide_eq_true_2; [unfold waits_on; by rewrite bool_decide_eq_true_2, E by done|].
      destruct (ok_dialer _ Hok g d' Hg0) as [Hl _]. apply list_elem_of_fmap. exists (dl_info d', dl_ptr d').
      split; [done|]. by apply elem_of_map_to_list.
    + intros t now -> Htn.
      apply (Hrun (set_ls_dialers (insert g (set_dl_pc DTop d')) (set_ls_now now s)) [ETick now; EWake g] (set_dl_pc DTop d')); try done.
      * rewrite links_run_cons. change (links_step outboundSNIList (ETick now) s) with (Some (tt, set_ls_now now s, @nil linksEffect)).
        cbv beta iota. rewrite links_run_cons. unfold links_step. run_links. change (ls_dialers (set_ls_now now s)) with (ls_dialers s). rewrite Hg0, E.
        change (ls_now (set_ls_now now s)) with now. destruct (Z.leb_spec t now); [done|lia].
      * cbn. by rewrite lookup_insert_eq.
Qed.

(** One step: the goroutine stays and keeps its pace. *)
Lemma paced_step s g d d0 ev s' es times (P : Prop) : links_ok s -> no_collision s ev -> runs s g d -> dl_linkType d = linkTypePersistent ->
  ~ ends_link d ev -> ls_dialers s !! g = Some d0 -> ls_now s ∈ times -> paced times P d0 ->
  links_step outboundSNIList ev s = Some (tt, s', es) ->
  runs s' g d /\ exists d1, ls_dialers s' !! g = Some d1 /\ paced times (P \/ ev = EHandled g (Some ErrLinkToSelf)) d1.
Proof.
  intros Hok Hn Hr Ht He Hg Hnow Hpd Hs. pose proof (runs_step s g d ev s' es Hok Hn Hr Ht He Hs) as Hr'. split; [done|].
  pose proof Hr' as (d1 & Hg1 & _). exists d1. split; [done|]. apply (paced_moved s ev g d0); [done|done|].
  exact (step_moved s g d0 ev s' es Hok Hn Hg Hs d1 Hg1).
Qed.

Lemma step_now s ev s' es : links_step outboundSNIList ev s = Some (tt, s', es) ->
  ls_now s' = match ev with ETick now => now | _ => ls_now s end.
Proof.
  destruct ev; unfold links_step, links_add, links_remove, retry_all, updateAverages, shutdown, dialer_step_top, dialer_connected,
    dialer_failed, dialer_effect, dialer_handled, dialer_leave, accept, acceptor_sni, acceptor_effect, acceptor_handled, acceptor_leave,
    backoffNow, dialer_exit, drop_link, kick, close_conn, on_link, on_conn, fresh; run_links;
    intros Hs; repeat (case_match; run_links; try done); by simplify_eq/=.
Qed.

Lemma paced_run evs : forall s g d d0 times (P : Prop), links_ok s -> collision_free evs s -> runs s g d -> dl_linkType d = linkTypePersistent ->
  Forall (fun ev => ~ ends_link d ev) evs -> ls_dialers s !! g = Some d0 -> clock s evs ⊆ times -> paced times P d0 ->
  forall s' es, links_run outboundSNIList evs s = Some (tt, s', es) ->
  links_ok s' /\ runs s' g d /\
  exists d', ls_dialers s' !! g = Some d' /\ paced times (P \/ EHandled g (Some ErrLinkToSelf) ∈ evs) d'.
Proof.
  induction evs as [|ev evs IH]; intros s g d d0 times P Hok Hc Hr Ht He Hg Htm Hpd s' es Hs.
  - injection Hs as <- <-. split_and!; [done|done|]. exists d0. split; [done|]. apply (paced_mono times times P); [done|by left|done].
  - rewrite links_run_cons in Hs. destruct Hc as [Hn Hc]. apply Forall_cons in He as [He1 He].
    pose proof (links_step_ok outboundSNIList s ev Hok Hn) as Hso. unfold step_ok in Hso.
    destruct (links_step outboundSNIList ev s) as [[[[] s1] es1]|] eqn:E; [|done].
    destruct (links_run outboundSNIList evs s1) as [[[[] s2] es2]|] eqn:E2; [|done]. injection Hs as <- <-.
    destruct (paced_step s g d d0 ev s1 es1 times P) as (Hr1 & d1 & Hg1 & Hp1); try done; [apply Htm; by left|].
    assert (clock s1 evs ⊆ times) as Htm1.
    { etrans; [|exact Htm]. unfold clock. rewrite (step_now s ev s1 es1 E).
      destruct ev; intros t; cbn; rewrite ?elem_of_cons; tauto. }
    destruct (IH s1 g d d1 times _ Hso Hc Hr1 Ht He Hg1 Htm1 Hp1 s2 es2 E2) as (Ho & Hr2 & d2 & Hg2 & Hp2).
    split_and!; [done|done|]. exists d2. split; [done|]. apply (paced_mono times times ((P \/ ev = EHandled g (Some ErrLinkToSelf)) \/ EHandled g (Some ErrLinkToSelf) ∈ evs)); [done| |done].
    rewrite elem_of_cons. intuition.
Qed.

(** The goroutine that [add] has just started. *)
Definition just_started (s : linksState) (g : nat) (d : dialer) : Prop :=
  runs s g d /\ ls_dialers s !! g = Some d /\ dl_pc d = DTop /\ dl_backoff d = 0 /\ dl_linkType d = linkTypePersistent.

(** C24: a configured peer is not given up: as long as it is not removed and the node runs, and
    no accepted connection takes the URI of a link, its goroutine stays and its entry stays in
    the table, whatever happens to it and to other links. After every attempt and every
    connection that ends it waits, for 2{^n} seconds with n from 1 to 32 or for the limit of its
    URI if that is less, counted from a time that the clock has shown; when that time comes it
    connects again with the same URI and options, and while it waits a request to retry makes it
    connect at once. The one exception is a peer that turned out to be this node: it may wait
    without a limit, and then only such a request makes it try again. *)
Theorem persistent_link_stays evs s g d : links_ok s -> collision_free evs s -> just_started s g d ->
  Forall (fun ev => ~ ends_link d ev) evs ->
  forall s' es, links_run outboundSNIList evs s = Some (tt, s', es) ->
  ls_links s' !! dl_info d = Some (dl_ptr d) /\ exists d', ls_dialers s' !! g = Some d' /\ same_dialer d d' /\
    wait_bounded (clock s evs) (EHandled g (Some ErrLinkToSelf) ∈ evs) d' /\ tries_again s' g d d'.
Proof.
  intros Hok Hc (Hr & Hg & Hpc & Hb & Ht) He s' es Hs.
  destruct (paced_run evs s g d d (clock s evs) False Hok Hc Hr Ht He Hg) with (s' := s') (es := es) as (Ho & Hr' & d' & Hg' & Hp'); [done| |done|].
  { split; [lia|]. split; [lia|]. unfold wait_bounded. by rewrite Hpc. }
  pose proof Hr' as (d1 & Hg1 & Hsame & _). rewrite Hg' in Hg1. injection Hg1 as <-.
  pose proof Hsame as (Hi & Hp & _). split; [rewrite <- Hi, <- Hp; apply (ok_dialer _ Ho g d' Hg')|].
  exists d'. split_and!; [done|done| |by apply next_attempt].
  destruct Hp' as (_ & _ & Hw). unfold wait_bounded in *. destruct (dl_pc d') as [| | |[]|]; try done. by destruct Hw.
Qed.
End runs.

(** ** Connections that are accepted under the URI of a link *)

Section collisions.
Context `{GoStrings} (outboundSNIList : list string).

(** An accepted connection whose URI is that of a connected link is refused,
    but takes the link's entry with it: the goroutine of a configured peer goes
    on with its connection while the table is empty, so that the peer is not
    reported, cannot be removed, and can be added a second time. All
    connections that a UNIX socket accepts have the same URI. *)
Theorem collision_loses_link u sintf u' r i now p options : dialerFor u = Some p ->
  add_options outboundSNIList u = inr options -> accept_info u' r i = info_for u sintf ->
  exists s es, links_run outboundSNIList
      [EAdd u sintf linkTypePersistent; ETop 1; EConnected 1 true; EAccept u' r i; EAcceptLeave 3] (links_init now) = Some (tt, s, es) /\
    ls_links s = ∅ /\
    (exists d, ls_dialers s !! 1%nat = Some d /\ dl_info d = info_for u sintf /\ dl_pc d = DHandling 2 /\
      ls_conns s !! 2%nat = Some (new_linkConn now (ToUpper (u_scheme u)))) /\
    (exists s', links_run outboundSNIList [ERemove u sintf] s = Some (tt, s', [LsReturn (Some ErrLinkNotConfigured)])) /\
    (exists s', links_run outboundSNIList [EAdd u sintf linkTypePersistent] s = Some (tt, s', [LsReturn None])).
Proof.
  intros Hp Ho Hi. set (info := info_for u sintf) in *. set (st0 := MkLinkState (Some false) linkTypePersistent (ToUpper (u_scheme u)) "" "" None None 0 []).
  set (d0 := MkDialer info 0 u linkTypePersistent options 0 DTop).
  set (s1 := MkLinks {[info := 0%nat]} {[0%nat := st0]} ∅ {[1%nat := d0]} ∅ 2 now false).
  assert (links_step outboundSNIList (EAdd u sintf linkTypePersistent) (links_init now) = Some (tt, s1, [LsReturn None])) as E1.
  { unfold links_step, links_add. run_links. rewrite Hp, Ho. run_links. reflexivity. }
  set (s2 := set_ls_dialers (insert 1%nat (set_dl_pc DConnecting d0)) s1).
  assert (links_step outboundSNIList (ETop 1) s1 = Some (tt, s2, [LsConnect u options])) as E2 by reflexivity.
  set (proto := ToUpper (u_scheme u)).
  set (s3 := set_ls_dialers (insert 1%nat (set_dl_pc (DHandling 2) (set_dl_pc DConnecting d0)))
    (MkLinks {[info := 0%nat]} (alter (fun st => set_lk_err None now (set_lk_sni (lo_tlsSNI options) (set_lk_conn (Some 2%nat) st))) 0%nat {[0%nat := st0]})
      {[2%nat := new_linkConn now proto]} (ls_dialers s2) ∅ 3 now false)).
  assert (links_step outboundSNIList (EConnected 1 true) s2 = Some (tt, s3, [])) as E3 by reflexivity.
  set (s4 := set_ls_acceptors (insert 3%nat (MkAcceptor info 0 ALeaving))
    (MkLinks {[info := 0%nat]} (ls_heap s3) (ls_conns s3) (ls_dialers s3) ∅ 4 now false)).
  assert (links_step outboundSNIList (EAccept u' r i) s3 = Some (tt, s4, [])) as E4.
  { unfold links_step, accept. run_links. fold (accept_info u' r i). rewrite Hi. unfold s3 at 1. cbn [set_ls_dialers ls_links].
    rewrite lookup_singleton_eq. reflexivity. }
  set (s5 := MkLinks (delete info {[info := 0%nat]}) (ls_heap s3) (ls_conns s3) (ls_dialers s3) ∅ 4 now false).
  assert (links_step outboundSNIList (EAcceptLeave 3) s4 = Some (tt, s5, [])) as E5.
  { unfold links_step. run_links. change (ls_acceptors s4 !! 3%nat) with (Some (MkAcceptor info 0 ALeaving)).
    cbn [ac_pc]. unfold acceptor_leave, drop_link. run_links. cbn [set_ls_acceptors ls_links ac_info ac_ptr].
    change (ls_links s4) with ({[info := 0%nat]} : gmap linkInfo nat). rewrite bool_decide_eq_true_2 by apply lookup_singleton_eq. reflexivity. }
  assert (ls_links s5 = ∅) as El by apply delete_singleton_eq.
  exists s5. eexists. split_and!.
  - do 5 (rewrite links_run_cons; first [rewrite E1|rewrite E2|rewrite E3|rewrite E4|rewrite E5]). reflexivity.
  - exact El.
  - by exists (set_dl_pc (DHandling 2) (set_dl_pc DConnecting d0)).
  - rewrite links_run_cons. unfold links_step, links_remove. run_links. rewrite El, lookup_empty. run_links. by eexists.
  - rewrite links_run_cons. unfold links_step, links_add. run_links. rewrite Hp, Ho. run_links. rewrite El, lookup_empty.
    run_links. by eexists.
Qed.

(** [remove] calls the [cancel] function of the link, which is nil for an
    accepted connection: the node panics. *)
Lemma remove_accepted_panics s u sintf : links_ok s -> accepted_link s (info_for u sintf) ->
  links_step outboundSNIList (ERemove u sintf) s = None.
Proof.
  intros Hok (g & a & Hg & Hi). destruct (ok_acceptor _ Hok g a Hg) as (Hl & st & Hst & Hc & _). rewrite Hi in Hl.
  unfold links_step, links_remove. run_links. rewrite Hl, Hst, Hc. done.
Qed.
End collisions.

(** ** Witnesses *)

Definition w_url : url := MkUrl "tls" "host:1" [("priority", "3"); ("maxbackoff", "10s"); ("key", "0aFF")]%string "".
Definition w_listen : url := MkUrl "tls" "[::]:9" []%string "".
Definition w_linkOptions : linkOptions := MkLinkOptions {[array_of 32 [Byte.x0a; Byte.xff]]} 3 "" [] (10 * Second).

Lemma w_add_options : @add_options toy_strings [] w_url = inr w_linkOptions.
Proof. vm_compute. reflexivity. Qed.

(** A run in which a peer fails, waits and is tried again, while another node
    connects. *)
Definition w_link_events : list linksEvent :=
  [EAdd w_url "" linkTypePersistent; ETop 1; EConnected 1 false; ETick (5 * Second); EWake 1; ETop 1; EConnected 1 true;
   EAccept w_listen "peer:7" ""; EAcceptHandled 4; EAcceptLeave 4; EHandled 1 (Some HsNotAllowed)].

Lemma w_collision_free : @collision_free toy_strings [] w_link_events (links_init 0).
Proof. vm_compute. repeat split. Qed.

Lemma link_table_exact_witness :
  match @links_run toy_strings [] w_link_events (links_init 0) with Some (_, s', _) => links_ok s' | None => False end.
Proof.
  pose proof (@link_table_exact toy_strings [] w_link_events (links_init 0) (links_ok_init 0) w_collision_free) as Hl.
  destruct (@links_run toy_strings [] w_link_events (links_init 0)) as [[[u s'] es]|] eqn:E; [exact Hl|].
  exfalso. revert E. vm_compute. discriminate.
Defined.

Definition w_dialer : dialer := MkDialer (@info_for toy_strings w_url "") 0 w_url linkTypePersistent w_linkOptions 0 DTop.
Definition w_added : linksState :=
  MkLinks {[@info_for toy_strings w_url "" := 0%nat]} {[0%nat := MkLinkState (Some false) linkTypePersistent "TLS" "" "" None None 0 []]} ∅
    {[1%nat := w_dialer]} ∅ 2 0 false.

Lemma w_added_step : @links_step toy_strings [] (EAdd w_url "" linkTypePersistent) (links_init 0) = Some (tt, w_added, [LsReturn None]).
Proof. vm_compute. reflexivity. Qed.

Lemma w_added_ok : links_ok w_added.
Proof.
  pose proof (@links_step_ok toy_strings [] (links_init 0) (EAdd w_url "" linkTypePersistent) (links_ok_init 0) I) as Hs.
  unfold step_ok in Hs. rewrite w_added_step in Hs. exact Hs.
Qed.

Lemma persistent_link_stays_witness : exists s' es d',
  @links_run toy_strings [] (tail w_link_events) w_added = Some (tt, s', es) /\ ls_dialers s' !! 1%nat = Some d' /\
  @tries_again toy_strings [] s' 1 w_dialer d'.
Proof.
  destruct (@links_run toy_strings [] (tail w_link_events) w_added) as [[[[] s'] es]|] eqn:E; [|exfalso; revert E; vm_compute; discriminate].
  destruct (@persistent_link_stays toy_strings [] (tail w_link_events) w_added 1 w_dialer w_added_ok) with (s' := s') (es := es)
    as (_ & d' & Hd & _ & _ & Hn); [| | |exact E|].
  - vm_compute. repeat split.
  - split; [|repeat split]. exists w_dialer. split; [reflexivity|]. split; [repeat split|]. split; [discriminate|]. split; [reflexivity|].
    eexists. split; reflexivity.
  - repeat constructor; intros [].
  - exists s', es, d'. split; [reflexivity|]. split; [exact Hd|exact Hn].
Defined.
