(* ===== verification/KeyStore.v ===== *)
(** * IPv6 packets over the network

    [src/ipv6rwc/ipv6rwc.go] and [icmpv6.go]: which key a packet for an address
    or a subnet goes to, the packets that wait for a key to be found, and which
    received packets are passed on; with the framing of [src/core/core.go].

    The pointers of [keyInfo] and [buffer] are numbers. A timer is pending until
    it is stopped or expires; an expired one runs its function later, when it
    gets the mutex, even if it is stopped in between. *)

From S2P Require Import Prelude Crypto Binary Address.

(** ** The framing of [core.go] *)

Definition typeSessionDummy : Z := 0.
Definition typeSessionTraffic : Z := 1.
Definition typeSessionProto : Z := 2.

(** [MTU] of [Core], from that of the inner connection. *)
Definition core_MTU (inner : Z) : Z :=
  let MTU := u64 (inner - 1) in
  if 65535 <? MTU then 65535 else MTU.

(** The message of [WriteTo]. *)
Definition core_frame (p : list byte) : list byte := z2b typeSessionTraffic :: p.

(** One round of the loop of [ReadFrom] on a received message: the data to
    return, or data for the protocol handler, or nothing. *)
Inductive coreRead := CoreData (bs : list byte) | CoreProto (data : list byte) | CoreSkip.
Definition core_read (p : nat) (bs : list byte) : coreRead :=
  match bs with
  | [] => CoreSkip
  | t :: data =>
      if b2z t =? typeSessionTraffic then CoreData (take p data)
      else if b2z t =? typeSessionProto then CoreProto data
      else CoreSkip
  end.

(** ** ICMPv6 *)

(** [golang.org/x/net/icmp]: the encoding of a message "packet too big", with
    its checksum. *)
Class Icmp := { icmp_PacketTooBig : list byte -> list byte -> Z -> list byte -> option (list byte) }.

Record ipv6Header := MkHeader {
  hd_Version : Z; hd_TrafficClass : Z; hd_FlowLabel : Z; hd_PayloadLen : Z; hd_NextHeader : Z; hd_HopLimit : Z;
  hd_Src : list byte; hd_Dst : list byte
}.

Definition ipv6Header_Marshal (h : ipv6Header) : list byte :=
  [z2b (Z.lor (Z.shiftl (hd_Version h mod 256) 4) (Z.shiftr (hd_TrafficClass h mod 256) 4));
   z2b (Z.lor (Z.shiftl (hd_TrafficClass h mod 256) 4) (Z.shiftr (hd_FlowLabel h) 16 mod 256));
   z2b (Z.shiftr (hd_FlowLabel h) 8); z2b (hd_FlowLabel h)] ++
  be_bytes 2 (hd_PayloadLen h) ++ [z2b (hd_NextHeader h); z2b (hd_HopLimit h)] ++
  arr_list (array_of 16 (hd_Src h)) ++ arr_list (array_of 16 (hd_Dst h)).

Definition CreateICMPv6 `{Icmp} (dst src : list byte) (mtu : Z) (data : list byte) : option (list byte) :=
  match icmp_PacketTooBig src dst mtu data with
  | None => None
  | Some msg => Some (ipv6Header_Marshal (MkHeader 6 0 0 (Z.of_nat (length msg)) 58 255 src dst) ++ msg)
  end.

(** ** The key store *)

Record keyInfo := MkKeyInfo { ki_key : array 32; ki_address : Address; ki_subnet : Subnet; ki_timeout : option nat }.
Record buffer := MkBuf { bf_packet : list byte; bf_timeout : option nat }.

(** The functions that timers run. *)
Inductive ksTimer := TInfo (p : nat) | TAddr (addr : Address) (b : nat) | TSubnet (subnet : Subnet) (b : nat).

Record keyStore := MkKeyStore {
  ks_address : Address;
  ks_subnet : Subnet;
  ks_keyToInfo : gmap (array 32) nat;
  ks_addrToInfo : gmap Address nat;
  ks_addrBuffer : gmap Address nat;
  ks_subnetToInfo : gmap Subnet nat;
  ks_subnetBuffer : gmap Subnet nat;
  ks_mtu : Z;
  ks_infos : gmap nat keyInfo;
  ks_buffers : gmap nat buffer;
  ks_pending : gmap nat ksTimer;
  ks_expired : gmap nat ksTimer;
  ks_next : nat
}.

Definition set_ks_keyToInfo f (k : keyStore) : keyStore :=
  MkKeyStore (ks_address k) (ks_subnet k) (f (ks_keyToInfo k)) (ks_addrToInfo k) (ks_addrBuffer k) (ks_subnetToInfo k)
    (ks_subnetBuffer k) (ks_mtu k) (ks_infos k) (ks_buffers k) (ks_pending k) (ks_expired k) (ks_next k).
Definition set_ks_addrToInfo f (k : keyStore) : keyStore :=
  MkKeyStore (ks_address k) (ks_subnet k) (ks_keyToInfo k) (f (ks_addrToInfo k)) (ks_addrBuffer k) (ks_subnetToInfo k)
    (ks_subnetBuffer k) (ks_mtu k) (ks_infos k) (ks_buffers k) (ks_pending k) (ks_expired k) (ks_next k).
Definition set_ks_addrBuffer f (k : keyStore) : keyStore :=
  MkKeyStore (ks_address k) (ks_subnet k) (ks_keyToInfo k) (ks_addrToInfo k) (f (ks_addrBuffer k)) (ks_subnetToInfo k)
    (ks_subnetBuffer k) (ks_mtu k) (ks_infos k) (ks_buffers k) (ks_pending k) (ks_expired k) (ks_next k).
Definition set_ks_subnetToInfo f (k : keyStore) : keyStore :=
  MkKeyStore (ks_address k) (ks_subnet k) (ks_keyToInfo k) (ks_addrToInfo k) (ks_addrBuffer k) (f (ks_subnetToInfo k))
    (ks_subnetBuffer k) (ks_mtu k) (ks_infos k) (ks_buffers k) (ks_pending k) (ks_expired k) (ks_next k).
Definition set_ks_subnetBuffer f (k : keyStore) : keyStore :=
  MkKeyStore (ks_address k) (ks_subnet k) (ks_keyToInfo k) (ks_addrToInfo k) (ks_addrBuffer k) (ks_subnetToInfo k)
    (f (ks_subnetBuffer k)) (ks_mtu k) (ks_infos k) (ks_buffers k) (ks_pending k) (ks_expired k) (ks_next k).
Definition set_ks_mtu v (k : keyStore) : keyStore :=
  MkKeyStore (ks_address k) (ks_subnet k) (ks_keyToInfo k) (ks_addrToInfo k) (ks_addrBuffer k) (ks_subnetToInfo k)
    (ks_subnetBuffer k) v (ks_infos k) (ks_buffers k) (ks_pending k) (ks_expired k) (ks_next k).
Definition set_ks_infos f (k : keyStore) : keyStore :=
  MkKeyStore (ks_address k) (ks_subnet k) (ks_keyToInfo k) (ks_addrToInfo k) (ks_addrBuffer k) (ks_subnetToInfo k)
    (ks_subnetBuffer k) (ks_mtu k) (f (ks_infos k)) (ks_buffers k) (ks_pending k) (ks_expired k) (ks_next k).
Definition set_ks_buffers f (k : keyStore) : keyStore :=
  MkKeyStore (ks_address k) (ks_subnet k) (ks_keyToInfo k) (ks_addrToInfo k) (ks_addrBuffer k) (ks_subnetToInfo k)
    (ks_subnetBuffer k) (ks_mtu k) (ks_infos k) (f (ks_buffers k)) (ks_pending k) (ks_expired k) (ks_next k).
Definition set_ks_pending f (k : keyStore) : keyStore :=
  MkKeyStore (ks_address k) (ks_subnet k) (ks_keyToInfo k) (ks_addrToInfo k) (ks_addrBuffer k) (ks_subnetToInfo k)
    (ks_subnetBuffer k) (ks_mtu k) (ks_infos k) (ks_buffers k) (f (ks_pending k)) (ks_expired k) (ks_next k).
Definition set_ks_expired f (k : keyStore) : keyStore :=
  MkKeyStore (ks_address k) (ks_subnet k) (ks_keyToInfo k) (ks_addrToInfo k) (ks_addrBuffer k) (ks_subnetToInfo k)
    (ks_subnetBuffer k) (ks_mtu k) (ks_infos k) (ks_buffers k) (ks_pending k) (f (ks_expired k)) (ks_next k).
Definition ks_bump (k : keyStore) : keyStore :=
  MkKeyStore (ks_address k) (ks_subnet k) (ks_keyToInfo k) (ks_addrToInfo k) (ks_addrBuffer k) (ks_subnetToInfo k)
    (ks_subnetBuffer k) (ks_mtu k) (ks_infos k) (ks_buffers k) (ks_pending k) (ks_expired k) (S (ks_next k)).

(** Calls of the node: [core.WriteTo] and [core.SendLookup]. *)
Inductive ksEffect := KsWriteTo (bs : list byte) (key : array 32) | KsLookup (partial : array 32).

Abbreviation Y_ := (Act keyStore ksEffect).
Abbreviation yret a := (mret (M := Act keyStore ksEffect) a) (only parsing).
Abbreviation ygets f := (act_gets (S := keyStore) (E := ksEffect) f).
Abbreviation ymodify f := (act_modify (S := keyStore) (E := ksEffect) f).
Abbreviation yemit e := (act_emit (S := keyStore) (E := ksEffect) e).

Definition ks_fresh : Y_ nat :=
  p ← ygets ks_next;
  _ ← ymodify ks_bump;
  yret p.

(** [t.Stop()] and [time.AfterFunc] *)
Definition stop_timer (t : option nat) : Y_ unit :=
  match t with None => yret tt | Some t => ymodify (set_ks_pending (delete t)) end.
Definition after_func (f : ksTimer) : Y_ nat :=
  t ← ks_fresh;
  _ ← ymodify (set_ks_pending (insert t f));
  yret t.

(** The errors of [writePC]. *)
Inductive pcError := PcEmpty | PcNotIPv6 | PcUndersized | PcBadSource | PcBadDestination.
#[global] Instance pcError_eq_dec : EqDecision pcError.
Proof. solve_decision. Defined.

Section keyStore.
Context `{Icmp} (prefix : byte).

Definition keyStore_init (publicKey : list byte) : option keyStore :=
  match AddrForKey prefix publicKey, SubnetForKey prefix publicKey with
  | Some address, Some subnet => Some (MkKeyStore address subnet ∅ ∅ ∅ ∅ ∅ 1280 ∅ ∅ ∅ ∅ 0)
  | _, _ => None
  end.

Definition resetTimeout (p : nat) (info : keyInfo) : Y_ unit :=
  _ ← stop_timer (ki_timeout info);
  t ← after_func (TInfo p);
  ymodify (set_ks_infos (insert p (MkKeyInfo (ki_key info) (ki_address info) (ki_subnet info) (Some t)))).

Definition sendToAddress (addr : Address) (bs : list byte) : Y_ unit :=
  k ← ygets (fun k => k);
  match ks_addrToInfo k !! addr ≫= fun p => pair p <$> ks_infos k !! p with
  | Some (p, info) =>
      _ ← resetTimeout p info;
      yemit (KsWriteTo bs (ki_key info))
  | None =>
      b ← (match ks_addrBuffer k !! addr with
           | Some b => yret b
           | None =>
               b ← ks_fresh;
               _ ← ymodify (set_ks_buffers (insert b (MkBuf [] None)));
               _ ← ymodify (set_ks_addrBuffer (insert addr b));
               yret b
           end);
      buffers ← ygets ks_buffers;
      _ ← stop_timer (buffers !! b ≫= bf_timeout);
      t ← after_func (TAddr addr b);
      _ ← ymodify (set_ks_buffers (insert b (MkBuf bs (Some t))));
      yemit (KsLookup (Address_GetKey prefix addr))
  end.

Definition sendToSubnet (subnet : Subnet) (bs : list byte) : Y_ unit :=
  k ← ygets (fun k => k);
  match ks_subnetToInfo k !! subnet ≫= fun p => pair p <$> ks_infos k !! p with
  | Some (p, info) =>
      _ ← resetTimeout p info;
      yemit (KsWriteTo bs (ki_key info))
  | None =>
      b ← (match ks_subnetBuffer k !! subnet with
           | Some b => yret b
           | None =>
               b ← ks_fresh;
               _ ← ymodify (set_ks_buffers (insert b (MkBuf [] None)));
               _ ← ymodify (set_ks_subnetBuffer (insert subnet b));
               yret b
           end);
      buffers ← ygets ks_buffers;
      _ ← stop_timer (buffers !! b ≫= bf_timeout);
      t ← after_func (TSubnet subnet b);
      _ ← ymodify (set_ks_buffers (insert b (MkBuf bs (Some t))));
      yemit (KsLookup (Subnet_GetKey prefix subnet))
  end.

(** The packet that waits in a buffer, which is removed. *)
Definition take_addr (addr : Address) : Y_ (list (list byte)) :=
  k ← ygets (fun k => k);
  match ks_addrBuffer k !! addr with
  | None => yret []
  | Some b =>
      _ ← ymodify (set_ks_addrBuffer (delete addr));
      yret (match ks_buffers k !! b with Some buf => [bf_packet buf] | None => [] end)
  end.
Definition take_subnet (subnet : Subnet) : Y_ (list (list byte)) :=
  k ← ygets (fun k => k);
  match ks_subnetBuffer k !! subnet with
  | None => yret []
  | Some b =>
      _ ← ymodify (set_ks_subnetBuffer (delete subnet));
      yret (match ks_buffers k !! b with Some buf => [bf_packet buf] | None => [] end)
  end.

(** [update]; a key of another length is the panic of a nil address. *)
Definition ks_update (key : list byte) : Y_ keyInfo :=
  let kArray := array_of 32 key in
  k ← ygets (fun k => k);
  match ks_keyToInfo k !! kArray ≫= fun p => pair p <$> ks_infos k !! p with
  | Some (p, info) =>
      _ ← resetTimeout p info;
      yret info
  | None =>
      match AddrForKey prefix (arr_list kArray), SubnetForKey prefix (arr_list kArray) with
      | Some address, Some subnet =>
          let info := MkKeyInfo kArray address subnet None in
          p ← ks_fresh;
          _ ← ymodify (set_ks_infos (insert p info));
          _ ← ymodify (set_ks_keyToInfo (insert kArray p));
          _ ← ymodify (set_ks_addrToInfo (insert address p));
          _ ← ymodify (set_ks_subnetToInfo (insert subnet p));
          packets1 ← take_addr address;
          packets2 ← take_subnet subnet;
          _ ← resetTimeout p info;
          _ ← act_for (packets1 ++ packets2) (fun packet => yemit (KsWriteTo packet kArray));
          yret info
      | _, _ => act_panic
      end
  end.

(** The functions of the timers. *)
Definition run_timer (f : ksTimer) : Y_ unit :=
  match f with
  | TInfo p =>
      k ← ygets (fun k => k);
      match ks_infos k !! p with
      | None => act_panic
      | Some info =>
          _ ← (if bool_decide (ks_keyToInfo k !! ki_key info = Some p) then ymodify (set_ks_keyToInfo (delete (ki_key info))) else yret tt);
          _ ← (if bool_decide (ks_addrToInfo k !! ki_address info = Some p) then ymodify (set_ks_addrToInfo (delete (ki_address info))) else yret tt);
          (if bool_decide (ks_subnetToInfo k !! ki_subnet info = Some p) then ymodify (set_ks_subnetToInfo (delete (ki_subnet info))) else yret tt)
      end
  | TAddr addr b =>
      k ← ygets (fun k => k);
      if bool_decide (ks_addrBuffer k !! addr = Some b) then ymodify (set_ks_addrBuffer (delete addr)) else yret tt
  | TSubnet subnet b =>
      k ← ygets (fun k => k);
      if bool_decide (ks_subnetBuffer k !! subnet = Some b) then ymodify (set_ks_subnetBuffer (delete subnet)) else yret tt
  end.

Definition writePC (bs : list byte) : Y_ (sum pcError Z) :=
  k ← ygets (fun k => k);
  if (length bs =? 0)%nat then yret (inl PcEmpty)
  else if negb (Z.land (byte_at bs 0) 240 =? 96) then yret (inl PcNotIPv6)
  else if (length bs <? 40)%nat then yret (inl PcUndersized)
  else
    let srcAddr := array_of 16 (drop 8 bs) in
    let dstAddr := array_of 16 (drop 24 bs) in
    let srcSubnet := array_of 8 (drop 8 bs) in
    let dstSubnet := array_of 8 (drop 24 bs) in
    if negb (bool_decide (srcAddr = ks_address k)) && negb (bool_decide (srcSubnet = ks_subnet k)) then yret (inl PcBadSource)
    else if Address_IsValid prefix dstAddr then
      _ ← sendToAddress dstAddr bs; yret (inr (Z.of_nat (length bs)))
    else if Subnet_IsValid prefix dstSubnet then
      _ ← sendToSubnet dstSubnet bs; yret (inr (Z.of_nat (length bs)))
    else yret (inl PcBadDestination).

(** One round of the loop of [readPC] on a packet from [from], with room for
    [room] bytes; [None] is [continue]. *)
Definition readPC (room : nat) (from : list byte) (bs : list byte) : Y_ (option (list byte)) :=
  k ← ygets (fun k => k);
  if (length bs =? 0)%nat then yret None
  else if negb (Z.land (byte_at bs 0) 240 =? 96) then yret None
  else if (length bs <? 40)%nat then yret None
  else if ks_mtu k <? Z.of_nat (length bs) then
    let buf := arr_list (array_of 512 bs) in
    _ ← (match CreateICMPv6 (take 16 (drop 8 buf)) (take 16 (drop 24 buf)) (ks_mtu k) (take (Nat.min 512 (length bs)) buf) with
         | Some packet => _ ← writePC packet; yret tt
         | None => yret tt
         end);
    yret None
  else
    let srcAddr := array_of 16 (drop 8 bs) in
    let dstAddr := array_of 16 (drop 24 bs) in
    let srcSubnet := array_of 8 (drop 8 bs) in
    let dstSubnet := array_of 8 (drop 24 bs) in
    if negb (bool_decide (dstAddr = ks_address k)) && negb (bool_decide (dstSubnet = ks_subnet k)) then yret None
    else
      info ← ks_update from;
      if negb (bool_decide (srcAddr = ki_address info)) && negb (bool_decide (srcSubnet = ki_subnet info)) then yret None
      else yret (Some (take room bs)).

Definition SetMTU (maxMTU mtu : Z) : Y_ unit :=
  let mtu := if maxMTU <? mtu then maxMTU else mtu in
  let mtu := if mtu <? 1280 then 1280 else mtu in
  ymodify (set_ks_mtu mtu).

(** ** Steps *)

Inductive ksEvent :=
| KsWrite (bs : list byte)
| KsRead (room : nat) (from : array 32) (bs : list byte)
| KsNotify (key : array 32)
| KsSetMTU (maxMTU mtu : Z)
| KsExpire (t : nat)
| KsRun (t : nat).

(** What the caller of [Write] or [Read] gets. *)
Inductive ksResult := KsNone | KsWrote (r : sum pcError Z) | KsGot (bs : option (list byte)).

Definition ks_step (ev : ksEvent) : Y_ ksResult :=
  match ev with
  | KsWrite bs => r ← writePC bs; yret (KsWrote r)
  | KsRead room from bs => r ← readPC room (arr_list from) bs; yret (KsGot r)
  | KsNotify key => _ ← ks_update (arr_list key); yret KsNone
  | KsSetMTU maxMTU mtu => _ ← SetMTU maxMTU mtu; yret KsNone
  | KsExpire t =>
      k ← ygets (fun k => k);
      match ks_pending k !! t with
      | None => yret KsNone
      | Some f => _ ← ymodify (fun k => set_ks_expired (insert t f) (set_ks_pending (delete t) k)); yret KsNone
      end
  | KsRun t =>
      k ← ygets (fun k => k);
      match ks_expired k !! t with
      | None => yret KsNone
      | Some f => _ ← ymodify (set_ks_expired (delete t)); _ ← run_timer f; yret KsNone
      end
  end.
End keyStore.
