(* ===== verification/KeyStoreSafety.v ===== *)
(** * Properties of the key store

    Where packets of [src/ipv6rwc/ipv6rwc.go] go to and come from, and that a
    packet for an unknown address waits for the owner's key and reaches it. *)

From S2P Require Import Prelude Crypto Binary Address AddressBits AddressSafety KeyStore.

(** ** The invariant of the key store

    The tables of [src/ipv6rwc/ipv6rwc.go] only hold what belongs to their keys,
    and a packet that waits in a buffer is one for the address or subnet of the
    buffer. *)

(** Source and destination of a packet. *)
Definition src_addr (bs : list byte) : Address := array_of 16 (drop 8 bs).
Definition dst_addr (bs : list byte) : Address := array_of 16 (drop 24 bs).
Definition src_subnet (bs : list byte) : Subnet := array_of 8 (drop 8 bs).
Definition dst_subnet (bs : list byte) : Subnet := array_of 8 (drop 24 bs).

Section invariant.
Context (prefix : byte).

(** A packet from this node. *)
Definition from_us (k : keyStore) (bs : list byte) : Prop := src_addr bs = ks_address k \/ src_subnet bs = ks_subnet k.

(** A packet for the owner of [key]. *)
Definition goes_to (bs : list byte) (key : array 32) : Prop :=
  AddrForKey prefix (arr_list key) = Some (dst_addr bs) \/ SubnetForKey prefix (arr_list key) = Some (dst_subnet bs).

Definition effect_ok (k : keyStore) (e : ksEffect) : Prop :=
  match e with KsWriteTo bs key => goes_to bs key /\ from_us k bs | KsLookup _ => True end.

Record ks_ok (k : keyStore) : Prop := {
  ko_info p info : ks_infos k !! p = Some info ->
    AddrForKey prefix (arr_list (ki_key info)) = Some (ki_address info) /\ SubnetForKey prefix (arr_list (ki_key info)) = Some (ki_subnet info);
  ko_key key p : ks_keyToInfo k !! key = Some p -> exists info, ks_infos k !! p = Some info /\ ki_key info = key;
  ko_addr a p : ks_addrToInfo k !! a = Some p -> exists info, ks_infos k !! p = Some info /\ ki_address info = a;
  ko_subnet s p : ks_subnetToInfo k !! s = Some p -> exists info, ks_infos k !! p = Some info /\ ki_subnet info = s;
  ko_abuf a b : ks_addrBuffer k !! a = Some b -> exists buf, ks_buffers k !! b = Some buf /\ dst_addr (bf_packet buf) = a /\ from_us k (bf_packet buf);
  ko_sbuf s b : ks_subnetBuffer k !! s = Some b -> exists buf, ks_buffers k !! b = Some buf /\ dst_subnet (bf_packet buf) = s /\ from_us k (bf_packet buf);
  ko_ainj a a' b : ks_addrBuffer k !! a = Some b -> ks_addrBuffer k !! a' = Some b -> a = a';
  ko_sinj s s' b : ks_subnetBuffer k !! s = Some b -> ks_subnetBuffer k !! s' = Some b -> s = s';
  ko_disj a s b : ks_addrBuffer k !! a = Some b -> ks_subnetBuffer k !! s = Some b -> False;
  ko_next q : ks_infos k !! q <> None \/ ks_buffers k !! q <> None -> (q < ks_next k)%nat;
  ko_timer t p : ks_pending k !! t = Some (TInfo p) \/ ks_expired k !! t = Some (TInfo p) -> ks_infos k !! p <> None;
  ko_mtu : 1280 <= ks_mtu k
}.

(** The node itself stays the same. *)
Definition same_node (k k' : keyStore) : Prop := ks_address k' = ks_address k /\ ks_subnet k' = ks_subnet k.
#[global] Instance same_node_preorder : PreOrder same_node.
Proof. split; [done|]. intros x y z [? ?] [? ?]. split; congruence. Qed.

Lemma from_us_same k k' bs : same_node k k' -> from_us k bs -> from_us k' bs.
Proof. intros [E1 E2]. unfold from_us. by rewrite E1, E2. Qed.

Lemma effect_ok_same k k' e : same_node k k' -> effect_ok k' e -> effect_ok k e.
Proof. intros [E1 E2]. destruct e; [|done]. unfold effect_ok, from_us. by rewrite E1, E2. Qed.

(** A call that keeps the invariant and only sends what it may. *)
Definition sound {A} (m : Y_ A) (P : keyStore -> Prop) (Q : A -> keyStore -> Prop) : Prop :=
  forall k, ks_ok k -> P k -> wp m k (fun a k' es => ks_ok k' /\ same_node k k' /\ Forall (effect_ok k) es /\ Q a k').

Lemma sound_bind {A B} (m : Y_ A) (f : A -> Y_ B) P Q R :
  sound m P Q -> (forall a, sound (f a) (Q a) R) -> sound (m ≫= f) P R.
Proof.
  intros Hm Hf k Hok HP. apply wp_bind. eapply wp_mono; [by apply Hm|]. intros a k1 es1 (Hok1 & Hs1 & He1 & HQ).
  eapply wp_mono; [by apply Hf|]. intros b k2 es2 (Hok2 & Hs2 & He2 & HR). split_and!; [done|by transitivity k1| |done].
  apply Forall_app. split; [done|]. eapply Forall_impl; [exact He2|]. intros e. by apply effect_ok_same.
Qed.

Lemma sound_ret {A} (a : A) (P : keyStore -> Prop) : sound (yret a) P (fun b k => b = a /\ P k).
Proof. intros k Hok HP. apply wp_ret. split_and!; try done. Qed.

Lemma sound_weaken {A} (m : Y_ A) (P P' : keyStore -> Prop) (Q Q' : A -> keyStore -> Prop) :
  sound m P Q -> (forall k, P' k -> P k) -> (forall a k, Q a k -> Q' a k) -> sound m P' Q'.
Proof. intros Hm HP HQ k Hok Hk. eapply wp_mono; [apply Hm; auto|]. intros a k' es (? & ? & ? & ?). auto. Qed.

Lemma sound_modify f (P : keyStore -> Prop) (Q : unit -> keyStore -> Prop) :
  (forall k, ks_ok k -> P k -> ks_ok (f k) /\ same_node k (f k) /\ Q tt (f k)) -> sound (ymodify f) P Q.
Proof. intros Hf k Hok HP. apply wp_modify. destruct (Hf k Hok HP) as (? & ? & ?). split_and!; done. Qed.

Lemma sound_emit e (P : keyStore -> Prop) : (forall k, ks_ok k -> P k -> effect_ok k e) -> sound (yemit e) P (fun _ => P).
Proof. intros He k Hok HP. apply wp_emit. split_and!; [done|done| |done]. apply Forall_singleton. auto. Qed.

Lemma sound_gets {A} (f : keyStore -> A) (P : keyStore -> Prop) : sound (ygets f) P (fun a k => a = f k /\ P k).
Proof. intros k Hok HP. apply wp_gets. split_and!; done. Qed.

Lemma sound_for {K} (l : list K) (f : K -> Y_ unit) (P : keyStore -> Prop) :
  (forall x, x ∈ l -> sound (f x) P (fun _ => P)) -> sound (act_for l f) P (fun _ => P).
Proof.
  induction l as [|x l IH]; intros Hf; cbn [act_for].
  - eapply sound_weaken; [apply sound_ret|done|]. by intros ? ? [_ ?].
  - eapply sound_bind; [apply Hf; by left|]. intros []. apply IH. intros y Hy. apply Hf. by right.
Qed.

(** ** State changes *)

Lemma ok_bump k : ks_ok k -> ks_ok (ks_bump k).
Proof. intros []. split; try done. intros q Hq. cbn in *. apply ko_next0 in Hq. lia. Qed.

Lemma ok_mtu k v : 1280 <= v -> ks_ok k -> ks_ok (set_ks_mtu v k).
Proof. by intros ? []. Qed.

(** Timers come and go; a new one for a [keyInfo] needs one that exists. *)
Lemma ok_timers k f g : ks_ok k ->
  (forall t p, f (ks_pending k) !! t = Some (TInfo p) \/ g (ks_expired k) !! t = Some (TInfo p) -> ks_infos k !! p <> None) ->
  ks_ok (set_ks_expired g (set_ks_pending f k)).
Proof. intros [] Hf. by split. Qed.

Lemma ok_pending k f : ks_ok k -> (forall t p, f (ks_pending k) !! t = Some (TInfo p) -> ks_infos k !! p <> None) -> ks_ok (set_ks_pending f k).
Proof.
  intros Hok Hf. apply (ok_timers k f (fun m => m)); [done|]. intros t p [H|H]; [by eapply Hf|]. apply (ko_timer _ Hok t). by right.
Qed.

(** An info is written back with another timer. *)
Lemma ok_info_timeout k p info t : ks_ok k -> ks_infos k !! p = Some info ->
  ks_ok (set_ks_infos (insert p (MkKeyInfo (ki_key info) (ki_address info) (ki_subnet info) t)) k).
Proof.
  intros [] Hp. set (info' := MkKeyInfo _ _ _ _).
  assert (forall q i, ks_infos k !! q = Some i -> exists i', <[p := info']> (ks_infos k) !! q = Some i' /\
    ki_key i' = ki_key i /\ ki_address i' = ki_address i /\ ki_subnet i' = ki_subnet i) as Hq.
  { intros q i Hi. destruct (decide (q = p)) as [->|]; [|exists i; by rewrite lookup_insert_ne].
    exists info'. rewrite lookup_insert_eq. by simplify_eq. }
  split; cbn [set_ks_infos ks_infos ks_keyToInfo ks_addrToInfo ks_subnetToInfo ks_addrBuffer ks_subnetBuffer ks_buffers ks_next ks_pending ks_expired]; try done.
  - intros q i [[<- <-]|[_ H]]%lookup_insert_Some; [exact (ko_info0 p info Hp)|by apply ko_info0 in H].
  - intros key q (i & (i' & Hi' & E1 & E2 & E3)%Hq & <-)%ko_key0. by exists i'.
  - intros key q (i & (i' & Hi' & E1 & E2 & E3)%Hq & <-)%ko_addr0. by exists i'.
  - intros key q (i & (i' & Hi' & E1 & E2 & E3)%Hq & <-)%ko_subnet0. by exists i'.
  - intros q [H|H]; apply ko_next0; [left|by right]. destruct (decide (q = p)) as [->|]; [by rewrite Hp|]. by rewrite lookup_insert_ne in H.
  - intros t0 q H E. apply (ko_timer0 t0 q H). destruct (ks_infos k !! q) as [i|] eqn:Ei; [|done]. apply Hq in Ei as (i' & E' & _). by rewrite E in E'.
Qed.

(** A new info under a new pointer. *)
Lemma ok_info_new k info : ks_ok k ->
  AddrForKey prefix (arr_list (ki_key info)) = Some (ki_address info) -> SubnetForKey prefix (arr_list (ki_key info)) = Some (ki_subnet info) ->
  ks_ok (set_ks_infos (insert (ks_next k) info) (ks_bump k)).
Proof.
  intros [] Ha Hs. assert (ks_infos k !! ks_next k = None) as Hn.
  { destruct (ks_infos k !! ks_next k) eqn:E; [|done]. assert (ks_next k < ks_next k)%nat; [|lia]. apply ko_next0. left. by rewrite E. }
  assert (forall q i, ks_infos k !! q = Some i -> <[ks_next k := info]> (ks_infos k) !! q = Some i) as Hq.
  { intros q i Hi. apply lookup_insert_Some. right. split; [|done]. intros E. by rewrite <- E, Hn in Hi. }
  split; cbn [set_ks_infos ks_bump ks_infos ks_keyToInfo ks_addrToInfo ks_subnetToInfo ks_addrBuffer ks_subnetBuffer ks_buffers ks_next ks_pending ks_expired]; try done.
  - intros q i [[<- <-]|[_ H]]%lookup_insert_Some; [done|by apply ko_info0 in H].
  - intros key q (i & Hi & <-)%ko_key0. exists i. auto.
  - intros key q (i & Hi & <-)%ko_addr0. exists i. auto.
  - intros key q (i & Hi & <-)%ko_subnet0. exists i. auto.
  - intros q H. destruct (decide (q = ks_next k)) as [->|]; [lia|]. rewrite lookup_insert_ne in H by done. apply ko_next0 in H. lia.
  - intros t q H E. apply (ko_timer0 t q H). destruct (ks_infos k !! q) as [i|] eqn:Ei; [|done]. apply Hq in Ei. by rewrite E in Ei.
Qed.

(** Entries of the tables. *)
Lemma ok_keyToInfo k p info : ks_ok k -> ks_infos k !! p = Some info -> ks_ok (set_ks_keyToInfo (insert (ki_key info) p) k).
Proof. intros [] Hp. split; try done. cbn. intros key q [[<- <-]|[_ H]]%lookup_insert_Some; [by exists info|auto]. Qed.
Lemma ok_addrToInfo k p info : ks_ok k -> ks_infos k !! p = Some info -> ks_ok (set_ks_addrToInfo (insert (ki_address info) p) k).
Proof. intros [] Hp. split; try done. cbn. intros key q [[<- <-]|[_ H]]%lookup_insert_Some; [by exists info|auto]. Qed.
Lemma ok_subnetToInfo k p info : ks_ok k -> ks_infos k !! p = Some info -> ks_ok (set_ks_subnetToInfo (insert (ki_subnet info) p) k).
Proof. intros [] Hp. split; try done. cbn. intros key q [[<- <-]|[_ H]]%lookup_insert_Some; [by exists info|auto]. Qed.

Lemma ok_delete_key k x : ks_ok k -> ks_ok (set_ks_keyToInfo (delete x) k).
Proof. intros []. split; try done. cbn. intros key q [_ H]%lookup_delete_Some. auto. Qed.
Lemma ok_delete_addr k x : ks_ok k -> ks_ok (set_ks_addrToInfo (delete x) k).
Proof. intros []. split; try done. cbn. intros key q [_ H]%lookup_delete_Some. auto. Qed.
Lemma ok_delete_subnet k x : ks_ok k -> ks_ok (set_ks_subnetToInfo (delete x) k).
Proof. intros []. split; try done. cbn. intros key q [_ H]%lookup_delete_Some. auto. Qed.
Lemma ok_delete_abuf k x : ks_ok k -> ks_ok (set_ks_addrBuffer (delete x) k).
Proof.
  intros []. split; try done; cbn.
  - intros a b [_ H]%lookup_delete_Some. auto.
  - intros a a' b [_ H]%lookup_delete_Some [_ H']%lookup_delete_Some. eauto.
  - intros a s b [_ H]%lookup_delete_Some. eauto.
Qed.
Lemma ok_delete_sbuf k x : ks_ok k -> ks_ok (set_ks_subnetBuffer (delete x) k).
Proof.
  intros []. split; try done; cbn.
  - intros a b [_ H]%lookup_delete_Some. auto.
  - intros a a' b [_ H]%lookup_delete_Some [_ H']%lookup_delete_Some. eauto.
  - intros a s b H1 [_ H]%lookup_delete_Some. eauto.
Qed.

(** A packet is put into the buffer of its destination, old or new. *)
Lemma ok_abuf_write k a b buf n : ks_ok k -> dst_addr (bf_packet buf) = a -> from_us k (bf_packet buf) ->
  (ks_addrBuffer k !! a = Some b /\ n = ks_next k \/ ks_addrBuffer k !! a = None /\ b = ks_next k /\ n = S (ks_next k)) ->
  forall k', ks_infos k' = ks_infos k -> ks_keyToInfo k' = ks_keyToInfo k -> ks_addrToInfo k' = ks_addrToInfo k ->
    ks_subnetToInfo k' = ks_subnetToInfo k -> ks_subnetBuffer k' = ks_subnetBuffer k -> same_node k k' -> ks_mtu k' = ks_mtu k ->
    ks_pending k' = ks_pending k -> ks_expired k' = ks_expired k -> ks_addrBuffer k' = <[a := b]> (ks_addrBuffer k) ->
    ks_buffers k' = <[b := buf]> (ks_buffers k) -> ks_next k' = n -> ks_ok k'.
Proof.
  intros [] Hd Hf Hb k' E1 E2 E3 E4 E5 Es Em E6 E7 E8 E9 E10.
  assert (forall q x, ks_buffers k !! q = Some x -> (q < ks_next k)%nat) as Hlt by (intros q x H; apply ko_next0; right; by rewrite H).
  assert (forall a', ks_addrBuffer k !! a' = Some b -> a' = a) as Ho.
  { intros a' Ha'. destruct Hb as [[Hb _]|(_ & -> & _)]; [by apply (ko_ainj0 a' a b)|].
    apply ko_abuf0 in Ha' as (x & Hx & _). apply Hlt in Hx. lia. }
  assert (forall s, ks_subnetBuffer k !! s <> Some b) as Hos.
  { intros s Hs. destruct Hb as [[Hb _]|(_ & -> & _)]; [by apply (ko_disj0 a s b)|].
    apply ko_sbuf0 in Hs as (x & Hx & _). apply Hlt in Hx. lia. }
  split; rewrite ?E1, ?E2, ?E3, ?E4, ?E5, ?E6, ?E7, ?E8, ?E9, ?E10, ?Em; try done.
  - intros a' b' [[<- <-]|[Hne H]]%lookup_insert_Some.
    + exists buf. rewrite lookup_insert_eq. split_and!; [done|done|]. by apply (from_us_same k).
    + destruct (ko_abuf0 a' b' H) as (x & Hx & Hdx & Hfx). exists x. rewrite lookup_insert_ne.
      * split_and!; [done|done|]. by apply (from_us_same k).
      * intros <-. apply Hne. symmetry. by apply Ho.
  - intros s b' H. destruct (ko_sbuf0 s b' H) as (x & Hx & Hdx & Hfx). exists x. rewrite lookup_insert_ne.
    + split_and!; [done|done|]. by apply (from_us_same k).
    + intros <-. by apply Hos in H.
  - intros a1 a2 b' [[<- <-]|[Hne1 H1]]%lookup_insert_Some [[<- Hb2]|[Hne2 H2]]%lookup_insert_Some; subst; try done.
    + symmetry. by apply Ho.
    + by apply Ho.
    + by apply (ko_ainj0 a1 a2 b').
  - intros a1 s b' [[<- <-]|[Hne1 H1]]%lookup_insert_Some H2; [by apply Hos in H2|by apply (ko_disj0 a1 s b')].
  - intros q Hq. assert (ks_next k <= n)%nat by (destruct Hb as [[_ ->]|(_ & _ & ->)]; lia).
    destruct (decide (q = b)) as [->|].
    + destruct Hb as [[Hb ->]|(_ & -> & ->)]; [|lia]. apply ko_abuf0 in Hb as (x & Hx & _). by apply Hlt in Hx.
    + rewrite lookup_insert_ne in Hq by done. apply ko_next0 in Hq. lia.
Qed.

Lemma ok_sbuf_write k a b buf n : ks_ok k -> dst_subnet (bf_packet buf) = a -> from_us k (bf_packet buf) ->
  (ks_subnetBuffer k !! a = Some b /\ n = ks_next k \/ ks_subnetBuffer k !! a = None /\ b = ks_next k /\ n = S (ks_next k)) ->
  forall k', ks_infos k' = ks_infos k -> ks_keyToInfo k' = ks_keyToInfo k -> ks_addrToInfo k' = ks_addrToInfo k ->
    ks_subnetToInfo k' = ks_subnetToInfo k -> ks_addrBuffer k' = ks_addrBuffer k -> same_node k k' -> ks_mtu k' = ks_mtu k ->
    ks_pending k' = ks_pending k -> ks_expired k' = ks_expired k -> ks_subnetBuffer k' = <[a := b]> (ks_subnetBuffer k) ->
    ks_buffers k' = <[b := buf]> (ks_buffers k) -> ks_next k' = n -> ks_ok k'.
Proof.
  intros [] Hd Hf Hb k' E1 E2 E3 E4 E5 Es Em E6 E7 E8 E9 E10.
  assert (forall q x, ks_buffers k !! q = Some x -> (q < ks_next k)%nat) as Hlt by (intros q x H; apply ko_next0; right; by rewrite H).
  assert (forall a', ks_subnetBuffer k !! a' = Some b -> a' = a) as Ho.
  { intros a' Ha'. destruct Hb as [[Hb _]|(_ & -> & _)]; [by apply (ko_sinj0 a' a b)|].
    apply ko_sbuf0 in Ha' as (x & Hx & _). apply Hlt in Hx. lia. }
  assert (forall s, ks_addrBuffer k !! s <> Some b) as Hos.
  { intros s Hs. destruct Hb as [[Hb _]|(_ & -> & _)]; [by apply (ko_disj0 s a b)|].
    apply ko_abuf0 in Hs as (x & Hx & _). apply Hlt in Hx. lia. }
  split; rewrite ?E1, ?E2, ?E3, ?E4, ?E5, ?E6, ?E7, ?E8, ?E9, ?E10, ?Em; try done.
  - intros s b' H. destruct (ko_abuf0 s b' H) as (x & Hx & Hdx & Hfx). exists x. rewrite lookup_insert_ne.
    + split_and!; [done|done|]. by apply (from_us_same k).
    + intros <-. by apply Hos in H.
  - intros a' b' [[<- <-]|[Hne H]]%lookup_insert_Some.
    + exists buf. rewrite lookup_insert_eq. split_and!; [done|done|]. by apply (from_us_same k).
    + destruct (ko_sbuf0 a' b' H) as (x & Hx & Hdx & Hfx). exists x. rewrite lookup_insert_ne.
      * split_and!; [done|done|]. by apply (from_us_same k).
      * intros <-. apply Hne. symmetry. by apply Ho.
  - intros a1 a2 b' [[<- <-]|[Hne1 H1]]%lookup_insert_Some [[<- Hb2]|[Hne2 H2]]%lookup_insert_Some; subst; try done.
    + symmetry. by apply Ho.
    + by apply Ho.
    + by apply (ko_sinj0 a1 a2 b').
  - intros a1 s b' H2 [[<- <-]|[Hne1 H1]]%lookup_insert_Some; [by apply Hos in H2|by apply (ko_disj0 a1 s b')].
  - intros q Hq. assert (ks_next k <= n)%nat by (destruct Hb as [[_ ->]|(_ & _ & ->)]; lia).
    destruct (decide (q = b)) as [->|].
    + destruct Hb as [[Hb ->]|(_ & -> & ->)]; [|lia]. apply ko_sbuf0 in Hb as (x & Hx & _). by apply Hlt in Hx.
    + rewrite lookup_insert_ne in Hq by done. apply ko_next0 in Hq. lia.
Qed.
End invariant.

Ltac run_ks := cbv [wp mbind act_bind mret act_ret act_gets act_modify act_emit]; cbn [app].

Section operations.
Context `{Icmp} (prefix : byte).

Abbreviation ok := (ks_ok prefix).
Abbreviation keeps m P Q := (sound prefix m P Q).

Definition true_for {A} : A -> keyStore -> Prop := fun _ _ => True.

Lemma reset_ok p info : keeps (resetTimeout p info) (fun k => ks_infos k !! p = Some info) true_for.
Proof.
  intros k Hok Hp. unfold resetTimeout, stop_timer, after_func, ks_fresh.
  assert (forall k0, ok k0 -> ks_infos k0 !! p = Some info ->
    ok (set_ks_infos (insert p (MkKeyInfo (ki_key info) (ki_address info) (ki_subnet info) (Some (ks_next k0))))
      (set_ks_pending (insert (ks_next k0) (TInfo p)) (ks_bump k0)))) as Hk.
  { intros k0 Hok0 Hp0. apply ok_info_timeout; [|done]. apply ok_pending; [by apply ok_bump|].
    intros t q [[<- [= <-]]|[_ Hq]]%lookup_insert_Some; [by cbn; rewrite Hp0|]. apply (ko_timer _ _ Hok0 t). by left. }
  destruct (ki_timeout info) as [t|]; run_ks; (split; [|split; [done|split; [constructor|done]]]).
  - apply (Hk (set_ks_pending (delete t) k)); [|done]. apply ok_pending; [done|]. intros t0 q [_ Hq]%lookup_delete_Some.
    apply (ko_timer _ _ Hok t0). by left.
  - by apply (Hk k).
Qed.

(** Looking up a table finds an info. *)
Lemma found {A} (m : option A) (g : A -> option keyInfo) x : (m ≫= fun p => pair p <$> g p) = Some x -> m = Some x.1 /\ g x.1 = Some x.2.
Proof. destruct m as [p|]; [|done]. cbn. destruct (g p) as [i|] eqn:E; [|done]. by intros [= <-]. Qed.

Lemma sendToAddress_ok addr bs :
  keeps (sendToAddress prefix addr bs) (fun k => dst_addr bs = addr /\ from_us k bs) true_for.
Proof.
  intros k Hok [Hd Hf]. unfold sendToAddress. apply wp_bind, wp_gets. cbn [app].
  destruct (ks_addrToInfo k !! addr ≫= _) as [[p info]|] eqn:E.
  - apply found in E as [Ea Ei]. cbn in Ea, Ei. destruct (ko_addr _ _ Hok _ _ Ea) as (i & Hi & Hia). simplify_eq.
    apply wp_bind. eapply wp_mono; [by apply (reset_ok p info k)|]. intros [] k1 es1 (Hok1 & Hs1 & He1 & _).
    apply wp_emit. split_and!; [done|done| |done]. apply Forall_app. split; [done|]. apply Forall_singleton. split; [|done].
    left. rewrite <- Hia. by apply (ko_info _ _ Hok p).
  - clear E.
    unfold stop_timer, after_func, ks_fresh.
    destruct (ks_addrBuffer k !! addr) as [b|] eqn:Eb.
    + destruct (ko_abuf _ _ Hok _ _ Eb) as (buf & Hb & Hbd & Hbf).
      assert (forall k0, ok k0 -> same_node k k0 -> ks_addrBuffer k0 = ks_addrBuffer k ->
        ok (set_ks_buffers (insert b (MkBuf bs (Some (ks_next k0)))) (set_ks_pending (insert (ks_next k0) (TAddr addr b)) (ks_bump k0)))) as Hk.
      { intros k0 Hok0 Hs0 Eb0. eapply (ok_abuf_write prefix (set_ks_pending (insert (ks_next k0) (TAddr addr b)) (ks_bump k0)) addr b (MkBuf bs (Some (ks_next k0)))); try done.
        - apply ok_pending; [by apply ok_bump|]. intros t q [[_ ?]|[_ Hq]]%lookup_insert_Some; [done|]. apply (ko_timer _ _ Hok0 t). by left.
        - by apply (from_us_same k).
        - left. cbn. by rewrite Eb0, Eb.
        - cbn. rewrite insert_id; [done|]. by rewrite Eb0. }
      run_ks. rewrite Hb. cbn [mbind option_bind]. destruct (bf_timeout buf) as [t|]; run_ks; (split; [|split; [done|split; [by repeat constructor|done]]]).
      * apply (Hk (set_ks_pending (delete t) k)); try done. apply ok_pending; [done|]. intros t0 q [_ Hq]%lookup_delete_Some.
        apply (ko_timer _ _ Hok t0). by left.
      * by apply (Hk k).
    + run_ks. cbn [ks_bump ks_next ks_buffers ks_addrBuffer set_ks_buffers set_ks_addrBuffer]. rewrite lookup_insert_eq. cbn [mbind option_bind bf_timeout].
      run_ks. split; [|split; [done|split; [by repeat constructor|done]]].
      set (kA := set_ks_pending (insert (S (ks_next k)) (TAddr addr (ks_next k))) k).
      set (buf := MkBuf bs (Some (S (ks_next k)))).
      set (kB := set_ks_buffers (insert (ks_next k) buf) (set_ks_addrBuffer (insert addr (ks_next k)) (ks_bump kA))).
      assert (ok kB) as HkB.
      { eapply (ok_abuf_write prefix kA addr (ks_next k) buf); try done; [|right; by split_and!].
        apply ok_pending; [done|]. intros t q [[_ ?]|[_ Hq]]%lookup_insert_Some; [done|]. apply (ko_timer _ _ Hok t). by left. }
      apply ok_bump in HkB. revert HkB. match goal with |- ok ?X -> ok ?Y => assert (X = Y) as ->; [|done] end.
      unfold kB, kA, ks_bump, set_ks_buffers, set_ks_addrBuffer, set_ks_pending; cbn. by rewrite insert_insert_eq.
Qed.

Lemma sendToSubnet_ok snet bs :
  keeps (sendToSubnet prefix snet bs) (fun k => dst_subnet bs = snet /\ from_us k bs) true_for.
Proof.
  intros k Hok [Hd Hf]. unfold sendToSubnet. apply wp_bind, wp_gets. cbn [app].
  destruct (ks_subnetToInfo k !! snet ≫= _) as [[p info]|] eqn:E.
  - apply found in E as [Ea Ei]. cbn in Ea, Ei. destruct (ko_subnet _ _ Hok _ _ Ea) as (i & Hi & Hia). simplify_eq.
    apply wp_bind. eapply wp_mono; [by apply (reset_ok p info k)|]. intros [] k1 es1 (Hok1 & Hs1 & He1 & _).
    apply wp_emit. split_and!; [done|done| |done]. apply Forall_app. split; [done|]. apply Forall_singleton. split; [|done].
    right. rewrite <- Hia. by apply (ko_info _ _ Hok p).
  - clear E. unfold stop_timer, after_func, ks_fresh.
    destruct (ks_subnetBuffer k !! snet) as [b|] eqn:Eb.
    + destruct (ko_sbuf _ _ Hok _ _ Eb) as (buf & Hb & Hbd & Hbf).
      assert (forall k0, ok k0 -> same_node k k0 -> ks_subnetBuffer k0 = ks_subnetBuffer k ->
        ok (set_ks_buffers (insert b (MkBuf bs (Some (ks_next k0)))) (set_ks_pending (insert (ks_next k0) (TSubnet snet b)) (ks_bump k0)))) as Hk.
      { intros k0 Hok0 Hs0 Eb0. eapply (ok_sbuf_write prefix (set_ks_pending (insert (ks_next k0) (TSubnet snet b)) (ks_bump k0)) snet b (MkBuf bs (Some (ks_next k0)))); try done.
        - apply ok_pending; [by apply ok_bump|]. intros t q [[_ ?]|[_ Hq]]%lookup_insert_Some; [done|]. apply (ko_timer _ _ Hok0 t). by left.
        - by apply (from_us_same k).
        - left. cbn. by rewrite Eb0, Eb.
        - cbn. rewrite insert_id; [done|]. by rewrite Eb0. }
      run_ks. rewrite Hb. cbn [mbind option_bind]. destruct (bf_timeout buf) as [t|]; run_ks; (split; [|split; [done|split; [by repeat constructor|done]]]).
      * apply (Hk (set_ks_pending (delete t) k)); try done. apply ok_pending; [done|]. intros t0 q [_ Hq]%lookup_delete_Some.
        apply (ko_timer _ _ Hok t0). by left.
      * by apply (Hk k).
    + run_ks. cbn [ks_bump ks_next ks_buffers ks_subnetBuffer set_ks_buffers set_ks_subnetBuffer]. rewrite lookup_insert_eq. cbn [mbind option_bind bf_timeout].
      run_ks. split; [|split; [done|split; [by repeat constructor|done]]].
      set (kA := set_ks_pending (insert (S (ks_next k)) (TSubnet snet (ks_next k))) k).
      set (buf := MkBuf bs (Some (S (ks_next k)))).
      set (kB := set_ks_buffers (insert (ks_next k) buf) (set_ks_subnetBuffer (insert snet (ks_next k)) (ks_bump kA))).
      assert (ok kB) as HkB.
      { eapply (ok_sbuf_write prefix kA snet (ks_next k) buf); try done; [|right; by split_and!].
        apply ok_pending; [done|]. intros t q [[_ ?]|[_ Hq]]%lookup_insert_Some; [done|]. apply (ko_timer _ _ Hok t). by left. }
      apply ok_bump in HkB. revert HkB. match goal with |- ok ?X -> ok ?Y => assert (X = Y) as ->; [|done] end.
      unfold kB, kA, ks_bump, set_ks_buffers, set_ks_subnetBuffer, set_ks_pending; cbn. by rewrite insert_insert_eq.
Qed.

(** [writePC] only sends packets of this node, to whom they are for. *)
Lemma writePC_ok bs : keeps (writePC prefix bs) (fun _ => True) true_for.
Proof.
  intros k Hok _. unfold writePC. apply wp_bind, wp_gets. cbn [app].
  assert (forall r, wp (yret r) k (fun (_ : sum pcError Z) k' es => ok k' /\ same_node k k' /\ Forall (effect_ok prefix k) es /\ true_for r k')) as Hret
    by (intros; apply wp_ret; by split_and!).
  destruct (length bs =? 0)%nat; [apply Hret|]. destruct (negb (Z.land (byte_at bs 0) 240 =? 96)); [apply Hret|].
  destruct (length bs <? 40)%nat; [apply Hret|].
  destruct (negb (bool_decide (array_of 16 (drop 8 bs) = ks_address k)) && negb (bool_decide (array_of 8 (drop 8 bs) = ks_subnet k))) eqn:Es; [apply Hret|].
  assert (from_us k bs) as Hus.
  { unfold from_us, src_addr, src_subnet. apply andb_false_iff in Es as [Es|Es]; apply negb_false_iff, bool_decide_eq_true in Es; auto. }
  destruct (Address_IsValid prefix (array_of 16 (drop 24 bs))).
  { apply wp_bind. eapply wp_mono; [by apply sendToAddress_ok|]. intros [] k1 es1 (? & ? & ? & _). apply wp_ret. rewrite app_nil_r. by split_and!. }
  destruct (Subnet_IsValid prefix (array_of 8 (drop 24 bs))); [|apply Hret].
  apply wp_bind. eapply wp_mono; [by apply sendToSubnet_ok|]. intros [] k1 es1 (? & ? & ? & _). apply wp_ret. rewrite app_nil_r. by split_and!.
Qed.

Lemma take_addr_ok a k : ok k -> exists k' packets, take_addr a k = Some (packets, k', []) /\ ok k' /\ same_node k k' /\
  ks_infos k' = ks_infos k /\ ks_subnetBuffer k' = ks_subnetBuffer k /\ ks_buffers k' = ks_buffers k /\
  Forall (fun bs => dst_addr bs = a /\ from_us k bs) packets /\
  packets = match ks_addrBuffer k !! a ≫= fun b => ks_buffers k !! b with Some buf => [bf_packet buf] | None => [] end.
Proof.
  intros Hok. unfold take_addr. run_ks. destruct (ks_addrBuffer k !! a) as [b|] eqn:E.
  - destruct (ko_abuf _ _ Hok _ _ E) as (buf & Hb & Hd & Hf). do 2 eexists. split; [reflexivity|].
    cbn [mbind option_bind]. change (ks_buffers k !! b) with (ks_buffers k !! b). rewrite Hb.
    split_and!; try done; [by apply ok_delete_abuf|by apply Forall_singleton].
  - do 2 eexists. split; [reflexivity|]. by split_and!.
Qed.

Lemma take_subnet_ok a k : ok k -> exists k' packets, take_subnet a k = Some (packets, k', []) /\ ok k' /\ same_node k k' /\
  ks_infos k' = ks_infos k /\
  Forall (fun bs => dst_subnet bs = a /\ from_us k bs) packets /\
  packets = match ks_subnetBuffer k !! a ≫= fun b => ks_buffers k !! b with Some buf => [bf_packet buf] | None => [] end.
Proof.
  intros Hok. unfold take_subnet. run_ks. destruct (ks_subnetBuffer k !! a) as [b|] eqn:E.
  - destruct (ko_sbuf _ _ Hok _ _ E) as (buf & Hb & Hd & Hf). do 2 eexists. split; [reflexivity|].
    cbn [mbind option_bind]. rewrite Hb. split_and!; try done; [by apply ok_delete_sbuf|by apply Forall_singleton].
  - do 2 eexists. split; [reflexivity|]. by split_and!.
Qed.

(** The info that [update] returns is that of the key. *)
Definition info_of_key (key : array 32) (info : keyInfo) : Prop :=
  ki_key info = key /\ AddrForKey prefix (arr_list key) = Some (ki_address info) /\ SubnetForKey prefix (arr_list key) = Some (ki_subnet info).

(** The entries for a new key. *)
Definition entered (k : keyStore) (info : keyInfo) : keyStore :=
  set_ks_subnetToInfo (insert (ki_subnet info) (ks_next k)) (set_ks_addrToInfo (insert (ki_address info) (ks_next k))
    (set_ks_keyToInfo (insert (ki_key info) (ks_next k)) (set_ks_infos (insert (ks_next k) info) (ks_bump k)))).

Lemma entered_ok k key info : ok k -> info_of_key key info -> ok (entered k info) /\ ks_infos (entered k info) !! ks_next k = Some info.
Proof.
  intros Hok (<- & Ha & Hs). unfold entered.
  assert (forall x, ks_infos (set_ks_infos (insert (ks_next k) info) x) !! ks_next k = Some info) as Hl by (intros; apply lookup_insert_eq).
  split; [|apply Hl]. apply ok_subnetToInfo; [|apply Hl]. apply ok_addrToInfo; [|apply Hl]. apply ok_keyToInfo; [|apply Hl]. by apply ok_info_new.
Qed.

Lemma update_ok (key : array 32) : keeps (ks_update prefix (arr_list key)) (fun _ => True) (fun info _ => info_of_key key info).
Proof.
  intros k Hok _. unfold ks_update. rewrite array_of_list. apply wp_bind, wp_gets. cbn [app].
  destruct (ks_keyToInfo k !! key ≫= _) as [[p info]|] eqn:E.
  - apply found in E as [Ea Ei]. cbn in Ea, Ei. destruct (ko_key _ _ Hok _ _ Ea) as (i & Hi & Hik). simplify_eq.
    apply wp_bind. eapply wp_mono; [by apply (reset_ok p info k)|]. intros [] k1 es1 (? & ? & ? & _). apply wp_ret. rewrite app_nil_r.
    split_and!; try done. split; [done|]. by apply (ko_info _ _ Hok p).
  - clear E. destruct (first_bytes prefix (arr_list key) (length_array key)) as (a & s & Ha & Hsn & _). rewrite Ha, Hsn.
    set (info := MkKeyInfo key a s None). assert (info_of_key key info) as Hinfo by done.
    destruct (entered_ok k key info Hok Hinfo) as [Hok1 Hp]. set (k1 := entered k info) in *.
    unfold ks_fresh.
    apply wp_bind, wp_bind, wp_gets, wp_bind, wp_modify, wp_ret. do 4 apply wp_bind, wp_modify. cbn [app].
    match goal with |- wp _ ?x _ => change x with k1 end.
    destruct (take_addr_ok a k1 Hok1) as (k2 & ps1 & E1 & Hok2 & Hs2 & Ei2 & Es2 & Eb2 & Hps1 & _).
    destruct (take_subnet_ok s k2 Hok2) as (k3 & ps2 & E2 & Hok3 & Hs3 & Ei3 & Hps2 & _).
    apply wp_bind. unfold wp at 1. rewrite E1. apply wp_bind. unfold wp at 1. rewrite E2. cbn [app].
    apply wp_bind. eapply wp_mono; [apply (reset_ok (ks_next k) info k3 Hok3); by rewrite Ei3, Ei2|].
    intros [] k4 es4 (Hok4 & Hs4 & He4 & _). assert (same_node k k2) as Hs02 by done.
    assert (same_node k k4) as Hs by (transitivity k3; [by transitivity k2|done]).
    apply wp_bind. pose proof (sound_for prefix (ps1 ++ ps2) (fun packet => yemit (KsWriteTo packet key)) (fun k' => same_node k k')) as Hfor.
    eapply wp_mono; [apply Hfor; [|done|done]|].
    { intros bs Hbs. apply sound_emit. intros k' Hok' Hsk. split.
      - apply elem_of_app in Hbs as [Hbs|Hbs]; [left|right].
        + by apply (proj1 (Forall_forall _ _) Hps1) in Hbs as [-> _].
        + by apply (proj1 (Forall_forall _ _) Hps2) in Hbs as [-> _].
      - apply (from_us_same k); [done|]. apply elem_of_app in Hbs as [Hbs|Hbs].
        + by apply (proj1 (Forall_forall _ _) Hps1) in Hbs as [_ Hbs].
        + apply (proj1 (Forall_forall _ _) Hps2) in Hbs as [_ [Hbs|Hbs]]; [left|right]; rewrite Hbs; apply Hs2. }
    intros [] k5 es5 (Hok5 & Hs5 & He5 & _). apply wp_ret. split_and!; [done|by transitivity k4| |done].
    rewrite app_nil_r. apply Forall_app. split.
    + eapply Forall_impl; [exact He4|]. intros e. apply effect_ok_same. by transitivity k2.
    + eapply Forall_impl; [exact He5|]. intros e. by apply effect_ok_same.
Qed.

(** A packet that a node may read: an IPv6 packet for this node, whose source is
    the address, or in the subnet, of the key that it came from. *)
Definition readable (k : keyStore) (from : array 32) (bs : list byte) : Prop :=
  Z.land (byte_at bs 0) 240 = 96 /\ 40 <= Z.of_nat (length bs) <= ks_mtu k /\
  (dst_addr bs = ks_address k \/ dst_subnet bs = ks_subnet k) /\
  (AddrForKey prefix (arr_list from) = Some (src_addr bs) \/ SubnetForKey prefix (arr_list from) = Some (src_subnet bs)).

Lemma readPC_ok room (from : array 32) bs k : ok k ->
  wp (readPC prefix room (arr_list from) bs) k (fun r k' es => ok k' /\ same_node k k' /\ Forall (effect_ok prefix k) es /\
    (r = Some (take room bs) /\ readable k from bs \/ r = None /\ ~ readable k from bs)).
Proof.
  intros Hok. unfold readPC, readable. apply wp_bind, wp_gets. cbn [app].
  destruct (Nat.eqb_spec (length bs) 0) as [H0|H0]; [apply wp_ret; split_and!; try done; right; split; [done|lia]|].
  destruct (Z.eqb_spec (Z.land (byte_at bs 0) 240) 96) as [H6|H6]; cbn [negb]; [|apply wp_ret; split_and!; try done; right; split; [done|tauto]].
  destruct (Nat.ltb_spec (length bs) 40) as [H4|H4]; [apply wp_ret; split_and!; try done; right; split; [done|lia]|].
  destruct (Z.ltb_spec (ks_mtu k) (Z.of_nat (length bs))) as [Hm|Hm].
  { apply wp_bind. eapply (wp_mono _ _ (fun _ k' es => ok k' /\ same_node k k' /\ Forall (effect_ok prefix k) es)).
    - destruct (CreateICMPv6 _ _ _ _) as [packet|]; [|by apply wp_ret]. apply wp_bind. eapply wp_mono; [by apply writePC_ok|].
      intros r k1 es1 (? & ? & ? & _). apply wp_ret. by rewrite app_nil_r.
    - intros [] k1 es1 (? & ? & ?). apply wp_ret. rewrite app_nil_r. split_and!; try done. right. split; [done|lia]. }
  cbv zeta.
  destruct (negb (bool_decide (array_of 16 (drop 24 bs) = ks_address k)) && negb (bool_decide (array_of 8 (drop 24 bs) = ks_subnet k))) eqn:Ed.
  { apply wp_ret. split_and!; try done. right. split; [done|]. apply andb_true_iff in Ed as [E1 E2].
    apply negb_true_iff, bool_decide_eq_false in E1, E2. unfold dst_addr, dst_subnet. tauto. }
  assert (dst_addr bs = ks_address k \/ dst_subnet bs = ks_subnet k) as Hd.
  { unfold dst_addr, dst_subnet. apply andb_false_iff in Ed as [E|E]; apply negb_false_iff, bool_decide_eq_true in E; auto. }
  apply wp_bind. eapply wp_mono; [by apply (update_ok from k)|]. intros info k1 es1 (Hok1 & Hs1 & He1 & (Hk & Ha & Hsn)).
  destruct (negb (bool_decide (array_of 16 (drop 8 bs) = ki_address info)) && negb (bool_decide (array_of 8 (drop 8 bs) = ki_subnet info))) eqn:Es;
    apply wp_ret; rewrite app_nil_r; (split_and!; [done|done|done|]).
  - right. split; [done|]. apply andb_true_iff in Es as [E1 E2]. apply negb_true_iff, bool_decide_eq_false in E1, E2.
    unfold src_addr, src_subnet. intros (_ & _ & _ & [E|E]); rewrite ?Ha, ?Hsn in E; injection E as E; congruence.
  - left. split_and!; try done; [lia|]. rewrite Ha, Hsn. unfold src_addr, src_subnet.
    apply andb_false_iff in Es as [E|E]; apply negb_false_iff, bool_decide_eq_true in E; [left|right]; by rewrite E.
Qed.

Lemma run_timer_ok f k : ok k -> (forall p, f = TInfo p -> ks_infos k !! p <> None) ->
  wp (run_timer f) k (fun _ k' es => ok k' /\ same_node k k' /\ es = []).
Proof.
  intros Hok Hp. destruct f as [p|addr b|snet b]; cbn [run_timer]; apply wp_bind, wp_gets; cbn [app].
  - specialize (Hp p eq_refl). destruct (ks_infos k !! p) as [info|]; [|done].
    apply wp_bind. eapply (wp_mono _ _ (fun _ k' es => ok k' /\ same_node k k' /\ es = [])).
    { case_bool_decide; [apply wp_modify; split_and!; try done; by apply ok_delete_key|by apply wp_ret]. }
    intros [] k1 es1 (Hok1 & Hs1 & ->). apply wp_bind. eapply (wp_mono _ _ (fun _ k' es => ok k' /\ same_node k k' /\ es = [])).
    { case_bool_decide; [apply wp_modify; split_and!; try done; by apply ok_delete_addr|by apply wp_ret]. }
    intros [] k2 es2 (Hok2 & Hs2 & ->).
    case_bool_decide; [apply wp_modify; split_and!; try done; by apply ok_delete_subnet|by apply wp_ret].
  - case_bool_decide; [apply wp_modify; split_and!; try done; by apply ok_delete_abuf|by apply wp_ret].
  - case_bool_decide; [apply wp_modify; split_and!; try done; by apply ok_delete_sbuf|by apply wp_ret].
Qed.

(** What a step may return. *)
Definition result_ok (k : keyStore) (ev : ksEvent) (r : ksResult) : Prop :=
  match ev, r with
  | KsRead room from bs, KsGot (Some out) => out = take room bs /\ readable k from bs
  | KsRead room from bs, KsGot None => ~ readable k from bs
  | KsRead _ _ _, _ => False
  | _, _ => True
  end.

Lemma ks_step_ok ev k : ok k -> wp (ks_step prefix ev) k (fun r k' es =>
  ok k' /\ same_node k k' /\ Forall (effect_ok prefix k) es /\ result_ok k ev r).
Proof.
  intros Hok. destruct ev as [bs|room from bs|key|maxMTU mtu|t|t]; cbn [ks_step].
  - apply wp_bind. eapply wp_mono; [by apply writePC_ok|]. intros r k1 es1 (? & ? & ? & _). apply wp_ret. by rewrite app_nil_r.
  - apply wp_bind. eapply wp_mono; [by apply readPC_ok|]. intros r k1 es1 (? & ? & ? & Hr). apply wp_ret. rewrite app_nil_r.
    split_and!; try done. by destruct Hr as [[-> ?]|[-> ?]].
  - apply wp_bind. eapply wp_mono; [by apply update_ok|]. intros r k1 es1 (? & ? & ? & _). apply wp_ret. by rewrite app_nil_r.
  - unfold SetMTU. apply wp_bind, wp_modify, wp_ret. split_and!; try done. apply ok_mtu; [|done]. case_match; case_match; lia.
  - apply wp_bind, wp_gets. cbn [app]. destruct (ks_pending k !! t) as [f|] eqn:E; [|by apply wp_ret].
    apply wp_bind, wp_modify, wp_ret. split_and!; try done. apply ok_timers; [done|]. intros t0 p [H0|H0]; apply (ko_timer _ _ Hok t0).
    + left. by apply lookup_delete_Some in H0 as [_ H0].
    + apply lookup_insert_Some in H0 as [[<- ->]|[_ H0]]; [by left|by right].
  - apply wp_bind, wp_gets. cbn [app]. destruct (ks_expired k !! t) as [f|] eqn:E; [|by apply wp_ret].
    apply wp_bind, wp_modify, wp_bind. cbn [app].
    eapply wp_mono; [apply (run_timer_ok f)|].
    + apply (ok_timers _ k (fun m => m)); [done|]. intros t0 p [H0|[_ H0]%lookup_delete_Some]; apply (ko_timer _ _ Hok t0); [by left|by right].
    + intros p ->. apply (ko_timer _ _ Hok t). by right.
    + intros [] k1 es1 (? & ? & ->). by apply wp_ret.
Qed.
End operations.
