(* ===== verification/KeyStoreLive.v ===== *)
(** * Packets from node to node

    The properties of [src/ipv6rwc/ipv6rwc.go] over whole runs: IPv6 addresses
    are those of the keys that packets go to and come from, and the first packet
    to an unknown address waits for the key and then arrives, unless the answer to
    a packet that is too big takes its place. *)

From S2P Require Import Prelude Crypto Binary Address AddressBits AddressSafety KeyStore KeyStoreSafety.

Section live.
Context `{Icmp} (prefix : byte).
Abbreviation ok := (ks_ok prefix).

Fixpoint ks_run (evs : list ksEvent) (k : keyStore) : option (list ksResult * keyStore * list ksEffect) :=
  match evs with
  | [] => Some ([], k, [])
  | ev :: evs =>
      match ks_step prefix ev k with
      | None => None
      | Some (r, k1, es1) =>
          match ks_run evs k1 with
          | None => None
          | Some (rs, k2, es2) => Some (r :: rs, k2, es1 ++ es2)
          end
      end
  end.

(** What a run may return for an event: a packet that was read is one for this
    node, from the address or the subnet of the key that sent it. *)
Definition authentic (k : keyStore) (ev : ksEvent) (r : ksResult) : Prop :=
  match ev, r with
  | KsRead room from bs, KsGot (Some out) =>
      out = take room bs /\ (dst_addr bs = ks_address k \/ dst_subnet bs = ks_subnet k) /\
      (AddrForKey prefix (arr_list from) = Some (src_addr bs) \/ SubnetForKey prefix (arr_list from) = Some (src_subnet bs))
  | _, _ => True
  end.

Lemma init_ok publicKey k : keyStore_init prefix publicKey = Some k -> ok k.
Proof.
  unfold keyStore_init. destruct (AddrForKey prefix publicKey), (SubnetForKey prefix publicKey); try done. intros [= <-]. split; cbn; try done.
  - intros q [?|?]; done.
  - intros t p [?|?]; done.
Qed.

Lemma init_address (key : array 32) k a : keyStore_init prefix (arr_list key) = Some k -> AddrForKey prefix (arr_list key) = Some a -> ks_address k = a.
Proof. unfold keyStore_init. intros E Ha. rewrite Ha in E. by destruct (SubnetForKey prefix (arr_list key)); [injection E as <-|]. Qed.

Lemma run_ok evs : forall k, ok k -> exists rs k' es, ks_run evs k = Some (rs, k', es) /\ ok k' /\ same_node k k' /\
  Forall (effect_ok prefix k) es /\ Forall2 (authentic k) evs rs.
Proof.
  induction evs as [|ev evs IH]; intros k Hok; cbn [ks_run]; [by exists [], k, []|].
  pose proof (ks_step_ok prefix ev k Hok) as Hs. unfold wp in Hs. destruct (ks_step prefix ev k) as [[[r k1] es1]|]; [|done].
  destruct Hs as (Hok1 & Hs1 & He1 & Hr). destruct (IH k1 Hok1) as (rs & k2 & es2 & -> & Hok2 & Hs2 & He2 & Hrs).
  exists (r :: rs), k2, (es1 ++ es2). split_and!; [done|done|by transitivity k1| |].
  - apply Forall_app. split; [done|]. eapply Forall_impl; [exact He2|]. intros e. by apply effect_ok_same.
  - constructor.
    + destruct ev, r as [|?|[?|]]; try done. destruct Hr as (-> & _ & _ & Hd & Hsrc). by split_and!.
    + eapply Forall2_impl; [exact Hrs|]. destruct Hs1 as [E1 E2]. unfold authentic. by rewrite E1, E2.
Qed.

(** C25: whatever is written, received, found and timed out in whatever order, a
    node never panics here; every packet that it sends has its own address or
    subnet as source, and goes to a key whose address or subnet is the
    destination; every packet that is read is for this node and comes from the
    key whose address or subnet is its source. *)
Theorem addresses_authentic publicKey k evs : keyStore_init prefix publicKey = Some k ->
  exists rs k' es, ks_run evs k = Some (rs, k', es) /\
    (forall bs key, KsWriteTo bs key ∈ es ->
       (AddrForKey prefix (arr_list key) = Some (dst_addr bs) \/ SubnetForKey prefix (arr_list key) = Some (dst_subnet bs)) /\
       (AddrForKey prefix publicKey = Some (src_addr bs) \/ SubnetForKey prefix publicKey = Some (src_subnet bs))) /\
    Forall2 (authentic k) evs rs.
Proof.
  intros Hi. destruct (run_ok evs k (init_ok publicKey k Hi)) as (rs & k' & es & Hr & _ & _ & He & Hrs).
  exists rs, k', es. split_and!; [done| |done]. intros bs key Hb. apply (proj1 (Forall_forall _ _) He) in Hb as [Hg Hf].
  split; [done|]. unfold keyStore_init in Hi. destruct (AddrForKey prefix publicKey), (SubnetForKey prefix publicKey); try done.
  injection Hi as <-. destruct Hf as [Hf|Hf]; [left|right]; by rewrite Hf.
Qed.

(** ** Waiting packets *)

Definition waits (k : keyStore) (a : Address) (bs : list byte) : Prop :=
  exists b buf, ks_addrBuffer k !! a = Some b /\ ks_buffers k !! b = Some buf /\ bf_packet buf = bs.

(** The key is not known, and the packet waits. *)
Definition asking (k : keyStore) (key : array 32) (a : Address) (bs : list byte) : Prop :=
  waits k a bs /\ ks_keyToInfo k !! key = None /\ 1280 <= ks_mtu k.

(** Events that do not concern the packet that waits for [key] at the address
    [a]: packets to other addresses; packets from other nodes, of any size, but
    for those that are too big and claim to come from [a], as these are answered
    to [a]; other keys that are found; timers, but for the one of the packet. *)
Definition quiet (key : array 32) (a : Address) (k : keyStore) (ev : ksEvent) : Prop :=
  match ev with
  | KsWrite bs => dst_addr bs <> a
  | KsRead _ key' bs =>
      key' <> key /\ AddrForKey prefix (arr_list key') <> Some a /\ (ks_mtu k < Z.of_nat (length bs) -> src_addr bs <> a)
  | KsNotify key' => key' <> key /\ AddrForKey prefix (arr_list key') <> Some a
  | KsExpire _ | KsSetMTU _ _ => True
  | KsRun t => forall b, ks_expired k !! t <> Some (TAddr a b)
  end.
Fixpoint undisturbed (key : array 32) (a : Address) (evs : list ksEvent) (k : keyStore) : Prop :=
  match evs with
  | [] => True
  | ev :: evs => quiet key a k ev /\ match ks_step prefix ev k with Some (_, k1, _) => undisturbed key a evs k1 | None => True end
  end.

(** The answer to a packet that is too big goes to where it claims to come from. *)
Lemma icmp_addresses dst src mtu data packet : length dst = 16%nat -> length src = 16%nat ->
  CreateICMPv6 dst src mtu data = Some packet ->
  (40 <= length packet)%nat /\ Z.land (byte_at packet 0) 240 = 96 /\ src_addr packet = array_of 16 src /\ dst_addr packet = array_of 16 dst.
Proof.
  intros Hd Hs. unfold CreateICMPv6. destruct (icmp_PacketTooBig _ _ _ _) as [msg|]; [|done]. intros E%(inj Some). rewrite <- E.
  set (pre := [z2b (Z.lor (Z.shiftl (6 mod 256) 4) (Z.shiftr (0 mod 256) 4)); z2b (Z.lor (Z.shiftl (0 mod 256) 4) (Z.shiftr 0 16 mod 256)); z2b (Z.shiftr 0 8); z2b 0] ++
    be_bytes 2 (Z.of_nat (length msg)) ++ [z2b 58; z2b 255]).
  assert (length pre = 8%nat) as Hp by (unfold pre; by rewrite !length_app, length_be_bytes).
  assert (ipv6Header_Marshal (MkHeader 6 0 0 (Z.of_nat (length msg)) 58 255 src dst) ++ msg = pre ++ src ++ dst ++ msg) as ->.
  { unfold ipv6Header_Marshal, pre. cbn [hd_Version hd_TrafficClass hd_FlowLabel hd_PayloadLen hd_NextHeader hd_HopLimit hd_Src hd_Dst].
    by rewrite !array_of_exact, <- !app_assoc by done. }
  split_and!.
  - rewrite !length_app. lia.
  - unfold pre. vm_compute. reflexivity.
  - unfold src_addr. rewrite (drop_app_length' pre) by lia. apply array_eq. unfold array_of. cbn [arr_list]. by rewrite resize_app_le by lia.
  - unfold dst_addr. rewrite (app_assoc pre), (drop_app_length' (pre ++ src)) by (rewrite length_app; lia).
    apply array_eq. unfold array_of. cbn [arr_list]. by rewrite resize_app_le by lia.
Qed.

(** The addresses that [readPC] takes from the copy of the packet. *)
Lemma copied_address n (bs : list byte) : (n + 16 <= length bs)%nat -> (n + 16 <= 512)%nat ->
  length (take 16 (drop n (arr_list (array_of 512 bs)))) = 16%nat /\
  array_of 16 (take 16 (drop n (arr_list (array_of 512 bs)))) = array_of 16 (drop n bs).
Proof.
  intros Hl Hn. assert (take 16 (drop n (arr_list (array_of 512 bs))) = take 16 (drop n bs)) as ->.
  { apply list_eq. intros i. destruct (decide (i < 16)%nat); [|by rewrite !lookup_take_ge by lia].
    rewrite !lookup_take_lt, !lookup_drop by lia. unfold array_of. cbn [arr_list]. rewrite lookup_resize by lia. done. }
  split; [rewrite length_take, length_drop; lia|]. apply array_eq. unfold array_of. cbn [arr_list].
  rewrite <- (take_drop 16 (drop n bs)) at 2. rewrite resize_app_le; [done|]. rewrite length_take, length_drop. lia.
Qed.

Lemma reset_eq p info k : exists k' t, resetTimeout p info k = Some (tt, k', []) /\
  ks_addrBuffer k' = ks_addrBuffer k /\ ks_buffers k' = ks_buffers k /\ ks_keyToInfo k' = ks_keyToInfo k /\
  ks_addrToInfo k' = ks_addrToInfo k /\ ks_infos k' = <[p := MkKeyInfo (ki_key info) (ki_address info) (ki_subnet info) (Some t)]> (ks_infos k) /\
  ks_address k' = ks_address k /\ ks_subnet k' = ks_subnet k /\ ks_mtu k' = ks_mtu k.
Proof.
  unfold resetTimeout, stop_timer, after_func, ks_fresh. destruct (ki_timeout info); run_ks; do 2 eexists; (split; [reflexivity|]); by split_and!.
Qed.

Lemma buffer_lt k b buf : ok k -> ks_buffers k !! b = Some buf -> (b < ks_next k)%nat.
Proof. intros Hok Hb. apply (ko_next _ _ Hok). right. by rewrite Hb. Qed.

(** Putting a packet for an unknown address into its buffer. *)
Lemma send_unknown addr bs k : ks_addrToInfo k !! addr = None ->
  exists k' b t, sendToAddress prefix addr bs k = Some (tt, k', [KsLookup (Address_GetKey prefix addr)]) /\
    (ks_addrBuffer k !! addr = Some b \/ b = ks_next k) /\
    ks_addrBuffer k' = <[addr := b]> (ks_addrBuffer k) /\
    (exists m, ks_buffers k' = <[b := MkBuf bs (Some t)]> m /\ forall q, q <> b -> m !! q = ks_buffers k !! q) /\
    ks_keyToInfo k' = ks_keyToInfo k /\ ks_mtu k' = ks_mtu k.
Proof.
  intros Hn. unfold sendToAddress, stop_timer, after_func, ks_fresh. run_ks. rewrite Hn. cbn [mbind option_bind].
  destruct (ks_addrBuffer k !! addr) as [b|] eqn:Eb; run_ks.
  - destruct (option_bind _ _ bf_timeout (ks_buffers k !! b)); run_ks; do 3 eexists; (split; [reflexivity|]); (split_and!; [by left| | |done|done]);
      try (cbn; by rewrite insert_id); by eexists.
  - cbn [ks_bump ks_next ks_buffers ks_addrBuffer set_ks_buffers set_ks_addrBuffer]. rewrite lookup_insert_eq. cbn [mbind option_bind bf_timeout].
    run_ks. do 3 eexists. split; [reflexivity|]. split_and!; [by right|done| |done|done]. eexists. split; [reflexivity|].
    intros q Hq. cbn. by rewrite lookup_insert_ne.
Qed.

Lemma send_unknown_subnet snet bs k : ks_subnetToInfo k !! snet = None ->
  exists k' b t, sendToSubnet prefix snet bs k = Some (tt, k', [KsLookup (Subnet_GetKey prefix snet)]) /\
    (ks_subnetBuffer k !! snet = Some b \/ b = ks_next k) /\
    ks_addrBuffer k' = ks_addrBuffer k /\
    (exists m, ks_buffers k' = <[b := MkBuf bs (Some t)]> m /\ forall q, q <> b -> m !! q = ks_buffers k !! q) /\
    ks_keyToInfo k' = ks_keyToInfo k /\ ks_mtu k' = ks_mtu k.
Proof.
  intros Hn. unfold sendToSubnet, stop_timer, after_func, ks_fresh. run_ks. rewrite Hn. cbn [mbind option_bind].
  destruct (ks_subnetBuffer k !! snet) as [b|] eqn:Eb; run_ks.
  - destruct (option_bind _ _ bf_timeout (ks_buffers k !! b)); run_ks; do 3 eexists; (split; [reflexivity|]); (split_and!; [by left| | |done|done]);
      try (cbn; by rewrite insert_id); by eexists.
  - cbn [ks_bump ks_next ks_buffers ks_subnetBuffer set_ks_buffers set_ks_subnetBuffer]. rewrite lookup_insert_eq. cbn [mbind option_bind bf_timeout].
    run_ks. do 3 eexists. split; [reflexivity|]. split_and!; [by right|done| |done|done]. eexists. split; [reflexivity|].
    intros q Hq. cbn. by rewrite lookup_insert_ne.
Qed.

(** ** A key becomes known *)

Definition waiting (k : keyStore) (a : Address) : list (list byte) :=
  match ks_addrBuffer k !! a ≫= fun b => ks_buffers k !! b with Some buf => [bf_packet buf] | None => [] end.

(** What stays the same but for the buffer of [a]. *)
Definition but_buffer (a : Address) (k k' : keyStore) : Prop :=
  (forall a', a' <> a -> ks_addrBuffer k' !! a' = ks_addrBuffer k !! a') /\ ks_buffers k' = ks_buffers k /\
  ks_keyToInfo k' = ks_keyToInfo k /\ ks_addrToInfo k' = ks_addrToInfo k /\ ks_infos k' = ks_infos k /\ ks_mtu k' = ks_mtu k.

Lemma take_addr_eq a k : exists k', take_addr a k = Some (waiting k a, k', []) /\ but_buffer a k k'.
Proof.
  unfold take_addr, waiting, but_buffer. run_ks. destruct (ks_addrBuffer k !! a) as [b|]; (eexists; split; [reflexivity|]); split_and!; try done.
  intros a' Ha. cbn. by rewrite lookup_delete_ne.
Qed.

Lemma take_subnet_eq s a k : exists k' ps, take_subnet s k = Some (ps, k', []) /\ but_buffer a k k'.
Proof.
  unfold take_subnet, but_buffer. run_ks. destruct (ks_subnetBuffer k !! s) as [b|]; (do 2 eexists; split; [reflexivity|]); by split_and!.
Qed.

(** A new key: the packets for its address are sent at once, and its address is
    known from then on. *)
Lemma update_new (key : array 32) a k : ks_keyToInfo k !! key = None -> AddrForKey prefix (arr_list key) = Some a ->
  exists info k' ps p info', ks_update prefix (arr_list key) k = Some (info, k', map (fun bs => KsWriteTo bs key) (waiting k a ++ ps)) /\
    (forall a', a' <> a -> ks_addrBuffer k' !! a' = ks_addrBuffer k !! a') /\ ks_buffers k' = ks_buffers k /\
    ks_keyToInfo k' = <[key := p]> (ks_keyToInfo k) /\ ks_mtu k' = ks_mtu k /\
    ks_addrToInfo k' !! a = Some p /\ ks_infos k' !! p = Some info' /\ ki_key info' = key.
Proof.
  intros Hk Ha. destruct (first_bytes prefix (arr_list key) (length_array key)) as (a0 & s & Ha0 & Hs & _). simplify_eq.
  set (info := MkKeyInfo key a s None). set (k1 := entered k info).
  destruct (take_addr_eq a k1) as (k2 & E2 & B1 & B2 & B3 & B4 & B5 & B6).
  destruct (take_subnet_eq s a k2) as (k3 & ps & E3 & C1 & C2 & C3 & C4 & C5 & C6).
  destruct (reset_eq (ks_next k) info k3) as (k4 & t & E4 & D1 & D2 & D3 & D4 & D5 & _ & _ & D6).
  exists info, k4, ps, (ks_next k), (MkKeyInfo key a s (Some t)). split.
  - unfold ks_update. rewrite array_of_list, Ha, Hs. unfold ks_fresh. run_ks. rewrite Hk. cbn [option_bind].
    match goal with |- context [take_addr a ?x] => change x with k1 end. rewrite E2, E3. run_ks. unfold info in E4. rewrite E4.
    change (waiting k a) with (waiting k1 a).
    rewrite (act_for_emit _ (fun packet => yemit (KsWriteTo packet key)) (fun packet => [KsWriteTo packet key])) by done.
    cbn [app]. rewrite app_nil_r. do 2 f_equal. induction (waiting k1 a ++ ps) as [|x l IH]; [done|]. cbn. by rewrite IH.
  - split_and!; try done.
    + intros a' Hne. by rewrite D1, C1, B1.
    + by rewrite D2, C2, B2.
    + by rewrite D3, C3, B3.
    + by rewrite D6, C6, B6.
    + rewrite D4, C4, B4. apply lookup_insert_eq.
    + rewrite D5. apply lookup_insert_eq.
Qed.

Context (key : array 32) (a : Address) (bs : list byte).
Abbreviation ask := (fun k => asking k key a bs).

Lemma asking_same k k' : ks_addrBuffer k' = ks_addrBuffer k -> ks_buffers k' = ks_buffers k -> ks_keyToInfo k' = ks_keyToInfo k ->
  ks_mtu k' = ks_mtu k -> ask k -> ask k'.
Proof. intros E1 E2 E3 E4. unfold asking, waits. by rewrite E1, E2, E3, E4. Qed.

(** Another buffer is written, or one whose address is another. *)
Lemma asking_buffer k k' b buf m : (forall b', ks_addrBuffer k !! a = Some b' -> b' <> b) ->
  ks_addrBuffer k' !! a = ks_addrBuffer k !! a -> ks_buffers k' = <[b := buf]> m ->
  (forall q, q <> b -> m !! q = ks_buffers k !! q) -> ks_keyToInfo k' = ks_keyToInfo k -> ks_mtu k' = ks_mtu k -> ask k -> ask k'.
Proof.
  intros Hb E1 E2 Hm E3 E4 ((b' & buf' & Hb' & Hbuf & Hp) & Hk & Hu). unfold asking, waits. rewrite E1, E2, E3, E4.
  split_and!; [|done|done]. exists b', buf'. apply Hb in Hb' as Hne. rewrite lookup_insert_ne by done. by rewrite Hm.
Qed.

Lemma calm_address addr bs' k : ok k -> ask k -> addr <> a -> wp (sendToAddress prefix addr bs') k (fun _ k' _ => ask k').
Proof.
  intros Hok Ha Hne. destruct (ks_addrToInfo k !! addr) as [p|] eqn:Ei.
  - destruct (ko_addr _ _ Hok _ _ Ei) as (info & Hp & _). destruct (reset_eq p info k) as (k' & t & Hr & E1 & E2 & E3 & _ & _ & _ & _ & E4).
    unfold sendToAddress. apply wp_bind, wp_gets. rewrite Ei. cbn [mbind option_bind]. rewrite Hp. cbn [fmap option_fmap option_map].
    apply wp_bind. unfold wp. rewrite Hr. by apply (asking_same k).
  - destruct (send_unknown addr bs' k Ei) as (k' & b & t & Hs & Hb & E1 & (m & E2 & Hm) & E3 & E4). unfold wp. rewrite Hs.
    eapply (asking_buffer k k' b); [|by rewrite E1, lookup_insert_ne|done|done|done|done|done].
    intros b' Hb' ->. destruct Hb as [Hb| ->]; [by apply Hne, (ko_ainj _ _ Hok addr a b)|].
    destruct (ko_abuf _ _ Hok _ _ Hb') as (buf & Hbuf & _). apply buffer_lt in Hbuf; [lia|done].
Qed.

Lemma calm_subnet snet bs' k : ok k -> ask k -> wp (sendToSubnet prefix snet bs') k (fun _ k' _ => ask k').
Proof.
  intros Hok Ha. destruct (ks_subnetToInfo k !! snet) as [p|] eqn:Ei.
  - destruct (ko_subnet _ _ Hok _ _ Ei) as (info & Hp & _). destruct (reset_eq p info k) as (k' & t & Hr & E1 & E2 & E3 & _ & _ & _ & _ & E4).
    unfold sendToSubnet. apply wp_bind, wp_gets. rewrite Ei. cbn [mbind option_bind]. rewrite Hp. cbn [fmap option_fmap option_map].
    apply wp_bind. unfold wp. rewrite Hr. by apply (asking_same k).
  - destruct (send_unknown_subnet snet bs' k Ei) as (k' & b & t & Hs & Hb & E1 & (m & E2 & Hm) & E3 & E4). unfold wp. rewrite Hs.
    eapply (asking_buffer k k' b); [|by rewrite E1|done|done|done|done|done].
    intros b' Hb' ->. destruct Hb as [Hb| ->]; [by apply (ko_disj _ _ Hok a snet b)|].
    destruct (ko_abuf _ _ Hok _ _ Hb') as (buf & Hbuf & _). apply buffer_lt in Hbuf; [lia|done].
Qed.

Lemma calm_write bs' k : ok k -> ask k -> dst_addr bs' <> a -> wp (writePC prefix bs') k (fun _ k' _ => ask k').
Proof.
  intros Hok Ha Hne. unfold writePC. apply wp_bind, wp_gets. cbv zeta.
  repeat match goal with |- wp (if ?b then _ else _) _ _ => destruct b; [by apply wp_ret|] end.
  case_match; [apply wp_bind; eapply wp_mono; [by apply calm_address|]; intros [] ? ? ?; by apply wp_ret|].
  case_match; [apply wp_bind; eapply wp_mono; [by apply calm_subnet|]; intros [] ? ? ?; by apply wp_ret|].
  by apply wp_ret.
Qed.

Lemma calm_update (key' : array 32) k : ok k -> ask k -> key' <> key -> AddrForKey prefix (arr_list key') <> Some a ->
  wp (ks_update prefix (arr_list key')) k (fun _ k' _ => ask k').
Proof.
  intros Hok Hask Hne Hna. destruct (ks_keyToInfo k !! key') as [p|] eqn:Ek.
  - destruct (ko_key _ _ Hok _ _ Ek) as (info & Hp & _). destruct (reset_eq p info k) as (k' & t & Hr & E1 & E2 & E3 & _ & _ & _ & _ & E4).
    unfold ks_update. rewrite array_of_list. apply wp_bind, wp_gets. rewrite Ek. cbn [mbind option_bind]. rewrite Hp. cbn [fmap option_fmap option_map].
    apply wp_bind. unfold wp at 1. rewrite Hr. apply wp_ret. by apply (asking_same k).
  - destruct (first_bytes prefix (arr_list key') (length_array key')) as (a' & s & Ha & _).
    destruct (update_new key' a' k Ek Ha) as (info & k' & ps & p & info' & Hu & E1 & E2 & E3 & E4 & _). unfold wp. rewrite Hu.
    destruct Hask as ((b & buf & Hb & Hbuf & Hp) & Hk & Hm). unfold asking, waits. rewrite E2, E3, E4, lookup_insert_ne by done.
    split_and!; [|done|done]. exists b, buf. rewrite E1; [done|congruence].
Qed.

Lemma calm_step ev k : ok k -> ask k -> quiet key a k ev -> wp (ks_step prefix ev) k (fun _ k' _ => ask k').
Proof.
  intros Hok Hask Hq. destruct ev as [bs'|room from bs'|key'|maxMTU mtu|t|t]; cbn [ks_step quiet] in *.
  - apply wp_bind. eapply wp_mono; [by apply calm_write|]. intros r k1 es1 H1. by apply wp_ret.
  - destruct Hq as (Hne & Hna & Hsrc). apply wp_bind. apply (wp_mono _ _ (fun _ k' _ => ask k')); [|intros; by apply wp_ret].
    unfold readPC. apply wp_bind, wp_gets. cbn [app].
    destruct (Nat.eqb_spec (length bs') 0); [by apply wp_ret|]. destruct (negb _); [by apply wp_ret|].
    destruct (Nat.ltb_spec (length bs') 40); [by apply wp_ret|]. cbv zeta.
    destruct (Z.ltb_spec (ks_mtu k) (Z.of_nat (length bs'))) as [Hbig|_].
    { apply wp_bind. eapply wp_mono with (P := fun _ k' _ => ask k'); [|intros; by apply wp_ret].
      destruct (CreateICMPv6 _ _ _ _) as [packet|] eqn:E; [|by apply wp_ret].
      destruct (copied_address 8 bs') as [L8 E8]; [lia..|]. destruct (copied_address 24 bs') as [L24 E24]; [lia..|].
      apply icmp_addresses in E as (_ & _ & _ & Ed); [|done..].
      apply wp_bind. eapply wp_mono; [apply calm_write; [done|done|]|intros; by apply wp_ret].
      rewrite Ed, E8. by apply Hsrc. }
    match goal with |- wp (if ?b then yret None else _) _ _ => destruct b; [by apply wp_ret|] end.
    apply wp_bind. eapply wp_mono; [by apply calm_update|]. intros info k1 es1 H1. cbn beta. case_match; by apply wp_ret.
  - destruct Hq as (Hne & Hna). apply wp_bind. eapply wp_mono; [by apply calm_update|]. intros r k1 es1 H1. by apply wp_ret.
  - unfold SetMTU. apply wp_bind, wp_modify, wp_ret. destruct Hask as (? & ? & ?). split_and!; [done|done|]. cbn. case_match; case_match; lia.
  - apply wp_bind, wp_gets. destruct (ks_pending k !! t); [|by apply wp_ret]. by apply wp_bind, wp_modify, wp_ret.
  - pose proof (ks_step_ok prefix (KsRun t) k Hok) as Hs. cbn [ks_step] in Hs. revert Hs. unfold wp. run_ks.
    destruct (ks_expired k !! t) as [[p|a' b'|s b']|] eqn:E; [| | |done]; cbn [run_timer]; run_ks.
    + cbn [set_ks_expired ks_infos ks_keyToInfo ks_addrToInfo ks_subnetToInfo]. destruct (ks_infos k !! p) as [info|]; [|done].
      destruct Hask as ((b & buf & Hb) & Hk & Hm).
      assert (forall k', ks_addrBuffer k' = ks_addrBuffer k -> ks_buffers k' = ks_buffers k -> ks_mtu k' = ks_mtu k ->
        ks_keyToInfo k' = ks_keyToInfo k \/ ks_keyToInfo k' = delete (ki_key info) (ks_keyToInfo k) -> ask k') as Hk'.
      { intros k' E1 E2 E3 E4. unfold asking, waits. rewrite E1, E2, E3. split_and!; [by exists b, buf| |done].
        destruct E4 as [-> | ->]; [done|]. apply lookup_delete_None. by right. }
      intros _. do 3 match goal with |- context [bool_decide ?P] => destruct (bool_decide P); run_ks end.
      all: (apply Hk'; [done..|]; first [by left|by right]).
    + intros _. assert (a' <> a) as Hne by (intros ->; by eapply Hq).
      assert (forall k', ks_addrBuffer k' !! a = ks_addrBuffer k !! a -> ks_buffers k' = ks_buffers k -> ks_mtu k' = ks_mtu k ->
        ks_keyToInfo k' = ks_keyToInfo k -> ask k') as Hk'.
      { intros k' E1 E2 E3 E4. revert Hask. unfold asking, waits. by rewrite E1, E2, E3, E4. }
      match goal with |- context [bool_decide ?P] => destruct (bool_decide P); run_ks end; apply Hk'; try done. cbn. by rewrite lookup_delete_ne.
    + intros _. match goal with |- context [bool_decide ?P] => destruct (bool_decide P); run_ks end; by apply (asking_same k).
Qed.

Lemma quiet_keeps evs : forall k rs k' es, ok k -> ask k -> undisturbed key a evs k -> ks_run evs k = Some (rs, k', es) -> ask k'.
Proof.
  induction evs as [|ev evs IH]; intros k rs k' es Hok Hask Hq; cbn [ks_run]; [by intros [= <- <- <-]|].
  destruct Hq as [Hq Hqs]. pose proof (calm_step ev k Hok Hask Hq) as H1. pose proof (ks_step_ok prefix ev k Hok) as H2.
  unfold wp in H1, H2. destruct (ks_step prefix ev k) as [[[r k1] es1]|]; [|done]. destruct H2 as (Hok1 & _).
  destruct (ks_run evs k1) as [[[rs2 k2] es2]|] eqn:Er; [|done]. intros [= <- <- <-]. by eapply IH.
Qed.

(** A packet that may be written: IPv6, from [a] to [b]. *)
Definition ip_packet (a b : Address) (bs : list byte) : Prop :=
  Z.land (byte_at bs 0) 240 = 96 /\ (40 <= length bs)%nat /\ src_addr bs = a /\ dst_addr bs = b.

Lemma ok_valid (k : array 32) b : AddrForKey prefix (arr_list k) = Some b -> Address_IsValid prefix b = true.
Proof.
  intros Hb. destruct (first_bytes prefix (arr_list k) (length_array k)) as (b' & s & Eb & _ & H1 & _). simplify_eq.
  unfold Address_IsValid. by apply bool_decide_eq_true.
Qed.

(** Writing reaches the choice of the destination. *)
Lemma step_write k b bs' k' es : ip_packet (ks_address k) b bs' -> Address_IsValid prefix b = true ->
  sendToAddress prefix b bs' k = Some (tt, k', es) ->
  ks_step prefix (KsWrite bs') k = Some (KsWrote (inr (Z.of_nat (length bs'))), k', es).
Proof.
  intros (Hv & Hl & Hs & Hd) Hb E. cbn [ks_step]. unfold writePC. run_ks.
  destruct (Nat.eqb_spec (length bs') 0); [lia|]. rewrite Hv. cbn [Z.eqb Pos.eqb negb].
  destruct (Nat.ltb_spec (length bs') 40); [lia|]. unfold src_addr, dst_addr in *. rewrite Hs, Hd, Hb.
  rewrite bool_decide_true by done. cbn [negb andb]. rewrite E. by rewrite !app_nil_r.
Qed.

Lemma send_known (k : keyStore) b bs' p info : ks_addrToInfo k !! b = Some p -> ks_infos k !! p = Some info ->
  exists k', sendToAddress prefix b bs' k = Some (tt, k', [KsWriteTo bs' (ki_key info)]).
Proof.
  intros Hb Hp. destruct (reset_eq p info k) as (k' & t & Hr & _). exists k'. unfold sendToAddress. run_ks. rewrite Hb. cbn [option_bind].
  rewrite Hp. cbn [fmap option_fmap option_map]. by rewrite Hr.
Qed.

Lemma step_read k b bs' room (from : array 32) info k' es : ip_packet b (ks_address k) bs' -> Z.of_nat (length bs') <= ks_mtu k ->
  AddrForKey prefix (arr_list from) = Some b -> ks_update prefix (arr_list from) k = Some (info, k', es) -> ki_address info = b ->
  ks_step prefix (KsRead room from bs') k = Some (KsGot (Some (take room bs')), k', es).
Proof.
  intros (Hv & Hl & Hs & Hd) Hm Hb E Hi. cbn [ks_step]. unfold readPC. run_ks.
  destruct (Nat.eqb_spec (length bs') 0); [lia|]. rewrite Hv. cbn [Z.eqb Pos.eqb negb].
  destruct (Nat.ltb_spec (length bs') 40); [lia|]. destruct (Z.ltb_spec (ks_mtu k) (Z.of_nat (length bs'))); [lia|].
  unfold src_addr, dst_addr in *. rewrite Hd. rewrite (bool_decide_true (ks_address k = ks_address k)) by done. cbn [negb andb].
  rewrite E, Hs, Hi. rewrite (bool_decide_true (b = b)) by done. cbn [negb andb]. by rewrite !app_nil_r.
Qed.
End live.

Section contact.
Context `{Icmp} (prefix : byte).


(** The answer to a packet that is too big takes the place of a packet that
    waits for the address that it claims to come from; any node can send one. *)
Lemma oversized_replaces_waiting k room (from : array 32) key a bs bs' packet : ks_addrToInfo k !! a = None -> asking k key a bs ->
  Address_IsValid prefix a = true -> ip_packet a (ks_address k) bs' -> ks_mtu k < Z.of_nat (length bs') ->
  CreateICMPv6 (take 16 (drop 8 (arr_list (array_of 512 bs')))) (take 16 (drop 24 (arr_list (array_of 512 bs')))) (ks_mtu k)
    (take (Nat.min 512 (length bs')) (arr_list (array_of 512 bs'))) = Some packet ->
  exists k', ks_step prefix (KsRead room from bs') k = Some (KsGot None, k', [KsLookup (Address_GetKey prefix a)]) /\ waits k' a packet.
Proof.
  intros Hn Hask Ha (Hv & Hl & Hs & Hd) Hbig E.
  destruct (copied_address 8 bs') as [L8 E8]; [lia..|]. destruct (copied_address 24 bs') as [L24 E24]; [lia..|].
  pose proof E as (Lp & Vp & Sp & Dp)%icmp_addresses; [|done..].
  destruct (send_unknown prefix a packet k Hn) as (k' & b & t & Es & _ & Eb & (m & Ebf & _) & _).
  exists k'. split.
  - cbn [ks_step]. unfold readPC. run_ks. destruct (Nat.eqb_spec (length bs') 0); [lia|]. rewrite Hv. cbn [Z.eqb Pos.eqb negb].
    destruct (Nat.ltb_spec (length bs') 40); [lia|]. destruct (Z.ltb_spec (ks_mtu k) (Z.of_nat (length bs'))); [|lia]. rewrite E.
    unfold writePC. run_ks. destruct (Nat.eqb_spec (length packet) 0); [lia|]. rewrite Vp. cbn [Z.eqb Pos.eqb negb].
    destruct (Nat.ltb_spec (length packet) 40); [lia|]. fold (src_addr packet) (dst_addr packet). rewrite Sp, Dp, E8, E24.
    fold (src_addr bs') (dst_addr bs'). rewrite Hs, Hd, Ha. rewrite (bool_decide_true (ks_address k = ks_address k)) by done. cbn [negb andb].
    by rewrite Es.
  - exists b, (MkBuf packet (Some t)). by rewrite Eb, Ebf, !lookup_insert_eq.
Qed.
End contact.

(** ** Witnesses *)

Definition w_icmp : Icmp := {| icmp_PacketTooBig := fun _ _ _ _ => None |}.
Definition w_ka : array 32 := array_of 32 (Byte.x1a :: replicate 31 Byte.x2b).
Definition w_kb : array 32 := array_of 32 (Byte.x03 :: replicate 31 Byte.x4d).
Definition w_addr (k : array 32) : Address := default (zero_array 16) (AddrForKey Byte.x02 (arr_list k)).
Definition w_store (k : array 32) : keyStore :=
  MkKeyStore (w_addr k) (default (zero_array 8) (SubnetForKey Byte.x02 (arr_list k))) ∅ ∅ ∅ ∅ ∅ 1280 ∅ ∅ ∅ ∅ 0.
Definition w_packet : list byte := Byte.x60 :: replicate 7 Byte.x00 ++ arr_list (w_addr w_ka) ++ arr_list (w_addr w_kb) ++ [Byte.x68; Byte.x69].

Lemma addresses_authentic_witness :
  let evs := [KsWrite w_packet; KsNotify w_kb; KsExpire 1; KsRun 1; KsRead 9 w_kb w_packet] in
  exists rs k' es, @ks_run w_icmp Byte.x02 evs (w_store w_ka) = Some (rs, k', es) /\
    (forall bs key, KsWriteTo bs key ∈ es ->
       (AddrForKey Byte.x02 (arr_list key) = Some (dst_addr bs) \/ SubnetForKey Byte.x02 (arr_list key) = Some (dst_subnet bs)) /\
       (AddrForKey Byte.x02 (arr_list w_ka) = Some (src_addr bs) \/ SubnetForKey Byte.x02 (arr_list w_ka) = Some (src_subnet bs))) /\
    Forall2 (authentic Byte.x02 (w_store w_ka)) evs rs.
Proof. intros evs. apply (@addresses_authentic w_icmp Byte.x02 (arr_list w_ka) (w_store w_ka) evs). by vm_compute. Defined.

