(* ===== verification/EncConn.v ===== *)
(** * The encrypted packet interface

    [ironwood/encrypted/network.go], [packetconn.go] and [pool.go]: the loop that
    reads the inner connection and feeds the sessions, the channel from the
    sessions to the readers, and [ReadFrom], [WriteTo] and [MTU].

    The [netManager] is an actor with an inbox of [netMsg]s; a second actor,
    [reader], waits until it can put received data into the channel, which holds
    one entry. *)

From S2P Require Import Prelude Crypto Messages RouterState PacketConn Box SessionInit Session SessionManager.

Definition netBufferSize : Z := 128 * 1024.

(** [bytePool] gives a nil slice at first; [allocBytes] and [freeBytes] tell
    whether the slice of length zero is nil. *)
Definition allocBytes (pooled : bool) (p : list byte) : option (list byte) :=
  if negb pooled && (length p =? 0)%nat then None else Some p.

Record netReadInfo := MkRead { nr_from : edPub; nr_data : list byte; nr_err : option Error }.

Inductive netMsg := NetStart | NetLoop.

(** [nm_readers] counts the calls of [ReadFrom] that wait. *)
Record netManager := MkNet {
  nm_inbox : list netMsg;
  nm_reader : list netReadInfo;
  nm_readCh : option netReadInfo;
  nm_closed : bool;
  nm_running : bool;
  nm_readers : nat
}.

Definition netManager_init : netManager := MkNet [] [] None false false 0.

(** [recv], which posts to [reader], and the message it posts; when the channel
    has room and [closed] is closed the [select] takes either. *)
Definition netManager_recv (from : edPub) (data : list byte) (m : netManager) : netManager :=
  MkNet (nm_inbox m) (nm_reader m ++ [MkRead from data None]) (nm_readCh m) (nm_closed m) (nm_running m) (nm_readers m).
Definition reader_deliver (prefer_closed : bool) (m : netManager) : option netManager :=
  match nm_reader m with
  | [] => None
  | info :: rest =>
      match nm_readCh m with
      | None =>
          let ch := if nm_closed m && prefer_closed then None else Some info in
          Some (MkNet (nm_inbox m) rest ch (nm_closed m) (nm_running m) (nm_readers m))
      | Some _ =>
          if nm_closed m then Some (MkNet (nm_inbox m) rest (nm_readCh m) (nm_closed m) (nm_running m) (nm_readers m))
          else None
      end
  end.

(** [read], and the message that it posts. *)
Definition netManager_read (m : netManager) : netManager :=
  MkNet (nm_inbox m ++ [NetStart]) (nm_reader m) (nm_readCh m) (nm_closed m) (nm_running m) (nm_readers m).
Definition read_start (rest : list netMsg) (m : netManager) : netManager :=
  if nm_running m then MkNet rest (nm_reader m) (nm_readCh m) (nm_closed m) (nm_running m) (nm_readers m)
  else MkNet (rest ++ [NetLoop]) (nm_reader m) (nm_readCh m) (nm_closed m) true (nm_readers m).

(** [rl]: what the inner [ReadFrom] returned, and whether the inner connection
    is closed; data goes to the sessions. *)
Definition read_loop (rest : list netMsg) (r : result traffic) (isClosed : bool) (m : netManager) : option (netManager * option mgrEvent) :=
  match r with
  | Panic => None
  | Fail e =>
      let ch := match nm_readCh m with None => Some (MkRead (zero_array edPubSize) [] (Some e)) | ch => ch end in
      Some (MkNet rest (nm_reader m) ch (nm_closed m || isClosed) false (nm_readers m), None)
  | Ret tr =>
      let '(msg, _, from) := readResult (Z.to_nat netBufferSize) tr in
      Some (MkNet (rest ++ [NetLoop]) (nm_reader m) (nm_readCh m) (nm_closed m) (nm_running m) (nm_readers m),
        Some (MgrData (array_of edPubSize (arr_list from)) msg))
  end.

(** ** The interface *)

Definition enc_MTU (inner : Z) : Z := u64 (inner - Z.of_nat sessionTrafficOverhead).

(** [ReadFrom]: the part before the channel, and what it returns for an entry of
    the channel: the bytes copied, their number and the address. *)
Definition enc_ReadFrom (m : netManager) : netManager :=
  let m := netManager_read m in
  MkNet (nm_inbox m) (nm_reader m) (nm_readCh m) (nm_closed m) (nm_running m) (S (nm_readers m)).
Definition enc_readResult (room : nat) (info : netReadInfo) : sum Error (list byte * Z * list byte) :=
  match nr_err info with
  | Some e => inl e
  | None =>
      let n := length (nr_data info) in
      let n := if (room <? n)%nat then room else n in
      inr (take n (nr_data info), Z.of_nat n, asKey (nr_from info))
  end.

(** [WriteTo]: the call of the sessions' [writeTo]. *)
Definition enc_WriteTo (m : netManager) (inner : Z) (pooled : bool) (p : list byte) (addr : option (list byte)) : result (Z * mgrEvent) :=
  if nm_closed m then Fail ErrClosed
  else
    match addr with
    | None => Fail ErrBadAddress
    | Some destKey =>
        if negb (length destKey =? edPubSize)%nat then Fail ErrBadAddress
        else if enc_MTU inner <? u64 (Z.of_nat (length p)) then Fail ErrOversizedMessage
        else mret (Z.of_nat (length p), MgrWrite (array_of edPubSize destKey) (allocBytes pooled p))
    end.

(** ** Steps

    [NetCall] is a call of [ReadFrom] up to the channel, and [NetReturn] is its
    return, with the length of the caller's buffer and what it gets. *)

Inductive netEvent :=
| NetHandle
| NetInner (r : result traffic) (isClosed : bool) (out : option mgrEvent)
| NetDeliver
| NetRecv (from : edPub) (data : list byte)
| NetCall
| NetReturn (room : nat) (res : sum Error (list byte * Z * list byte)).

Inductive net_step : netManager -> netEvent -> netManager -> Prop :=
| net_handle m rest : nm_inbox m = NetStart :: rest -> net_step m NetHandle (read_start rest m)
| net_inner m rest r isClosed m' out : nm_inbox m = NetLoop :: rest -> read_loop rest r isClosed m = Some (m', out) ->
    net_step m (NetInner r isClosed out) m'
| net_deliver m b m' : reader_deliver b m = Some m' -> net_step m NetDeliver m'
| net_recv m from data : net_step m (NetRecv from data) (netManager_recv from data m)
| net_call m : net_step m NetCall (enc_ReadFrom m)
| net_return m n room info : nm_readers m = S n -> nm_readCh m = Some info ->
    net_step m (NetReturn room (enc_readResult room info)) (MkNet (nm_inbox m) (nm_reader m) None (nm_closed m) (nm_running m) n).

Inductive net_run : netManager -> list netEvent -> netManager -> Prop :=
| net_nil m : net_run m [] m
| net_cons m ev m1 evs m2 : net_step m ev m1 -> net_run m1 evs m2 -> net_run m (ev :: evs) m2.

(** ** Properties of the encrypted packet interface

    What readers of [ironwood/encrypted/packetconn.go] get: the sessions' data in
    order, an error after the connection is closed, and what goes wrong when
    several calls wait or a deadline passes between two calls. *)

(** ** Data in order *)

Definition data_of (info : netReadInfo) : list (edPub * list byte) :=
  match nr_err info with None => [(nr_from info, nr_data info)] | Some _ => [] end.

(** What the sessions handed over, and what is on the way. *)
Definition handed (ev : netEvent) : list (edPub * list byte) := match ev with NetRecv from data => [(from, data)] | _ => [] end.
Definition on_the_way (m : netManager) : list (edPub * list byte) :=
  from_option data_of [] (nm_readCh m) ++ concat (map data_of (nm_reader m)).

(** What the calls of [ReadFrom] returned that did not fail: the length of the
    buffer, the bytes in it, their number and the address. *)
Definition returned (ev : netEvent) : list (nat * (list byte * Z * list byte)) :=
  match ev with NetReturn room (inr res) => [(room, res)] | _ => [] end.

(** A call gets the data and the sender's address, cut to its own buffer. *)
Definition reads (sent : edPub * list byte) (call : nat * (list byte * Z * list byte)) : Prop :=
  let '(from, data) := sent in let '(room, (bs, n, addr)) := call in
  addr = arr_list from /\ n = Z.of_nat (length bs) /\ bs = take room data /\ ((length data <= room)%nat -> bs = data).

Lemma readResult_reads room info : Forall2 reads (data_of info) (returned (NetReturn room (enc_readResult room info))).
Proof.
  unfold enc_readResult, data_of, returned. destruct (nr_err info); [constructor|]. constructor; [|constructor]. unfold reads. cbv zeta.
  assert ((if (room <? length (nr_data info))%nat then room else length (nr_data info)) = Nat.min room (length (nr_data info))) as ->.
  { destruct (Nat.ltb_spec room (length (nr_data info))); lia. }
  rewrite <- take_take, (take_ge (nr_data info)) by done.
  split_and!; [done| |done|intros Hl; by apply take_ge].
  by rewrite length_take.
Qed.

Ltac net_cases Hs := inversion Hs as [? rest Hin|? rest r isClosed ? out Hin Hl|? b ? Hd|? from data|?|? n room info Hn Hc]; subst; clear Hs.

(** The outcomes of the steps that branch. *)
Lemma deliver_cases b m m' : reader_deliver b m = Some m' ->
  exists info rest, nm_reader m = info :: rest /\ nm_reader m' = rest /\
    (nm_readCh m = None /\ nm_readCh m' = Some info \/ nm_closed m = true /\ nm_readCh m' = nm_readCh m) /\
    nm_inbox m' = nm_inbox m /\ nm_closed m' = nm_closed m /\ nm_running m' = nm_running m /\ nm_readers m' = nm_readers m.
Proof.
  unfold reader_deliver. intros H. destruct (nm_reader m) as [|info rest] eqn:Er; [done|]. exists info, rest.
  destruct (nm_readCh m) as [i|] eqn:Ec.
  - destruct (nm_closed m) eqn:Ecl; [|done]. injection H as <-. split_and!; try done. by right.
  - destruct (nm_closed m && b) eqn:Ecl; injection H as <-; (split_and!; try done); [right|by left].
    by apply andb_true_iff in Ecl as [-> _].
Qed.

Lemma loop_cases rest r isClosed m m' out : read_loop rest r isClosed m = Some (m', out) ->
  nm_reader m' = nm_reader m /\ nm_readers m' = nm_readers m /\
  ((exists tr, r = Ret tr) /\ nm_inbox m' = rest ++ [NetLoop] /\ nm_readCh m' = nm_readCh m /\ nm_closed m' = nm_closed m /\ nm_running m' = nm_running m \/
   (exists e, r = Fail e /\ nm_inbox m' = rest /\ nm_closed m' = nm_closed m || isClosed /\ nm_running m' = false /\
      (nm_readCh m <> None /\ nm_readCh m' = nm_readCh m \/ nm_readCh m = None /\ nm_readCh m' = Some (MkRead (zero_array edPubSize) [] (Some e))))).
Proof.
  unfold read_loop. destruct r as [tr|e|]; [| |done].
  - destruct (readResult _ tr) as [[msg n] from]. intros [= <- <-]. split_and!; try done. left. split_and!; try done. by exists tr.
  - intros [= <- <-]. split_and!; try done. right. exists e. split_and!; try done. destruct (nm_readCh m); [by left|by right].
Qed.

Lemma way_step m ev m' : net_step m ev m' -> nm_closed m' = false ->
  (exists l, Forall2 reads l (returned ev) /\ on_the_way m ++ handed ev = l ++ on_the_way m') /\ nm_closed m = false.
Proof.
  intros Hs. unfold on_the_way. net_cases Hs; intros Hc'; cbn [handed].
  - split; [exists []; split; [constructor|]|]; unfold read_start in *; destruct (nm_running m); by rewrite ?app_nil_r.
  - apply loop_cases in Hl as (E1 & _ & [(_ & _ & E2 & E3 & _)|(e & -> & _ & E3 & _ & E2)]).
    + split; [|congruence]. exists []. split; [constructor|]. by rewrite app_nil_r, E1, E2.
    + rewrite E3 in Hc'. apply orb_false_iff in Hc' as [Hc' _]. split; [|done]. exists []. split; [constructor|].
      rewrite app_nil_r, E1. by destruct E2 as [[_ ->]|[-> ->]].
  - apply deliver_cases in Hd as (info & rest & E1 & E2 & E3 & _ & E4 & _). split; [|congruence]. exists []. split; [constructor|].
    rewrite app_nil_r, E1, E2. destruct E3 as [[-> ->]|[E _]]; [done|congruence].
  - split; [|done]. exists []. split; [constructor|]. cbn. by rewrite map_app, concat_app, app_assoc.
  - split; [|done]. exists []. split; [constructor|]. by rewrite app_nil_r.
  - split; [|done]. exists (data_of info). split; [apply readResult_reads|]. rewrite Hc, app_nil_r. by cbn.
Qed.

(** C27: until the connection is closed, the calls of [ReadFrom] see a first-in
    first-out queue: what the sessions hand over is what the calls that did not
    fail were given, one piece per call, in order and with none lost or doubled,
    followed by what is still on the way. Each call returns the sender's key as
    address, and the data cut to its own buffer with the number of bytes that are
    in it, so a call whose buffer is long enough gets the data unchanged. *)
Theorem reads_are_a_queue evs m : net_run netManager_init evs m -> nm_closed m = false ->
  exists given, concat (map handed evs) = given ++ on_the_way m /\ Forall2 reads given (concat (map returned evs)).
Proof.
  assert (forall m0, net_run m0 evs m -> nm_closed m = false ->
    (exists given, on_the_way m0 ++ concat (map handed evs) = given ++ on_the_way m /\ Forall2 reads given (concat (map returned evs))) /\
    nm_closed m0 = false) as Hgen.
  { intros m0 Hr Hc. induction Hr as [m0|m0 ev m1 evs m2 Hs Hr IH].
    - split; [|done]. exists []. split; [by rewrite app_nil_r|constructor].
    - destruct (IH Hc) as [(given & E & Hg) Hc1]. destruct (way_step _ _ _ Hs Hc1) as [(l & Hl & E1) Hc0]. split; [|done].
      exists (l ++ given). cbn [map concat]. split; [by rewrite app_assoc, E1, <- !app_assoc, E|by apply Forall2_app]. }
  intros Hr Hc. by destruct (Hgen _ Hr Hc) as [E _].
Qed.

Lemma reads_are_a_queue_witness :
  let z := zero_array edPubSize in let evs :=
    [NetCall; NetRecv z [Byte.x01; Byte.x02]; NetRecv z [Byte.x03]; NetDeliver; NetReturn 1 (inr ([Byte.x01], 1, arr_list z))] in
  exists m, net_run netManager_init evs m /\ on_the_way m = [(z, [Byte.x03])] /\
    exists given, concat (map handed evs) = given ++ on_the_way m /\ Forall2 reads given (concat (map returned evs)).
Proof.
  intros z evs. eexists. match goal with |- ?P /\ _ => assert P as Hr end.
  { eapply net_cons; [apply net_call|]. eapply net_cons; [apply net_recv|]. eapply net_cons; [apply net_recv|].
    eapply net_cons; [by eapply (net_deliver _ false)|]. eapply net_cons; [|apply net_nil].
    refine (net_return _ 0 1 (MkRead z [Byte.x01; Byte.x02] None) _ _); reflexivity. }
  split; [exact Hr|]. split; [reflexivity|]. exact (reads_are_a_queue _ _ Hr eq_refl).
Defined.

(** ** A single reader *)

(** Rounds of the loop in the inbox, and what the manager has to do when every
    round ends the loop. *)
Definition is_loop (x : netMsg) : nat := match x with NetLoop => 1 | NetStart => 0 end.
Definition loops (l : list netMsg) : nat := sum_list_with is_loop l.
Definition cost (x : netMsg) : nat := match x with NetLoop => 1 | NetStart => 2 end.
Definition work (l : list netMsg) : nat := sum_list_with cost l.
#[local] Arguments loops : simpl never.
#[local] Arguments work : simpl never.

(** Calls of [ReadFrom] follow one another. *)
Fixpoint one_at_a_time (waiting : bool) (evs : list netEvent) : bool :=
  match evs with
  | [] => true
  | NetCall :: evs => negb waiting && one_at_a_time true evs
  | NetReturn _ _ :: evs => one_at_a_time false evs
  | _ :: evs => one_at_a_time waiting evs
  end.

(** The loop runs when [running] says so, and one that waits for an empty channel
    has something to wait for. *)
Definition net_ok (m : netManager) : Prop :=
  loops (nm_inbox m) = Nat.b2n (nm_running m) /\ (nm_readers m <= 1)%nat /\
  (nm_readers m = 1%nat -> nm_readCh m = None -> nm_inbox m <> []).

Lemma loops_cons x l : loops (x :: l) = (is_loop x + loops l)%nat.
Proof. done. Qed.
Lemma loops_snoc l x : loops (l ++ [x]) = (loops l + is_loop x)%nat.
Proof. unfold loops. rewrite sum_list_with_app. cbn. lia. Qed.
Lemma work_cons x l : work (x :: l) = (cost x + work l)%nat.
Proof. done. Qed.
Lemma work_snoc l x : work (l ++ [x]) = (work l + cost x)%nat.
Proof. unfold work. rewrite sum_list_with_app. cbn. lia. Qed.

Lemma snoc_nonempty {A} (l : list A) x : l ++ [x] <> [].
Proof. by destruct l. Qed.

Lemma ok_handle m rest : nm_inbox m = NetStart :: rest -> net_ok m -> net_ok (read_start rest m).
Proof.
  intros Hin (Hl & Hle & Hw). rewrite Hin, loops_cons in Hl. cbn in Hl. unfold read_start, net_ok. destruct (nm_running m) eqn:Erun; cbn.
  - split_and!; [done|done|]. intros _ _ ->. done.
  - rewrite loops_snoc. split_and!; [cbn in *; lia|done|]. intros _ _. apply snoc_nonempty.
Qed.

Lemma ok_inner m rest r isClosed m' out : nm_inbox m = NetLoop :: rest -> read_loop rest r isClosed m = Some (m', out) -> net_ok m -> net_ok m'.
Proof.
  intros Hin Hr (Hl & Hle & Hw). rewrite Hin in Hl. apply loop_cases in Hr as (_ & E2 & Hc). unfold net_ok. rewrite E2.
  rewrite loops_cons in Hl. cbn in Hl. assert (nm_running m = true) as Erun by (destruct (nm_running m); [done|cbn in Hl; lia]).
  rewrite Erun in Hl. cbn in Hl. destruct Hc as [(_ & E3 & _ & _ & E4)|(e & _ & E3 & _ & E4 & E5)]; rewrite E3, E4, ?Erun.
  - rewrite loops_snoc. split_and!; [cbn; lia|done|]. intros _ _. apply snoc_nonempty.
  - split_and!; [cbn; lia|done|]. intros _ E. destruct E5 as [[E5 E6]|[_ E6]]; congruence.
Qed.

Lemma ok_step m ev m' waiting evs : net_step m ev m' -> net_ok m -> nm_readers m = Nat.b2n waiting ->
  one_at_a_time waiting (ev :: evs) = true ->
  net_ok m' /\ exists waiting', nm_readers m' = Nat.b2n waiting' /\ one_at_a_time waiting' evs = true.
Proof.
  intros Hs Hok Hr. net_cases Hs; cbn [one_at_a_time]; intros Ho.
  - split; [by apply ok_handle|]. exists waiting. unfold read_start. by destruct (nm_running m).
  - split; [by eapply ok_inner|]. exists waiting. apply loop_cases in Hl as (_ & -> & _). done.
  - apply deliver_cases in Hd as (info & rest & _ & _ & E3 & E4 & E5 & E6 & E7). destruct Hok as (Hl & Hle & Hw). unfold net_ok.
    rewrite E4, E6, E7. split; [split_and!; try done|by exists waiting]. intros Hr1 E. apply Hw; [done|]. destruct E3 as [[E3 _]|[_ E3]]; congruence.
  - split; [|by exists waiting]. exact Hok.
  - apply andb_true_iff in Ho as [Hw Ho]. destruct waiting; [done|]. cbn in Hr. destruct Hok as (Hl & Hle & _). unfold net_ok. cbn. rewrite Hr.
    split; [|by exists true]. rewrite loops_snoc. split_and!; [cbn; lia|lia|]. intros _ _. apply snoc_nonempty.
  - destruct Hok as (Hl & Hle & _). assert (n = 0)%nat as -> by lia. split; [|by exists false]. split_and!; [done|cbn; lia|done].
Qed.

Lemma ok_run m evs m' : net_run m evs m' -> forall waiting, net_ok m -> nm_readers m = Nat.b2n waiting -> one_at_a_time waiting evs = true -> net_ok m'.
Proof.
  induction 1 as [m|m ev m1 evs m2 Hs Hr IH]; intros waiting Hok Hw Ho; [done|].
  destruct (ok_step _ _ _ _ _ Hs Hok Hw Ho) as (Hok1 & w' & Hw' & Ho'). by apply (IH w').
Qed.

(** Steps after the inner connection was closed, while the call waits. *)
Definition closing (ev : netEvent) : bool :=
  match ev with NetHandle | NetDeliver | NetInner (Fail ErrClosed) true None => true | _ => false end.
Definition by_manager (ev : netEvent) : bool := match ev with NetHandle | NetInner _ _ _ => true | _ => false end.

Lemma closing_step m ev m' : net_step m ev m' -> closing ev = true ->
  (work (nm_inbox m') + (if by_manager ev then 1 else 0) <= work (nm_inbox m))%nat /\ nm_readers m' = nm_readers m /\
  (net_ok m -> net_ok m').
Proof.
  intros Hs Hcl. net_cases Hs; try done.
  - rewrite Hin. split_and!; [|unfold read_start; by destruct (nm_running m)|by apply ok_handle].
    unfold read_start. destruct (nm_running m); cbn [nm_inbox by_manager]; [|rewrite work_snoc]; rewrite work_cons; cbn; lia.
  - rewrite Hin. destruct r as [tr|e|]; try done. destruct (loop_cases _ _ _ _ _ _ Hl) as (_ & E2 & [([tr ?] & _)|(e' & _ & E3 & _)]); [done|].
    split_and!; [rewrite E3, work_cons; cbn; lia|done|by eapply ok_inner].
  - apply deliver_cases in Hd as (info & rest & _ & _ & E3 & E4 & E5 & E6 & E7). unfold net_ok. rewrite E4, E6, E7. split_and!; [cbn; lia|done|].
    intros (Hl & Hle & Hw). split_and!; try done. intros Hr E. apply Hw; [done|]. destruct E3 as [[E3 _]|[_ E3]]; congruence.
Qed.

(** The manager can always go on. *)
Lemma manager_goes_on m : nm_inbox m <> [] -> exists ev m', closing ev = true /\ by_manager ev = true /\ net_step m ev m'.
Proof.
  intros Hne. destruct (nm_inbox m) as [|[|] rest] eqn:E; [done| |].
  - exists NetHandle. eexists. split_and!; [done|done|]. by apply net_handle.
  - exists (NetInner (Fail ErrClosed) true None). eexists. split_and!; [done|done|]. eapply net_inner; [done|reflexivity].
Qed.

Lemma closing_run m evs m' : net_run m evs m' -> forallb closing evs = true -> net_ok m ->
  (length (List.filter by_manager evs) + work (nm_inbox m') <= work (nm_inbox m))%nat /\ nm_readers m' = nm_readers m /\ net_ok m'.
Proof.
  induction 1 as [m|m ev m1 evs m2 Hs Hr IH]; intros Hc Hok; [by split_and!|]. cbn in Hc. apply andb_true_iff in Hc as [Hc Hcs].
  destruct (closing_step _ _ _ Hs Hc) as (H1 & H2 & H3). destruct (IH Hcs (H3 Hok)) as (H4 & H5 & H6). cbn [List.filter].
  split_and!; [destruct (by_manager ev); cbn [length]; lia|congruence|done].
Qed.

Lemma closing_ends n : forall m, net_ok m -> nm_readers m = 1%nat -> (work (nm_inbox m) <= n)%nat ->
  exists evs m' info, forallb closing evs = true /\ net_run m evs m' /\ nm_readCh m' = Some info.
Proof.
  induction n as [|n IH]; intros m Hok Hr Hn; (destruct (nm_readCh m) as [info|] eqn:Ec; [exists [], m, info; split_and!; [done|constructor|done]|]);
    destruct Hok as (Hl & Hle & Hw); pose proof (Hw Hr Ec) as Hne; destruct (manager_goes_on m Hne) as (ev & m1 & Hc & Hb & Hs);
    destruct (closing_step _ _ _ Hs Hc) as (H1 & H2 & H3); rewrite Hb in H1; [lia|].
  destruct (IH m1) as (evs & m' & info & Hcs & Hrun & Hi); [by apply H3; split_and!|congruence|lia|].
  exists (ev :: evs), m', info. split_and!; [cbn; by rewrite Hc|by econstructor|done].
Qed.

(** A single reader never waits forever. When calls of [ReadFrom] follow one
    another, then after the inner connection is closed the manager comes to rest
    after boundedly many steps of its own, however the other steps interleave,
    and as long as the channel is empty it is not at rest: the waiting call gets
    an entry of the channel. *)
Theorem closed_read_returns evs m : net_run netManager_init evs m -> one_at_a_time false evs = true -> nm_readers m = 1%nat ->
  (forall evs' m', net_run m evs' m' -> forallb closing evs' = true ->
     (length (List.filter by_manager evs') <= work (nm_inbox m))%nat /\
     (nm_readCh m' = None -> exists ev m'', closing ev = true /\ by_manager ev = true /\ net_step m' ev m'')) /\
  exists evs' m' info, forallb closing evs' = true /\ net_run m evs' m' /\ nm_readCh m' = Some info /\
    forall room, exists m'', net_step m' (NetReturn room (enc_readResult room info)) m'' /\ nm_readers m'' = 0%nat.
Proof.
  intros Hr Ho H1. assert (net_ok m) as Hok by (apply (ok_run _ _ _ Hr false); [split_and!; [done|cbn; lia|done]|done|done]). split.
  - intros evs' m' Hr' Hc. destruct (closing_run _ _ _ Hr' Hc Hok) as (Hn & Hrd & (_ & _ & Hw)). split; [lia|].
    intros E. apply manager_goes_on, Hw; [congruence|done].
  - destruct (closing_ends _ m Hok H1 (le_n _)) as (evs' & m' & info & Hc & Hr' & Hi). exists evs', m', info. split_and!; try done.
    destruct (closing_run _ _ _ Hr' Hc Hok) as (_ & Hrd & _). intros room. eexists. split; [eapply net_return; [|exact Hi]; by rewrite Hrd, H1|done].
Qed.

(** ** Several readers, deadlines and closing *)

(** Two calls of [ReadFrom] may wait when the connection is closed; the loop
    reports the error once and ends, one call gets it, and the other waits with
    every actor at rest: only another call, or data, could make a step. *)
Lemma second_reader_hangs : exists evs m,
  evs = [NetCall; NetCall; NetHandle; NetHandle; NetInner (Fail ErrClosed) true None; NetReturn 0 (inl ErrClosed)] /\
  net_run netManager_init evs m /\ nm_readers m = 1%nat /\ nm_closed m = true /\
  forall ev m', net_step m ev m' -> ev = NetCall \/ exists from data, ev = NetRecv from data.
Proof.
  do 2 eexists. split; [reflexivity|]. split_and!.
  - eapply net_cons; [apply net_call|]. eapply net_cons; [apply net_call|]. eapply net_cons; [by apply net_handle|].
    eapply net_cons; [by apply net_handle|]. eapply net_cons; [by eapply net_inner|]. eapply net_cons; [|apply net_nil].
    refine (net_return _ 1 0 (MkRead (zero_array edPubSize) [] (Some ErrClosed)) _ _); reflexivity.
  - done.
  - done.
  - intros ev m' Hs. net_cases Hs; try done; [by right; do 2 eexists|by left].
Qed.

(** The end of a read deadline between two calls is reported to the next call,
    also when the deadline was set anew before. *)
Lemma late_timeout from data tr room : exists m m' out,
  net_run netManager_init [NetCall; NetHandle; NetInner (Ret tr) false out; NetRecv from data; NetDeliver; NetReturn room (enc_readResult room (MkRead from data None))] m /\
  nm_readers m = 0%nat /\
  net_run m [NetInner (Fail ErrTimeout) false None; NetCall; NetReturn room (inl ErrTimeout)] m'.
Proof.
  do 3 eexists. split_and!.
  - eapply net_cons; [apply net_call|]. eapply net_cons; [by apply net_handle|]. eapply net_cons; [by eapply net_inner|].
    eapply net_cons; [apply net_recv|]. eapply net_cons; [by eapply (net_deliver _ false)|]. eapply net_cons; [by eapply net_return|]. apply net_nil.
  - done.
  - eapply net_cons; [by eapply net_inner|]. eapply net_cons; [apply net_call|]. eapply net_cons; [|apply net_nil].
    refine (net_return _ 0 room (MkRead (zero_array edPubSize) [] (Some ErrTimeout)) _ _); reflexivity.
Qed.

(** [WriteTo] only sees that the connection is closed after a read has. *)
Lemma closed_needs_read m0 evs m : net_run m0 evs m -> nm_closed m0 = false -> nm_closed m = true ->
  exists e out, NetInner (Fail e) true out ∈ evs.
Proof.
  induction 1 as [m0|m0 ev m1 evs m2 Hs Hr IH]; intros H0 Hm; [congruence|].
  destruct (nm_closed m1) eqn:E1; [|destruct (IH eq_refl Hm) as (e & out & Hin); exists e, out; by right].
  net_cases Hs; cbn in *; try congruence.
  - unfold read_start in E1. by destruct (nm_running m0); cbn in E1; congruence.
  - apply loop_cases in Hl as (_ & _ & [(_ & _ & _ & E & _)|(e & -> & _ & E & _)]); [congruence|]. rewrite E1, H0 in E. cbn in E. subst.
    exists e, out. by left.
  - apply deliver_cases in Hd as (? & ? & _ & _ & _ & _ & E & _). congruence.
Qed.
