(* ===== verification/Multicast.v ===== *)
(** * Discovery of nodes on the local network

    [src/multicast/multicast.go], [advertisement.go] and [options.go]: the beacons
    that a node sends on its interfaces, the listeners that it keeps for them, and
    the peers that it calls when it hears a beacon.

    The operating system, [core.ListenLocal] and the sockets are an environment,
    [mcEnv]; what a round does to them are effects. The names of interfaces are
    the keys of the maps. *)

From Stdlib Require Import Ascii String.
From stdpp Require Import pretty.
From S2P Require Import Prelude Crypto Binary RouterState Version Handshake LinkOptions.

(** ** Advertisements *)

Record multicastAdvertisement := MkAdv {
  adv_MajorVersion : Z; adv_MinorVersion : Z; adv_PublicKey : list byte; adv_Port : Z; adv_Hash : list byte
}.

Definition adv_MarshalBinary (m : multicastAdvertisement) : list byte :=
  be_bytes 2 (adv_MajorVersion m) ++ be_bytes 2 (adv_MinorVersion m) ++ adv_PublicKey m ++ be_bytes 2 (adv_Port m) ++
  be_bytes 2 (Z.of_nat (length (adv_Hash m))) ++ adv_Hash m.

(** [b[i:j]] *)
Definition subslice (b : list byte) (i j : nat) : list byte := take (j - i) (drop i b).

(** [None] is the error "invalid multicast beacon". *)
Definition adv_UnmarshalBinary (b : list byte) : option multicastAdvertisement :=
  let headerLen := (publicKeySize + 8)%nat in
  if (length b <? headerLen)%nat then None
  else
    let dl := Z.to_nat (be_val (subslice b (6 + publicKeySize) (8 + publicKeySize))) in
    if (length b <? headerLen + dl)%nat then None
    else Some (MkAdv (be_val (subslice b 0 2)) (be_val (subslice b 2 4)) (subslice b 4 (4 + publicKeySize))
                (be_val (subslice b (4 + publicKeySize) (6 + publicKeySize))) (subslice b headerLen (headerLen + dl))).

(** ** Interfaces *)

Record MulticastInterface := MkMI {
  mi_Regex : string; mi_Beacon : bool; mi_Listen : bool; mi_Port : Z; mi_Priority : Z; mi_Password : string
}.

Abbreviation IP := (list byte).

(** [net.Interface], with the flags the code looks at. *)
Record netInterface := MkIface { if_Name : string; if_Up : bool; if_Running : bool; if_Multicast : bool; if_PointToPoint : bool }.

Record interfaceInfo := MkInterface {
  ii_addrs : list IP; ii_beacon : bool; ii_listen : bool; ii_port : Z; ii_priority : Z; ii_password : list byte; ii_hash : list byte
}.

(** The [interval] and [time] are in nanoseconds. *)
Record listenerInfo := MkListener { li_listener : nat; li_time : Z; li_interval : Z; li_port : Z }.

(** [timer] is [Some true] while it is pending, [Some false] when it was stopped
    or has fired. *)
Record multicast := MkMulticast {
  mc_running : bool;
  mc_listeners : gmap string listenerInfo;
  mc_interfaces : gmap string interfaceInfo;
  mc_timer : option bool;
  mc_config : list MulticastInterface
}.

Definition set_mc_running v (m : multicast) := MkMulticast v (mc_listeners m) (mc_interfaces m) (mc_timer m) (mc_config m).
Definition set_mc_listeners f (m : multicast) := MkMulticast (mc_running m) (f (mc_listeners m)) (mc_interfaces m) (mc_timer m) (mc_config m).
Definition set_mc_interfaces v (m : multicast) := MkMulticast (mc_running m) (mc_listeners m) v (mc_timer m) (mc_config m).
Definition set_mc_timer v (m : multicast) := MkMulticast (mc_running m) (mc_listeners m) (mc_interfaces m) v (mc_config m).

(** [net.IP]: [To4() != nil], [IsLinkLocalUnicast], [IsLinkLocalMulticast], [Equal]. *)
Definition v4_prefix : list byte := replicate 10 Byte.x00 ++ [Byte.xff; Byte.xff].
Definition To4 (ip : IP) : option (list byte) :=
  if (length ip =? 4)%nat then Some ip
  else if (length ip =? 16)%nat && bool_decide (take 12 ip = v4_prefix) then Some (drop 12 ip)
  else None.
Definition ip_byte (ip : IP) (i : nat) : Z := b2z (default Byte.x00 (ip !! i)).
Definition IsLinkLocalUnicast (ip : IP) : bool :=
  match To4 ip with
  | Some ip4 => (ip_byte ip4 0 =? 169) && (ip_byte ip4 1 =? 254)
  | None => (length ip =? 16)%nat && (ip_byte ip 0 =? 254) && (Z.land (ip_byte ip 1) 192 =? 128)
  end.
Definition IsLinkLocalMulticast (ip : IP) : bool :=
  match To4 ip with
  | Some ip4 => (ip_byte ip4 0 =? 224) && (ip_byte ip4 1 =? 0) && (ip_byte ip4 2 =? 0)
  | None => (length ip =? 16)%nat && (ip_byte ip 0 =? 255) && (Z.land (ip_byte ip 1) 15 =? 2)
  end.
Definition IP_Equal (a b : IP) : bool :=
  if (length a =? length b)%nat then bool_decide (a = b)
  else if (length a =? 4)%nat && (length b =? 16)%nat then bool_decide (take 12 b = v4_prefix) && bool_decide (a = drop 12 b)
  else if (length a =? 16)%nat && (length b =? 4)%nat then bool_decide (take 12 a = v4_prefix) && bool_decide (drop 12 a = b)
  else false.

(** Strings of package [net] and of package [regexp]. *)
Class NetStrings := {
  IP_String : IP -> string;
  MatchString : string -> string -> bool
}.

Fixpoint has_colon (s : string) : bool :=
  match s with EmptyString => false | String a s => Ascii.eqb a ":" || has_colon s end.
Definition JoinHostPort (host port : string) : string :=
  if has_colon host then ("[" ++ host ++ "]:" ++ port)%string else (host ++ ":" ++ port)%string.

(** [net.UDPAddr.String] *)
Definition UDPAddr_String `{NetStrings} (ip : IP) (port : Z) (zone : string) : string :=
  let host := match ip with [] => EmptyString | _ => IP_String ip end in
  JoinHostPort (if String.eqb zone "" then host else (host ++ "%" ++ zone)%string) (pretty port).

Definition bytes_string (l : list byte) : string :=
  fold_right (fun b s => String (ascii_of_N (Z.to_N (b2z b))) s) EmptyString l.

(** [hex.EncodeToString] *)
Definition hex_char (n : Z) : ascii := ascii_of_N (Z.to_N (if n <? 10 then 48 + n else 87 + n)).
Fixpoint hex_EncodeToString (l : list byte) : string :=
  match l with
  | [] => EmptyString
  | b :: l => String (hex_char (b2z b / 16)) (String (hex_char (b2z b mod 16)) (hex_EncodeToString l))
  end.

(** What a round finds: the interfaces and their addresses, [None] where an
    address does not parse; the order in which the configuration is gone through
    for an interface; the result of [ListenLocal]; the address and port of a
    listener. *)
Record mcEnv := MkEnv {
  en_now : Z;
  en_ifaces : option (list netInterface);
  en_addrs : string -> option (list (option IP));
  en_order : string -> list MulticastInterface;
  en_listen : url -> string -> option nat;
  en_addr : nat -> option IP;
  en_port : nat -> Z
}.

Inductive mcEffect :=
| McJoinGroup (iface : string)
| McListenLocal (u : url) (sintf : string)
| McCancel (listener : nat)
| McWriteTo (msg : list byte) (zone : string)
| McAfterFunc
| McCallPeer (u : url) (sintf : string)
| McListen
| McClose.

Abbreviation C_ := (Act multicast mcEffect).
Abbreviation cret a := (mret (M := Act multicast mcEffect) a) (only parsing).
Abbreviation cgets f := (act_gets (S := multicast) (E := mcEffect) f).
Abbreviation cmodify f := (act_modify (S := multicast) (E := mcEffect) f).
Abbreviation cemit e := (act_emit (S := multicast) (E := mcEffect) e).

Section multicast.
Context `{Blake2b} `{NetStrings} `{MapOrder} (pk : list byte).

(** The query of a URL, in the order of its encoding. *)
Definition mc_url (host : string) (query : list (string * string)) : url := MkUrl "tls" host query "".

(** The hash for a key under a password. *)
Definition mc_hash (password key : list byte) : option (list byte) :=
  match blake2b_New512 password with
  | None => None
  | Some sum => if negb (length key =? publicKeySize)%nat then None else Some (arr_list (sum key))
  end.

Fixpoint choose_config (cfgs : list MulticastInterface) (name : string) : option interfaceInfo :=
  match cfgs with
  | [] => None
  | ifcfg :: cfgs =>
      if negb (mi_Beacon ifcfg) && negb (mi_Listen ifcfg) then choose_config cfgs name
      else if negb (MatchString (mi_Regex ifcfg) name) then choose_config cfgs name
      else
        match mc_hash (string_bytes (mi_Password ifcfg)) pk with
        | None => choose_config cfgs name
        | Some hash =>
            Some (MkInterface [] (mi_Beacon ifcfg) (mi_Listen ifcfg) (mi_Port ifcfg) (mi_Priority ifcfg)
                    (string_bytes (mi_Password ifcfg)) hash)
        end
  end.

Definition getAllowedInterfaces (env : mcEnv) : gmap string interfaceInfo :=
  match en_ifaces env with
  | None => ∅
  | Some allifaces =>
      fold_left (fun interfaces iface =>
        if negb (if_Up iface) then interfaces
        else if negb (if_Running iface) then interfaces
        else if negb (if_Multicast iface) then interfaces
        else if if_PointToPoint iface then interfaces
        else match choose_config (en_order env (if_Name iface)) (if_Name iface) with
             | None => interfaces
             | Some info => <[if_Name iface := info]> interfaces
             end) allifaces ∅
  end.

(** The test of an address, which occurs twice. *)
Definition usable (addr : option IP) : option IP :=
  match addr with
  | None => None
  | Some ip => if match To4 ip with Some _ => true | None => false end || negb (IsLinkLocalUnicast ip) then None else Some ip
  end.

Definition updateInterfaces (env : mcEnv) : C_ unit :=
  cmodify (set_mc_interfaces (map_imap (fun name info =>
    match en_addrs env name with
    | None => None
    | Some addrs =>
        Some (MkInterface (ii_addrs info ++ omap usable addrs) (ii_beacon info) (ii_listen info) (ii_port info) (ii_priority info)
                (ii_password info) (ii_hash info))
    end) (getAllowedInterfaces env))).

(** The first loop of [_announce]: listeners of interfaces that are gone, or that
    have lost the address of the listener. *)
Definition stop_listener (name : string) (info : listenerInfo) : C_ unit :=
  _ ← cemit (McCancel (li_listener info));
  cmodify (set_mc_listeners (delete name)).
Definition check_listener (env : mcEnv) (name : string) : C_ unit :=
  m ← cgets (fun m => m);
  match mc_listeners m !! name with
  | None => cret tt
  | Some info =>
      match mc_interfaces m !! name with
      | None => stop_listener name info
      | Some intf =>
          match en_addr env (li_listener info) with
          | None => stop_listener name info
          | Some listenaddr =>
              if existsb (fun ip => IP_Equal ip listenaddr) (ii_addrs intf) then cret tt
              else stop_listener name info
          end
      end
  end.

(** The listener of an interface, started when there is none. *)
Definition listener_for (env : mcEnv) (name : string) (info : interfaceInfo) (addrIP : IP) : C_ (option listenerInfo) :=
  listeners ← cgets mc_listeners;
  match listeners !! name with
  | Some linfo => cret (Some linfo)
  | None =>
      let u := mc_url (JoinHostPort (IP_String addrIP) (pretty (ii_port info)))
                 [("password"%string, bytes_string (ii_password info)); ("priority"%string, pretty (ii_priority info))] in
      _ ← cemit (McListenLocal u name);
      match en_listen env u name with
      | Some li =>
          let linfo := MkListener li (en_now env) 0 (ii_port info) in
          _ ← cmodify (set_mc_listeners (insert name linfo));
          cret (Some linfo)
      | None => cret None
      end
  end.

Definition own_adv (env : mcEnv) (linfo : listenerInfo) (info : interfaceInfo) : multicastAdvertisement :=
  MkAdv ProtocolVersionMajor ProtocolVersionMinor pk (en_port env (li_listener linfo) mod 2 ^ 16) (ii_hash info).

(** The loop over the addresses of an interface. *)
Fixpoint announce_addrs (env : mcEnv) (name : string) (info : interfaceInfo) (addrs : list IP) : C_ unit :=
  match addrs with
  | [] => cret tt
  | addr :: addrs =>
      match usable (Some addr) with
      | None => announce_addrs env name info addrs
      | Some addrIP =>
          _ ← (if ii_listen info then cemit (McJoinGroup name) else cret tt);
          if negb (ii_beacon info) then cret tt
          else
            linfo ← listener_for env name info addrIP;
            match linfo with
            | None => announce_addrs env name info addrs
            | Some linfo =>
                if en_now env - li_time linfo <? li_interval linfo then announce_addrs env name info addrs
                else
                  _ ← cemit (McWriteTo (adv_MarshalBinary (own_adv env linfo info)) name);
                  let interval := if li_interval linfo <? 15 * Second then li_interval linfo + Second else li_interval linfo in
                  cmodify (set_mc_listeners (insert name (MkListener (li_listener linfo) (en_now env) interval (li_port linfo))))
            end
      end
  end.

Definition announce (env : mcEnv) : C_ unit :=
  running ← cgets mc_running;
  if negb running then cret tt
  else
    _ ← updateInterfaces env;
    listeners ← cgets mc_listeners;
    _ ← act_for (map_order (dom listeners)) (check_listener env);
    interfaces ← cgets mc_interfaces;
    _ ← act_for (map_order (dom interfaces)) (fun name =>
          match interfaces !! name with Some info => announce_addrs env name info (ii_addrs info) | None => cret tt end);
    _ ← cemit McAfterFunc;
    cmodify (set_mc_timer (Some true)).

(** ** Start, stop and [AnnounceNow] *)

Inductive startError := AlreadyStarted | NetworkError.

(** [resolved] and [bound]: whether the group address parses and the socket
    opens. The result says what was posted to the actor. *)
Definition start (resolved bound : bool) : C_ (option startError * bool) :=
  m ← cgets (fun m => m);
  if mc_running m then cret (Some AlreadyStarted, false)
  else
    _ ← cmodify (set_mc_running true);
    if negb (existsb (fun intf => mi_Beacon intf || mi_Listen intf) (mc_config m)) then
      _ ← cmodify (set_mc_running false); cret (None, false)
    else if negb resolved then _ ← cmodify (set_mc_running false); cret (Some NetworkError, false)
    else if negb bound then _ ← cmodify (set_mc_running false); cret (Some NetworkError, false)
    else _ ← cemit McListen; cret (None, true).

Definition stop : C_ unit :=
  running ← cgets mc_running;
  if negb running then cret tt
  else
    _ ← cmodify (set_mc_running false);
    cemit McClose.

(** The actor's messages, and what [AnnounceNow] makes the actor do: [None] when
    it waits for the channel of the timer, which is nil, for ever. *)
Inductive mcMsg := MsgAnnounce | MsgAnnounceNow | MsgStop.
Definition announce_now (m : multicast) : option multicast :=
  match mc_timer m with
  | None => Some m
  | Some pending => if pending then Some (set_mc_timer (Some false) m) else None
  end.

(** ** Receiving *)

(** The address that the configured group resolves to. *)
Context (groupAddr : IP).

(** [dst]: the destination of the packet when it is known; [from]: address and
    zone of the sender, when it is a [net.UDPAddr]. *)
Definition mc_receive (dst : option IP) (bs : list byte) (from : option (IP * string)) : C_ unit :=
  if match dst with Some dst => negb (IsLinkLocalMulticast dst) | None => false end then cret tt
  else if match dst with Some dst => negb (IP_Equal dst groupAddr) | None => false end then cret tt
  else
    match adv_UnmarshalBinary bs with
    | None => cret tt
    | Some adv =>
        if negb (adv_MajorVersion adv =? ProtocolVersionMajor) then cret tt
        else if negb (adv_MinorVersion adv =? ProtocolVersionMinor) then cret tt
        else if bool_decide (adv_PublicKey adv = pk) then cret tt
        else
          match from with
          | None => cret tt
          | Some (ip, zone) =>
              interfaces ← cgets mc_interfaces;
              match interfaces !! zone with
              | None => cret tt
              | Some info =>
                  if negb (ii_listen info) then cret tt
                  else
                    match mc_hash (ii_password info) (adv_PublicKey adv) with
                    | None => cret tt
                    | Some hash =>
                        if negb (bool_decide (hash = adv_Hash adv)) then cret tt
                        else
                          cemit (McCallPeer (mc_url (UDPAddr_String ip (adv_Port adv) zone)
                            [("key"%string, hex_EncodeToString (adv_PublicKey adv));
                             ("password"%string, bytes_string (ii_password info));
                             ("priority"%string, pretty (ii_priority info))]) zone)
                    end
              end
          end
    end.

(** ** The actor *)

(** The actor takes its messages in turn; the timer posts one when it fires. *)
Record mcNode := MkNode { nd_state : multicast; nd_inbox : list mcMsg; nd_stuck : bool }.

Inductive mcEvent :=
| McStart (resolved bound : bool)
| McPost (msg : mcMsg)
| McFire
| McRun (env : mcEnv)
| McPacket (dst : option IP) (bs : list byte) (from : option (IP * string)).

Definition post (msgs : list mcMsg) (n : mcNode) : mcNode := MkNode (nd_state n) (nd_inbox n ++ msgs) (nd_stuck n).

Definition node_step (ev : mcEvent) (n : mcNode) : option (mcNode * list mcEffect) :=
  if nd_stuck n then Some (n, [])
  else
    match ev with
    | McStart resolved bound =>
        match start resolved bound (nd_state n) with
        | None => None
        | Some ((_, posted), m, es) => Some (MkNode m (nd_inbox n ++ (if posted : bool then [MsgAnnounce] else [])) false, es)
        end
    | McPost msg => Some (post [msg] n, [])
    | McFire =>
        if bool_decide (mc_timer (nd_state n) = Some true) then
          Some (MkNode (set_mc_timer (Some false) (nd_state n)) (nd_inbox n ++ [MsgAnnounce]) false, [])
        else Some (n, [])
    | McRun env =>
        match nd_inbox n with
        | [] => Some (n, [])
        | MsgAnnounce :: rest =>
            match announce env (nd_state n) with
            | None => None
            | Some (_, m, es) => Some (MkNode m rest false, es)
            end
        | MsgAnnounceNow :: rest =>
            match announce_now (nd_state n) with
            | None => Some (MkNode (nd_state n) rest true, [])
            | Some m => Some (MkNode m (rest ++ [MsgAnnounce]) false, [])
            end
        | MsgStop :: rest =>
            match stop (nd_state n) with
            | None => None
            | Some (_, m, es) => Some (MkNode m rest false, es)
            end
        end
    | McPacket dst bs from =>
        if negb (mc_running (nd_state n)) then Some (n, [])
        else
          match mc_receive dst bs from (nd_state n) with
          | None => None
          | Some (_, m, es) => Some (MkNode m (nd_inbox n) false, es)
          end
    end.
End multicast.
