(* ===== verification/MulticastSafety.v ===== *)
(** * Properties of the discovery of nodes

    From the beacon of one node to the call of another, over the code of
    [src/multicast]: what is announced, who answers, which address is called, and
    with which options. *)

From Stdlib Require Import Ascii String.
From stdpp Require Import pretty.
From S2P Require Import Prelude Crypto Binary RouterState Version Handshake LinkOptions Multicast.

(** ** Advertisements *)

Record adv_ok (a : multicastAdvertisement) : Prop := {
  ao_major : 0 <= adv_MajorVersion a < 2 ^ 16;
  ao_minor : 0 <= adv_MinorVersion a < 2 ^ 16;
  ao_key : length (adv_PublicKey a) = publicKeySize;
  ao_port : 0 <= adv_Port a < 2 ^ 16;
  ao_hash : Z.of_nat (length (adv_Hash a)) < 2 ^ 16
}.

Lemma subslice_app a b c i j : length a = i -> (i + length b)%nat = j -> subslice (a ++ b ++ c) i j = b.
Proof.
  intros <- <-. unfold subslice. rewrite drop_app_length. replace (length a + length b - length a)%nat with (length b) by lia. apply take_app_length.
Qed.

Lemma be_val_2 z : 0 <= z < 2 ^ 16 -> be_val (be_bytes 2 z) = z.
Proof. intros. rewrite be_val_bytes. change (256 ^ Z.of_nat 2) with (2 ^ 16). by apply Z.mod_small. Qed.

#[local] Opaque be_bytes.

(** An advertisement is read back, whatever follows it in the datagram. *)
Lemma adv_round_trip a rest : adv_ok a -> adv_UnmarshalBinary (adv_MarshalBinary a ++ rest) = Some a.
Proof.
  intros [Hmaj Hmin Hkey Hport Hhash]. destruct a as [maj min key port hash]. cbn in *.
  set (b1 := be_bytes 2 maj). set (b2 := be_bytes 2 min). set (b3 := be_bytes 2 port). set (b4 := be_bytes 2 (Z.of_nat (length hash))).
  assert (length b1 = 2%nat /\ length b2 = 2%nat /\ length b3 = 2%nat /\ length b4 = 2%nat) as (L1 & L2 & L3 & L4) by (split_and!; apply length_be_bytes).
  change (adv_MarshalBinary (MkAdv maj min key port hash)) with (b1 ++ b2 ++ key ++ b3 ++ b4 ++ hash). rewrite <- !app_assoc. unfold adv_UnmarshalBinary. set (b := b1 ++ b2 ++ key ++ b3 ++ b4 ++ hash ++ rest).
  assert (length b = 40 + length hash + length rest)%nat as Hl.
  { unfold b. rewrite !length_app, L1, L2, L3, L4, Hkey. unfold publicKeySize. lia. }
  unfold publicKeySize in *. destruct (Nat.ltb_spec (length b) (32 + 8)); [lia|].
  assert (subslice b (6 + 32) (8 + 32) = b4) as E4.
  { unfold b. rewrite 3!app_assoc. apply subslice_app; rewrite ?length_app; lia. }
  rewrite E4. unfold b4 at 1 2. rewrite be_val_2 by lia. rewrite Nat2Z.id.
  destruct (Nat.ltb_spec (length b) (32 + 8 + length hash)); [lia|]. f_equal. f_equal.
  - assert (subslice b 0 2 = b1) as ->; [|by apply be_val_2]. unfold b. by apply (subslice_app []).
  - assert (subslice b 2 4 = b2) as ->; [|by apply be_val_2]. unfold b. apply subslice_app; lia.
  - unfold b. rewrite app_assoc. apply subslice_app; rewrite ?length_app; lia.
  - assert (subslice b (4 + 32) (6 + 32) = b3) as ->; [|by apply be_val_2]. unfold b. rewrite 2!app_assoc. apply subslice_app; rewrite ?length_app; lia.
  - unfold b. rewrite 4!app_assoc. apply subslice_app; rewrite ?length_app; lia.
Qed.

(** ** Strings *)

Lemma hex_digits n : 0 <= n < 16 -> hex_digit (ascii_lower (hex_char n)) = Some n.
Proof.
  intros Hn. assert (forallb (fun n => bool_decide (hex_digit (ascii_lower (hex_char n)) = Some n)) (map Z.of_nat (seq 0 16)) = true) as H by reflexivity.
  rewrite forallb_forall in H. specialize (H n). apply bool_decide_eq_true in H; [done|]. apply in_map_iff. exists (Z.to_nat n). split; [lia|]. apply in_seq. lia.
Qed.

Lemma hex_round_trip l : hex_DecodeString (ToLower (hex_EncodeToString l)) = Some l.
Proof.
  induction l as [|b l IH]; [done|]. cbn [hex_EncodeToString ToLower hex_DecodeString].
  pose proof (b2z_range b). rewrite !hex_digits by (pose proof (Z.mod_pos_bound (b2z b) 16); try split; try apply Z.div_pos; try apply Z.div_lt_upper_bound; lia).
  rewrite IH. do 2 f_equal. rewrite <- (z2b_b2z b) at 3. f_equal. pose proof (Z.div_mod (b2z b) 16). lia.
Qed.

Lemma priority_round_trip p : 0 <= p < 256 -> pretty p <> ""%string /\ ParseUint8 (pretty p) = Some p.
Proof.
  intros Hp. assert (forallb (fun n => bool_decide (pretty n <> ""%string /\ ParseUint8 (pretty n) = Some n)) (map Z.of_nat (seq 0 256)) = true) as H by (vm_compute; reflexivity).
  rewrite forallb_forall in H. specialize (H p). apply bool_decide_eq_true in H; [done|]. apply in_map_iff. exists (Z.to_nat p). split; [lia|]. apply in_seq. lia.
Qed.

Lemma bytes_string_round_trip l : string_bytes (bytes_string l) = l.
Proof.
  unfold string_bytes. induction l as [|b l IH]; [done|]. cbn [bytes_string fold_right string_codes map]. fold (bytes_string l).
  rewrite IH. f_equal. pose proof (b2z_range b). rewrite N_ascii_embedding by lia. rewrite Z2N.id by lia. apply z2b_b2z.
Qed.

(** ** A round of announcements *)

Definition write_of (e : mcEffect) : option (string * list byte) :=
  match e with McWriteTo msg zone => Some (zone, msg) | _ => None end.
(** The beacons among the effects. *)
Definition writes (es : list mcEffect) : list (string * list byte) := omap write_of es.

Lemma writes_app es es' : writes (es ++ es') = writes es ++ writes es'.
Proof. apply omap_app. Qed.

Lemma writes_none es : Forall (fun e => write_of e = None) es -> writes es = [].
Proof. induction 1 as [|e es He _ IH]; [done|]. unfold writes in *. cbn. by rewrite He. Qed.

(** All but the listeners stays the same. *)
Definition same_rest (m m' : multicast) : Prop :=
  mc_running m' = mc_running m /\ mc_interfaces m' = mc_interfaces m /\ mc_timer m' = mc_timer m /\ mc_config m' = mc_config m.
#[global] Instance same_rest_preorder : PreOrder same_rest.
Proof. split; [done|]. intros x y z (?&?&?&?) (?&?&?&?). split_and!; congruence. Qed.

(** Only the listener of [name] changes. *)
Definition only_listener (name : string) (m m' : multicast) : Prop :=
  same_rest m m' /\ forall n, n <> name -> mc_listeners m' !! n = mc_listeners m !! n.
Lemma only_listener_trans name x y z : only_listener name x y -> only_listener name y z -> only_listener name x z.
Proof. intros [? H1] [? H2]. split; [by transitivity y|]. intros n Hn. by rewrite H2, H1. Qed.

Section announce.
Context `{Blake2b} `{NetStrings} `{MapOrder} (pk : list byte) (env : mcEnv).

Lemma listener_for_ok name info addr m : wp (listener_for env name info addr) m (fun r m' es =>
  writes es = [] /\ only_listener name m m' /\ (forall l, r = Some l -> mc_listeners m' !! name = Some l)).
Proof.
  unfold listener_for. apply wp_bind, wp_gets. cbn [app]. destruct (mc_listeners m !! name) as [l|] eqn:E.
  - apply wp_ret. split_and!; [done|done|]. by intros l' [= <-].
  - cbv zeta. apply wp_bind, wp_emit. destruct (en_listen env _ name) as [li|].
    + apply wp_bind, wp_modify, wp_ret. split_and!; [done| |intros l [= <-]; apply lookup_insert_eq].
      split; [done|]. intros n Hn. cbn. by rewrite lookup_insert_ne.
    + apply wp_ret. split_and!; done.
Qed.

(** At most one beacon for an interface, for its hash and its listener. *)
Definition beacons_for (name : string) (info : interfaceInfo) (m' : multicast) (ws : list (string * list byte)) : Prop :=
  ws = [] \/ ii_beacon info = true /\ exists l, mc_listeners m' !! name = Some l /\ li_time l = en_now env /\
    ws = [(name, adv_MarshalBinary (own_adv pk env l info))].

Lemma addrs_ok name info addrs : forall m, wp (announce_addrs pk env name info addrs) m (fun _ m' es =>
  only_listener name m m' /\ beacons_for name info m' (writes es)).
Proof.
  induction addrs as [|addr addrs IH]; intros m; cbn [announce_addrs]; [apply wp_ret; by split; [|left]|].
  destruct (usable (Some addr)) as [addrIP|]; [|apply IH].
  apply wp_bind. eapply (wp_mono _ _ (fun _ m' es => m' = m /\ writes es = [])).
  { destruct (ii_listen info); [by apply wp_emit|by apply wp_ret]. }
  intros [] m1 es1 [-> E1]. destruct (ii_beacon info) eqn:Eb; cbn [negb].
  2:{ apply wp_ret. rewrite app_nil_r, E1. split; [done|by left]. }
  apply wp_bind. eapply wp_mono; [apply listener_for_ok|]. intros r m1 es2 (E2 & Ho & Hr).
  assert (wp (announce_addrs pk env name info addrs) m1 (fun _ m' es => only_listener name m m' /\ beacons_for name info m' (writes (es1 ++ es2 ++ es)))) as Hnext.
  { eapply wp_mono; [apply IH|]. intros [] m2 es3 [Ho2 Hb]. split; [by eapply only_listener_trans|]. by rewrite !writes_app, E1, E2. }
  destruct r as [l|]; [|exact Hnext]. destruct (en_now env - li_time l <? li_interval l); [exact Hnext|].
  apply wp_bind, wp_emit, wp_modify. cbv zeta. split.
  - eapply only_listener_trans; [exact Ho|]. split; [done|]. intros n Hn. cbn. by rewrite lookup_insert_ne.
  - right. split; [done|]. eexists. split; [apply lookup_insert_eq|]. split; [done|]. rewrite !writes_app, E1, E2. done.
Qed.

(** The whole loop over the interfaces: beacons are for different interfaces. *)
Definition round_ok (names : list string) (m m' : multicast) (ws : list (string * list byte)) : Prop :=
  same_rest m m' /\ (forall n, n ∉ names -> mc_listeners m' !! n = mc_listeners m !! n) /\ NoDup ws.*1 /\
  forall zone msg, (zone, msg) ∈ ws -> zone ∈ names /\ exists info l,
    mc_interfaces m !! zone = Some info /\ ii_beacon info = true /\ mc_listeners m' !! zone = Some l /\ li_time l = en_now env /\
    msg = adv_MarshalBinary (own_adv pk env l info).

Lemma interfaces_ok interfaces names : NoDup names -> forall m, mc_interfaces m = interfaces ->
  wp (act_for names (fun name => match interfaces !! name with Some info => announce_addrs pk env name info (ii_addrs info) | None => mret tt end)) m
    (fun _ m' es => round_ok names m m' (writes es)).
Proof.
  induction 1 as [|name names Hn Hnd IH]; intros m Hi; cbn [act_for].
  - apply wp_ret. split_and!; [done|done|constructor|]. by intros zone msg ?%elem_of_nil.
  - apply wp_bind. eapply (wp_mono _ _ (fun _ m' es => only_listener name m m' /\
      (writes es = [] \/ exists info, interfaces !! name = Some info /\ beacons_for name info m' (writes es)))).
    { destruct (interfaces !! name) as [info|] eqn:E; [|apply wp_ret; split; [done|by left]].
      eapply wp_mono; [apply addrs_ok|]. intros [] m1 es1 [Hx Hy]. split; [done|]. right. by exists info. }
    intros [] m1 es1 [[Hs1 Ho1] Hw1]. eapply wp_mono; [apply IH; by rewrite (proj1 (proj2 Hs1))|].
    intros [] m2 es2 (Hs2 & Ho2 & Hnd2 & Hw2). rewrite writes_app. unfold round_ok. split_and!.
    + by transitivity m1.
    + intros n (Hne & Hni)%not_elem_of_cons. rewrite Ho2, Ho1; done.
    + destruct Hw1 as [->|(info & Hinfo & [->|(_ & l & _ & _ & ->)])]; [done|done|]. cbn. constructor; [|done].
      intros ([z msg] & E & Hin)%list_elem_of_fmap. cbn in E. subst z. by apply Hw2 in Hin as [Hin _].
    + intros zone msg [Hin|Hin]%elem_of_app.
      * split; [destruct Hw1 as [E|(info & Hinfo & [E|(_ & l & _ & _ & E)])]; rewrite E in Hin; [by apply elem_of_nil in Hin|by apply elem_of_nil in Hin|]|].
        { apply list_elem_of_singleton in Hin as [= -> _]. by left. }
        destruct Hw1 as [E|(info & Hinfo & [E|(Hb & l & Hl & Ht & E)])]; rewrite E in Hin; [by apply elem_of_nil in Hin|by apply elem_of_nil in Hin|].
        apply list_elem_of_singleton in Hin as [= -> ->]. exists info, l. rewrite Hi, Ho2 by done. done.
      * apply Hw2 in Hin as (Hz & info & l & Hinfo & Hr). split; [by right|]. exists info, l. by rewrite <- (proj1 (proj2 Hs1)).
Qed.

(** The interfaces in use carry the hash of their password and this node's key. *)
Definition hashed (info : interfaceInfo) : Prop := mc_hash (ii_password info) pk = Some (ii_hash info).

Lemma choose_hashed cfgs name info : choose_config pk cfgs name = Some info -> hashed info.
Proof.
  induction cfgs as [|cfg cfgs IH]; cbn [choose_config]; [done|].
  destruct (negb (mi_Beacon cfg) && negb (mi_Listen cfg)); [done|]. destruct (negb (MatchString (mi_Regex cfg) name)); [done|].
  destruct (mc_hash (string_bytes (mi_Password cfg)) pk) as [hash|] eqn:E; [|done]. by intros [= <-].
Qed.

Lemma allowed_hashed name info : getAllowedInterfaces pk env !! name = Some info -> hashed info.
Proof.
  unfold getAllowedInterfaces. destruct (en_ifaces env) as [ifaces|]; [|done].
  assert (forall (l : list netInterface) (acc : gmap string interfaceInfo), (forall n i, acc !! n = Some i -> hashed i) ->
    forall n i, fold_left (fun interfaces iface =>
        if negb (if_Up iface) then interfaces else if negb (if_Running iface) then interfaces
        else if negb (if_Multicast iface) then interfaces else if if_PointToPoint iface then interfaces
        else match choose_config pk (en_order env (if_Name iface)) (if_Name iface) with
             | None => interfaces | Some info => <[if_Name iface := info]> interfaces end) l acc !! n = Some i -> hashed i) as Hgen.
  { induction l as [|iface l IH]; intros acc Hacc n i; cbn [fold_left]; [apply Hacc|]. apply IH. intros n' i'.
    destruct (negb (if_Up iface)); [apply Hacc|]. destruct (negb (if_Running iface)); [apply Hacc|].
    destruct (negb (if_Multicast iface)); [apply Hacc|]. destruct (if_PointToPoint iface); [apply Hacc|].
    destruct (choose_config pk _ _) as [info'|] eqn:E; [|apply Hacc]. intros [[_ <-]|[_ Hi]]%lookup_insert_Some; [by eapply choose_hashed|by eapply Hacc]. }
  apply Hgen. intros n i. by rewrite lookup_empty.
Qed.

Lemma announce_ok m : wp (announce pk env) m (fun _ m' es => NoDup (writes es).*1 /\
  forall zone msg, (zone, msg) ∈ writes es -> exists info l, mc_interfaces m' !! zone = Some info /\ ii_beacon info = true /\ hashed info /\
    mc_listeners m' !! zone = Some l /\ li_time l = en_now env /\ msg = adv_MarshalBinary (own_adv pk env l info)).
Proof.
  unfold announce. apply wp_bind, wp_gets. cbn [app]. destruct (mc_running m); cbn [negb].
  2:{ apply wp_ret. split; [constructor|]. by intros zone msg ?%elem_of_nil. }
  unfold updateInterfaces. apply wp_bind, wp_modify, wp_bind, wp_gets. cbn [app]. set (m0 := set_mc_interfaces _ m).
  assert (forall n i, mc_interfaces m0 !! n = Some i -> hashed i) as Hh.
  { intros n i Hi. unfold m0 in Hi. cbn in Hi. rewrite map_lookup_imap in Hi. destruct (getAllowedInterfaces pk env !! n) as [i0|] eqn:E; [|done].
    cbn in Hi. destruct (en_addrs env n); [|done]. injection Hi as <-. by apply allowed_hashed in E. }
  apply wp_bind. eapply wp_mono; [apply (wp_for _ _ (fun m' => same_rest m0 m') (fun e => write_of e = None)); [done|]|].
  { intros name s _ Hs. unfold check_listener. apply wp_bind, wp_gets.
    assert (forall l, wp (stop_listener name l) s (fun _ s' es => same_rest m0 s' /\ Forall (fun e => write_of e = None) es)) as Hstop.
    { intros l. unfold stop_listener. apply wp_bind, wp_emit, wp_modify. split; [by transitivity s|]. by repeat constructor. }
    destruct (mc_listeners s !! name) as [l|]; [|apply wp_ret; by split].
    destruct (mc_interfaces s !! name) as [intf|]; [|apply Hstop]. destruct (en_addr env (li_listener l)); [|apply Hstop].
    destruct (existsb _ _); [apply wp_ret; by split|apply Hstop]. }
  intros [] m1 es1 [Hs1 He1]. apply writes_none in He1. apply wp_bind, wp_gets. cbn [app].
  apply wp_bind. eapply wp_mono; [apply interfaces_ok; [apply NoDup_map_order|done]|]. intros [] m2 es2 (Hs2 & _ & Hnd & Hw).
  apply wp_bind, wp_emit, wp_modify. rewrite !writes_app, He1. cbn [app writes omap list_omap write_of]. rewrite app_nil_r.
  split; [done|]. intros zone msg Hin. apply Hw in Hin as (_ & info & l & Hi & Hb & Hl & Ht & Hm). exists info, l.
  cbn. rewrite (proj1 (proj2 Hs2)). split_and!; try done. apply (Hh zone). by rewrite <- (proj1 (proj2 Hs1)).
Qed.
End announce.

(** ** From beacon to call *)

Section beacon.
Context `{Blake2b} `{NetStrings} `{MapOrder} `{GoStrings} (snis : list string).

(** The packet was sent to the group, as far as its destination is known. *)
Definition to_group (group : IP) (dst : option IP) : bool :=
  match dst with Some dst => IsLinkLocalMulticast dst && IP_Equal dst group | None => true end.

(** Packets that were not sent to the group are dropped, the others are read. *)
Lemma receive_to_group pk group dst bs from m : mc_receive pk group dst bs from m =
  if to_group group dst then mc_receive pk group None bs from m else Some (tt, m, []).
Proof. unfold mc_receive, to_group. destruct dst as [dst|]; [|done]. by destruct (IsLinkLocalMulticast dst), (IP_Equal dst group). Qed.

(** The options that the node gives itself for the call. *)
Lemma call_options host (key : list byte) (password : list byte) priority : length key = publicKeySize ->
  0 <= priority < 256 -> (length password <= blake2b_Size)%nat ->
  exists sni, add_options snis (mc_url host [("key"%string, hex_EncodeToString key); ("password"%string, bytes_string password);
      ("priority"%string, pretty priority)]) =
    inr (MkLinkOptions {[array_of 32 key]} priority sni password defaultBackoffLimit).
Proof.
  intros Hk Hp Hpw. unfold add_options. set (u := mc_url _ _).
  change (query_all u "key") with [hex_EncodeToString key]. cbn [pinned_keys]. rewrite hex_round_trip. cbn [pinned_keys].
  destruct (priority_round_trip priority Hp) as [Hne Hpr].
  assert (priority_of u = Some priority) as ->.
  { unfold priority_of. change (query_get u "priority") with (pretty priority). destruct (String.eqb_spec (pretty priority) ""); [done|]. exact Hpr. }
  assert (password_of u = Some password) as ->.
  { unfold password_of. change (query_get u "password") with (bytes_string password). rewrite bytes_string_round_trip.
    destruct (String.eqb_spec (bytes_string password) ""); [destruct password; done|]. destruct (Nat.ltb_spec blake2b_Size (length password)); [lia|done]. }
  change (maxBackoff_of u) with (Some defaultBackoffLimit). exists (sni_of snis u [ToLower (hex_EncodeToString key)]). cbn iota.
  by rewrite (right_id_L ∅ (∪)).
Qed.

(** C28: a beacon that a node sends for an interface is understood by every
    other node that listens on the interface where it arrives: when the passwords
    of the two interfaces hash the sender's key alike, as equal ones do, and the
    packet was sent to the group or its destination is not known, the receiver
    calls the sender, and only the sender: it calls the address that the packet
    came from, on the interface where it came, at the port of the listener that
    the sender keeps for its interface, and the call pins the sender's key, with
    the receiver's own priority and password. Otherwise it does nothing. A node
    sends at most one beacon for an interface in a round. *)
Theorem beacon_makes_link pkA pkB group env mA mA' es mB zoneB infoB :
  length pkA = publicKeySize -> pkA <> pkB -> announce pkA env mA = Some (tt, mA', es) ->
  mc_interfaces mB !! zoneB = Some infoB -> ii_listen infoB = true -> 0 <= ii_priority infoB < 256 ->
  NoDup (writes es).*1 /\ forall zoneA msg, McWriteTo msg zoneA ∈ es ->
  exists infoA l, mc_interfaces mA' !! zoneA = Some infoA /\ ii_beacon infoA = true /\ mc_hash (ii_password infoA) pkA <> None /\
    mc_listeners mA' !! zoneA = Some l /\ forall ip dst,
    (mc_hash (ii_password infoB) pkA = mc_hash (ii_password infoA) pkA -> to_group group dst = true ->
       exists u sni, mc_receive pkB group dst msg (Some (ip, zoneB)) mB = Some (tt, mB, [McCallPeer u zoneB]) /\
         u_scheme u = "tls"%string /\ u_host u = UDPAddr_String ip (en_port env (li_listener l) mod 2 ^ 16) zoneB /\
         add_options snis u = inr (MkLinkOptions {[array_of 32 pkA]} (ii_priority infoB) sni (ii_password infoB) defaultBackoffLimit)) /\
    (mc_hash (ii_password infoB) pkA <> mc_hash (ii_password infoA) pkA \/ to_group group dst = false ->
       mc_receive pkB group dst msg (Some (ip, zoneB)) mB = Some (tt, mB, [])).
Proof.
  intros Hk Hne Ha HB Hl Hp. pose proof (announce_ok pkA env mA) as Hok. unfold wp in Hok. rewrite Ha in Hok. destruct Hok as [Hnd Hw].
  split; [done|]. intros zoneA msg Hin.
  assert ((zoneA, msg) ∈ writes es) as Hin' by (apply list_elem_of_omap; by exists (McWriteTo msg zoneA)).
  destruct (Hw _ _ Hin') as (info & l & Hi & Hb & Hh & Hli & _ & ->). exists info, l. unfold hashed in Hh. rewrite Hh.
  assert (adv_ok (own_adv pkA env l info)) as Hadv.
  { split; cbn; [unfold ProtocolVersionMajor; lia|unfold ProtocolVersionMinor; lia|done|apply Z.mod_pos_bound; lia|].
    unfold mc_hash in Hh. destruct (blake2b_New512 (ii_password info)) as [sum|]; [|done]. rewrite Hk in Hh. cbn in Hh. injection Hh as <-.
    rewrite length_array. lia. }
  pose proof (adv_round_trip _ [] Hadv) as Hrt. rewrite app_nil_r in Hrt.
  split_and!; [done|done|done|done|]. intros ip dst. rewrite receive_to_group.
  assert (forall Q, Q = mc_receive pkB group None (adv_MarshalBinary (own_adv pkA env l info)) (Some (ip, zoneB)) mB -> Q = Some (tt, mB,
    match mc_hash (ii_password infoB) pkA with
    | Some hash => if negb (bool_decide (hash = ii_hash info)) then [] else [McCallPeer (mc_url (UDPAddr_String ip (en_port env (li_listener l) mod 2 ^ 16) zoneB)
        [("key"%string, hex_EncodeToString pkA); ("password"%string, bytes_string (ii_password infoB)); ("priority"%string, pretty (ii_priority infoB))]) zoneB]
    | None => [] end)) as Hrec.
  { intros Q ->. unfold mc_receive. rewrite Hrt. cbn [own_adv adv_MajorVersion adv_MinorVersion adv_PublicKey adv_Hash adv_Port].
    rewrite !Z.eqb_refl, bool_decide_false by done. cbn [negb]. cbv [mbind act_bind act_gets act_emit]. rewrite HB, Hl. cbn [negb].
    destruct (mc_hash (ii_password infoB) pkA); [|done]. by destruct (negb _). }
  rewrite (Hrec _ eq_refl). split.
  - intros Hhash ->. assert (length (ii_password infoB) <= blake2b_Size)%nat as Hpw.
    { unfold mc_hash, blake2b_New512 in Hhash. destruct (Nat.ltb_spec blake2b_Size (length (ii_password infoB))); [done|lia]. }
    destruct (call_options (UDPAddr_String ip (en_port env (li_listener l) mod 2 ^ 16) zoneB) pkA (ii_password infoB) (ii_priority infoB) Hk Hp Hpw) as [sni Ho].
    do 2 eexists. rewrite Hhash, bool_decide_true by done. split_and!; [reflexivity|done|done|exact Ho].
  - intros [Hhash|Hto].
    + destruct (to_group group dst); [|done]. destruct (mc_hash (ii_password infoB) pkA) as [hash|]; [|done].
      rewrite bool_decide_false by congruence. done.
    + by rewrite Hto.
Qed.
End beacon.

(** ** A concrete network *)

Definition w_blake : Blake2b := {| blake2b_512 := fun k d => array_of 64 (k ++ d) |}.
Definition w_net : NetStrings := {| IP_String := fun _ => "fe80::1"%string; MatchString := fun _ _ => true |}.
Definition w_strings : GoStrings :=
  {| url_String := u_host; ParseIP := fun _ => false; SplitHostPort := fun _ => None; ParseDuration := fun _ => None; TrimSpace := fun s => s |}.
Definition w_ip : IP := Byte.xfe :: Byte.x80 :: replicate 13 Byte.x00 ++ [Byte.x01].
Definition w_cfg : MulticastInterface := MkMI "eth.*" true true 0 3 "secret".
Definition w_env : mcEnv :=
  MkEnv 5 (Some [MkIface "eth0" true true true false]) (fun _ => Some [Some w_ip]) (fun _ => [w_cfg]) (fun _ _ => Some 7%nat) (fun _ => Some w_ip) (fun _ => 9001).
Definition w_mc : multicast := MkMulticast true ∅ ∅ None [w_cfg].
Definition w_keyA : list byte := replicate 32 Byte.x11.
Definition w_keyB : list byte := replicate 32 Byte.x22.
Definition w_info (hash : list byte) : interfaceInfo := MkInterface [w_ip] true true 0 3 (string_bytes "secret") hash.
Definition w_mcB : multicast := MkMulticast true ∅ {["wlan0"%string := w_info []]} None [w_cfg].

Definition w_group : IP := Byte.xff :: Byte.x02 :: replicate 12 Byte.x00 ++ [Byte.x01; Byte.x14].

Lemma beacon_makes_link_witness : exists mA' es msg u sni,
  @announce w_blake w_net _ w_keyA w_env w_mc = Some (tt, mA', es) /\ McWriteTo msg "eth0" ∈ es /\
  @mc_receive w_blake w_net w_keyB w_group (Some w_group) msg (Some (w_ip, "wlan0"%string)) w_mcB = Some (tt, w_mcB, [McCallPeer u "wlan0"]) /\
  u_host u = "[fe80::1%wlan0]:9001"%string /\
  @add_options w_strings [] u = inr (MkLinkOptions {[array_of 32 w_keyA]} 3 sni (string_bytes "secret") defaultBackoffLimit).
Proof.
  destruct (@announce w_blake w_net _ w_keyA w_env w_mc) as [[[[] mA'] es]|] eqn:E; [|vm_compute in E; discriminate E].
  destruct (@beacon_makes_link w_blake w_net _ w_strings [] w_keyA w_keyB w_group w_env w_mc mA' es w_mcB "wlan0" (w_info [])) as [_ Hb];
    [reflexivity|vm_compute; discriminate|exact E|reflexivity|reflexivity|cbn; lia|].
  assert (exists msg, McWriteTo msg "eth0" ∈ es) as [msg Hin].
  { vm_compute in E. injection E as _ <-. eexists. right. right. left. }
  destruct (Hb "eth0"%string msg Hin) as (infoA & l & Hi & _ & _ & Hli & Hcall). destruct (Hcall w_ip (Some w_group)) as [Hc _].
  assert (infoA = w_info (arr_list (@blake2b_512 w_blake (string_bytes "secret") w_keyA))) as ->.
  { vm_compute in E. injection E as <- _. vm_compute in Hi. injection Hi as <-. vm_compute. reflexivity. }
  destruct Hc as (u & sni & H1 & _ & H2 & H3); [reflexivity|vm_compute; reflexivity|].
  exists mA', es, msg, u, sni. split; [reflexivity|]. split; [exact Hin|]. split; [exact H1|]. split; [|exact H3].
  rewrite H2. cbn [w_env en_port]. vm_compute. reflexivity.
Defined.

(** ** [AnnounceNow] *)

Section stuck.
Context `{Blake2b} `{NetStrings} `{MapOrder} (pk : list byte) (group : IP).

Fixpoint node_run (evs : list mcEvent) (n : mcNode) : option mcNode :=
  match evs with
  | [] => Some n
  | ev :: evs => match node_step pk group ev n with Some (n, _) => node_run evs n | None => None end
  end.

Lemma stuck_stays evs : forall n, nd_stuck n = true -> node_run evs n = Some n.
Proof. induction evs as [|ev evs IH]; intros n Hn; [done|]. cbn [node_run]. unfold node_step. rewrite Hn. by apply IH. Qed.
End stuck.

(** When the timer has fired, [AnnounceNow] makes the actor wait for a channel
    that does not exist: between the timer and the round that it posts, and at
    any time after the module was stopped. Nothing is announced, and no beacon is
    answered, from then on. *)
Lemma announce_now_sticks (evs : list mcEvent) :
  let run := @node_run w_blake w_net _ w_keyA w_group in
  let n0 := MkNode (MkMulticast false ∅ ∅ None [w_cfg]) [] false in
  let go := [McStart true true; McRun w_env] in
  (exists n, run (go ++ [McPost MsgAnnounceNow; McFire; McRun w_env]) n0 = Some n /\ nd_stuck n = true /\ run evs n = Some n) /\
  (exists n, run (go ++ [McPost MsgStop; McRun w_env; McFire; McRun w_env; McPost MsgAnnounceNow; McRun w_env]) n0 = Some n /\
     nd_stuck n = true /\ run evs n = Some n).
Proof.
  split; (eexists; split; [vm_compute; reflexivity|split; [reflexivity|apply stuck_stays; reflexivity]]).
Qed.
