(* ===== verification/Proto.v ===== *)
(** * Questions between nodes

    [src/core/proto.go], [nodeinfo.go] and [types.go]: the requests for node
    information, for the state of a node, its peers and its tree, the answers, and
    the callbacks that wait for them.

    Callbacks are numbers; a [*reqInfo] is a record with the number of its
    allocation, by which pointers are compared. The three kinds of debug requests
    have the same code in [proto.go], which is written once here. *)

From stdpp Require Import strings.
From S2P Require Import Prelude Crypto RouterState KeyStore.

Definition typeProtoDummy : Z := 0.
Definition typeProtoNodeInfoRequest : Z := 1.
Definition typeProtoNodeInfoResponse : Z := 2.
Definition typeProtoDebug : Z := 255.

Inductive debugKind := GetSelf | GetPeers | GetTree.
#[global] Instance debugKind_eq_dec : EqDecision debugKind.
Proof. solve_decision. Defined.

(** The codes of requests and responses. *)
Definition typeDebug_request (k : debugKind) : Z := match k with GetSelf => 1 | GetPeers => 3 | GetTree => 5 end.
Definition typeDebug_response (k : debugKind) : Z := match k with GetSelf => 2 | GetPeers => 4 | GetTree => 6 end.

Record reqInfo := MkReq { rq_id : nat; rq_callback : nat; rq_timer : nat }.

Record nodeinfoCallback := MkNiCallback { nc_call : nat; nc_created : Z }.

Record nodeinfo := MkNodeinfo { ni_myNodeInfo : list byte; ni_callbacks : gmap (array 32) nodeinfoCallback }.

(** [ph_pending] holds the timers that have not fired and what they look at,
    [ph_cleanups] the messages that fired timers have posted. *)
Record protoHandler := MkProto {
  ph_nodeinfo : nodeinfo;
  ph_selfRequests : gmap (array 32) reqInfo;
  ph_peersRequests : gmap (array 32) reqInfo;
  ph_treeRequests : gmap (array 32) reqInfo;
  ph_pending : gmap nat (debugKind * array 32 * nat);
  ph_cleanups : list (debugKind * array 32 * nat);
  ph_next : nat
}.

Definition ph_requests (k : debugKind) (p : protoHandler) : gmap (array 32) reqInfo :=
  match k with GetSelf => ph_selfRequests p | GetPeers => ph_peersRequests p | GetTree => ph_treeRequests p end.
Definition set_ph_requests (k : debugKind) (f : gmap (array 32) reqInfo -> gmap (array 32) reqInfo) (p : protoHandler) : protoHandler :=
  match k with
  | GetSelf => MkProto (ph_nodeinfo p) (f (ph_selfRequests p)) (ph_peersRequests p) (ph_treeRequests p) (ph_pending p) (ph_cleanups p) (ph_next p)
  | GetPeers => MkProto (ph_nodeinfo p) (ph_selfRequests p) (f (ph_peersRequests p)) (ph_treeRequests p) (ph_pending p) (ph_cleanups p) (ph_next p)
  | GetTree => MkProto (ph_nodeinfo p) (ph_selfRequests p) (ph_peersRequests p) (f (ph_treeRequests p)) (ph_pending p) (ph_cleanups p) (ph_next p)
  end.
Definition set_ph_nodeinfo f (p : protoHandler) : protoHandler :=
  MkProto (f (ph_nodeinfo p)) (ph_selfRequests p) (ph_peersRequests p) (ph_treeRequests p) (ph_pending p) (ph_cleanups p) (ph_next p).
Definition set_ph_timers pending cleanups (p : protoHandler) : protoHandler :=
  MkProto (ph_nodeinfo p) (ph_selfRequests p) (ph_peersRequests p) (ph_treeRequests p) (pending (ph_pending p)) (cleanups (ph_cleanups p)) (ph_next p).
Definition ph_bump (p : protoHandler) : protoHandler :=
  MkProto (ph_nodeinfo p) (ph_selfRequests p) (ph_peersRequests p) (ph_treeRequests p) (ph_pending p) (ph_cleanups p) (S (ph_next p)).

Definition nodeinfo_init : nodeinfo := MkNodeinfo [] ∅.
Definition protoHandler_init : protoHandler := MkProto nodeinfo_init ∅ ∅ ∅ ∅ [] 0.

(** What the core tells about itself: the JSON of [GetSelf], if it can be
    written, and the keys of [GetPeers] and [GetTree], in order; and its MTU. *)
Record coreView := MkView { cv_self : option (list byte); cv_peers : list (array 32); cv_tree : list (array 32); cv_MTU : Z }.

Inductive protoEffect :=
| PrWriteTo (bs : list byte) (key : array 32)
| PrCallback (callback : nat) (bs : list byte).

Abbreviation D_ := (Act protoHandler protoEffect).
Abbreviation dret a := (mret (M := Act protoHandler protoEffect) a) (only parsing).
Abbreviation dgets f := (act_gets (S := protoHandler) (E := protoEffect) f).
Abbreviation dmodify f := (act_modify (S := protoHandler) (E := protoEffect) f).
Abbreviation demit e := (act_emit (S := protoHandler) (E := protoEffect) e).

Definition sendDebug (key : array 32) (dType : Z) (data : list byte) : D_ unit :=
  demit (PrWriteTo ([z2b typeSessionProto; z2b typeProtoDebug; z2b dType] ++ data) key).

(** ** Debug requests *)

Definition ph_stop (t : nat) : D_ unit := dmodify (set_ph_timers (delete t) (fun c => c)).

Definition send_request (k : debugKind) (key : array 32) (callback : nat) : D_ unit :=
  requests ← dgets (ph_requests k);
  _ ← (match requests !! key with
       | Some info =>
           _ ← ph_stop (rq_timer info);
           dmodify (set_ph_requests k (delete key))
       | None => dret tt
       end);
  id ← dgets ph_next;
  _ ← dmodify ph_bump;
  t ← dgets ph_next;
  _ ← dmodify ph_bump;
  _ ← dmodify (set_ph_timers (insert t (k, key, id)) (fun c => c));
  _ ← dmodify (set_ph_requests k (insert key (MkReq id callback t)));
  sendDebug key (typeDebug_request k) [].
Definition sendGetSelfRequest := send_request GetSelf.
Definition sendGetPeersRequest := send_request GetPeers.
Definition sendGetTreeRequest := send_request GetTree.

(** The function of a timer, in the actor. *)
Definition cleanup_request (k : debugKind) (key : array 32) (id : nat) : D_ unit :=
  requests ← dgets (ph_requests k);
  if bool_decide (rq_id <$> requests !! key = Some id) then dmodify (set_ph_requests k (delete key)) else dret tt.

Definition handle_response (k : debugKind) (key : array 32) (bs : list byte) : D_ unit :=
  requests ← dgets (ph_requests k);
  match requests !! key with
  | None => dret tt
  | Some info =>
      _ ← ph_stop (rq_timer info);
      _ ← demit (PrCallback (rq_callback info) bs);
      dmodify (set_ph_requests k (delete key))
  end.
Definition handleGetSelfResponse := handle_response GetSelf.
Definition handleGetPeersResponse := handle_response GetPeers.
Definition handleGetTreeResponse := handle_response GetTree.

(** The keys that fit into a message. *)
Fixpoint fill_keys (mtu : Z) (bs : list byte) (keys : list (array 32)) : list byte :=
  match keys with
  | [] => bs
  | key :: keys =>
      let tmp := bs ++ arr_list key in
      if mtu <? u64 (Z.of_nat (length tmp) + 2) then bs else fill_keys mtu tmp keys
  end.

Definition handleGetSelfRequest (view : coreView) (key : array 32) : D_ unit :=
  match cv_self view with
  | None => dret tt
  | Some bs => sendDebug key (typeDebug_response GetSelf) bs
  end.
Definition handleGetPeersRequest (view : coreView) (key : array 32) : D_ unit :=
  sendDebug key (typeDebug_response GetPeers) (fill_keys (cv_MTU view) [] (cv_peers view)).
Definition handleGetTreeRequest (view : coreView) (key : array 32) : D_ unit :=
  sendDebug key (typeDebug_response GetTree) (fill_keys (cv_MTU view) [] (cv_tree view)).

Definition handleDebug (view : coreView) (key : array 32) (bs : list byte) : D_ unit :=
  match bs with
  | [] => dret tt
  | t :: rest =>
      if b2z t =? typeDebug_request GetSelf then handleGetSelfRequest view key
      else if b2z t =? typeDebug_response GetSelf then handleGetSelfResponse key rest
      else if b2z t =? typeDebug_request GetPeers then handleGetPeersRequest view key
      else if b2z t =? typeDebug_response GetPeers then handleGetPeersResponse key rest
      else if b2z t =? typeDebug_request GetTree then handleGetTreeRequest view key
      else if b2z t =? typeDebug_response GetTree then handleGetTreeResponse key rest
      else dret tt
  end.

(** ** Node information *)

Definition set_callbacks f (m : nodeinfo) : nodeinfo := MkNodeinfo (ni_myNodeInfo m) (f (ni_callbacks m)).

Definition addCallback (now : Z) (sender : array 32) (call : nat) : D_ unit :=
  dmodify (set_ph_nodeinfo (set_callbacks (insert sender (MkNiCallback call now)))).

Definition ni_callback (sender : array 32) (info : list byte) : D_ unit :=
  callbacks ← dgets (fun p => ni_callbacks (ph_nodeinfo p));
  match callbacks !! sender with
  | None => dret tt
  | Some callback =>
      _ ← demit (PrCallback (nc_call callback) info);
      dmodify (set_ph_nodeinfo (set_callbacks (delete sender)))
  end.

Definition ni_cleanup (now : Z) : D_ unit :=
  dmodify (set_ph_nodeinfo (set_callbacks (filter (fun kc => now - nc_created kc.2 <= 60 * Second)))).

Definition ni_sendReq (now : Z) (key : array 32) (callback : option nat) : D_ unit :=
  _ ← (match callback with Some c => addCallback now key c | None => dret tt end);
  demit (PrWriteTo [z2b typeSessionProto; z2b typeProtoNodeInfoRequest] key).

Definition ni_sendRes (key : array 32) : D_ unit :=
  info ← dgets (fun p => ni_myNodeInfo (ph_nodeinfo p));
  demit (PrWriteTo ([z2b typeSessionProto; z2b typeProtoNodeInfoResponse] ++ info) key).

(** [encoding/json], and the strings of package [version] and of the runtime. *)
Class Json := {
  json : Type;
  json_string : string -> json;
  json_Marshal : gmap string json -> option (list byte);
  build_info : list (string * string)
}.

Inductive nodeInfoError := NodeInfoMarshalling | NodeInfoTooLong.
#[global] Instance nodeInfoError_eq_dec : EqDecision nodeInfoError.
Proof. solve_decision. Defined.

(** [build_info] pairs "buildname", "buildversion", "buildplatform" and
    "buildarch" with what the program says of itself. *)
Definition setNodeInfo `{Json} (given : gmap string json) (privacy : bool) : D_ (option nodeInfoError) :=
  let newnodeinfo := if negb privacy then fold_left (fun m kv => <[kv.1 := json_string kv.2]> m) build_info given else given in
  match json_Marshal newnodeinfo with
  | None => dret (Some NodeInfoMarshalling)
  | Some newjson =>
      if 16384 <? Z.of_nat (length newjson) then dret (Some NodeInfoTooLong)
      else
        _ ← dmodify (set_ph_nodeinfo (fun m => MkNodeinfo newjson (ni_callbacks m)));
        dret None
  end.

(** ** Dispatch *)

Definition handleProto (view : coreView) (key : array 32) (bs : list byte) : D_ unit :=
  match bs with
  | [] => dret tt
  | t :: rest =>
      if b2z t =? typeProtoDummy then dret tt
      else if b2z t =? typeProtoNodeInfoRequest then ni_sendRes key
      else if b2z t =? typeProtoNodeInfoResponse then ni_callback key rest
      else if b2z t =? typeProtoDebug then handleDebug view key rest
      else dret tt
  end.

(** ** Steps *)

Inductive protoEvent :=
| PrAsk (k : debugKind) (key : array 32) (callback : nat)
| PrAskInfo (now : Z) (key : array 32) (callback : nat)
| PrMessage (view : coreView) (from : array 32) (bs : list byte)
| PrFire (t : nat)
| PrCleanup
| PrNodeCleanup (now : Z).

Definition proto_step (ev : protoEvent) : D_ unit :=
  match ev with
  | PrAsk k key callback => send_request k key callback
  | PrAskInfo now key callback => ni_sendReq now key (Some callback)
  | PrMessage view from bs => handleProto view from bs
  | PrFire t =>
      pending ← dgets ph_pending;
      match pending !! t with
      | None => dret tt
      | Some c => dmodify (set_ph_timers (delete t) (fun l => l ++ [c]))
      end
  | PrCleanup =>
      cleanups ← dgets ph_cleanups;
      match cleanups with
      | [] => dret tt
      | (k, key, id) :: rest =>
          _ ← dmodify (set_ph_timers (fun p => p) (fun _ => rest));
          cleanup_request k key id
      end
  | PrNodeCleanup now => ni_cleanup now
  end.

(** ** The answer to the admin socket *)

(** The loop of [getPeersHandler] and [getTreeHandler] that takes a response
    apart; [S (length bs)] rounds are enough. *)
Fixpoint split_keys (fuel : nat) (bs : list byte) : list (list byte) :=
  match fuel with
  | O => []
  | S fuel =>
      if (32 <=? length bs)%nat then take 32 bs :: split_keys fuel (drop 32 bs) else []
  end.
Definition response_keys (bs : list byte) : list (list byte) := split_keys (S (length bs)) bs.
