(* ===== verification/ProtoSafety.v ===== *)
(** * Properties of the questions between nodes

    A question of [src/core/proto.go] or [nodeinfo.go] is answered by the node it
    was sent to, with what fits into a message, and its callback runs at most
    once. *)

From S2P Require Import Prelude Crypto RouterState KeyStore Proto.

Ltac run_pr := cbv [mbind act_bind mret act_ret act_gets act_modify act_emit].

(** ** Keys in a message *)

Definition keys_bytes (keys : list (array 32)) : list byte := concat (map arr_list keys).

Lemma length_keys_bytes keys : length (keys_bytes keys) = (32 * length keys)%nat.
Proof. induction keys as [|k keys IH]; [done|]. unfold keys_bytes in *. cbn [map concat]. rewrite length_app, length_array, IH. cbn [length]. lia. Qed.

Lemma fill_keys_spec mtu keys : forall bs, Z.of_nat (length bs + 32 * length keys) + 2 < 2 ^ 64 -> Z.of_nat (length bs) + 2 <= mtu ->
  exists n, (n <= length keys)%nat /\ fill_keys mtu bs keys = bs ++ keys_bytes (take n keys) /\
    Z.of_nat (length bs + 32 * n) + 2 <= mtu /\ (n = length keys \/ mtu < Z.of_nat (length bs + 32 * S n) + 2).
Proof.
  induction keys as [|key keys IH]; intros bs Hl Hm; cbn [fill_keys].
  - exists 0%nat. cbn. rewrite app_nil_r. split_and!; [lia|done|lia|by left].
  - cbn [length] in Hl. rewrite length_app, length_array.
    assert (u64 (Z.of_nat (length bs + 32) + 2) = Z.of_nat (length bs + 32) + 2) as -> by (apply Z.mod_small; lia).
    destruct (Z.ltb_spec mtu (Z.of_nat (length bs + 32) + 2)).
    + exists 0%nat. cbn. rewrite app_nil_r. split_and!; [lia|done|lia|right; lia].
    + destruct (IH (bs ++ arr_list key)) as (n & Hn & -> & H1 & H2); [rewrite length_app, length_array; lia|rewrite length_app, length_array; lia|].
      rewrite length_app, length_array in H1, H2. exists (S n). cbn [take]. unfold keys_bytes. cbn [map concat length]. rewrite app_assoc.
      split_and!; [lia|done|lia|]. destruct H2 as [->|H2]; [by left|right; lia].
Qed.

(** A response is taken apart into the keys. *)
Lemma response_keys_spec keys : response_keys (keys_bytes keys) = map arr_list keys.
Proof.
  unfold response_keys. assert (forall fuel, (length keys < fuel)%nat -> split_keys fuel (keys_bytes keys) = map arr_list keys) as H.
  { induction keys as [|key keys IH]; intros [|fuel] Hf; cbn [length] in Hf; try lia; [done|].
    unfold keys_bytes in *. cbn [map concat split_keys]. rewrite length_app, length_array. cbn [Nat.leb plus].
    rewrite (take_app_length' (arr_list key)), (drop_app_length' (arr_list key)) by (symmetry; apply length_array). by rewrite IH by lia. }
  apply H. rewrite length_keys_bytes. lia.
Qed.

(** ** A question and its answer *)

Lemma request_lookup k f p : ph_requests k (set_ph_requests k f p) = f (ph_requests k p).
Proof. by destruct k. Qed.
Lemma request_other k k' f p : k <> k' -> ph_requests k' (set_ph_requests k f p) = ph_requests k' p.
Proof. by destruct k, k'. Qed.
Lemma request_timers k f g p : ph_requests k (set_ph_timers f g p) = ph_requests k p.
Proof. by destruct k. Qed.
Lemma request_bump k p : ph_requests k (ph_bump p) = ph_requests k p.
Proof. by destruct k. Qed.

Definition request_bytes (k : debugKind) : list byte := [z2b typeSessionProto; z2b typeProtoDebug; z2b (typeDebug_request k)].
Definition response_head (k : debugKind) : list byte := [z2b typeProtoDebug; z2b (typeDebug_response k)].

Lemma send_request_eq k key callback p : exists p' id t,
  send_request k key callback p = Some (tt, p', [PrWriteTo (request_bytes k) key]) /\
  ph_requests k p' = <[key := MkReq id callback t]> (ph_requests k p) /\
  (forall k', k' <> k -> ph_requests k' p' = ph_requests k' p) /\ ph_nodeinfo p' = ph_nodeinfo p.
Proof.
  unfold send_request, ph_stop, sendDebug. run_pr. destruct (ph_requests k p !! key) as [info|] eqn:E; do 3 eexists; (split; [reflexivity|]).
  - rewrite request_lookup, !request_timers, !request_bump, request_lookup, request_timers, insert_delete_eq. split; [done|].
    split; [|by destruct k]. intros k' Hk. by rewrite request_other, !request_timers, !request_bump, request_other, request_timers.
  - rewrite request_lookup, !request_timers, !request_bump. split; [done|].
    split; [|by destruct k]. intros k' Hk. by rewrite request_other, !request_timers, !request_bump.
Qed.

(** What a node answers to each question, if it does. *)
Definition answer (view : coreView) (k : debugKind) : option (list byte) :=
  match k with
  | GetSelf => cv_self view
  | GetPeers => Some (fill_keys (cv_MTU view) [] (cv_peers view))
  | GetTree => Some (fill_keys (cv_MTU view) [] (cv_tree view))
  end.

Lemma handle_request view from k p :
  handleProto view from (drop 1 (request_bytes k)) p =
    Some (tt, p, match answer view k with Some bs => [PrWriteTo (z2b typeSessionProto :: response_head k ++ bs) from] | None => [] end).
Proof. destruct k; cbn [answer]; [|done|done]. cbv [request_bytes drop handleProto]. destruct view as [[bs|] ? ? ?]; done. Qed.

Lemma handle_answer view from k bs p : handleProto view from (response_head k ++ bs) p = handle_response k from bs p.
Proof. by destruct k. Qed.

(** C29: a question and its answer. The request that a node sends reaches the
    protocol handler of the other, which answers with its own state; the answer
    reaches the handler of the first, which runs the callback if it still waits,
    and then forgets it. Peers and tree are the first keys of the list, as many
    as fit: the message is no longer than the connection allows, all keys are
    sent or the next one does not fit, and the keys are read back. *)
Theorem question_answered k (ka kb : array 32) callback a b viewA viewB payload room :
  answer viewB k = Some payload ->
  Z.of_nat (32 * length (cv_peers viewB)) + 2 < 2 ^ 64 -> Z.of_nat (32 * length (cv_tree viewB)) + 2 < 2 ^ 64 -> 2 <= cv_MTU viewB ->
  exists a1 request response, send_request k kb callback a = Some (tt, a1, [PrWriteTo (request_bytes k) kb]) /\
    core_read room (request_bytes k) = CoreProto request /\
    handleProto viewB ka request b = Some (tt, b, [PrWriteTo response ka]) /\
    (k <> GetSelf -> Z.of_nat (length response) <= cv_MTU viewB + 1 /\
       exists n, let keys := match k with GetTree => cv_tree viewB | _ => cv_peers viewB end in
         response_keys payload = map arr_list (take n keys) /\ (n = length keys \/ cv_MTU viewB + 1 < Z.of_nat (length response) + 32)) /\
    exists data, core_read room response = CoreProto data /\
      forall a2, ph_requests k a2 !! kb = ph_requests k a1 !! kb ->
        exists a3, handleProto viewA kb data a2 = Some (tt, a3, [PrCallback callback payload]) /\ ph_requests k a3 !! kb = None.
Proof.
  intros Hans Hp Ht Hm. destruct (send_request_eq k kb callback a) as (a1 & id & t & Hs & Hr & _).
  exists a1, (drop 1 (request_bytes k)), (z2b typeSessionProto :: response_head k ++ payload). split; [done|]. split; [by destruct k|].
  split; [by rewrite handle_request, Hans|]. split.
  - intros Hk. assert (exists keys, payload = fill_keys (cv_MTU viewB) [] keys /\ Z.of_nat (32 * length keys) + 2 < 2 ^ 64 /\
      keys = match k with GetTree => cv_tree viewB | _ => cv_peers viewB end) as (keys & -> & Hl & Ek).
    { destruct k; [done| |]; injection Hans as <-; by eexists. }
    destruct (fill_keys_spec (cv_MTU viewB) keys [] Hl Hm) as (n & Hn & -> & H1 & H2). cbn [app length] in *.
    rewrite !length_app, length_keys_bytes, length_take_le by done. change (length (response_head k)) with 2%nat. split; [lia|].
    exists n. rewrite <- Ek. cbv zeta. split; [apply response_keys_spec|]. destruct H2 as [H2|H2]; [by left|right; lia].
  - exists (response_head k ++ payload). split; [done|]. intros a2 Ha2. rewrite Hr, lookup_insert_eq in Ha2.
    rewrite handle_answer. unfold handle_response, ph_stop. run_pr. rewrite Ha2. cbn [rq_callback app]. eexists. split; [reflexivity|].
    rewrite request_lookup. apply lookup_delete_eq.
Qed.

Definition w_pka : array 32 := array_of 32 (replicate 32 Byte.x01).
Definition w_pkb : array 32 := array_of 32 (replicate 32 Byte.x02).
Definition w_view : coreView := MkView None [w_pka; w_pkb] [] 40.

Lemma question_answered_witness : exists a1 request response, send_request GetPeers w_pkb 9 protoHandler_init = Some (tt, a1, [PrWriteTo (request_bytes GetPeers) w_pkb]) /\
  core_read 50 (request_bytes GetPeers) = CoreProto request /\ handleProto w_view w_pka request protoHandler_init = Some (tt, protoHandler_init, [PrWriteTo response w_pka]) /\
  Z.of_nat (length response) <= 41.
Proof.
  destruct (question_answered GetPeers w_pka w_pkb 9 protoHandler_init protoHandler_init w_view w_view (arr_list w_pka) 50)
    as (a1 & request & response & H1 & H2 & H3 & H4 & _); [by vm_compute|cbn; lia|cbn; lia|cbn; lia|].
  exists a1, request, response. split; [exact H1|]. split; [exact H2|]. split; [exact H3|]. by apply H4.
Defined.

(** ** Callbacks *)

(** A run, with what each event made the node do. *)
Fixpoint proto_run (evs : list protoEvent) (p : protoHandler) : option (protoHandler * list (protoEvent * list protoEffect)) :=
  match evs with
  | [] => Some (p, [])
  | ev :: evs =>
      match proto_step ev p with
      | None => None
      | Some (_, p1, es) => match proto_run evs p1 with None => None | Some (p2, tr) => Some (p2, (ev, es) :: tr) end
      end
  end.

(** A question: its kind, [None] for node information, the key and the callback. *)
Abbreviation question := (option debugKind * array 32 * nat)%type.
Definition asked (ev : protoEvent) : list question :=
  match ev with PrAsk k key c => [(Some k, key, c)] | PrAskInfo _ key c => [(None, key, c)] | _ => [] end.
Definition called (es : list protoEffect) : list nat := omap (fun e => match e with PrCallback c _ => Some c | _ => None end) es.
Definition answer_head (k : option debugKind) : list byte :=
  match k with Some k => response_head k | None => [z2b typeProtoNodeInfoResponse] end.

(** The questions that wait. *)
Definition waiting (p : protoHandler) (q : question) : Prop :=
  match q with
  | (Some k, key, c) => exists r, ph_requests k p !! key = Some r /\ rq_callback r = c
  | (None, key, c) => exists r, ni_callbacks (ph_nodeinfo p) !! key = Some r /\ nc_call r = c
  end.

Lemma waiting_unique p k key c c' : waiting p (k, key, c) -> waiting p (k, key, c') -> c = c'.
Proof. destruct k as [k|]; intros (r & Hr & <-) (r' & Hr' & <-); by simplify_eq. Qed.

(** A step asks, or forgets questions, or answers one with a callback. *)
Definition forgets (p p' : protoHandler) : Prop := forall q, waiting p' q -> waiting p q.
Definition step_kind (ev : protoEvent) (p p' : protoHandler) (es : list protoEffect) : Prop :=
  (exists q, asked ev = [q] /\ called es = [] /\ forall q', waiting p' q' -> q' = q \/ waiting p q') \/
  (asked ev = [] /\ called es = [] /\ forgets p p') \/
  (asked ev = [] /\ exists k key c bs view, ev = PrMessage view key (answer_head k ++ bs) /\ es = [PrCallback c bs] /\
     waiting p (k, key, c) /\ forall q, waiting p' q -> waiting p q /\ q.1 <> (k, key)).

Lemma forgets_delete k key p : forgets p (set_ph_requests k (delete key) p).
Proof.
  intros [[[k'|] key'] c]; cbn [waiting].
  - intros (r & Hr & Hc). exists r. split; [|done]. destruct (decide (k = k')) as [->|Hk].
    + rewrite request_lookup in Hr. by apply lookup_delete_Some in Hr as [_ Hr].
    + by rewrite request_other in Hr.
  - by destruct k.
Qed.
Lemma forgets_timers f g p : forgets p (set_ph_timers f g p).
Proof. intros [[[k'|] key'] c]; cbn [waiting]; [by destruct k'|done]. Qed.

Lemma step_handle_response k key bs view p : exists p' es, handle_response k key bs p = Some (tt, p', es) /\
  step_kind (PrMessage view key (answer_head (Some k) ++ bs)) p p' es.
Proof.
  unfold handle_response, ph_stop. run_pr. destruct (ph_requests k p !! key) as [r|] eqn:E; do 2 eexists; (split; [reflexivity|]).
  - right. right. split; [done|]. exists (Some k), key, (rq_callback r), bs, view. split_and!; [done|done|by exists r|].
    intros q Hq. split; [by eapply forgets_timers, forgets_delete|]. intros Eq. destruct q as [[kq keyq] c]. cbn in Eq. injection Eq as -> ->.
    destruct Hq as (r' & Hr' & _). rewrite request_lookup, request_timers in Hr'. by rewrite lookup_delete_eq in Hr'.
  - right. left. split_and!; [done|done|by intros q].
Qed.

Lemma step_callback key bs view p : exists p' es, ni_callback key bs p = Some (tt, p', es) /\
  step_kind (PrMessage view key (answer_head None ++ bs)) p p' es.
Proof.
  unfold ni_callback. run_pr. destruct (ni_callbacks (ph_nodeinfo p) !! key) as [r|] eqn:E; do 2 eexists; (split; [reflexivity|]).
  - right. right. split; [done|]. exists None, key, (nc_call r), bs, view. split_and!; [done|done|by exists r|].
    intros [[[k|] keyq] c]; cbn [waiting]; [by intros Hw|]. intros (r' & Hr' & Hc). cbn in Hr'. apply lookup_delete_Some in Hr' as [Hne Hr'].
    split; [by exists r'|]. intros [= ->]. done.
  - right. left. split_and!; [done|done|by intros q].
Qed.

Lemma step_quiet p ev es : asked ev = [] -> called es = [] -> step_kind ev p p es.
Proof. intros H1 H2. right. left. split_and!; [done|done|by intros q]. Qed.

Lemma step_message view key bs p : exists p' es, handleProto view key bs p = Some (tt, p', es) /\ step_kind (PrMessage view key bs) p p' es.
Proof.
  assert (exists p' es, (mret tt : D_ unit) p = Some (tt, p', es) /\ step_kind (PrMessage view key bs) p p' es) as Hret
    by (do 2 eexists; split; [reflexivity|by apply step_quiet]).
  assert (forall data dType, exists p' es, sendDebug key dType data p = Some (tt, p', es) /\ step_kind (PrMessage view key bs) p p' es) as Hsend
    by (intros; do 2 eexists; split; [reflexivity|by apply step_quiet]).
  unfold handleProto. destruct bs as [|t rest]; [exact Hret|].
  destruct (b2z t =? typeProtoDummy); [exact Hret|].
  destruct (b2z t =? typeProtoNodeInfoRequest); [do 2 eexists; split; [reflexivity|by apply step_quiet]|].
  destruct (Z.eqb_spec (b2z t) typeProtoNodeInfoResponse) as [Ht|_].
  { destruct (step_callback key rest view p) as (p' & es & Hc & Hk). exists p', es. split; [done|].
    by replace (t :: rest) with (answer_head None ++ rest) by (cbn; by rewrite <- Ht, z2b_b2z). }
  destruct (Z.eqb_spec (b2z t) typeProtoDebug) as [Ht|_]; [|exact Hret].
  unfold handleDebug. destruct rest as [|t' rest]; [exact Hret|].
  assert (forall k, b2z t' = typeDebug_response k -> exists p' es, handle_response k key rest p = Some (tt, p', es) /\
    step_kind (PrMessage view key (t :: t' :: rest)) p p' es) as Hresp.
  { intros k Hk. destruct (step_handle_response k key rest view p) as (p' & es & Hc & Hs). exists p', es. split; [done|].
    by replace (t :: t' :: rest) with (answer_head (Some k) ++ rest) by (cbn; by rewrite <- Ht, <- Hk, !z2b_b2z). }
  destruct (b2z t' =? typeDebug_request GetSelf); [unfold handleGetSelfRequest; destruct (cv_self view); [apply Hsend|exact Hret]|].
  destruct (Z.eqb_spec (b2z t') (typeDebug_response GetSelf)); [by apply Hresp|].
  destruct (b2z t' =? typeDebug_request GetPeers); [apply Hsend|].
  destruct (Z.eqb_spec (b2z t') (typeDebug_response GetPeers)); [by apply Hresp|].
  destruct (b2z t' =? typeDebug_request GetTree); [apply Hsend|].
  destruct (Z.eqb_spec (b2z t') (typeDebug_response GetTree)); [by apply Hresp|]. exact Hret.
Qed.

Lemma step_ask k key c p : exists p' es, send_request k key c p = Some (tt, p', es) /\ step_kind (PrAsk k key c) p p' es.
Proof.
  destruct (send_request_eq k key c p) as (p' & id & t & Hs & Hr & Ho & Hn). do 2 eexists. split; [exact Hs|]. left. exists (Some k, key, c).
  split_and!; [done|done|]. intros [[[k'|] key'] c']; cbn [waiting].
  - intros (r & Hr' & Hc). destruct (decide (k' = k)) as [->|Hk]; [|right; exists r; by rewrite <- Ho].
    rewrite Hr in Hr'. apply lookup_insert_Some in Hr' as [[<- <-]|[_ Hr']]; [left; by rewrite <- Hc|right; by exists r].
  - rewrite Hn. by right.
Qed.

Lemma step_any ev p : exists p' es, proto_step ev p = Some (tt, p', es) /\ step_kind ev p p' es.
Proof.
  destruct ev as [k key c|now key c|view from bs|t| |now]; cbn [proto_step].
  - apply step_ask.
  - unfold ni_sendReq, addCallback. run_pr. do 2 eexists. split; [reflexivity|]. left. exists (None, key, c). split_and!; [done|done|].
    intros [[[k'|] key'] c']; cbn [waiting]; [by right|]. intros (r & Hr & Hc). cbn in Hr.
    apply lookup_insert_Some in Hr as [[<- <-]|[_ Hr]]; [left; by rewrite <- Hc|right; by exists r].
  - apply step_message.
  - run_pr. destruct (ph_pending p !! t) as [c|]; (do 2 eexists; split; [reflexivity|]); [|by apply step_quiet].
    right. left. split_and!; [done|done|apply forgets_timers].
  - run_pr. destruct (ph_cleanups p) as [|[[k key] id] rest]; [do 2 eexists; split; [reflexivity|]; by apply step_quiet|].
    unfold cleanup_request. run_pr. case_bool_decide; (do 2 eexists; split; [reflexivity|]); right; left; (split_and!; [done|done|]); intros q Hq.
    + by eapply forgets_timers, forgets_delete.
    + by eapply forgets_timers.
  - unfold ni_cleanup. run_pr. do 2 eexists. split; [reflexivity|]. right. left. split_and!; [done|done|].
    intros [[[k'|] key'] c']; cbn [waiting]; [done|]. intros (r & Hr & Hc). cbn in Hr. apply map_lookup_filter_Some in Hr as [Hr _]. by exists r.
Qed.

(** Callback numbers are different, so a question is known by its own. *)
Lemma question_of_callback (l : list question) q q' : NoDup (map snd l) -> q ∈ l -> q' ∈ l -> q.2 = q'.2 -> q = q'.
Proof.
  induction l as [|x l IH]; cbn [map]; [by intros _ ?%elem_of_nil|]. intros [Hx Hnd]%NoDup_cons Hq Hq' E.
  assert (forall y, y ∈ l -> y.2 <> x.2) as Hne by (intros y Hy Ey; apply Hx; rewrite <- Ey; by apply (list_elem_of_fmap_2 snd)).
  apply elem_of_cons in Hq as [->|Hq]; apply elem_of_cons in Hq' as [->|Hq']; [done| | |by apply IH].
  - by apply Hne in Hq'.
  - by apply Hne in Hq.
Qed.

(** What the callbacks of a run may be: new ones, of questions asked. *)
Definition calls_ok (before : list question) (done_ : list nat) (evs : list protoEvent) (tr : list (protoEvent * list protoEffect)) : Prop :=
  NoDup (concat (map (fun x => called x.2) tr)) /\ (forall c, c ∈ concat (map (fun x => called x.2) tr) -> c ∉ done_) /\
  forall ev es c bs, (ev, es) ∈ tr -> PrCallback c bs ∈ es ->
    exists k key view, (k, key, c) ∈ before ++ concat (map asked evs) /\ ev = PrMessage view key (answer_head k ++ bs).

Lemma called_nil es c bs : called es = [] -> PrCallback c bs ∉ es.
Proof. intros E Hin. assert (c ∈ called es) as Hc by (apply list_elem_of_omap; by exists (PrCallback c bs)). rewrite E in Hc. by apply elem_of_nil in Hc. Qed.

Lemma callbacks_gen evs : forall p0 p tr before done_, proto_run evs p0 = Some (p, tr) -> NoDup (map snd (before ++ concat (map asked evs))) ->
  (forall q, waiting p0 q -> q ∈ before /\ q.2 ∉ done_) -> (forall c, c ∈ done_ -> c ∈ map snd before) -> calls_ok before done_ evs tr.
Proof.
  induction evs as [|ev evs IH]; intros p0 p tr before done_ Hr Hnd Hw Hd; cbn [proto_run] in Hr.
  { injection Hr as <- <-. split; [constructor|]. split; [by intros c ?%elem_of_nil|]. by intros ? ? ? ? ?%elem_of_nil. }
  destruct (step_any ev p0) as (p1 & es & Hs & Hk). rewrite Hs in Hr. destruct (proto_run evs p1) as [[p2 tr2]|] eqn:Er; [|done]. injection Hr as <- <-.
  cbn [map concat] in Hnd. destruct Hk as [(q & Ha & Hc & Hq)|[(Ha & Hc & Hf)|(Ha & k & key & c & bs & view & -> & -> & Hwait & Hq)]].
  - rewrite Ha in Hnd. cbn [app] in Hnd. rewrite (app_assoc before [q]) in Hnd || change (q :: ?x) with ([q] ++ x) in Hnd.
    assert (NoDup (map snd ((before ++ [q]) ++ concat (map asked evs)))) as Hnd' by (by rewrite <- app_assoc).
    destruct (IH p1 p2 tr2 (before ++ [q]) done_ Er Hnd') as (H1 & H2 & H3).
    + intros q' [->|Hq']%Hq.
      * split; [apply elem_of_app; right; by left|]. intros Hin%Hd. rewrite !map_app in Hnd'. apply NoDup_app in Hnd' as (Hnd' & _ & _).
        apply NoDup_app in Hnd' as (_ & Hdis & _). apply (Hdis _ Hin). by left.
      * apply Hw in Hq' as [Hq' Hn]. split; [apply elem_of_app; by left|done].
    + intros c Hin. rewrite map_app. apply elem_of_app. left. auto.
    + unfold calls_ok. cbn [map concat snd]. rewrite Hc. split_and!; [done|done|]. intros ev' es' c bs [[= -> ->]|Hin]%elem_of_cons Hcb; [by apply called_nil in Hcb|].
      destruct (H3 _ _ _ _ Hin Hcb) as (k & key & view & Hq3 & ->). exists k, key, view. split; [|done]. rewrite Ha. cbn [app]. by rewrite <- app_assoc in Hq3.
  - rewrite Ha in Hnd. destruct (IH p1 p2 tr2 before done_ Er Hnd) as (H1 & H2 & H3); [intros q Hq; by apply Hw, Hf|done|].
    unfold calls_ok. cbn [map concat snd]. rewrite Hc, Ha. split_and!; [done|done|]. intros ev' es' c bs [[= -> ->]|Hin]%elem_of_cons Hcb; [by apply called_nil in Hcb|].
    by apply (H3 ev' es').
  - destruct (Hw _ Hwait) as [Hb Hnc]. cbn [snd] in Hnc. cbn [asked app] in Hnd.
    destruct (IH p1 p2 tr2 before (c :: done_) Er Hnd) as (H1 & H2 & H3).
    + intros q Hq'. destruct (Hq q Hq') as [Hq0 Hne]. destruct (Hw q Hq0) as [Hb' Hnd0]. split; [done|]. intros [E|Hin]%elem_of_cons; [|done].
      apply Hne. rewrite map_app in Hnd. apply NoDup_app in Hnd as (Hnd & _ & _). by rewrite (question_of_callback before q (k, key, c) Hnd Hb' Hb E).
    + intros c' [->|Hin]%elem_of_cons; [by apply (list_elem_of_fmap_2 snd _ _ Hb)|auto].
    + unfold calls_ok. cbn [map concat snd called omap list_omap app asked]. split_and!.
      * constructor; [|done]. intros Hin. apply H2 in Hin. apply Hin. by left.
      * intros c' [->|Hin]%elem_of_cons; [done|]. apply H2 in Hin. intros Hd'. apply Hin. by right.
      * intros ev' es' c' bs' [[= -> ->]|Hin]%elem_of_cons Hcb; [|by apply (H3 ev' es')].
        apply list_elem_of_singleton in Hcb as [= -> ->]. exists k, key, view. split; [apply elem_of_app; by left|done].
Qed.

(** C30: whatever arrives and in whatever order timers run, the callback of a
    question runs at most once, and only for an answer to the same kind of
    question from the key that was asked, with the contents of that answer. *)
Theorem callbacks_once evs p tr : proto_run evs protoHandler_init = Some (p, tr) -> NoDup (map snd (concat (map asked evs))) ->
  NoDup (concat (map (fun x => called x.2) tr)) /\
  forall ev es c bs, (ev, es) ∈ tr -> PrCallback c bs ∈ es ->
    exists k key view, (k, key, c) ∈ concat (map asked evs) /\ ev = PrMessage view key (answer_head k ++ bs).
Proof.
  intros Hr Hnd. destruct (callbacks_gen evs protoHandler_init p tr [] [] Hr Hnd) as (H1 & _ & H2); [|by intros c ?%elem_of_nil|done].
  intros [[[[| |]|] key] c] (r & Hl & _); cbn in Hl; by rewrite lookup_empty in Hl.
Qed.

Definition w_pr_events : list protoEvent :=
  [PrAsk GetPeers w_pkb 1; PrAskInfo 0 w_pkb 2; PrMessage w_view w_pkb (answer_head (Some GetPeers) ++ arr_list w_pka);
   PrMessage w_view w_pkb (answer_head (Some GetPeers) ++ []); PrMessage w_view w_pkb (answer_head None ++ [Byte.x7b; Byte.x7d])].

Lemma callbacks_once_witness : exists p tr, proto_run w_pr_events protoHandler_init = Some (p, tr) /\
  concat (map (fun x => called x.2) tr) = [1; 2]%nat /\ NoDup (concat (map (fun x => called x.2) tr)).
Proof.
  destruct (proto_run w_pr_events protoHandler_init) as [[p tr]|] eqn:E; [|vm_compute in E; discriminate E].
  destruct (callbacks_once w_pr_events p tr E) as [H _].
  { apply (bool_decide_unpack _). vm_compute. reflexivity. }
  exists p, tr. split; [reflexivity|]. split; [|exact H]. vm_compute in E. injection E as _ <-. reflexivity.
Defined.
