(* ===== verification/Listeners.v ===== *)
(** * The listeners of a node

    [src/core/link.go]: [listen], the goroutine that it starts for a listener,
    [Cancel] and the part of [shutdown] that stops listeners; with the [Accept] of
    the carriers in [link_ws.go] and [link_quic.go], which does not return when the
    listener is closed.

    A pointer to a [Listener] is a number. The goroutine accepts connections until
    [Accept] fails, and then runs its deferred block on the actor. *)

From Stdlib Require Import String.
From S2P Require Import Prelude Crypto RouterState Version Handshake LinkOptions.

(** Where the goroutine is: it was not started, it is in [Accept], it is about to
    run its deferred block, or it has ended. *)
Inductive listenPc := LNone | LAccepting | LLeaving | LEnded.
#[global] Instance listenPc_eq_dec : EqDecision listenPc.
Proof. solve_decision. Defined.

(** [ln_open]: the socket is open; [ln_done]: the context was cancelled. *)
Record listener := MkListening {
  ln_url : url;
  ln_sintf : string;
  ln_protocol : linkProtocol;
  ln_options : linkOptions;
  ln_local : bool;
  ln_open : bool;
  ln_done : bool;
  ln_pc : listenPc
}.

Definition set_ln_pc (pc : listenPc) (l : listener) : listener :=
  MkListening (ln_url l) (ln_sintf l) (ln_protocol l) (ln_options l) (ln_local l) (ln_open l) (ln_done l) pc.
Definition ln_close (l : listener) : listener :=
  MkListening (ln_url l) (ln_sintf l) (ln_protocol l) (ln_options l) (ln_local l) false true (ln_pc l).

(** [lt_table] is [_listeners]; [lt_heap] holds every listener that was made. *)
Record listeners := MkListeners {
  lt_table : gset nat;
  lt_heap : gmap nat listener;
  lt_next : nat
}.

Definition listeners_init : listeners := MkListeners ∅ ∅ 0.
Definition set_lt_table f (s : listeners) : listeners := MkListeners (f (lt_table s)) (lt_heap s) (lt_next s).
Definition set_lt_heap f (s : listeners) : listeners := MkListeners (lt_table s) (f (lt_heap s)) (lt_next s).

Inductive listenError := LErrLink (e : linkError) | LErrCarrier.

Inductive listenEffect :=
| LsnReturn (r : sum listenError nat)
| LsnAccepted (u : url) (remoteAddr sintf : string) (options : linkOptions) (local : bool).

Abbreviation L_ := (Act listeners listenEffect).
Abbreviation lnret a := (mret (M := Act listeners listenEffect) a) (only parsing).
Abbreviation lngets f := (act_gets (S := listeners) (E := listenEffect) f).
Abbreviation lnmodify f := (act_modify (S := listeners) (E := listenEffect) f).
Abbreviation lnemit e := (act_emit (S := listeners) (E := listenEffect) e).

(** The protocols whose [listen] is not supported. *)
Definition listen_supported (p : linkProtocol) : bool :=
  match p with linkSOCKS | linkWSS => false | _ => true end.

(** [Accept] may return an error at any time, but for the carriers that only
    wait for their channel; once the listener is closed it does nothing else. *)
Definition accept_may_fail (l : listener) : bool :=
  match ln_protocol l with linkWS | linkQUIC => false | _ => true end.
Definition accept_fails (l : listener) : bool := accept_may_fail l && negb (ln_open l).

(** [Cancel] *)
Definition listener_cancel (li : nat) : L_ unit := lnmodify (set_lt_heap (alter ln_close li)).

(** [listen]; [opened] tells whether the carrier could open the socket. *)
Definition links_listen (u : url) (sintf : string) (local opened : bool) : L_ unit :=
  match listenerFor u with
  | None => lnemit (LsnReturn (inl (LErrLink ErrLinkUnrecognisedSchema)))
  | Some protocol =>
      if negb (opened && listen_supported protocol) then lnemit (LsnReturn (inl LErrCarrier))
      else
        li ← lngets lt_next;
        _ ← lnmodify (fun s => MkListeners (lt_table s) (lt_heap s) (S (lt_next s)));
        let l options pc := MkListening u sintf protocol options local true false pc in
        match listen_options u with
        | inl e =>
            _ ← lnmodify (set_lt_heap (insert li (l (MkLinkOptions ∅ 0 "" [] 0) LNone)));
            lnemit (LsnReturn (inl (LErrLink e)))
        | inr options =>
            _ ← lnmodify (set_lt_heap (insert li (l options LAccepting)));
            _ ← lnmodify (set_lt_table (union {[li]}));
            lnemit (LsnReturn (inr li))
        end
  end.

(** One round of the goroutine: a connection, or an error of any kind, or its end. *)
Definition listener_accept (li : nat) (remoteAddr : string) : L_ unit :=
  heap ← lngets lt_heap;
  match heap !! li with
  | Some l =>
      if bool_decide (ln_pc l = LAccepting) && negb (accept_fails l) then
        lnemit (LsnAccepted (ln_url l) remoteAddr (ln_sintf l) (ln_options l) (ln_local l))
      else lnret tt
  | None => lnret tt
  end.
Definition listener_error (li : nat) : L_ unit :=
  heap ← lngets lt_heap;
  match heap !! li with
  | Some l =>
      if bool_decide (ln_pc l = LAccepting) && accept_may_fail l then lnmodify (set_lt_heap (insert li (set_ln_pc LLeaving l))) else lnret tt
  | None => lnret tt
  end.
Definition listener_leave (li : nat) : L_ unit :=
  heap ← lngets lt_heap;
  match heap !! li with
  | Some l =>
      if bool_decide (ln_pc l = LLeaving) then
        _ ← listener_cancel li;
        _ ← lnmodify (set_lt_heap (alter (set_ln_pc LEnded) li));
        lnmodify (set_lt_table (fun t => t ∖ {[li]}))
      else lnret tt
  | None => lnret tt
  end.

(** The first loop of [shutdown]. *)
Definition listeners_shutdown `{MapOrder} : L_ unit :=
  table ← lngets lt_table;
  act_for (map_order table) listener_cancel.

Inductive listenEvent :=
| LnListen (u : url) (sintf : string) (local opened : bool)
| LnCancel (li : nat)
| LnShutdown
| LnAccept (li : nat) (remoteAddr : string)
| LnError (li : nat)
| LnLeave (li : nat).

Definition listeners_step `{MapOrder} (ev : listenEvent) : L_ unit :=
  match ev with
  | LnListen u sintf local opened => links_listen u sintf local opened
  | LnCancel li => listener_cancel li
  | LnShutdown => listeners_shutdown
  | LnAccept li remoteAddr => listener_accept li remoteAddr
  | LnError li => listener_error li
  | LnLeave li => listener_leave li
  end.

(** ** Properties of the listeners

    Which sockets [listen] of [src/core/link.go] keeps, that listeners stop, and
    the two cases where one does not. *)

Section safety.
Context `{MapOrder}.

Fixpoint listeners_run (evs : list listenEvent) (s : listeners) : option (listeners * list listenEffect) :=
  match evs with
  | [] => Some (s, [])
  | ev :: evs =>
      match listeners_step ev s with
      | None => None
      | Some (_, s1, es1) => match listeners_run evs s1 with None => None | Some (s2, es2) => Some (s2, es1 ++ es2) end
      end
  end.

Definition runs (l : listener) : bool := match ln_pc l with LAccepting | LLeaving => true | _ => false end.

(** What holds of one listener, given whether it is in the table. *)
Definition listener_ok (l : listener) (listed : bool) : Prop :=
  listed = runs l /\ match ln_pc l with
  | LNone => exists e, listen_options (ln_url l) = inl e
  | LAccepting => listen_options (ln_url l) = inr (ln_options l)
  | LLeaving => True
  | LEnded => ln_open l = false
  end.

Record listeners_ok (s : listeners) : Prop := {
  lo_each li l : lt_heap s !! li = Some l -> listener_ok l (bool_decide (li ∈ lt_table s));
  lo_table li : li ∈ lt_table s -> lt_heap s !! li <> None;
  lo_next li : lt_heap s !! li <> None -> (li < lt_next s)%nat
}.

Lemma ok_init : listeners_ok listeners_init.
Proof. split; cbn; [done|set_solver|done]. Qed.

(** A listener changes, but neither its URL nor its place. *)
Lemma ok_alter s li f : listeners_ok s -> (forall l b, listener_ok l b -> listener_ok (f l) b) -> listeners_ok (set_lt_heap (alter f li) s).
Proof.
  intros [He Ht Hn] Hf. split; cbn.
  - intros li' l Hl. destruct (decide (li' = li)) as [->|Hne].
    + rewrite lookup_alter_eq in Hl. destruct (lt_heap s !! li) as [l0|] eqn:E; [|done]. injection Hl as <-. by apply Hf, He.
    + rewrite lookup_alter_ne in Hl by done. by apply He.
  - intros li' Hin. destruct (decide (li' = li)) as [->|Hne]; [rewrite lookup_alter_eq|rewrite lookup_alter_ne by done; by apply Ht]. intros E%fmap_None. by apply (Ht li).
  - intros li'. destruct (decide (li' = li)) as [->|Hne]; [rewrite lookup_alter_eq|rewrite lookup_alter_ne by done; by apply Hn].
    intros E. apply Hn. intros E'. by rewrite E' in E.
Qed.

Lemma ln_close_ok l b : listener_ok l b -> listener_ok (ln_close l) b.
Proof. unfold listener_ok, runs. destruct l as [u si p o lo op dn pc]. cbn. intros [-> Hp]. split; [done|]. by destruct pc. Qed.

(** A new listener. *)
Lemma ok_new s l listed : listeners_ok s -> listener_ok l listed ->
  listeners_ok (MkListeners (if listed then {[lt_next s]} ∪ lt_table s else lt_table s) (<[lt_next s := l]> (lt_heap s)) (S (lt_next s))).
Proof.
  intros [He Ht Hn] Hl. assert (lt_next s ∉ lt_table s) as Hf by (intros Hin%Ht%Hn; lia). split; cbn.
  - intros li l' [[<- <-]|[Hne Hl']]%lookup_insert_Some.
    + assert (bool_decide (lt_next s ∈ (if listed then {[lt_next s]} ∪ lt_table s else lt_table s)) = listed) as ->; [|done].
      destruct listed; [apply bool_decide_eq_true; set_solver|by apply bool_decide_eq_false].
    + apply He in Hl'. assert (bool_decide (li ∈ (if listed then {[lt_next s]} ∪ lt_table s else lt_table s)) = bool_decide (li ∈ lt_table s)) as ->; [|done].
      apply bool_decide_ext. destruct listed; set_solver.
  - intros li Hin. destruct (decide (li = lt_next s)) as [->|Hne]; [by rewrite lookup_insert_eq|]. rewrite lookup_insert_ne by done.
    apply Ht. destruct listed; set_solver.
  - intros li Hin. destruct (decide (li = lt_next s)) as [->|Hne]; [lia|]. rewrite lookup_insert_ne in Hin by done. apply Hn in Hin. lia.
Qed.

Definition keeps (m : L_ unit) : Prop := forall s, listeners_ok s -> wp m s (fun _ s' _ => listeners_ok s').

Lemma keeps_cancel li : keeps (listener_cancel li).
Proof. intros s Hs. apply wp_modify. apply ok_alter; [done|apply ln_close_ok]. Qed.

Lemma keeps_leave s li l : listeners_ok s -> lt_heap s !! li = Some l -> ln_pc l = LLeaving ->
  listeners_ok (set_lt_table (fun t => t ∖ {[li]}) (set_lt_heap (alter (set_ln_pc LEnded) li) (set_lt_heap (alter ln_close li) s))).
Proof.
  intros [He Ht Hn] Hl Hpc. assert (alter (set_ln_pc LEnded) li (alter ln_close li (lt_heap s)) = <[li := set_ln_pc LEnded (ln_close l)]> (lt_heap s)) as E.
  { apply map_eq. intros i. destruct (decide (i = li)) as [->|Hne]; [by rewrite !lookup_alter_eq, Hl, lookup_insert_eq|].
    by rewrite !lookup_alter_ne, lookup_insert_ne. }
  split; cbn; rewrite E.
  - intros i l' [[<- <-]|[Hne Hl']]%lookup_insert_Some.
    + rewrite bool_decide_false by set_solver. by split.
    + apply He in Hl'. assert (bool_decide (i ∈ lt_table s ∖ {[li]}) = bool_decide (i ∈ lt_table s)) as ->; [|done]. apply bool_decide_ext. set_solver.
  - intros i [Hin Hne]%elem_of_difference. rewrite lookup_insert_ne by set_solver. by apply Ht.
  - intros i Hi. destruct (decide (i = li)) as [->|Hne]; [apply Hn; by rewrite Hl|]. rewrite lookup_insert_ne in Hi by done. by apply Hn.
Qed.

Lemma keeps_step ev : keeps (listeners_step ev).
Proof.
  intros s Hs. destruct ev as [u sintf local opened|li| |li remoteAddr|li|li]; cbn [listeners_step].
  - unfold links_listen. destruct (listenerFor u) as [protocol|]; [|by apply wp_emit].
    destruct (negb (opened && listen_supported protocol)); [by apply wp_emit|].
    apply wp_bind, wp_gets, wp_bind, wp_modify. cbv zeta. destruct (listen_options u) as [e|options] eqn:Eo.
    + apply wp_bind, wp_modify, wp_emit. apply (ok_new s _ false Hs). split; [done|by exists e].
    + apply wp_bind, wp_modify, wp_bind, wp_modify, wp_emit. by apply (ok_new s _ true Hs).
  - by apply keeps_cancel.
  - unfold listeners_shutdown. apply wp_bind, wp_gets. cbn [app].
    eapply wp_mono; [apply (wp_for _ _ listeners_ok (fun _ => True)); [done|]|by intros ? ? ? [? _]].
    intros li s' _ Hs'. eapply wp_mono; [by apply keeps_cancel|]. intros [] s2 es2 Hs2. split; [done|]. by apply Forall_true.
  - unfold listener_accept. apply wp_bind, wp_gets. destruct (lt_heap s !! li) as [l|]; [|by apply wp_ret]. case_match; [by apply wp_emit|by apply wp_ret].
  - unfold listener_error. apply wp_bind, wp_gets. destruct (lt_heap s !! li) as [l|] eqn:El; [|by apply wp_ret].
    destruct (bool_decide (ln_pc l = LAccepting) && accept_may_fail l) eqn:E; [|by apply wp_ret]. apply andb_true_iff in E as [E1%bool_decide_eq_true E2].
    apply wp_modify.
    assert (<[li := set_ln_pc LLeaving l]> (lt_heap s) = alter (fun l0 => set_ln_pc LLeaving l) li (lt_heap s)) as Ea.
    { apply map_eq. intros i. destruct (decide (i = li)) as [->|Hne]; [by rewrite lookup_insert_eq, lookup_alter_eq, El|by rewrite lookup_insert_ne, lookup_alter_ne]. }
    destruct Hs as [He Ht Hn]. split; cbn.
    + intros i l' [[<- <-]|[Hne Hl']]%lookup_insert_Some; [|by apply He]. destruct (He _ _ El) as [Hb _]. rewrite Hb. unfold listener_ok, runs. by rewrite E1.
    + intros i Hi. destruct (decide (i = li)) as [->|Hne]; [by rewrite lookup_insert_eq|rewrite lookup_insert_ne by done; by apply Ht].
    + intros i Hi. destruct (decide (i = li)) as [->|Hne]; [apply Hn; by rewrite El|rewrite lookup_insert_ne in Hi by done; by apply Hn].
  - unfold listener_leave. apply wp_bind, wp_gets. destruct (lt_heap s !! li) as [l|] eqn:El; [|by apply wp_ret].
    destruct (bool_decide_reflect (ln_pc l = LLeaving)) as [E|]; [|by apply wp_ret].
    unfold listener_cancel. apply wp_bind, wp_modify, wp_bind, wp_modify, wp_modify. by apply (keeps_leave s li l).
Qed.

Lemma listeners_run_ok evs : forall s s' es, listeners_ok s -> listeners_run evs s = Some (s', es) -> listeners_ok s'.
Proof.
  induction evs as [|ev evs IH]; intros s s' es Hs; cbn [listeners_run]; [by intros [= <- <-]|].
  pose proof (keeps_step ev s Hs) as Hk. unfold wp in Hk. destruct (listeners_step ev s) as [[[u s1] es1]|]; [|done].
  destruct (listeners_run evs s1) as [[s2 es2]|] eqn:E; [|done]. intros [= <- <-]. by eapply IH.
Qed.

(** Cancelling some listeners closes these. *)
Lemma cancel_all l : forall s, exists s', act_for l listener_cancel s = Some (tt, s', []) /\ lt_table s' = lt_table s /\ lt_next s' = lt_next s /\
  forall li, lt_heap s' !! li = (if bool_decide (li ∈ l) then ln_close else fun x => x) <$> lt_heap s !! li.
Proof.
  induction l as [|i l IH]; intros s; cbn [act_for].
  - exists s. split_and!; [done|done|done|]. intros li. rewrite bool_decide_false by apply not_elem_of_nil. by destruct (lt_heap s !! li).
  - destruct (IH (set_lt_heap (alter ln_close i) s)) as (s' & E & Et & En & Hc). exists s'. cbv [mbind act_bind].
    change (listener_cancel i s) with (Some (tt, set_lt_heap (alter ln_close i) s, @nil listenEffect)). cbv iota beta. rewrite E.
    split_and!; [done|done|done|]. intros li. rewrite Hc. cbn [set_lt_heap lt_heap]. destruct (decide (li = i)) as [->|Hne].
    + rewrite lookup_alter_eq, (bool_decide_true (i ∈ i :: l)) by left. destruct (lt_heap s !! i); [|done]. cbn. by destruct (bool_decide (i ∈ l)).
    + rewrite lookup_alter_ne by done. assert (bool_decide (li ∈ i :: l) = bool_decide (li ∈ l)) as ->; [|done].
      apply bool_decide_ext. rewrite elem_of_cons. tauto.
Qed.

(** C31: the table of listeners. Whatever is started, cancelled, accepted and
    shut down: a listener is in the table exactly while its goroutine runs; every
    open socket is in the table, but for those of URIs whose options are refused;
    after [shutdown] no listener in the table is open; and a cancelled listener
    whose [Accept] notices it leaves the table by its own next two steps. *)
Theorem listeners_accounted evs s es : listeners_run evs listeners_init = Some (s, es) ->
  (forall li l, lt_heap s !! li = Some l -> (li ∈ lt_table s <-> runs l = true)) /\
  (forall li l, lt_heap s !! li = Some l -> ln_open l = true -> li ∈ lt_table s \/ exists e, listen_options (ln_url l) = inl e) /\
  (exists s', listeners_step LnShutdown s = Some (tt, s', []) /\ forall li l, li ∈ lt_table s' -> lt_heap s' !! li = Some l -> ln_open l = false) /\
  (forall li l, lt_heap s !! li = Some l -> ln_pc l = LAccepting -> accept_fails (ln_close l) = true ->
     exists s', listeners_run [LnCancel li; LnError li; LnLeave li] s = Some (s', []) /\ li ∉ lt_table s').
Proof.
  intros Hr. pose proof (listeners_run_ok evs _ _ _ ok_init Hr) as [He Ht Hn]. split_and!.
  - intros li l Hl. destruct (He li l Hl) as [Hb _]. rewrite <- Hb. symmetry. apply bool_decide_eq_true.
  - intros li l Hl Ho. destruct (He li l Hl) as [Hb Hp]. unfold runs in Hb. destruct (ln_pc l); [by right|left..|congruence]; by apply bool_decide_eq_true in Hb.
  - cbn [listeners_step]. unfold listeners_shutdown. cbv [mbind act_bind act_gets].
    destruct (cancel_all (map_order (lt_table s)) s) as (s' & E & Et & _ & Hc). rewrite E. exists s'. split; [done|].
    intros li l Hin Hl. rewrite Hc, bool_decide_true in Hl by (apply elem_of_map_order; by rewrite <- Et).
    destruct (lt_heap s !! li); [by injection Hl as <-|done].
  - intros li l Hl Hpc Hacc. cbn [listeners_run listeners_step]. unfold listener_cancel at 1, listener_error, listener_leave, listener_cancel.
    cbv [mbind act_bind act_modify act_gets mret act_ret]. cbn [set_lt_heap lt_heap]. rewrite lookup_alter_eq, Hl. cbn [fmap option_fmap option_map].
    assert (ln_pc (ln_close l) = LAccepting) as -> by done. rewrite (bool_decide_true (LAccepting = LAccepting)) by done.
    apply andb_true_iff in Hacc as [Hacc _]. rewrite Hacc. cbn [andb].
    cbn [set_lt_heap lt_heap lt_table lt_next]. rewrite lookup_insert_eq. cbn [set_ln_pc ln_pc]. rewrite bool_decide_true by done.
    eexists. split; [reflexivity|]. cbn. set_solver.
Qed.

(** ** Listeners that do not stop *)

Definition only_waits (p : linkProtocol) : bool := match p with linkWS | linkQUIC => true | _ => false end.

(** A listener whose goroutine cannot move: it was never started, or waits. *)
Definition immobile (l : listener) : Prop := ln_pc l = LNone \/ ln_pc l = LAccepting /\ only_waits (ln_protocol l) = true.

(** Such a listener stays as it is, but for being closed by those that may. *)
Lemma immobile_step ev s s' es li l : listeners_step ev s = Some (tt, s', es) -> (li < lt_next s)%nat -> lt_heap s !! li = Some l -> immobile l ->
  (li < lt_next s')%nat /\ (li ∈ lt_table s' <-> li ∈ lt_table s) /\
  (lt_heap s' !! li = Some l \/ lt_heap s' !! li = Some (ln_close l) /\ (ev = LnCancel li \/ ev = LnShutdown /\ li ∈ lt_table s)).
Proof.
  intros Hs Hlt Hl Hi. destruct ev as [u sintf local opened|i| |i remoteAddr|i|i]; cbn [listeners_step] in Hs.
  - unfold links_listen in Hs. destruct (listenerFor u); [|injection Hs as <- <-; split_and!; [done|done|by left]].
    destruct (negb _); [injection Hs as <- <-; split_and!; [done|done|by left]|]. cbv [mbind act_bind act_modify act_gets act_emit] in Hs.
    destruct (listen_options u); injection Hs as <- _; cbn; (rewrite lookup_insert_ne by lia; split_and!; [lia| |by left]); [done|set_solver by lia].
  - injection Hs as <- <-. cbn. split_and!; [done|done|]. destruct (decide (li = i)) as [->|Hne]; [|left; by rewrite lookup_alter_ne].
    right. rewrite lookup_alter_eq, Hl. split; [done|by left].
  - unfold listeners_shutdown in Hs. cbv [mbind act_bind act_gets] in Hs. destruct (cancel_all (map_order (lt_table s)) s) as (s2 & E & Et & En & Hc).
    rewrite E in Hs. injection Hs as <- _. rewrite Et, En, Hc, Hl. split_and!; [done|done|].
    destruct (bool_decide_reflect (li ∈ map_order (lt_table s))) as [Hin|]; [right|by left]. split; [done|]. right. split; [done|]. by apply elem_of_map_order in Hin.
  - unfold listener_accept in Hs. cbv [mbind act_bind act_gets mret act_ret act_emit] in Hs.
    destruct (lt_heap s !! i) as [x|]; [destruct (_ && _)|]; injection Hs as <- _; (split_and!; [done|done|by left]).
  - unfold listener_error in Hs. cbv [mbind act_bind act_gets mret act_ret act_modify] in Hs.
    destruct (lt_heap s !! i) as [x|] eqn:Ex; [|injection Hs as <- _; split_and!; [done|done|by left]].
    destruct (bool_decide (ln_pc x = LAccepting) && accept_may_fail x) eqn:Ea; injection Hs as <- _; [|split_and!; [done|done|by left]]. cbn.
    destruct (decide (li = i)) as [->|Hne]; [|rewrite lookup_insert_ne by done; split_and!; [done|done|by left]]. exfalso. simplify_eq.
    apply andb_true_iff in Ea as [Ep%bool_decide_eq_true Ea]. destruct Hi as [Hi|[_ Hw]]; [congruence|]. unfold accept_may_fail in Ea. by destruct (ln_protocol x).
  - unfold listener_leave, listener_cancel in Hs. cbv [mbind act_bind act_gets mret act_ret act_modify] in Hs.
    destruct (lt_heap s !! i) as [x|] eqn:Ex; [|injection Hs as <- _; split_and!; [done|done|by left]].
    destruct (bool_decide_reflect (ln_pc x = LLeaving)) as [Ep|]; injection Hs as <- _; [|split_and!; [done|done|by left]]. cbn.
    destruct (decide (li = i)) as [->|Hne]; [exfalso; simplify_eq; destruct Hi as [Hi|[Hi _]]; congruence|].
    rewrite !lookup_alter_ne by done. split_and!; [done|set_solver|by left].
Qed.

Lemma immobile_run evs : forall s s' es li l, listeners_run evs s = Some (s', es) -> (li < lt_next s)%nat -> lt_heap s !! li = Some l -> immobile l ->
  (li ∈ lt_table s' <-> li ∈ lt_table s) /\ exists l', lt_heap s' !! li = Some l' /\ immobile l' /\
    (LnCancel li ∉ evs -> li ∉ lt_table s -> l' = l).
Proof.
  induction evs as [|ev evs IH]; intros s s' es li l Hr Hlt Hl Hi; cbn [listeners_run] in Hr; [injection Hr as <- <-; split; [done|]; by exists l|].
  destruct (listeners_step ev s) as [[[[] s1] es1]|] eqn:Es; [|done]. destruct (listeners_run evs s1) as [[s2 es2]|] eqn:Er; [|done]. injection Hr as <- <-.
  destruct (immobile_step ev s s1 es1 li l Es Hlt Hl Hi) as (Hlt1 & Ht1 & Hh).
  destruct Hh as [Hh|[Hh Hev]].
  - destruct (IH s1 s2 es2 li l Er Hlt1 Hh Hi) as (Ht2 & l' & Hl' & Hi' & Hsame). split; [by rewrite Ht2|]. exists l'. split_and!; [done|done|].
    intros Hc Hn. apply Hsame; [|by rewrite Ht1]. intros Hin. apply Hc. by right.
  - destruct (IH s1 s2 es2 li (ln_close l) Er Hlt1 Hh Hi) as (Ht2 & l' & Hl' & Hi' & _). split; [by rewrite Ht2|]. exists l'. split_and!; [done|done|].
    intros Hc Hn. exfalso. destruct Hev as [->|[_ Hin]]; [apply Hc; by left|done].
Qed.

(** Two kinds of listeners do not stop. When the options of a URI are
    refused, [listen] reports the error but has opened the socket: it stays open
    and outside the table, also through [shutdown], and nobody has the pointer
    that could cancel it. And a WebSocket or QUIC listener stays in the table for
    ever, with its goroutine, however it is cancelled or shut down. *)
Theorem listener_leaks u sintf local protocol s s1 es1 :
  listenerFor u = Some protocol -> listen_supported protocol = true -> listeners_ok s ->
  listeners_step (LnListen u sintf local true) s = Some (tt, s1, es1) ->
  let li := lt_next s in
  (forall e, listen_options u = inl e -> es1 = [LsnReturn (inl (LErrLink e))] /\
     forall evs s2 es2, listeners_run evs s1 = Some (s2, es2) -> LnCancel li ∉ evs ->
       li ∉ lt_table s2 /\ exists l, lt_heap s2 !! li = Some l /\ ln_open l = true) /\
  (forall options, listen_options u = inr options -> only_waits protocol = true ->
     forall evs s2 es2, listeners_run evs s1 = Some (s2, es2) -> li ∈ lt_table s2 /\ exists l, lt_heap s2 !! li = Some l /\ runs l = true).
Proof.
  intros Hu Hsup [He Ht Hn] Hs li. assert (li ∉ lt_table s) as Hf by (intros Hin%Ht%Hn; unfold li in Hin; lia). subst li.
  cbn [listeners_step] in Hs. unfold links_listen in Hs. rewrite Hu, Hsup in Hs. cbv [mbind act_bind act_modify act_gets act_emit] in Hs. cbn [negb andb] in Hs. split.
  - intros e Ee. rewrite Ee in Hs. injection Hs as <- <-. split; [done|]. intros evs s2 es2 Hr Hc.
    eapply immobile_run with (li := lt_next s) in Hr as (Ht2 & l' & Hl' & _ & Hsame); [|cbn; lia|cbn; apply lookup_insert_eq|by left].
    split; [by rewrite Ht2|]. exists l'. split; [done|]. by rewrite (Hsame Hc Hf).
  - intros options Eo Hw evs s2 es2 Hr. rewrite Eo in Hs. injection Hs as <- <-.
    pose proof Hr as Hr'. eapply immobile_run with (li := lt_next s) in Hr' as (Ht2 & l' & Hl' & Hi' & _); [|cbn; lia|cbn; apply lookup_insert_eq|by right].
    assert (lt_next s ∈ lt_table s2) as Hin by (rewrite Ht2; cbn; set_solver). split; [done|]. exists l'. split; [done|].
    assert (listeners_ok s2) as Hok.
    { eapply listeners_run_ok; [|exact Hr]. apply (ok_new s _ true); [by split|]. by split. }
    destruct (lo_each _ Hok (lt_next s) l' Hl') as [Hb _]. rewrite <- Hb. by apply bool_decide_eq_true.
Qed.
End safety.

(** ** Concrete inputs *)

Definition w_tcp : url := MkUrl "tcp" "[::]:9001" [] "".
Definition w_bad : url := MkUrl "tls" "[::]:9002" [("priority", "x")]%string "".
Definition w_ws : url := MkUrl "ws" "[::]:8080" [] "".

Definition w_listen_events : list listenEvent :=
  [LnListen w_tcp "" false true; LnListen w_bad "" false true; LnListen w_ws "" false true; LnAccept 0 "host:7"].

Lemma listeners_accounted_witness :
  match @listeners_run trie_order w_listen_events listeners_init with
  | Some (s, _) => (exists s', @listeners_run trie_order [LnCancel 0; LnError 0; LnLeave 0] s = Some (s', []) /\ (0%nat ∉ lt_table s')) /\ 2%nat ∈ lt_table s
  | None => False
  end.
Proof.
  destruct (@listeners_run trie_order w_listen_events listeners_init) as [[s es]|] eqn:E; [|exfalso; revert E; vm_compute; discriminate].
  destruct (@listeners_accounted trie_order w_listen_events s es E) as (Ht & _ & _ & Hl). vm_compute in E. injection E as <- _. split.
  - eapply Hl; reflexivity.
  - eapply Ht; reflexivity.
Defined.

Definition w_stop : list listenEvent := [LnCancel 0; LnError 0; LnShutdown; LnLeave 0].
