(* ===== verification/GoStr.v ===== *)
(** * Strings of Go

    The functions of package [strings] that the interface and the configuration use,
    on bytes, with the lemmas about separators. *)

From Stdlib Require Import String Ascii.
From S2P Require Import Prelude.

Definition HasPrefix (s p : string) : bool := String.prefix p s.
Definition TrimPrefix (s p : string) : string :=
  if HasPrefix s p then String.substring (String.length p) (String.length s - String.length p) s else s.
Definition HasSuffix (s p : string) : bool :=
  (String.length p <=? String.length s)%nat && String.eqb (String.substring (String.length s - String.length p) (String.length p) s) p.
Fixpoint Contains (s sub : string) : bool :=
  HasPrefix s sub || match s with EmptyString => false | String _ s => Contains s sub end.
Fixpoint Split (s : string) (sep : ascii) : list string :=
  match s with
  | EmptyString => [EmptyString]
  | String c s' =>
      if Ascii.eqb c sep then EmptyString :: Split s' sep
      else match Split s' sep with [] => [String c EmptyString] | x :: l => String c x :: l end
  end.
Fixpoint Join (l : list string) (sep : ascii) : string :=
  match l with
  | [] => EmptyString
  | [x] => x
  | x :: l => (x ++ String sep (Join l sep))%string
  end.
(** [strings.Count] of one byte. *)
Fixpoint Count (s : string) (c : ascii) : nat :=
  match s with EmptyString => 0 | String a s => (if Ascii.eqb a c then 1 else 0) + Count s c end.

(** ** Lemmas *)

Lemma HasPrefix_other c d s p : c <> d -> HasPrefix (String c s) (String d p) = false.
Proof. intros Hne. unfold HasPrefix. cbn. destruct (Ascii.ascii_dec d c); congruence. Qed.
Lemma HasPrefix_same c s : HasPrefix (String c s) (String c EmptyString) = true.
Proof. unfold HasPrefix. cbn. destruct (Ascii.ascii_dec c c); [by destruct s|done]. Qed.

Lemma Split_nonempty s sep : Split s sep <> [].
Proof. destruct s as [|c s]; cbn; [done|]. destruct (Ascii.eqb c sep); [done|]. by destruct (Split s sep). Qed.

Lemma Join_Split s sep : Join (Split s sep) sep = s.
Proof.
  induction s as [|c s IH]; [done|]. cbn [Split]. pose proof (Split_nonempty s sep) as Hn. destruct (Ascii.eqb_spec c sep) as [->|Hne].
  - destruct (Split s sep) as [|x l]; [done|]. change (Join (EmptyString :: x :: l) sep) with (String sep (Join (x :: l) sep)). by rewrite IH.
  - destruct (Split s sep) as [|x [|y l]]; [done|cbn in IH |- *; by rewrite IH|].
    change (Join (String c x :: y :: l) sep) with (String c (Join (x :: y :: l) sep)). by rewrite IH.
Qed.

(** A string without the separator. *)
Definition free (sep : ascii) (s : string) : Prop := Count s sep = 0%nat.

Lemma Split_free s sep : Forall (free sep) (Split s sep).
Proof.
  induction s as [|c s IH]; cbn [Split]; [by repeat constructor|]. destruct (Ascii.eqb c sep) eqn:E; [by constructor|].
  destruct (Split s sep) as [|x l]; [repeat constructor; unfold free; cbn; by rewrite E|]. inversion_clear IH as [|? ? Hx Hl]. constructor; [|done].
  unfold free in *. cbn. by rewrite E, Hx.
Qed.

Lemma Count_app a b c : Count (a ++ b) c = (Count a c + Count b c)%nat.
Proof. induction a as [|x a IH]; [done|]. change (String x a ++ b)%string with (String x (a ++ b)). cbn [Count]. rewrite IH. lia. Qed.

Lemma Split_free_one s sep : free sep s -> Split s sep = [s].
Proof.
  unfold free. induction s as [|c s IH]; [done|]. cbn. destruct (Ascii.eqb c sep); [done|]. intros Hs. by rewrite IH.
Qed.

Lemma Split_app a b sep : free sep a -> Split (a ++ String sep b) sep = a :: Split b sep.
Proof.
  unfold free. induction a as [|c a IH]; [intros _; change (EmptyString ++ String sep b)%string with (String sep b); cbn [Split]; by rewrite Ascii.eqb_refl|].
  change (String c a ++ String sep b)%string with (String c (a ++ String sep b)). cbn [Count Split]. destruct (Ascii.eqb c sep); [done|]. intros Ha. by rewrite IH.
Qed.

Lemma Split_Join l sep : l <> [] -> Forall (free sep) l -> Split (Join l sep) sep = l.
Proof.
  intros Hn Hf. induction Hf as [|x l Hx Hl IH]; [done|]. destruct l as [|y l]; [by apply Split_free_one|].
  change (Join (x :: y :: l) sep) with (x ++ String sep (Join (y :: l) sep))%string. rewrite Split_app by done. by rewrite IH.
Qed.

Lemma Count_Join l sep : Forall (free sep) l -> Count (Join l sep) sep = (length l - 1)%nat.
Proof.
  induction 1 as [|x l Hx Hl IH]; [done|]. destruct l as [|y l]; [done|].
  change (Join (x :: y :: l) sep) with (x ++ String sep (Join (y :: l) sep))%string. rewrite Count_app. cbn [Count]. rewrite Ascii.eqb_refl, IH, Hx. cbn. lia.
Qed.

(** Two equal bytes in a row, which are not the separator, are within a part. *)
Definition twice (c : ascii) : string := String c (String c EmptyString).

Lemma Contains_twice_app a b sep c : c <> sep -> Contains (a ++ String sep b) (twice c) = Contains a (twice c) || Contains b (twice c).
Proof.
  intros Hc. unfold twice. induction a as [|x a IH].
  - change (EmptyString ++ String sep b)%string with (String sep b). cbn. destruct (Ascii.ascii_dec c sep); [done|]. done.
  - change (String x a ++ String sep b)%string with (String x (a ++ String sep b)). cbn [Contains]. rewrite IH.
    destruct a as [|y a].
    + change (EmptyString ++ String sep b)%string with (String sep b). assert (HasPrefix (String x (String sep b)) (String c (String c EmptyString)) = false) as ->.
      { unfold HasPrefix. cbn. destruct (Ascii.ascii_dec c x); [|done]. by destruct (Ascii.ascii_dec c sep). }
      assert (HasPrefix (String x EmptyString) (String c (String c EmptyString)) = false) as ->; [|done].
      unfold HasPrefix. cbn. by destruct (Ascii.ascii_dec c x).
    + change (String y a ++ String sep b)%string with (String y (a ++ String sep b)).
      assert (HasPrefix (String x (String y (a ++ String sep b))) (String c (String c EmptyString)) = HasPrefix (String x (String y a)) (String c (String c EmptyString))) as ->.
      { unfold HasPrefix. cbn. destruct (Ascii.ascii_dec c x); [|done]. destruct (Ascii.ascii_dec c y); [|done]. by destruct a, b. }
      by rewrite orb_assoc.
Qed.

Lemma Contains_twice_Join l sep c : c <> sep -> Contains (Join l sep) (twice c) = existsb (fun x => Contains x (twice c)) l.
Proof.
  intros Hc. induction l as [|x l IH]; [done|]. destruct l as [|y l]; [cbn; by rewrite orb_false_r|].
  change (Join (x :: y :: l) sep) with (x ++ String sep (Join (y :: l) sep))%string. rewrite Contains_twice_app, IH by done. done.
Qed.
