(* ===== verification/WebUI.v ===== *)
(** * The web interface

    [src/webui/server.go]: the routes, the login with its sessions and the blocking
    of addresses after failures, the middleware that protects the pages, logout and
    the two cleanup loops. What the pages themselves answer is not part of it.

    Requests run in goroutines of their own. A step is what happens under one lock;
    a login has three: the test whether the address is blocked, the test of the
    password after the body was read, and the creation of the session. *)

From Stdlib Require Import String Ascii.
From S2P Require Import Prelude RouterState RouterCost LinkOptions GoStr.

(** ** Requests and routes *)

(** [hr_escaped] is [URL.EscapedPath]; [hr_body] is the password of the decoded
    body, or [None] where decoding fails. *)
Record request := MkHttpRequest {
  hr_method : string;
  hr_escaped : string;
  hr_cookie : option string;
  hr_forwarded : string;
  hr_realIP : string;
  hr_remoteAddr : string;
  hr_body : option string
}.

Inductive route := RtLogin | RtLogout | RtAdmin | RtConfigGet | RtConfigSet | RtStatic | RtRoot | RtHealth | RtMoved.
#[global] Instance route_eq_dec : EqDecision route.
Proof. solve_decision. Defined.

(** A path that [ServeMux] does not redirect to its clean form. *)
Definition path_clean (p : string) : bool :=
  match Split p "/"%char with
  | EmptyString :: _ :: _ as l =>
      let inner := removelast (tail l) in
      let last := List.last l EmptyString in
      forallb (fun x => negb (String.eqb x "" || String.eqb x "." || String.eqb x "..")) inner
        && negb (String.eqb last "." || String.eqb last "..")
  | _ => false
  end.

(** [url.PathUnescape]; [None] is its error, where its caller keeps the text. *)
Fixpoint PathUnescape (s : string) : option string :=
  match s with
  | EmptyString => Some EmptyString
  | String "%" (String a (String b s')) =>
      x ← hex_digit a; y ← hex_digit b; rest ← PathUnescape s';
      Some (String (ascii_of_N (Z.to_N (16 * x + y))) rest)
  | String "%" _ => None
  | String a s' => rest ← PathUnescape s'; Some (String a rest)
  end.
Definition pathUnescape (s : string) : string := default s (PathUnescape s).

(** [URL.Path] *)
Definition hr_path (r : request) : string := pathUnescape (hr_escaped r).

(** The segments of a path, each unescaped by itself, and a pattern with a
    slash at its end. *)
Definition path_segments (p : string) : list string := map pathUnescape (tail (Split p "/"%char)).
Definition below (pattern segs : list string) : bool :=
  bool_decide (take (length pattern) segs = pattern) && (length pattern <? length segs)%nat.

(** The patterns that [Start] registers, on the escaped path; the most specific
    that matches wins. *)
Definition mux (r : request) : route :=
  let p := hr_escaped r in
  let segs := path_segments p in
  let at_ pattern := bool_decide (segs = pattern) in
  if negb (String.eqb (hr_method r) "CONNECT") && negb (path_clean p) then RtMoved
  else if at_ ["auth"; "login"]%string then RtLogin
  else if at_ ["auth"; "logout"]%string then RtLogout
  else if at_ ["api"; "config"; "get"]%string then RtConfigGet
  else if at_ ["api"; "config"; "set"]%string then RtConfigSet
  else if at_ ["health"]%string then RtHealth
  else if at_ ["api"; "admin"]%string || at_ ["static"]%string then RtMoved
  else if below ["api"; "admin"]%string segs then RtAdmin
  else if below ["static"]%string segs then RtStatic
  else RtRoot.

(** An escaped slash does not end a segment, but it is one for the handlers. *)
Example mux_escaped_slash : let r p := MkHttpRequest "GET" p None "" "" "" None in
  mux (r "/%61uth/login") = RtLogin /\ mux (r "/static/a%2Fb") = RtStatic /\
  mux (r "/static%2Fa.js") = RtRoot /\ hr_path (r "/static%2Fa.js") = "/static/a.js"%string.
Proof. vm_compute. repeat split. Qed.

(** ** The server *)

Record FailedLoginInfo := MkFailed { fl_Count : Z; fl_LastAttempt : Z; fl_BlockedUntil : Z }.

(** A login after the test of its address: before its password was looked at, or
    with the session still to be made. *)
Inductive loginStage := LgBody | LgCreate.
#[global] Instance loginStage_eq_dec : EqDecision loginStage.
Proof. solve_decision. Defined.

(** [w_deletes]: the goroutines that remove an expired session. *)
Record WebUIServer := MkWeb {
  w_password : string;
  w_sessions : gmap string Z;
  w_failedAttempts : gmap string FailedLoginInfo;
  w_logins : gmap nat (request * loginStage);
  w_deletes : list string;
  w_next : nat;
  w_now : Z
}.

Definition set_w_sessions f (w : WebUIServer) := MkWeb (w_password w) (f (w_sessions w)) (w_failedAttempts w) (w_logins w) (w_deletes w) (w_next w) (w_now w).
Definition set_w_failed f (w : WebUIServer) := MkWeb (w_password w) (w_sessions w) (f (w_failedAttempts w)) (w_logins w) (w_deletes w) (w_next w) (w_now w).
Definition set_w_logins f (w : WebUIServer) := MkWeb (w_password w) (w_sessions w) (w_failedAttempts w) (f (w_logins w)) (w_deletes w) (w_next w) (w_now w).
Definition set_w_deletes f (w : WebUIServer) := MkWeb (w_password w) (w_sessions w) (w_failedAttempts w) (w_logins w) (f (w_deletes w)) (w_next w) (w_now w).
Definition set_w_next n (w : WebUIServer) := MkWeb (w_password w) (w_sessions w) (w_failedAttempts w) (w_logins w) (w_deletes w) n (w_now w).
Definition set_w_now t (w : WebUIServer) := MkWeb (w_password w) (w_sessions w) (w_failedAttempts w) (w_logins w) (w_deletes w) (w_next w) t.

(** The answer to a request; [RsServed] hands it to the page of the route. *)
Inductive response :=
| RsStatus (code : Z)
| RsRedirect (to : string)
| RsMoved
| RsLoggedIn (session : string)
| RsLoggedOut
| RsServed (rt : route).

Inductive webEffect := WeAnswer (n : nat) (r : response).

Definition MaxFailedAttempts : Z := 3.
Definition BlockDuration : Z := 1 * Minute.
Definition AttemptWindow : Z := 15 * Minute.
Definition SessionDuration : Z := 24 * 60 * Minute.
Definition zero_Time : Z := -62135596800 * Second.

Definition Server (password : string) (now : Z) : WebUIServer := MkWeb password ∅ ∅ ∅ [] 0 now.

Abbreviation W_ := (Act WebUIServer webEffect).
Abbreviation wgets f := (act_gets (S := WebUIServer) (E := webEffect) f).
Abbreviation wmodify f := (act_modify (S := WebUIServer) (E := webEffect) f).
Abbreviation wanswer n r := (act_emit (S := WebUIServer) (E := webEffect) (WeAnswer n r)).
Abbreviation wret a := (mret (M := Act WebUIServer webEffect) a) (only parsing).

(** ** Sessions *)

Definition isValidSession (sessionID : string) : W_ bool :=
  w ← wgets id;
  match w_sessions w !! sessionID with
  | None => wret false
  | Some expiry =>
      if expiry <? w_now w then
        _ ← wmodify (set_w_deletes (fun l => l ++ [sessionID]));
        wret false
      else wret true
  end.

(** [createSession]; the new id is random and comes from outside. *)
Definition createSession (sessionID : string) : W_ unit :=
  w ← wgets id;
  wmodify (set_w_sessions (insert sessionID (w_now w + SessionDuration))).

(** The goroutine that [isValidSession] starts. *)
Definition delete_expired (i : nat) : W_ unit :=
  w ← wgets id;
  match w_deletes w !! i with
  | None => wret tt
  | Some sessionID =>
      _ ← wmodify (set_w_deletes (fun l => take i l ++ drop (S i) l));
      wmodify (set_w_sessions (delete sessionID))
  end.

Definition cleanupExpiredSessions : W_ unit :=
  w ← wgets id;
  wmodify (set_w_sessions (filter (fun kv => ~ kv.2 < w_now w))).

(** ** Failed attempts *)

Section strings.
Context `{GoStrings}.

Definition getClientIP (r : request) : string :=
  if negb (String.eqb (hr_forwarded r) "") then TrimSpace (hd EmptyString (Split (hr_forwarded r) ","%char))
  else if negb (String.eqb (hr_realIP r) "") then hr_realIP r
  else match SplitHostPort (hr_remoteAddr r) with Some (ip, _) => ip | None => EmptyString end.

Definition isIPBlocked (ip : string) (w : WebUIServer) : bool :=
  match w_failedAttempts w !! ip with
  | None => false
  | Some info => w_now w <? fl_BlockedUntil info
  end.

Definition failed_again (now : Z) (info : FailedLoginInfo) : FailedLoginInfo :=
  let count := if AttemptWindow <? time_Sub now (fl_LastAttempt info) then 0 else fl_Count info in
  let count := count + 1 in
  MkFailed count now (if MaxFailedAttempts <=? count then now + BlockDuration else fl_BlockedUntil info).

Definition recordFailedAttempt (ip : string) : W_ unit :=
  w ← wgets id;
  let info := default (MkFailed 0 zero_Time zero_Time) (w_failedAttempts w !! ip) in
  wmodify (set_w_failed (insert ip (failed_again (w_now w) info))).

Definition clearFailedAttempts (ip : string) : W_ unit := wmodify (set_w_failed (delete ip)).

Definition stale_attempt (now : Z) (info : FailedLoginInfo) : Prop :=
  fl_BlockedUntil info < now /\ AttemptWindow < time_Sub now (fl_LastAttempt info).
#[global] Instance stale_attempt_dec now info : Decision (stale_attempt now info) := _.

Definition cleanupFailedAttempts : W_ unit :=
  w ← wgets id;
  wmodify (set_w_failed (filter (fun kv => ~ stale_attempt (w_now w) kv.2))).

(** ** Handlers *)

Definition authMiddleware (n : nat) (r : request) (rt : route) : W_ unit :=
  w ← wgets id;
  if String.eqb (w_password w) "" then
    if String.eqb (hr_path r) "/login.html" then wanswer n (RsRedirect "/") else wanswer n (RsServed rt)
  else
    valid ← match hr_cookie r with None => wret false | Some c => isValidSession c end;
    if valid : bool then wanswer n (RsServed rt)
    else if String.eqb (hr_path r) "/login.html" || HasPrefix (hr_path r) "/auth/" then wanswer n (RsServed rt)
    else if HasPrefix (hr_path r) "/api/" then wanswer n (RsStatus 401)
    else wanswer n (RsRedirect "/login.html").

(** The handler of [/static/]: stylesheets and scripts need no session. *)
Definition static_asset (r : request) : bool :=
  let path := TrimPrefix (hr_path r) "/static/" in
  HasSuffix path ".css" || HasSuffix path ".js".
Definition static_handler (n : nat) (r : request) : W_ unit :=
  if static_asset r then wanswer n (RsServed RtStatic)
  else authMiddleware n r RtStatic.

(** [loginHandler] up to the body of the request. *)
Definition login_start (n : nat) (r : request) : W_ unit :=
  if negb (String.eqb (hr_method r) "POST") then wanswer n (RsStatus 405)
  else
    w ← wgets id;
    if isIPBlocked (getClientIP r) w then wanswer n (RsStatus 429)
    else wmodify (set_w_logins (insert n (r, LgBody))).

(** From the decoded body to the deletion of the failed attempts. *)
Definition login_body (n : nat) : W_ unit :=
  w ← wgets id;
  match w_logins w !! n with
  | Some (r, LgBody) =>
      _ ← wmodify (set_w_logins (delete n));
      match hr_body r with
      | None => wanswer n (RsStatus 400)
      | Some password =>
          if negb (String.eqb password (w_password w)) then
            _ ← recordFailedAttempt (getClientIP r);
            wanswer n (RsStatus 401)
          else
            _ ← clearFailedAttempts (getClientIP r);
            wmodify (set_w_logins (insert n (r, LgCreate)))
      end
  | _ => wret tt
  end.

(** The rest of [loginHandler]. *)
Definition login_create (n : nat) (sessionID : string) : W_ unit :=
  w ← wgets id;
  match w_logins w !! n with
  | Some (_, LgCreate) =>
      _ ← wmodify (set_w_logins (delete n));
      _ ← createSession sessionID;
      wanswer n (RsLoggedIn sessionID)
  | _ => wret tt
  end.

Definition logoutHandler (n : nat) (r : request) : W_ unit :=
  _ ← match hr_cookie r with None => wret tt | Some c => wmodify (set_w_sessions (delete c)) end;
  wanswer n RsLoggedOut.

Definition serve (r : request) : W_ unit :=
  n ← wgets w_next;
  _ ← wmodify (set_w_next (S n));
  match mux r with
  | RtLogin => login_start n r
  | RtLogout => logoutHandler n r
  | RtHealth => wanswer n (RsStatus 200)
  | RtMoved => wanswer n RsMoved
  | RtStatic => static_handler n r
  | rt => authMiddleware n r rt
  end.

(** ** Steps *)

Inductive webEvent :=
| WRequest (r : request)
| WBody (n : nat)
| WCreate (n : nat) (sessionID : string)
| WDelete (i : nat)
| WCleanSessions
| WCleanAttempts
| WTick (d : Z).

Definition web_step (ev : webEvent) : W_ unit :=
  match ev with
  | WRequest r => serve r
  | WBody n => login_body n
  | WCreate n sessionID => login_create n sessionID
  | WDelete i => delete_expired i
  | WCleanSessions => cleanupExpiredSessions
  | WCleanAttempts => cleanupFailedAttempts
  | WTick d => wmodify (fun w => set_w_now (w_now w + Z.max 0 d) w)
  end.

Fixpoint web_run (evs : list webEvent) (w : WebUIServer) : option (WebUIServer * list webEffect) :=
  match evs with
  | [] => Some (w, [])
  | ev :: evs =>
      match web_step ev w with
      | None => None
      | Some (_, w1, es1) => match web_run evs w1 with None => None | Some (w2, es2) => Some (w2, es1 ++ es2) end
      end
  end.
End strings.

(** ** Properties of the web interface

    Pages need a login, a session lasts, and how often passwords can be tried. *)

Section safety.
Context `{GoStrings}.

(** ** One step *)

Definition logs_out (ev : webEvent) (c : string) : Prop :=
  exists r, ev = WRequest r /\ mux r = RtLogout /\ hr_cookie r = Some c.

(** Where logins and sessions come from. *)
Record stepped (ev : webEvent) (w w' : WebUIServer) : Prop := {
  sp_password : w_password w' = w_password w;
  sp_now : w_now w <= w_now w';
  sp_logins n r st : w_logins w' !! n = Some (r, st) ->
    w_logins w !! n = Some (r, st) \/ (ev = WRequest r /\ mux r = RtLogin /\ st = LgBody) \/
    (ev = WBody n /\ w_logins w !! n = Some (r, LgBody) /\ hr_body r = Some (w_password w) /\ st = LgCreate);
  sp_sessions c e : w_sessions w' !! c = Some e ->
    (w_sessions w !! c = Some e /\ ~ logs_out ev c) \/
    exists n r, ev = WCreate n c /\ w_logins w !! n = Some (r, LgCreate) /\ e = w_now w + SessionDuration
}.

(** A step that changes neither. *)
Lemma stepped_same ev w w' : w_password w' = w_password w -> w_now w <= w_now w' -> w_logins w' = w_logins w ->
  (forall c e, w_sessions w' !! c = Some e -> w_sessions w !! c = Some e /\ ~ logs_out ev c) -> stepped ev w w'.
Proof. intros Hp Hn Hl Hs. split; [done|done|intros n r st; rewrite Hl; auto|auto]. Qed.

Lemma not_logout ev c : (forall r, ev = WRequest r -> mux r <> RtLogout) -> ~ logs_out ev c.
Proof. intros Hx (r & -> & Hm & _). by apply (Hx r). Qed.

Ltac same := apply stepped_same; [done|cbn; lia|done|intros; cbn in *; split; [done|apply not_logout; congruence]].

(** The three ways through the middleware. *)
Lemma wp_auth n r rt w (Q : unit -> WebUIServer -> list webEffect -> Prop) :
  (w_password w = ""%string -> forall a, Q tt w [WeAnswer n a]) ->
  (forall c e, hr_cookie r = Some c -> w_sessions w !! c = Some e -> w_now w <= e -> Q tt w [WeAnswer n (RsServed rt)]) ->
  (forall w' a, w' = w \/ (exists c e, w_sessions w !! c = Some e /\ e < w_now w /\ w' = set_w_deletes (fun l => l ++ [c]) w) ->
     (forall rt', a = RsServed rt' -> String.eqb (hr_path r) "/login.html" || HasPrefix (hr_path r) "/auth/" = true) -> Q tt w' [WeAnswer n a]) ->
  wp (authMiddleware n r rt) w Q.
Proof.
  intros Hopen Hvalid Hdeny. unfold authMiddleware. apply wp_bind, wp_gets. cbn [id app]. destruct (String.eqb_spec (w_password w) "") as [E|_]; [case_match; apply wp_emit; by apply Hopen|].
  assert (forall w', w' = w \/ (exists c e, w_sessions w !! c = Some e /\ e < w_now w /\ w' = set_w_deletes (fun l => l ++ [c]) w) ->
    wp (if String.eqb (hr_path r) "/login.html" || HasPrefix (hr_path r) "/auth/" then wanswer n (RsServed rt)
        else if HasPrefix (hr_path r) "/api/" then wanswer n (RsStatus 401) else wanswer n (RsRedirect "/login.html")) w' Q) as Hd.
  { intros w' Hw. destruct (_ || _) eqn:E; [apply wp_emit; by apply Hdeny|]. case_match; apply wp_emit; by apply Hdeny. }
  apply wp_bind. destruct (hr_cookie r) as [c|] eqn:Ec; [|apply wp_ret; apply Hd; by left].
  unfold isValidSession. apply wp_bind, wp_gets. cbn [id]. destruct (w_sessions w !! c) as [e|] eqn:Ee; [|apply wp_ret; apply Hd; by left].
  destruct (Z.ltb_spec e (w_now w)).
  - apply wp_bind, wp_modify, wp_ret. apply Hd. right. by exists c, e.
  - apply wp_ret, wp_emit. by eapply Hvalid.
Qed.

Lemma auth_stepped n r rt w w0 : mux r <> RtLogout -> w_password w = w_password w0 -> w_now w = w_now w0 -> w_logins w = w_logins w0 -> w_sessions w = w_sessions w0 ->
  wp (authMiddleware n r rt) w (fun _ w' _ => stepped (WRequest r) w0 w').
Proof.
  intros Hm E1 E2 E3 E4.
  assert (forall w', w_password w' = w_password w -> w_now w' = w_now w -> w_logins w' = w_logins w -> w_sessions w' = w_sessions w -> stepped (WRequest r) w0 w') as Hs.
  { intros w' F1 F2 F3 F4. apply stepped_same; [congruence|rewrite F2, E2; lia|congruence|]. intros c e Hc. split; [congruence|]. apply not_logout. congruence. }
  apply wp_auth; [intros; by apply Hs|intros; by apply Hs|]. intros w' a [->|(c & e & _ & _ & ->)] _; by apply Hs.
Qed.

Lemma step_stepped ev w : wp (web_step ev) w (fun _ w' _ => stepped ev w w').
Proof.
  destruct ev as [r|n|n sessionID|i| | |d]; cbn [web_step].
  - unfold serve. apply wp_bind, wp_gets, wp_bind, wp_modify. set (n := w_next w).
    destruct (mux r) eqn:Em; try (apply auth_stepped; [congruence|done..]); try (apply wp_emit; same).
    + unfold login_start. case_match; [apply wp_emit; same|]. apply wp_bind, wp_gets. case_match; [apply wp_emit; same|]. apply wp_modify.
      split; cbn; [done|lia| |intros c e Hc; left; split; [done|]; apply not_logout; congruence].
      intros m r' st [[<- [= <- <-]]|[_ Hl]]%lookup_insert_Some; auto.
    + unfold logoutHandler. apply wp_bind. destruct (hr_cookie r) as [c|] eqn:Ec; [apply wp_modify, wp_emit|apply wp_ret, wp_emit].
      * apply stepped_same; [done|cbn; lia|done|]. cbn. intros c' e [Hne Hc]%lookup_delete_Some. split; [done|]. intros (r' & [= <-] & _ & Hc'). congruence.
      * apply stepped_same; [done|cbn; lia|done|]. cbn. intros c' e Hc. split; [done|]. intros (r' & [= <-] & _ & Hc'). congruence.
    + unfold static_handler. case_match; [apply wp_emit; same|]. apply auth_stepped; [congruence|done..].
  - unfold login_body. apply wp_bind, wp_gets. cbn [id]. destruct (w_logins w !! n) as [[r [|]]|] eqn:El; [|apply wp_ret; same|apply wp_ret; same].
    apply wp_bind, wp_modify. cbn [set_w_logins w_password].
    assert (forall w', w_password w' = w_password w -> w_now w' = w_now w -> w_logins w' = delete n (w_logins w) -> w_sessions w' = w_sessions w -> stepped (WBody n) w w') as Hs.
    { intros w' F1 F2 F3 F4. split; [done|rewrite F2; lia|rewrite F3; intros m r' st [_ Hl]%lookup_delete_Some; by left|].
      rewrite F4. intros c e Hc. left. split; [done|]. apply not_logout. congruence. }
    destruct (hr_body r) as [password|] eqn:Eb; [|apply wp_emit; by apply Hs].
    destruct (String.eqb_spec password (w_password w)) as [->|Hne]; cbn [negb].
    + apply wp_bind, wp_modify, wp_modify. split; cbn; [done|lia| |intros c e Hc; left; split; [done|]; apply not_logout; congruence].
      intros m r' st [[<- [= <- <-]]|[Hne Hl]]%lookup_insert_Some; [by right; right|]. rewrite lookup_delete_ne in Hl by done. by left.
    + apply wp_bind. unfold recordFailedAttempt. apply wp_bind, wp_gets, wp_modify, wp_emit. by apply Hs.
  - unfold login_create. apply wp_bind, wp_gets. cbn [id]. destruct (w_logins w !! n) as [[r [|]]|] eqn:El; [apply wp_ret; same| |apply wp_ret; same].
    apply wp_bind, wp_modify, wp_bind. unfold createSession. apply wp_bind, wp_gets, wp_modify, wp_emit. split; cbn.
    + done.
    + lia.
    + intros m r' st [_ Hl]%lookup_delete_Some. by left.
    + intros c e [[<- <-]|[_ Hc]]%lookup_insert_Some; [right; by exists n, r|left; split; [done|]; apply not_logout; congruence].
  - unfold delete_expired. apply wp_bind, wp_gets. cbn [id]. destruct (w_deletes w !! i) as [c|]; [|apply wp_ret; same].
    apply wp_bind, wp_modify, wp_modify. apply stepped_same; [done|cbn; lia|done|]. cbn. intros c' e [_ Hc]%lookup_delete_Some.
    split; [done|]. apply not_logout. congruence.
  - unfold cleanupExpiredSessions. apply wp_bind, wp_gets, wp_modify. apply stepped_same; [done|cbn; lia|done|]. cbn. intros c' e [Hc _]%map_lookup_filter_Some.
    split; [done|]. apply not_logout. congruence.
  - unfold cleanupFailedAttempts. apply wp_bind, wp_gets, wp_modify. same.
  - apply wp_modify. same.
Qed.

(** ** Runs *)

Lemma web_run_app evs1 : forall evs2 w, web_run (evs1 ++ evs2) w =
  match web_run evs1 w with
  | None => None
  | Some (w1, es1) => match web_run evs2 w1 with None => None | Some (w2, es2) => Some (w2, es1 ++ es2) end
  end.
Proof.
  induction evs1 as [|ev evs1 IH]; intros evs2 w; cbn [web_run app]; [by destruct (web_run evs2 w) as [[??]|]|].
  destruct (web_step ev w) as [[[u w1] es1]|]; [|done]. rewrite IH. destruct (web_run evs1 w1) as [[w2 es2]|]; [|done].
  destruct (web_run evs2 w2) as [[w3 es3]|]; [|done]. by rewrite app_assoc.
Qed.

Lemma web_run_snoc evs ev w w' es : web_run (evs ++ [ev]) w = Some (w', es) ->
  exists w1 es1 es2, web_run evs w = Some (w1, es1) /\ web_step ev w1 = Some (tt, w', es2) /\ stepped ev w1 w'.
Proof.
  rewrite web_run_app. destruct (web_run evs w) as [[w1 es1]|]; [|done]. cbn [web_run]. pose proof (step_stepped ev w1) as Hs. unfold wp in Hs.
  destruct (web_step ev w1) as [[[[] w2] es2]|] eqn:E; [|done]. intros [= <- <-]. by exists w1, es1, es2.
Qed.

(** Nothing panics. *)
Lemma web_run_total evs : forall w, exists w' es, web_run evs w = Some (w', es).
Proof.
  induction evs as [|ev evs IH]; intros w; [by exists w, []|]. cbn [web_run]. pose proof (step_stepped ev w) as Hs. unfold wp in Hs.
  destruct (web_step ev w) as [[[u w1] es1]|]; [|done]. destruct (IH w1) as (w2 & es2 & ->). by eexists _, _.
Qed.

(** What was done before a session exists, and before a login is about to be made. *)
Definition logged_in (w0 : WebUIServer) (evs : list webEvent) (c : string) (e : Z) : Prop :=
  exists evs1 n evs2 w1 es1 r, evs = evs1 ++ WCreate n c :: evs2 /\ web_run evs1 w0 = Some (w1, es1) /\ e = w_now w1 + SessionDuration /\
    Forall (fun ev => ~ logs_out ev c) evs2 /\ WRequest r ∈ evs1 /\ mux r = RtLogin /\ hr_body r = Some (w_password w0).

Lemma session_origin password now evs : forall w es, web_run evs (Server password now) = Some (w, es) ->
  w_password w = password /\
  (forall n r st, w_logins w !! n = Some (r, st) -> WRequest r ∈ evs /\ mux r = RtLogin /\ (st = LgCreate -> hr_body r = Some password)) /\
  (forall c e, w_sessions w !! c = Some e -> logged_in (Server password now) evs c e).
Proof.
  induction evs as [|ev evs IH] using rev_ind; intros w es Hr; [injection Hr as <- _; cbn; split_and!; [done|intros ???; by rewrite lookup_empty|intros ??; by rewrite lookup_empty]|].
  apply web_run_snoc in Hr as (w1 & es1 & es2 & Hr & _ & [Sp _ Sl Ss]). destruct (IH w1 es1 Hr) as (Hp & Hl & Hc). split_and!.
  - congruence.
  - intros n r st Hn. destruct (Sl n r st Hn) as [Hx|[(-> & Hm & ->)|(-> & Hx & Hb & ->)]].
    + destruct (Hl n r st Hx) as (Hi & Hm & Hb). split_and!; [set_solver|done|done].
    + split_and!; [set_solver|done|done].
    + destruct (Hl n r LgBody Hx) as (Hi & Hm & _). split_and!; [set_solver|done|congruence].
  - intros c e Hn. destruct (Ss c e Hn) as [[Hx Hno]|(n & r & -> & Hx & ->)].
    + destruct (Hc c e Hx) as (evs1 & n & evs2 & w2 & es3 & r & -> & Hr2 & -> & Hf & Hrest). exists evs1, n, (evs2 ++ [ev]), w2, es3, r.
      split_and!; [by rewrite <- app_assoc|done|done| |apply Hrest..]. apply Forall_app. split; [done|]. by constructor.
    + destruct (Hl n r LgCreate Hx) as (Hi & Hm & Hb). exists evs, n, [], w1, es1, r. split_and!; [done|done|done|constructor|done|done|by apply Hb].
Qed.

(** Pages that need no session: stylesheets and scripts, the login page, and what
    is below [/auth/]. *)
Definition public (r : request) : bool :=
  bool_decide (mux r = RtStatic) && static_asset r || String.eqb (hr_path r) "/login.html" || HasPrefix (hr_path r) "/auth/".

(** A page is served only to the cookie of a session that has not expired. *)
Lemma auth_served n r rt w : w_password w <> ""%string -> wp (authMiddleware n r rt) w (fun _ _ es => forall m rt', WeAnswer m (RsServed rt') ∈ es ->
  String.eqb (hr_path r) "/login.html" || HasPrefix (hr_path r) "/auth/" = true \/
  exists c e, hr_cookie r = Some c /\ w_sessions w !! c = Some e /\ w_now w <= e).
Proof.
  intros Hp. apply wp_auth; [done|intros c e ? ? ? m rt' _; right; by exists c, e|].
  intros w' a _ Ha m rt' Hin. left. apply (Ha rt'). set_solver.
Qed.

Lemma served_with_session r w : w_password w <> ""%string -> public r = false -> wp (serve r) w (fun _ _ es => forall m rt', WeAnswer m (RsServed rt') ∈ es ->
  exists c e, hr_cookie r = Some c /\ w_sessions w !! c = Some e /\ w_now w <= e).
Proof.
  intros Hp Hpub. unfold public in Hpub. apply orb_false_iff in Hpub as [[Hst Hlog]%orb_false_iff Hau]. unfold serve. apply wp_bind, wp_gets, wp_bind, wp_modify.
  assert (forall rt, wp (authMiddleware (w_next w) r rt) (set_w_next (S (w_next w)) w) (fun _ _ es => forall m rt', WeAnswer m (RsServed rt') ∈ es ->
    exists c e, hr_cookie r = Some c /\ w_sessions w !! c = Some e /\ w_now w <= e)) as Ha.
  { intros rt. eapply wp_mono; [by apply auth_served|]. cbn. intros _ _ es Hs m rt' Hin. destruct (Hs m rt' Hin) as [Hx|Hx]; [|done]. by rewrite Hlog, Hau in Hx. }
  destruct (mux r) eqn:Em; try apply Ha; try (apply wp_emit; set_solver).
  - unfold login_start. case_match; [apply wp_emit; set_solver|]. apply wp_bind, wp_gets. case_match; [apply wp_emit; set_solver|]. apply wp_modify. set_solver.
  - unfold logoutHandler. apply wp_bind. case_match; [apply wp_modify, wp_emit|apply wp_ret, wp_emit]; set_solver.
  - unfold static_handler. rewrite bool_decide_true in Hst by done. cbn [andb] in Hst. rewrite Hst. apply Ha.
Qed.

(** C32: the pages of the web interface need a login. Where a password is set, a
    request that is handed to a page, but for stylesheets, scripts, the login page
    and what is below [/auth/], carries the cookie of a session that a login with
    that password has made no more than 24 hours before, and that nobody has logged
    out since. Whatever requests run at the same time, with all cleanups. *)
Theorem pages_need_login password now evs w es r w' es' n rt : password <> ""%string ->
  web_run evs (Server password now) = Some (w, es) -> web_step (WRequest r) w = Some (tt, w', es') -> WeAnswer n (RsServed rt) ∈ es' -> public r = false ->
  exists c evs1 k evs2 w1 es1 r0, hr_cookie r = Some c /\ evs = evs1 ++ WCreate k c :: evs2 /\ web_run evs1 (Server password now) = Some (w1, es1) /\
    w_now w <= w_now w1 + SessionDuration /\ Forall (fun ev => ~ logs_out ev c) evs2 /\
    WRequest r0 ∈ evs1 /\ mux r0 = RtLogin /\ hr_body r0 = Some password.
Proof.
  intros Hp Hr Hs Hin Hpub. destruct (session_origin _ _ _ _ _ Hr) as (Ep & _ & Hc).
  pose proof (served_with_session r w ltac:(congruence) Hpub) as Hw. unfold wp in Hw. cbn [web_step] in Hs. rewrite Hs in Hw.
  destruct (Hw n rt Hin) as (c & e & Hck & Hse & He). destruct (Hc c e Hse) as (evs1 & k & evs2 & w1 & es1 & r0 & Hev & Hr1 & -> & Hf & Hi & Hm & Hb).
  by exists c, evs1, k, evs2, w1, es1, r0.
Qed.

(** ** A session lasts *)

Definition has_session (c : string) (until : Z) (w : WebUIServer) : Prop :=
  (exists e, w_sessions w !! c = Some e /\ until <= e) /\ c ∉ w_deletes w.

Lemma auth_keeps n r rt w c t : has_session c t w -> w_now w <= t -> wp (authMiddleware n r rt) w (fun _ w' _ => has_session c t w').
Proof.
  intros Hw Hn. pose proof Hw as [(e & He & Ht) Hd]. apply wp_auth; [done|done|]. intros w' a [->|(c' & e' & Ec & Hlt & ->)] _; [done|].
  split; cbn; [by exists e|]. rewrite elem_of_app, list_elem_of_singleton. intros [?| ->]; [done|]. simplify_eq. lia.
Qed.

Lemma step_keeps_session ev w c t : has_session c t w -> w_now w <= t <= w_now w + SessionDuration -> ~ logs_out ev c -> wp (web_step ev) w (fun _ w' _ => has_session c t w').
Proof.
  intros Hw Hn Hno. pose proof Hw as [(e & He & Ht) Hd]. destruct ev as [r|n|n sessionID|i| | |d]; cbn [web_step].
  - unfold serve. apply wp_bind, wp_gets, wp_bind, wp_modify. destruct (mux r) eqn:Em; try (apply auth_keeps; [done|apply Hn]); try (by apply wp_emit).
    + unfold login_start. case_match; [by apply wp_emit|]. apply wp_bind, wp_gets. case_match; [by apply wp_emit|]. by apply wp_modify.
    + unfold logoutHandler. apply wp_bind. destruct (hr_cookie r) as [c'|] eqn:Ec; [apply wp_modify, wp_emit|by apply wp_ret, wp_emit].
      split; [|done]. exists e. split; [|done]. cbn. rewrite lookup_delete_ne; [done|]. intros ->. apply Hno. by exists r.
    + unfold static_handler. case_match; [by apply wp_emit|apply auth_keeps; [done|apply Hn]].
  - unfold login_body. apply wp_bind, wp_gets. cbn [id]. destruct (w_logins w !! n) as [[r [|]]|]; [|by apply wp_ret|by apply wp_ret].
    apply wp_bind, wp_modify. cbn [set_w_logins w_password]. destruct (hr_body r); [|by apply wp_emit].
    destruct (negb _); [apply wp_bind; unfold recordFailedAttempt; by apply wp_bind, wp_gets, wp_modify, wp_emit|by apply wp_bind, wp_modify, wp_modify].
  - unfold login_create. apply wp_bind, wp_gets. cbn [id]. destruct (w_logins w !! n) as [[r [|]]|]; [by apply wp_ret| |by apply wp_ret].
    apply wp_bind, wp_modify, wp_bind. unfold createSession. apply wp_bind, wp_gets, wp_modify, wp_emit. split; [|done]. cbn.
    destruct (decide (c = sessionID)) as [->|Hne]; [rewrite lookup_insert_eq; eexists; split; [done|lia]|].
    rewrite lookup_insert_ne by done. by exists e.
  - unfold delete_expired. apply wp_bind, wp_gets. cbn [id]. destruct (w_deletes w !! i) as [c'|] eqn:Ei; [|by apply wp_ret].
    apply wp_bind, wp_modify, wp_modify. pose proof (list_elem_of_lookup_2 _ _ _ Ei). split; cbn.
    + rewrite lookup_delete_ne by congruence. by exists e.
    + intros Hin. apply Hd. rewrite <- (take_drop i (w_deletes w)). apply elem_of_app in Hin as [Hin|Hin]; [set_solver|].
      apply elem_of_app. right. apply list_elem_of_lookup in Hin as [j Hj]. rewrite lookup_drop in Hj. apply list_elem_of_lookup. exists (S j). rewrite lookup_drop, <- Hj. f_equal. lia.
  - unfold cleanupExpiredSessions. apply wp_bind, wp_gets, wp_modify. split; [|done]. exists e. split; [|done]. cbn.
    apply map_lookup_filter_Some. split; [done|]. cbn. lia.
  - unfold cleanupFailedAttempts. by apply wp_bind, wp_gets, wp_modify.
  - by apply wp_modify.
Qed.

Lemma run_keeps_session c t evs : forall w w' es, has_session c t w -> t <= w_now w + SessionDuration -> web_run evs w = Some (w', es) -> w_now w' <= t ->
  Forall (fun ev => ~ logs_out ev c) evs -> has_session c t w' /\ w_password w' = w_password w.
Proof.
  induction evs as [|ev evs IH] using rev_ind; intros w w' es Hs Ht Hr Hn Hf; [by injection Hr as <- _|].
  apply web_run_snoc in Hr as (w1 & es1 & es2 & Hr & Hst & [Sp Sn _ _]). apply Forall_app in Hf as [Hf Hev%Forall_inv].
  assert (forall evs w w' es, web_run evs w = Some (w', es) -> w_now w <= w_now w') as Hmono.
  { clear. induction evs as [|ev evs IH] using rev_ind; intros w w' es Hr; [by injection Hr as <- _|].
    apply web_run_snoc in Hr as (w1 & es1 & es2 & Hr & _ & [_ Sn _ _]). apply IH in Hr. lia. }
  pose proof (Hmono _ _ _ _ Hr). destruct (IH w w1 es1 Hs Ht Hr ltac:(lia) Hf) as [Hs1 Hp1]. split; [|congruence].
  pose proof (step_keeps_session ev w1 c t Hs1 ltac:(lia) Hev) as Hk. unfold wp in Hk. by rewrite Hst in Hk.
Qed.

(** The session of a cookie is served at the routes of pages. *)
Lemma session_is_served r c t w : has_session c t w -> w_now w <= t -> hr_cookie r = Some c -> mux r ∈ [RtAdmin; RtConfigGet; RtConfigSet; RtStatic; RtRoot] ->
  w_password w <> ""%string -> exists w', web_step (WRequest r) w = Some (tt, w', [WeAnswer (w_next w) (RsServed (mux r))]).
Proof.
  intros [(e & He & Ht) _] Hn Hc Hm Hp.
  assert (forall rt, authMiddleware (w_next w) r rt (set_w_next (S (w_next w)) w) = Some (tt, set_w_next (S (w_next w)) w, [WeAnswer (w_next w) (RsServed rt)])) as Ha.
  { intros rt. unfold authMiddleware, isValidSession. cbv [mbind act_bind act_gets]. cbn [id set_w_next w_password w_sessions w_now].
    destruct (String.eqb_spec (w_password w) ""); [done|]. rewrite Hc. cbn [set_w_next w_sessions w_now]. rewrite He. destruct (Z.ltb_spec e (w_now w)); [lia|]. done. }
  cbn [web_step]. unfold serve. cbv [mbind act_bind act_gets act_modify].
  destruct (mux r); try (exfalso; set_solver); try (rewrite Ha; by eexists).
  unfold static_handler. destruct (static_asset r); [by eexists|]. rewrite Ha. by eexists.
Qed.

(** A login lasts. A POST of the right password from an address that is not
    blocked is answered with a cookie; and for 24 hours, until somebody logs that
    cookie out, every request with it to a page is handed to that page, whatever
    else happens at the server. *)
Theorem login_lasts r w c : mux r = RtLogin -> hr_method r = "POST"%string -> hr_body r = Some (w_password w) -> isIPBlocked (getClientIP r) w = false ->
  w_password w <> ""%string -> c ∉ w_deletes w -> let n := w_next w in
  exists w1, web_run [WRequest r; WBody n; WCreate n c] w = Some (w1, [WeAnswer n (RsLoggedIn c)]) /\
  forall evs w2 es r', web_run evs w1 = Some (w2, es) -> w_now w2 <= w_now w + SessionDuration -> Forall (fun ev => ~ logs_out ev c) evs ->
    hr_cookie r' = Some c -> mux r' ∈ [RtAdmin; RtConfigGet; RtConfigSet; RtStatic; RtRoot] ->
    exists w3, web_step (WRequest r') w2 = Some (tt, w3, [WeAnswer (w_next w2) (RsServed (mux r'))]).
Proof.
  intros Hm Hpost Hb Hblk Hp Hd n. cbn [web_run web_step]. unfold serve, login_start. cbv [mbind act_bind act_gets act_modify]. rewrite Hm, Hpost. cbn [String.eqb Ascii.eqb Bool.eqb negb id].
  change (isIPBlocked (getClientIP r) (set_w_next (S (w_next w)) w)) with (isIPBlocked (getClientIP r) w). rewrite Hblk.
  unfold login_body, clearFailedAttempts. cbv [mbind act_bind act_gets act_modify]. cbn [id set_w_logins set_w_next w_logins w_password]. unfold n. rewrite lookup_insert_eq, Hb, String.eqb_refl. cbn [negb].
  unfold login_create, createSession. cbv [mbind act_bind act_gets act_modify act_emit]. cbn [id set_w_logins set_w_failed set_w_next w_logins w_password]. rewrite lookup_insert_eq.
  eexists. split; [reflexivity|]. intros evs w2 es r' Hr Hn Hf Hc Hm'.
  eapply (run_keeps_session c (w_now w + SessionDuration)) in Hr as [Hs2 Hp2]; [|split; cbn; [eexists; split; [apply lookup_insert_eq|lia]|done]|cbn; lia|done|done].
  eapply session_is_served; [done|done|done|done|]. by rewrite Hp2.
Qed.

(** ** How often passwords can be tried *)

(** The event tests a password of this address, and it is wrong or right. *)
Definition tested (ip : string) (w : WebUIServer) (ev : webEvent) : option bool :=
  match ev with
  | WBody n =>
      match w_logins w !! n with
      | Some (r, LgBody) =>
          if String.eqb (getClientIP r) ip then match hr_body r with Some p => Some (String.eqb p (w_password w)) | None => None end else None
      | _ => None
      end
  | _ => None
  end.

(** How often a wrong password of this address is tested in a run. *)
Fixpoint failures (ip : string) (evs : list webEvent) (w : WebUIServer) : Z :=
  match evs with
  | [] => 0
  | ev :: evs =>
      (if bool_decide (tested ip w ev = Some false) then 1 else 0) +
      match web_step ev w with Some (_, w1, _) => failures ip evs w1 | None => 0 end
  end.

(** The logins of this address fail and follow each other. *)
Definition waiting (ip : string) (w : WebUIServer) : list (nat * (request * loginStage)) :=
  filter (fun kv => kv.2.2 = LgBody /\ getClientIP kv.2.1 = ip) (map_to_list (w_logins w)).
Definition waits (ip : string) (w : WebUIServer) (n : nat) : Prop := exists r, w_logins w !! n = Some (r, LgBody) /\ getClientIP r = ip.
Fixpoint one_by_one (ip : string) (evs : list webEvent) (w : WebUIServer) : Prop :=
  match evs with
  | [] => True
  | ev :: evs =>
      tested ip w ev <> Some true /\ (length (waiting ip w) <= 1)%nat /\
      match web_step ev w with Some (_, w1, _) => one_by_one ip evs w1 | None => True end
  end.

Lemma waits_unique ip w n1 n2 : (length (waiting ip w) <= 1)%nat -> waits ip w n1 -> waits ip w n2 -> n1 = n2.
Proof.
  intros Hl (r1 & H1 & E1) (r2 & H2 & E2). assert (forall n r, w_logins w !! n = Some (r, LgBody) -> getClientIP r = ip -> (n, (r, LgBody)) ∈ waiting ip w) as Hin.
  { intros n r Hn Hr. apply list_elem_of_filter. split; [done|]. by apply elem_of_map_to_list. }
  pose proof (Hin _ _ H1 E1) as F1. pose proof (Hin _ _ H2 E2) as F2. destruct (waiting ip w) as [|x [|y l]]; cbn in Hl; [set_solver| |lia].
  apply list_elem_of_singleton in F1, F2. congruence.
Qed.

Definition attempt_ok (now : Z) (info : FailedLoginInfo) : Prop :=
  0 <= fl_Count info /\ fl_LastAttempt info <= now /\ (MaxFailedAttempts <= fl_Count info -> fl_BlockedUntil info = fl_LastAttempt info + BlockDuration).
Definition attempts_ok (ip : string) (w : WebUIServer) : Prop := forall info, w_failedAttempts w !! ip = Some info -> attempt_ok (w_now w) info.
Definition may_test (ip : string) (w : WebUIServer) : Prop := forall info, w_failedAttempts w !! ip = Some info ->
  fl_Count info < MaxFailedAttempts \/ fl_BlockedUntil info <= w_now w.

(** The time that further failures of the address need not wait. *)
Definition credit (ip : string) (w : WebUIServer) : Z :=
  match w_failedAttempts w !! ip with
  | None => 3 * Minute
  | Some info => Z.min (3 * Minute) (Z.max 0 (3 - fl_Count info) * Minute + (w_now w - fl_LastAttempt info))
  end.

Lemma credit_range ip w : attempts_ok ip w -> 0 <= credit ip w <= 3 * Minute.
Proof.
  intros Ho. unfold credit, Minute, Second, Millisecond. destruct (w_failedAttempts w !! ip) as [info|] eqn:E; [|lia]. destruct (Ho info E) as (_ & Hl & _). lia.
Qed.

Lemma time_Sub_window now t : t <= now -> (AttemptWindow <? time_Sub now t) = (AttemptWindow <? now - t).
Proof. unfold time_Sub, AttemptWindow, Minute, Second, Millisecond. intros. destruct (Z.ltb_spec (15 * (60 * (1000 * 1000000))) (now - t)); lia. Qed.

Lemma failed_again_ok now (o : option FailedLoginInfo) : (forall info, o = Some info -> attempt_ok now info) ->
  attempt_ok now (failed_again now (default (MkFailed 0 zero_Time zero_Time) o)).
Proof.
  intros Ho. unfold failed_again, attempt_ok. cbn [fl_Count fl_LastAttempt fl_BlockedUntil].
  assert (0 <= fl_Count (default (MkFailed 0 zero_Time zero_Time) o)) as Hz by (destruct o as [info|]; [apply (Ho info eq_refl)|cbn; lia]).
  match goal with |- 0 <= ?c /\ _ => set (count := c) end. assert (0 <= count) by (unfold count; case_match; lia). split_and!; [done|lia|].
  intros Hc. destruct (Z.leb_spec MaxFailedAttempts count); lia.
Qed.

Lemma failure_costs now (o : option FailedLoginInfo) : (forall info, o = Some info -> attempt_ok now info) ->
  (forall info, o = Some info -> fl_Count info < MaxFailedAttempts \/ fl_BlockedUntil info <= now) ->
  let info' := failed_again now (default (MkFailed 0 zero_Time zero_Time) o) in
  attempt_ok now info' /\
  Minute + Z.min (3 * Minute) (Z.max 0 (3 - fl_Count info') * Minute + (now - fl_LastAttempt info')) <=
    match o with None => 3 * Minute | Some info => Z.min (3 * Minute) (Z.max 0 (3 - fl_Count info) * Minute + (now - fl_LastAttempt info)) end.
Proof.
  intros Ho Hm info'. split.
  - by apply failed_again_ok.
  - unfold info', failed_again. cbn [fl_Count fl_LastAttempt]. rewrite Z.sub_diag. destruct o as [info|]; cbn [default from_option id].
    + destruct (Ho info eq_refl) as (Hz & Hl & Hb). specialize (Hm info eq_refl). rewrite time_Sub_window by done.
      unfold MaxFailedAttempts, BlockDuration, AttemptWindow, Minute, Second, Millisecond in *. destruct (Z.ltb_spec (15 * (60 * (1000 * 1000000))) (now - fl_LastAttempt info)); lia.
    + cbn [fl_Count]. unfold Minute, Second, Millisecond. case_match; lia.
Qed.

Record quiet (ip : string) (w w' : WebUIServer) : Prop := {
  qu_failed : w_failedAttempts w' !! ip = w_failedAttempts w !! ip;
  qu_now : w_now w' = w_now w;
  qu_waits n : waits ip w' n -> waits ip w n
}.

Record spaced (ip : string) (cost : Z) (w w' : WebUIServer) : Prop := {
  sd_ok : attempts_ok ip w';
  sd_test n : waits ip w' n -> may_test ip w';
  sd_cost : cost + credit ip w' <= credit ip w + (w_now w' - w_now w)
}.

Lemma quiet_spaced ip w w' : quiet ip w w' -> attempts_ok ip w -> (forall n, waits ip w n -> may_test ip w) -> spaced ip 0 w w'.
Proof.
  intros [Ef En Ew] Ho Ht. split.
  - intros info Hi. rewrite En. apply Ho. by rewrite <- Ef.
  - intros n Hn info Hi. rewrite En. rewrite Ef in Hi. by apply (Ht n); [apply Ew|].
  - unfold credit. rewrite Ef, En. lia.
Qed.

Lemma auth_quiet ip n r rt w w0 : quiet ip w0 w -> wp (authMiddleware n r rt) w (fun _ w' _ => quiet ip w0 w').
Proof. intros [Ef En Ew]. apply wp_auth; [done|done|]. by intros w' a [->|(c & e & _ & _ & ->)] _. Qed.

Lemma quiet_insert ip w w' n r : w_failedAttempts w' = w_failedAttempts w -> w_now w' = w_now w -> w_logins w' = <[n := (r, LgBody)]> (w_logins w) ->
  attempts_ok ip w -> (forall m, waits ip w m -> may_test ip w) -> (getClientIP r = ip -> isIPBlocked ip w = false) -> spaced ip 0 w w'.
Proof.
  intros Ef En El Ho Ht Hb. split.
  - intros info Hi. rewrite En. apply Ho. by rewrite <- Ef.
  - intros m (r' & Hr & Hip) info Hi. rewrite En. rewrite Ef in Hi. rewrite El in Hr. apply lookup_insert_Some in Hr as [[<- [= <-]]|[Hne Hr]].
    + right. specialize (Hb Hip). unfold isIPBlocked in Hb. rewrite Hi in Hb. apply Z.ltb_ge in Hb. done.
    + apply (Ht m); [by exists r'|done].
  - unfold credit. rewrite Ef, En. lia.
Qed.

Lemma quiet_delete ip w w' n : w_failedAttempts w' = w_failedAttempts w -> w_now w' = w_now w -> w_logins w' = delete n (w_logins w) -> quiet ip w w'.
Proof. intros Ef En El. split; [by rewrite Ef|done|]. intros m (r' & Hr & Hip). rewrite El in Hr. apply lookup_delete_Some in Hr as [_ Hr]. by exists r'. Qed.

Definition cost_of (ip : string) (w : WebUIServer) (ev : webEvent) : Z := if bool_decide (tested ip w ev = Some false) then Minute else 0.

Lemma step_spaced ip ev w : attempts_ok ip w -> (forall n, waits ip w n -> may_test ip w) -> tested ip w ev <> Some true ->
  (forall n1 n2, waits ip w n1 -> waits ip w n2 -> n1 = n2) -> wp (web_step ev) w (fun _ w' _ => spaced ip (cost_of ip w ev) w w').
Proof.
  intros Ho Ht Htrue Huniq.
  assert (forall w', quiet ip w w' -> spaced ip 0 w w') as Hq by (intros; by apply quiet_spaced).
  destruct ev as [r|n|n sessionID|i| | |d]; cbn [web_step]; unfold cost_of; try (rewrite bool_decide_false by done).
  - unfold serve. apply wp_bind, wp_gets, wp_bind, wp_modify.
    assert (forall rt, wp (authMiddleware (w_next w) r rt) (set_w_next (S (w_next w)) w) (fun _ w' _ => spaced ip 0 w w')) as Ha.
    { intros rt. eapply wp_mono; [by apply (auth_quiet ip _ r rt _ w)|]. intros u w' es Hw. by apply Hq. }
    destruct (mux r); try apply Ha; try (apply wp_emit; by apply Hq).
    + unfold login_start. case_match; [apply wp_emit; by apply Hq|]. apply wp_bind, wp_gets. destruct (isIPBlocked _ _) eqn:Eb; [apply wp_emit; by apply Hq|].
      apply wp_modify. eapply quiet_insert; [done..|]. by intros <-.
    + unfold logoutHandler. apply wp_bind. case_match; [apply wp_modify, wp_emit|apply wp_ret, wp_emit]; by apply Hq.
    + unfold static_handler. case_match; [apply wp_emit; by apply Hq|apply Ha].
  - cbn [tested] in Htrue |- *. unfold login_body. apply wp_bind, wp_gets. cbn [id]. destruct (w_logins w !! n) as [[r [|]]|] eqn:El; [|apply wp_ret; by apply Hq..].
    apply wp_bind, wp_modify. cbn [set_w_logins w_password].
    destruct (hr_body r) as [password|]; [|rewrite bool_decide_false by (by case_match); apply wp_emit, Hq; by eapply quiet_delete].
    destruct (String.eqb_spec password (w_password w)) as [_|Hne]; cbn [negb].
    + destruct (String.eqb_spec (getClientIP r) ip) as [|Hip]; [done|]. rewrite bool_decide_false by done. apply wp_bind, wp_modify, wp_modify, Hq. split; [cbn; by rewrite lookup_delete_ne|done|].
      intros m (r' & Hr & Hip'). cbn in Hr. apply lookup_insert_Some in Hr as [[_ ?]|[_ Hr]]; [done|]. apply lookup_delete_Some in Hr as [_ Hr]. by exists r'.
    + apply wp_bind. unfold recordFailedAttempt. apply wp_bind, wp_gets, wp_modify, wp_emit. cbn [id set_w_logins set_w_failed w_now w_failedAttempts].
      destruct (String.eqb_spec (getClientIP r) ip) as [Hip|Hip].
      * rewrite bool_decide_true by done. rewrite Hip. assert (waits ip w n) as Hwn by (by exists r).
        destruct (failure_costs (w_now w) (w_failedAttempts w !! ip)) as [Ho' Hc]; [by apply Ho|by apply (Ht n)|]. split; cbn.
        -- intros info Hi. cbn in Hi. rewrite lookup_insert_eq in Hi. by injection Hi as <-.
        -- intros m (r' & Hr & Hip'). cbn in Hr. apply lookup_delete_Some in Hr as [Hnm Hr]. exfalso. apply Hnm. apply Huniq; [done|by exists r'].
        -- unfold credit at 1. cbn. rewrite lookup_insert_eq. unfold credit. lia.
      * rewrite bool_decide_false by done. apply Hq. split; [cbn; by rewrite lookup_insert_ne|done|].
        intros m (r' & Hr & Hip'). cbn in Hr. apply lookup_delete_Some in Hr as [_ Hr]. by exists r'.
  - unfold login_create. apply wp_bind, wp_gets. cbn [id]. destruct (w_logins w !! n) as [[r [|]]|] eqn:El; [apply wp_ret; by apply Hq| |apply wp_ret; by apply Hq].
    apply wp_bind, wp_modify, wp_bind. unfold createSession. apply wp_bind, wp_gets, wp_modify, wp_emit, Hq. by eapply quiet_delete.
  - unfold delete_expired. apply wp_bind, wp_gets. cbn [id]. destruct (w_deletes w !! i); [|apply wp_ret; by apply Hq]. apply wp_bind, wp_modify, wp_modify. by apply Hq.
  - unfold cleanupExpiredSessions. apply wp_bind, wp_gets, wp_modify. by apply Hq.
  - unfold cleanupFailedAttempts. apply wp_bind, wp_gets, wp_modify. cbn [id].
    assert (forall info, filter (fun kv : string * FailedLoginInfo => ~ stale_attempt (w_now w) kv.2) (w_failedAttempts w) !! ip = Some info -> w_failedAttempts w !! ip = Some info) as Hf by (by intros info [Hi _]%map_lookup_filter_Some).
    split; cbn.
    + intros info Hi. by apply Ho, Hf.
    + intros n (r & Hr & Hip) info Hi. apply (Ht n); [by exists r|by apply Hf].
    + unfold credit. cbn. destruct (filter _ (w_failedAttempts w) !! ip) as [info|] eqn:Ei; [rewrite (Hf info eq_refl); lia|].
      destruct (w_failedAttempts w !! ip) as [info|] eqn:Ew; [|lia]. apply map_lookup_filter_None in Ei as [Ei|Ei]; [congruence|]. specialize (Ei info Ew). cbn in Ei.
      apply dec_stable in Ei as [_ Ha]. apply Z.ltb_lt in Ha. destruct (Ho info Ew) as (_ & Hl & _). rewrite time_Sub_window in Ha by done. unfold AttemptWindow, Minute, Second, Millisecond in *. lia.
  - apply wp_modify. split; cbn.
    + intros info Hi. destruct (Ho info Hi) as (Hz & Hl & Hb). unfold attempt_ok. cbn. split_and!; [done|lia|done].
    + intros n Hn info Hi. destruct (Ht n Hn info Hi) as [Hx|Hx]; [by left|right; cbn; lia].
    + unfold credit. cbn. destruct (w_failedAttempts w !! ip); lia.
Qed.

Lemma run_spaced ip evs : forall w w' es, attempts_ok ip w -> (forall n, waits ip w n -> may_test ip w) -> one_by_one ip evs w -> web_run evs w = Some (w', es) ->
  failures ip evs w * Minute + credit ip w' <= credit ip w + (w_now w' - w_now w) /\ attempts_ok ip w'.
Proof.
  induction evs as [|ev evs IH]; intros w w' es Ho Ht Hone Hr; cbn [failures web_run one_by_one] in *; [injection Hr as <- _; split; [lia|done]|].
  destruct Hone as (Htr & Hu & Hone). pose proof (step_spaced ip ev w Ho Ht Htr (fun n1 n2 => waits_unique ip w n1 n2 Hu)) as Hs. unfold wp in Hs.
  destruct (web_step ev w) as [[[[] w1] es1]|] eqn:Es; [|done]. destruct (web_run evs w1) as [[w2 es2]|] eqn:Er; [|done]. injection Hr as <- _.
  destruct Hs as [Ho1 Ht1 Hc]. destruct (IH w1 w2 es2 Ho1 Ht1 Hone Er) as [Hi Ho2]. split; [|done]. unfold cost_of in Hc. case_bool_decide; lia.
Qed.

(** The record of an address is kept well in every run. *)
Lemma step_attempts ip ev w : attempts_ok ip w -> wp (web_step ev) w (fun _ w' _ => attempts_ok ip w').
Proof.
  intros Ho. assert (forall w', w_failedAttempts w' = w_failedAttempts w -> w_now w' = w_now w -> attempts_ok ip w') as Hq by (intros w' Ef En info; rewrite Ef, En; apply Ho).
  destruct ev as [r|n|n sessionID|i| | |d]; cbn [web_step].
  - unfold serve. apply wp_bind, wp_gets, wp_bind, wp_modify.
    assert (forall rt, wp (authMiddleware (w_next w) r rt) (set_w_next (S (w_next w)) w) (fun _ w' _ => attempts_ok ip w')) as Ha.
    { intros rt. apply wp_auth; [done..|]. by intros w' a [->|(c & e & _ & _ & ->)] _. }
    destruct (mux r); try apply Ha; try (apply wp_emit; by apply Hq).
    + unfold login_start. case_match; [apply wp_emit; by apply Hq|]. apply wp_bind, wp_gets. case_match; [apply wp_emit; by apply Hq|]. apply wp_modify. by apply Hq.
    + unfold logoutHandler. apply wp_bind. case_match; [apply wp_modify, wp_emit|apply wp_ret, wp_emit]; by apply Hq.
    + unfold static_handler. case_match; [apply wp_emit; by apply Hq|apply Ha].
  - unfold login_body. apply wp_bind, wp_gets. cbn [id]. destruct (w_logins w !! n) as [[r [|]]|]; [|apply wp_ret; by apply Hq..]. apply wp_bind, wp_modify.
    destruct (hr_body r) as [password|]; [|by apply wp_emit, Hq]. destruct (negb _).
    + apply wp_bind. unfold recordFailedAttempt. apply wp_bind, wp_gets, wp_modify, wp_emit. cbn [id set_w_logins set_w_failed w_now w_failedAttempts].
      intros info Hi. cbn in Hi |- *. apply lookup_insert_Some in Hi as [[E <-]|[_ Hi]]; [|by apply Ho]. rewrite E. by apply failed_again_ok.
    + apply wp_bind, wp_modify, wp_modify. intros info Hi. cbn in Hi |- *. apply lookup_delete_Some in Hi as [_ Hi]. by apply Ho.
  - unfold login_create. apply wp_bind, wp_gets. cbn [id]. destruct (w_logins w !! n) as [[r [|]]|]; [apply wp_ret; by apply Hq| |apply wp_ret; by apply Hq].
    apply wp_bind, wp_modify, wp_bind. unfold createSession. apply wp_bind, wp_gets, wp_modify, wp_emit. by apply Hq.
  - unfold delete_expired. apply wp_bind, wp_gets. cbn [id]. destruct (w_deletes w !! i); [|apply wp_ret; by apply Hq]. apply wp_bind, wp_modify, wp_modify. by apply Hq.
  - unfold cleanupExpiredSessions. apply wp_bind, wp_gets, wp_modify. by apply Hq.
  - unfold cleanupFailedAttempts. apply wp_bind, wp_gets, wp_modify. intros info Hi. cbn in Hi |- *. apply map_lookup_filter_Some in Hi as [Hi _]. by apply Ho.
  - apply wp_modify. intros info Hi. destruct (Ho info Hi) as (Hz & Hl & Hb). unfold attempt_ok. cbn. split_and!; [done|lia|done].
Qed.

Lemma run_attempts ip evs : forall w w' es, attempts_ok ip w -> web_run evs w = Some (w', es) -> attempts_ok ip w'.
Proof.
  induction evs as [|ev evs IH]; intros w w' es Ho; cbn [web_run]; [by intros [= <- _]|]. pose proof (step_attempts ip ev w Ho) as Hs. unfold wp in Hs.
  destruct (web_step ev w) as [[[u w1] es1]|]; [|done]. destruct (web_run evs w1) as [[w2 es2]|] eqn:E; [|done]. intros [= <- _]. by eapply IH.
Qed.

(** C33: passwords cannot be tried quickly. From any moment at which no login of
    an address is under way, while its logins follow each other and none succeeds:
    the number of wrong passwords of that address that are tested is at most three
    more than the minutes that pass, whatever else happens. *)
Theorem failures_are_spaced ip password now evs0 w es0 evs w' es :
  web_run evs0 (Server password now) = Some (w, es0) -> (forall n, ~ waits ip w n) -> one_by_one ip evs w -> web_run evs w = Some (w', es) ->
  (failures ip evs w - 3) * Minute <= w_now w' - w_now w.
Proof.
  intros Hr0 Hn Hone Hr. assert (attempts_ok ip w) as Ho by (eapply run_attempts; [|exact Hr0]; intros info; cbn; by rewrite lookup_empty).
  destruct (run_spaced ip evs w w' es Ho ltac:(intros n Hw; by destruct (Hn n)) Hone Hr) as [Hc Ho'].
  pose proof (credit_range ip w Ho). pose proof (credit_range ip w' Ho'). lia.
Qed.

(** ** The limit can be evaded *)

Lemma login_starts r w : mux r = RtLogin -> hr_method r = "POST"%string -> isIPBlocked (getClientIP r) w = false ->
  web_step (WRequest r) w = Some (tt, set_w_logins (insert (w_next w) (r, LgBody)) (set_w_next (S (w_next w)) w), []).
Proof.
  intros Hm Hp Hb. cbn [web_step]. unfold serve, login_start. cbv [mbind act_bind act_gets act_modify]. rewrite Hm, Hp. cbn [String.eqb Ascii.eqb Bool.eqb negb id].
  change (isIPBlocked (getClientIP r) (set_w_next (S (w_next w)) w)) with (isIPBlocked (getClientIP r) w). by rewrite Hb.
Qed.

Lemma login_fails r n wrong w : w_logins w !! n = Some (r, LgBody) -> hr_body r = Some wrong -> wrong <> w_password w -> exists info,
  web_step (WBody n) w = Some (tt, set_w_failed (insert (getClientIP r) info) (set_w_logins (delete n) w), [WeAnswer n (RsStatus 401)]).
Proof.
  intros Hl Hb Hw. cbn [web_step]. unfold login_body, recordFailedAttempt. cbv [mbind act_bind act_gets act_modify act_emit]. cbn [id]. rewrite Hl, Hb.
  cbn [set_w_logins w_password]. destruct (String.eqb_spec wrong (w_password w)); [done|]. cbn [negb]. by eexists.
Qed.

(** Logins that were started before the first of them failed are all tested. *)
Lemma tested_together r wrong password now k : mux r = RtLogin -> hr_method r = "POST"%string -> hr_body r = Some wrong -> wrong <> password -> exists w es,
  web_run (repeat (WRequest r) k ++ map WBody (seq 0 k)) (Server password now) = Some (w, es) /\
  w_now w = now /\ es = map (fun n => WeAnswer n (RsStatus 401)) (seq 0 k).
Proof.
  intros Hm Hp Hb Hw.
  assert (forall j w, w_failedAttempts w = ∅ -> exists w', web_run (repeat (WRequest r) j) w = Some (w', []) /\ w_now w' = w_now w /\ w_password w' = w_password w /\
    (forall n, (n < w_next w)%nat -> w_logins w' !! n = w_logins w !! n) /\ (forall n, (w_next w <= n < w_next w + j)%nat -> w_logins w' !! n = Some (r, LgBody))) as Hstart.
  { induction j as [|j IH]; intros w Hf; cbn [repeat web_run]; [exists w; split_and!; [done..|lia]|].
    rewrite login_starts; [|done|done|unfold isIPBlocked; by rewrite Hf, lookup_empty]. destruct (IH (set_w_logins (insert (w_next w) (r, LgBody)) (set_w_next (S (w_next w)) w)) Hf) as (w' & Hr & Hn & Hpw & Hlo & Hhi). cbn in Hlo, Hhi, Hn, Hpw.
    rewrite Hr. exists w'. split_and!; [done|done|done| |].
    - intros n Hlt. rewrite Hlo by lia. rewrite lookup_insert_ne by lia. done.
    - intros n Hlt. destruct (decide (n = w_next w)) as [->|]; [rewrite Hlo by lia; by rewrite lookup_insert_eq|apply Hhi; lia]. }
  assert (forall l w, NoDup l -> w_password w = password -> (forall n, n ∈ l -> w_logins w !! n = Some (r, LgBody)) -> exists w', web_run (map WBody l) w = Some (w', map (fun n => WeAnswer n (RsStatus 401)) l) /\ w_now w' = w_now w) as Htest.
  { induction l as [|n l IH]; intros w Hnd Hpw Hl; [by exists w|]. apply NoDup_cons in Hnd as [Hni Hnd]. cbn [map web_run].
    destruct (login_fails r n wrong w) as [info ->]; [apply Hl; by left|done|congruence|].
    edestruct (IH (set_w_failed (insert (getClientIP r) info) (set_w_logins (delete n) w))) as (w' & Hr & Hn); [done|exact Hpw| |rewrite Hr; by exists w'].
    intros m Hin. cbn. rewrite lookup_delete_ne by (intros ->; done). apply Hl. by right. }
  destruct (Hstart k (Server password now) eq_refl) as (w1 & Hr1 & Hn1 & Hpw1 & _ & Hl1).
  destruct (Htest (seq 0 k) w1 (NoDup_seq 0 k) Hpw1) as (w2 & Hr2 & Hn2); [intros n Hin%elem_of_seq; apply Hl1; cbn; lia|].
  exists w2, (map (fun n => WeAnswer n (RsStatus 401)) (seq 0 k)). rewrite web_run_app, Hr1, Hr2. split_and!; [done|by rewrite Hn2, Hn1|done].
Qed.

(** So are logins of one host that names another address in a header each time. *)
Fixpoint name_of (n : nat) : string := match n with O => "a"%string | S n => String "a"%char (name_of n) end.

Lemma name_of_length n : String.length (name_of n) = S n.
Proof. induction n as [|n IH]; cbn; [done|by rewrite IH]. Qed.

Definition named (r : request) (n : nat) : request := MkHttpRequest "POST" "/auth/login" None "" (name_of n) (hr_remoteAddr r) (hr_body r).

Lemma named_ip r n : getClientIP (named r n) = name_of n.
Proof. unfold getClientIP, named. cbn. by destruct n. Qed.

Lemma tested_by_header r wrong password now k : hr_body r = Some wrong -> wrong <> password -> exists w es,
  web_run (concat (map (fun n => [WRequest (named r n); WBody n]) (seq 0 k))) (Server password now) = Some (w, es) /\
  w_now w = now /\ es = map (fun n => WeAnswer n (RsStatus 401)) (seq 0 k).
Proof.
  intros Hb Hw.
  assert (forall j i w, w_next w = i -> w_password w = password -> (forall n, (i <= n)%nat -> w_failedAttempts w !! name_of n = None) -> exists w',
    web_run (concat (map (fun n => [WRequest (named r n); WBody n]) (seq i j))) w = Some (w', map (fun n => WeAnswer n (RsStatus 401)) (seq i j)) /\ w_now w' = w_now w) as Hx.
  { induction j as [|j IH]; intros i w Hi Hpw Hf; [by exists w|]. cbn [seq map concat app web_run].
    rewrite login_starts; [|by vm_compute|done|unfold isIPBlocked; by rewrite named_ip, Hf]. rewrite Hi.
    destruct (login_fails (named r i) i wrong (set_w_logins (insert i (named r i, LgBody)) (set_w_next (S i) w))) as [info ->]; [cbn; apply lookup_insert_eq|done|cbn; congruence|].
    destruct (IH (S i) (set_w_failed (insert (getClientIP (named r i)) info) (set_w_logins (delete i) (set_w_logins (insert i (named r i, LgBody)) (set_w_next (S i) w)))))
      as (w' & Hr & Hn); [done|exact Hpw| |rewrite Hr; by exists w'].
    intros n Hle. cbn [set_w_failed w_failedAttempts set_w_logins set_w_next]. rewrite named_ip, lookup_insert_ne; [apply Hf; lia|]. intros E. pose proof (name_of_length i) as Hl. rewrite E, name_of_length in Hl. lia. }
  destruct (Hx k 0%nat (Server password now)) as (w & Hr & Hn); [done|done|intros; apply lookup_empty|]. by eexists _, _.
Qed.
End safety.

(** ** Concrete inputs *)

Definition w_login : request := MkHttpRequest "POST" "/auth/login" None "" "10.0.0.1" "" (Some "secret"%string).
Definition w_guess : request := MkHttpRequest "POST" "/auth/login" None "" "10.0.0.1" "" (Some "guess"%string).
Definition w_page : request := MkHttpRequest "GET" "/api/admin/getSelf" (Some "id0"%string) "" "" "" None.
Definition w_server : WebUIServer := Server "secret" 1000.
Definition w_history : list webEvent := [WRequest w_login; WBody 0; WCreate 0 "id0"; WTick (3600 * Second)].

Lemma pages_need_login_witness : exists c evs1 k evs2, hr_cookie w_page = Some c /\ w_history = evs1 ++ WCreate k c :: evs2.
Proof.
  destruct (@web_run toy_strings w_history w_server) as [[w es]|] eqn:Er; [|exfalso; revert Er; vm_compute; discriminate].
  destruct (@web_step toy_strings (WRequest w_page) w) as [[[[] w'] es']|] eqn:Es; [|exfalso; vm_compute in Er; injection Er as <- _; revert Es; vm_compute; discriminate].
  destruct (@pages_need_login toy_strings "secret" 1000 w_history w es w_page w' es' 1 RtAdmin) as (c & evs1 & k & evs2 & w1 & es1 & r0 & Hc & He & _).
  - discriminate.
  - exact Er.
  - exact Es.
  - vm_compute in Er. injection Er as <- _. vm_compute in Es. injection Es as _ <-. left.
  - reflexivity.
  - exists c, evs1, k, evs2. split; [exact Hc|exact He].
Defined.

Definition w_guesses : list webEvent :=
  [WRequest w_guess; WBody 0; WRequest w_guess; WBody 1; WRequest w_guess; WBody 2; WRequest w_guess; WBody 3; WTick Minute; WRequest w_guess; WBody 4].

Lemma failures_are_spaced_witness : exists w', @failures toy_strings "10.0.0.1" w_guesses w_server = 4 /\ 1 * Minute <= w_now w' - w_now w_server.
Proof.
  destruct (@web_run toy_strings w_guesses w_server) as [[w' es]|] eqn:Er; [|exfalso; revert Er; vm_compute; discriminate].
  exists w'. assert (@failures toy_strings "10.0.0.1" w_guesses w_server = 4) as E by (vm_compute; reflexivity). split; [exact E|].
  pose proof (@failures_are_spaced toy_strings "10.0.0.1" "secret" 1000 [] w_server [] w_guesses w' es eq_refl) as Hx. rewrite E in Hx. apply Hx.
  - intros n (r & Hl & _). cbn in Hl. rewrite lookup_empty in Hl. discriminate.
  - vm_compute. repeat (split; [discriminate|split; [lia|]]). exact I.
  - exact Er.
Defined.
