(* ===== verification/Carriers.v ===== *)
(** * The carriers of links

    What the carriers decide before they open a socket: which addresses of a host
    are dialled ([findSuitableIP] of [src/core/link.go], with the filter that
    [cmd/yggdrasil/main.go] sets), from which source address ([link_tcp.go]), which
    origins a websocket accepts ([link_ws.go]), and the keys of [link_xray_reality.go].
    Sockets, name lookups and network interfaces are inputs. *)

From Stdlib Require Import String Ascii.
From S2P Require Import Prelude Crypto RouterState E2c Address AddressBits AddressSafety LinkOptions Multicast.

(** ** Package net *)

Definition v4_mapped (l : list byte) : IP := v4_prefix ++ l.
Definition IPv4zero : IP := v4_mapped (replicate 4 Byte.x00).
Definition IPv4bcast : IP := v4_mapped (replicate 4 Byte.xff).
Definition IPv6unspecified : IP := replicate 16 Byte.x00.
Definition IPv6loopback : IP := replicate 15 Byte.x00 ++ [Byte.x01].

Definition IsUnspecified (ip : IP) : bool := IP_Equal ip IPv4zero || IP_Equal ip IPv6unspecified.
Definition IsLoopback (ip : IP) : bool :=
  match To4 ip with Some ip4 => ip_byte ip4 0 =? 127 | None => IP_Equal ip IPv6loopback end.
Definition IsMulticast (ip : IP) : bool :=
  match To4 ip with
  | Some ip4 => Z.land (ip_byte ip4 0) 240 =? 224
  | None => (length ip =? 16)%nat && (ip_byte ip 0 =? 255)
  end.
Definition IsInterfaceLocalMulticast (ip : IP) : bool :=
  (length ip =? 16)%nat && (ip_byte ip 0 =? 255) && (Z.land (ip_byte ip 1) 15 =? 1).
Definition IsGlobalUnicast (ip : IP) : bool :=
  ((length ip =? 4)%nat || (length ip =? 16)%nat) && negb (IP_Equal ip IPv4bcast) && negb (IsUnspecified ip)
    && negb (IsLoopback ip) && negb (IsMulticast ip) && negb (IsLinkLocalUnicast ip).

(** [IPNet.Contains] of a 16-byte network: bytes agree under the mask. *)
Definition Contains (net mask : list byte) (ip : IP) : bool :=
  let ip := default ip (To4 ip) in
  (length ip =? length net)%nat &&
  forallb (fun x => Z.land (b2z x.1.1) (b2z x.2) =? Z.land (b2z x.1.2) (b2z x.2)) (zip (zip net ip) mask).

(** ** Package strconv *)

Definition ParseUint (bits : Z) (s : string) : option Z :=
  match s with
  | EmptyString => None
  | _ => match decimal 0 s with
         | None => None
         | Some n => if n <? 2 ^ bits then Some n else None
         end
  end.
Definition ParseInt (bits : Z) (s : string) : option Z :=
  let '(neg, digits) :=
    match s with
    | String a s' => if Ascii.eqb a "+" then (false, s') else if Ascii.eqb a "-" then (true, s') else (false, s)
    | EmptyString => (false, s)
    end in
  match ParseUint bits digits with
  | None => None
  | Some un =>
      let cutoff := 2 ^ (bits - 1) in
      if negb neg && (cutoff <=? un) then None
      else if neg && (cutoff <? un) then None
      else Some (if neg : bool then - un else un)
  end.
Definition Atoi (s : string) : option Z := ParseInt 64 s.
Definition ParseBool (s : string) : option bool :=
  if existsb (String.eqb s) ["1"; "t"; "T"; "TRUE"; "true"; "True"]%string then Some true
  else if existsb (String.eqb s) ["0"; "f"; "F"; "FALSE"; "false"; "False"]%string then Some false
  else None.

(** ** Errors *)

Inductive carrierError :=
| CeHostPort
| CePort
| CeLookup
| ErrLinkNoSuitableIPs
| CeNoZone
| CeNoInterface
| CeInterfaceDown
| CeNoAddresses
| CeNoSource
| CeConnect (n : nat).
#[global] Instance carrierError_eq_dec : EqDecision carrierError.
Proof. solve_decision. Defined.

(** ** Which addresses are dialled *)

(** The filter of the programs: addresses of the network itself are refused. *)
Definition own_range (prefix : byte) : list byte := z2b (Z.land (b2z prefix) 254) :: replicate 15 Byte.x00.
Definition mask7 : list byte := Byte.xfe :: replicate 15 Byte.x00.
Definition own_filter (prefix : byte) (ip : IP) : bool := negb (Contains (own_range prefix) mask7 ip).

Definition suitable (peerFilter : option (IP -> bool)) (ip : IP) : bool :=
  if IsUnspecified ip then false
  else if IsMulticast ip then false
  else if IsLinkLocalMulticast ip then false
  else if IsInterfaceLocalMulticast ip then false
  else match peerFilter with Some f => f ip | None => true end.

(** The last loop: [fn] is tried until it succeeds; [err] is the last error. *)
Fixpoint try_ips {C} (fn : nat -> IP -> sum carrierError C) (i : nat) (ips : list IP) (err : carrierError) : list IP * sum carrierError C :=
  match ips with
  | [] => ([], inl err)
  | ip :: ips =>
      match fn i ip with
      | inl err => let '(tried, r) := try_ips fn (S i) ips err in (ip :: tried, r)
      | inr conn => ([ip], inr conn)
      end
  end.

Section carriers.
Context `{GoStrings}.

(** [findSuitableIP], with the addresses that it tried. *)
Definition findSuitableIP {C} (peerFilter : option (IP -> bool)) (lookup : string -> option (list IP)) (host : string)
    (fn : string -> Z -> nat -> IP -> sum carrierError C) : list IP * sum carrierError C :=
  match SplitHostPort host with
  | None => ([], inl CeHostPort)
  | Some (host, p) =>
      match Atoi p with
      | None => ([], inl CePort)
      | Some port =>
          match lookup host with
          | None => ([], inl CeLookup)
          | Some resp =>
              match filter (fun ip => suitable peerFilter ip = true) resp with
              | [] => ([], inl ErrLinkNoSuitableIPs)
              | ips => try_ips (fn host port) 0 ips ErrLinkNoSuitableIPs
              end
          end
      end
  end.

(** ** TCP *)

Record TCPAddr := MkTCPAddr { ta_IP : IP; ta_Port : Z; ta_Zone : string }.

(** An interface: whether it is up, and its addresses, where [None] is one that
    does not parse; reading them may fail. *)
Record netIface := MkIface { if_up : bool; if_addrs : option (list (option IP)) }.

Definition is_v4 (ip : IP) : bool := match To4 ip with Some _ => true | None => false end.

(** The loop over the addresses of the interface. *)
Fixpoint source_for (dst : IP) (len addrindex : nat) (addrs : list (option IP)) : option IP :=
  match addrs with
  | [] => None
  | None :: addrs => source_for dst len (S addrindex) addrs
  | Some src :: addrs =>
      let bothglobal := Bool.eqb (IsGlobalUnicast src) (IsGlobalUnicast dst) in
      let bothlinklocal := Bool.eqb (IsLinkLocalUnicast src) (IsLinkLocalUnicast dst) in
      if negb (IsGlobalUnicast src) && negb (IsLinkLocalUnicast src) then source_for dst len (S addrindex) addrs
      else if negb bothglobal && negb bothlinklocal then source_for dst len (S addrindex) addrs
      else if negb (Bool.eqb (is_v4 src) (is_v4 dst)) then source_for dst len (S addrindex) addrs
      else if bothglobal || bothlinklocal || (addrindex =? len - 1)%nat then Some src
      else source_for dst len (S addrindex) addrs
  end.

(** [linkTCP.dialerFor]: the local address of the dialer, and [dst] with its zone. *)
Definition tcp_dialerFor (interfaces : string -> option netIface) (dst : TCPAddr) (sintf : string) : sum carrierError (option TCPAddr * TCPAddr) :=
  let linklocal := IsLinkLocalUnicast (ta_IP dst) in
  let dst := if linklocal && negb (String.eqb sintf "") then MkTCPAddr (ta_IP dst) (ta_Port dst) sintf else dst in
  let zoned := linklocal && negb (String.eqb (ta_Zone dst) "") in
  if linklocal && String.eqb (ta_Zone dst) "" then inl CeNoZone
  else if String.eqb sintf "" then inr (None, dst)
  else
    match interfaces sintf with
    | None => if zoned then inr (None, dst) else inl CeNoInterface
    | Some ief =>
        if negb (if_up ief) then inl CeInterfaceDown
        else
          match if_addrs ief with
          | None => if zoned then inr (None, dst) else inl CeNoAddresses
          | Some addrs =>
              match source_for (ta_IP dst) (length addrs) 0 addrs with
              | Some src => inr (Some (MkTCPAddr src 0 sintf), dst)
              | None => if zoned then inr (None, dst) else inl CeNoSource
              end
          end
    end.

(** [linkTCP.dial]; [connect] is the dialer at work, for each attempt. *)
Definition linkTCP_dial {C} (peerFilter : option (IP -> bool)) (lookup : string -> option (list IP)) (interfaces : string -> option netIface)
    (connect : nat -> option TCPAddr -> TCPAddr -> sum carrierError C) (u : url) (sintf : string) : list IP * sum carrierError C :=
  findSuitableIP peerFilter lookup (u_host u) (fun _ port n ip =>
    match tcp_dialerFor interfaces (MkTCPAddr ip port "") sintf with
    | inl e => inl e
    | inr (source, dst) => connect n source dst
    end).

(** The address that [linkTCP.listen] listens on. *)
Definition tcp_listen_addr (u : url) (sintf : string) : string :=
  if String.eqb sintf "" then u_host u
  else match SplitHostPort (u_host u) with
       | Some (host, port) => ("[" ++ host ++ "%" ++ sintf ++ "]:" ++ port)%string
       | None => u_host u
       end.
End carriers.

(** ** Websockets *)

Record AcceptOptions := MkAccept { ao_InsecureSkipVerify : bool; ao_OriginPatterns : list string }.

Fixpoint accept_origins (origins : list string) (opts : AcceptOptions) : AcceptOptions :=
  match origins with
  | [] => opts
  | origin :: origins =>
      if String.eqb origin "" then accept_origins origins opts
      else if String.eqb origin "*" then MkAccept true []
      else accept_origins origins (MkAccept (ao_InsecureSkipVerify opts) (ao_OriginPatterns opts ++ [origin]))
  end.
Definition wsAcceptOptions (u : url) : AcceptOptions := accept_origins (query_all u "origin") (MkAccept false []).

(** ** REALITY *)

Definition clamp (priv : list byte) : list byte :=
  match priv with
  | b0 :: rest =>
      z2b (Z.land (b2z b0) 248) :: match reverse rest with
        | b31 :: mid => reverse mid ++ [z2b (Z.lor (Z.land (b2z b31) 127) 64)]
        | [] => []
        end
  | [] => []
  end.
Definition realityPrivKeyFromNodeKey `{Sha512} (seed : list byte) : list byte :=
  clamp (take 32 (arr_list (sha512_Sum seed))).

(** The short ids that a listener accepts. *)
Definition reality_shortIDs (sid : string) : option (gset (array 8)) :=
  if String.eqb sid "" then Some {[zero_array 8]}
  else match hex_DecodeString sid with
       | None => None
       | Some b => Some ({[array_of 8 b]} ∪ {[zero_array 8]})
       end.
Definition server_name (u : url) : string :=
  let sni := query_get u "sni" in if String.eqb sni "" then query_get u "serverName" else sni.

(** ** Properties of the carriers

    Which addresses are dialled, and from where. *)

(** ** Addresses of the network itself *)

(** An address of a node, or one in the subnet of a node. *)
Definition of_network (prefix : byte) (ip : IP) : Prop :=
  (exists key a, AddrForKey prefix key = Some a /\ ip = arr_list a) \/
  (exists key s, SubnetForKey prefix key = Some s /\ length ip = 16%nat /\ take 8 ip = arr_list s).

Lemma zero_masked n : forall l, length l = n ->
  forallb (fun x => Z.land (b2z x.1.1) (b2z x.2) =? Z.land (b2z x.1.2) (b2z x.2)) (zip (zip (replicate n Byte.x00) l) (replicate n Byte.x00)) = true.
Proof.
  induction n as [|n IH]; intros [|b l] Hl; try done. cbn [replicate zip zip_with forallb fst snd]. rewrite IH by (by injection Hl).
  change (b2z Byte.x00) with 0. by rewrite !Z.land_0_r.
Qed.

Lemma land_254_range z : 0 <= z -> 0 <= Z.land z 254 < 256.
Proof.
  intros Hz. split; [apply Z.land_nonneg; lia|]. destruct (Z.eq_dec (Z.land z 254) 0) as [->|Hne]; [lia|].
  apply Z.log2_lt_cancel. assert (0 <= Z.land z 254) by (apply Z.land_nonneg; lia).
  pose proof (Z.log2_land z 254 Hz ltac:(lia)) as Hl. change (Z.log2 254) with 7 in Hl. change (Z.log2 256) with 8. lia.
Qed.

(** The filter refuses what shares the first seven bits, unless it is taken for
    an IPv4 address. *)
Lemma own_filter_exact prefix ip b l : ip = b :: l -> length ip = 16%nat -> Z.land (b2z b) 254 = Z.land (b2z prefix) 254 ->
  (own_filter prefix ip = false <-> To4 ip = None) /\ (To4 ip <> None -> Z.land (b2z prefix) 254 = 0).
Proof.
  intros -> Hlen Hb. unfold own_filter, Contains, To4. rewrite Hlen. cbn [Nat.eqb andb]. case_bool_decide as Hv.
  - assert (length (drop 12 (b :: l)) = 4%nat) as L4 by (by rewrite length_drop, Hlen).
    split; [|intros _; rewrite <- Hb; cbn in Hv; injection Hv as -> _; done]. cbn [default from_option].
    change (default (b :: l) (Some (drop 12 (b :: l)))) with (drop 12 (b :: l)). unfold id. rewrite L4. unfold own_range. by cbn [length replicate Nat.eqb andb negb].
  - split; [|done]. cbn [default from_option]. rewrite Hlen. unfold own_range, mask7. cbn [length]. rewrite length_replicate.
    cbn [Nat.eqb andb zip zip_with forallb fst snd]. rewrite zero_masked by (by injection Hlen).
    rewrite b2z_z2b_small by (apply land_254_range; apply b2z_range).
    change (b2z Byte.xfe) with 254. rewrite <- Z.land_assoc. change (Z.land 254 254) with 254. rewrite Hb, Z.eqb_refl. done.
Qed.

Lemma network_filter prefix ip : of_network prefix ip ->
  (own_filter prefix ip = false <-> To4 ip = None) /\ (To4 ip <> None -> Z.land (b2z prefix) 254 = 0).
Proof.
  intros Hip.
  assert (forall key a, AddrForKey prefix key = Some a -> exists l, arr_list a = prefix :: l) as Ha.
  { intros key a Ea. unfold AddrForKey in Ea. destruct (negb _); [done|]. injection Ea as <-. cbn [GetPrefix length Nat.add]. unfold GetPrefix. rewrite copies_eq. by eexists. }
  destruct Hip as [(key & a & Ea & ->)|(key & s & Es & Hlen & Ht)].
  - destruct (Ha key a Ea) as [l El]. eapply own_filter_exact; [exact El|apply length_array|done].
  - unfold SubnetForKey in Es. destruct (AddrForKey prefix key) as [a|] eqn:Ea; [|done]. injection Es as <-. destruct (Ha key a Ea) as [l El].
    destruct ip as [|b0 ip]; [done|]. eapply own_filter_exact; [done|done|].
    assert (b0 = z2b (Z.lor (b2z prefix) 1)) as ->.
    { cbn [take] in Ht. pose proof (f_equal (fun x => x !! 0%nat) Ht) as Hx. cbn [lookup list_lookup] in Hx.
      cbn in Hx. rewrite El in Hx. cbn in Hx. by injection Hx. }
    rewrite b2z_z2b_small by (apply lor_byte; [apply b2z_range|lia]). rewrite Z.land_lor_distr_l. change (Z.land 1 254) with 0. apply Z.lor_0_r.
Qed.

Lemma network_is_refused prefix ip : Z.land (b2z prefix) 254 <> 0 -> of_network prefix ip -> own_filter prefix ip = false.
Proof. intros Hz [H1 H2]%network_filter. apply H1. destruct (To4 ip); [|done]. by destruct Hz; apply H2. Qed.

(** ** The dials *)

Lemma try_ips_spec {C} (fn : nat -> IP -> sum carrierError C) ips : forall i err tried r, try_ips fn i ips err = (tried, r) ->
  tried `prefix_of` ips /\
  match r with
  | inr conn => exists k ip, length tried = S k /\ ips !! k = Some ip /\ fn (i + k)%nat ip = inr conn /\
      forall j ip', (j < k)%nat -> ips !! j = Some ip' -> exists e, fn (i + j)%nat ip' = inl e
  | inl e => tried = ips /\ (forall j ip', ips !! j = Some ip' -> exists e', fn (i + j)%nat ip' = inl e') /\
      match last ips with None => e = err | Some ip => fn (i + length ips - 1)%nat ip = inl e end
  end.
Proof.
  induction ips as [|ip ips IH]; intros i err tried r; cbn [try_ips]; [intros [= <- <-]; split_and!; [done|done|done|done]|].
  destruct (fn i ip) as [e|conn] eqn:E.
  - destruct (try_ips fn (S i) ips e) as [tried' r'] eqn:Et. intros [= <- <-]. destruct (IH _ _ _ _ Et) as [Hp Hr]. split; [by apply prefix_cons|].
    destruct r' as [e'|conn].
    + destruct Hr as (-> & Hall & Hlast). split_and!; [done| |].
      * intros [|j] ip' Hj; cbn in Hj; [injection Hj as <-; exists e; by rewrite Nat.add_0_r|]. destruct (Hall j ip' Hj) as [e2 He]. exists e2. by replace (i + S j)%nat with (S i + j)%nat by lia.
      * rewrite last_cons. destruct (last ips) as [ip'|] eqn:El; [by replace (i + length (ip :: ips) - 1)%nat with (S i + length ips - 1)%nat by (cbn; lia)|].
        apply last_None in El as ->. cbn. replace (i + 1 - 1)%nat with i by lia. congruence.
    + destruct Hr as (k & ip' & Hl & Hk & Hc & Hall). exists (S k), ip'. split_and!; [by cbn; f_equal|done|by replace (i + S k)%nat with (S i + k)%nat by lia|].
      intros [|j] ip2 Hj Hj2; cbn in Hj2; [injection Hj2 as <-; exists e; by rewrite Nat.add_0_r|]. replace (i + S j)%nat with (S i + j)%nat by lia. apply (Hall j); [lia|done].
  - intros [= <- <-]. split; [by apply prefix_cons, prefix_nil|]. exists 0%nat, ip. rewrite Nat.add_0_r. split_and!; [done|done|done|lia].
Qed.

Lemma suitable_spec f ip : suitable f ip = true -> IsUnspecified ip = false /\ IsMulticast ip = false /\ (forall g, f = Some g -> g ip = true).
Proof. unfold suitable. intros Hs. repeat case_match; try done; split_and!; try done; by intros ? [= <-]. Qed.

Section dials.
Context `{GoStrings}.

(** Which addresses a TCP link dials. Of the addresses that the name has, in
    their order, those that are suitable are tried until one succeeds: a
    connection is that of the last address tried, an error means that all were
    tried. Addresses of the overlay network itself, of any node or in the subnet
    of any node, are never dialled unless the prefix is zero, so that links are not made of the network that
    they carry; nor are unspecified and multicast addresses. *)
Theorem dials_are_suitable {C} prefix lookup interfaces (connect : nat -> option TCPAddr -> TCPAddr -> sum carrierError C) u sintf tried r :
  Z.land (b2z prefix) 254 <> 0 -> linkTCP_dial (Some (own_filter prefix)) lookup interfaces connect u sintf = (tried, r) ->
  (forall ip, ip ∈ tried -> ~ of_network prefix ip /\ IsUnspecified ip = false /\ IsMulticast ip = false) /\
  match r with
  | inr conn => exists host p port resp k ip source dst, SplitHostPort (u_host u) = Some (host, p) /\ Atoi p = Some port /\ lookup host = Some resp /\
      tried `prefix_of` filter (fun ip => suitable (Some (own_filter prefix)) ip = true) resp /\ length tried = S k /\ last tried = Some ip /\
      tcp_dialerFor interfaces (MkTCPAddr ip port "") sintf = inr (source, dst) /\ connect k source dst = inr conn
  | inl e => forall host p port resp, SplitHostPort (u_host u) = Some (host, p) -> Atoi p = Some port -> lookup host = Some resp ->
      tried = filter (fun ip => suitable (Some (own_filter prefix)) ip = true) resp
  end.
Proof.
  intros Hz. unfold linkTCP_dial, findSuitableIP. destruct (SplitHostPort (u_host u)) as [[host p]|]; [|intros [= <- <-]; split; [set_solver|done]].
  destruct (Atoi p) as [port|] eqn:Ep; [|intros [= <- <-]; split; [set_solver|congruence]].
  destruct (lookup host) as [resp|] eqn:El; [|intros [= <- <-]; split; [set_solver|congruence]].
  set (ips := filter (fun ip => suitable (Some (own_filter prefix)) ip = true) resp).
  assert (forall ip, ip ∈ ips -> ~ of_network prefix ip /\ IsUnspecified ip = false /\ IsMulticast ip = false) as Hips.
  { intros ip [Hs _]%list_elem_of_filter. destruct (suitable_spec _ _ Hs) as (Hu & Hm & Hf). split_and!; [|done|done].
    intros Hn%network_is_refused; [|done]. specialize (Hf _ eq_refl). congruence. }
  destruct ips as [|ip0 ips'] eqn:Ei; [intros [= <- <-]; split; [set_solver|intros; simplify_eq; by rewrite <- Ei]|].
  intros Ht. apply try_ips_spec in Ht as [Hp Hr]. split; [intros ip Hin; apply Hips; by eapply elem_of_prefix|].
  destruct r as [e|conn].
  - destruct Hr as (-> & _). intros ???? [= <- <-] ? ?. simplify_eq. done.
  - destruct Hr as (k & ip & Hl & Hk & Hc & _). destruct (tcp_dialerFor interfaces (MkTCPAddr ip port "") sintf) as [?|[source dst]] eqn:Ed; [done|].
    exists host, p, port, resp, k, ip, source, dst. split_and!; try done; [by fold ips; rewrite Ei|]. rewrite last_lookup, Hl. cbn.
    destruct Hp as [l El']. rewrite El' in Hk. by rewrite lookup_app_l in Hk by lia.
Qed.

(** ** The source address *)

Definition fits (dst src : IP) : bool :=
  (IsGlobalUnicast src || IsLinkLocalUnicast src)
    && (Bool.eqb (IsGlobalUnicast src) (IsGlobalUnicast dst) || Bool.eqb (IsLinkLocalUnicast src) (IsLinkLocalUnicast dst))
    && Bool.eqb (is_v4 src) (is_v4 dst).

(** The loop takes the first address that fits; its last condition is idle. *)
Lemma source_for_first dst len addrs : forall i, source_for dst len i addrs = head (filter (fun src => fits dst src = true) (omap id addrs)).
Proof.
  induction addrs as [|[src|] addrs IH]; intros i; [done| |by cbn; rewrite IH]. cbn [source_for]. rewrite IH.
  change (omap id (Some src :: addrs)) with (src :: omap id addrs). rewrite filter_cons.
  destruct (decide (fits dst src = true)) as [Hf|Hf%not_true_is_false]; unfold fits in Hf; revert Hf;
    destruct (Bool.eqb (IsGlobalUnicast src) _), (Bool.eqb (IsLinkLocalUnicast src) _), (Bool.eqb (is_v4 src) _), (IsGlobalUnicast src), (IsLinkLocalUnicast src); done.
Qed.

Lemma first_split (f : IP -> bool) addrs x : head (filter (fun src => f src = true) (omap id addrs)) = Some x ->
  exists before after, addrs = before ++ Some x :: after /\ (forall y, Some y ∈ before -> f y = false) /\ f x = true.
Proof.
  induction addrs as [|[y|] addrs IH]; [done| |].
  - change (omap id (Some y :: addrs)) with (y :: omap id addrs). rewrite filter_cons. destruct (decide (f y = true)) as [Hy|Hy%not_true_is_false].
    + cbn. intros [= <-]. exists [], addrs. split_and!; [done|set_solver|done].
    + intros Hx. destruct (IH Hx) as (before & after & -> & Hb & Hf). exists (Some y :: before), after. split_and!; [done| |done].
      intros z [[= ->]|Hz]%elem_of_cons; [done|by apply Hb].
  - intros Hx. destruct (IH Hx) as (before & after & -> & Hb & Hf). exists (None :: before), after. split_and!; [done| |done].
    intros z [?|Hz]%elem_of_cons; [done|by apply Hb].
Qed.

Lemma global_not_linklocal ip : IsGlobalUnicast ip = true -> IsLinkLocalUnicast ip = false.
Proof. unfold IsGlobalUnicast. intros Hg. apply andb_true_iff in Hg as [_ Hg]. by apply negb_true_iff in Hg. Qed.

Lemma fits_scope dst src : fits dst src = true -> is_v4 src = is_v4 dst /\
  (IsGlobalUnicast dst = true \/ IsLinkLocalUnicast dst = true -> IsLinkLocalUnicast src = IsLinkLocalUnicast dst).
Proof.
  unfold fits. intros [[Hs Ho]%andb_true_iff Hv%Bool.eqb_prop]%andb_true_iff. split; [done|]. pose proof (global_not_linklocal src). pose proof (global_not_linklocal dst).
  destruct (IsGlobalUnicast src), (IsLinkLocalUnicast src), (IsGlobalUnicast dst), (IsLinkLocalUnicast dst); try done; naive_solver.
Qed.

(** The source address of a TCP link. A dialer leaves the destination as it
    is, but for the zone, which a link-local destination always has; without an
    interface it binds no source. With one, the source is the first address of
    that interface, which is up, of the family of the destination, and link-local
    exactly where the destination is, when that is a unicast address; only a
    link-local destination may go without a source, when there is none that fits. *)
Theorem tcp_source_fits interfaces dst sintf source dst' : tcp_dialerFor interfaces dst sintf = inr (source, dst') ->
  ta_IP dst' = ta_IP dst /\ ta_Port dst' = ta_Port dst /\ (IsLinkLocalUnicast (ta_IP dst) = true -> ta_Zone dst' <> ""%string /\ (sintf <> ""%string -> ta_Zone dst' = sintf)) /\
  match source with
  | None => sintf = ""%string \/ IsLinkLocalUnicast (ta_IP dst) = true /\
      (forall ief addrs, interfaces sintf = Some ief -> if_addrs ief = Some addrs -> forall src, Some src ∈ addrs -> fits (ta_IP dst) src = false)
  | Some src => sintf <> ""%string /\ ta_Port src = 0 /\ ta_Zone src = sintf /\ exists ief addrs before after,
      interfaces sintf = Some ief /\ if_up ief = true /\ if_addrs ief = Some addrs /\ addrs = before ++ Some (ta_IP src) :: after /\
      (forall src', Some src' ∈ before -> fits (ta_IP dst) src' = false) /\ is_v4 (ta_IP src) = is_v4 (ta_IP dst) /\
      (IsGlobalUnicast (ta_IP dst) = true \/ IsLinkLocalUnicast (ta_IP dst) = true -> IsLinkLocalUnicast (ta_IP src) = IsLinkLocalUnicast (ta_IP dst))
  end.
Proof.
  unfold tcp_dialerFor. set (ll := IsLinkLocalUnicast (ta_IP dst)). set (dst2 := if ll && negb (String.eqb sintf "") then _ else dst).
  assert (ta_IP dst2 = ta_IP dst /\ ta_Port dst2 = ta_Port dst /\ (ll = true -> sintf <> ""%string -> ta_Zone dst2 = sintf)) as (E1 & E2 & E3).
  { unfold dst2. destruct ll; [|done]. destruct (String.eqb_spec sintf ""); by split_and!. }
  clearbody dst2. destruct (ll && String.eqb (ta_Zone dst2) "") eqn:Ez; [done|].
  assert (ll = true -> ta_Zone dst2 <> ""%string) as Hz by (intros ->; by destruct (String.eqb_spec (ta_Zone dst2) "")).
  destruct (String.eqb_spec sintf "") as [Es|Es]; [intros [= <- <-]; split_and!; auto|].
  assert (forall P : Prop, ll && negb (String.eqb (ta_Zone dst2) "") = true -> (ll = true -> P) -> P) as Hll by (intros P [Hl _]%andb_true_iff HP; auto).
  destruct (interfaces sintf) as [ief|] eqn:Ei; [|destruct (ll && negb _) eqn:El; [|done]; intros [= <- <-]; split_and!; auto; right; split; [by apply andb_true_iff in El as [? _]|congruence]].
  destruct (if_up ief) eqn:Eu; [|done]. cbn [negb].
  destruct (if_addrs ief) as [addrs|] eqn:Ea; [|destruct (ll && negb _) eqn:El; [|done]; intros [= <- <-]; split_and!; auto; right; split; [by apply andb_true_iff in El as [? _]|congruence]].
  rewrite E1, source_for_first. destruct (head (filter (fun src => fits (ta_IP dst) src = true) (omap id addrs))) as [src|] eqn:Eh.
  - intros [= <- <-]. cbn. split_and!; auto.
    destruct (first_split _ _ _ Eh) as (before & after & -> & Hb & Hf). exists ief, (before ++ Some src :: after), before, after. split_and!; try done; by apply fits_scope.
  - destruct (ll && negb _) eqn:El; [|done]. intros [= <- <-]. split_and!; auto. right. split; [by apply andb_true_iff in El as [? _]|].
    intros ief' addrs' [= <-] Ha src Hin. rewrite Ea in Ha. injection Ha as <-. apply head_None in Eh.
    apply not_true_is_false. intros Hf. assert (src ∈ filter (fun src => fits (ta_IP dst) src = true) (omap id addrs)) as Hx; [|rewrite Eh in Hx; set_solver].
    apply list_elem_of_filter. split; [done|]. apply list_elem_of_omap. by exists (Some src).
Qed.
End dials.

(** ** Concrete inputs *)

Definition w_names : GoStrings := {|
  url_String := fun u => u_host u;
  ParseIP := fun _ => false;
  SplitHostPort := fun _ => Some ("node", "443")%string;
  ParseDuration := fun _ => None;
  TrimSpace := fun s => s
|}.
Definition w_overlay : IP := Byte.x02 :: Byte.x05 :: replicate 14 Byte.x01.
Definition w_far : IP := [Byte.x08; Byte.x08; Byte.x08; Byte.x08].
Definition w_near : IP := Byte.xfe :: Byte.x80 :: replicate 14 Byte.x01.
Definition w_lookup (_ : string) : option (list IP) := Some [w_overlay; w_near; w_far; w_far].
Definition w_interfaces (_ : string) : option netIface := Some (MkIface true (Some [None; Some w_near; Some [Byte.x0a; Byte.x00; Byte.x00; Byte.x02]])).
Definition w_connect (_ : nat) (_ : option TCPAddr) (dst : TCPAddr) : sum carrierError IP := inr (ta_IP dst).
