(* ===== verification/Hysteria.v ===== *)
(** * The Hysteria carrier

    [src/core/link_xray_hysteria.go]: the parameters of a URI, the QUIC
    configuration they give, how a connection is dialled with what is closed when a
    step fails, and the stream that the two ends exchange. The libraries behind it
    are an interface. *)

From Stdlib Require Import String Ascii.
From S2P Require Import Prelude Crypto RouterState LinkOptions Multicast GoStr Carriers.

Class Xray := {
  GetFingerprint : string -> bool;
  NormalizeBBRProfile : string -> option string;
  ProfileStandard : string;
  TypeBBR : string;
  TypeReno : string;
  FrameTypeTCPRequest : Z;
  quicvarint_Append : Z -> list byte
}.

(** ** The parameters *)

Record UdpHop := MkUdpHop { uh_Ports : list Z; uh_IntervalMin : Z; uh_IntervalMax : Z }.
Record QuicParams := MkQuicParams {
  qp_Congestion : string;
  qp_BbrProfile : string;
  qp_BrutalUp : Z;
  qp_BrutalDown : Z;
  qp_UdpHop : UdpHop;
  qp_MaxIdleTimeout : Z;
  qp_KeepAlivePeriod : Z;
  qp_DisablePathMtuDiscovery : bool;
  qp_InitStreamReceiveWindow : Z;
  qp_MaxStreamReceiveWindow : Z;
  qp_InitConnReceiveWindow : Z;
  qp_MaxConnReceiveWindow : Z;
  qp_MaxIncomingStreams : Z
}.

(** An error names the parameter. *)
Abbreviation Par := (sum string).
#[export] Instance par_ret : MRet Par := fun _ a => inr a.
#[export] Instance par_bind : MBind Par := fun _ _ f m => match m with inl e => inl e | inr a => f a end.

Section params.
Context `{GoStrings, Xray}.

(** A parameter that is not given keeps its default. *)
Definition param {A} (u : url) (name : string) (parse : string -> option A) (dflt : A) : Par A :=
  let v := query_get u name in
  if String.eqb v "" then inr dflt
  else match parse v with Some a => inr a | None => inl name end.

Definition parse_congestion (v : string) : option string :=
  let normalized := ToLower (TrimSpace v) in
  if existsb (String.eqb normalized) [""; TypeBBR; TypeReno; "brutal"; "force-brutal"]%string then Some normalized else None.

Definition parse_port (part : string) : option Z :=
  let part := TrimSpace part in
  if String.eqb part "" then None
  else match ParseUint 16 part with
       | Some port => if port =? 0 then None else Some port
       | None => None
       end.
Fixpoint parse_ports (parts : list string) : option (list Z) :=
  match parts with
  | [] => Some []
  | part :: parts =>
      match parse_port part, parse_ports parts with
      | Some port, Some ports => Some (port :: ports)
      | _, _ => None
      end
  end.
Definition parsePortsParam (v : string) : option (list Z) := parse_ports (Split v ","%char).

Definition parseHysteriaQUICParams (u : url) : Par QuicParams :=
  congestion ← param u "congestion" parse_congestion ""%string;
  bbrProfile ← param u "bbrProfile" NormalizeBBRProfile ProfileStandard;
  brutalUp ← param u "brutalUp" (ParseUint 64) 0;
  brutalDown ← param u "brutalDown" (ParseUint 64) 0;
  ports ← param u "udpHopPorts" parsePortsParam [];
  intervalMin ← param u "udpHopIntervalMin" (ParseInt 64) 0;
  intervalMax ← param u "udpHopIntervalMax" (ParseInt 64) 0;
  maxIdleTimeout ← param u "maxIdleTimeout" (ParseInt 64) 0;
  keepAlivePeriod ← param u "keepAlivePeriod" (ParseInt 64) 0;
  disable ← param u "disablePathMTUDiscovery" ParseBool false;
  initStream ← param u "initStreamReceiveWindow" (ParseUint 64) 0;
  maxStream ← param u "maxStreamReceiveWindow" (ParseUint 64) 0;
  initConn ← param u "initConnReceiveWindow" (ParseUint 64) 0;
  maxConn ← param u "maxConnReceiveWindow" (ParseUint 64) 0;
  maxIncoming ← param u "maxIncomingStreams" (ParseInt 64) 0;
  if negb (intervalMax =? 0) && negb (intervalMin =? 0) && (intervalMax <? intervalMin) then inl "udpHopIntervalMax"%string
  else inr (MkQuicParams congestion bbrProfile brutalUp brutalDown (MkUdpHop ports intervalMin intervalMax) maxIdleTimeout keepAlivePeriod
              disable initStream maxStream initConn maxConn maxIncoming).

(** ** The stream settings *)

Record hysteriaConfig := MkHysteria {
  hc_Auth : string;
  hc_MasqType : string;
  hc_MasqFile : string;
  hc_MasqUrl : string;
  hc_MasqUrlRewriteHost : bool;
  hc_MasqUrlInsecure : bool;
  hc_MasqString : string;
  hc_MasqStringStatusCode : Z
}.

Record hysteriaStream := MkStream { hs_config : hysteriaConfig; hs_quic : QuicParams; hs_sni : string; hs_fp : string }.

Definition buildHysteriaStreamSettings (u : url) (server : bool) (password : string) : Par hysteriaStream :=
  quic ← parseHysteriaQUICParams u;
  let fp := ToLower (TrimSpace (query_get u "fp")) in
  if negb (String.eqb fp "") && negb (GetFingerprint fp) then inl "fp"%string
  else
    config ← (if server then
      rewriteHost ← param u "masqURLRewriteHost" ParseBool false;
      insecure ← param u "masqURLInsecure" ParseBool false;
      let masqString := query_get u "masqString" in
      let masqType := if String.eqb masqString "" then query_get u "masqType" else "string"%string in
      code ← param u "masqStringStatusCode" (ParseInt 32) 0;
      inr (MkHysteria password masqType (query_get u "masqFile") (query_get u "masqURL") rewriteHost insecure masqString code)
    else inr (MkHysteria password "" "" "" false false "" 0));
    inr (MkStream config quic (query_get u "sni") fp).

Definition decodeEd25519PublicKey (value : string) : option (list byte) :=
  match hex_DecodeString value with
  | Some raw => if (length raw =? 32)%nat then Some raw else None
  | None => None
  end.

Definition parsePeerConfig (u : url) : Par (list byte * hysteriaStream) :=
  let password := query_get u "password" in
  if String.eqb password "" then inl "password"%string
  else
    let keyHex := query_get u "key" in
    if String.eqb keyHex "" then inl "key"%string
    else match decodeEd25519PublicKey keyHex with
         | None => inl "key"%string
         | Some key => stream ← buildHysteriaStreamSettings u false password; inr (key, stream)
         end.

Definition parseListenerConfig (u : url) : Par hysteriaStream :=
  let password := query_get u "password" in
  if String.eqb password "" then inl "password"%string else buildHysteriaStreamSettings u true password.

(** ** The QUIC configuration *)

Record quicConfig := MkQuicConfig {
  qc_InitialStreamReceiveWindow : Z;
  qc_MaxStreamReceiveWindow : Z;
  qc_InitialConnectionReceiveWindow : Z;
  qc_MaxConnectionReceiveWindow : Z;
  qc_MaxIdleTimeout : Z;
  qc_KeepAlivePeriod : Z;
  qc_DisablePathMTUDiscovery : bool
}.

Definition or_default (z dflt : Z) : Z := if z =? 0 then dflt else z.

(** Durations are 64-bit numbers of nanoseconds. *)
Definition quic_config (params : QuicParams) : quicConfig :=
  MkQuicConfig (or_default (qp_InitStreamReceiveWindow params) 8388608)
    (or_default (qp_MaxStreamReceiveWindow params) 8388608)
    (or_default (qp_InitConnReceiveWindow params) (8388608 * 5 / 2))
    (or_default (qp_MaxConnReceiveWindow params) (8388608 * 5 / 2))
    (or_default (i64 (qp_MaxIdleTimeout params * Second)) (30 * Second))
    (i64 (qp_KeepAlivePeriod params * Second))
    (qp_DisablePathMtuDiscovery params).

Inductive congestion := CcNone | CcBBR (profile : string) | CcBrutal (rate : Z).

Definition choose_congestion (params : QuicParams) (down : Z) : congestion :=
  let c := qp_Congestion params in
  if String.eqb c TypeReno then CcNone
  else if String.eqb c "" || String.eqb c TypeBBR then CcBBR (qp_BbrProfile params)
  else if String.eqb c "brutal" then
    if (qp_BrutalUp params =? 0) || (down =? 0) then CcBBR (qp_BbrProfile params) else CcBrutal (Z.min (qp_BrutalUp params) down)
  else if String.eqb c "force-brutal" then CcBrutal (qp_BrutalUp params)
  else CcBBR (qp_BbrProfile params).

(** ** Dialling *)

(** What a dial opens and closes. *)
Inductive resource := RsPacketConn | RsTransport | RsQuic | RsOther.
#[global] Instance resource_eq_dec : EqDecision resource.
Proof. solve_decision. Defined.

Inductive dialEvent := DeOpen (r : resource) | DeClose (r : resource) | DeUse (c : congestion).

Inductive hysteriaError := HeDial | HeAddr | HeRoundTrip | HeStatus | HeNoQuic | HeNoCert | HeNotEd25519 | HeKeyMismatch | HeStream.

(** How the steps that are not this code's come out: the packet connection, the
    QUIC connection that the round trip makes, the answer with its rate, the leaf
    certificates (where [None] is a key that is not Ed25519), the stream. *)
Inductive packetDial := PdFail | PdWrongAddr | PdUnknown | PdOpen.
Record dialWorld := MkDialWorld {
  dw_packet : packetDial;
  dw_quic : bool;
  dw_response : option (bool * Z);
  dw_certs : list (option (list byte));
  dw_stream : bool
}.

Definition closeHysteriaClient (quic : bool) : list dialEvent :=
  (if quic then [DeClose RsQuic] else []) ++ [DeClose RsTransport; DeClose RsPacketConn].

Definition verifyHysteriaPeerTLSKey (quic : bool) (certs : list (option (list byte))) (expected : list byte) : option hysteriaError :=
  if negb quic then Some HeNoQuic
  else match certs with
       | [] => Some HeNoCert
       | None :: _ => Some HeNotEd25519
       | Some pub :: _ => if bool_decide (pub = expected) then None else Some HeKeyMismatch
       end.

Definition dialHysteriaPacketConn (w : dialWorld) : list dialEvent * option hysteriaError :=
  match dw_packet w with
  | PdFail => ([], Some HeDial)
  | PdWrongAddr => ([DeOpen RsPacketConn; DeClose RsPacketConn], Some HeAddr)
  | PdUnknown => ([DeOpen RsOther; DeClose RsOther], Some HeAddr)
  | PdOpen => ([DeOpen RsPacketConn], None)
  end.

Definition dialHysteriaStream (params : QuicParams) (remote : list byte) (w : dialWorld) : list dialEvent * option hysteriaError :=
  let '(evs, err) := dialHysteriaPacketConn w in
  match err with
  | Some e => (evs, Some e)
  | None =>
      let evs := evs ++ [DeOpen RsTransport] ++ (if dw_quic w then [DeOpen RsQuic] else []) in
      let close := closeHysteriaClient (dw_quic w) in
      match dw_response w with
      | None => (evs ++ close, Some HeRoundTrip)
      | Some (status, down) =>
          if negb status then (evs ++ close, Some HeStatus)
          else
            match verifyHysteriaPeerTLSKey (dw_quic w) (dw_certs w) remote with
            | Some e => (evs ++ close, Some e)
            | None =>
                let evs := evs ++ [DeUse (choose_congestion params down)] in
                if dw_stream w then (evs, None) else (evs ++ close, Some HeStream)
            end
      end
  end.

(** ** The connection *)

(** [Write]: the first write of a client is preceded by the type of the request;
    [accepted] tells whether the stream took the bytes. *)
Definition hysteria_Write (client : bool) (p : list byte) (accepted : bool) : bool * list byte * option Z :=
  let payload := if client then quicvarint_Append FrameTypeTCPRequest ++ p else p in
  (false, if accepted then payload else [], if accepted then Some (Z.of_nat (length p)) else None).

Fixpoint hysteria_writes (client : bool) (ps : list (list byte)) : list byte :=
  match ps with
  | [] => []
  | p :: ps => let '(client, sent, _) := hysteria_Write client p true in sent ++ hysteria_writes client ps
  end.
End params.

(** ** Properties of the Hysteria carrier

    The parameters that are accepted, what a dial leaves open, and the stream. *)

(** ** Numbers *)

Lemma decimal_nonneg s : forall acc n, 0 <= acc -> decimal acc s = Some n -> 0 <= n.
Proof.
  induction s as [|a s IH]; intros acc n Ha; cbn [decimal]; [by intros [= <-]|]. case_match; [|done]. intros E. eapply IH; [|exact E]. lia.
Qed.

Lemma ParseUint_range bits s n : ParseUint bits s = Some n -> 0 <= n < 2 ^ bits.
Proof.
  destruct s as [|a s]; [done|]. cbn [ParseUint]. destruct (decimal 0 (String a s)) as [m|] eqn:E; [|done].
  destruct (Z.ltb_spec m (2 ^ bits)); [|done]. intros [= <-]. apply decimal_nonneg in E; lia.
Qed.

Lemma ParseInt_range bits s n : 0 < bits -> ParseInt bits s = Some n -> - 2 ^ (bits - 1) <= n < 2 ^ (bits - 1).
Proof.
  intros Hb. unfold ParseInt. destruct (match s with EmptyString => _ | _ => _ end) as [neg digits].
  destruct (ParseUint bits digits) as [un|] eqn:E; [|done]. apply ParseUint_range in E.
  destruct (negb neg && (2 ^ (bits - 1) <=? un)) eqn:E1; [done|]. destruct (neg && (2 ^ (bits - 1) <? un)) eqn:E2; [done|]. intros [= <-].
  destruct neg; cbn in E1, E2; lia.
Qed.

Section params.
Context `{GoStrings, Xray}.

Lemma param_spec {A} u name parse (dflt : A) (P : A -> Prop) : P dflt -> (forall v a, parse v = Some a -> P a) ->
  match param u name parse dflt with inl e => e = name /\ query_get u name <> ""%string | inr a => P a end.
Proof.
  intros Hd Hp. unfold param. destruct (String.eqb_spec (query_get u name) ""); [done|]. destruct (parse _) eqn:E; [by eapply Hp|done].
Qed.

(** What the rest of the carrier may rely on. *)
Record params_ok (p : QuicParams) : Prop := {
  po_congestion : qp_Congestion p ∈ [""; TypeBBR; TypeReno; "brutal"; "force-brutal"]%string;
  po_profile : qp_BbrProfile p = ProfileStandard \/ exists v, NormalizeBBRProfile v = Some (qp_BbrProfile p);
  po_brutal : is_u64 (qp_BrutalUp p) /\ is_u64 (qp_BrutalDown p);
  po_ports : Forall (fun port => 0 < port < 65536) (uh_Ports (qp_UdpHop p));
  po_interval : is_i64 (uh_IntervalMin (qp_UdpHop p)) /\ is_i64 (uh_IntervalMax (qp_UdpHop p)) /\
    (uh_IntervalMin (qp_UdpHop p) = 0 \/ uh_IntervalMax (qp_UdpHop p) = 0 \/ uh_IntervalMin (qp_UdpHop p) <= uh_IntervalMax (qp_UdpHop p));
  po_times : is_i64 (qp_MaxIdleTimeout p) /\ is_i64 (qp_KeepAlivePeriod p) /\ is_i64 (qp_MaxIncomingStreams p);
  po_windows : is_u64 (qp_InitStreamReceiveWindow p) /\ is_u64 (qp_MaxStreamReceiveWindow p) /\ is_u64 (qp_InitConnReceiveWindow p) /\ is_u64 (qp_MaxConnReceiveWindow p)
}.

Lemma ports_ok v ports : parsePortsParam v = Some ports -> Forall (fun port => 0 < port < 65536) ports.
Proof.
  unfold parsePortsParam. generalize (Split v ","%char) as parts. intros parts. revert ports. induction parts as [|part parts IH]; intros ports; cbn [parse_ports]; [by intros [= <-]|].
  destruct (parse_port part) as [port|] eqn:E; [|done]. destruct (parse_ports parts) as [ports'|]; [|done]. intros [= <-]. constructor; [|by apply IH].
  unfold parse_port in E. destruct (String.eqb _ _); [done|]. destruct (ParseUint 16 _) as [p|] eqn:Ep; [|done]. apply ParseUint_range in Ep.
  destruct (Z.eqb_spec p 0); [done|]. injection E as <-. lia.
Qed.

(** The parameters of a URI that can be refused. *)
Definition quic_names : list string :=
  ["congestion"; "bbrProfile"; "brutalUp"; "brutalDown"; "udpHopPorts"; "udpHopIntervalMin"; "udpHopIntervalMax"; "maxIdleTimeout"; "keepAlivePeriod";
   "disablePathMTUDiscovery"; "initStreamReceiveWindow"; "maxStreamReceiveWindow"; "initConnReceiveWindow"; "maxConnReceiveWindow"; "maxIncomingStreams"]%string.

Definition refused (u : url) (name : string) : Prop := name ∈ quic_names /\ query_get u name <> ""%string.

(** One parameter, and the rest. *)
Lemma param_step {A B} u name parse (dflt : A) (P : A -> Prop) (f : A -> sum string B) (Q : B -> Prop) :
  bool_decide (name ∈ quic_names) = true -> P dflt -> (forall v a, parse v = Some a -> P a) ->
  (forall a, P a -> (query_get u name = ""%string -> a = dflt) -> match f a with inl e => refused u e | inr b => Q b end) ->
  match param u name parse dflt ≫= f with inl e => refused u e | inr b => Q b end.
Proof.
  intros Hn%bool_decide_eq_true Hd Hp Hf. pose proof (param_spec u name parse dflt P Hd Hp) as Hs. unfold param in *.
  destruct (String.eqb_spec (query_get u name) ""); [by apply (Hf dflt)|]. destruct (parse _) as [a|]; [by apply (Hf a)|by split].
Qed.

Lemma congestion_known v c : parse_congestion v = Some c -> c ∈ [""; TypeBBR; TypeReno; "brutal"; "force-brutal"]%string.
Proof.
  unfold parse_congestion. destruct (existsb _ _) eqn:E; [|done]. intros [= <-]. apply existsb_exists in E as (x & Hin & ->%String.eqb_eq). by apply list_elem_of_In.
Qed.

Ltac number := match goal with
  | |- forall v a, ParseUint 64 v = Some a -> _ => by intros ? ?; apply ParseUint_range
  | |- forall v a, ParseInt 64 v = Some a -> _ => by intros ? ?; apply (ParseInt_range 64)
  | |- is_u64 0 => by split
  | |- is_i64 0 => by split
  end.

(** C34: the parameters of a Hysteria URI. When they are accepted, every number is
    in the range of its type, every hopping port is a port, the interval is not
    empty, the congestion control is one of those known; and an error names a
    parameter that the URI gives. *)
Theorem hysteria_params_well_formed u :
  match parseHysteriaQUICParams u with
  | inl name => refused u name
  | inr p => params_ok p
  end.
Proof.
  unfold parseHysteriaQUICParams.
  apply (param_step _ _ _ _ (fun c => c ∈ [""; TypeBBR; TypeReno; "brutal"; "force-brutal"]%string)); [done|by left|apply congestion_known|]. intros congestion Hcong _.
  apply (param_step _ _ _ _ (fun p => p = ProfileStandard \/ exists v, NormalizeBBRProfile v = Some p)); [done|by left|intros v a Ha; right; by exists v|]. intros profile Hprof _.
  apply (param_step _ _ _ _ is_u64); [done|number|number|]. intros up Hup _.
  apply (param_step _ _ _ _ is_u64); [done|number|number|]. intros down Hdown _.
  apply (param_step _ _ _ _ (Forall (fun port => 0 < port < 65536))); [done|constructor|apply ports_ok|]. intros ports Hports _.
  apply (param_step _ _ _ _ is_i64); [done|number|number|]. intros imin Himin _.
  apply (param_step _ _ _ _ is_i64); [done|number|number|]. intros imax Himax Hgiven.
  apply (param_step _ _ _ _ is_i64); [done|number|number|]. intros idle Hidle _.
  apply (param_step _ _ _ _ is_i64); [done|number|number|]. intros alive Halive _.
  apply (param_step _ _ _ _ (fun _ => True)); [done|done|done|]. intros disable _ _.
  apply (param_step _ _ _ _ is_u64); [done|number|number|]. intros w1 Hw1 _.
  apply (param_step _ _ _ _ is_u64); [done|number|number|]. intros w2 Hw2 _.
  apply (param_step _ _ _ _ is_u64); [done|number|number|]. intros w3 Hw3 _.
  apply (param_step _ _ _ _ is_u64); [done|number|number|]. intros w4 Hw4 _.
  apply (param_step _ _ _ _ is_i64); [done|number|number|]. intros streams Hstreams _.
  destruct (negb (imax =? 0) && negb (imin =? 0) && (imax <? imin)) eqn:E.
  - split; [by apply (bool_decide_eq_true _)|]. intros Hnone. specialize (Hgiven Hnone). subst imax. done.
  - split; cbn; try done. split_and!; [done|done|]. destruct (Z.eqb_spec imax 0), (Z.eqb_spec imin 0), (Z.ltb_spec imax imin); try done; auto; lia.
Qed.

(** Numbers of seconds are not bounded: the idle timeout can become negative. *)
Lemma idle_timeout_wraps p : qp_MaxIdleTimeout p = 9223372037 -> qc_MaxIdleTimeout (quic_config p) < 0.
Proof. unfold quic_config. cbn. intros ->. vm_compute. done. Qed.

(** ** Dialling *)

(** What is open after these steps. *)
Fixpoint still_open (evs : list dialEvent) (l : list resource) : list resource :=
  match evs with
  | [] => l
  | DeOpen r :: evs => still_open evs (r :: l)
  | DeClose r :: evs => still_open evs (filter (fun r' => r' <> r) l)
  | DeUse _ :: evs => still_open evs l
  end.

(** A Hysteria dial. Where it fails, at whatever step, nothing that it opened
    is left open; where it succeeds, the certificate of the other side holds the
    Ed25519 key that the URI names, the three parts of the connection are open, and
    the congestion control is the one of the parameters and of the rate that the
    other side announced. *)
Theorem hysteria_dial_is_clean params remote w :
  let '(evs, err) := dialHysteriaStream params remote w in
  match err with
  | Some _ => still_open evs [] = []
  | None => still_open evs [] = [RsQuic; RsTransport; RsPacketConn] /\ exists certs down,
      dw_certs w = Some remote :: certs /\ dw_response w = Some (true, down) /\ DeUse (choose_congestion params down) ∈ evs
  end.
Proof.
  unfold dialHysteriaStream, dialHysteriaPacketConn, closeHysteriaClient, verifyHysteriaPeerTLSKey.
  destruct w as [packet quic resp certs stream]. cbn [dw_packet dw_quic dw_response dw_certs dw_stream] in *.
  destruct packet; try reflexivity. destruct quic, resp as [[[] down]|]; try reflexivity. destruct certs as [|[pub|] certs]; try reflexivity. cbn [negb].
  case_bool_decide as E; [subst pub|reflexivity]. destruct stream; [|reflexivity].
  split; [reflexivity|]. exists certs, down. split_and!; [done|done|set_solver].
Qed.

(** The stream is the type of the request and then what was written. *)
Lemma hysteria_stream ps : ps <> [] -> hysteria_writes true ps = quicvarint_Append FrameTypeTCPRequest ++ concat ps.
Proof.
  assert (forall ps, hysteria_writes false ps = concat ps) as Hx by (induction ps0 as [|p ps0 IH]; cbn; [done|by rewrite IH]).
  destruct ps as [|p ps]; [done|]. intros _. cbn. by rewrite Hx, <- app_assoc.
Qed.
End params.
