(* ===== verification/Dialers.v ===== *)
(** * Dialling with each carrier

    [src/core/link_tls.go], [link_quic.go], [link_ws.go], [link_wss.go],
    [link_socks.go], [link_unix.go], [link_xray_reality.go] and [tls.go], on the choice of
    addresses of [Carriers]: with which source address, TLS configuration, URL and
    target each address is tried. The libraries that open the connection are the
    function [connect], which is told which attempt it is. Also what the listeners
    of these carriers do with what comes in. *)

From Stdlib Require Import String Ascii.
From S2P Require Import Prelude Crypto RouterState E2c Address Handshake LinkOptions Links Multicast GoStr Carriers.

(** What the code sets of a TLS configuration; zero is the highest version there is. *)
Record tlsConfig := MkTls { tls_ServerName : string; tls_MinVersion : Z; tls_MaxVersion : Z; tls_InsecureSkipVerify : bool }.
Definition VersionTLS12 : Z := 771.
Definition VersionTLS13 : Z := 772.
(** The configuration of the node, [generateTLSConfig]; its two callbacks accept
    every certificate and every connection. *)
Definition node_tls : tlsConfig := MkTls "" VersionTLS13 0 true.
(** Its clone, as the carriers that dial change it. *)
Definition dial_tls (name : string) : tlsConfig := MkTls name VersionTLS12 VersionTLS13 (tls_InsecureSkipVerify node_tls).

Section dialers.
Context `{GoStrings} (peerFilter : option (IP -> bool)) (lookup : string -> option (list IP)) (interfaces : string -> option netIface)
  (ip_text : IP -> string) (port_text : Z -> string) {C : Type}.

(** The dialer for one address: its source, and the destination with its zone. *)
Definition with_dialer {A} (ip : IP) (port : Z) (sintf : string) (k : option TCPAddr -> TCPAddr -> sum carrierError A) : sum carrierError A :=
  match tcp_dialerFor interfaces (MkTCPAddr ip port "") sintf with
  | inl e => inl e
  | inr (source, dst) => k source dst
  end.

(** ** TLS *)

Definition linkTLS_dial (connect : nat -> option TCPAddr -> TCPAddr -> tlsConfig -> sum carrierError C) (u : url) (sintf : string) (options : linkOptions) :
    list IP * sum carrierError C :=
  findSuitableIP peerFilter lookup (u_host u) (fun hostname port n ip =>
    let sni := lo_tlsSNI options in
    with_dialer ip port sintf (fun source dst => connect n source dst (dial_tls (if negb (String.eqb sni "") then sni else hostname)))).

(** The address and the configuration of a listener. *)
Definition linkTLS_listen (u : url) (sintf : string) : string * tlsConfig := (tcp_listen_addr u sintf, node_tls).

(** ** QUIC *)

(** The clone of the configuration gets the server name, but the configuration of
    the carrier is the one that is used. *)
Definition linkQUIC_dial {Q} (connect : nat -> string -> tlsConfig -> sum carrierError Q) (open : nat -> Q -> sum carrierError C) (u : url) : list IP * sum carrierError C :=
  findSuitableIP peerFilter lookup (u_host u) (fun hostname port n ip =>
    match connect n (JoinHostPort (ip_text ip) (port_text port)) node_tls with
    | inl e => inl e
    | inr qc => open n qc
    end).

(** One round of the goroutine of a listener: whether it goes on, whether it closes
    the listener, and the connection that it offers. *)
Inductive quicAccept := QaDone | QaServerClosed | QaError | QaConn (stream : option C).
Definition quic_accept_round (r : quicAccept) : bool * bool * option C :=
  match r with
  | QaDone => (false, true, None)
  | QaServerClosed => (false, false, None)
  | QaError => (true, false, None)
  | QaConn stream => (true, false, stream)
  end.

(** ** Websockets *)

Record wsDial := MkWsDial { wd_url : url; wd_host : string; wd_source : option TCPAddr; wd_dst : TCPAddr; wd_tls : option tlsConfig; wd_protocols : list string }.
Definition ws_url (u : url) (ip : IP) (port : Z) : url := MkUrl (u_scheme u) (JoinHostPort (ip_text ip) (port_text port)) (u_query u) (u_rest u).

Definition linkWS_dial (connect : nat -> wsDial -> sum carrierError C) (u : url) (sintf : string) : list IP * sum carrierError C :=
  findSuitableIP peerFilter lookup (u_host u) (fun hostname port n ip =>
    with_dialer ip port sintf (fun source dst => connect n (MkWsDial (ws_url u ip port) hostname source dst None ["ygg-ws"%string]))).
Definition linkWSS_dial (connect : nat -> wsDial -> sum carrierError C) (u : url) (sintf : string) : list IP * sum carrierError C :=
  findSuitableIP peerFilter lookup (u_host u) (fun hostname port n ip =>
    with_dialer ip port sintf (fun source dst => connect n (MkWsDial (ws_url u ip port) hostname source dst (Some (dial_tls hostname)) ["ygg-ws"%string]))).

(** [ServeHTTP]; [accepted] is the connection and its subprotocol when the library
    accepts the request. *)
Inductive wsAnswer := WsHealthy | WsRefused | WsClosed | WsOffer (c : C).
Definition ws_ServeHTTP (path : string) (accepted : option (string * C)) : wsAnswer :=
  if String.eqb path "/health" || String.eqb path "/healthz" then WsHealthy
  else match accepted with
       | None => WsRefused
       | Some (subprotocol, c) => if String.eqb subprotocol "ygg-ws" then WsOffer c else WsClosed
       end.

(** ** SOCKS *)

Fixpoint trim_left (s : string) : string :=
  match s with String c s' => if Ascii.eqb c "/" then trim_left s' else s | EmptyString => s end.
Fixpoint trim_right (s : string) : string :=
  match s with
  | String c s' => match trim_right s' with EmptyString => if Ascii.eqb c "/" then EmptyString else String c EmptyString | s' => String c s' end
  | EmptyString => s
  end.
(** [strings.Trim(s, "/")] *)
Definition trim_slashes (s : string) : string := trim_right (trim_left s).

(** The user of a URL, with a password that may not be there. *)
Definition socks_auth (user : option (string * option string)) : option (string * string) :=
  match user with
  | Some (name, password) => if String.eqb name "" then None else Some (name, default ""%string password)
  | None => None
  end.
Definition socks_target (path : string) : string := default ""%string (head (Split (trim_slashes path) "/"%char)).

Record socksDial := MkSocksDial { sd_proxy : string; sd_auth : option (string * string); sd_source : option TCPAddr; sd_dst : TCPAddr; sd_target : string }.
Definition linkSOCKS_dial (url_user : url -> option (string * option string)) (url_path : url -> string)
    (connect : nat -> socksDial -> sum carrierError C) (tls_client : tlsConfig -> C -> C) (u : url) (sintf : string) (options : linkOptions) : list IP * sum carrierError C :=
  findSuitableIP peerFilter lookup (u_host u) (fun hostname port n ip =>
    with_dialer ip port sintf (fun source dst =>
      match connect n (MkSocksDial (JoinHostPort (ip_text ip) (port_text port)) (socks_auth (url_user u)) source dst (socks_target (url_path u))) with
      | inl e => inl e
      | inr conn =>
          let sni := lo_tlsSNI options in
          inr (if String.eqb (u_scheme u) "sockstls" then tls_client (dial_tls (if negb (String.eqb sni "") then sni else hostname)) conn else conn)
      end)).

(** ** UNIX sockets *)

Definition linkUNIX_dial (url_path : url -> string) (resolve : string -> option string) (connect : string -> sum carrierError C) (u : url) : sum carrierError C :=
  match resolve (url_path u) with None => inl CeLookup | Some addr => connect addr end.
Definition linkUNIX_listen (url_path : url -> string) (u : url) : string := url_path u.

(** ** REALITY *)

Inductive realityError := RyNoKey | RyKeyHex | RyKeyPoint | RyNoName | RyShortID | RyNoDest.

Record realityConfig := MkReality { rc_ServerName : string; rc_Fingerprint : string; rc_PublicKey : list byte; rc_ShortId : list byte; rc_SpiderX : string; rc_SpiderY : list Z }.

(** The configuration of a dial; [to_montgomery] is the library's conversion of a point. *)
Definition reality_dial_config (to_montgomery : list byte -> option (list byte)) (u : url) : sum realityError realityConfig :=
  let keyHex := query_get u "key" in
  if String.eqb keyHex "" then inl RyNoKey
  else match hex_DecodeString keyHex with
       | None => inl RyKeyHex
       | Some edPub =>
           match to_montgomery edPub with
           | None => inl RyKeyPoint
           | Some pub =>
               let sni := server_name u in
               if String.eqb sni "" then inl RyNoName
               else
                 let fp := let fp := query_get u "fp" in if String.eqb fp "" then "chrome"%string else fp in
                 let sid := query_get u "sid" in
                 match (if String.eqb sid "" then Some [] else hex_DecodeString sid) with
                 | None => inl RyShortID
                 | Some id => inr (MkReality sni fp pub id "/" [0; 0; 0; 0; 0; 0; 0; 0; 1000; 2000])
                 end
           end
       end.

(** A dial: [raw] opens the TCP connection, [handshake] is REALITY over it, with the
    connection closed again when that fails. *)
Definition reality_dial {T} (to_montgomery : list byte -> option (list byte)) (raw : nat -> option TCPAddr -> TCPAddr -> sum carrierError T)
    (handshake : nat -> T -> realityConfig -> sum carrierError C) (u : url) (sintf : string) : sum realityError (list IP * sum carrierError C) :=
  match reality_dial_config to_montgomery u with
  | inl e => inl e
  | inr cfg =>
      inr (findSuitableIP peerFilter lookup (u_host u) (fun hostname port n ip =>
        with_dialer ip port sintf (fun source dst =>
          match raw n source dst with
          | inl e => inl e
          | inr conn => handshake n conn cfg
          end)))
  end.

Record realityListen := MkRealityListen { rl_Dest : string; rl_PrivateKey : list byte; rl_ServerNames : list string; rl_ShortIds : gset (array 8); rl_addr : string }.
Definition reality_listen `{Sha512} (secret : list byte) (u : url) (sintf : string) : sum realityError realityListen :=
  let sni := server_name u in
  if String.eqb sni "" then inl RyNoName
  else
    let dest := query_get u "dest" in
    if String.eqb dest "" then inl RyNoDest
    else match reality_shortIDs (query_get u "sid") with
         | None => inl RyShortID
         | Some ids => inr (MkRealityListen dest (realityPrivKeyFromNodeKey (take 32 secret)) [sni] ids (tcp_listen_addr u sintf))
         end.

End dialers.

(** ** The links *)

(** [connSNI]: the name that a TLS connection was asked for; others have none. *)
Inductive netConn := PlainConn | TLSConn (handshake : option string) | LinkConn (inner : netConn) | NilConn.
Definition connSNI (conn : netConn) : option string :=
  match conn with
  | NilConn => Some ""%string
  | LinkConn (TLSConn name) | TLSConn name => name
  | _ => Some ""%string
  end.

(** ** Properties of dialling

    Which server names are asked for, and that no carrier dials an address that
    [findSuitableIP] leaves out. Two ways of opening a connection that agree on the
    calls in question give the same dial. *)

Section dialers.
Context `{GoStrings} (peerFilter : option (IP -> bool)) (lookup : string -> option (list IP)) (interfaces : string -> option netIface)
  (ip_text : IP -> string) (port_text : Z -> string) {C : Type}.

Lemma try_ips_ext (fn fn' : nat -> IP -> sum carrierError C) ips : forall i err, (forall n ip, ip ∈ ips -> fn n ip = fn' n ip) -> try_ips fn i ips err = try_ips fn' i ips err.
Proof.
  induction ips as [|ip ips IH]; intros i err Hf; [done|]. cbn [try_ips]. rewrite (Hf i ip) by left. destruct (fn' i ip); [|done].
  rewrite (IH (S i)); [done|]. intros n ip' Hi. apply Hf. by right.
Qed.

Lemma findSuitableIP_ext host (fn fn' : string -> Z -> nat -> IP -> sum carrierError C) :
  (forall h p port n ip, SplitHostPort host = Some (h, p) -> Atoi p = Some port -> suitable peerFilter ip = true -> fn h port n ip = fn' h port n ip) ->
  findSuitableIP peerFilter lookup host fn = findSuitableIP peerFilter lookup host fn'.
Proof.
  intros Hf. unfold findSuitableIP. destruct (SplitHostPort host) as [[h p]|] eqn:Eh; [|done]. destruct (Atoi p) as [port|] eqn:Ep; [|done].
  destruct (lookup h) as [resp|]; [|done]. destruct (filter _ resp) as [|ip ips] eqn:Ef; [done|]. apply try_ips_ext. intros n ip' Hi. apply (Hf h p); [done|done|].
  rewrite <- Ef in Hi. by apply list_elem_of_filter in Hi as [? _].
Qed.

Lemma with_dialer_ext {A} ip port sintf (k k' : option TCPAddr -> TCPAddr -> sum carrierError A) : (forall source dst, ta_IP dst = ip -> ta_Port dst = port -> k source dst = k' source dst) ->
  with_dialer interfaces ip port sintf k = with_dialer interfaces ip port sintf k'.
Proof.
  intros Hk. unfold with_dialer. destruct (tcp_dialerFor _ _ _) as [e|[source dst]] eqn:E; [done|].
  assert (ta_IP dst = ip /\ ta_Port dst = port) as [H1 H2]; [|by apply Hk]. unfold tcp_dialerFor in E. repeat case_match; simplify_eq; done.
Qed.

(** The name that a TLS dial asks for: the configured one, or the host of the URI. *)
Definition dial_name (u : url) (options : linkOptions) (name : string) : Prop :=
  if String.eqb (lo_tlsSNI options) "" then exists p, SplitHostPort (u_host u) = Some (name, p) else name = lo_tlsSNI options.

Theorem tls_dials_by_name (connect connect' : nat -> option TCPAddr -> TCPAddr -> tlsConfig -> sum carrierError C) u sintf options :
  (forall n source dst name, suitable peerFilter (ta_IP dst) = true -> dial_name u options name -> connect n source dst (dial_tls name) = connect' n source dst (dial_tls name)) ->
  linkTLS_dial peerFilter lookup interfaces connect u sintf options = linkTLS_dial peerFilter lookup interfaces connect' u sintf options.
Proof.
  intros Hc. unfold linkTLS_dial. apply findSuitableIP_ext. intros h p port n ip Eh _ Hs. apply with_dialer_ext. intros source dst Ed _. apply Hc; [by rewrite Ed|].
  unfold dial_name. destruct (String.eqb_spec (lo_tlsSNI options) ""); cbn; eauto.
Qed.

(** A QUIC dial asks for no name: its configuration is always that of the node. *)
Theorem quic_dials_without_name {Q} (connect connect' : nat -> string -> tlsConfig -> sum carrierError Q) (open : nat -> Q -> sum carrierError C) u :
  (forall n hostport, connect n hostport node_tls = connect' n hostport node_tls) ->
  linkQUIC_dial peerFilter lookup ip_text port_text connect open u = linkQUIC_dial peerFilter lookup ip_text port_text connect' open u.
Proof. intros Hc. unfold linkQUIC_dial. apply findSuitableIP_ext. intros h p port n ip _ _ _. by rewrite Hc. Qed.

(** Websockets: every attempt keeps the host of the URI as the name of the server,
    and its URL has the address that is dialled. *)
Theorem websockets_dial_by_name (connect connect' : nat -> wsDial -> sum carrierError C) u sintf :
  (forall n d, suitable peerFilter (ta_IP (wd_dst d)) = true -> (exists p, SplitHostPort (u_host u) = Some (wd_host d, p)) ->
     u_host (wd_url d) = JoinHostPort (ip_text (ta_IP (wd_dst d))) (port_text (ta_Port (wd_dst d))) ->
     (wd_tls d = None \/ wd_tls d = Some (dial_tls (wd_host d))) -> connect n d = connect' n d) ->
  linkWS_dial peerFilter lookup interfaces ip_text port_text connect u sintf = linkWS_dial peerFilter lookup interfaces ip_text port_text connect' u sintf /\
  linkWSS_dial peerFilter lookup interfaces ip_text port_text connect u sintf = linkWSS_dial peerFilter lookup interfaces ip_text port_text connect' u sintf.
Proof.
  intros Hc. unfold linkWS_dial, linkWSS_dial. split; apply findSuitableIP_ext; intros h p port n ip Eh _ Hs; apply with_dialer_ext; intros source dst Ed Ep;
    (apply Hc; cbn; [by rewrite Ed|by exists p|by rewrite Ed, Ep|by auto]).
Qed.
End dialers.

(** A websocket connection is only offered to the links with the right subprotocol. *)
Lemma ws_offers_subprotocol {C} path accepted (c : C) : ws_ServeHTTP path accepted = WsOffer c -> accepted = Some ("ygg-ws"%string, c).
Proof.
  unfold ws_ServeHTTP. destruct (_ || _); [done|]. destruct accepted as [[sub c']|]; [|done]. destruct (String.eqb_spec sub "ygg-ws"); [intros [= <-]; by subst|done].
Qed.

(** What comes before the first slash inside a path has no slash. *)
Lemma socks_target_free path : free "/"%char (socks_target path).
Proof.
  unfold socks_target. pose proof (Split_free (trim_slashes path) "/"%char) as Hf. destruct (Split _ _) as [|x l]; [done|]. by apply Forall_cons in Hf as [? _].
Qed.
