(* ===== verification/ConfigFile.v ===== *)
(** * The configuration

    [src/config/config.go]: the defaults, what is done after reading a
    configuration, and the file that the web interface shows and saves, with the
    checks of its path. The parsers of JSON, HJSON and PEM, and the file system,
    are interfaces. *)

From Stdlib Require Import String Ascii.
From S2P Require Import Prelude Crypto RouterState Handshake LinkOptions GoStr.

(** ** Paths *)

(** [filepath.Clean] on the parts of a path, in reverse. *)
Definition clean_step (rooted : bool) (st : list string) (seg : string) : list string :=
  if String.eqb seg "" || String.eqb seg "." then st
  else if String.eqb seg ".." then
    match st with
    | [] => if rooted then [] else [".."%string]
    | x :: st' => if String.eqb x ".." then ".."%string :: st else st'
    end
  else seg :: st.
Definition clean_parts (rooted : bool) (l : list string) : list string := reverse (fold_left (clean_step rooted) l []).

Definition Clean (path : string) : string :=
  let rooted := HasPrefix path "/" in
  let body := Join (clean_parts rooted (Split path "/"%char)) "/"%char in
  if rooted then String "/"%char body
  else if String.eqb body "" then "."%string else body.

(** [filepath.Abs]; the working directory may be unknown. *)
Definition Abs (cwd : option string) (path : string) : option string :=
  if HasPrefix path "/" then Some (Clean path)
  else match cwd with Some wd => Some (Clean (wd ++ "/" ++ path)) | None => None end.

(** A rune below 32, but for tab, newline and carriage return, or between 127 and
    159; the latter are encoded with the byte 194. *)
Fixpoint control_characters (s : string) : bool :=
  match s with
  | EmptyString => false
  | String a s' =>
      let n := Z.of_N (N_of_ascii a) in
      ((n <? 32) && negb (n =? 9) && negb (n =? 10) && negb (n =? 13)) || (n =? 127)
      || ((n =? 194) && match s' with String b _ => let m := Z.of_N (N_of_ascii b) in (128 <=? m) && (m <=? 159) | EmptyString => false end)
      || control_characters s'
  end.

Inductive pathError := PathEmpty | PathNull | PathTraversal | PathNoAbs | PathTraversalAfter | PathControl | PathDeep.
#[global] Instance pathError_eq_dec : EqDecision pathError.
Proof. solve_decision. Defined.

Definition validateConfigPath (cwd : option string) (path : string) : sum pathError string :=
  if String.eqb path "" then inl PathEmpty
  else if Contains path (String (ascii_of_nat 0) EmptyString) then inl PathNull
  else if Contains path ".." || Contains path "//" || Contains path "\\" then inl PathTraversal
  else
    match Abs cwd (Clean path) with
    | None => inl PathNoAbs
    | Some absPath =>
        if Contains absPath ".." then inl PathTraversalAfter
        else if control_characters absPath then inl PathControl
        else if (10 <? Count absPath "/"%char)%nat then inl PathDeep
        else inr absPath
    end.

(** ** The configuration of a node *)

Record MulticastInterfaceConfig := MkMulticastConfig {
  mi_Regex : string; mi_Beacon : bool; mi_Listen : bool; mi_Port : Z; mi_Priority : Z; mi_Password : string
}.
Record WebUIConfig := MkWebUIConfig { wc_Enable : bool; wc_Port : Z; wc_Host : string; wc_Password : string }.

(** Values of JSON, as [NodeInfo] holds them. The certificate is the private key in it. *)
Class ConfigLibs := {
  jsonValue : Type;
  UnmarshalPEM : list byte -> option (string * list byte);
  ParsePKCS8PrivateKey : list byte -> option (option (list byte));
  X509KeyPair : list byte -> bool
}.

Section config.
Context `{GoStrings, ConfigLibs}.

Record NodeConfig := MkNodeConfig {
  nc_PrivateKey : list byte;
  nc_PrivateKeyPath : string;
  nc_Certificate : option (list byte);
  nc_Peers : list string;
  nc_OutboundSNIList : list string;
  nc_InterfacePeers : gmap string (list string);
  nc_Listen : list string;
  nc_AdminListen : string;
  nc_MulticastInterfaces : list MulticastInterfaceConfig;
  nc_AllowedPublicKeys : list string;
  nc_IfName : string;
  nc_IfMTU : Z;
  nc_LogLookups : bool;
  nc_NodeInfoPrivacy : bool;
  nc_NodeInfo : option (gmap string jsonValue);
  nc_PrometheusEnabled : bool;
  nc_PrometheusListen : string;
  nc_Community : string;
  nc_CommunityMode : string;
  nc_AddressPrefix : string;
  nc_WebUI : WebUIConfig
}.

Definition set_nc_mode (m : string) (c : NodeConfig) : NodeConfig :=
  MkNodeConfig (nc_PrivateKey c) (nc_PrivateKeyPath c) (nc_Certificate c) (nc_Peers c) (nc_OutboundSNIList c) (nc_InterfacePeers c) (nc_Listen c) (nc_AdminListen c)
    (nc_MulticastInterfaces c) (nc_AllowedPublicKeys c) (nc_IfName c) (nc_IfMTU c) (nc_LogLookups c) (nc_NodeInfoPrivacy c) (nc_NodeInfo c) (nc_PrometheusEnabled c)
    (nc_PrometheusListen c) (nc_Community c) m (nc_AddressPrefix c) (nc_WebUI c).
Definition set_nc_keys (key : list byte) (cert : option (list byte)) (c : NodeConfig) : NodeConfig :=
  MkNodeConfig key (nc_PrivateKeyPath c) cert (nc_Peers c) (nc_OutboundSNIList c) (nc_InterfacePeers c) (nc_Listen c) (nc_AdminListen c)
    (nc_MulticastInterfaces c) (nc_AllowedPublicKeys c) (nc_IfName c) (nc_IfMTU c) (nc_LogLookups c) (nc_NodeInfoPrivacy c) (nc_NodeInfo c) (nc_PrometheusEnabled c)
    (nc_PrometheusListen c) (nc_Community c) (nc_CommunityMode c) (nc_AddressPrefix c) (nc_WebUI c).

Inductive configError := CfgMode | CfgRead | CfgPEM | CfgPEMType | CfgPKCS8 | CfgNotEd25519 | CfgKeyLength | CfgCertificate | CfgParse | CfgPath (e : pathError) | CfgWrite.

(** Either an error or a result; [None] is a panic. *)
Definition Cfg (A : Type) : Type := option (sum configError A).

(** [UnmarshalPEMPrivateKey] *)
Definition UnmarshalPEMPrivateKey (b : list byte) : sum configError (list byte) :=
  match UnmarshalPEM b with
  | None => inl CfgPEM
  | Some (type, bytes) =>
      if negb (String.eqb type "PRIVATE KEY") then inl CfgPEMType
      else match ParsePKCS8PrivateKey bytes with
           | None => inl CfgPKCS8
           | Some None => inl CfgNotEd25519
           | Some (Some key) => if (length key =? 64)%nat then inr key else inl CfgKeyLength
           end
  end.

(** [GenerateSelfSignedCertificate]: the seed, the public key and the signature of
    the private key are taken, which panics unless it has 64 bytes. *)
Definition GenerateSelfSignedCertificate (key : list byte) : Cfg (list byte) :=
  if negb (length key =? 64)%nat then None
  else if X509KeyPair key then Some (inr key) else Some (inl CfgCertificate).

(** The mode of communities. *)
Definition normal_mode (mode : string) : option string :=
  let mode := ToLower (TrimSpace mode) in
  if String.eqb mode "" || String.eqb mode "strict" then Some "strict"%string
  else if String.eqb mode "soft" then Some "soft"%string
  else None.

(** [postprocessConfig]; [readFile] is [os.ReadFile]. *)
Definition postprocessConfig (readFile : string -> option (list byte)) (cfg : NodeConfig) : Cfg NodeConfig :=
  match normal_mode (nc_CommunityMode cfg) with
  | None => Some (inl CfgMode)
  | Some mode =>
      let cfg := set_nc_mode mode cfg in
      let key :=
        if String.eqb (nc_PrivateKeyPath cfg) "" then inr (nc_PrivateKey cfg)
        else match readFile (nc_PrivateKeyPath cfg) with
             | None => inl CfgRead
             | Some f => UnmarshalPEMPrivateKey f
             end in
      match key with
      | inl e => Some (inl e)
      | inr key =>
          let cfg := set_nc_keys key (nc_Certificate cfg) cfg in
          if bool_decide (nc_Certificate cfg = Some key) then Some (inr cfg)
          else match GenerateSelfSignedCertificate key with
               | None => None
               | Some (inl e) => Some (inl e)
               | Some (inr cert) => Some (inr (set_nc_keys key (Some cert) cfg))
               end
      end
  end.

(** The defaults of Linux. *)
Definition DefaultConfigFile : string := "/etc/yggdrasil.conf".
Definition default_config (key : list byte) : NodeConfig :=
  MkNodeConfig key "" None [] [] ∅ [] "unix:///var/run/yggdrasil.sock" [MkMulticastConfig ".*" true true 0 0 ""] [] "auto" 65535 false false None
    false "127.0.0.1:9756" "" "strict" "" (MkWebUIConfig false 9000 "127.0.0.1" "").

(** [GenerateConfig], with a new private key; an error of the last step panics. *)
Definition GenerateConfig (readFile : string -> option (list byte)) (key : list byte) : option NodeConfig :=
  match postprocessConfig readFile (default_config key) with
  | Some (inr cfg) => Some cfg
  | _ => None
  end.
End config.

(** ** Files *)

(** The configuration that was read and where, and the files; a file that cannot
    be read has no content. *)
Section files.
Context `{GoStrings, ConfigLibs}.

(** Parsers and printers: [hjson.Unmarshal] changes a configuration and
    [json.Unmarshal] makes one; a document is what [json.Unmarshal] gives. *)
Class ConfigCodec := {
  document : Type;
  json_valid : list byte -> bool;
  json_config : document -> option NodeConfig;
  json_MarshalIndent : document -> option (list byte);
  hjson_Marshal : document -> option (list byte);
  hjson_Unmarshal : list byte -> NodeConfig -> option NodeConfig;
  utf16_Bytes : list byte -> option (list byte)
}.
Context `{ConfigCodec}.

Record configFiles := MkConfigFiles {
  cf_path : string;
  cf_data : option NodeConfig;
  cf_fs : gmap string (option (list byte));
  cf_cwd : option string
}.

(** [ReadFrom] on what was read: a byte order mark means UTF-16. *)
Definition has_bom (conf : list byte) : bool :=
  bool_decide (take 2 conf = [Byte.xff; Byte.xfe]) || bool_decide (take 2 conf = [Byte.xfe; Byte.xff]).
Definition ReadFrom (conf : list byte) (key : list byte) (readFile : string -> option (list byte)) : Cfg NodeConfig :=
  match (if has_bom conf then utf16_Bytes conf else Some conf) with
  | None => Some (inl CfgParse)
  | Some conf =>
      match GenerateConfig readFile key with
      | None => None
      | Some cfg =>
          match hjson_Unmarshal conf cfg with
          | None => Some (inl CfgParse)
          | Some cfg => postprocessConfig readFile cfg
          end
      end
  end.

Record ConfigInfo := MkConfigInfo { ci_Path : string; ci_Format : string; ci_Data : NodeConfig }.

Definition readFile (s : configFiles) (p : string) : option (list byte) := mjoin (cf_fs s !! p).

Definition SetCurrentConfig (path : string) (cfg : NodeConfig) (s : configFiles) : configFiles :=
  let p :=
    if String.eqb path "" then path
    else match validateConfigPath (cf_cwd s) path with inr p => p | inl _ => ""%string end in
  MkConfigFiles p (Some cfg) (cf_fs s) (cf_cwd s).

(** [GetCurrentConfig]; [key1] and [key2] are the keys of the configurations that
    it generates. *)
Definition GetCurrentConfig (key1 key2 : list byte) (s : configFiles) : Cfg ConfigInfo :=
  let start :=
    match cf_data s with
    | Some data =>
        if negb (String.eqb (cf_path s) "") then
          match validateConfigPath (cf_cwd s) (cf_path s) with
          | inl e => Some (inl (CfgPath e))
          | inr p => Some (inr (p, data))
          end
        else
          match validateConfigPath (cf_cwd s) DefaultConfigFile with
          | inl e => Some (inl (CfgPath e))
          | inr p => match GenerateConfig (readFile s) key1 with None => None | Some c => Some (inr (p, c)) end
          end
    | None =>
        match validateConfigPath (cf_cwd s) DefaultConfigFile with
        | inl e => Some (inl (CfgPath e))
        | inr p => match GenerateConfig (readFile s) key1 with None => None | Some c => Some (inr (p, c)) end
        end
    end in
  match start with
  | None => None
  | Some (inl e) => Some (inl e)
  | Some (inr (p, data)) =>
      match readFile s p with
      | None => Some (inr (MkConfigInfo p "hjson" data))
      | Some content =>
          match GenerateConfig (readFile s) key2 with
          | None => None
          | Some cfg =>
              match hjson_Unmarshal content cfg with
              | None => Some (inl CfgParse)
              | Some cfg => Some (inr (MkConfigInfo p (if json_valid content then "json" else "hjson") cfg))
              end
          end
      end
  end.

(** The format of the file that is replaced, if none is given. *)
Definition target_format (format : string) (content : option (list byte)) : string :=
  if negb (String.eqb format "") then format
  else match content with
       | Some data => if json_valid data then "json"%string else "hjson"%string
       | None => "hjson"%string
       end.

(** [SaveConfig]; [writable] tells whether the directory and the file can be written. *)
Definition SaveConfig (data : document) (configPath format : string) (writable : bool) (s : configFiles) : sum configError configFiles :=
  match json_config data with
  | None => inl CfgParse
  | Some testConfig =>
      let target :=
        if negb (String.eqb configPath "") then configPath
        else if negb (String.eqb (cf_path s) "") then cf_path s else DefaultConfigFile in
      match validateConfigPath (cf_cwd s) target with
      | inl e => inl (CfgPath e)
      | inr target =>
          let format := target_format format (readFile s target) in
          match (if String.eqb format "json" then json_MarshalIndent data else hjson_Marshal data) with
          | None => inl CfgParse
          | Some output =>
              if negb writable then inl CfgWrite
              else inr (MkConfigFiles (cf_path s) (if bool_decide (target = cf_path s) then Some testConfig else cf_data s)
                          (<[target := Some output]> (cf_fs s)) (cf_cwd s))
          end
      end
  end.

(** ** The editor of the web interface *)

(** An HTTP error, or what is answered: the file and its content, or whether
    saving went well, with the path and whether a restart is asked for. *)
Inductive configAnswer :=
| CaError (status : Z)
| CaConfig (path format : string) (json : list byte)
| CaSaved (success : bool) (path : string) (restart : bool).

(** [getConfigHandler] of [src/webui/server.go]; [None] is a panic. *)
Definition getConfigHandler (is_get : bool) (marshal : NodeConfig -> option (list byte)) (key1 key2 : list byte) (s : configFiles) : option configAnswer :=
  if negb is_get then Some (CaError 405)
  else match GetCurrentConfig key1 key2 s with
       | None => None
       | Some (inl _) => Some (CaError 500)
       | Some (inr info) =>
           match marshal (ci_Data info) with
           | None => Some (CaError 500)
           | Some bs => Some (CaConfig (ci_Path info) (ci_Format info) bs)
           end
       end.

Record ConfigSetRequest := MkConfigSet { cq_ConfigJSON : list byte; cq_ConfigPath : string; cq_Format : string; cq_Restart : bool }.

(** [setConfigHandler], with whether the server is restarted. *)
Definition setConfigHandler (is_post : bool) (body : option ConfigSetRequest) (parse : list byte -> option document) (writable : bool) (key1 key2 : list byte)
    (s : configFiles) : option (configAnswer * configFiles * bool) :=
  if negb is_post then Some (CaError 405, s, false)
  else
    match body with
    | None => Some (CaError 400, s, false)
    | Some req =>
        match parse (cq_ConfigJSON req) with
        | None => Some (CaSaved false "" false, s, false)
        | Some data =>
            match SaveConfig data (cq_ConfigPath req) (cq_Format req) writable s with
            | inl _ => Some (CaSaved false "" false, s, false)
            | inr s =>
                match GetCurrentConfig key1 key2 s with
                | None => None
                | Some r =>
                    let path := match r with inr info => ci_Path info | inl _ => cq_ConfigPath req end in
                    Some (CaSaved true path (cq_Restart req), s, cq_Restart req)
                end
            end
        end
    end.
End files.

(** ** Properties of the configuration

    Paths that are accepted, configurations that are consistent, and the file that
    is saved and shown. *)

(** ** Clean paths *)

Definition part_ok (x : string) : Prop := free "/"%char x /\ x <> ""%string /\ x <> "."%string.

Lemma clean_parts_all rooted (P : string -> Prop) l : Forall P l -> P ".."%string -> Forall P (clean_parts rooted l).
Proof.
  intros Hl Hd. unfold clean_parts. apply Forall_reverse. assert (forall st, Forall P st -> Forall P (fold_left (clean_step rooted) l st)) as Hx; [|by apply Hx].
  induction Hl as [|x l Hx Hl IH]; intros st Hst; [done|]. cbn [fold_left]. apply IH. unfold clean_step. repeat case_match; try done; try (by repeat constructor).
  all: inversion_clear Hst; try done; try (by repeat constructor).
Qed.

Lemma clean_parts_ok rooted l : Forall (free "/"%char) l -> Forall part_ok (clean_parts rooted l).
Proof.
  intros Hl. unfold clean_parts. apply Forall_reverse. assert (forall st, Forall part_ok st -> Forall part_ok (fold_left (clean_step rooted) l st)) as Hx; [|by apply Hx].
  assert (part_ok "..") as Hd by done.
  induction Hl as [|x l Hx Hl IH]; intros st Hst; [done|]. cbn [fold_left]. apply IH. unfold clean_step.
  destruct (String.eqb_spec x ""); [done|]. destruct (String.eqb_spec x "."); [done|]. cbn [orb]. destruct (String.eqb x "..").
  - destruct st as [|y st]; [destruct rooted; by repeat constructor|]. destruct (String.eqb y ".."); [by constructor|by inversion_clear Hst].
  - constructor; [by split_and!|done].
Qed.

Lemma clean_parts_rooted l : Forall (fun x => x <> ".."%string) (clean_parts true l).
Proof.
  unfold clean_parts. apply Forall_reverse. assert (forall st, Forall (fun x => x <> ".."%string) st -> Forall (fun x => x <> ".."%string) (fold_left (clean_step true) l st)) as Hx; [|by apply Hx].
  induction l as [|x l IH]; intros st Hst; [done|]. cbn [fold_left]. apply IH. unfold clean_step.
  destruct (_ || _); [done|]. destruct (String.eqb_spec x ".."); [|by constructor]. destruct st as [|y st]; [done|].
  inversion_clear Hst as [|? ? Hy Hs]. by destruct (String.eqb_spec y "..").
Qed.

(** Parts without anything to clean stay. *)
Lemma clean_parts_id rooted l : Forall (fun x => x <> ""%string /\ x <> "."%string /\ x <> ".."%string) l -> clean_parts rooted l = l.
Proof.
  intros Hl. unfold clean_parts. assert (forall st, fold_left (clean_step rooted) l st = reverse l ++ st) as ->; [|by rewrite app_nil_r, reverse_involutive].
  induction Hl as [|x l (H1 & H2 & H3) Hl IH]; intros st; [done|]. cbn [fold_left]. unfold clean_step at 2.
  destruct (String.eqb_spec x ""); [done|]. destruct (String.eqb_spec x "."); [done|]. destruct (String.eqb_spec x ".."); [done|]. cbn [orb].
  by rewrite IH, reverse_cons, <- app_assoc.
Qed.

(** The form of a clean rooted path. *)
Record rooted_path (l : list string) (p : string) : Prop := {
  rp_eq : p = String "/"%char (Join l "/"%char);
  rp_parts : Forall part_ok l;
  rp_up : Forall (fun x => x <> ".."%string) l
}.

Lemma Split_rooted l : Forall part_ok l -> Split (String "/"%char (Join l "/"%char)) "/"%char = match l with [] => [""; ""]%string | _ => ""%string :: l end.
Proof.
  intros Hl. cbn [Split]. rewrite Ascii.eqb_refl. destruct l as [|x l]; [done|]. rewrite Split_Join; [done|done|]. eapply Forall_impl; [exact Hl|]. by intros y (Hy & _).
Qed.

Lemma Clean_rooted p : HasPrefix p "/" = true -> rooted_path (clean_parts true (Split p "/"%char)) (Clean p).
Proof.
  intros Hp. unfold Clean. rewrite Hp. split; [done|apply clean_parts_ok, Split_free|apply clean_parts_rooted].
Qed.

Lemma rooted_path_prefix l p : rooted_path l p -> HasPrefix p "/" = true.
Proof. intros [-> _ _]. unfold HasPrefix. cbn. by destruct (Join l "/"%char). Qed.

Lemma Clean_id l p : rooted_path l p -> Clean p = p.
Proof.
  intros Hp. pose proof (rooted_path_prefix l p Hp) as Hpre. destruct Hp as [-> Hl Hu]. unfold Clean. rewrite Hpre, Split_rooted by done. do 2 f_equal.
  assert (Forall (fun x => x <> ""%string /\ x <> "."%string /\ x <> ".."%string) l) as Hall.
  { apply Forall_forall. intros x Hx. rewrite Forall_forall in Hl, Hu. destruct (Hl x Hx) as (_ & ? & ?). split_and!; auto. }
  assert (clean_parts true (match l with [] => [""; ""]%string | _ => ""%string :: l end) = clean_parts true l) as ->; [by destruct l|]. by apply clean_parts_id.
Qed.

(** ** What the checks see *)

Lemma free_no_slashes x r : free "/"%char x -> Contains (x ++ r) "//" = Contains r "//".
Proof.
  unfold free. induction x as [|c x IH]; [done|]. change (String c x ++ r)%string with (String c (x ++ r)). cbn [Contains Count].
  destruct (Ascii.eqb_spec c "/"); [done|]. intros Hx. rewrite IH by done. by rewrite HasPrefix_other.
Qed.

Lemma rooted_no_slashes l : Forall part_ok l -> Contains (String "/"%char (Join l "/"%char)) "//" = false.
Proof.
  induction 1 as [|x l (Hf & Hn & _) Hl IH]; [done|].
  assert (forall r, Contains (String "/"%char (x ++ r)) "//" = Contains r "//") as Hx.
  { intros r. cbn [Contains]. rewrite free_no_slashes by done. destruct x as [|c x]; [done|]. unfold free in Hf. cbn in Hf. destruct (Ascii.eqb_spec c "/"); [done|].
    assert (HasPrefix (String "/" (String c x ++ r)) "//" = false) as ->; [|done]. change (String c x ++ r)%string with (String c (x ++ r)).
    change (HasPrefix (String c (x ++ r)) "/" = false). by apply HasPrefix_other. }
  destruct l as [|y l].
  - cbn [Join]. specialize (Hx ""%string). assert ((x ++ "")%string = x) as E; [|by rewrite E in Hx].
    clear. induction x as [|c x IH]; [done|]. change (String c x ++ "")%string with (String c (x ++ "")). by rewrite IH.
  - change (Join (x :: y :: l) "/"%char) with (x ++ String "/"%char (Join (y :: l) "/"%char))%string. by rewrite Hx.
Qed.

Lemma rooted_twice l c : c <> "/"%char -> Forall (fun x => Contains x (twice c) = false) l -> Contains (String "/"%char (Join l "/"%char)) (twice c) = false.
Proof.
  intros Hc Hl. assert (String "/"%char (Join l "/"%char) = "" ++ String "/"%char (Join l "/"%char))%string as -> by done.
  rewrite Contains_twice_app, Contains_twice_Join by done. cbn [Contains HasPrefix twice String.prefix orb]. apply not_true_is_false. intros (x & Hin & Hx)%existsb_exists.
  rewrite Forall_forall in Hl. apply list_elem_of_In in Hin. by rewrite Hl in Hx.
Qed.

Lemma twice_parts s c : c <> "/"%char -> Contains s (twice c) = false -> Forall (fun x => Contains x (twice c) = false) (Split s "/"%char).
Proof.
  intros Hc Hs. rewrite <- (Join_Split s "/"%char), Contains_twice_Join in Hs by done. apply Forall_forall. intros x Hx. apply not_true_is_false. intros Ht.
  assert (existsb (fun x => Contains x (twice c)) (Split s "/"%char) = true); [|congruence]. apply existsb_exists. exists x. split; [by apply list_elem_of_In|done].
Qed.

Lemma control_no_null s : control_characters s = false -> Contains s (String (ascii_of_nat 0) EmptyString) = false.
Proof.
  induction s as [|a s IH]; [done|]. cbn [control_characters Contains]. rewrite !orb_false_iff. intros [[[H1 _] _] H2]. split; [|by apply IH].
  unfold HasPrefix. cbn [String.prefix]. destruct (Ascii.ascii_dec (ascii_of_nat 0) a) as [<-|]; [done|done].
Qed.

(** ** Accepted paths *)

(** What [Abs] gives; two backslashes in a row come from the path, or from the
    working directory of a relative path. *)
Definition no_backslashes (x : string) : Prop := Contains x (twice "\"%char) = false.
Lemma Abs_rooted cwd p q : (forall wd, cwd = Some wd -> HasPrefix wd "/" = true) -> Abs cwd (Clean p) = Some q ->
  exists l, rooted_path l q /\
    (no_backslashes p -> (HasPrefix p "/" = false -> forall wd, cwd = Some wd -> no_backslashes wd) -> Forall no_backslashes l).
Proof.
  intros Hroot. unfold no_backslashes.
  assert (forall r, HasPrefix r "/" = true -> exists l, rooted_path l (Clean r) /\ (no_backslashes r -> Forall no_backslashes l)) as Hr.
  { intros r Hr. eexists. split; [by apply Clean_rooted|]. intros Hb. apply clean_parts_all; [by apply twice_parts|done]. }
  unfold Abs. destruct (HasPrefix p "/") eqn:Ep.
  - destruct (Hr p Ep) as (l & Hl & Hf). rewrite (rooted_path_prefix l _ Hl), (Clean_id l _ Hl). intros [= <-]. exists l. split; [done|].
    intros Hb _. by apply Hf.
  - assert (no_backslashes p -> no_backslashes (Clean p)) as Hcb.
    { intros Hb. unfold no_backslashes, Clean. rewrite Ep. destruct (String.eqb _ ""); [done|]. rewrite Contains_twice_Join by done.
      apply not_true_is_false. intros (x & Hin & Hx)%existsb_exists.
      assert (Forall no_backslashes (clean_parts false (Split p "/"%char))) as Hf by (apply clean_parts_all; [by apply twice_parts|done]).
      rewrite Forall_forall in Hf. apply list_elem_of_In in Hin. apply Hf in Hin. unfold no_backslashes in Hin. congruence. }
    destruct (HasPrefix (Clean p) "/") eqn:Ec.
    + destruct (Hr (Clean p) Ec) as (l & Hl & Hf). intros [= <-]. exists l. split; [done|]. intros Hb _. by apply Hf, Hcb.
    + destruct cwd as [wd|]; [|done]. specialize (Hroot wd eq_refl). intros [= <-]. destruct (Hr (wd ++ "/" ++ Clean p)%string) as (l & Hl & Hf).
      * destruct wd as [|c wd]; [done|]. destruct (Ascii.ascii_dec c "/") as [->|Hc]; [|by rewrite HasPrefix_other in Hroot].
        change (String "/" wd ++ "/" ++ Clean p)%string with (String "/" (wd ++ "/" ++ Clean p)). apply HasPrefix_same.
      * exists l. split; [done|]. intros Hb Hw. apply Hf. specialize (Hw eq_refl wd eq_refl). apply Hcb in Hb. unfold no_backslashes in *.
        change ("/" ++ Clean p)%string with (String "/"%char (Clean p)). by rewrite Contains_twice_app, Hw, Hb.
Qed.

(** The form of a path that is accepted. There are no control characters but for
    tab, newline and carriage return; the ones from 128 to 159 are encoded with
    the byte 194. *)
Record clean_path (q : string) : Prop := {
  cp_parts : exists parts, q = String "/"%char (Join parts "/"%char) /\ (length parts <= 10)%nat /\
    Forall (fun x => free "/"%char x /\ x <> ""%string /\ x <> "."%string /\ x <> ".."%string) parts;
  cp_up : Contains q ".." = false;
  cp_control : forall pre c rest, q = (pre ++ String c rest)%string -> let n := Z.of_N (N_of_ascii c) in
    (32 <= n \/ n ∈ [9; 10; 13]) /\ n <> 127 /\
    (n = 194 -> forall d rest', rest = String d rest' -> ~ 128 <= Z.of_N (N_of_ascii d) <= 159)
}.

Lemma no_control pre c rest : control_characters (pre ++ String c rest) = false -> let n := Z.of_N (N_of_ascii c) in
  (32 <= n \/ n ∈ [9; 10; 13]) /\ n <> 127 /\
  (n = 194 -> forall d rest', rest = String d rest' -> ~ 128 <= Z.of_N (N_of_ascii d) <= 159).
Proof.
  induction pre as [|a pre IH]; [|change (String a pre ++ String c rest)%string with (String a (pre ++ String c rest)); cbn [control_characters]; rewrite !orb_false_iff; intros [_ ?]; by apply IH].
  change ("" ++ String c rest)%string with (String c rest). cbn [control_characters]. set (n := Z.of_N (N_of_ascii c)).
  rewrite !orb_false_iff. intros [[[H1 H2] H3] _]. split_and!.
  - destruct (Z.ltb_spec n 32) as [|]; [right|by left]. cbn [andb] in H1.
    destruct (Z.eqb_spec n 9); [set_solver|]. destruct (Z.eqb_spec n 10); [set_solver|]. destruct (Z.eqb_spec n 13); [set_solver|done].
  - by apply Z.eqb_neq.
  - intros -> d rest' ->. cbn [Z.eqb Pos.eqb andb] in H3. apply andb_false_iff in H3 as [H3|H3]; apply Z.leb_gt in H3; lia.
Qed.

(** A path that is accepted is clean, and is accepted again unless it has two
    backslashes in a row. *)
Lemma accepted_path cwd p q : (forall wd, cwd = Some wd -> HasPrefix wd "/" = true) -> validateConfigPath cwd p = inr q ->
  clean_path q /\ (Contains q "\\" = true -> HasPrefix p "/" = false /\ exists wd, cwd = Some wd /\ Contains wd "\\" = true) /\
  forall cwd', validateConfigPath cwd' q = if Contains q "\\" then inl PathTraversal else inr q.
Proof.
  intros Hroot. unfold validateConfigPath at 1. destruct (String.eqb p ""); [done|]. destruct (Contains p (String _ _)); [done|].
  destruct (Contains p ".." || Contains p "//" || Contains p "\\") eqn:Et; [done|]. apply orb_false_iff in Et as [[Eup Esl]%orb_false_iff Eback].
  destruct (Abs cwd (Clean p)) as [q'|] eqn:Ea; [|done]. destruct (Contains q' "..") eqn:Eup'; [done|]. destruct (control_characters q') eqn:Ectl; [done|].
  destruct (Nat.ltb_spec 10 (Count q' "/"%char)) as [|Hdeep]; [done|]. intros [= ->].
  destruct (Abs_rooted cwd p q Hroot Ea) as (l & Hl & Hb). pose proof (rooted_path_prefix l q Hl) as Hpre. pose proof (Clean_id l q Hl) as Hid. pose proof Hl as [Hq Hok Hup].
  split_and!.
  - split; [|done|intros pre c rest E; apply (no_control pre); by rewrite <- E]. exists l. split_and!; [done| |].
    + rewrite Hq in Hdeep. cbn [Count] in Hdeep. rewrite Ascii.eqb_refl, Count_Join in Hdeep by (eapply Forall_impl; [exact Hok|]; by intros x (? & _)). lia.
    + apply Forall_forall. intros x Hx. rewrite Forall_forall in Hok, Hup. destruct (Hok x Hx) as (? & ? & ?). split_and!; auto.
  - intros Hc. assert (~ (HasPrefix p "/" = false -> forall wd, cwd = Some wd -> no_backslashes wd)) as Hn.
    { intros Hw. specialize (Hb Eback Hw). rewrite Hq in Hc. apply (rooted_twice l "\"%char ltac:(done)) in Hb. unfold twice in Hb. congruence. }
    destruct (HasPrefix p "/"); [by destruct Hn|]. split; [done|]. destruct cwd as [wd|]; [|by destruct Hn]. exists wd. split; [done|].
    destruct (Contains wd "\\") eqn:Ew; [done|]. destruct Hn. by intros _ ? [= <-].
  - intros cwd'. unfold validateConfigPath. assert (String.eqb q "" = false) as -> by by rewrite Hq. rewrite control_no_null, Eup' by done.
    assert (Contains q "//" = false) as -> by (rewrite Hq; by apply rooted_no_slashes). cbn [orb].
    destruct (Contains q "\\"); [done|].
    unfold Abs. rewrite Hid, Hpre, Hid, Eup', Ectl. by destruct (Nat.ltb_spec 10 (Count q "/"%char)); [lia|].
Qed.

(** ** Configurations that were read *)

Section config.
Context `{GoStrings, ConfigLibs}.

Lemma normal_mode_two mode m : normal_mode mode = Some m -> m ∈ ["strict"; "soft"]%string.
Proof. unfold normal_mode. repeat case_match; intros [= <-]; set_solver. Qed.

Lemma postprocess_ok rf cfg cfg' : (forall key, nc_Certificate cfg = Some key -> length key = 64%nat) -> postprocessConfig rf cfg = Some (inr cfg') ->
  nc_CommunityMode cfg' ∈ ["strict"; "soft"]%string /\ nc_Certificate cfg' = Some (nc_PrivateKey cfg') /\ length (nc_PrivateKey cfg') = 64%nat /\
  nc_PrivateKeyPath cfg' = nc_PrivateKeyPath cfg /\
  (if String.eqb (nc_PrivateKeyPath cfg) "" then nc_PrivateKey cfg' = nc_PrivateKey cfg
   else exists f, rf (nc_PrivateKeyPath cfg) = Some f /\ UnmarshalPEMPrivateKey f = inr (nc_PrivateKey cfg')).
Proof.
  intros Hcert. unfold postprocessConfig. destruct (normal_mode (nc_CommunityMode cfg)) as [mode|] eqn:Em; [|done]. apply normal_mode_two in Em. cbn [set_nc_mode nc_PrivateKeyPath nc_PrivateKey].
  set (key := if String.eqb (nc_PrivateKeyPath cfg) "" then _ else _). destruct key as [e|k] eqn:Ek; [done|]. cbn [set_nc_keys nc_Certificate].
  assert (if String.eqb (nc_PrivateKeyPath cfg) "" then k = nc_PrivateKey cfg else exists f, rf (nc_PrivateKeyPath cfg) = Some f /\ UnmarshalPEMPrivateKey f = inr k) as Hk.
  { unfold key in Ek. destruct (String.eqb (nc_PrivateKeyPath cfg) ""); [by injection Ek|]. destruct (rf _) as [f|]; [by exists f|done]. }
  case_bool_decide as Hc; [intros [= <-]; cbn; split_and!; auto|].
  unfold GenerateSelfSignedCertificate. destruct (Nat.eqb_spec (length k) 64); [|done]. cbn [negb]. destruct (X509KeyPair k); [|done]. intros [= <-]. cbn. by split_and!.
Qed.

(** A private key of another length does not give an error: the program panics. *)
Lemma short_key_panics rf cfg mode : normal_mode (nc_CommunityMode cfg) = Some mode -> nc_PrivateKeyPath cfg = ""%string -> length (nc_PrivateKey cfg) <> 64%nat ->
  nc_Certificate cfg <> Some (nc_PrivateKey cfg) -> postprocessConfig rf cfg = None.
Proof.
  intros Hm Hp Hl Hc. unfold postprocessConfig. rewrite Hm. cbn [set_nc_mode nc_PrivateKeyPath nc_PrivateKey]. rewrite Hp. cbn [String.eqb set_nc_keys nc_Certificate].
  rewrite bool_decide_false by done. unfold GenerateSelfSignedCertificate. by destruct (Nat.eqb_spec (length (nc_PrivateKey cfg)) 64).
Qed.

Lemma generated_ok rf key cfg : GenerateConfig rf key = Some cfg -> nc_Certificate cfg = Some key /\ length key = 64%nat.
Proof.
  unfold GenerateConfig. destruct (postprocessConfig rf (default_config key)) as [[|c]|] eqn:E; [done| |done]. intros [= <-].
  apply postprocess_ok in E as (_ & Hc & Hl & _ & Hk); [|done]. cbn in Hk. by rewrite Hk in Hc, Hl.
Qed.

Context `{!ConfigCodec}.

(** A configuration that was read. When [ReadFrom] succeeds, the mode of
    communities is one of the two that the core knows, the private key has the
    length of an Ed25519 key, the certificate is that of the private key, and where
    the configuration names a file for the key, the key is the one in that file,
    whatever else was configured. *)
Theorem read_config_consistent conf key rf cfg : (forall b c c', hjson_Unmarshal b c = Some c' -> nc_Certificate c' = nc_Certificate c) ->
  ReadFrom conf key rf = Some (inr cfg) ->
  nc_CommunityMode cfg ∈ ["strict"; "soft"]%string /\ length (nc_PrivateKey cfg) = 64%nat /\ nc_Certificate cfg = Some (nc_PrivateKey cfg) /\
  (nc_PrivateKeyPath cfg <> ""%string -> exists f, rf (nc_PrivateKeyPath cfg) = Some f /\ UnmarshalPEMPrivateKey f = inr (nc_PrivateKey cfg)).
Proof.
  intros Hkeeps. unfold ReadFrom. destruct (if has_bom conf then _ else _) as [conf'|]; [|done]. destruct (GenerateConfig rf key) as [c|] eqn:Eg; [|done].
  destruct (hjson_Unmarshal conf' c) as [c'|] eqn:Eh; [|done]. intros Hp. apply generated_ok in Eg as [Ec Hl].
  apply postprocess_ok in Hp as (Hm & Hcert & Hlen & Hpath & Hk); [|rewrite (Hkeeps _ _ _ Eh), Ec; congruence].
  split_and!; [done..|]. rewrite Hpath. destruct (String.eqb_spec (nc_PrivateKeyPath c') ""); [done|]. intros _. exact Hk.
Qed.

(** ** The current configuration *)

(** Once the path is known, [GetCurrentConfig] only fails when the file does not
    parse, and shows the path. *)
Lemma get_current_path key1 key2 s : (cf_path s = ""%string \/ validateConfigPath (cf_cwd s) (cf_path s) = inr (cf_path s)) ->
  match GetCurrentConfig key1 key2 s with
  | Some (inl e) => e = CfgParse
  | Some (inr info) => ci_Path info = if cf_data s then if String.eqb (cf_path s) "" then DefaultConfigFile else cf_path s else DefaultConfigFile
  | None => exists key, GenerateConfig (readFile s) key = None
  end.
Proof.
  intros Hp. unfold GetCurrentConfig. assert (validateConfigPath (cf_cwd s) DefaultConfigFile = inr DefaultConfigFile) as -> by reflexivity.
  set (rest := fun (p : string) (data : NodeConfig) => match readFile s p with
      | None => Some (inr (MkConfigInfo p "hjson" data))
      | Some content => match GenerateConfig (readFile s) key2 with
          | None => None
          | Some cfg => match hjson_Unmarshal content cfg with
              | None => Some (inl CfgParse)
              | Some cfg => Some (inr (MkConfigInfo p (if json_valid content then "json" else "hjson") cfg)) end end end).
  assert (forall p data, match rest p data with
    | Some (inl e) => e = CfgParse | Some (inr info) => ci_Path info = p | None => exists key, GenerateConfig (readFile s) key = None end) as Hrest.
  { intros p data. unfold rest. destruct (readFile s p); [|done]. destruct (GenerateConfig _ key2) eqn:E; [|by eexists]. by destruct (hjson_Unmarshal _ _). }
  destruct (cf_data s) as [data|]; [destruct (String.eqb_spec (cf_path s) "") as [E|Hne]|]; cbn [negb].
  2:{ destruct Hp as [?| ->]; [done|]. apply Hrest. }
  all: destruct (GenerateConfig (readFile s) key1) eqn:E1; [apply Hrest|by eexists].
Qed.


(** ** What is saved is what is shown *)

(** The editor of the configuration. Saving writes one file, whose path is one
    of those that are accepted, with the printed document; and where the path is
    left out and the node runs with a configuration file, it is that file, and what
    is shown next is what the parser reads from it, on top of the defaults. *)
Theorem saved_is_shown data configPath format s s' : SaveConfig data configPath format true s = inr s' ->
  exists target output, validateConfigPath (cf_cwd s) (if String.eqb configPath "" then if String.eqb (cf_path s) "" then DefaultConfigFile else cf_path s else configPath) = inr target /\
    (json_MarshalIndent data = Some output \/ hjson_Marshal data = Some output) /\ cf_fs s' = <[target := Some output]> (cf_fs s) /\ cf_path s' = cf_path s /\ cf_cwd s' = cf_cwd s /\
  forall running path key1 key2 base, cf_data s = Some running -> configPath = ""%string -> path <> ""%string -> cf_path s = path -> validateConfigPath (cf_cwd s) path = inr path ->
    GenerateConfig (readFile s') key2 = Some base ->
    GetCurrentConfig key1 key2 s' = match hjson_Unmarshal output base with
      | Some c => Some (inr (MkConfigInfo path (if json_valid output then "json" else "hjson") c))
      | None => Some (inl CfgParse) end.
Proof.
  unfold SaveConfig. destruct (json_config data) as [test|]; [|done].
  assert ((if negb (String.eqb configPath "") then configPath else if negb (String.eqb (cf_path s) "") then cf_path s else DefaultConfigFile) =
    (if String.eqb configPath "" then if String.eqb (cf_path s) "" then DefaultConfigFile else cf_path s else configPath)) as -> by (by destruct (String.eqb configPath ""), (String.eqb (cf_path s) "")).
  destruct (validateConfigPath _ _) as [e|target] eqn:Ev; [done|].
  destruct (if String.eqb (target_format _ _) "json" then _ else _) as [output|] eqn:Eo; [|done]. cbn [negb]. intros [= <-]. exists target, output.
  assert (json_MarshalIndent data = Some output \/ hjson_Marshal data = Some output) as Ho by (revert Eo; destruct (String.eqb _ "json"); auto).
  split_and!; [done|done|done|done|done|]. cbn [cf_path cf_fs cf_cwd cf_data].
  intros running path key1 key2 base Hrun -> Hne Hpath Hacc Hbase. cbn in Ev. rewrite Hpath in Ev. destruct (String.eqb_spec path ""); [done|].
  assert (target = path) as -> by congruence. unfold GetCurrentConfig. cbn [cf_data cf_path cf_cwd cf_fs]. rewrite Hpath, bool_decide_true by done.
  destruct (String.eqb_spec path ""); [done|]. cbn [negb]. rewrite Hacc. unfold readFile at 1. cbn [cf_fs]. rewrite lookup_insert_eq. cbn [mjoin option_join]. rewrite <- Hpath in Hbase |- *.
  rewrite bool_decide_true in Hbase by done. rewrite Hbase. by destruct (hjson_Unmarshal output base).
Qed.
End config.

(** ** Concrete inputs *)

Definition w_libs : ConfigLibs := {|
  jsonValue := unit;
  UnmarshalPEM := fun _ => None;
  ParsePKCS8PrivateKey := fun _ => None;
  X509KeyPair := fun _ => true
|}.
Definition w_key : list byte := replicate 64 Byte.x01.
Definition w_codec : @ConfigCodec w_libs := {|
  document := list byte;
  json_valid := fun _ => true;
  json_config := fun d => Some (@default_config w_libs d);
  json_MarshalIndent := fun d => Some d;
  hjson_Marshal := fun d => Some d;
  hjson_Unmarshal := fun _ c => Some c;
  utf16_Bytes := fun b => Some b
|}.


Definition w_files : @configFiles w_libs := MkConfigFiles "/etc/node.conf" (Some (@default_config w_libs w_key)) ∅ None.
