(* ===== verification/Tun.v ===== *)
(** * The TUN adapter

    [src/tun/tun.go], [iface.go], [options.go] and [tun_linux.go]: how the adapter
    is started, with its MTU, and the goroutines that carry packets between the
    node and the interface, with the buffers they share. The device and the
    configuration of interfaces by netlink are an interface. *)

From Stdlib Require Import String Ascii.
From S2P Require Import Prelude Crypto Address.

(** ** Starting *)

(** A device that [CreateTUN] has made: its name, its MTU if it is known, and the
    number of packets it takes at a time. *)
Record tunDevice := MkDevice { td_Name : option string; td_MTU : option Z; td_BatchSize : nat }.

Class Netlink := {
  CreateTUN : string -> Z -> option tunDevice;
  ip_String : Address -> string;
  ParseAddr : string -> bool;
  LinkByName : string -> bool;
  AddrAdd : string -> string -> bool;
  LinkSetMTU : string -> Z -> bool;
  LinkSetUp : string -> bool
}.

Inductive tunOption := InterfaceName (v : string) | InterfaceMTU (v : Z) | FileDescriptor (v : Z).
Record tunConfig := MkTunConfig { tc_fd : Z; tc_name : string; tc_mtu : Z }.

Record TunAdapter := MkTun {
  tn_addr : Address;
  tn_subnet : Subnet;
  tn_mtu : Z;
  tn_iface : option tunDevice;
  tn_isOpen : bool;
  tn_isEnabled : bool;
  tn_config : tunConfig;
  tn_ch : option nat
}.
Definition set_tn_own a s (t : TunAdapter) : TunAdapter := MkTun a s (tn_mtu t) (tn_iface t) (tn_isOpen t) (tn_isEnabled t) (tn_config t) (tn_ch t).
Definition set_tn_iface d m (t : TunAdapter) : TunAdapter := MkTun (tn_addr t) (tn_subnet t) m d (tn_isOpen t) (tn_isEnabled t) (tn_config t) (tn_ch t).
Definition set_tn_flags o e (t : TunAdapter) : TunAdapter := MkTun (tn_addr t) (tn_subnet t) (tn_mtu t) (tn_iface t) o e (tn_config t) (tn_ch t).
Definition set_tn_config c (t : TunAdapter) : TunAdapter := MkTun (tn_addr t) (tn_subnet t) (tn_mtu t) (tn_iface t) (tn_isOpen t) (tn_isEnabled t) c (tn_ch t).
Definition set_tn_ch n (t : TunAdapter) : TunAdapter := MkTun (tn_addr t) (tn_subnet t) (tn_mtu t) (tn_iface t) (tn_isOpen t) (tn_isEnabled t) (tn_config t) n.

Inductive tunError := TunStarted | TunFD | TunCreate | TunParse | TunLink | TunAddress | TunMTU | TunUp.

(** The MTU that netlink is given, the one that the node is given, the goroutines
    that are started, and the interface that is closed. *)
Inductive tunLoop := LoopQueue | LoopRead | LoopWrite.
Inductive tunEffect := TunLinkMTU (name : string) (mtu : Z) | TunSetMTU (mtu : Z) | TunGo (l : tunLoop) | TunClose.

(** The maximum of Linux. *)
Definition MaximumMTU : Z := 65535.
Definition getSupportedMTU (mtu : Z) : Z :=
  if mtu <? 1280 then 1280
  else if MaximumMTU <? mtu then MaximumMTU
  else mtu.
Definition tun_MTU (t : TunAdapter) : Z := getSupportedMTU (tn_mtu t).
Definition tun_Name (t : TunAdapter) : string := default ""%string (tn_iface t ≫= td_Name).

Abbreviation T_ := (Act TunAdapter tunEffect).
Abbreviation tret a := (mret (M := Act TunAdapter tunEffect) a) (only parsing).
Abbreviation tgets f := (act_gets (S := TunAdapter) (E := tunEffect) f).
Abbreviation tmodify f := (act_modify (S := TunAdapter) (E := tunEffect) f).
Abbreviation temit e := (act_emit (S := TunAdapter) (E := tunEffect) e).

Definition tun_applyOption (opt : tunOption) (t : TunAdapter) : TunAdapter :=
  let c := tn_config t in
  match opt with
  | InterfaceName v => set_tn_config (MkTunConfig (tc_fd c) v (tc_mtu c)) t
  | InterfaceMTU v => set_tn_config (MkTunConfig (tc_fd c) (tc_name c) v) t
  | FileDescriptor v => set_tn_config (MkTunConfig v (tc_name c) (tc_mtu c)) t
  end.

Section start.
Context `{Netlink} (prefix : byte).

Definition setupAddress (addr : string) : T_ (option tunError) :=
  t ← tgets (fun t => t);
  if negb (ParseAddr addr) then tret (Some TunParse)
  else if negb (LinkByName (tun_Name t)) then tret (Some TunLink)
  else if negb (AddrAdd (tun_Name t) addr) then tret (Some TunAddress)
  else
    _ ← temit (TunLinkMTU (tun_Name t) (tn_mtu t));
    if negb (LinkSetMTU (tun_Name t) (tn_mtu t)) then tret (Some TunMTU)
    else if negb (LinkSetUp (tun_Name t)) then tret (Some TunUp)
    else tret None.

Definition tun_setup (ifname addr : string) (mtu : Z) : T_ (option tunError) :=
  let ifname := if String.eqb ifname "auto" then String (ascii_of_nat 0) EmptyString else ifname in
  match CreateTUN ifname mtu with
  | None => tret (Some TunCreate)
  | Some iface =>
      let mtu := match td_MTU iface with Some mtu => getSupportedMTU (u64 mtu) | None => 0 end in
      _ ← tmodify (set_tn_iface (Some iface) mtu);
      if String.eqb addr "" then tret None else setupAddress addr
  end.
Definition tun_setupFD : T_ (option tunError) := tret (Some TunFD).

(** [_start]; the arguments are what the node underneath answers. *)
Definition tun_start (addr : Address) (subnet : Subnet) (maxMTU : Z) : T_ (option tunError) :=
  t ← tgets (fun t => t);
  if tn_isOpen t then tret (Some TunStarted)
  else
    _ ← tmodify (set_tn_own addr subnet);
    let s := if Address_IsValid prefix addr then (ip_String addr ++ "/7")%string else ""%string in
    let c := tn_config t in
    if String.eqb (tc_name c) "none" || String.eqb (tc_name c) "dummy" then
      _ ← tmodify (fun t => set_tn_flags (tn_isOpen t) false t);
      _ ← temit (TunGo LoopQueue);
      tret None
    else
      let mtu := if maxMTU <? tc_mtu c then maxMTU else tc_mtu c in
      err ← (if 0 <? tc_fd c then tun_setupFD else tun_setup (tc_name c) s mtu);
      match err with
      | Some e => tret (Some e)
      | None =>
          t ← tgets (fun t => t);
          _ ← temit (TunSetMTU (tun_MTU t));
          _ ← tmodify (set_tn_flags true true);
          match tn_iface t with
          | None => act_panic
          | Some iface =>
              _ ← tmodify (set_tn_ch (Some (td_BatchSize iface)));
              _ ← temit (TunGo LoopQueue);
              _ ← temit (TunGo LoopRead);
              _ ← temit (TunGo LoopWrite);
              tret None
          end
      end.

(** [New] *)
Definition tun_New (opts : list tunOption) (addr : Address) (subnet : Subnet) (maxMTU : Z) : option (option tunError * TunAdapter * list tunEffect) :=
  tun_start addr subnet maxMTU
    (fold_left (fun t opt => tun_applyOption opt t) opts
      (MkTun (zero_array 16) (zero_array 8) 0 None false false (MkTunConfig 0 "" 0) None)).

Definition tun_stop : T_ unit :=
  _ ← tmodify (fun t => set_tn_flags false (tn_isEnabled t) t);
  t ← tgets (fun t => t);
  match tn_iface t with Some _ => temit TunClose | None => tret tt end.
End start.

(** ** From the interface to the node *)

(** What [iface.Read] gives: packets, or that some were too many, or an error. *)
Inductive ifaceRead := IfPackets (l : list (list byte)) | IfTooMany | IfError.

(** One round of [read]: the packets that are given to [rwc.Write], whose errors
    are only logged, and whether the loop goes on. *)
Definition read_round (r : ifaceRead) : list (list byte) * bool :=
  match r with
  | IfPackets l => (l, true)
  | IfTooMany => ([], true)
  | IfError => ([], false)
  end.

(** ** From the node to the interface *)

Definition TUN_OFFSET_BYTES : Z := 80.
Definition bufPoolSize : Z := TUN_OFFSET_BYTES + 65535.
Definition offset_bytes : nat := Z.to_nat TUN_OFFSET_BYTES.
Definition buf_size : nat := Z.to_nat bufPoolSize.

(** The goroutine of [queue] is about to get a buffer, in [rwc.Read] with one, or
    about to send the first bytes of one, or it has ended. *)
Inductive queueStage := QGet | QRead (b : nat) | QSend (b n : nat) | QExit.
(** That of [write] is at the top of its loop, takes packet [i] of [n], has
    received a slice, has copied it, or is about to write. *)
Inductive writeStage := WLen | WTake (n i : nat) | WCopy (n i b m : nat) | WPut (n i b : nat).

(** A buffer is named by a number, and a slice [p[:n]] of it by the two numbers;
    [tl_heap] has their bytes, and [tl_pool] those in [bufPool]. *)
Record tunLoops := MkTunLoops {
  tl_cap : option nat;
  tl_enabled : bool;
  tl_pool : list nat;
  tl_heap : gmap nat (list byte);
  tl_next : nat;
  tl_ch : list (nat * nat);
  tl_queue : queueStage;
  tl_write : writeStage;
  tl_bufs : list (list byte)
}.
Definition set_tl_pool f (s : tunLoops) : tunLoops := MkTunLoops (tl_cap s) (tl_enabled s) (f (tl_pool s)) (tl_heap s) (tl_next s) (tl_ch s) (tl_queue s) (tl_write s) (tl_bufs s).
Definition set_tl_buffer b bs (s : tunLoops) : tunLoops := MkTunLoops (tl_cap s) (tl_enabled s) (tl_pool s) (<[b := bs]> (tl_heap s)) (tl_next s) (tl_ch s) (tl_queue s) (tl_write s) (tl_bufs s).
Definition set_tl_bump (s : tunLoops) : tunLoops := MkTunLoops (tl_cap s) (tl_enabled s) (tl_pool s) (tl_heap s) (S (tl_next s)) (tl_ch s) (tl_queue s) (tl_write s) (tl_bufs s).
Definition set_tl_ch f (s : tunLoops) : tunLoops := MkTunLoops (tl_cap s) (tl_enabled s) (tl_pool s) (tl_heap s) (tl_next s) (f (tl_ch s)) (tl_queue s) (tl_write s) (tl_bufs s).
Definition set_tl_queue q (s : tunLoops) : tunLoops := MkTunLoops (tl_cap s) (tl_enabled s) (tl_pool s) (tl_heap s) (tl_next s) (tl_ch s) q (tl_write s) (tl_bufs s).
Definition set_tl_write w (s : tunLoops) : tunLoops := MkTunLoops (tl_cap s) (tl_enabled s) (tl_pool s) (tl_heap s) (tl_next s) (tl_ch s) (tl_queue s) w (tl_bufs s).
Definition set_tl_bufs l (s : tunLoops) : tunLoops := MkTunLoops (tl_cap s) (tl_enabled s) (tl_pool s) (tl_heap s) (tl_next s) (tl_ch s) (tl_queue s) (tl_write s) l.

(** The loops at their start. *)
Definition tun_loops (cap : option nat) (enabled : bool) : tunLoops :=
  MkTunLoops cap enabled [] ∅ 0 [] QGet WLen (replicate (default 0%nat cap) (replicate buf_size Byte.x00)).

(** What happens next: [bufPool.Get] finds a buffer or makes one, and may lose
    any; [rwc.Read] gives a packet or an error; [queue] sends; [write] looks at
    the channel, receives, copies, returns the buffer, and writes. The device may
    change the slices that it is given, but for their number and the room that
    each has for a header. *)
Inductive tlEvent :=
| TlGet (b : option nat)
| TlLose (b : nat)
| TlRead (r : option (list byte))
| TlSend
| TlLen
| TlReceive
| TlCopy
| TlPut
| TlWrite (bufs : list (list byte)).

(** A goroutine that cannot take the step, a panic, or the next state with what is
    given to the device. *)
Inductive tlResult := TlBlocked | TlPanic | TlNext (s : tunLoops) (out : option (list (list byte))).

(** [queue] *)
Definition queue_get (from : option nat) (s : tunLoops) : tlResult :=
  match tl_queue s, from with
  | QGet, Some b =>
      if bool_decide (b ∈ tl_pool s) then TlNext (set_tl_queue (QRead b) (set_tl_pool (filter (fun x => x <> b)) s)) None
      else TlBlocked
  | QGet, None =>
      let b := tl_next s in
      TlNext (set_tl_queue (QRead b) (set_tl_bump (set_tl_buffer b (replicate buf_size Byte.x00) s))) None
  | _, _ => TlBlocked
  end.
Definition queue_read (r : option (list byte)) (s : tunLoops) : tlResult :=
  match tl_queue s, r with
  | QRead b, None => TlNext (set_tl_queue QExit s) None
  | QRead b, Some packet =>
      let packet := take buf_size packet in
      let p := packet ++ drop (length packet) (default [] (tl_heap s !! b)) in
      TlNext (set_tl_queue (QSend b (length packet)) (set_tl_buffer b p s)) None
  | _, _ => TlBlocked
  end.
Definition queue_send (s : tunLoops) : tlResult :=
  match tl_queue s, tl_cap s with
  | QSend b n, None => TlNext (set_tl_queue QGet s) None
  | QSend b n, Some cap =>
      if (length (tl_ch s) <? cap)%nat then TlNext (set_tl_queue QGet (set_tl_ch (fun ch => ch ++ [(b, n)]) s)) None
      else TlBlocked
  | _, _ => TlBlocked
  end.

(** [write] *)
Definition write_len (s : tunLoops) : tlResult :=
  match tl_write s with
  | WLen =>
      let n := length (tl_ch s) in
      let n := if (n =? 0)%nat then 1%nat else n in
      TlNext (set_tl_write (WTake n 0) s) None
  | _ => TlBlocked
  end.
Definition write_receive (s : tunLoops) : tlResult :=
  match tl_write s, tl_ch s with
  | WTake n i, (b, m) :: ch =>
      if (i <? n)%nat then TlNext (set_tl_write (WCopy n i b m) (set_tl_ch (fun _ => ch) s)) None
      else TlBlocked
  | _, _ => TlBlocked
  end.
Definition write_copy (s : tunLoops) : tlResult :=
  match tl_write s with
  | WCopy n i b m =>
      match tl_bufs s !! i with
      | None => TlPanic
      | Some buf =>
          let msg := take m (default [] (tl_heap s !! b)) in
          TlNext (set_tl_write (WPut n i b) (set_tl_bufs (<[i := take offset_bytes buf ++ msg]> (tl_bufs s)) s)) None
      end
  | _ => TlBlocked
  end.
Definition write_put (s : tunLoops) : tlResult :=
  match tl_write s with
  | WPut n i b => TlNext (set_tl_write (WTake n (i + 1)) (set_tl_pool (fun p => b :: p) s)) None
  | _ => TlBlocked
  end.
Definition write_batch (bufs : list (list byte)) (s : tunLoops) : tlResult :=
  match tl_write s with
  | WTake n i =>
      if (i <? n)%nat then TlBlocked
      else if negb (tl_enabled s) then TlNext (set_tl_write WLen s) None
      else if (length (tl_bufs s) <? n)%nat then TlPanic
      else if negb (length bufs =? n)%nat || negb (forallb (fun buf => (offset_bytes <=? length buf)%nat) bufs) then TlBlocked
      else TlNext (set_tl_write WLen (set_tl_bufs (bufs ++ drop n (tl_bufs s)) s)) (Some (map (drop offset_bytes) (take n (tl_bufs s))))
  | _ => TlBlocked
  end.

Definition tl_step (ev : tlEvent) (s : tunLoops) : tlResult :=
  match ev with
  | TlGet from => queue_get from s
  | TlLose b => TlNext (set_tl_pool (filter (fun x => x <> b)) s) None
  | TlRead r => queue_read r s
  | TlSend => queue_send s
  | TlLen => write_len s
  | TlReceive => write_receive s
  | TlCopy => write_copy s
  | TlPut => write_put s
  | TlWrite bufs => write_batch bufs s
  end.

(** A run: the batches that are given to the device. *)
Inductive tl_run : tunLoops -> list tlEvent -> tunLoops -> list (list (list byte)) -> Prop :=
| tl_run_nil s : tl_run s [] s []
| tl_run_step s ev s1 out evs s' outs :
    tl_step ev s = TlNext s1 out -> tl_run s1 evs s' outs -> tl_run s (ev :: evs) s' (match out with Some l => l :: outs | None => outs end).
