(* ===== verification/TunSafety.v ===== *)
(** * Properties of the TUN adapter

    Packets reach the interface in order, whatever becomes of the shared buffers,
    and the MTU of the interface fits what the layers below can send. *)

From Stdlib Require Import String.
From S2P Require Import Prelude Crypto Binary Wire Messages RouterState Core PacketConn PacketConnSafety Box SessionInit Session SessionManager SessionSteps EncConn Address KeyStore Tun.

(** ** Buffers and who holds them *)

Definition queue_holds (s : tunLoops) : list nat :=
  match tl_queue s with QRead b | QSend b _ => [b] | _ => [] end.
Definition write_holds (s : tunLoops) : list nat :=
  match tl_write s with WCopy _ _ b _ | WPut _ _ b => [b] | _ => [] end.
Definition holders (s : tunLoops) : list nat := tl_pool s ++ map fst (tl_ch s) ++ queue_holds s ++ write_holds s.

Definition slice (h : gmap nat (list byte)) (x : nat * nat) : list byte := take (snd x) (default [] (h !! fst x)).

(** The packets that were read and not yet written, from the oldest on. *)
Definition in_queue (s : tunLoops) : list (list byte) := match tl_queue s with QSend b n => [slice (tl_heap s) (b, n)] | _ => [] end.
Definition in_batch (s : tunLoops) : list (list byte) :=
  match tl_write s with
  | WLen => []
  | WTake _ i => map (drop offset_bytes) (take i (tl_bufs s))
  | WCopy _ i b m => map (drop offset_bytes) (take i (tl_bufs s)) ++ [slice (tl_heap s) (b, m)]
  | WPut _ i _ => map (drop offset_bytes) (take (S i) (tl_bufs s))
  end.
Definition ahead (s : tunLoops) : list (list byte) := in_batch s ++ map (slice (tl_heap s)) (tl_ch s).
Definition pending (s : tunLoops) : list (list byte) := ahead s ++ in_queue s.

Definition tun_reads (evs : list tlEvent) : list (list byte) :=
  omap (fun ev => match ev with TlRead (Some p) => Some (take buf_size p) | _ => None end) evs.

(** The writer takes no more packets than there are, but for the first. *)
Definition write_ok (cap : nat) (s : tunLoops) : Prop :=
  match tl_write s with
  | WLen => True
  | WTake n i => (1 <= n <= cap)%nat /\ (i <= n)%nat /\ ((n - i <= length (tl_ch s))%nat \/ (n = 1%nat /\ i = 0%nat))
  | WCopy n i _ _ | WPut n i _ => (i < n <= cap)%nat /\ (n <= S i + length (tl_ch s))%nat
  end.

Record tl_inv (cap : nat) (s : tunLoops) : Prop := {
  tl_inv_cap : tl_cap s = Some cap /\ tl_enabled s = true /\ (1 <= cap)%nat;
  tl_inv_bufs : length (tl_bufs s) = cap /\ Forall (fun buf => (offset_bytes <= length buf)%nat) (tl_bufs s);
  tl_inv_ch : (length (tl_ch s) <= cap)%nat;
  tl_inv_nodup : NoDup (holders s);
  tl_inv_fresh : Forall (fun b => (b < tl_next s)%nat /\ exists bs, tl_heap s !! b = Some bs /\ length bs = buf_size) (holders s);
  tl_inv_write : write_ok cap s
}.

Lemma tun_loops_inv cap : (1 <= cap)%nat -> tl_inv cap (tun_loops (Some cap) true).
Proof.
  intros Hc. split; cbn; [done| |lia|constructor|constructor|done]. split; [by rewrite length_replicate|].
  apply Forall_forall. intros x (-> & _)%elem_of_replicate. rewrite length_replicate. unfold offset_bytes, buf_size, bufPoolSize, TUN_OFFSET_BYTES. lia.
Qed.

(** A buffer that nobody else holds can be written to. *)
Lemma slice_insert h b bs l : b ∉ map fst l -> map (slice (<[b := bs]> h)) l = map (slice h) l.
Proof.
  induction l as [|[b' n] l IH]; [done|]. cbn [map]. intros [Hne Hn]%not_elem_of_cons. rewrite (IH Hn). f_equal. unfold slice. cbn in *. by rewrite lookup_insert_ne.
Qed.
Lemma ahead_buffer b bs s : b ∉ map fst (tl_ch s) -> b ∉ write_holds s -> ahead (set_tl_buffer b bs s) = ahead s.
Proof.
  intros Hch Hw. unfold ahead, in_batch, write_holds in *. cbn [set_tl_buffer tl_heap tl_ch tl_write tl_bufs]. rewrite slice_insert by done. f_equal.
  destruct (tl_write s); try done. unfold slice. cbn [fst snd]. rewrite lookup_insert_ne; [done|set_solver].
Qed.

Lemma holders_keep (s s' : tunLoops) : tl_heap s' = tl_heap s -> tl_next s' = tl_next s -> (exists l, holders s ≡ₚ l ++ holders s') ->
  NoDup (holders s) -> Forall (fun b => (b < tl_next s)%nat /\ exists bs, tl_heap s !! b = Some bs /\ length bs = buf_size) (holders s) ->
  NoDup (holders s') /\ Forall (fun b => (b < tl_next s')%nat /\ exists bs, tl_heap s' !! b = Some bs /\ length bs = buf_size) (holders s').
Proof.
  intros -> -> (l & Hl) Hn Hf. rewrite Hl in Hn. apply NoDup_app in Hn as (_ & _ & Hn). split; [done|].
  rewrite Hl in Hf. by apply Forall_app in Hf as [_ Hf].
Qed.

(** ** The goroutine [queue] *)

Definition step_spec (cap : nat) (ev : tlEvent) (s : tunLoops) (r : tlResult) : Prop :=
  match r with
  | TlBlocked => True
  | TlPanic => False
  | TlNext s' out => tl_inv cap s' /\ pending s ++ tun_reads [ev] = default [] out ++ pending s' /\
      forall l, out = Some l -> (1 <= length l <= cap)%nat
  end.

Lemma filter_pool (b : nat) (pool rest : list nat) : b ∈ pool -> NoDup (pool ++ rest) -> pool ++ rest ≡ₚ b :: filter (fun x => x <> b) pool ++ rest.
Proof.
  intros Hin Hn. apply NoDup_app in Hn as (Hn & _ & _). change (b :: filter _ pool ++ rest) with ((b :: filter (fun x => x <> b) pool) ++ rest). f_equiv.
  apply NoDup_Permutation; [done| |].
  - constructor; [rewrite list_elem_of_filter; tauto|by apply NoDup_filter].
  - intros x. rewrite elem_of_cons, list_elem_of_filter. destruct (decide (x = b)) as [->|]; tauto.
Qed.

Lemma queue_get_ok cap from s : tl_inv cap s -> step_spec cap (TlGet from) s (queue_get from s).
Proof.
  intros [Hcap Hbufs Hch Hnd Hfr Hw]. unfold queue_get, step_spec. destruct (tl_queue s) eqn:Eq; try (by destruct from); destruct from as [b|].
  - case_bool_decide as Hin; [|done]. assert (exists l, holders s ≡ₚ l ++ holders (set_tl_queue (QRead b) (set_tl_pool (filter (fun x => x <> b)) s))) as Hh.
    { exists []. unfold holders, queue_holds, write_holds in *. rewrite Eq in Hnd |- *. cbn in Hnd |- *. rewrite (filter_pool b) by done. solve_Permutation. }
    apply holders_keep in Hh as [? ?]; [|done..]. split_and!; [by split|by rewrite app_nil_r; unfold pending, in_queue; rewrite Eq|done].
  - set (b := tl_next s). assert (b ∉ holders s) as Hnew by (intros Hin; rewrite Forall_forall in Hfr; destruct (Hfr b Hin); lia).
    assert (holders (set_tl_queue (QRead b) (set_tl_bump (set_tl_buffer b (replicate buf_size Byte.x00) s))) ≡ₚ b :: holders s) as Hh.
    { unfold holders, queue_holds, write_holds in *. rewrite Eq in *. cbn. by rewrite <- !Permutation_middle. }
    split_and!; [split; cbn; try done| |done].
    + rewrite Hh. by constructor.
    + rewrite Hh. constructor; [split; [cbn; lia|]; exists (replicate buf_size Byte.x00); by rewrite lookup_insert_eq, length_replicate|].
      eapply Forall_impl; [exact Hfr|]. intros x [Hx (bs & Hb & Hl)]. cbn. split; [lia|]. exists bs. rewrite lookup_insert_ne; [done|]. unfold b. lia.
    + unfold pending. change (ahead (set_tl_queue _ _)) with (ahead (set_tl_buffer b (replicate buf_size Byte.x00) s)).
      rewrite ahead_buffer by (intros Hin; apply Hnew; unfold holders; rewrite !elem_of_app; auto). unfold in_queue. rewrite Eq. cbn. by rewrite !app_nil_r.
Qed.

Lemma queue_read_ok cap r s : tl_inv cap s -> step_spec cap (TlRead r) s (queue_read r s).
Proof.
  intros [Hcap Hbufs Hch Hnd Hfr Hw]. unfold queue_read, step_spec. destruct (tl_queue s) as [|b| |] eqn:Eq; try (by destruct r); destruct r as [p|].
  - set (p' := take buf_size p). set (bs := p' ++ drop (length p') (default [] (tl_heap s !! b))). set (s' := set_tl_queue _ _).
    assert (holders s' = holders s) as Hh by (unfold holders, queue_holds, write_holds; by rewrite Eq).
    assert (b ∈ holders s) as Hb by (unfold holders, queue_holds; rewrite Eq, !elem_of_app; set_solver).
    rewrite Forall_forall in Hfr. pose proof (Hfr b Hb) as (Hlt & bs0 & Hbs0 & Hlen0).
    assert (length p' <= buf_size)%nat as Hp by (unfold p'; rewrite length_take; lia).
    split_and!; [split; try done| |done].
    + by rewrite Hh.
    + rewrite Hh. apply Forall_forall. intros x Hx. destruct (Hfr x Hx) as (Hxl & bx & Hbx & Hxlen). split; [done|]. cbn. destruct (decide (x = b)) as [->|Hne].
      * exists bs. rewrite lookup_insert_eq. split; [done|]. unfold bs. rewrite Hbs0. cbn. rewrite length_app, length_drop. lia.
      * exists bx. by rewrite lookup_insert_ne.
    + cbn [default]. unfold pending. change (ahead s') with (ahead (set_tl_buffer b bs s)).
      unfold holders, queue_holds in Hnd. rewrite Eq in Hnd. apply NoDup_app in Hnd as (_ & _ & Hnd). apply NoDup_app in Hnd as (_ & Hd & Hnd). cbn in Hnd. apply NoDup_cons in Hnd as [Hnw _].
      rewrite ahead_buffer; [|intros Hin; apply (Hd b Hin); set_solver|done]. unfold in_queue. rewrite Eq. cbn. rewrite lookup_insert_eq. cbn. unfold bs. rewrite take_app_length. by rewrite app_nil_r.
  - set (s' := set_tl_queue _ _). assert (exists l, holders s ≡ₚ l ++ holders s') as Hh.
    { exists [b]. unfold holders, queue_holds, write_holds. rewrite Eq. cbn. solve_Permutation. }
    apply holders_keep in Hh as [? ?]; [|done..]. split_and!; [by split|unfold pending, in_queue; rewrite Eq; cbn; by rewrite !app_nil_r|done].
Qed.

Lemma queue_send_ok cap s : tl_inv cap s -> step_spec cap TlSend s (queue_send s).
Proof.
  intros [Hcap Hbufs Hch Hnd Hfr Hw]. pose proof Hcap as (Ec & _ & _). unfold queue_send, step_spec. destruct (tl_queue s) as [| |b n|] eqn:Eq; rewrite ?Ec; try done.
  destruct (Nat.ltb_spec (length (tl_ch s)) cap); [|done]. set (s' := set_tl_queue _ _).
  assert (exists l, holders s ≡ₚ l ++ holders s') as Hh by (exists []; unfold holders, queue_holds, write_holds; rewrite Eq; cbn; rewrite map_app; cbn; solve_Permutation).
  apply holders_keep in Hh as [? ?]; [|done..]. split_and!; [split; try done| |done].
  - cbn. rewrite length_app. cbn. lia.
  - revert Hw. unfold write_ok. cbn. rewrite length_app. cbn. destruct (tl_write s); [done|intuition lia..].
  - unfold pending, ahead, in_queue. rewrite Eq. cbn [tl_queue set_tl_queue set_tl_ch tl_heap tl_ch tl_write tl_bufs s']. rewrite map_app. cbn. by rewrite !app_nil_r, app_assoc.
Qed.

Lemma lose_ok cap b s : tl_inv cap s -> step_spec cap (TlLose b) s (TlNext (set_tl_pool (filter (fun x => x <> b)) s) None).
Proof.
  intros [Hcap Hbufs Hch Hnd Hfr Hw]. unfold step_spec. split_and!; [split; try done| |done].
  - unfold holders in *. cbn. apply NoDup_app in Hnd as (H1 & H2 & H3). apply NoDup_app. split_and!; [by apply NoDup_filter| |done]. intros x [_ Hx]%list_elem_of_filter. by apply H2.
  - unfold holders in *. cbn. apply Forall_app in Hfr as [H1 H2]. apply Forall_app. split; [|done]. rewrite Forall_forall in *. intros x [_ Hx]%list_elem_of_filter. by apply H1.
  - by rewrite app_nil_r.
Qed.

(** ** The goroutine [write] *)

Lemma write_len_ok cap s : tl_inv cap s -> step_spec cap TlLen s (write_len s).
Proof.
  intros [Hcap Hbufs Hch Hnd Hfr Hw]. unfold write_len, step_spec. destruct (tl_write s) eqn:Ew; try done. set (s' := set_tl_write _ _).
  assert (holders s' = holders s) as Hh by (unfold holders, write_holds; by rewrite Ew).
  split_and!; [split; try done; rewrite ?Hh; try done| |done].
  - cbn. destruct (Nat.eqb_spec (length (tl_ch s)) 0); lia.
  - unfold pending, ahead, in_batch. rewrite Ew. cbn. by rewrite app_nil_r.
Qed.

Lemma write_receive_ok cap s : tl_inv cap s -> step_spec cap TlReceive s (write_receive s).
Proof.
  intros [Hcap Hbufs Hch Hnd Hfr Hw]. unfold write_receive, step_spec. destruct (tl_write s) as [|n i| |] eqn:Ew; try done. destruct (tl_ch s) as [|[b m] ch] eqn:Ec; [done|].
  destruct (Nat.ltb_spec i n); [|done]. set (s' := set_tl_write _ _).
  assert (exists l, holders s ≡ₚ l ++ holders s') as Hh by (exists []; unfold holders, write_holds; rewrite Ew, Ec; cbn; solve_Permutation).
  apply holders_keep in Hh as [? ?]; [|done..]. split_and!; [split; try done| |done].
  - cbn in *. lia.
  - unfold write_ok in *. rewrite Ew, Ec in Hw. cbn in *. lia.
  - unfold pending, ahead, in_batch. rewrite Ew, Ec. cbn. by rewrite app_nil_r, <- !app_assoc.
Qed.

Lemma write_copy_ok cap s : tl_inv cap s -> step_spec cap TlCopy s (write_copy s).
Proof.
  intros [Hcap Hbufs Hch Hnd Hfr Hw]. unfold write_copy, step_spec. destruct (tl_write s) as [| |n i b m|] eqn:Ew; try done. unfold write_ok in Hw. rewrite Ew in Hw.
  destruct Hbufs as [Hlen Hroom]. destruct (tl_bufs s !! i) as [buf|] eqn:Eb; [|apply lookup_ge_None in Eb; lia]. cbv zeta. set (s' := set_tl_write _ _).
  assert (holders s' = holders s) as Hh by (unfold holders, write_holds; by rewrite Ew).
  assert (length (take offset_bytes buf) = offset_bytes) as Hoff by (rewrite Forall_lookup in Hroom; pose proof (Hroom _ _ Eb) as Hx; cbn in Hx; by rewrite length_take_le).
  split_and!; [split; try done; rewrite ?Hh; try done| |done].
  - cbn. rewrite length_insert. split; [done|]. apply Forall_insert; [done|]. rewrite length_app. lia.
  - unfold pending, ahead, in_batch. rewrite Ew. cbn [tl_write tl_bufs tl_heap tl_ch set_tl_write set_tl_bufs s' default app].
    change (tun_reads [TlCopy]) with (@nil (list byte)). rewrite app_nil_r. do 3 f_equal.
    rewrite (take_S_r _ i (take offset_bytes buf ++ slice (tl_heap s) (b, m))) by (apply list_lookup_insert_eq; apply lookup_lt_Some in Eb; exact Eb).
    rewrite take_insert_ge by lia. rewrite map_app. cbn [map]. by rewrite drop_app_length'.
Qed.

Lemma write_put_ok cap s : tl_inv cap s -> step_spec cap TlPut s (write_put s).
Proof.
  intros [Hcap Hbufs Hch Hnd Hfr Hw]. unfold write_put, step_spec. destruct (tl_write s) as [| | |n i b] eqn:Ew; try done. set (s' := set_tl_write _ _).
  assert (exists l, holders s ≡ₚ l ++ holders s') as Hh by (exists []; unfold holders, write_holds; rewrite Ew; cbn; solve_Permutation).
  apply holders_keep in Hh as [? ?]; [|done..]. split_and!; [split; try done| |done].
  - unfold write_ok in *. rewrite Ew in Hw. cbn. lia.
  - unfold pending, ahead, in_batch. rewrite Ew. cbn [tl_write tl_bufs tl_heap tl_ch set_tl_write set_tl_pool s' default app]. rewrite Nat.add_1_r. by rewrite app_nil_r.
Qed.

Lemma write_batch_ok cap bufs s : tl_inv cap s -> step_spec cap (TlWrite bufs) s (write_batch bufs s).
Proof.
  intros [Hcap Hbufs Hch Hnd Hfr Hw]. unfold write_batch, step_spec. destruct (tl_write s) as [|n i| |] eqn:Ew; try done. unfold write_ok in Hw. rewrite Ew in Hw.
  destruct (Nat.ltb_spec i n); [done|]. destruct Hcap as (Hc & He & Hcap). rewrite He. cbn [negb]. destruct Hbufs as [Hlen Hroom].
  destruct (Nat.ltb_spec (length (tl_bufs s)) n); [lia|]. destruct (Nat.eqb_spec (length bufs) n) as [Hl|]; [|done]. cbn [negb orb].
  destruct (forallb _ bufs) eqn:Ef; [|done]. cbn [negb]. set (s' := set_tl_write _ _).
  assert (holders s' = holders s) as Hh by (unfold holders, write_holds; by rewrite Ew).
  assert (i = n) as -> by lia.
  split_and!; [split; rewrite ?Hh; try done| |].
  - cbn. split.
    + rewrite length_app, length_drop. lia.
    + apply Forall_app. split; [|by apply Forall_drop]. apply Forall_forall. intros x Hx. apply list_elem_of_In in Hx. rewrite forallb_forall in Ef. apply Ef in Hx. by apply Nat.leb_le in Hx.
  - unfold pending, ahead, in_batch. rewrite Ew. cbn. by rewrite app_nil_r, !app_assoc.
  - intros l [= <-]. rewrite length_map, length_take. lia.
Qed.

Lemma tl_step_ok cap ev s : tl_inv cap s -> step_spec cap ev s (tl_step ev s).
Proof.
  intros Hi. destruct ev; cbn [tl_step].
  - by apply queue_get_ok.
  - by apply lose_ok.
  - by apply queue_read_ok.
  - by apply queue_send_ok.
  - by apply write_len_ok.
  - by apply write_receive_ok.
  - by apply write_copy_ok.
  - by apply write_put_ok.
  - by apply write_batch_ok.
Qed.

(** ** Runs *)

Lemma tl_run_ok cap s evs s' outs : tl_run s evs s' outs -> tl_inv cap s ->
  tl_inv cap s' /\ pending s ++ tun_reads evs = concat outs ++ pending s' /\ Forall (fun l => (1 <= length l <= cap)%nat) outs.
Proof.
  induction 1 as [s|s ev s1 out evs s' outs Hstep Hrun IH]; intros Hi; [split_and!; [done|by rewrite app_nil_r|constructor]|].
  pose proof (tl_step_ok cap ev s Hi) as Hs. rewrite Hstep in Hs. destruct Hs as (Hi1 & Hp & Hout). destruct (IH Hi1) as (Hi' & Hp' & Hf). split_and!; [done| |].
  - change (tun_reads (ev :: evs)) with (tun_reads ([ev] ++ evs)). unfold tun_reads. rewrite omap_app. fold (tun_reads [ev]) (tun_reads evs).
    rewrite app_assoc, Hp, <- app_assoc, Hp'. destruct out; [cbn; by rewrite <- app_assoc|done].
  - destruct out; [constructor; auto|done].
Qed.

(** The steps that are left when nothing more is read. *)
Definition work (s : tunLoops) : nat :=
  (match tl_queue s with QSend _ _ => 7 | _ => 0 end + 6 * length (tl_ch s) +
   match tl_write s with WLen => 1 | WTake _ i => 2 * i | WCopy _ i _ _ => 2 * i + 4 | WPut _ i _ => 2 * i + 3 end)%nat.

Lemma work_left cap s : tl_inv cap s -> pending s = [] \/
  exists ev s' out, tun_reads [ev] = [] /\ tl_step ev s = TlNext s' out /\ (work s' < work s)%nat.
Proof.
  intros [Hcap Hbufs Hch Hnd Hfr Hw]. destruct Hcap as (Hc & He & Hcap). unfold write_ok in Hw.
  assert (tl_ch s = [] -> (exists b n, tl_queue s = QSend b n) -> exists ev s' out, tun_reads [ev] = [] /\ tl_step ev s = TlNext s' out /\ (work s' < work s)%nat) as Hsend.
  { intros Ec (b & n & Eq). exists TlSend. cbn [tl_step]. unfold queue_send. rewrite Eq, Hc, Ec. cbn [length]. destruct (Nat.ltb_spec 0 cap); [|lia].
    do 2 eexists. split_and!; [done..|]. unfold work. rewrite Eq, Ec. cbn. rewrite Ec. cbn. destruct (tl_write s); lia. }
  assert (tl_ch s = [] -> in_batch s = [] -> pending s = [] \/ exists b n, tl_queue s = QSend b n) as Hidle.
  { intros Ec Eb. unfold pending, ahead, in_queue. rewrite Ec, Eb. destruct (tl_queue s); eauto. }
  destruct (tl_write s) as [|n i|n i b m|n i b] eqn:Ew.
  - destruct (tl_ch s) as [|x ch] eqn:Ec; [destruct Hidle as [|?]; auto; unfold in_batch; by rewrite Ew|]. right. exists TlLen. cbn [tl_step]. unfold write_len. rewrite Ew.
    do 2 eexists. split_and!; [done..|]. unfold work. rewrite Ew. cbn. lia.
  - destruct (decide (i = n)) as [->|Hne].
    + right. exists (TlWrite (take n (tl_bufs s))). cbn [tl_step]. unfold write_batch. rewrite Ew, He, Nat.ltb_irrefl. cbn [negb]. destruct Hbufs as [Hl Hr].
      destruct (Nat.ltb_spec (length (tl_bufs s)) n); [lia|]. rewrite length_take_le, Nat.eqb_refl by lia. cbn [negb orb].
      assert (forallb (fun buf => (offset_bytes <=? length buf)%nat) (take n (tl_bufs s)) = true) as ->.
      { apply forallb_forall. intros x Hx%list_elem_of_In. apply Nat.leb_le. apply (Forall_take _ n) in Hr. rewrite Forall_forall in Hr. by apply Hr. }
      cbn [negb]. do 2 eexists. split_and!; [done..|]. unfold work. rewrite Ew. cbn. lia.
    + destruct (tl_ch s) as [|[b m] ch] eqn:Ec.
      * assert (i = 0%nat) as -> by (cbn in Hw; lia). destruct Hidle as [|?]; auto. unfold in_batch. by rewrite Ew.
      * right. exists TlReceive. cbn [tl_step]. unfold write_receive. rewrite Ew, Ec. destruct (Nat.ltb_spec i n); [|lia]. do 2 eexists. split_and!; [done..|]. unfold work. rewrite Ew, Ec. cbn. lia.
  - right. exists TlCopy. cbn [tl_step]. unfold write_copy. rewrite Ew. destruct (tl_bufs s !! i) eqn:Eb; [|apply lookup_ge_None in Eb; lia].
    do 2 eexists. split_and!; [done..|]. unfold work. rewrite Ew. cbn. lia.
  - right. exists TlPut. cbn [tl_step]. unfold write_put. rewrite Ew. do 2 eexists. split_and!; [done..|]. unfold work. rewrite Ew. cbn. lia.
Qed.

Lemma drains cap s : tl_inv cap s -> exists evs s' outs, tl_run s evs s' outs /\ tun_reads evs = [] /\ pending s' = [].
Proof.
  induction s as [s IH] using (well_founded_induction (Wf_nat.well_founded_ltof _ work)). intros Hi.
  destruct (work_left cap s Hi) as [Hp|(ev & s1 & out & Hr & Hstep & Hlt)]; [exists [], s, []; split_and!; [constructor|done|done]|].
  pose proof (tl_step_ok cap ev s Hi) as Hs. rewrite Hstep in Hs. destruct (IH s1 Hlt (proj1 Hs)) as (evs & s' & outs & Hrun & Hr' & Hp).
  exists (ev :: evs), s'. eexists. split_and!; [by econstructor| |done].
  change (ev :: evs) with ([ev] ++ evs). unfold tun_reads in *. by rewrite omap_app, Hr, Hr'.
Qed.

Lemma pending_length cap s : tl_inv cap s -> (length (pending s) <= 2 * cap + 1)%nat.
Proof.
  intros [Hcap [Hlen _] Hch _ _ Hw]. unfold pending, ahead. rewrite !length_app, length_map. unfold write_ok in Hw.
  assert (length (in_queue s) <= 1)%nat by (unfold in_queue; destruct (tl_queue s); cbn; lia).
  assert (length (in_batch s) <= cap)%nat; [|lia]. unfold in_batch. destruct (tl_write s); rewrite ?length_app, ?length_map, ?length_take; cbn [length]; lia.
Qed.

(** C36: packets on their way to the interface. Whatever the order in which the two
    goroutines run, whichever buffers the pool gives and loses, and whatever the
    device makes of the slices that it is given, neither goroutine panics, and what
    has been given to the device, followed by at most twice the capacity of the
    channel and one more, is exactly what was read from the node, in its order and
    unchanged, although buffers are used again; each batch has a packet, and no more
    than the device takes. When nothing more is read, the goroutines can go on until
    all of it is written. *)
Theorem tun_keeps_order cap evs s outs : (1 <= cap)%nat -> tl_run (tun_loops (Some cap) true) evs s outs ->
  tun_reads evs = concat outs ++ pending s /\ (length (pending s) <= 2 * cap + 1)%nat /\ Forall (fun l => (1 <= length l <= cap)%nat) outs /\
  (forall ev, tl_step ev s <> TlPanic) /\
  exists evs' s' outs', tl_run s evs' s' outs' /\ tun_reads evs' = [] /\ pending s' = [] /\ concat outs' = pending s.
Proof.
  intros Hc Hrun. destruct (tl_run_ok cap _ _ _ _ Hrun (tun_loops_inv cap Hc)) as (Hi & Hp & Hf). split_and!; [done|by eapply pending_length|done| |].
  - intros ev E. pose proof (tl_step_ok cap ev s Hi) as Hs. by rewrite E in Hs.
  - destruct (drains cap s Hi) as (evs' & s' & outs' & Hrun' & Hr & Hp'). exists evs', s', outs'. split_and!; [done..|].
    destruct (tl_run_ok cap _ _ _ _ Hrun' Hi) as (_ & Hq & _). by rewrite Hr, Hp', !app_nil_r in Hq.
Qed.

(** ** The MTU, from the interface down to the frames *)

Definition link_mtus (es : list tunEffect) : list Z := omap (fun e => match e with TunLinkMTU _ m => Some m | _ => None end) es.
Definition node_mtus (es : list tunEffect) : list Z := omap (fun e => match e with TunSetMTU m => Some m | _ => None end) es.

Lemma supported_range mtu : 1280 <= getSupportedMTU mtu <= 65535.
Proof. unfold getSupportedMTU, MaximumMTU. repeat case_match; lia. Qed.
Lemma supported_id mtu : 1280 <= mtu <= 65535 -> getSupportedMTU mtu = mtu.
Proof. unfold getSupportedMTU, MaximumMTU. repeat case_match; lia. Qed.

Section mtu.
Context `{Netlink}.

Lemma setupAddress_ok addr t t' es : setupAddress addr t = Some (None, t', es) -> t' = t /\ es = [TunLinkMTU (tun_Name t) (tn_mtu t)].
Proof.
  unfold setupAddress, mbind, act_bind, act_gets, act_emit. cbn. destruct (ParseAddr addr); cbn; [|done]. destruct (LinkByName _); cbn; [|done]. destruct (AddrAdd _ _); cbn; [|done].
  destruct (LinkSetMTU _ _); cbn; [|done]. destruct (LinkSetUp _); cbn; [|done]. by intros [= <- <-].
Qed.

Lemma tun_setup_ok ifname addr mtu t t' es : tun_setup ifname addr mtu t = Some (None, t', es) ->
  exists d, t' = set_tn_iface (Some d) (match td_MTU d with Some m => getSupportedMTU (u64 m) | None => 0 end) t /\ Forall (fun m => m = tn_mtu t') (link_mtus es) /\ node_mtus es = [].
Proof.
  unfold tun_setup. destruct (CreateTUN _ mtu) as [d|]; [|done]. unfold mbind, act_bind, act_modify. cbn. destruct (String.eqb addr ""); cbn.
  - intros [= <- <-]. exists d. by split_and!.
  - destruct (setupAddress _ _) as [[[e t1] es1]|] eqn:E; [|done]. intros [= -> <- <-]. apply setupAddress_ok in E as [-> ->]. exists d. cbn. split_and!; [done|by repeat constructor|done].
Qed.

Lemma tun_start_ok prefix addr subnet maxMTU t t' es : tn_isOpen t = false -> tun_start prefix addr subnet maxMTU t = Some (None, t', es) -> tn_isOpen t' = true ->
  node_mtus es = [tun_MTU t'] /\ Forall (fun m => m = tun_MTU t' \/ (m = 0 /\ (tn_iface t' ≫= td_MTU) = None)) (link_mtus es).
Proof.
  intros Ho. unfold tun_start, mbind, act_bind, act_gets, act_modify, act_emit. cbn. rewrite Ho. destruct (_ || _); cbn.
  { intros [= <- <-]. cbn. by rewrite Ho. }
  destruct (0 <? tc_fd (tn_config t)); [done|]. destruct (tun_setup _ _ _ _) as [[[err t1] es1]|] eqn:E; [|done]. destruct err as [e|]; [done|].
  apply tun_setup_ok in E as (d & -> & Hl & Hn). cbn in *. intros [= <- <-] _. unfold node_mtus, link_mtus in *. rewrite !omap_app. cbn. unfold node_mtus in Hn. rewrite Hn. split; [done|].
  rewrite app_nil_r. eapply Forall_impl; [exact Hl|]. intros m ->. unfold tun_MTU. cbn. destruct (td_MTU d); [left|by right]. by rewrite (supported_id (getSupportedMTU _)) by apply supported_range.
Qed.
End mtu.

(** What the layers below answer, for the size of messages that the node sets. *)
Lemma mtu_values c : peerMaxMessageSize (core_config c) = 65535 * 2 -> MTU c = 130993 /\ enc_MTU (MTU c) = 130914 /\ core_MTU (enc_MTU (MTU c)) = 65535.
Proof. intros Hc. rewrite MTU_eq by (rewrite Hc; unfold overhead; lia). rewrite Hc. by vm_compute. Qed.

Lemma sealed_length `{Ed25519} `{NaclBox} `{!NaclBoxLaws} info msg : (length (sealed_traffic info msg) <= 79 + length msg)%nat.
Proof.
  unfold sealed_traffic, boxSeal. rewrite length_app, box_seal_length, length_app, length_array. pose proof (length_traffic_header (ss_localKeySeq info) (ss_remoteKeySeq info) (ss_sendNonce info)).
  unfold boxOverhead, boxPubSize. lia.
Qed.

(** C37: the size of packets. Once the adapter is started, its MTU is between 1280
    and 65535, the node is given the same, and so is the interface, unless the device
    does not tell its own. A packet of that size from the interface then passes every
    limit on its way out: the one of the key store, that of the encrypted connection
    with the type in front of it, and, once a session has sealed it with its header,
    the key and the overhead of the box, that of the network, which does not cut it. *)
Theorem packets_fit `{Netlink} `{Ed25519} `{NaclBox} `{!NaclBoxLaws} prefix opts addr subnet c t es :
  peerMaxMessageSize (core_config c) = 65535 * 2 ->
  tun_New prefix opts addr subnet (core_MTU (enc_MTU (MTU c))) = Some (None, t, es) -> tn_isOpen t = true ->
  1280 <= tun_MTU t <= 65535 /\ node_mtus es = [tun_MTU t] /\
  Forall (fun m => m = tun_MTU t \/ (m = 0 /\ (tn_iface t ≫= td_MTU) = None)) (link_mtus es) /\
  (forall ks, exists ks', SetMTU (core_MTU (enc_MTU (MTU c))) (tun_MTU t) ks = Some (tt, ks', []) /\ ks_mtu ks' = tun_MTU t) /\
  forall p, Z.of_nat (length p) <= tun_MTU t ->
    (forall m pooled dest, nm_closed m = false -> length dest = edPubSize ->
       enc_WriteTo m (MTU c) pooled (core_frame p) (Some dest) = Ret (Z.of_nat (length p) + 1, MgrWrite (array_of edPubSize dest) (Some (core_frame p)))) /\
    (forall supply id s s' es' dest bs pool, doSend supply id (core_frame p) s = Some (tt, s', es') -> SWriteTo dest bs ∈ es' ->
       exists tr, WriteTo c false pool bs (Some (arr_list dest)) = Ret (Z.of_nat (length bs), tr) /\ tr_payload tr = bs).
Proof.
  intros Hc Hnew Hopen. destruct (mtu_values c Hc) as (Emtu & Eenc & Ecore). rewrite Ecore in *. unfold tun_New in Hnew.
  assert (forall opts t0, tn_isOpen (fold_left (fun t opt => tun_applyOption opt t) opts t0) = tn_isOpen t0) as Hopts.
  { clear. induction opts as [|o opts IH]; intros t0; [done|]. cbn [fold_left]. rewrite IH. by destruct o. }
  apply tun_start_ok in Hnew as [Hn Hl]; [|by rewrite Hopts|done]. pose proof (supported_range (tn_mtu t)) as Hr. fold (tun_MTU t) in Hr. split_and!; [lia|lia|done|done| |].
  - intros ks. eexists. split; [done|]. cbn. repeat case_match; lia.
  - intros p Hp. split.
    + intros m pooled dest Hm Hd. unfold enc_WriteTo. rewrite Hm, Hd, Eenc. cbn [Nat.eqb negb]. cbn [core_frame length] in *. rewrite u64_small by (unfold is_u64; lia).
      destruct (Z.ltb_spec 130914 (Z.of_nat (S (length p)))); [lia|]. unfold allocBytes. cbn. rewrite andb_false_r. do 3 f_equal. lia.
    + intros supply id s s' es' dest bs pool Hsend Hin. destruct (doSend_eq supply id (core_frame p) s) as (s1 & es1 & E & _ & _ & _ & Hw & _). rewrite E in Hsend. injection Hsend as <- <-.
      assert ((dest, bs) ∈ wrote es1) as Hin' by (apply list_elem_of_omap; by exists (SWriteTo dest bs)). rewrite Hw in Hin'. apply list_elem_of_singleton in Hin' as [= -> ->].
      set (info := after_send _ _ _) in *. pose proof (sealed_length info (core_frame p)) as Hlen. cbn [core_frame length] in Hlen. set (bs := sealed_traffic info (core_frame p)) in *.
      pose proof (write_to_spec c false pool bs (Some (arr_list (ss_ed (s_info s))))) as Hspec. destruct (WriteTo _ _ _ _ _) as [[n tr]|e|].
      * destruct Hspec as (_ & _ & -> & _ & Hp' & _); [rewrite Hc; unfold overhead; lia|lia|]. by exists tr.
      * exfalso. destruct Hspec as [[_ ?]|[(_ & _ & Hx)|(_ & _ & Hx)]]; [rewrite Hc; unfold overhead; lia|lia|done|by apply (Hx _ eq_refl); rewrite length_array|lia].
      * exfalso. apply Hspec; [rewrite Hc; unfold overhead; lia|lia].
Qed.

(** ** Concrete inputs *)

Fixpoint tl_exec (evs : list tlEvent) (s : tunLoops) : option (tunLoops * list (list (list byte))) :=
  match evs with
  | [] => Some (s, [])
  | ev :: evs =>
      match tl_step ev s with
      | TlNext s1 out =>
          '(s', outs) ← tl_exec evs s1;
          Some (s', match out with Some l => l :: outs | None => outs end)
      | _ => None
      end
  end.
Lemma tl_exec_run evs : forall s s' outs, tl_exec evs s = Some (s', outs) -> tl_run s evs s' outs.
Proof.
  induction evs as [|ev evs IH]; intros s s' outs; cbn [tl_exec]; [intros [= <- <-]; constructor|]. destruct (tl_step ev s) as [| |s1 out] eqn:E; [done..|].
  destruct (tl_exec evs s1) as [[s2 outs2]|] eqn:E2; [|done]. intros [= <- <-]. econstructor; [exact E|by apply IH].
Qed.

Definition w_events : list tlEvent :=
  [TlGet None; TlRead (Some [Byte.x61; Byte.x62]); TlSend; TlLen; TlReceive; TlGet None; TlRead (Some [Byte.x63]); TlCopy; TlPut; TlWrite [replicate 90 Byte.xff]; TlSend; TlGet (Some 0%nat)].

Lemma tun_keeps_order_witness : exists s, tl_run (tun_loops (Some 1%nat) true) w_events s [[[Byte.x61; Byte.x62]]] /\ pending s = [[Byte.x63]].
Proof.
  destruct (tl_exec w_events (tun_loops (Some 1%nat) true)) as [[s outs]|] eqn:E.
  - assert (outs = [[[Byte.x61; Byte.x62]]]) as Ho.
    { assert (option_map snd (tl_exec w_events (tun_loops (Some 1%nat) true)) = Some [[[Byte.x61; Byte.x62]]]) as Ho by (vm_compute; reflexivity). rewrite E in Ho. injection Ho as Ho. exact Ho. }
    subst outs. apply tl_exec_run in E. exists s. split; [exact E|]. destruct (tun_keeps_order 1 w_events s _ (le_n 1) E) as (Hr & _). injection Hr as Hr. symmetry. exact Hr.
  - exfalso. assert (match tl_exec w_events (tun_loops (Some 1%nat) true) with Some _ => true | None => false end = true) as Hs by (vm_compute; reflexivity). rewrite E in Hs. discriminate.
Defined.

Definition w_netlink : Netlink := {|
  CreateTUN := fun name mtu => Some (MkDevice (Some "tun0"%string) (Some mtu) 128);
  ip_String := fun _ => "200::1"%string;
  ParseAddr := fun _ => true;
  LinkByName := fun _ => true;
  AddrAdd := fun _ _ => true;
  LinkSetMTU := fun _ _ => true;
  LinkSetUp := fun _ => true
|}.
Definition w_core : core := @core_init seed_ed25519 (zero_array 64) [WithPeerMaxMessageSize (65535 * 2)].
Definition w_tun : option (option tunError * TunAdapter * list tunEffect) :=
  @tun_New w_netlink Byte.x02 [InterfaceName "auto"; InterfaceMTU 65535] (array_of 16 [Byte.x02]) (zero_array 8) (core_MTU (enc_MTU (MTU w_core))).

Lemma packets_fit_witness : exists t es, w_tun = Some (None, t, es) /\ node_mtus es = [65535] /\ link_mtus es = [65535] /\
  enc_WriteTo netManager_init (MTU w_core) false (core_frame [Byte.x60]) (Some (replicate 32 Byte.x01)) = Ret (2, MgrWrite (array_of 32 (replicate 32 Byte.x01)) (Some [Byte.x01; Byte.x60])).
Proof.
  destruct w_tun as [[[[e|] t] es]|] eqn:E; [exfalso; revert E; vm_compute; discriminate| |exfalso; revert E; vm_compute; discriminate]. exists t, es. split; [reflexivity|].
  assert (tn_isOpen t = true /\ tun_MTU t = 65535 /\ link_mtus es = [65535]) as (Ho & Hm & Hl) by (vm_compute in E; injection E as <- <-; vm_compute; repeat split; reflexivity).
  destruct (@packets_fit w_netlink seed_ed25519 toy_box toy_box_laws Byte.x02 [InterfaceName "auto"; InterfaceMTU 65535] (array_of 16 [Byte.x02]) (zero_array 8) w_core t es ltac:(vm_compute; reflexivity) E Ho) as (_ & Hn & _ & _ & Hp). rewrite Hm in Hn, Hp.
  split; [exact Hn|]. split; [exact Hl|]. exact (proj1 (Hp [Byte.x60] ltac:(vm_compute; discriminate)) netManager_init false (replicate 32 Byte.x01) eq_refl eq_refl).
Defined.
