(* ===== verification/Api.v ===== *)
(** * What a node tells about itself

    [ironwood/network/debug.go], [ironwood/encrypted/debug.go] and
    [src/core/api.go]: snapshots of the router, the registry of peers, the sessions
    and the links. Which connection a peer has, and its state, are in other records
    of the model; they are arguments. *)

From Stdlib Require Import String.
From S2P Require Import Prelude Crypto Messages Bloom RouterState RouterCost Core Peers Link SessionManager Session Address Handshake LinkOptions Links Listeners Multicast.

(** [d.Round(m)] for a positive [m]. *)
Definition dur_Round (m d : Z) : Z :=
  let r := Z.rem (Z.abs d) m in
  if d <? 0 then
    if 2 * r <? m then d + r
    else let d1 := i64 (d - m + r) in if d1 <? d then d1 else - 2 ^ 63
  else
    if 2 * r <? m then d - r
    else let d1 := i64 (d + m - r) in if d <? d1 then d1 else 2 ^ 63 - 1.

(** ** The debug views *)

Record DebugPeerInfo := MkDebugPeer {
  di_Key : list byte; di_Port : Z; di_Cost : Z; di_Priority : Z; di_Conn : nat; di_Latency : Z; di_Penalty : Z
}.

Section debug.
Context `{MapOrder}.

Definition debug_GetSelf (c : core) (r : router) : list byte * Z := (arr_list (selfKey c), Z.of_nat (base.size (r_infos r))).

(** The costs and penalties, on the actor of the router. *)
Definition debug_costs : R (gmap peer (Z * Z)) :=
  ks ← gets (fun r => map_order (dom (r_lags r)));
  act_fold ks (fun p m =>
    cost ← getCost p;
    penaltyMs ← getDecayedPenalty (penaltyKeyForPeer p);
    ret (<[p := (cost, i64 (penaltyMs * Millisecond))]> m)) ∅.

(** A peer, on the actor of the registry; [conn] and [l] are its connection. *)
Definition debug_peer (costs : gmap peer (Z * Z)) (conn : peer -> nat) (l : peer -> link) (p : peer) : DebugPeerInfo :=
  let '(cost, penalty) := default (0, 0) (costs !! p) in
  let rtt := dur_Round (Z.quot Millisecond 100) (time_Sub (l_srrt (l p)) (l_srst (l p))) in
  MkDebugPeer (arr_list (p_key p)) (p_port p) cost (p_prio p) (conn p) (if 0 <? rtt then rtt else 0) penalty.
Definition debug_GetPeers (costs : gmap peer (Z * Z)) (conn : peer -> nat) (l : peer -> link) (ps : peersState) : list DebugPeerInfo :=
  concat (map (fun k => map (debug_peer costs conn l) (map_order (default ∅ (ps_peers ps !! k)))) (map_order (dom (ps_peers ps)))).

(** A key, its parent and the sequence number. *)
Definition debug_GetTree (r : router) : list (list byte * list byte * Z) :=
  omap (fun k => (fun i => (arr_list k, arr_list (info_parent i), req_seq (res_req (info_res i)))) <$> r_infos r !! k) (map_order (dom (r_infos r))).
Definition debug_GetPaths (r : router) : list (list byte * list Z * Z) :=
  omap (fun k => (fun i => (arr_list k, pt_path i, pt_seq i)) <$> r_paths r !! k) (map_order (dom (r_paths r))).

(** The filters of a link; a copy takes as many words as a filter has. *)
Definition filter_words (f : BloomFilter) : list Z := resize bloomFilterU 0 (bf_b f).
Record DebugBloomInfo := MkDebugBloom { db_Key : list byte; db_Send : list Z; db_Recv : list Z }.
Definition debug_GetBlooms (r : router) : list DebugBloomInfo :=
  omap (fun k => (fun i => MkDebugBloom (arr_list k) (filter_words (filter (bi_send i))) (filter_words (filter (bi_recv i)))) <$> r_blooms r !! k)
    (map_order (dom (r_blooms r))).

(** What the logger of lookups is called with. *)
Record DebugLookupInfo := MkDebugLookup { dl_Key : list byte; dl_Path : list Z; dl_Target : list byte }.
Definition debug_lookup (lookup : pathLookup) : DebugLookupInfo :=
  MkDebugLookup (arr_list (lookup_source lookup)) (lookup_from lookup) (arr_list (lookup_dest lookup)).

Record DebugSessionInfo := MkDebugSession { ds_Key : list byte; ds_Uptime : Z; ds_RX : Z; ds_TX : Z }.
Definition debug_GetSessions (now : Z) (m : sessionManager) : list DebugSessionInfo :=
  omap (fun k => (fun s => MkDebugSession (arr_list k) (time_Sub now (ss_since s)) (ss_rx s) (ss_tx s)) <$> (m_sessions m !! k ≫= fun p => m_heap m !! p))
    (map_order (dom (m_sessions m))).

(** ** The interface of the core *)

Record PeerInfo := MkPeerInfo {
  pf_URI : string; pf_Up : bool; pf_Inbound : bool; pf_SNI : string; pf_CommunityStatus : string;
  pf_LastError : option linkFailure; pf_LastErrorTime : Z;
  pf_Key : list byte; pf_Port : Z; pf_Priority : Z; pf_Cost : Z;
  pf_RXBytes : Z; pf_TXBytes : Z; pf_RXRate : Z; pf_TXRate : Z;
  pf_Uptime : Z; pf_Latency : Z; pf_NodeInfo : list byte
}.

(** The peers by their connection; the last of several stays. *)
Definition conns_of (peers : list DebugPeerInfo) : gmap nat DebugPeerInfo := fold_left (fun m p => <[di_Conn p := p]> m) peers ∅.

(** The entry of a link. *)
Definition peer_info (now : Z) (conns : gmap nat DebugPeerInfo) (heap : gmap nat linkConn) (info : linkInfo) (st : linkState) : PeerInfo :=
  let k := lk_conn st ≫= fun p => heap !! p in
  let d := lk_conn st ≫= fun p => conns !! p in
  let get {A} (f : linkConn -> A) (z : A) := match k with Some c => f c | None => z end in
  let from {A} (f : DebugPeerInfo -> A) (z : A) := match d with Some p => f p | None => z end in
  MkPeerInfo (li_uri info)
    (get (fun _ => true) false) (get (fun _ => bool_decide (lk_linkType st = linkTypeIncoming)) false) (get (fun _ => lk_sni st) ""%string)
    (lk_communityStatus st) (lk_err st) (lk_errtime st)
    (from di_Key []) (from di_Port 0) (from di_Priority 0) (from di_Cost 0)
    (get lc_rx 0) (get lc_tx 0) (get lc_rxrate 0) (get lc_txrate 0)
    (get (fun c => time_Sub now (lc_up c)) 0) (from di_Latency 0)
    (get (fun _ => lk_nodeInfo st) []).

Definition core_GetPeers (iwpeers : list DebugPeerInfo) (s : linksState) : list PeerInfo :=
  let conns := conns_of iwpeers in
  omap (fun info => (fun st => peer_info (ls_now s) conns (ls_conns s) info st) <$> (ls_links s !! info ≫= fun p => ls_heap s !! p))
    (map_order (dom (ls_links s))).

(** What else the core tells: its key and the number of known nodes, the tree, the
    paths and the sessions, as the debug views have them. *)
Definition core_GetSelf (c : core) (r : router) : list byte * Z := debug_GetSelf c r.
Definition core_GetTree (r : router) : list (list byte * list byte * Z) := map (fun t => (t.1.1, t.1.2, t.2)) (debug_GetTree r).
Definition core_GetPaths (r : router) : list (list byte * list Z * Z) := map (fun p => (p.1.1, p.1.2, p.2)) (debug_GetPaths r).
Record SessionInfo := MkSessionInfo { sf_Key : list byte; sf_RXBytes : Z; sf_TXBytes : Z; sf_Uptime : Z }.
Definition core_GetSessions (now : Z) (m : sessionManager) : list SessionInfo :=
  map (fun s => MkSessionInfo (ds_Key s) (ds_RX s) (ds_TX s) (ds_Uptime s)) (debug_GetSessions now m).
End debug.

(** The address of the node, its subnet with the mask, and its listeners. *)
Definition core_Address (prefix : byte) (public : list byte) : option (list byte) := (fun a => arr_list a) <$> AddrForKey prefix public.
Definition core_Subnet (prefix : byte) (public : list byte) : option (list byte * list byte) :=
  (fun s => (arr_list s ++ replicate 8 Byte.x00, replicate 8 Byte.xff ++ replicate 8 Byte.x00)) <$> SubnetForKey prefix public.
Definition core_Listen (u : url) (sintf : string) (opened : bool) : Act listeners listenEffect unit := links_listen u sintf false opened.
Definition core_ListenLocal (u : url) (sintf : string) (opened : bool) : Act listeners listenEffect unit := links_listen u sintf true opened.

(** The address type of the network layer, [ironwood/types/addr.go]. *)
Definition Addr_Network : string := "ed25519.PublicKey".
Definition Addr_String (a : list byte) : string := hex_EncodeToString a.

(** What a call of [links.add] or [remove] returns. *)
Definition returned (es : list linksEffect) : option linkError :=
  default None (head (omap (fun e => match e with LsReturn err => Some err | _ => None end) es)).
