(* ===== verification/Admin.v ===== *)
(** * The admin socket

    [src/admin]: the table of commands, the commands about peers, the tree, paths,
    sessions and lookups, the loop that answers the requests of a connection, and
    the way of the web interface into the same table ([src/webui/server.go],
    [adminAPIHandler]). JSON is an interface: for every type of arguments, what
    [json.Unmarshal] makes of them, where [null] makes the pointer to them nil. *)

From Stdlib Require Import String Ascii.
From S2P Require Import Prelude Crypto RouterState RouterCost Address Handshake LinkOptions Links GoStr Api.

Inductive jsonArg (A : Type) := JError | JNull | JArg (a : A).
Arguments JError {A}.
Arguments JNull {A}.
Arguments JArg {A} a.

(** ** Values *)

Record PeerEntry := MkPeerEntry {
  pn_URI : string; pn_Up : bool; pn_Inbound : bool; pn_CommunityStatus : string; pn_SNI : string;
  pn_IPAddress : string; pn_PublicKey : string; pn_Port : Z; pn_Priority : Z; pn_Cost : Z;
  pn_RXBytes : Z; pn_TXBytes : Z; pn_RXRate : Z; pn_TXRate : Z;
  pn_Uptime : Z; pn_Latency : Z; pn_LastError : option (linkFailure * Z); pn_NodeInfo : list byte
}.
Record TreeEntry := MkTreeEntry { te_IPAddress : string; te_PublicKey : string; te_Parent : string; te_Sequence : Z }.
Record PathEntry := MkPathEntry { pe_IPAddress : string; pe_PublicKey : string; pe_Path : list Z; pe_Sequence : Z }.
Record SessionEntry := MkSessionEntry { se_IPAddress : string; se_PublicKey : string; se_RXBytes : Z; se_TXBytes : Z; se_Uptime : Z }.
Record LookupEntry := MkLookupEntry { lu_Address : string; lu_Key : string; lu_Path : list Z; lu_Time : Z }.
Record ListEntry := MkListEntry { le_Command : string; le_Description : string; le_Fields : list string }.

Inductive adminValue :=
| VEmpty
| VSelf (key address : string) (entries : Z)
| VPeers (l : list PeerEntry)
| VTree (l : list TreeEntry)
| VPaths (l : list PathEntry)
| VSessions (l : list SessionEntry)
| VLookups (l : list LookupEntry)
| VList (l : list ListEntry).

Inductive adminError :=
| AeNotInitialized | AeUnknown (name : string) | AeFindRequest | AeUnmarshalRequest | AeNoRequest
| AeArguments | AeURI | AeLink (e : linkError) | AeMarshal.

(** A request, decoded: whether that went well, and what is in it in any case. *)
Record AdminSocketRequest := MkRequest { rq_Name : string; rq_Arguments : list byte; rq_KeepAlive : bool }.

Class AdminLibs := {
  arg_sort : list byte -> jsonArg string;
  arg_uri : list byte -> jsonArg (string * string);
  arg_none : list byte -> jsonArg unit;
  url_Parse : string -> option url;
  ip_text : list byte -> string;
  hex_text : list byte -> string;
  decode_request : AdminSocketRequest -> list byte -> bool * AdminSocketRequest;
  json_Marshal : adminValue -> option (list byte)
}.

(** ** Sorting *)

(** [slices.SortStableFunc], where the comparison is an order. *)
Fixpoint sort_insert {A} (cmp : A -> A -> Z) (x : A) (l : list A) : list A :=
  match l with
  | [] => [x]
  | y :: l' => if cmp x y <? 0 then x :: l else y :: sort_insert cmp x l'
  end.
Definition SortStableFunc {A} (cmp : A -> A -> Z) (l : list A) : list A := fold_left (fun acc x => sort_insert cmp x acc) l [].

(** [strings.Compare] *)
Definition str_Compare (a b : string) : Z := match String.compare a b with Lt => -1 | Eq => 0 | Gt => 1 end.

(** The first comparison that decides; [int(d)] of an unsigned difference, and of
    one of seconds. *)
Definition then_by (d : Z) (next : Z) : Z := if d =? 0 then next else d.
Definition uint_diff (a b : Z) : Z := i64 (u64 (a - b)).
Definition uptime_diff (a b : Z) : Z := Z.quot (a - b) Second.

Definition sortByDefault (a b : PeerEntry) : Z :=
  if negb (pn_Inbound a) && pn_Inbound b then -1
  else if pn_Inbound a && negb (pn_Inbound b) then 1
  else then_by (str_Compare (pn_PublicKey a) (pn_PublicKey b))
    (then_by (uint_diff (pn_Priority a) (pn_Priority b))
      (then_by (uint_diff (pn_Cost a) (pn_Cost b)) (uptime_diff (pn_Uptime a) (pn_Uptime b)))).
Definition sortByCost (a b : PeerEntry) : Z :=
  then_by (uint_diff (pn_Cost a) (pn_Cost b))
    (then_by (str_Compare (pn_PublicKey a) (pn_PublicKey b))
      (then_by (uint_diff (pn_Priority a) (pn_Priority b)) (uptime_diff (pn_Uptime a) (pn_Uptime b)))).
Definition sortByUptime (a b : PeerEntry) : Z :=
  if pn_Uptime a =? pn_Uptime b then
    then_by (str_Compare (pn_PublicKey a) (pn_PublicKey b))
      (then_by (uint_diff (pn_Priority a) (pn_Priority b)) (uint_diff (pn_Cost a) (pn_Cost b)))
  else uptime_diff (pn_Uptime a) (pn_Uptime b).

(** ** The commands *)

(** The links, and the lookups that were logged: the path and the time of the last
    one from each key. *)
Record adminNode := MkAdminNode { an_links : linksState; an_lookups : gmap (array 32) (list Z * Z) }.

(** What the node underneath answers to one command. *)
Record adminView := MkAdminView {
  av_self : list byte * Z;
  av_peers : list DebugPeerInfo;
  av_tree : list (list byte * list byte * Z);
  av_paths : list (list byte * list Z * Z);
  av_sessions : list DebugSessionInfo
}.

Inductive adminFunc := FList | FGetSelf | FGetPeers | FGetTree | FGetPaths | FGetSessions | FAddPeer | FRemovePeer | FLookups
| FOther (name : string).
Record adminHandler := MkHandler { hd_desc : string; hd_args : list string; hd_handler : adminFunc }.

Record AdminSocket := MkAdmin { ad_handlers : gmap string adminHandler; ad_done : bool }.

Abbreviation N_ := (Act adminNode linksEffect).
Abbreviation nret a := (mret (M := Act adminNode linksEffect) a) (only parsing).
Abbreviation ngets f := (act_gets (S := adminNode) (E := linksEffect) f).
Abbreviation nmodify f := (act_modify (S := adminNode) (E := linksEffect) f).
Abbreviation npanic := (act_panic (S := adminNode) (E := linksEffect)).

(** A call of [links.add] or [remove]. *)
Definition links_call (m : Act linksState linksEffect unit) : N_ (option linkError) := fun n =>
  match m (an_links n) with
  | None => None
  | Some (_, s, es) => Some (returned es, MkAdminNode s (an_lookups n), es)
  end.

Section admin.
Context `{GoStrings, MapOrder, AdminLibs} (prefix : byte) (outboundSNIList : list string).

(** [AddPeer], [RemovePeer] and [CallPeer] of the core *)
Definition core_AddPeer (u : url) (sintf : string) : N_ (option linkError) := links_call (links_add outboundSNIList u sintf linkTypePersistent).
Definition core_RemovePeer (u : url) (sintf : string) : N_ (option linkError) := links_call (links_remove u sintf).
Definition core_CallPeer (u : url) (sintf : string) : N_ (option linkError) := links_call (links_add outboundSNIList u sintf linkTypeEphemeral).

Definition ip_of (key : list byte) : option string := (fun a => ip_text (arr_list a)) <$> AddrForKey prefix key.

Definition peer_entry (now : Z) (p : PeerInfo) : PeerEntry :=
  let '(key, ip) := match ip_of (pf_Key p) with Some ip => (hex_text (pf_Key p), ip) | None => (""%string, ""%string) end in
  MkPeerEntry (pf_URI p) (pf_Up p) (pf_Inbound p) (pf_CommunityStatus p) (pf_SNI p) ip key (pf_Port p) (pf_Priority p) (pf_Cost p)
    (pf_RXBytes p) (pf_TXBytes p) (pf_RXRate p) (pf_TXRate p) (pf_Uptime p) (if 0 <? pf_Latency p then pf_Latency p else 0)
    ((fun e => (e, time_Sub now (pf_LastErrorTime p))) <$> pf_LastError p) (pf_NodeInfo p).
Definition sort_peers (by_ : string) (l : list PeerEntry) : list PeerEntry :=
  let by_ := ToLower by_ in
  if String.eqb by_ "uptime" then SortStableFunc sortByUptime l
  else if String.eqb by_ "cost" then SortStableFunc sortByCost l
  else SortStableFunc sortByDefault l.
Definition getPeersHandler (by_ : string) (peers : list DebugPeerInfo) (s : linksState) : list PeerEntry :=
  sort_peers by_ (map (peer_entry (ls_now s)) (core_GetPeers peers s)).

Definition getTreeHandler (tree : list (list byte * list byte * Z)) : list TreeEntry :=
  SortStableFunc (fun a b => str_Compare (te_PublicKey a) (te_PublicKey b))
    (omap (fun '(key, parent, seq) => (fun ip => MkTreeEntry ip (hex_text key) (hex_text parent) seq) <$> ip_of key) tree).
Definition getPathsHandler (paths : list (list byte * list Z * Z)) : list PathEntry :=
  SortStableFunc (fun a b => str_Compare (pe_PublicKey a) (pe_PublicKey b))
    (omap (fun '(key, path, seq) => (fun ip => MkPathEntry ip (hex_text key) path seq) <$> ip_of key) paths).
Definition getSessionsHandler (sessions : list DebugSessionInfo) : list SessionEntry :=
  SortStableFunc (fun a b => str_Compare (se_PublicKey a) (se_PublicKey b))
    (omap (fun s => (fun ip => MkSessionEntry ip (hex_text (ds_Key s)) (ds_RX s) (ds_TX s) (ds_Uptime s)) <$> ip_of (ds_Key s)) sessions).

Definition addPeerHandler (uri sintf : string) : N_ (sum adminError adminValue) :=
  match url_Parse uri with
  | None => nret (inl AeURI)
  | Some u =>
      err ← core_AddPeer u sintf;
      nret (match err with Some e => inl (AeLink e) | None => inr VEmpty end)
  end.
Definition removePeerHandler (uri sintf : string) : N_ (sum adminError adminValue) :=
  match url_Parse uri with
  | None => nret (inl AeURI)
  | Some u =>
      err ← core_RemovePeer u sintf;
      nret (match err with Some e => inl (AeLink e) | None => inr VEmpty end)
  end.

(** [logLookups]: a lookup that the router has seen, and the command, which drops
    those that are older than a day but shows them once more. *)
Definition lookup_seen (now : Z) (key : array 32) (path : list Z) (n : adminNode) : adminNode :=
  MkAdminNode (an_links n) (<[key := (path, now)]> (an_lookups n)).
Definition lookupsHandler : N_ (list LookupEntry) :=
  n ← ngets (fun n => n);
  let now := ls_now (an_links n) in
  _ ← nmodify (fun n => MkAdminNode (an_links n) (filter (fun kv => ~ 24 * 3600 * Second < time_Sub now kv.2.2) (an_lookups n)));
  nret (omap (fun k => (fun '(path, t) => MkLookupEntry (default ""%string (ip_of (arr_list k))) (hex_text (arr_list k)) path (Z.div t Second)) <$> an_lookups n !! k)
    (map_order (dom (an_lookups n)))).

(** ** The table *)

Definition AddHandler (name : string) (h : adminHandler) (handlers : gmap string adminHandler) : option (gmap string adminHandler) :=
  match handlers !! ToLower name with
  | Some _ => None
  | None => Some (<[ToLower name := h]> handlers)
  end.
(** [_ = a.AddHandler(...)] *)
Definition add_handler (handlers : gmap string adminHandler) (c : string * adminHandler) : gmap string adminHandler :=
  default handlers (AddHandler c.1 c.2 handlers).

Definition GetAvailableCommands (a : AdminSocket) : list ListEntry :=
  SortStableFunc (fun x y => str_Compare (le_Command x) (le_Command y))
    (omap (fun name => (fun h => MkListEntry name (hd_desc h) (hd_args h)) <$> ad_handlers a !! name) (map_order (dom (ad_handlers a)))).

Definition list_command : string * adminHandler := ("list", MkHandler "List available commands" [] FList)%string.
(** The commands of [SetAdmin], which returns an error when there is one already. *)
Definition core_commands : list (string * adminHandler) :=
  [("getNodeInfo", MkHandler "Request nodeinfo from a remote node by its public key" ["key"] (FOther "getNodeInfo"));
   ("debug_remoteGetSelf", MkHandler "Debug use only" ["key"] (FOther "debug_remoteGetSelf"));
   ("debug_remoteGetPeers", MkHandler "Debug use only" ["key"] (FOther "debug_remoteGetPeers"));
   ("debug_remoteGetTree", MkHandler "Debug use only" ["key"] (FOther "debug_remoteGetTree"))]%string.
Fixpoint SetAdmin (l : list (string * adminHandler)) (handlers : gmap string adminHandler) : gmap string adminHandler * bool :=
  match l with
  | [] => (handlers, true)
  | (name, h) :: l =>
      match AddHandler name h handlers with
      | None => (handlers, false)
      | Some handlers => SetAdmin l handlers
      end
  end.
Definition SetupAdminHandlers : list (string * adminHandler) :=
  [("getSelf", MkHandler "Show details about this node" [] FGetSelf);
   ("getPeers", MkHandler "Show directly connected peers" ["sort"] FGetPeers);
   ("getTree", MkHandler "Show known Tree entries" [] FGetTree);
   ("getPaths", MkHandler "Show established paths through this node" [] FGetPaths);
   ("getSessions", MkHandler "Show established traffic sessions with remote nodes" [] FGetSessions);
   ("addPeer", MkHandler "Add a peer to the peer list" ["uri"; "interface"] FAddPeer);
   ("removePeer", MkHandler "Remove a peer from the peer list" ["uri"; "interface"] FRemovePeer)]%string.

Inductive adminOption := ListenAddress (v : string) | LogLookups.
Definition lookups_command : string * adminHandler := ("lookups", MkHandler "Dump a record of lookups received in the past hour" [] FLookups)%string.
Definition admin_applyOption (st : string * gmap string adminHandler) (opt : adminOption) : string * gmap string adminHandler :=
  match opt with
  | ListenAddress v => (v, st.2)
  | LogLookups => (st.1, add_handler st.2 lookups_command)
  end.
(** [New], once the socket listens, with whether [SetAdmin] gave no error; without
    an address there is no admin socket. *)
Definition admin_New (opts : list adminOption) : option (AdminSocket * bool) :=
  let '(listenaddr, handlers) := fold_left admin_applyOption opts (""%string, ∅) in
  if String.eqb listenaddr "none" || String.eqb listenaddr "" then None
  else
    let handlers := add_handler handlers list_command in
    let '(handlers, ok) := SetAdmin core_commands handlers in
    Some (MkAdmin handlers false, ok).
(** With the commands of the core, as [main.go] does it. *)
Definition admin_setup (opts : list adminOption) : option AdminSocket :=
  (fun '(a, _) => MkAdmin (fold_left add_handler SetupAdminHandlers (ad_handlers a)) (ad_done a)) <$> admin_New opts.

(** Where [New] listens: the scheme, the host and the path of the address, if it
    parses as a URL, give the network and the address. *)
Definition listen_target (u : option (string * string * string)) (listenaddr : string) : string * string :=
  match u with
  | None => ("tcp", listenaddr)%string
  | Some (scheme, host, path) =>
      if String.eqb (ToLower scheme) "unix" then
        ("unix"%string,
         if String.eqb host "" then path
         else if String.eqb path "" then host
         else if HasPrefix path "/" then (host ++ path)%string
         else (host ++ "/" ++ path)%string)
      else if String.eqb (ToLower scheme) "tcp" then ("tcp"%string, host)
      else ("tcp"%string, listenaddr)
  end.
(** Whether a UNIX socket can be listened on: one that is there is removed, unless
    somebody answers, or may still answer, when it is dialled. *)
Inductive dialResult := DialOK | DialTimeout | DialFails.
Definition claim_socket (there : bool) (dialled : dialResult) (removed : bool) : bool :=
  if there then match dialled with DialOK | DialTimeout => false | DialFails => removed end else true.

(** One round of [listen]: whether a connection is handled, and whether it goes on. *)
Definition listen_round (accepted : bool) (a : AdminSocket) : bool * bool :=
  if accepted then (true, true) else (false, negb (ad_done a)).

Definition admin_IsStarted (a : AdminSocket) : bool := negb (ad_done a).
Definition admin_Stop (a : AdminSocket) : AdminSocket := MkAdmin (ad_handlers a) true.

(** ** Calls *)

(** The command [name] of another module: what its handler answers. *)
Context (other : string -> list byte -> sum adminError adminValue).

(** A handler whose arguments are not looked at takes a nil pointer. *)
Definition no_args (args : list byte) (m : N_ (sum adminError adminValue)) : N_ (sum adminError adminValue) :=
  match arg_none args with JError => nret (inl AeArguments) | _ => m end.

Definition run_handler (a : AdminSocket) (v : adminView) (f : adminFunc) (args : list byte) : N_ (sum adminError adminValue) :=
  match f with
  | FList => nret (inr (VList (GetAvailableCommands a)))
  | FGetSelf => no_args args (nret (inr (VSelf (hex_text (av_self v).1) (default ""%string (ip_of (av_self v).1)) (av_self v).2)))
  | FGetPeers =>
      match arg_sort args with
      | JError => nret (inl AeArguments)
      | JNull => npanic
      | JArg by_ => s ← ngets an_links; nret (inr (VPeers (getPeersHandler by_ (av_peers v) s)))
      end
  | FGetTree => no_args args (nret (inr (VTree (getTreeHandler (av_tree v)))))
  | FGetPaths => no_args args (nret (inr (VPaths (getPathsHandler (av_paths v)))))
  | FGetSessions => no_args args (nret (inr (VSessions (getSessionsHandler (av_sessions v)))))
  | FAddPeer =>
      match arg_uri args with
      | JError => nret (inl AeArguments)
      | JNull => npanic
      | JArg (uri, sintf) => addPeerHandler uri sintf
      end
  | FRemovePeer =>
      match arg_uri args with
      | JError => nret (inl AeArguments)
      | JNull => npanic
      | JArg (uri, sintf) => removePeerHandler uri sintf
      end
  | FLookups => l ← lookupsHandler; nret (inr (VLookups l))
  | FOther name => nret (other name args)
  end.

(** [CallHandler] *)
Definition CallHandler (a : option AdminSocket) (v : adminView) (name : string) (args : list byte) : N_ (sum adminError adminValue) :=
  match a with
  | None => nret (inl AeNotInitialized)
  | Some a =>
      let reqname := ToLower name in
      match ad_handlers a !! reqname with
      | None => nret (inl (AeUnknown reqname))
      | Some h => run_handler a v (hd_handler h) args
      end
  end.

(** ** Connections *)

Record AdminSocketResponse := MkResponse { rs_Error : option adminError; rs_Request : AdminSocketRequest; rs_Response : list byte }.

Definition empty_request : AdminSocketRequest := MkRequest "" [] false.
Definition new_request : AdminSocketRequest := MkRequest "" [Byte.x7b; Byte.x7d] false.

(** One round of [handleRequest]; [buf] is what the decoder found, if it did. The
    second part of the result is what [KeepAlive] says. *)
Definition handle_one (a : AdminSocket) (v : adminView) (buf : option (list byte)) : N_ (AdminSocketResponse * bool) :=
  match buf with
  | None => nret (MkResponse (Some AeFindRequest) empty_request [], false)
  | Some buf =>
      let '(ok, req) := decode_request new_request buf in
      if negb ok then nret (MkResponse (Some AeUnmarshalRequest) empty_request [], rq_KeepAlive req)
      else if String.eqb (rq_Name req) "" then nret (MkResponse (Some AeNoRequest) req [], rq_KeepAlive req)
      else
        res ← CallHandler (Some a) v (rq_Name req) (rq_Arguments req);
        nret (match res with
              | inl e => MkResponse (Some e) req []
              | inr res => match json_Marshal res with
                           | None => MkResponse (Some AeMarshal) req []
                           | Some bs => MkResponse None req bs
                           end
              end, rq_KeepAlive req)
  end.

(** [handleRequest] on what the decoder finds, one after the other, with what the
    node answers at that time; after the last, the connection has ended. *)
Fixpoint admin_handleRequest (a : AdminSocket) (inputs : list (adminView * option (list byte))) (last : adminView) : N_ (list AdminSocketResponse) :=
  match inputs with
  | [] =>
      '(resp, _) ← handle_one a last None;
      nret [resp]
  | (v, buf) :: inputs =>
      '(resp, keep) ← handle_one a v buf;
      if negb keep then nret [resp]
      else
        l ← admin_handleRequest a inputs last;
        nret (resp :: l)
  end.

(** [adminAPIHandler]: the body of a request, where it is a JSON object or null. *)
Inductive webBody := WbInvalid | WbNull | WbArgs (bs : list byte).
Definition web_args (post : bool) (body : webBody) : list byte :=
  if post then
    match body with
    | WbInvalid => [Byte.x7b; Byte.x7d]
    | WbNull => [Byte.x6e; Byte.x75; Byte.x6c; Byte.x6c]
    | WbArgs bs => bs
    end
  else [Byte.x7b; Byte.x7d].
Definition adminAPIHandler (a : option AdminSocket) (v : adminView) (path : string) (post : bool) (body : webBody) : N_ (sum adminError adminValue) :=
  let command := default ""%string (head (Split (TrimPrefix path "/api/admin/") "/"%char)) in
  if String.eqb command "" then nret (inr (VList (match a with Some a => GetAvailableCommands a | None => [] end)))
  else CallHandler a v command (web_args post body).
End admin.

(** ** Sorting keeps what is sorted *)

Section sorting.
Context {A : Type} (cmp : A -> A -> Z).

Lemma sort_insert_perm x l : sort_insert cmp x l ≡ₚ x :: l.
Proof. induction l as [|y l IH]; [done|]. cbn. destruct (cmp x y <? 0); [done|]. rewrite IH. by constructor. Qed.

Lemma SortStable_perm l : SortStableFunc cmp l ≡ₚ l.
Proof.
  unfold SortStableFunc. assert (forall acc, fold_left (fun acc x => sort_insert cmp x acc) l acc ≡ₚ acc ++ l) as Hx; [|by rewrite Hx].
  induction l as [|x l IH]; intros acc; cbn; [by rewrite app_nil_r|]. by rewrite IH, sort_insert_perm, <- Permutation_middle.
Qed.
End sorting.
