(* ===== verification/AdminSafety.v ===== *)
(** * Properties of the admin socket

    What each command answers and does to the node, that every request on a
    connection has its answer, and what the commands about peers do with the links
    and the list of peers. *)

From Stdlib Require Import String Ascii.
From S2P Require Import Prelude Crypto RouterState RouterCost Address Handshake LinkOptions Links LinksInv GoStr Api Admin.

(** ** Sorting *)

Section sorting.
Context {A : Type} (cmp : A -> A -> Z).

(** An order that the comparison refines. *)
Context (R : A -> A -> Prop) `{!Transitive R}.
Hypothesis cmp_lt : forall x y, cmp x y < 0 -> R x y.
Hypothesis cmp_ge : forall x y, 0 <= cmp x y -> R y x.

Lemma sort_insert_sorted x l : StronglySorted R l -> StronglySorted R (sort_insert cmp x l).
Proof.
  induction 1 as [|y l Hl IH Hy]; cbn; [by repeat constructor|]. destruct (Z.ltb_spec (cmp x y) 0) as [Hlt|Hge].
  - constructor; [by constructor|]. apply cmp_lt in Hlt. constructor; [done|]. eapply Forall_impl; [exact Hy|]. intros z Hz. by transitivity y.
  - constructor; [done|]. rewrite sort_insert_perm. constructor; [by apply cmp_ge|done].
Qed.

Lemma SortStable_sorted l : StronglySorted R (SortStableFunc cmp l).
Proof.
  unfold SortStableFunc. assert (forall acc, StronglySorted R acc -> StronglySorted R (fold_left (fun acc x => sort_insert cmp x acc) l acc)) as Hx; [|apply Hx; constructor].
  induction l as [|x l IH]; intros acc Hacc; cbn; [done|]. by apply IH, sort_insert_sorted.
Qed.
End sorting.

Lemma string_lt_trans x : forall y z, String.compare x y = Lt -> String.compare y z = Lt -> String.compare x z = Lt.
Proof.
  induction x as [|a x IH]; intros [|b y] [|c z]; try done. cbn. unfold Ascii.compare.
  destruct (N.compare_spec (N_of_ascii a) (N_of_ascii b)), (N.compare_spec (N_of_ascii b) (N_of_ascii c)), (N.compare_spec (N_of_ascii a) (N_of_ascii c)); try done; try lia.
  apply IH.
Qed.

(** Tables that are sorted by a string. *)
Lemma sorted_by {A} (f : A -> string) (l : list A) :
  StronglySorted (fun x y => String.compare (f x) (f y) <> Gt) (SortStableFunc (fun x y => str_Compare (f x) (f y)) l).
Proof.
  apply SortStable_sorted.
  - intros x y z Hxy Hyz. destruct (String.compare (f x) (f y)) eqn:E; [apply String.compare_eq_iff in E; by rewrite E| |done].
    destruct (String.compare (f y) (f z)) eqn:E'; [apply String.compare_eq_iff in E'; by rewrite <- E', E| |done]. by rewrite (string_lt_trans _ _ _ E E').
  - intros x y. unfold str_Compare. by destruct (String.compare (f x) (f y)).
  - intros x y. unfold str_Compare. rewrite (String.compare_antisym (f y) (f x)). by destruct (String.compare (f x) (f y)).
Qed.

(** ** Commands and links *)

Section admin.
Context `{GoStrings, MapOrder, AdminLibs} (prefix : byte) (outboundSNIList : list string) (other : string -> list byte -> sum adminError adminValue).
Local Abbreviation call := (CallHandler prefix outboundSNIList other).

Lemma links_call_step ev m n : (forall s, links_step outboundSNIList ev s = m s) -> links_ok (an_links n) -> no_collision (an_links n) ev ->
  match links_call m n with
  | Some (_, n', _) => links_ok (an_links n') /\ an_lookups n' = an_lookups n
  | None => match ev with ERemove u sintf => accepted_link (an_links n) (info_for u sintf) | _ => False end
  end.
Proof.
  intros Hm Hok Hc. pose proof (links_step_ok outboundSNIList _ ev Hok Hc) as Hs. unfold step_ok in Hs. rewrite Hm in Hs. unfold links_call.
  by destruct (m (an_links n)) as [[[[] s] es]|].
Qed.

Lemma step_add u sintf lt s : links_step outboundSNIList (EAdd u sintf lt) s = links_add outboundSNIList u sintf lt s.
Proof. unfold links_step. cbv [mbind act_bind act_gets]. by destruct (links_add _ _ _ _ s) as [[[? ?] ?]|]. Qed.
Lemma step_remove u sintf s : links_step outboundSNIList (ERemove u sintf) s = links_remove u sintf s.
Proof. unfold links_step. cbv [mbind act_bind act_gets]. by destruct (links_remove _ _ s) as [[[? ?] ?]|]. Qed.

(** Neither call changes the accepted connections. *)
Lemma add_keeps_acceptors u sintf lt s s' es : links_add outboundSNIList u sintf lt s = Some (tt, s', es) -> ls_acceptors s' = ls_acceptors s.
Proof.
  unfold links_add, kick, fresh. destruct (dialerFor u); [|by intros [= <- <-]]. destruct (add_options _ u); [by intros [= <- <-]|]. run_links.
  destruct (ls_links s !! _); run_links; by intros [= <- <-].
Qed.
Lemma remove_keeps_acceptors u sintf s s' es : links_remove u sintf s = Some (tt, s', es) -> ls_acceptors s' = ls_acceptors s.
Proof.
  unfold links_remove. run_links. destruct (ls_links s !! _) as [p|]; [|by intros [= <- <-]]. run_links. destruct (ls_heap s !! p) as [st|]; [|done].
  destruct (lk_cancelled st); [|done]. unfold on_link, close_conn, on_conn. run_links. destruct (lk_conn st); run_links; by intros [= <- <-].
Qed.

(** ** Requests *)

(** Nothing is asked for that dereferences a nil pointer, or removes the link of an
    accepted connection. *)
Definition request_safe (a : AdminSocket) (s : linksState) (buf : option (list byte)) : Prop :=
  forall b req h, buf = Some b -> decode_request new_request b = (true, req) -> ad_handlers a !! ToLower (rq_Name req) = Some h ->
  match hd_handler h with
  | FGetPeers => arg_sort (rq_Arguments req) <> JNull
  | FAddPeer => arg_uri (rq_Arguments req) <> JNull
  | FRemovePeer => arg_uri (rq_Arguments req) <> JNull /\
      forall uri sintf u, arg_uri (rq_Arguments req) = JArg (uri, sintf) -> url_Parse uri = Some u -> ~ accepted_link s (info_for u sintf)
  | _ => True
  end.

Definition node_ok (s : linksState) (n : adminNode) : Prop := links_ok (an_links n) /\ ls_acceptors (an_links n) = ls_acceptors s.

Lemma accepted_same s s' info : ls_acceptors s' = ls_acceptors s -> accepted_link s' info -> accepted_link s info.
Proof. unfold accepted_link. by intros ->. Qed.

(** ** What each command answers *)

(** A table that is gone through in some order. *)
Lemma omap_map_order `{Countable K} {V B} (f : K -> V -> B) (m : gmap K V) :
  omap (fun k => f k <$> m !! k) (map_order (dom m)) ≡ₚ (fun kv => f kv.1 kv.2) <$> map_to_list m.
Proof.
  assert (map_order (dom m) ≡ₚ (map_to_list m).*1) as ->.
  { rewrite map_order_perm. apply NoDup_Permutation; [apply NoDup_elements|apply NoDup_fst_map_to_list|].
    intros k. rewrite elem_of_elements, elem_of_dom, list_elem_of_fmap. split.
    - intros [v Hv]. exists (k, v). split; [done|]. by apply elem_of_map_to_list.
    - intros ([k' v] & -> & Hv%elem_of_map_to_list). by exists v. }
  assert (Forall (fun kv => m !! kv.1 = Some kv.2) (map_to_list m)) as Hl.
  { apply Forall_forall. intros [k v] Hv. by apply elem_of_map_to_list. }
  induction Hl as [|[k v] l Hk Hl IH]; [done|]. cbn [fmap list_fmap omap list_omap fst snd] in *. rewrite Hk. cbn [fmap option_fmap option_map]. by f_equiv.
Qed.

Definition sorted_table {A} (f : A -> string) (l : list A) : Prop := StronglySorted (fun x y => String.compare (f x) (f y) <> Gt) l.
(** The rows of a table of nodes, for those that have an address. *)
Definition rows {A B} (key : A -> list byte) (row : string -> A -> B) (l : list A) : list B :=
  omap (fun x => (fun ip => row ip x) <$> ip_of prefix (key x)) l.

(** The result of a command and the node after it: from what the node underneath
    said, the links and the lookups. *)
Definition result_of (a : AdminSocket) (v : adminView) (f : adminFunc) (args : list byte) (n : adminNode)
    (res : sum adminError adminValue) (n' : adminNode) : Prop :=
  match f with
  | FList => n' = n /\ exists l, res = inr (VList l) /\ sorted_table le_Command l /\
      l ≡ₚ (fun kv => MkListEntry kv.1 (hd_desc kv.2) (hd_args kv.2)) <$> map_to_list (ad_handlers a)
  | FGetSelf => n' = n /\
      if arg_none args is JError then res = inl AeArguments
      else res = inr (VSelf (hex_text (av_self v).1) (default ""%string (ip_of prefix (av_self v).1)) (av_self v).2)
  | FGetPeers => n' = n /\
      match arg_sort args with
      | JError => res = inl AeArguments
      | JNull => False
      | JArg _ => exists l, res = inr (VPeers l) /\ l ≡ₚ map (peer_entry prefix (ls_now (an_links n))) (core_GetPeers (av_peers v) (an_links n))
      end
  | FGetTree => n' = n /\
      if arg_none args is JError then res = inl AeArguments
      else exists l, res = inr (VTree l) /\ sorted_table te_PublicKey l /\
        l ≡ₚ rows (fun x => x.1.1) (fun ip x => MkTreeEntry ip (hex_text x.1.1) (hex_text x.1.2) x.2) (av_tree v)
  | FGetPaths => n' = n /\
      if arg_none args is JError then res = inl AeArguments
      else exists l, res = inr (VPaths l) /\ sorted_table pe_PublicKey l /\
        l ≡ₚ rows (fun x => x.1.1) (fun ip x => MkPathEntry ip (hex_text x.1.1) x.1.2 x.2) (av_paths v)
  | FGetSessions => n' = n /\
      if arg_none args is JError then res = inl AeArguments
      else exists l, res = inr (VSessions l) /\ sorted_table se_PublicKey l /\
        l ≡ₚ rows ds_Key (fun ip x => MkSessionEntry ip (hex_text (ds_Key x)) (ds_RX x) (ds_TX x) (ds_Uptime x)) (av_sessions v)
  | FAddPeer | FRemovePeer =>
      match arg_uri args with
      | JError => res = inl AeArguments /\ n' = n
      | JNull => False
      | JArg (uri, sintf) =>
          match url_Parse uri with
          | None => res = inl AeURI /\ n' = n
          | Some u => exists s es,
              (if f is FAddPeer then links_add outboundSNIList u sintf linkTypePersistent else links_remove u sintf) (an_links n) = Some (tt, s, es) /\
              n' = MkAdminNode s (an_lookups n) /\ res = match returned es with Some e => inl (AeLink e) | None => inr VEmpty end
          end
      end
  | FLookups => an_links n' = an_links n /\
      (forall k, an_lookups n' !! k = match an_lookups n !! k with
         | Some (path, t) => if decide (24 * 3600 * Second < time_Sub (ls_now (an_links n)) t) then None else Some (path, t)
         | None => None end) /\
      exists l, res = inr (VLookups l) /\
        l ≡ₚ (fun kv => MkLookupEntry (default ""%string (ip_of prefix (arr_list kv.1))) (hex_text (arr_list kv.1)) kv.2.1 (Z.div kv.2.2 Second)) <$> map_to_list (an_lookups n)
  | FOther name => n' = n /\ res = other name args
  end.

Lemma sort_peers_perm by_ l : sort_peers by_ l ≡ₚ l.
Proof. unfold sort_peers. destruct (String.eqb _ "uptime"); [apply SortStable_perm|]. destruct (String.eqb _ "cost"); apply SortStable_perm. Qed.

Lemma omap_Permutation_ext {A B} (f g : A -> option B) l : (forall x, f x = g x) -> omap f l ≡ₚ omap g l.
Proof. intros Hfg. induction l as [|x l IH]; [done|]. cbn. rewrite Hfg. by destruct (g x); [f_equiv|]. Qed.
Lemma tree_rows l : omap (fun '(key, parent, seq) => (fun ip => MkTreeEntry ip (hex_text key) (hex_text parent) seq) <$> ip_of prefix key) l ≡ₚ
  rows (fun x => x.1.1) (fun ip x => MkTreeEntry ip (hex_text x.1.1) (hex_text x.1.2) x.2) l.
Proof. apply omap_Permutation_ext. by intros [[? ?] ?]. Qed.
Lemma path_rows l : omap (fun '(key, path, seq) => (fun ip => MkPathEntry ip (hex_text key) path seq) <$> ip_of prefix key) l ≡ₚ
  rows (fun x => x.1.1) (fun ip x => MkPathEntry ip (hex_text x.1.1) x.1.2 x.2) l.
Proof. apply omap_Permutation_ext. by intros [[? ?] ?]. Qed.

Lemma run_handler_ok s a v f args n : node_ok s n ->
  match f with
  | FGetPeers => arg_sort args <> JNull
  | FAddPeer => arg_uri args <> JNull
  | FRemovePeer => arg_uri args <> JNull /\ forall uri sintf u, arg_uri args = JArg (uri, sintf) -> url_Parse uri = Some u -> ~ accepted_link s (info_for u sintf)
  | _ => True
  end ->
  exists res n' es, run_handler prefix outboundSNIList other a v f args n = Some (res, n', es) /\ node_ok s n' /\ result_of a v f args n res n'.
Proof.
  intros Hn Hf. destruct f; cbn [run_handler result_of]; unfold no_args.
  - do 3 eexists. split_and!; [reflexivity|done|done|]. eexists. split_and!; [reflexivity|apply (sorted_by le_Command)|].
    unfold GetAvailableCommands. rewrite SortStable_perm. apply (omap_map_order (fun name h => MkListEntry name (hd_desc h) (hd_args h))).
  - destruct (arg_none args); by do 3 eexists.
  - destruct (arg_sort args) as [| |by_]; [by do 3 eexists|done|]. unfold mbind, act_bind, act_gets. cbn. do 3 eexists. split_and!; [reflexivity|done|done|].
    eexists. split; [reflexivity|]. unfold getPeersHandler. apply sort_peers_perm.
  - destruct (arg_none args); (do 3 eexists; split_and!; [reflexivity|done|done|]; try done); (eexists; split_and!; [reflexivity|apply (sorted_by te_PublicKey)|]);
      unfold getTreeHandler; rewrite SortStable_perm; by apply tree_rows.
  - destruct (arg_none args); (do 3 eexists; split_and!; [reflexivity|done|done|]; try done); (eexists; split_and!; [reflexivity|apply (sorted_by pe_PublicKey)|]);
      unfold getPathsHandler; rewrite SortStable_perm; by apply path_rows.
  - destruct (arg_none args); (do 3 eexists; split_and!; [reflexivity|done|done|]; try done); (eexists; split_and!; [reflexivity|apply (sorted_by se_PublicKey)|]);
      unfold getSessionsHandler; by rewrite SortStable_perm.
  - destruct (arg_uri args) as [| |[uri sintf]]; [by do 3 eexists|done|]. unfold addPeerHandler. destruct (url_Parse uri) as [u|]; [|by do 3 eexists].
    unfold core_AddPeer, mbind, act_bind. destruct Hn as [Hok Ha]. pose proof (links_call_step (EAdd u sintf linkTypePersistent) _ n (step_add _ _ _) Hok I) as Hs.
    pose proof (add_keeps_acceptors u sintf linkTypePersistent (an_links n)) as Hk. unfold links_call in *.
    destruct (links_add _ _ _ _ _) as [[[[] s'] es]|] eqn:E; [|by destruct Hs]. destruct Hs as [Hok' _].
    do 3 eexists. split_and!; [reflexivity|split; [done|cbn; by rewrite (Hk _ _ eq_refl)]|]. by do 2 eexists.
  - destruct (arg_uri args) as [| |[uri sintf]]; [by do 3 eexists|by destruct Hf|]. unfold removePeerHandler. destruct (url_Parse uri) as [u|] eqn:Eu; [|by do 3 eexists].
    unfold core_RemovePeer, mbind, act_bind. destruct Hn as [Hok Ha]. pose proof (links_call_step (ERemove u sintf) _ n (step_remove _ _) Hok I) as Hs.
    pose proof (remove_keeps_acceptors u sintf (an_links n)) as Hk. unfold links_call in *.
    destruct (links_remove _ _ _) as [[[[] s'] es]|] eqn:E; [|exfalso; eapply (proj2 Hf); [done|exact Eu|by eapply accepted_same]]. destruct Hs as [Hok' _].
    do 3 eexists. split_and!; [reflexivity|split; [done|cbn; by rewrite (Hk _ _ eq_refl)]|]. by do 2 eexists.
  - unfold lookupsHandler, mbind, act_bind, act_gets, act_modify. cbn. do 3 eexists. split_and!; [reflexivity|done|done| |].
    + intros k. cbn. rewrite map_lookup_filter. destruct (an_lookups n !! k) as [[path t]|]; [|done]. cbn. unfold guard. by case_decide as Hd1; case_decide as Hd2.
    + eexists. split; [reflexivity|].
      rewrite <- (omap_map_order (fun k x => MkLookupEntry (default ""%string (ip_of prefix (arr_list k))) (hex_text (arr_list k)) x.1 (Z.div x.2 Second)) (an_lookups n)).
      apply omap_Permutation_ext. intros k. by destruct (an_lookups n !! k) as [[path t]|].
  - by do 3 eexists.
Qed.

(** ** A connection *)

Definition keeps (buf : option (list byte)) : bool := match buf with Some b => rq_KeepAlive (snd (decode_request new_request b)) | None => false end.

(** The answer to one request: what is wrong with it, or what its command makes of
    it, printed, with the request. *)
Definition answers (a : AdminSocket) (v : adminView) (buf : option (list byte)) (n : adminNode) (resp : AdminSocketResponse) (n' : adminNode) : Prop :=
  match buf with
  | None => resp = MkResponse (Some AeFindRequest) empty_request [] /\ n' = n
  | Some b =>
      let '(ok, req) := decode_request new_request b in
      if negb ok then resp = MkResponse (Some AeUnmarshalRequest) empty_request [] /\ n' = n
      else if String.eqb (rq_Name req) "" then resp = MkResponse (Some AeNoRequest) req [] /\ n' = n
      else match ad_handlers a !! ToLower (rq_Name req) with
           | None => resp = MkResponse (Some (AeUnknown (ToLower (rq_Name req)))) req [] /\ n' = n
           | Some h => exists res, result_of a v (hd_handler h) (rq_Arguments req) n res n' /\
               match res with
               | inl e => resp = MkResponse (Some e) req []
               | inr val => if json_Marshal val is Some bs then resp = MkResponse None req bs else resp = MkResponse (Some AeMarshal) req []
               end
           end
  end.

(** The answers on a connection, one for each request in order, up to the first
    that does not ask to keep the connection, or its end; each command finds the
    node as the one before left it. *)
Inductive conversation (a : AdminSocket) (last : adminView) : adminNode -> list (adminView * option (list byte)) -> list AdminSocketResponse -> adminNode -> Prop :=
| conv_end n resp n' : answers a last None n resp n' -> conversation a last n [] [resp] n'
| conv_close n v buf rest resp n' : answers a v buf n resp n' -> keeps buf = false -> conversation a last n ((v, buf) :: rest) [resp] n'
| conv_keep n v buf rest resp n1 resps n' : answers a v buf n resp n1 -> keeps buf = true -> conversation a last n1 rest resps n' ->
    conversation a last n ((v, buf) :: rest) (resp :: resps) n'.

Lemma handle_one_ok s a v buf n : node_ok s n -> request_safe a s buf ->
  exists resp n' es, handle_one prefix outboundSNIList other a v buf n = Some ((resp, keeps buf), n', es) /\ node_ok s n' /\ answers a v buf n resp n'.
Proof.
  intros Hn Hsafe. unfold handle_one, answers, keeps. destruct buf as [b|]; [|by do 3 eexists]. specialize (Hsafe b). destruct (decode_request new_request b) as [ok req] eqn:Ed.
  destruct ok; cbn [negb snd]; [|by do 3 eexists]. specialize (fun h => Hsafe req h eq_refl eq_refl). destruct (String.eqb (rq_Name req) ""); [by do 3 eexists|].
  unfold CallHandler, mbind, act_bind. destruct (ad_handlers a !! ToLower (rq_Name req)) as [h|] eqn:Eh; [|by do 3 eexists].
  destruct (run_handler_ok s a v (hd_handler h) (rq_Arguments req) n Hn (Hsafe h eq_refl)) as (res & n' & es & -> & Hn' & Hr). do 3 eexists. split_and!; [reflexivity|done|].
  exists res. split; [done|]. destruct res as [e|val]; [done|]. by destruct (json_Marshal val).
Qed.

(** C40: the requests on a connection of the admin socket. As long as none of them
    gives null where arguments are looked at, or asks to remove the link of an
    accepted connection, which would stop the node, every request has one answer,
    in order, up to the first that does not ask to keep the connection. The answer
    to what is no request, or names no command, says so, whatever the case of its
    letters; any other is what its command makes of it, printed: the commands, the
    node itself, the tables of the tree, the paths and the sessions, each row once
    and sorted by key, the peers, the lookups, whether a peer was added or removed,
    or what another module answers. Only the commands about single peers change the
    links, which stay in order. *)
Theorem requests_are_answered a inputs last n : links_ok (an_links n) -> Forall (fun x => request_safe a (an_links n) x.2) inputs ->
  exists resps n' es, admin_handleRequest prefix outboundSNIList other a inputs last n = Some (resps, n', es) /\ links_ok (an_links n') /\
    conversation a last n inputs resps n'.
Proof.
  intros Hok Hsafe. assert (node_ok (an_links n) n) as Hn by done. set (s := an_links n) in *. clearbody s. clear Hok. revert n Hn.
  induction inputs as [|[v buf] inputs IH]; intros n Hn; cbn [admin_handleRequest].
  - do 3 eexists. split_and!; [reflexivity|by destruct Hn|by apply conv_end].
  - inversion_clear Hsafe as [|x y Hb Hl]. unfold mbind, act_bind. destruct (handle_one_ok s a v buf n Hn Hb) as (resp & n1 & es1 & -> & Hn1 & Ha).
    destruct (keeps buf) eqn:Ek; cbn [negb]; [|do 3 eexists; split_and!; [reflexivity|by destruct Hn1|by apply conv_close]].
    destruct (IH Hl n1 Hn1) as (resps & n' & es' & -> & Hok & Hf). do 3 eexists. split_and!; [reflexivity|done|by eapply conv_keep].
Qed.

(** ** Peers *)

(** The list of the links in their order. *)
Lemma core_GetPeers_perm peers s : core_GetPeers peers s ≡ₚ
  omap (fun info => (fun st => peer_info (ls_now s) (conns_of peers) (ls_conns s) info st) <$> (ls_links s !! info ≫= fun p => ls_heap s !! p)) (elements (dom (ls_links s))).
Proof. unfold core_GetPeers. apply omap_Permutation. by rewrite map_order_perm. Qed.

(** A link that is new, or no longer in the table, is the only difference. *)
Lemma listed_new peers s s' info p st : ls_links s !! info = None -> ls_links s' = <[info := p]> (ls_links s) -> ls_heap s' !! p = Some st ->
  (forall info' p', ls_links s !! info' = Some p' -> ls_heap s' !! p' = ls_heap s !! p') -> ls_conns s' = ls_conns s -> ls_now s' = ls_now s ->
  core_GetPeers peers s' ≡ₚ peer_info (ls_now s) (conns_of peers) (ls_conns s) info st :: core_GetPeers peers s.
Proof.
  intros Hnew Hl Hst Hsame Hk Ht. rewrite !core_GetPeers_perm, Hl, Hk, Ht, dom_insert_L, elements_union_singleton by by apply not_elem_of_dom.
  cbn [omap list_omap]. rewrite lookup_insert_eq. cbn [mbind option_bind]. rewrite Hst. cbn [fmap option_fmap option_map]. f_equiv.
  erewrite list_omap_ext; [reflexivity|]. apply Forall_Forall2_diag, Forall_forall. intros info' Hin. apply elem_of_elements, elem_of_dom in Hin as (p' & Hp').
  rewrite lookup_insert_ne by congruence. rewrite Hp'. cbn [mbind option_bind]. by rewrite (Hsame _ _ Hp').
Qed.

Lemma call_command a v name args n h : ad_handlers a !! ToLower name = Some h -> call (Some a) v name args n = run_handler prefix outboundSNIList other a v (hd_handler h) args n.
Proof. unfold CallHandler. by intros ->. Qed.

(** What the options leave in the table. *)
Lemma options_handlers opts : forall st, st.2 = ∅ \/ st.2 = add_handler ∅ lookups_command ->
  (fold_left admin_applyOption opts st).2 = ∅ \/ (fold_left admin_applyOption opts st).2 = add_handler ∅ lookups_command.
Proof.
  induction opts as [|o opts IH]; intros st Hst; [done|]. cbn [fold_left]. apply IH. destruct o; cbn [admin_applyOption snd]; [done|]. right.
  destruct Hst as [->| ->]; [done|]. vm_compute. reflexivity.
Qed.

Lemma setup_commands opts a : admin_setup opts = Some a ->
  (exists h, ad_handlers a !! "addpeer"%string = Some h /\ hd_handler h = FAddPeer) /\ (exists h, ad_handlers a !! "removepeer"%string = Some h /\ hd_handler h = FRemovePeer) /\
  (exists h, ad_handlers a !! "getpeers"%string = Some h /\ hd_handler h = FGetPeers).
Proof.
  unfold admin_setup, admin_New. pose proof (options_handlers opts (""%string, ∅) (or_introl eq_refl)) as Hh. destruct (fold_left _ _ _) as [addr handlers]. cbn [snd] in Hh.
  destruct (_ || _); [done|]. destruct (SetAdmin _ _) as [hs ok] eqn:Es. cbn [fmap option_fmap option_map ad_handlers]. intros [= <-]. cbn [ad_handlers].
  assert (hs = (SetAdmin core_commands (add_handler handlers list_command)).1) as -> by by rewrite Es.
  destruct Hh as [->| ->]; split_and!; eexists; (split; [vm_compute; reflexivity|reflexivity]).
Qed.

(** C39: peers by request. On a socket that was set up in any way, [addPeer] with a
    URI that can be dialled and is not in the table enters one link for it and starts
    its goroutine; [getPeers], in any order of the list, then answers what it did
    before and the new peer, which is not up; asking again gives an error and changes nothing in
    the table; and [removePeer] ends the link by its context. The case of the
    letters of a command does not matter. *)
Theorem peers_by_request opts a v uri sintf u options args n : admin_setup opts = Some a -> arg_uri args = JArg (uri, sintf) -> url_Parse uri = Some u ->
  links_ok (an_links n) -> dialerFor u <> None -> add_options outboundSNIList u = inr options -> ls_links (an_links n) !! info_for u sintf = None ->
  exists n1 es p, (forall name, ToLower name = "addpeer"%string -> call (Some a) v name args n = Some (inr VEmpty, n1, es)) /\
    links_ok (an_links n1) /\ ls_links (an_links n1) = <[info_for u sintf := p]> (ls_links (an_links n)) /\
    (exists g, ls_dialers (an_links n1) !! g = Some (MkDialer (info_for u sintf) p u linkTypePersistent options 0 DTop)) /\
    (forall name v' args' by_, ToLower name = "getpeers"%string -> arg_sort args' = JArg by_ ->
       exists before after e, call (Some a) v' name args' n = Some (inr (VPeers before), n, []) /\
         call (Some a) v' name args' n1 = Some (inr (VPeers after), n1, []) /\ after ≡ₚ e :: before /\
         pn_URI e = li_uri (info_for u sintf) /\ pn_Up e = false) /\
    (forall name v', ToLower name = "addpeer"%string -> exists n2 es2, call (Some a) v' name args n1 = Some (inl (AeLink ErrLinkAlreadyConfigured), n2, es2) /\
       ls_links (an_links n2) = ls_links (an_links n1)) /\
    (forall name v', ToLower name = "removepeer"%string -> exists n2 es2 st, call (Some a) v' name args n1 = Some (inr VEmpty, n2, es2) /\
       ls_heap (an_links n2) !! p = Some st /\ lk_cancelled st = Some true).
Proof.
  intros Ha Hargs Hu Hok Hd Ho Hnew. apply setup_commands in Ha as ((ha & Hha & Efa) & (hr & Hhr & Efr) & (hg & Hhg & Efg)). set (s := an_links n) in *. set (info := info_for u sintf) in *. set (p := ls_next s).
  set (st := MkLinkState (Some false) linkTypePersistent (ToUpper (u_scheme u)) "" "" None None 0 []).
  pose proof (add_step outboundSNIList s u sintf linkTypePersistent Hok) as Hstep. unfold step_ok in Hstep. rewrite step_add in Hstep.
  assert (exists s1 es1, links_add outboundSNIList u sintf linkTypePersistent s = Some (tt, s1, es1) /\ returned es1 = None /\ ls_links s1 = <[info := p]> (ls_links s) /\
    ls_heap s1 = <[p := st]> (ls_heap s) /\ ls_dialers s1 = <[S p := MkDialer info p u linkTypePersistent options 0 DTop]> (ls_dialers s) /\
    ls_conns s1 = ls_conns s /\ ls_now s1 = ls_now s) as (s1 & es1 & E & Hret & Hl1 & Hh1 & Hd1 & Hc1 & Ht1).
  { unfold links_add, fresh. destruct (dialerFor u); [|done]. rewrite Ho. run_links. fold info. rewrite Hnew. run_links. by do 2 eexists. }
  rewrite E in Hstep. assert (forall m, ls_heap s !! p <> Some m) as Hfresh by (intros m Em; assert (p < ls_next s)%nat by (apply (ok_fresh _ Hok); left; congruence); unfold p in *; lia).
  exists (MkAdminNode s1 (an_lookups n)), es1, p. split_and!; [|done|done|exists (S p); cbn; by rewrite Hd1, lookup_insert_eq| | |].
  - intros name Hname. rewrite (call_command _ _ _ _ _ ha) by by rewrite Hname. rewrite Efa. cbn [run_handler]. rewrite Hargs. unfold addPeerHandler. rewrite Hu.
    unfold core_AddPeer, links_call, mbind, act_bind. fold s. rewrite E, Hret. cbn. by rewrite app_nil_r.
  - intros name v' args' by_ Hname Hby. do 3 eexists. rewrite !(call_command _ _ _ _ _ hg) by by rewrite Hname. rewrite Efg. cbn [run_handler]. rewrite Hby.
    unfold mbind, act_bind, act_gets. split; [reflexivity|]. split; [reflexivity|]. unfold getPeersHandler. rewrite !sort_peers_perm. cbn [an_links]. rewrite Ht1. erewrite (listed_new (av_peers v') s s1 info p st); [cbn [map]; split_and!; [reflexivity|..]|done|done|by rewrite Hh1, lookup_insert_eq| |done|done].
    + unfold peer_entry. by destruct (ip_of _ _).
    + unfold peer_entry. by destruct (ip_of _ _).
    + intros info' p' Hp'. rewrite Hh1, lookup_insert_ne; [done|]. intros <-. destruct (ok_owner _ Hok _ _ Hp') as [(g & d & Hg & <-)|(g & d & Hg & <-)].
      * destruct (ok_dialer _ Hok g d Hg) as (Hq & m & Hm & _). assert (dl_ptr d = p) as Ep by congruence. rewrite Ep in Hm. by apply Hfresh in Hm.
      * destruct (ok_acceptor _ Hok g d Hg) as (Hq & m & Hm & _). assert (ac_ptr d = p) as Ep by congruence. rewrite Ep in Hm. by apply Hfresh in Hm.
  - intros name v' Hname. do 2 eexists. rewrite (call_command _ _ _ _ _ ha) by by rewrite Hname. rewrite Efa. cbn [run_handler]. rewrite Hargs. unfold addPeerHandler. rewrite Hu.
    unfold core_AddPeer, links_call, links_add, kick. destruct (dialerFor u); [|done]. rewrite Ho. run_links. fold info. cbn [an_links]. rewrite Hl1, lookup_insert_eq. run_links.
    split; [reflexivity|]. cbn. by rewrite Hl1.
  - intros name v' Hname. do 3 eexists. rewrite (call_command _ _ _ _ _ hr) by by rewrite Hname. rewrite Efr. cbn [run_handler]. rewrite Hargs. unfold removePeerHandler. rewrite Hu.
    unfold core_RemovePeer, links_call, links_remove, on_link, close_conn. run_links. fold info. cbn [an_links]. rewrite Hl1, lookup_insert_eq, Hh1, lookup_insert_eq. cbn [lk_cancelled lk_conn st]. run_links.
    split_and!; [reflexivity|cbn; rewrite Hh1, lookup_alter_eq, lookup_insert_eq; reflexivity|done].
Qed.
End admin.

(** ** Concrete inputs *)

Definition w_admin_libs : AdminLibs := {|
  arg_sort := fun _ => JArg ""%string;
  arg_uri := fun args => match args with [] => JError | _ => JArg ("tls://host:1", "")%string end;
  arg_none := fun _ => JArg tt;
  url_Parse := fun _ => Some (MkUrl "tls" "host:1" [] "");
  ip_text := fun _ => "200::"%string;
  hex_text := fun _ => "00"%string;
  decode_request := fun r b => match b with
    | [Byte.x61] => (true, MkRequest "AddPeer" (rq_Arguments r) true)
    | [Byte.x63] => (true, MkRequest "getPeers" (rq_Arguments r) true)
    | [Byte.x62] => (true, MkRequest "nothing" (rq_Arguments r) false)
    | _ => (false, r)
    end;
  json_Marshal := fun v => Some match v with VEmpty => [Byte.x7b; Byte.x7d] | VPeers l => replicate (length l) Byte.x31 | _ => [] end
|}.
Definition w_admin : AdminSocket :=
  match admin_setup [LogLookups; ListenAddress "unix:///var/run/yggdrasil.sock"] with Some a => a | None => MkAdmin ∅ false end.
Definition w_view : adminView := MkAdminView ([], 0) [] [] [] [].
Definition w_node : adminNode := MkAdminNode (links_init 0) ∅.

(** Three requests and a fourth one after the connection was given up. *)
Definition w_inputs : list (adminView * option (list byte)) :=
  [(w_view, Some [Byte.x61]); (w_view, Some [Byte.x63]); (w_view, Some [Byte.x62]); (w_view, Some [Byte.x61])].
Lemma requests_are_answered_witness : exists resps n' es,
  @admin_handleRequest toy_strings trie_order w_admin_libs Byte.x02 [] (fun _ _ => inr VEmpty) w_admin w_inputs w_view w_node = Some (resps, n', es) /\
  @conversation toy_strings trie_order w_admin_libs Byte.x02 [] (fun _ _ => inr VEmpty) w_admin w_view w_node w_inputs resps n' /\
  map rs_Error resps = [None; None; Some (AeUnknown "nothing")] /\ map rs_Response resps = [[Byte.x7b; Byte.x7d]; [Byte.x31]; []].
Proof.
  destruct (@requests_are_answered toy_strings trie_order w_admin_libs Byte.x02 [] (fun _ _ => inr VEmpty) w_admin w_inputs w_view w_node)
    as (resps & n' & es & E & _ & Hc).
  - apply links_ok_init.
  - repeat constructor; intros b req h [= <-] [= <-]; vm_compute; intros [= <-]; discriminate.
  - exists resps, n', es. split; [exact E|]. split; [exact Hc|]. vm_compute in E. injection E as <- _ _. split; reflexivity.
Defined.

Lemma peers_by_request_witness : exists n1 es p,
  @CallHandler toy_strings trie_order w_admin_libs Byte.x02 [] (fun _ _ => inr VEmpty) (Some w_admin) w_view "ADDPEER" [Byte.x7b] w_node = Some (inr VEmpty, n1, es) /\
  ls_links (an_links n1) = {[@info_for toy_strings (MkUrl "tls" "host:1" [] "") "" := p]}.
Proof.
  destruct (@peers_by_request toy_strings trie_order w_admin_libs Byte.x02 [] (fun _ _ => inr VEmpty) [LogLookups; ListenAddress "unix:///var/run/yggdrasil.sock"]
    w_admin w_view "tls://host:1" "" (MkUrl "tls" "host:1" [] "") (match @add_options toy_strings [] (MkUrl "tls" "host:1" [] "") with inr o => o | inl _ => MkLinkOptions ∅ 0 "" [] 0 end)
    [Byte.x7b] w_node ltac:(vm_compute; reflexivity) eq_refl eq_refl (links_ok_init 0)) as (n1 & es & p & Hcall & _ & Hl & _).
  - vm_compute. discriminate.
  - vm_compute. reflexivity.
  - reflexivity.
  - exists n1, es, p. split; [apply Hcall; reflexivity|exact Hl].
Defined.
