(* ===== verification/Remote.v ===== *)
(** * Commands of other modules

    The commands of the admin socket that [src/core/proto.go] and [nodeinfo.go]
    offer, which ask another node and wait for its answer for six seconds, and those
    of [src/tun/admin.go] and [src/multicast/admin.go]. A command that waits is its
    two parts: what it does before, and what it makes of the answer, if there was
    one; the channel in between holds the answer of the callback. *)

From Stdlib Require Import String Ascii.
From S2P Require Import Prelude Crypto RouterState Address Handshake LinkOptions KeyStore Proto Multicast Tun Api Admin.

Inductive remoteError := ReArguments | ReNoKey | ReKey | ReKeyLength | ReTimeout.
(** What is answered under the address of the node, or under its key: JSON as it
    was received, or keys. *)
Inductive remoteValue := RvRaw (name : string) (bs : list byte) | RvKeys (name : string) (keys : list string).

(** The key of a request. *)
Definition remote_key (s : string) : sum remoteError (array 32) :=
  match hex_DecodeString s with
  | None => inl ReKey
  | Some kbs => if negb (length kbs =? 32)%nat then inl ReKeyLength else inr (array_of 32 kbs)
  end.
(** The arguments are not a pointer, so that null leaves the key empty. *)
Definition key_of (args : jsonArg string) : option string :=
  match args with JError => None | JNull => Some ""%string | JArg s => Some s end.

Section remote.
Context (prefix : byte) (ip_text : list byte -> string).

(** [getSelfHandler], [getPeersHandler] and [getTreeHandler] of [proto.go] *)
Definition remote_ask (k : debugKind) (args : jsonArg string) (callback : nat) : D_ (sum remoteError (array 32)) :=
  match key_of args with
  | None => dret (inl ReArguments)
  | Some s =>
      match remote_key s with
      | inl e => dret (inl e)
      | inr key => _ ← send_request k key callback; dret (inr key)
      end
  end.
Definition remote_answer (k : debugKind) (key : array 32) (answer : option (list byte)) : sum remoteError remoteValue :=
  match answer with
  | None => inl ReTimeout
  | Some info =>
      let ip := match AddrForKey prefix (arr_list key) with Some a => ip_text (arr_list a) | None => ""%string end in
      match k with
      | GetSelf => inr (RvRaw ip info)
      | GetPeers | GetTree => inr (RvKeys ip (map hex_EncodeToString (response_keys info)))
      end
  end.

(** [nodeInfoAdminHandler] *)
Definition nodeinfo_ask (now : Z) (args : jsonArg string) (callback : nat) : D_ (sum remoteError (array 32)) :=
  match key_of args with
  | None => dret (inl ReArguments)
  | Some s =>
      if String.eqb s "" then dret (inl ReNoKey)
      else match remote_key s with
           | inl e => dret (inl e)
           | inr key => _ ← ni_sendReq now key (Some callback); dret (inr key)
           end
  end.
Definition nodeinfo_answer (key : array 32) (answer : option (list byte)) : sum remoteError remoteValue :=
  match answer with
  | None => inl ReTimeout
  | Some info => inr (RvRaw (hex_EncodeToString (arr_list key)) info)
  end.
End remote.

(** ** The adapter and multicast *)

Record GetTUNResponse := MkGetTUN { gt_Enabled : bool; gt_Name : string; gt_MTU : Z }.
Definition getTUNHandler (t : TunAdapter) : GetTUNResponse :=
  if negb (tn_isEnabled t) then MkGetTUN false "" 0
  else MkGetTUN true (tun_Name t) (tun_MTU t).

Record MulticastInterfaceState := MkMulticastState { ms_Name : string; ms_Address : string; ms_Beacon : bool; ms_Listen : bool; ms_Password : bool }.
(** [address]: the address of a listener. *)
Definition getMulticastInterfacesHandler `{MapOrder} (address : nat -> string) (m : multicast) : list MulticastInterfaceState :=
  SortStableFunc (fun a b => str_Compare (ms_Name a) (ms_Name b))
    (omap (fun name => (fun i =>
       MkMulticastState name (match mc_listeners m !! name with Some li => address (li_listener li) | None => "-"%string end)
         (ii_beacon i) (ii_listen i) (negb (length (ii_password i) =? 0)%nat)) <$> mc_interfaces m !! name)
      (map_order (dom (mc_interfaces m)))).

(** ** Lemmas *)

(** A key as the commands print it is read back, whatever the case of its letters. *)
Lemma remote_key_text (key : array 32) (s : string) : hex_DecodeString s = Some (arr_list key) -> remote_key s = inr key.
Proof. intros E. unfold remote_key. rewrite E, length_array. cbn. by rewrite array_of_list. Qed.

(** Each interface is listed once. *)
Lemma interfaces_listed `{MapOrder} address m : map ms_Name (getMulticastInterfacesHandler address m) ≡ₚ elements (dom (mc_interfaces m)).
Proof.
  unfold getMulticastInterfacesHandler.
  rewrite SortStable_perm, <- map_order_perm. assert (forall k, k ∈ map_order (dom (mc_interfaces m)) -> is_Some (mc_interfaces m !! k)) as Hk by (intros k Hk; by apply elem_of_map_order, elem_of_dom in Hk).
  induction (map_order (dom (mc_interfaces m))) as [|k l IH]; [done|]. cbn [omap list_omap]. destruct (Hk k) as (i & ->); [by left|]. cbn. f_equiv. apply IH. intros k' Hk'. apply Hk. by right.
Qed.
