(* ===== verification/Metrics.v ===== *)
(** * Metrics

    [src/metrics/metrics.go]: the metrics, what [Collect] sends for the state of a
    node, and the two checks of the Prometheus library that the code relies on: a
    sample has a value for every label of its metric, or [MustNewConstMetric]
    panics; and no two samples have the same metric and labels, or nothing is shown.
    The HTTP server is left out. *)

From Stdlib Require Import String.
From S2P Require Import Prelude Crypto RouterState RouterCost Address LinkOptions Links Multicast Tun Api Admin Remote.

(** [BuildName] and [BuildVersion] of [src/version]; what the build sets. *)
Definition or_unknown (s : string) : string := if String.eqb s "" then "unknown"%string else s.
Definition BuildName (buildName : string) : string := or_unknown buildName.
Definition BuildVersion (buildVersion : string) : string := or_unknown buildVersion.

Inductive metricDesc :=
| BuildInfo | RoutingEntries | PeersTotal | PeersUpTotal | PeerUp | PeerBytesSent | PeerBytesRecv | PeerTXRate | PeerRXRate | PeerUptime
| PeerLatency | PeerPriority | PeerCost | PeerLastErrTime | SessionsTotal | SessionTXBytes | SessionRXBytes | SessionUptime | TreeTotal | PathsTotal
| TunEnabled | TunMTUBytes | MulticastTotal | MulticastIfUp.
#[global] Instance metricDesc_eq_dec : EqDecision metricDesc.
Proof. solve_decision. Defined.

Definition peerLabels : list string := ["self"; "peer"; "remote"; "ip"; "direction"]%string.
Definition sessionLabels : list string := ["self"; "peer"; "ip"]%string.

(** The name of a metric, after the prefix, and its labels. *)
Definition desc (d : metricDesc) : string * list string :=
  match d with
  | BuildInfo => ("build_info", ["version"; "build_name"; "public_key"; "address"])
  | RoutingEntries => ("routing_entries", [])
  | PeersTotal => ("peers_total", [])
  | PeersUpTotal => ("peers_up_total", [])
  | PeerUp => ("peer_up", peerLabels)
  | PeerBytesSent => ("peer_bytes_sent_total", peerLabels)
  | PeerBytesRecv => ("peer_bytes_received_total", peerLabels)
  | PeerTXRate => ("peer_tx_rate_bytes", peerLabels)
  | PeerRXRate => ("peer_rx_rate_bytes", peerLabels)
  | PeerUptime => ("peer_uptime_seconds", peerLabels)
  | PeerLatency => ("peer_latency_microseconds", peerLabels)
  | PeerPriority => ("peer_priority", peerLabels)
  | PeerCost => ("peer_cost", peerLabels)
  | PeerLastErrTime => ("peer_last_error_seconds_ago", peerLabels)
  | SessionsTotal => ("sessions_total", [])
  | SessionTXBytes => ("session_bytes_sent_total", sessionLabels)
  | SessionRXBytes => ("session_bytes_received_total", sessionLabels)
  | SessionUptime => ("session_uptime_seconds", sessionLabels)
  | TreeTotal => ("tree_entries_total", [])
  | PathsTotal => ("paths_total", [])
  | TunEnabled => ("tun_enabled", ["name"])
  | TunMTUBytes => ("tun_mtu_bytes", ["name"])
  | MulticastTotal => ("multicast_interfaces_total", [])
  | MulticastIfUp => ("multicast_interface_up", ["name"; "beacon"; "listen"])
  end%string.

Definition descs : list metricDesc :=
  [BuildInfo; RoutingEntries; PeersTotal; PeersUpTotal; PeerUp; PeerBytesSent; PeerBytesRecv; PeerTXRate; PeerRXRate; PeerUptime;
   PeerLatency; PeerPriority; PeerCost; PeerLastErrTime; SessionsTotal; SessionTXBytes; SessionRXBytes; SessionUptime; TreeTotal; PathsTotal;
   TunEnabled; TunMTUBytes; MulticastTotal; MulticastIfUp].

(** A sample; a duration is a number of seconds. *)
Inductive metricValue := Number (n : Z) | Seconds (d : Z).
Record metric := MkMetric { sm_desc : metricDesc; sm_value : metricValue; sm_labels : list string }.

Definition boolGauge (b : bool) : metricValue := Number (if b then 1 else 0).
Definition FormatBool (b : bool) : string := if b then "true"%string else "false"%string.

Section metrics.
Context `{AdminLibs, MapOrder} (prefix : byte).

Definition keyToHex (key : list byte) : string := if (length key =? 0)%nat then ""%string else hex_text key.
Definition keyToAddr (key : list byte) : string :=
  if (length key =? 0)%nat then ""%string
  else match AddrForKey prefix key with Some a => ip_text (arr_list a) | None => ""%string end.

Definition peer_labels (selfKey : string) (p : PeerInfo) : list string :=
  [selfKey; keyToHex (pf_Key p); pf_URI p; keyToAddr (pf_Key p); if pf_Inbound p then "in"%string else "out"%string].
(** The samples of a peer; [IsZero] of a time is that it is zero. *)
Definition peer_metrics (now : Z) (selfKey : string) (p : PeerInfo) : list metric :=
  let m d v := MkMetric d v (peer_labels selfKey p) in
  [m PeerUp (boolGauge (pf_Up p)); m PeerBytesSent (Number (pf_TXBytes p)); m PeerBytesRecv (Number (pf_RXBytes p)); m PeerTXRate (Number (pf_TXRate p));
   m PeerRXRate (Number (pf_RXRate p)); m PeerUptime (Seconds (pf_Uptime p)); m PeerLatency (Number (Z.quot (pf_Latency p) 1000));
   m PeerPriority (Number (pf_Priority p)); m PeerCost (Number (pf_Cost p));
   m PeerLastErrTime (if pf_LastErrorTime p =? 0 then Number 0 else Seconds (time_Sub now (pf_LastErrorTime p)))].

Definition session_labels (selfKey : string) (s : SessionInfo) : list string := [selfKey; keyToHex (sf_Key s); keyToAddr (sf_Key s)].
Definition session_metrics (selfKey : string) (s : SessionInfo) : list metric :=
  let m d v := MkMetric d v (session_labels selfKey s) in
  [m SessionTXBytes (Number (sf_TXBytes s)); m SessionRXBytes (Number (sf_RXBytes s)); m SessionUptime (Seconds (sf_Uptime s))].

Definition tun_metrics (info : GetTUNResponse) : list metric :=
  let name := if String.eqb (gt_Name info) "" then "none"%string else gt_Name info in
  MkMetric TunEnabled (boolGauge (gt_Enabled info)) [name] :: (if gt_Enabled info then [MkMetric TunMTUBytes (Number (gt_MTU info)) [name]] else []).

Definition interface_labels (i : MulticastInterfaceState) : list string := [ms_Name i; FormatBool (ms_Beacon i); FormatBool (ms_Listen i)].
Definition multicast_metrics (l : list MulticastInterfaceState) : list metric :=
  MkMetric MulticastTotal (Number (Z.of_nat (length l))) [] ::
  map (fun i => MkMetric MulticastIfUp (boolGauge (negb (String.eqb (ms_Address i) "-"))) (interface_labels i)) l.

(** What the node answers while [Collect] runs. *)
Record metricsView := MkMetricsView {
  mv_public : list byte; mv_routing : Z; mv_peers : list PeerInfo; mv_sessions : list SessionInfo; mv_tree : nat; mv_paths : nat;
  mv_tun : option GetTUNResponse; mv_multicast : option (list MulticastInterfaceState)
}.

Definition Collect (buildName buildVersion : string) (now : Z) (v : metricsView) : list metric :=
  let selfKey := hex_text (mv_public v) in
  [MkMetric BuildInfo (Number 1) [BuildVersion buildVersion; BuildName buildName; selfKey; keyToAddr (mv_public v)];
   MkMetric RoutingEntries (Number (mv_routing v)) [];
   MkMetric PeersTotal (Number (Z.of_nat (length (mv_peers v)))) [];
   MkMetric PeersUpTotal (Number (Z.of_nat (length (filter (fun p => pf_Up p = true) (mv_peers v))))) []] ++
  concat (map (peer_metrics now selfKey) (mv_peers v)) ++
  [MkMetric SessionsTotal (Number (Z.of_nat (length (mv_sessions v)))) []] ++
  concat (map (session_metrics selfKey) (mv_sessions v)) ++
  [MkMetric TreeTotal (Number (Z.of_nat (mv_tree v))) []; MkMetric PathsTotal (Number (Z.of_nat (mv_paths v))) []] ++
  match mv_tun v with Some info => tun_metrics info | None => [] end ++
  match mv_multicast v with Some l => multicast_metrics l | None => [] end.

(** The check of [MustNewConstMetric], and that of the registry, which shows all of
    the samples or none. *)
Definition const_metric_ok (m : metric) : bool := (length (sm_labels m) =? length (desc (sm_desc m)).2)%nat.
Definition sample_id (m : metric) : metricDesc * list string := (sm_desc m, sm_labels m).
Definition Gather (l : list metric) : option (list metric) := if bool_decide (NoDup (map sample_id l)) then Some l else None.
End metrics.

(** ** Properties of the metrics

    Every sample has the labels of its metric, and the page fails exactly when two
    peers, sessions or interfaces have the same labels. *)

Lemma NoDup_map_app {A B} (f : A -> B) l k : NoDup (map f (l ++ k)) <-> NoDup (map f l) /\ (forall x y, x ∈ l -> y ∈ k -> f x <> f y) /\ NoDup (map f k).
Proof.
  rewrite map_app, NoDup_app. split; intros (H1 & H2 & H3); split_and!; try done.
  - intros x y Hx Hy E. apply (H2 (f x)); [by apply list_elem_of_fmap_2|]. rewrite E. by apply list_elem_of_fmap_2.
  - intros z (x & -> & Hx)%list_elem_of_fmap (y & E & Hy)%list_elem_of_fmap. by apply (H2 x y).
Qed.

(** Samples in rows, each with the same metrics and its own labels. *)
Lemma NoDup_rows {A} (ds : list metricDesc) (labels : A -> list string) (row : A -> list metric) l : ds <> [] -> NoDup ds ->
  (forall x, map sample_id (row x) = map (fun d => (d, labels x)) ds) ->
  NoDup (map sample_id (concat (map row l))) <-> NoDup (map labels l).
Proof.
  intros Hne Hds Hrow. assert (forall x, NoDup (map sample_id (row x))) as Hone.
  { intros x. rewrite Hrow. by apply (NoDup_fmap_2 (fun d => (d, labels x))). }
  assert (forall x m, m ∈ row x -> (sample_id m).2 = labels x) as Hlab.
  { intros x m Hm. assert (sample_id m ∈ map sample_id (row x)) as Hi by by apply list_elem_of_fmap_2. rewrite Hrow in Hi. by apply list_elem_of_fmap in Hi as (d & -> & _). }
  assert (forall x y, labels x = labels y -> exists m m', m ∈ row x /\ m' ∈ row y /\ sample_id m = sample_id m') as Hsame.
  { intros x y E. destruct ds as [|d ds]; [done|]. assert ((d, labels x) ∈ map sample_id (row x)) as (m & Em & Hm)%list_elem_of_fmap by (rewrite Hrow; left).
    assert ((d, labels y) ∈ map sample_id (row y)) as (m' & Em' & Hm')%list_elem_of_fmap by (rewrite Hrow; left). exists m, m'. split_and!; [done|done|congruence]. }
  induction l as [|x l IH]; cbn [map concat]; [split; constructor|]. rewrite NoDup_map_app, NoDup_cons, IH. split.
  - intros (_ & Hd & Hl). split; [|done]. intros (y & E & Hy)%list_elem_of_fmap. destruct (Hsame x y E) as (m & m' & Hm & Hm' & Es).
    apply (Hd m m' Hm); [|done]. apply list_elem_of_In, in_concat. exists (row y). split; [apply in_map|]; by apply list_elem_of_In.
  - intros [Hn Hl]. split_and!; [done| |done]. intros m m' Hm Hm' E. apply Hn.
    apply list_elem_of_In, in_concat in Hm' as (r & (y & <- & Hy)%in_map_iff & Hm').
    apply list_elem_of_fmap. exists y. split; [|by apply list_elem_of_In]. rewrite <- (Hlab x m Hm), <- (Hlab y m') by by apply list_elem_of_In. by rewrite E.
Qed.

Section metrics.
Context `{AdminLibs, MapOrder} (prefix : byte) (buildName buildVersion : string) (now : Z).

(** No panic: whatever the node answers, a sample has as many labels as its metric,
    and its metric is one that is announced. *)
Theorem samples_well_formed v m : m ∈ Collect prefix buildName buildVersion now v -> const_metric_ok m = true /\ sm_desc m ∈ descs.
Proof.
  enough (forall m, m ∈ Collect prefix buildName buildVersion now v -> const_metric_ok m = true) as Hx.
  { intros Hm. split; [by apply Hx|]. destruct (sm_desc m); cbn; set_solver. }
  clear m. intros m. unfold Collect. rewrite !elem_of_app. intros [Hm|[Hm|[Hm|[Hm|[Hm|[Hm|Hm]]]]]].
  - repeat (apply elem_of_cons in Hm as [->|Hm]; [done|]). by apply elem_of_nil in Hm.
  - apply list_elem_of_In, in_concat in Hm as (r & (p & <- & _)%in_map_iff & Hm%list_elem_of_In). unfold peer_metrics in Hm.
    repeat (apply elem_of_cons in Hm as [->|Hm]; [done|]). by apply elem_of_nil in Hm.
  - apply list_elem_of_singleton in Hm as ->. done.
  - apply list_elem_of_In, in_concat in Hm as (r & (p & <- & _)%in_map_iff & Hm%list_elem_of_In). unfold session_metrics in Hm.
    repeat (apply elem_of_cons in Hm as [->|Hm]; [done|]). by apply elem_of_nil in Hm.
  - repeat (apply elem_of_cons in Hm as [->|Hm]; [done|]). by apply elem_of_nil in Hm.
  - destruct (mv_tun v) as [info|]; [|by apply elem_of_nil in Hm]. unfold tun_metrics in Hm. apply elem_of_cons in Hm as [->|Hm]; [done|].
    destruct (gt_Enabled info); [apply list_elem_of_singleton in Hm as ->; done|by apply elem_of_nil in Hm].
  - destruct (mv_multicast v) as [l|]; [|by apply elem_of_nil in Hm]. unfold multicast_metrics in Hm. apply elem_of_cons in Hm as [->|Hm]; [done|].
    by apply list_elem_of_fmap in Hm as (i & -> & _).
Qed.

(** The part of [Collect] that a metric comes from. *)
Definition part (d : metricDesc) : nat :=
  match d with
  | BuildInfo | RoutingEntries | PeersTotal | PeersUpTotal => 0
  | PeerUp | PeerBytesSent | PeerBytesRecv | PeerTXRate | PeerRXRate | PeerUptime | PeerLatency | PeerPriority | PeerCost | PeerLastErrTime => 1
  | SessionsTotal => 2
  | SessionTXBytes | SessionRXBytes | SessionUptime => 3
  | TreeTotal | PathsTotal => 4
  | TunEnabled | TunMTUBytes => 5
  | MulticastTotal => 6
  | MulticastIfUp => 7
  end.
Definition in_part (i : nat) (m : metric) : Prop := part (sm_desc m) = i.
Definition after_part (i : nat) (m : metric) : Prop := (i < part (sm_desc m))%nat.

Lemma parts_apart i l k : Forall (in_part i) l -> Forall (after_part i) k ->
  NoDup (map sample_id (l ++ k)) <-> NoDup (map sample_id l) /\ NoDup (map sample_id k).
Proof.
  intros Hl Hk. rewrite NoDup_map_app. rewrite Forall_forall in Hl, Hk. split; [tauto|]. intros [H1 H2]. split_and!; [done| |done].
  intros x y Hx%Hl Hy%Hk [= E _]. unfold in_part, after_part in *. rewrite E in Hx. lia.
Qed.

Lemma part_weaken i j l : (i < j)%nat -> Forall (in_part j) l -> Forall (after_part i) l.
Proof. intros Hij Hl. eapply Forall_impl; [exact Hl|]. unfold in_part, after_part. intros m ->. done. Qed.

Lemma rows_in_part {A} i (row : A -> list metric) l : (forall x, Forall (in_part i) (row x)) -> Forall (in_part i) (concat (map row l)).
Proof. intros Hr. induction l as [|x l IH]; [constructor|]. cbn. by apply Forall_app. Qed.

(** The page is shown exactly when no two peers have the same URI, key, address and
    direction, and no two sessions and no two interfaces have the same labels. *)
Theorem metrics_shown v : let selfKey := hex_text (mv_public v) in
  Gather (Collect prefix buildName buildVersion now v) <> None <->
  NoDup (map (peer_labels prefix selfKey) (mv_peers v)) /\ NoDup (map (session_labels prefix selfKey) (mv_sessions v)) /\
  (forall l, mv_multicast v = Some l -> NoDup (map interface_labels l)).
Proof.
  intros selfKey. unfold Gather. rewrite bool_decide_decide. transitivity (NoDup (map sample_id (Collect prefix buildName buildVersion now v))).
  { destruct (decide _); naive_solver. }
  unfold Collect. fold selfKey. set (peers := concat (map (peer_metrics prefix now selfKey) _)). set (sessions := concat (map (session_metrics prefix selfKey) _)).
  set (tun := match mv_tun v with Some _ => _ | None => _ end). set (mc := match mv_multicast v with Some _ => _ | None => _ end).
  assert (Forall (in_part 1) peers) as P1 by (apply rows_in_part; intros p; by repeat constructor).
  assert (Forall (in_part 3) sessions) as P3 by (apply rows_in_part; intros p; by repeat constructor).
  assert (Forall (in_part 5) tun) as P5.
  { unfold tun. destruct (mv_tun v) as [info|]; [|constructor]. unfold tun_metrics. destruct (gt_Enabled info); by repeat constructor. }
  assert (Forall (after_part 5) mc) as P6.
  { unfold mc. destruct (mv_multicast v) as [l|]; [|constructor]. unfold multicast_metrics. constructor; [unfold after_part; cbn; lia|].
    apply Forall_fmap, Forall_forall. intros i _. unfold after_part. cbn. lia. }
  assert (forall i, (i < 5)%nat -> Forall (after_part i) mc) as P6'.
  { intros i Hi. eapply Forall_impl; [exact P6|]. unfold after_part. intros m Hm. lia. }
  rewrite (parts_apart 0), (parts_apart 1), (parts_apart 2), (parts_apart 3), (parts_apart 4), (parts_apart 5);
    try (rewrite ?Forall_app; split_and?; first [done | by apply P6'; lia | by eapply part_weaken; [|eassumption]; lia | by repeat constructor; unfold after_part; cbn; lia | by repeat constructor]).
  unfold peers at 1. rewrite (NoDup_rows [PeerUp; PeerBytesSent; PeerBytesRecv; PeerTXRate; PeerRXRate; PeerUptime; PeerLatency; PeerPriority; PeerCost; PeerLastErrTime]
    (peer_labels prefix selfKey)); [|done|by apply (bool_decide_unpack _); vm_compute|done].
  unfold sessions at 1. rewrite (NoDup_rows [SessionTXBytes; SessionRXBytes; SessionUptime] (session_labels prefix selfKey)); [|done|by apply (bool_decide_unpack _); vm_compute|done].
  assert (NoDup (map sample_id tun)) as Ht.
  { unfold tun. destruct (mv_tun v) as [info|]; [|constructor]. unfold tun_metrics. destruct (gt_Enabled info); cbn; repeat (constructor; [set_solver|]); constructor. }
  assert (NoDup (map sample_id mc) <-> forall l, mv_multicast v = Some l -> NoDup (map interface_labels l)) as ->.
  { unfold mc. destruct (mv_multicast v) as [l|]; [|split; [done|constructor]]. unfold multicast_metrics. cbn [map]. rewrite NoDup_cons, map_map. split.
    - intros [_ Hn] l' [= <-]. apply (NoDup_fmap_1 (fun x => (MulticastIfUp, x))). change (NoDup (map (fun x => (MulticastIfUp, x)) (map interface_labels l))). by rewrite map_map.
    - intros Hn. split; [by intros (i & ? & _)%list_elem_of_fmap|]. specialize (Hn l eq_refl).
      apply (NoDup_fmap_2 (fun x => (MulticastIfUp, x))) in Hn. change (NoDup (map (fun x => (MulticastIfUp, x)) (map interface_labels l))) in Hn. by rewrite map_map in Hn. }
  assert (NoDup (map sample_id [MkMetric TreeTotal (Number (Z.of_nat (mv_tree v))) []; MkMetric PathsTotal (Number (Z.of_nat (mv_paths v))) []])) as H4 by (cbn; repeat (constructor; [set_solver|]); constructor).
  match goal with |- context [NoDup (map sample_id [MkMetric BuildInfo ?a ?b; ?c; ?d; ?e])] =>
    assert (NoDup (map sample_id [MkMetric BuildInfo a b; c; d; e])) as H0' by (cbn; repeat (constructor; [set_solver|]); constructor) end.
  assert (NoDup (map sample_id [MkMetric SessionsTotal (Number (Z.of_nat (length (mv_sessions v)))) []])) as H2 by (cbn; apply NoDup_singleton).
  tauto.
Qed.

(** So two peers with one URI, as on two interfaces, hide all metrics while neither
    is connected. *)
Lemma same_uri_hides_metrics v i j p q : i <> j -> mv_peers v !! i = Some p -> mv_peers v !! j = Some q -> pf_Key p = [] -> pf_Key q = [] ->
  pf_URI p = pf_URI q -> pf_Inbound p = pf_Inbound q -> Gather (Collect prefix buildName buildVersion now v) = None.
Proof.
  intros Hij Hp Hq Kp Kq Hu Hi. destruct (Gather _) eqn:E; [|done]. assert (Gather (Collect prefix buildName buildVersion now v) <> None) as Hg by by rewrite E.
  apply metrics_shown in Hg as [Hn _]. destruct Hij. eapply NoDup_lookup; [exact Hn|rewrite list_lookup_fmap, Hp; reflexivity|].
  rewrite list_lookup_fmap, Hq. cbn. unfold peer_labels. by rewrite Kp, Kq, Hu, Hi.
Qed.
End metrics.
