(* ===== verification/Ctl.v ===== *)
(** * The program that talks to the admin socket

    [cmd/yggdrasilctl]: where it connects to, the request that it makes of its
    arguments, the table of peers, and its exit status. A panic anywhere is
    recovered in [run]. The parsers of URLs and of configuration files, and how
    numbers, sizes and times are written, are interfaces; the other tables only
    print fields one after the other. *)

From Stdlib Require Import String Ascii.
From S2P Require Import Prelude RouterState RouterCost LinkOptions Links GoStr ConfigFile Admin.

(** ** The command line *)

Record CmdLineEnv := MkEnvLine {
  cl_args : list string; cl_endpoint : string; cl_server : string;
  cl_injson : bool; cl_borders : bool; cl_ver : bool; cl_verbose : bool; cl_state : string
}.
Definition set_cl_endpoint (v : string) (e : CmdLineEnv) : CmdLineEnv :=
  MkEnvLine (cl_args e) v (cl_server e) (cl_injson e) (cl_borders e) (cl_ver e) (cl_verbose e) (cl_state e).

Class CtlLibs := {
  ctl_url : string -> option (string * string);
  ctl_utf16 : list byte -> option (list byte);
  ctl_AdminListen : list byte -> option (option string);
  strip_query : string -> string;
  info_name : list byte -> option string;
  failure_text : linkFailure -> string;
  duration_text : Z -> string;
  size_text : Z -> string;
  number_text : Z -> string;
  millis_text : Z -> string
}.

Section ctl.
Context `{CtlLibs}.

(** [setEndpoint], with what the default configuration file holds, if it can be
    read. The first two bytes are within the capacity of what [ReadFile] gives. *)
Definition setEndpoint (config : option (list byte)) (e : CmdLineEnv) : option CmdLineEnv :=
  if String.eqb (cl_server e) (cl_endpoint e) then
    match config with
    | None => Some e
    | Some cfg =>
        match (if has_bom (cfg ++ [Byte.x00; Byte.x00]) then ctl_utf16 cfg else Some cfg) with
        | None => None
        | Some cfg =>
            match ctl_AdminListen cfg with
            | None => None
            | Some (Some ep) => Some (if negb (String.eqb ep "none") && negb (String.eqb ep "") then set_cl_endpoint ep e else e)
            | Some None => Some e
            end
        end
    end
  else Some (set_cl_endpoint (cl_server e) e).

(** Where it connects: [None] is a panic. An endpoint that is no URL leaves [u] nil,
    and its host is read before the address is tried as it is. *)
Inductive dialTarget := DialAt (network address : string) | DialUnsupported.
Definition dial_target (endpoint : string) : option dialTarget :=
  match ctl_url endpoint with
  | Some (scheme, host) =>
      let s := ToLower scheme in
      if String.eqb s "unix" then
        if (7 <=? String.length endpoint)%nat then Some (DialAt "unix" (String.substring 7 (String.length endpoint - 7) endpoint)) else None
      else if String.eqb s "tcp" then Some (DialAt "tcp" host)
      else Some DialUnsupported
  | None => None
  end.

(** ** The request *)

(** [strings.SplitN(a, "=", 2)], when there are two parts. *)
Fixpoint cut_equals (a : string) : option (string * string) :=
  match a with
  | EmptyString => None
  | String c a => if Ascii.eqb c "=" then Some (EmptyString, a) else (fun '(k, v) => (String c k, v)) <$> cut_equals a
  end.
Definition add_argument (args : gmap string string) (a : string) : gmap string string :=
  match cut_equals a with Some (k, v) => <[k := v]> args | None => args end.
(** The name and the arguments of the request. *)
Definition ctl_request (args : list string) : string * gmap string string :=
  match args with
  | [] => (EmptyString, ∅)
  | a :: rest => (if HasPrefix a "-" then EmptyString else a, fold_left add_argument rest ∅)
  end.

(** ** The table of peers *)

Definition peer_headers (verbose : bool) : list string :=
  ["URI"; "State"; "Dir"; "Community"; "Name"; "IP Address"; "Uptime"; "RTT"; "RX"; "TX"; "Down"; "Up"; "Pr"; "Cost"]%string ++
  (if verbose then ["Last Error"%string] else []).

(** Whether a peer is shown; [None] is a filter that is refused. *)
Definition state_filter (state : string) : option (bool -> bool) :=
  let f := ToLower state in
  if String.eqb f "" then Some (fun _ => true)
  else if String.eqb f "up" then Some (fun up => up)
  else if String.eqb f "down" then Some negb
  else None.

(** A row; [Uptime] comes as seconds. *)
Definition peer_row (verbose : bool) (p : PeerEntry) : list string :=
  let lasterr :=
    match pn_Up p, pn_LastError p with
    | false, Some (e, t) => (duration_text (Api.dur_Round Second t) ++ " ago: " ++ failure_text e)%string
    | _, _ => "-"%string
    end in
  let rtt := let us := Z.quot (pn_Latency p) 1000 in if pn_Up p && (0 <? us) then millis_text us else "-"%string in
  let name :=
    match pn_NodeInfo p with
    | [] => "-"%string
    | bs => match info_name bs with Some n => if String.eqb n "" then "-"%string else n | None => "-"%string end
    end in
  let rate r := if 0 <? r then (size_text r ++ "/s")%string else "-"%string in
  [strip_query (pn_URI p); if pn_Up p then "Up"%string else "Down"%string; if pn_Inbound p then "In"%string else "Out"%string;
   pn_CommunityStatus p; name; pn_IPAddress p; duration_text (i64 (Z.quot (pn_Uptime p) Second * Second)); rtt;
   size_text (pn_RXBytes p); size_text (pn_TXBytes p); rate (pn_RXRate p); rate (pn_TXRate p);
   number_text (pn_Priority p); number_text (pn_Cost p)] ++ (if verbose then [lasterr] else []).

Definition peer_table (verbose : bool) (state : string) (peers : list PeerEntry) : option (list (list string)) :=
  (fun keep => peer_headers verbose :: map (peer_row verbose) (filter (fun p => keep (pn_Up p) = true) peers)) <$> state_filter state.

(** ** The exit status *)

(** An answer: whether its status is an error, the peers in it, and whether the
    answers to other commands have the form of their type. *)
Record ctlReply := MkReply { cr_error : bool; cr_peers : option (list PeerEntry); cr_parses : bool }.

Inductive ctlCommand := CtlPeers | CtlTable | CtlRaw.
Definition ctl_command (name : string) : ctlCommand :=
  let name := ToLower name in
  if String.eqb name "getpeers" then CtlPeers
  else if existsb (String.eqb name) ["list"; "getself"; "gettree"; "getpaths"; "getsessions"; "getnodeinfo"; "getmulticastinterfaces"; "gettun"]%string
  then CtlTable
  else CtlRaw.

(** What the body of [run] does with an answer: [None] is a panic. *)
Definition ctl_show (e : CmdLineEnv) (name : string) (r : ctlReply) : option (Z * list (list string)) :=
  if cr_error r then Some (1, [])
  else if cl_injson e then Some (0, [])
  else match ctl_command name with
       | CtlPeers =>
           match cr_peers r with
           | None => None
           | Some peers => Some (match peer_table (cl_verbose e) (cl_state e) peers with Some rows => (0, rows) | None => (1, []) end)
           end
       | CtlTable => if cr_parses r then Some (0, []) else None
       | CtlRaw => Some (0, [])
       end.

(** The body of [run]; [exchange] is the connection, the request and the answer. *)
Definition run_body (config : option (list byte)) (exchange : string -> string -> string * gmap string string -> option ctlReply) (e : CmdLineEnv) :
    option (Z * list (list string)) :=
  if cl_ver e then Some (0, [])
  else match cl_args e with
       | [] => Some (0, [])
       | args =>
           match setEndpoint config e with
           | None => None
           | Some e =>
               match dial_target (cl_endpoint e) with
               | None | Some DialUnsupported => None
               | Some (DialAt network address) =>
                   match exchange network address (ctl_request args) with
                   | None => None
                   | Some r => ctl_show e (ctl_request args).1 r
                   end
               end
           end
       end.

(** [run]: the function that recovers returns 1, but to nobody, and the result of
    [run] is what it was, zero. *)
Definition ctl_run (config : option (list byte)) (exchange : string -> string -> string * gmap string string -> option ctlReply) (e : CmdLineEnv) : Z :=
  match run_body config exchange e with Some (code, _) => code | None => 0 end.
End ctl.

(** ** Properties of the program that talks to the admin socket

    Its table of peers has a column for every header and shows the peers that the
    filter asks for; and its exit status does not tell of a failure. *)

Lemma filter_all {A} (P : A -> Prop) `{!forall x, Decision (P x)} (l : list A) : (forall x, P x) -> filter P l = l.
Proof. intros HP. induction l as [|x l IH]; [done|]. by rewrite filter_cons_True, IH by apply HP. Qed.

Section ctl.
Context `{CtlLibs}.

(** Every row has the columns of the header, and with one of the two filters the
    rows are those of the peers that are up, or of the others; any other word than
    these, in whatever case, is refused. *)
Theorem table_of_peers verbose state peers :
  match peer_table verbose state peers with
  | Some rows =>
      Forall (fun row => length row = length (peer_headers verbose)) rows /\
      exists shown, rows = peer_headers verbose :: map (peer_row verbose) shown /\
        shown = (if String.eqb (ToLower state) "" then peers else filter (fun p => pn_Up p = String.eqb (ToLower state) "up") peers)
  | None => ToLower state ∉ [""; "up"; "down"]%string
  end.
Proof.
  unfold peer_table, state_filter.
  assert (forall shown, Forall (fun row => length row = length (peer_headers verbose)) (peer_headers verbose :: map (peer_row verbose) shown)) as Hrows.
  { intros shown. constructor; [done|]. apply Forall_fmap, Forall_forall. intros p _. by destruct verbose. }
  destruct (String.eqb_spec (ToLower state) ""); cbn.
  - split; [apply Hrows|]. eexists. split; [done|]. by apply filter_all.
  - destruct (String.eqb_spec (ToLower state) "up"); cbn.
    + split; [apply Hrows|]. by eexists.
    + destruct (String.eqb_spec (ToLower state) "down"); cbn.
      * split; [apply Hrows|]. eexists. split; [done|]. apply list_filter_iff. intros p. by destruct (pn_Up p).
      * set_solver.
Qed.

(** A failure that panics leaves the exit status zero: whatever the arguments, if
    there is no connection or no answer. *)
Theorem failures_exit_with_zero config exchange e : (forall network address request, exchange network address request = None) ->
  ctl_run config exchange e = 0.
Proof.
  intros Hx. unfold ctl_run, run_body. destruct (cl_ver e); [done|]. destruct (cl_args e); [done|]. destruct (setEndpoint config e) as [e'|]; [|done].
  destruct (dial_target (cl_endpoint e')) as [[network address|]|]; [|done..]. by rewrite Hx.
Qed.

(** An endpoint that is no URL is never tried as an address. *)
Lemma bare_address_fails config exchange e : cl_ver e = false -> cl_args e <> [] -> cl_server e <> cl_endpoint e -> ctl_url (cl_server e) = None ->
  run_body config exchange e = None.
Proof.
  intros Hv Ha Hs Hu. unfold run_body. rewrite Hv. destruct (cl_args e); [done|]. unfold setEndpoint.
  destruct (String.eqb_spec (cl_server e) (cl_endpoint e)); [done|]. unfold dial_target. cbn [cl_endpoint set_cl_endpoint]. by rewrite Hu.
Qed.
End ctl.
