(* ===== verification/Start.v ===== *)
(** * The start of a node

    [src/core/core.go], [New], with the options of [options.go]: first those that
    configure the node, then the key, and with the links in place the peers, the
    node information and the listeners. Parsing of URIs, TLS and whether a socket
    can be opened are arguments. *)

From Stdlib Require Import String.
From S2P Require Import Prelude Crypto RouterState Address Handshake LinkOptions Links LinksInv KeyStore Proto Listeners Api.

Section start.
Context `{GoStrings, MapOrder, Json} (prefix : byte) (url_Parse : string -> option url).

Inductive startOption :=
| OptPeer (uri sintf : string)
| OptListen (addr : string)
| OptNodeInfo (given : gmap string json)
| OptPrivacy (privacy : bool)
| OptSNIs (l : list string)
| OptFilter (f : list byte -> bool)
| OptCore (o : setupOption).

Inductive newError := StMode | StNoKey | StKeyLength | StTLS | StURI | StLink (e : linkError) | StNodeInfo (e : nodeInfoError).

Record coreState := MkCoreState {
  cs_config : coreConfig;
  cs_snis : list string;
  cs_filter : option (list byte -> bool);
  cs_addrs : gset string;
  cs_nodeinfo : gmap string json;
  cs_privacy : bool;
  cs_links : linksState;
  cs_listening : listeners;
  cs_proto : protoHandler
}.
Definition set_cs_config v (c : coreState) : coreState := MkCoreState v (cs_snis c) (cs_filter c) (cs_addrs c) (cs_nodeinfo c) (cs_privacy c) (cs_links c) (cs_listening c) (cs_proto c).
Definition set_cs_snis v (c : coreState) : coreState := MkCoreState (cs_config c) v (cs_filter c) (cs_addrs c) (cs_nodeinfo c) (cs_privacy c) (cs_links c) (cs_listening c) (cs_proto c).
Definition set_cs_filter v (c : coreState) : coreState := MkCoreState (cs_config c) (cs_snis c) v (cs_addrs c) (cs_nodeinfo c) (cs_privacy c) (cs_links c) (cs_listening c) (cs_proto c).
Definition set_cs_addrs v (c : coreState) : coreState := MkCoreState (cs_config c) (cs_snis c) (cs_filter c) v (cs_nodeinfo c) (cs_privacy c) (cs_links c) (cs_listening c) (cs_proto c).
Definition set_cs_info g p (c : coreState) : coreState := MkCoreState (cs_config c) (cs_snis c) (cs_filter c) (cs_addrs c) g p (cs_links c) (cs_listening c) (cs_proto c).
Definition set_cs_links v (c : coreState) : coreState := MkCoreState (cs_config c) (cs_snis c) (cs_filter c) (cs_addrs c) (cs_nodeinfo c) (cs_privacy c) v (cs_listening c) (cs_proto c).
Definition set_cs_listening v (c : coreState) : coreState := MkCoreState (cs_config c) (cs_snis c) (cs_filter c) (cs_addrs c) (cs_nodeinfo c) (cs_privacy c) (cs_links c) v (cs_proto c).
Definition set_cs_proto v (c : coreState) : coreState := MkCoreState (cs_config c) (cs_snis c) (cs_filter c) (cs_addrs c) (cs_nodeinfo c) (cs_privacy c) (cs_links c) (cs_listening c) v.

(** Either an error or a node; [None] is a panic. *)
Definition Start (A : Type) : Type := option (sum newError A).

(** The first round of options, and the second. *)
Definition apply_config (o : startOption) (c : coreState) : Start coreState :=
  match o with
  | OptPeer _ _ | OptListen _ => Some (inr c)
  | OptNodeInfo g => Some (inr (set_cs_info g (cs_privacy c) c))
  | OptPrivacy b => Some (inr (set_cs_info (cs_nodeinfo c) b c))
  | OptSNIs l => Some (inr (set_cs_snis l c))
  | OptFilter f => Some (inr (set_cs_filter (Some f) c))
  | OptCore o =>
      let '(config, ok) := applyOption o (cs_config c) in
      if ok : bool then Some (inr (set_cs_config config c)) else Some (inl StMode)
  end.
Definition apply_peer (o : startOption) (c : coreState) : Start coreState :=
  match o with
  | OptPeer uri sintf =>
      match url_Parse uri with
      | None => Some (inl StURI)
      | Some u =>
          match links_add (cs_snis c) u sintf linkTypePersistent (cs_links c) with
          | None => None
          | Some (_, links, es) =>
              match returned es with
              | None | Some ErrLinkAlreadyConfigured => Some (inr (set_cs_links links c))
              | Some e => Some (inl (StLink e))
              end
          end
      end
  | OptListen addr => Some (inr (set_cs_addrs ({[addr]} ∪ cs_addrs c) c))
  | _ => Some (inr c)
  end.
Fixpoint apply_all (f : startOption -> coreState -> Start coreState) (opts : list startOption) (c : coreState) : Start coreState :=
  match opts with
  | [] => Some (inr c)
  | o :: opts =>
      match f o c with
      | Some (inr c) => apply_all f opts c
      | r => r
      end
  end.

(** The listeners, in the order of a map; errors are only logged. *)
Definition start_listener (opened : string -> bool) (addr : string) (c : coreState) : option coreState :=
  match url_Parse addr with
  | None => Some c
  | Some u =>
      match links_listen u "" false (opened addr) (cs_listening c) with
      | None => None
      | Some (_, s, _) => Some (set_cs_listening s c)
      end
  end.
Definition start_listeners (opened : string -> bool) (c : coreState) : option coreState :=
  fold_left (fun c addr => c ≫= start_listener opened addr) (map_order (cs_addrs c)) (Some c).

Definition core_empty (now : Z) : coreState :=
  MkCoreState (MkCoreConfig (zero_array 64) [] prefix [] CommunityModeStrict ∅ []) [] None ∅ ∅ false (links_init now) listeners_init protoHandler_init.
Definition set_secret `{Ed25519} (secret : list byte) (c : coreConfig) : coreConfig :=
  let key := array_of 64 secret in
  MkCoreConfig key (arr_list (ed_public key)) (cc_prefix c) (cc_community c) (cc_communityMode c) (cc_allowedPublicKeys c) (cc_nodeInfo c).

(** [New]; the certificate may have no Ed25519 key. *)
Definition core_New `{Ed25519} (now : Z) (secret : option (list byte)) (tls_ok : bool) (opened : string -> bool) (opts : list startOption) : Start coreState :=
  match apply_all apply_config opts (core_empty now) with
  | Some (inr c) =>
      match secret with
      | None => Some (inl StNoKey)
      | Some secret =>
          if negb (length secret =? 64)%nat then Some (inl StKeyLength)
          else if negb tls_ok then Some (inl StTLS)
          else
            let c := set_cs_config (set_secret secret (cs_config c)) c in
            match apply_all apply_peer opts c with
            | Some (inr c) =>
                match setNodeInfo (cs_nodeinfo c) (cs_privacy c) (cs_proto c) with
                | None => None
                | Some (Some e, _, _) => Some (inl (StNodeInfo e))
                | Some (None, proto, _) => inr <$> start_listeners opened (set_cs_proto proto c)
                end
            | r => r
            end
      end
  | r => r
  end.

(** [Stop]: the context, the listeners, the links; the connection itself is closed
    after that. *)
Definition core_Stop (c : coreState) : option (coreState * list listenEffect * list linksEffect) :=
  match listeners_shutdown (cs_listening c), shutdown (cs_links c) with
  | Some (_, l, es), Some (_, s, es') => Some (set_cs_links s (set_cs_listening l c), es, es')
  | _, _ => None
  end.
End start.

(** ** Properties of the start of a node

    A node that was made has the links, keys and listeners of its options. *)

Section start.
Context `{GoStrings, MapOrder, Json} (prefix : byte) (url_Parse : string -> option url).

(** The first round does not touch the links, and adds the keys. *)
Definition with_keys (opts : list startOption) (keys keys' : gset (array 32)) : Prop :=
  forall k, k ∈ keys' <-> k ∈ keys \/ exists key, OptCore (AllowedPublicKey key) ∈ opts /\ k = array_of 32 key.

Lemma config_round opts : forall c c', apply_all apply_config opts c = Some (inr c') ->
  cs_links c' = cs_links c /\ cs_addrs c' = cs_addrs c /\ cs_listening c' = cs_listening c /\ with_keys opts (cc_allowedPublicKeys (cs_config c)) (cc_allowedPublicKeys (cs_config c')).
Proof.
  induction opts as [|o opts IH]; intros c c'; cbn [apply_all].
  - intros [= <-]. split_and!; [done..|]. intros k. split; [by left|intros [|(key & Hin & _)]; [done|by apply elem_of_nil in Hin]].
  - destruct (apply_config o c) as [[e|c1]|] eqn:E; [done| |done]. intros Hr. apply IH in Hr as (Hl & Ha & Hg & Hk).
    assert (cs_links c1 = cs_links c /\ cs_addrs c1 = cs_addrs c /\ cs_listening c1 = cs_listening c /\ with_keys [o] (cc_allowedPublicKeys (cs_config c)) (cc_allowedPublicKeys (cs_config c1))) as (Hl1 & Ha1 & Hg1 & Hk1).
    { assert (forall keys, (forall key, o <> OptCore (AllowedPublicKey key)) -> with_keys [o] keys keys) as Hsame.
      { intros keys Hne k. split; [by left|intros [|(key & Hin & _)]; [done|]]. apply list_elem_of_singleton in Hin. by destruct (Hne key). }
      destruct o as [| | | | | |o]; cbn in E; try (injection E as <-; split_and!; [done..|by apply Hsame]).
      destruct o as [key|com|mode]; cbn in E; try (injection E as <-).
      - split_and!; [done..|]. intros k. cbn. rewrite elem_of_union, elem_of_singleton. split; (intros [|Hx]; [by left|right]).
        + exists key. split; [by left|done].
        + destruct Hx as (key' & Hin & ->). apply list_elem_of_singleton in Hin. by simplify_eq.
      - split_and!; [done..|by apply Hsame].
      - destruct (_ || _); [injection E as <-; split_and!; [done..|by apply Hsame]|]. destruct (String.eqb mode "soft"); [injection E as <-; split_and!; [done..|by apply Hsame]|done]. }
    split_and!; [congruence..|]. intros k. rewrite (Hk k), (Hk1 k). setoid_rewrite elem_of_cons. setoid_rewrite elem_of_nil. naive_solver.
Qed.

(** What the options set, the last of several. *)
Lemma config_set {A} (P : coreState -> A) (step : A -> startOption -> A) opts : (forall o c c1, apply_config o c = Some (inr c1) -> P c1 = step (P c) o) ->
  forall c c', apply_all apply_config opts c = Some (inr c') -> P c' = fold_left step opts (P c).
Proof.
  intros Hstep. induction opts as [|o opts IH]; intros c c'; cbn [apply_all fold_left]; [by intros [= <-]|]. destruct (apply_config o c) as [[e|c1]|] eqn:E; [done| |done].
  intros Hr. by rewrite (IH c1 c' Hr), (Hstep _ _ _ E).
Qed.

Definition set_filter (f : option (list byte -> bool)) (o : startOption) : option (list byte -> bool) := match o with OptFilter g => Some g | _ => f end.
Definition set_com (c : list byte) (o : startOption) : list byte := match o with OptCore (Community c') => c' | _ => c end.
Definition set_mode (m : communityMode) (o : startOption) : communityMode :=
  match o with OptCore (CommunityMode s) => if String.eqb s "soft" then CommunityModeSoft else CommunityModeStrict | _ => m end.

Lemma config_values opts c c' : apply_all apply_config opts c = Some (inr c') ->
  cs_filter c' = fold_left set_filter opts (cs_filter c) /\ cc_community (cs_config c') = fold_left set_com opts (cc_community (cs_config c)) /\
  cc_communityMode (cs_config c') = fold_left set_mode opts (cc_communityMode (cs_config c)).
Proof.
  assert (forall o (c c1 : coreState), apply_config o c = Some (inr c1) -> cs_filter c1 = set_filter (cs_filter c) o /\ cc_community (cs_config c1) = set_com (cc_community (cs_config c)) o /\
    cc_communityMode (cs_config c1) = set_mode (cc_communityMode (cs_config c)) o) as Hone.
  { clear. intros o c c1. destruct o as [| | | | | |o]; try (intros [= <-]; done). cbn. destruct o as [| |mode]; cbn; try (intros [= <-]; done).
    destruct (String.eqb_spec mode ""); [intros [= <-]; by subst|]. destruct (String.eqb_spec mode "strict"); [intros [= <-]; by subst|]. cbn. destruct (String.eqb mode "soft"); [by intros [= <-]|done]. }
  intros Hr. split_and!.
  - apply (config_set cs_filter set_filter opts); [|done]. intros o c0 c1 E. apply (Hone o c0 c1 E).
  - apply (config_set (fun c => cc_community (cs_config c)) set_com opts); [|done]. intros o c0 c1 E. apply (Hone o c0 c1 E).
  - apply (config_set (fun c => cc_communityMode (cs_config c)) set_mode opts); [|done]. intros o c0 c1 E. apply (Hone o c0 c1 E).
Qed.

(** ** The peers *)

Lemma options_no_duplicate snis u : add_options snis u <> inl ErrLinkAlreadyConfigured.
Proof. unfold add_options. by repeat case_match. Qed.

Lemma add_cases snis u sintf s s' es : links_add snis u sintf linkTypePersistent s = Some (tt, s', es) ->
  match returned es with
  | None => exists options p g, add_options snis u = inr options /\ ls_links s !! info_for u sintf = None /\ ls_links s' = <[info_for u sintf := p]> (ls_links s) /\
      ls_dialers s' = <[g := MkDialer (info_for u sintf) p u linkTypePersistent options 0 DTop]> (ls_dialers s)
  | Some ErrLinkAlreadyConfigured => is_Some (ls_links s !! info_for u sintf) /\ ls_links s' = ls_links s /\
      exists p, ls_dialers s' = (fun d => if waits_on p d then set_dl_pc DTop d else d) <$> ls_dialers s
  | Some _ => True
  end.
Proof.
  unfold links_add, fresh, kick. destruct (dialerFor u); [|by intros [= <- <-]]. pose proof (options_no_duplicate snis u) as Hno. destruct (add_options snis u) as [e|options]; [intros [= <- <-]; by destruct e|].
  run_links. destruct (ls_links s !! info_for u sintf) as [p|] eqn:El; run_links; intros [= <- <-]; cbn.
  - split_and!; [done|done|by eexists].
  - by do 3 eexists.
Qed.

(** The links of the options so far. *)
Record links_of (opts : list startOption) (snis : list string) (s : linksState) : Prop := {
  lo_ok : links_ok s;
  lo_exact info : is_Some (ls_links s !! info) <-> exists uri sintf u, OptPeer uri sintf ∈ opts /\ url_Parse uri = Some u /\ info = info_for u sintf;
  lo_dialers g d : ls_dialers s !! g = Some d -> dl_linkType d = linkTypePersistent /\ dl_pc d = DTop /\ add_options snis (dl_url d) = inr (dl_options d)
}.

Lemma links_of_skip opts o snis s : links_of opts snis s -> (forall uri sintf, o <> OptPeer uri sintf) -> links_of (opts ++ [o]) snis s.
Proof.
  intros [Hok He Hd] Hne. split; [done| |done]. intros info. rewrite He. setoid_rewrite elem_of_app. setoid_rewrite list_elem_of_singleton. naive_solver.
Qed.

Lemma peer_option opts o c : links_of opts (cs_snis c) (cs_links c) ->
  match apply_peer url_Parse o c with
  | None => False
  | Some (inl _) => True
  | Some (inr c') => links_of (opts ++ [o]) (cs_snis c') (cs_links c') /\ cs_config c' = cs_config c /\ cs_filter c' = cs_filter c
  end.
Proof.
  intros Hl. destruct o as [uri sintf|addr| | | | |]; cbn [apply_peer]; try (split_and!; [by apply links_of_skip|done|done]). destruct (url_Parse uri) as [u|] eqn:Eu; [|done].
  destruct Hl as [Hok He Hd]. pose proof (add_step (cs_snis c) (cs_links c) u sintf linkTypePersistent Hok) as Hs. unfold step_ok, links_step in Hs. cbv [mbind act_bind act_gets] in Hs.
  destruct (links_add _ u sintf _ _) as [[[[] s'] es]|] eqn:Ea; [|done]. pose proof (add_cases _ _ _ _ _ _ Ea) as Hc.
  assert (forall info, (exists uri' sintf' u', OptPeer uri' sintf' ∈ opts ++ [OptPeer uri sintf] /\ url_Parse uri' = Some u' /\ info = info_for u' sintf') <-> is_Some (ls_links (cs_links c) !! info) \/ info = info_for u sintf) as Hx.
  { intros info. rewrite He. setoid_rewrite elem_of_app. setoid_rewrite list_elem_of_singleton. naive_solver. }
  destruct (returned es) as [e|].
  - destruct e; try done. destruct Hc as (Hin & Hl & p & Hdl). split_and!; [split; cbn|done|done]; [done| |].
    + intros info. rewrite Hx, Hl. split; [by left|by intros [| ->]].
    + intros g d. rewrite Hdl, lookup_fmap. destruct (ls_dialers (cs_links c) !! g) as [d0|] eqn:Eg; [|done]. intros [= <-]. destruct (Hd g d0 Eg) as (? & Hpc & ?). unfold waits_on. rewrite Hpc, andb_false_r. done.
  - destruct Hc as (options & p & g & Ho & Hnew & Hl & Hdl). split_and!; [split; cbn|done|done]; [done| |].
    + intros info. rewrite Hx, Hl, lookup_insert_is_Some. destruct (decide (info_for u sintf = info)) as [<-|]; naive_solver.
    + intros g' d. rewrite Hdl. intros [[<- <-]|[_ Hg]]%lookup_insert_Some; [done|by eapply Hd].
Qed.

Lemma peer_round opts : forall done_ c, links_of done_ (cs_snis c) (cs_links c) ->
  match apply_all (apply_peer url_Parse) opts c with
  | None => False
  | Some (inl _) => True
  | Some (inr c') => links_of (done_ ++ opts) (cs_snis c') (cs_links c') /\ cs_config c' = cs_config c /\ cs_filter c' = cs_filter c
  end.
Proof.
  induction opts as [|o opts IH]; intros done_ c Hl; cbn [apply_all]; [by rewrite app_nil_r|]. pose proof (peer_option done_ o c Hl) as Ho.
  destruct (apply_peer url_Parse o c) as [[e|c1]|]; [done| |done]. destruct Ho as (Hl1 & Hc & Hg). specialize (IH (done_ ++ [o]) c1 Hl1). rewrite <- app_assoc in IH.
  destruct (apply_all _ opts c1) as [[|c']|]; [done| |done]. destruct IH as (? & -> & ->). done.
Qed.

Lemma links_of_init now snis : links_of [] snis (links_init now).
Proof.
  split; [apply links_ok_init| |done]. intros info. cbn. rewrite lookup_empty. split; [by intros []|]. intros (uri & sintf & u & Hin & _). by apply elem_of_nil in Hin.
Qed.

Lemma config_total opts : forall c, apply_all apply_config opts c <> None.
Proof.
  induction opts as [|o opts IH]; intros c; [done|]. cbn [apply_all]. destruct o as [| | | | | |o]; cbn; try apply IH. destruct (applyOption o _) as [config ok]. destruct ok; [apply IH|done].
Qed.

Lemma listeners_total opened c : exists c', start_listeners url_Parse opened c = Some c' /\ cs_links c' = cs_links c /\ cs_config c' = cs_config c /\ cs_snis c' = cs_snis c /\ cs_filter c' = cs_filter c.
Proof.
  unfold start_listeners. generalize (map_order (cs_addrs c)). intros l. revert c. induction l as [|addr l IH]; intros c; cbn [fold_left]; [by exists c|]. cbn [mbind option_bind].
  unfold start_listener at 2. destruct (url_Parse addr) as [u|]; [|apply IH].
  assert (exists r, links_listen u "" false (opened addr) (cs_listening c) = Some r) as ([[[] s] es] & ->).
  { unfold links_listen. destruct (listenerFor u); [|by eexists]. destruct (negb _); [by eexists|]. cbv [mbind act_bind act_gets act_modify act_emit mret act_ret]. destruct (listen_options u); by eexists. }
  destruct (IH (set_cs_listening s c)) as (c' & -> & ? & ? & ? & ?). by exists c'.
Qed.

(** The start of a node never panics. When it succeeds, the table of links
    has exactly the peers of the options, each once, however often and in whatever
    order they are given; each has its goroutine, which is persistent and was made
    with the server names of the options even where these come later; exactly the
    keys of the options are allowed, and of each setting the last one counts. *)
Theorem new_node_as_configured `{Ed25519} now secret tls_ok opened opts : exists r, core_New prefix url_Parse now secret tls_ok opened opts = Some r /\
  match r with
  | inl _ => True
  | inr c => links_of opts (cs_snis c) (cs_links c) /\ with_keys opts ∅ (cc_allowedPublicKeys (cs_config c)) /\
      cs_filter c = fold_left set_filter opts None /\ cc_community (cs_config c) = fold_left set_com opts [] /\ cc_communityMode (cs_config c) = fold_left set_mode opts CommunityModeStrict /\
      exists key, secret = Some key /\ length key = 64%nat /\ cc_secret (cs_config c) = array_of 64 key /\ cc_public (cs_config c) = arr_list (ed_public (array_of 64 key))
  end.
Proof.
  unfold core_New. pose proof (config_total opts (core_empty prefix now)) as Ht. destruct (apply_all apply_config opts _) as [[e|c1]|] eqn:E1; [by eexists| |done].
  pose proof (config_values _ _ _ E1) as (Hf1 & Hcom1 & Hm1). apply config_round in E1 as (Hl & _ & _ & Hk). destruct secret as [secret|]; [|by eexists].
  destruct (Nat.eqb_spec (length secret) 64) as [Hlen|]; [|by eexists]. destruct tls_ok; [|by eexists]. cbn [negb].
  set (c2 := set_cs_config _ c1). pose proof (peer_round opts [] c2) as Hp. destruct (apply_all (apply_peer url_Parse) opts c2) as [[e|c3]|]; [by eexists| |].
  2: { destruct Hp. cbn. rewrite Hl. apply links_of_init. }
  destruct Hp as (Hl3 & Hc3 & Hf3); [cbn; rewrite Hl; apply links_of_init|]. cbn [app] in Hl3.
  assert (exists r proto es, setNodeInfo (cs_nodeinfo c3) (cs_privacy c3) (cs_proto c3) = Some (r, proto, es)) as (r & proto & es & ->).
  { unfold setNodeInfo. destruct (Proto.json_Marshal _); [|by do 3 eexists]. cbv [mbind act_bind act_gets act_modify act_emit mret act_ret]. destruct (16384 <? _); by do 3 eexists. }
  destruct r as [e|]; [by eexists|]. destruct (listeners_total opened (set_cs_proto proto c3)) as (c4 & -> & Hl4 & Hc4 & Hs4 & Hf4). exists (inr c4). split; [reflexivity|].
  rewrite Hl4, Hc4, Hs4, Hf4. cbn [set_cs_proto cs_links cs_config cs_snis cs_filter]. rewrite Hc3, Hf3. cbn. split_and!; [done|exact Hk|done|done|done|by exists secret].
Qed.
End start.
