(* ===== verification/Main.v ===== *)
(** * The program

    [cmd/yggdrasil/main.go]: what the main function makes of a configuration. The
    prefix of the network comes first, then the core with its options, the admin
    socket, the multicast interfaces, the TUN adapter and the address of the web
    interface; every error ends the program, which is [None]. Before that, what the
    flags ask for: where the configuration comes from, or what is printed instead of
    starting a node; after it, the order of the shutdown. Signals, changes of the
    user and where the log goes are left out. *)

From Stdlib Require Import String Ascii.
From S2P Require Import Prelude Crypto RouterState Core PacketConn Address AddressSafety Handshake LinkOptions Links LinksInv KeyStore EncConn Multicast Proto Listeners Carriers ConfigFile Tun TunSafety Api Admin Start.

(** [AddressPrefix]; [old] is the default. *)
Definition apply_prefix (addressPrefix : string) (old : byte) : option byte :=
  if String.eqb addressPrefix "" then Some old
  else match hex_DecodeString addressPrefix with
       | Some [b] => let '(p, ok) := SetPrefix old b in if ok : bool then Some p else None
       | _ => None
       end.

Section main.
Context `{GoStrings, MapOrder, ConfigLibs, Json, Ed25519, Netlink} (to_json : jsonValue -> json) (url_Parse : string -> option url)
  (compiles : string -> bool) (decimal_text : Z -> string).

Record node := MkProgram {
  nd_prefix : byte;
  nd_core : coreState;
  nd_admin : option AdminSocket;
  nd_multicast : list MulticastInterface;
  nd_tun : TunAdapter;
  nd_webui : option (string * string)
}.

Definition interface_peers (cfg : NodeConfig) : list startOption :=
  concat (map (fun intf => map (fun uri => OptPeer uri intf) (default [] (nc_InterfacePeers cfg !! intf))) (map_order (dom (nc_InterfacePeers cfg)))).
Fixpoint allowed_options (l : list string) : option (list startOption) :=
  match l with
  | [] => Some []
  | allowed :: l =>
      match hex_DecodeString allowed, allowed_options l with
      | Some k, Some opts => Some (OptCore (AllowedPublicKey k) :: opts)
      | _, _ => None
      end
  end.
(** The options of the core. *)
Definition core_options (prefix : byte) (cfg : NodeConfig) : option (list startOption) :=
  match allowed_options (nc_AllowedPublicKeys cfg) with
  | None => None
  | Some allowed =>
      Some ([OptNodeInfo (to_json <$> default ∅ (nc_NodeInfo cfg)); OptPrivacy (nc_NodeInfoPrivacy cfg); OptFilter (own_filter prefix); OptSNIs (nc_OutboundSNIList cfg)] ++
        map OptListen (nc_Listen cfg) ++ map (fun uri => OptPeer uri "") (nc_Peers cfg) ++ interface_peers cfg ++ allowed ++
        (if String.eqb (nc_Community cfg) "" then [] else [OptCore (Community (string_bytes (nc_Community cfg)))]) ++
        [OptCore (CommunityMode (nc_CommunityMode cfg))])
  end.

(** The interfaces of multicast, whose priority is cut to eight bits. *)
Definition multicast_options (l : list MulticastInterfaceConfig) : option (list MulticastInterface) :=
  if forallb (fun intf => compiles (ConfigFile.mi_Regex intf)) l then
    Some (map (fun intf => MkMI (ConfigFile.mi_Regex intf) (ConfigFile.mi_Beacon intf) (ConfigFile.mi_Listen intf) (ConfigFile.mi_Port intf)
      (ConfigFile.mi_Priority intf mod 256) (ConfigFile.mi_Password intf)) l)
  else None.

Definition webui_listen (w : WebUIConfig) : option (string * string) :=
  if negb (wc_Enable w) then None
  else Some ((if String.eqb (wc_Host w) "" then ":" ++ decimal_text (wc_Port w) else wc_Host w ++ ":" ++ decimal_text (wc_Port w))%string, wc_Password w).

(** [MaxMTU] of the packets that the node can take, from its connection. *)
Definition node_MaxMTU (secret : list byte) : Z :=
  core_MTU (enc_MTU (MTU (core_init (array_of 64 secret) [WithPeerMaxMessageSize (65535 * 2)]))).

Definition main_start (old : byte) (now : Z) (tls_ok : bool) (opened : string -> bool) (cfg : NodeConfig) : option node :=
  match apply_prefix (nc_AddressPrefix cfg) old with
  | None => None
  | Some prefix =>
      match core_options prefix cfg with
      | None => None
      | Some opts =>
          match core_New prefix url_Parse now (nc_Certificate cfg) tls_ok opened opts with
          | Some (inr c) =>
              let admin := admin_setup (ListenAddress (nc_AdminListen cfg) :: (if nc_LogLookups cfg then [LogLookups] else [])) in
              match multicast_options (nc_MulticastInterfaces cfg), AddrForKey prefix (cc_public (cs_config c)), SubnetForKey prefix (cc_public (cs_config c)) with
              | Some mcast, Some addr, Some subnet =>
                  match tun_New prefix [InterfaceName (nc_IfName cfg); InterfaceMTU (nc_IfMTU cfg)] addr subnet (node_MaxMTU (arr_list (cc_secret (cs_config c)))) with
                  | Some (None, t, _) => Some (MkProgram prefix c admin mcast t (webui_listen (nc_WebUI cfg)))
                  | _ => None
                  end
              | _, _, _ => None
              end
          | _ => None
          end
      end
  end.
End main.

(** ** Flags *)

Record mainFlags := MkFlags {
  fl_genconf : bool; fl_useconf : bool; fl_useconffile : string; fl_normaliseconf : bool; fl_exportkey : bool; fl_confjson : bool;
  fl_autoconf : bool; fl_ver : bool; fl_getaddr : bool; fl_getsnet : bool; fl_getpkey : bool
}.

(** [setLogLevel]: the levels that are enabled. *)
Definition log_levels : list string := ["error"; "warn"; "info"; "debug"; "trace"]%string.
Fixpoint enable_until (level : string) (levels : list string) : list string :=
  match levels with
  | [] => []
  | l :: levels => if String.eqb l level then [l] else l :: enable_until level levels
  end.
Definition setLogLevel (loglevel : string) : list string :=
  let l := ToLower loglevel in
  enable_until (if existsb (String.eqb l) log_levels then l else "info"%string) log_levels.

Section flags.
Context `{GoStrings, ConfigLibs, !ConfigCodec, Ed25519} (to_document : NodeConfig -> document).

Definition without_listen (cfg : NodeConfig) : NodeConfig :=
  MkNodeConfig (nc_PrivateKey cfg) (nc_PrivateKeyPath cfg) (nc_Certificate cfg) (nc_Peers cfg) (nc_OutboundSNIList cfg) (nc_InterfacePeers cfg) (nc_Listen cfg) ""
    (nc_MulticastInterfaces cfg) (nc_AllowedPublicKeys cfg) (nc_IfName cfg) (nc_IfMTU cfg) (nc_LogLookups cfg) (nc_NodeInfoPrivacy cfg) (nc_NodeInfo cfg) (nc_PrometheusEnabled cfg)
    (nc_PrometheusListen cfg) (nc_Community cfg) (nc_CommunityMode cfg) (nc_AddressPrefix cfg) (nc_WebUI cfg).
(** What [normaliseconf] shows or saves: no address of the admin socket, and no key
    that is in a file of its own. *)
Definition normalised (cfg : NodeConfig) : NodeConfig :=
  let cfg := without_listen cfg in
  if String.eqb (nc_PrivateKeyPath cfg) "" then cfg else set_nc_keys [] (nc_Certificate cfg) cfg.

Definition saveNormalisedConfigFile (cfg : NodeConfig) (configPath : string) (confjson writable : bool) (s : configFiles) : NodeConfig * sum configError configFiles :=
  let cfg := normalised cfg in
  (cfg, SaveConfig (to_document cfg) configPath (if confjson then "json"%string else "hjson"%string) writable s).

Inductive mainResult :=
| MainVersion
| MainUsage
| MainConfig (cfg : NodeConfig) (json : bool)
| MainAddress (a : list byte)
| MainSubnet (s : list byte)
| MainKey (k : list byte)
| MainPEM (k : list byte)
| MainRun (configPath : string) (cfg : NodeConfig).

(** Opening a file: its content, or whether it is not there. *)
Inductive openResult := Opened (bs : list byte) | NotThere | OpenFails.

(** The switch over the sources of the configuration: either what is printed, or
    the configuration and its path. [key] is the key of what [GenerateConfig] gives
    at the start, [key'] of what [ReadFrom] starts from. *)
Definition main_source (fl : mainFlags) (key key' : list byte) (stdin : option (list byte)) (file : openResult) (writable : bool) (s : configFiles) :
    option (sum mainResult (string * NodeConfig * configFiles)) :=
  let read bs path := match ReadFrom bs key' (readFile s) with Some (inr cfg) => Some (inr (path, cfg, s)) | _ => None end in
  match GenerateConfig (readFile s) key with
  | None => None
  | Some cfg =>
      if fl_ver fl then Some (inl MainVersion)
      else if fl_autoconf fl then Some (inr (""%string, cfg, s))
      else if fl_useconf fl then match stdin with Some bs => read bs ""%string | None => None end
      else if negb (String.eqb (fl_useconffile fl) "") then
        match file with
        | Opened bs => read bs (fl_useconffile fl)
        | NotThere =>
            if fl_normaliseconf fl then
              match saveNormalisedConfigFile cfg (fl_useconffile fl) (fl_confjson fl) writable s with
              | (cfg, inr s) => Some (inr (fl_useconffile fl, cfg, s))
              | (_, inl _) => None
              end
            else None
        | OpenFails => None
        end
      else if fl_genconf fl then Some (inl (MainConfig (without_listen cfg) (fl_confjson fl)))
      else Some (inl MainUsage)
  end.

(** [privateKey.Public()] *)
Definition public_of (key : list byte) : option (list byte) :=
  if (length key <? 32)%nat then None else Some (arr_list (ed_public (array_of 64 key))).

(** The switch over what is printed; the prefix is the one at the start. *)
Definition main_print (prefix : byte) (fl : mainFlags) (path : string) (cfg : NodeConfig) : option mainResult :=
  match public_of (nc_PrivateKey cfg) with
  | None => None
  | Some public =>
      if fl_getaddr fl then MainAddress <$> core_Address prefix public
      else if fl_getsnet fl then (fun s => MainSubnet s.1) <$> core_Subnet prefix public
      else if fl_getpkey fl then Some (MainKey public)
      else if fl_normaliseconf fl then Some (MainConfig (normalised cfg) (fl_confjson fl))
      else if fl_exportkey fl then Some (MainPEM (nc_PrivateKey cfg))
      else Some (MainRun path cfg)
  end.

Definition main_command (prefix : byte) (fl : mainFlags) (key key' : list byte) (stdin : option (list byte)) (file : openResult) (writable : bool) (s : configFiles) :
    option (mainResult * configFiles) :=
  match main_source fl key key' stdin file writable s with
  | None => None
  | Some (inl r) => Some (r, s)
  | Some (inr (path, cfg, s)) =>
      match main_print prefix fl path cfg with
      | None => None
      | Some (MainRun path cfg) => Some (MainRun path cfg, SetCurrentConfig path cfg s)
      | Some r => Some (r, s)
      end
  end.
End flags.

(** ** The shutdown *)

(** The parts in the order in which they are stopped. *)
Inductive stopped := StopMetrics | StopAdmin (a : option AdminSocket) | StopMulticast | StopTun (es : list tunEffect) | StopWebUI
| StopCore (ls : list listenEffect) (es : list linksEffect).
Definition main_stop `{Json, MapOrder} (metrics : bool) (n : node) : option (node * list stopped) :=
  match tun_stop (nd_tun n), core_Stop (nd_core n) with
  | Some (_, t, tes), Some (c, ls, es) =>
      let admin := admin_Stop <$> nd_admin n in
      Some (MkProgram (nd_prefix n) c admin (nd_multicast n) t (nd_webui n),
            (if metrics then [StopMetrics] else []) ++ [StopAdmin admin; StopMulticast; StopTun tes] ++
            (match nd_webui n with Some _ => [StopWebUI] | None => [] end) ++ [StopCore ls es])
  | _, _ => None
  end.

(** ** Properties of the program

    The node that the program starts is the one that its configuration describes. *)

Section main.
Context `{GoStrings, MapOrder, ConfigLibs, Json, Ed25519, Netlink} (to_json : jsonValue -> json) (url_Parse : string -> option url)
  (compiles : string -> bool) (decimal_text : Z -> string).

(** ** The options of a configuration *)

Lemma interface_peers_spec cfg o : o ∈ interface_peers cfg <->
  exists intf uri l, nc_InterfacePeers cfg !! intf = Some l /\ uri ∈ l /\ o = OptPeer uri intf.
Proof.
  unfold interface_peers. rewrite list_elem_of_In, in_concat. split.
  - intros (l & (intf & <- & Hi)%in_map_iff & (uri & <- & Hu)%in_map_iff). apply list_elem_of_In, elem_of_map_order, elem_of_dom in Hi as (l & Hl).
    rewrite Hl in Hu. cbn in Hu. exists intf, uri, l. split_and!; [done|by apply list_elem_of_In|done].
  - intros (intf & uri & l & Hl & Hu & ->). eexists. split; [apply in_map_iff; exists intf; split; [reflexivity|]|].
    + apply list_elem_of_In, elem_of_map_order, elem_of_dom. by exists l.
    + rewrite Hl. cbn. apply in_map_iff. exists uri. split; [done|by apply list_elem_of_In].
Qed.

Lemma allowed_options_spec l : forall opts, allowed_options l = Some opts ->
  Forall (fun o => exists key, o = OptCore (AllowedPublicKey key)) opts /\
  forall key, OptCore (AllowedPublicKey key) ∈ opts <-> exists s, s ∈ l /\ hex_DecodeString s = Some key.
Proof.
  induction l as [|s l IH]; intros opts; cbn [allowed_options].
  - intros [= <-]. split; [constructor|]. intros key. setoid_rewrite elem_of_nil. naive_solver.
  - destruct (hex_DecodeString s) as [k|] eqn:Es; [|done]. destruct (allowed_options l) as [opts'|]; [|done]. intros [= <-]. destruct (IH opts' eq_refl) as [Hf Hk]. split.
    + constructor; [by eexists|done].
    + intros key. rewrite elem_of_cons, Hk. setoid_rewrite elem_of_cons. naive_solver.
Qed.

(** The options that do not touch a setting. *)
Lemma fold_keep {A} (step : A -> startOption -> A) l : Forall (fun o => forall a, step a o = a) l -> forall a, fold_left step l a = a.
Proof. induction 1 as [|o l Ho Hl IH]; intros a; [done|]. cbn [fold_left]. by rewrite Ho. Qed.

Lemma core_options_spec prefix cfg opts : core_options to_json prefix cfg = Some opts ->
  (forall uri sintf, OptPeer uri sintf ∈ opts <-> (uri ∈ nc_Peers cfg /\ sintf = ""%string) \/ exists l, nc_InterfacePeers cfg !! sintf = Some l /\ uri ∈ l) /\
  (forall key, OptCore (AllowedPublicKey key) ∈ opts <-> exists s, s ∈ nc_AllowedPublicKeys cfg /\ hex_DecodeString s = Some key) /\
  fold_left set_filter opts None = Some (own_filter prefix) /\
  fold_left set_com opts [] = (if String.eqb (nc_Community cfg) "" then [] else string_bytes (nc_Community cfg)) /\
  fold_left set_mode opts CommunityModeStrict = (if String.eqb (nc_CommunityMode cfg) "soft" then CommunityModeSoft else CommunityModeStrict).
Proof.
  unfold core_options. destruct (allowed_options (nc_AllowedPublicKeys cfg)) as [allowed|] eqn:Ea; [|done]. apply allowed_options_spec in Ea as [Hf Hk]. intros [= <-].
  set (com := if String.eqb (nc_Community cfg) "" then [] else [OptCore (Community (string_bytes (nc_Community cfg)))]).
  assert (Forall (fun o => exists c, o = OptCore (Community c)) com) as Hcom by (unfold com; destruct (String.eqb _ ""); repeat constructor; by eexists).
  set (listen := map OptListen (nc_Listen cfg)). set (peers := map (fun uri => OptPeer uri "") (nc_Peers cfg)).
  assert (Forall (fun o => exists a, o = OptListen a) listen) as Hl by (apply Forall_forall; intros o (a & -> & _)%list_elem_of_fmap; by eexists).
  assert (Forall (fun o => exists u i, o = OptPeer u i) peers) as Hp by (apply Forall_forall; intros o (a & -> & _)%list_elem_of_fmap; by do 2 eexists).
  assert (Forall (fun o => exists u i, o = OptPeer u i) (interface_peers cfg)) as Hi by (apply Forall_forall; intros o (i & u & l & _ & _ & ->)%interface_peers_spec; by do 2 eexists).
  rewrite Forall_forall in Hf, Hcom, Hl, Hp, Hi.
  split_and!.
  - intros uri sintf. rewrite !elem_of_cons, !elem_of_app, interface_peers_spec. unfold peers at 1. setoid_rewrite list_elem_of_fmap. split.
    + intros [|[|[|[|[Hx|[(u & E & Hu)|[(i & u & l & Hlk & Hu & E)|[Hx|[Hx|Hx]]]]]]]]]; try done.
      * by destruct (Hl _ Hx) as [? ?].
      * injection E as -> ->. by left.
      * injection E as -> ->. right. by exists l.
      * by destruct (Hf _ Hx) as [? ?].
      * by destruct (Hcom _ Hx) as [? ?].
      * by apply list_elem_of_singleton in Hx.
    + intros [[Hu ->]|(l & Hlk & Hu)]; do 5 right; [left; by exists uri|right; left; by exists sintf, uri, l].
  - intros key. rewrite !elem_of_cons, !elem_of_app, <- Hk. split; [|by intros Hx; do 7 right; left].
    intros [|[|[|[|[Hx|[Hx|[Hx|[Hx|[Hx|Hx]]]]]]]]]; try done.
    + by destruct (Hl _ Hx) as [? ?].
    + by destruct (Hp _ Hx) as (? & ? & ?).
    + by destruct (Hi _ Hx) as (? & ? & ?).
    + by destruct (Hcom _ Hx) as [? ?].
    + by apply list_elem_of_singleton in Hx.
  - cbn [app fold_left set_filter]. rewrite !fold_left_app. cbn [fold_left set_filter].
    rewrite (fold_keep _ listen), (fold_keep _ peers), (fold_keep _ (interface_peers cfg)), (fold_keep _ allowed), (fold_keep _ com); [done|..]; apply Forall_forall; intros o Ho a.
    + by destruct (Hcom o Ho) as [? ->].
    + by destruct (Hf o Ho) as [? ->].
    + by destruct (Hi o Ho) as (? & ? & ->).
    + by destruct (Hp o Ho) as (? & ? & ->).
    + by destruct (Hl o Ho) as [? ->].
  - cbn [app fold_left set_com]. rewrite !fold_left_app. cbn [fold_left set_com].
    rewrite (fold_keep _ listen), (fold_keep _ peers), (fold_keep _ (interface_peers cfg)), (fold_keep _ allowed); [unfold com; by destruct (String.eqb (nc_Community cfg) "")|..];
      apply Forall_forall; intros o Ho a.
    + by destruct (Hf o Ho) as [? ->].
    + by destruct (Hi o Ho) as (? & ? & ->).
    + by destruct (Hp o Ho) as (? & ? & ->).
    + by destruct (Hl o Ho) as [? ->].
  - cbn [app fold_left]. rewrite !fold_left_app. cbn [fold_left set_mode]. done.
Qed.
(** ** The node *)

Lemma tun_own prefix addr subnet maxMTU t t' es : tun_start prefix addr subnet maxMTU t = Some (None, t', es) -> tn_addr t' = addr /\ tn_subnet t' = subnet.
Proof.
  unfold tun_start, mbind, act_bind, act_gets, act_modify, act_emit. cbn. destruct (tn_isOpen t); [done|]. destruct (_ || _); cbn; [by intros [= <- <-]|].
  destruct (0 <? tc_fd (tn_config t)); [done|]. destruct (tun_setup _ _ _ _) as [[[err t1] es1]|] eqn:E; [|done]. destruct err as [e|]; [done|].
  apply tun_setup_ok in E as (d & -> & _ & _). cbn. by intros [= <- <-].
Qed.

Lemma prefix_spec s old p : apply_prefix s old = Some p -> (s = ""%string /\ p = old) \/ (hex_DecodeString s = Some [p] /\ Z.land (b2z p) 1 = 0).
Proof.
  unfold apply_prefix. destruct (String.eqb_spec s ""); [intros [= <-]; by left|]. destruct (hex_DecodeString s) as [[|b [|]]|] eqn:Es; try done. unfold SetPrefix.
  destruct (Z.eqb_spec (Z.land (b2z b) 1) 0); cbn; [intros [= <-]; by right|done].
Qed.

End main.

(** ** Concrete inputs *)

Definition w_config_libs : ConfigLibs := {|
  jsonValue := unit;
  UnmarshalPEM := fun _ => None;
  ParsePKCS8PrivateKey := fun _ => None;
  X509KeyPair := fun _ => true
|}.
Definition w_json : Json := {| json := unit; json_string := fun _ => tt; Proto.json_Marshal := fun _ => Some []; build_info := [] |}.
Definition w_main_key : list byte := replicate 64 Byte.x07.
Definition w_main_config : @NodeConfig w_config_libs :=
  MkNodeConfig w_main_key "" (Some w_main_key) ["host:1"; "host:1"]%string [] {["eth0"%string := ["host:2"%string]]} [] "none" [] ["0a"%string] "none" 65535 false false None
    false "" "" "soft" "04" (MkWebUIConfig false 9000 "" "").
Definition w_url (s : string) : option url := Some (MkUrl "tls" s [] "").
Definition w_main : option (@node w_json) :=
  @main_start toy_strings trie_order w_config_libs w_json toy_ed25519 w_netlink (fun _ => tt) w_url (fun _ => true) (fun _ => "0"%string) Byte.x02 0 true (fun _ => true) w_main_config.

