(* ===== verification/Mobile.v ===== *)
(** * The library for phones

    [contrib/mobile/mobile.go]: a node that is started from JSON, whose packets are
    read and written by the caller instead of a TUN adapter, and the calls that tell
    about it. *)

From Stdlib Require Import String Ascii.
From S2P Require Import Prelude Crypto RouterState RouterCost Address Handshake LinkOptions Links LinksInv KeyStore Multicast Proto Listeners Carriers ConfigFile Tun Api Admin Start Main.

Section mobile.
Context `{GoStrings, MapOrder, ConfigLibs, !ConfigCodec, Json, Ed25519, Icmp} (to_json : jsonValue -> json) (url_Parse : string -> option url)
  (compiles : string -> bool).

(** [iprwc] and [core] are nil before the start; [yg_multicast] is the module, and
    whether it was started without an error. *)
Record Yggdrasil := MkYggdrasil {
  yg_prefix : byte;
  yg_core : option coreState;
  yg_iprwc : option keyStore;
  yg_config : option NodeConfig;
  yg_multicast : option (multicast * bool);
  yg_tun : option TunAdapter
}.
Definition mobile_init (prefix : byte) : Yggdrasil := MkYggdrasil prefix None None None None None.

(** The options of the core; a key that is not in hexadecimal panics. *)
Definition mobile_options (prefix : byte) (cfg : NodeConfig) : option (list startOption) :=
  (fun allowed => OptFilter (own_filter prefix) :: map (fun uri => OptPeer uri "") (nc_Peers cfg) ++ interface_peers cfg ++ allowed ++ map OptListen (nc_Listen cfg)) <$>
  allowed_options (nc_AllowedPublicKeys cfg).

Inductive mobileError := MbConfig (e : configError) | MbParse | MbPrefix.

(** [hjson.Unmarshal] over the defaults, and what follows. *)
Definition UnmarshalHJSON (readFile : string -> option (list byte)) (b : list byte) (cfg : NodeConfig) : Cfg NodeConfig :=
  match hjson_Unmarshal b cfg with
  | None => Some (inl CfgParse)
  | Some cfg => postprocessConfig readFile cfg
  end.

(** [StartJSON]; [key] is the key of the defaults. The outer option is a panic, the
    inner one the error. *)
Definition StartJSON (readFile : string -> option (list byte)) (key : list byte) (now : Z) (tls_ok : bool) (opened : string -> bool) (resolved bound : bool)
    (configjson : list byte) (m : Yggdrasil) : option (option mobileError * Yggdrasil) :=
  match GenerateConfig readFile key with
  | None => None
  | Some defaults =>
      match UnmarshalHJSON readFile configjson defaults with
      | None => None
      | Some (inl e) => Some (Some (MbConfig e), MkYggdrasil (yg_prefix m) (yg_core m) (yg_iprwc m) (Some defaults) (yg_multicast m) (yg_tun m))
      | Some (inr cfg) =>
          let m := MkYggdrasil (yg_prefix m) (yg_core m) (yg_iprwc m) (Some cfg) (yg_multicast m) (yg_tun m) in
          match apply_prefix (nc_AddressPrefix cfg) (yg_prefix m) with
          | None => Some (Some MbPrefix, m)
          | Some prefix =>
              match mobile_options prefix cfg with
              | None => None
              | Some opts =>
                  match core_New prefix url_Parse now (nc_Certificate cfg) tls_ok opened opts with
                  | Some (inr c) =>
                      let public := cc_public (cs_config c) in
                      let mc :=
                        match nc_MulticastInterfaces cfg with
                        | [] => Some (yg_multicast m)
                        | _ =>
                            match multicast_options compiles (nc_MulticastInterfaces cfg) with
                            | None => None
                            | Some l =>
                                match Multicast.start resolved bound (MkMulticast false ∅ ∅ None l) with
                                | Some ((err, _), mc, _) => Some (Some (mc, bool_decide (err = None)))
                                | None => None
                                end
                            end
                        end in
                      let max := node_MaxMTU (arr_list (cc_secret (cs_config c))) in
                      match mc, keyStore_init prefix public with
                      | Some mc, Some k =>
                          let mtu := if max <? nc_IfMTU cfg then max else nc_IfMTU cfg in
                          match SetMTU max mtu k with
                          | Some (_, k, _) => Some (None, MkYggdrasil prefix (Some c) (Some k) (Some cfg) mc (yg_tun m))
                          | None => None
                          end
                      | _, _ => None
                      end
                  | _ => None
                  end
              end
          end
      end
  end.

(** ** Packets *)

Definition set_yg_iprwc (k : keyStore) (m : Yggdrasil) : Yggdrasil := MkYggdrasil (yg_prefix m) (yg_core m) (Some k) (yg_config m) (yg_multicast m) (yg_tun m).

(** [Send] and [SendBuffer] drop the error. *)
Definition Send (p : list byte) (m : Yggdrasil) : option (Yggdrasil * list ksEffect) :=
  match yg_iprwc m with
  | None => Some (m, [])
  | Some k =>
      match writePC (yg_prefix m) p k with
      | Some (_, k, es) => Some (set_yg_iprwc k m, es)
      | None => None
      end
  end.
Definition SendBuffer (p : list byte) (len : Z) (m : Yggdrasil) : option (Yggdrasil * list ksEffect) :=
  match yg_iprwc m with
  | None => Some (m, [])
  | Some _ =>
      if (len <? 0) || (Z.of_nat (length p) <? len) then Some (m, [])
      else Send (take (Z.to_nat len) p) m
  end.

(** [Recv] and [RecvBuffer], with the packets that the node gives them until one is
    taken; what is returned is the packet, or nothing before the start. *)
Fixpoint recv_packet (room : nat) (packets : list (list byte * list byte)) (prefix : byte) (k : keyStore) : option (option (list byte) * keyStore * list ksEffect) :=
  match packets with
  | [] => Some (None, k, [])
  | (from, bs) :: packets =>
      match readPC prefix room from bs k with
      | None => None
      | Some (Some p, k, es) => Some (Some p, k, es)
      | Some (None, k, es) =>
          match recv_packet room packets prefix k with
          | None => None
          | Some (r, k, es') => Some (r, k, es ++ es')
          end
      end
  end.
Definition Recv (packets : list (list byte * list byte)) (m : Yggdrasil) : option (option (list byte) * Yggdrasil * list ksEffect) :=
  match yg_iprwc m with
  | None => Some (Some [], m, [])
  | Some k =>
      match recv_packet 65535 packets (yg_prefix m) k with
      | None => None
      | Some (p, k, es) => Some (p, set_yg_iprwc k m, es)
      end
  end.
Definition RecvBuffer (buf : nat) (packets : list (list byte * list byte)) (m : Yggdrasil) : option (option (list byte) * Yggdrasil * list ksEffect) :=
  match yg_iprwc m with
  | None => Some (Some [], m, [])
  | Some k =>
      match recv_packet buf packets (yg_prefix m) k with
      | None => None
      | Some (p, k, es) => Some (p, set_yg_iprwc k m, es)
      end
  end.

(** ** Stop and the calls that tell about the node *)

(** The core is nil before the start, and stopping it then panics. *)
Definition mobile_Stop (m : Yggdrasil) : option (Yggdrasil * list tunEffect * list linksEffect) :=
  let mc :=
    match yg_multicast m with
    | None => Some None
    | Some (mc, ok) => match Multicast.stop mc with Some (_, mc, _) => Some (Some (mc, ok)) | None => None end
    end in
  let t :=
    match yg_tun m with
    | None => Some (None, [])
    | Some t => match tun_stop t with Some (_, t, es) => Some (Some t, es) | None => None end
    end in
  match mc, t, yg_core m with
  | Some mc, Some (t, tes), Some c =>
      match core_Stop c with
      | Some (c, _, es) => Some (MkYggdrasil (yg_prefix m) (Some c) (yg_iprwc m) (yg_config m) mc t, tes, es)
      | None => None
      end
  | _, _, _ => None
  end.

Definition GetPublicKeyString (m : Yggdrasil) : option string := (fun c => hex_EncodeToString (cc_public (cs_config c))) <$> yg_core m.
Definition GetAddress (m : Yggdrasil) : option (list byte) := c ← yg_core m; core_Address (yg_prefix m) (cc_public (cs_config c)).
Definition GetSubnet (m : Yggdrasil) : option (list byte * list byte) := c ← yg_core m; core_Subnet (yg_prefix m) (cc_public (cs_config c)).
Definition GetMTU (m : Yggdrasil) : option Z := (fun c => node_MaxMTU (arr_list (cc_secret (cs_config c)))) <$> yg_core m.

(** [GetPeersJSON], before it is written as JSON: the peers with their addresses;
    a peer without a connection has no key and no address. *)
Definition GetPeersJSON (iwpeers : list DebugPeerInfo) (m : Yggdrasil) : option (list (PeerInfo * option (list byte))) :=
  (fun c => map (fun v => (v, core_Address (yg_prefix m) (pf_Key v))) (core_GetPeers iwpeers (cs_links c))) <$> yg_core m.

(** [GenerateConfigJSON], before it is written as JSON. *)
Definition mobile_config (cfg : NodeConfig) : NodeConfig :=
  MkNodeConfig (nc_PrivateKey cfg) (nc_PrivateKeyPath cfg) (nc_Certificate cfg) (nc_Peers cfg) (nc_OutboundSNIList cfg) (nc_InterfacePeers cfg) (nc_Listen cfg)
    (nc_AdminListen cfg) (nc_MulticastInterfaces cfg) (nc_AllowedPublicKeys cfg) "none" (nc_IfMTU cfg) (nc_LogLookups cfg) (nc_NodeInfoPrivacy cfg) (nc_NodeInfo cfg)
    (nc_PrometheusEnabled cfg) (nc_PrometheusListen cfg) (nc_Community cfg) (nc_CommunityMode cfg) (nc_AddressPrefix cfg) (nc_WebUI cfg).

(** [SummaryForConfig]: the key, the address and the subnet of a configuration,
    with the prefix that is in force. *)
Definition SummaryForConfig (prefix : byte) (readFile : string -> option (list byte)) (key b : list byte) :
    option (option (list byte * list byte * (list byte * list byte))) :=
  match GenerateConfig readFile key with
  | None => None
  | Some defaults =>
      match UnmarshalHJSON readFile b defaults with
      | None => None
      | Some (inl _) => Some None
      | Some (inr cfg) =>
          if negb (length (nc_PrivateKey cfg) =? 64)%nat then Some None
          else
            let public := arr_list (ed_public (array_of 64 (nc_PrivateKey cfg))) in
            Some (match core_Address prefix public, core_Subnet prefix public with
                  | Some a, Some s => Some (public, a, s)
                  | _, _ => None
                  end)
      end
  end.
End mobile.

(** ** Properties of the library for phones

    The node that is started has the peers, keys and the filter of its configuration,
    but not its community. *)

Section mobile.
Context `{GoStrings, MapOrder, ConfigLibs, !ConfigCodec, Json, Ed25519, Icmp} (to_json : jsonValue -> json) (url_Parse : string -> option url)
  (compiles : string -> bool).

(** Options that say nothing of the filter, the community and its mode. *)
Definition quiet (o : startOption) : Prop :=
  (forall f, set_filter f o = f) /\ (forall c, set_com c o = c) /\ (forall m, set_mode m o = m).

Lemma quiet_all l : Forall quiet l -> (forall f, fold_left set_filter l f = f) /\ (forall c, fold_left set_com l c = c) /\ (forall m, fold_left set_mode l m = m).
Proof.
  intros Hl. split_and!; intros a; apply fold_keep; eapply Forall_impl; try exact Hl; intros o (Hf & Hc & Hm); assumption.
Qed.

Lemma mobile_options_spec prefix cfg opts : mobile_options prefix cfg = Some opts ->
  (forall uri sintf, OptPeer uri sintf ∈ opts <-> (uri ∈ nc_Peers cfg /\ sintf = ""%string) \/ exists l, nc_InterfacePeers cfg !! sintf = Some l /\ uri ∈ l) /\
  (forall key, OptCore (AllowedPublicKey key) ∈ opts <-> exists s, s ∈ nc_AllowedPublicKeys cfg /\ hex_DecodeString s = Some key) /\
  fold_left set_filter opts None = Some (own_filter prefix) /\
  fold_left set_com opts [] = [] /\ fold_left set_mode opts CommunityModeStrict = CommunityModeStrict.
Proof.
  unfold mobile_options. destruct (allowed_options (nc_AllowedPublicKeys cfg)) as [allowed|] eqn:Ea; [|done]. apply (allowed_options_spec url_Parse compiles) in Ea as [Hf Hk]. intros [= <-].
  rewrite Forall_forall in Hf.
  assert (forall o, o ∈ map (fun uri => OptPeer uri "") (nc_Peers cfg) <-> exists uri, uri ∈ nc_Peers cfg /\ o = OptPeer uri "") as Hp by (intros o; rewrite list_elem_of_fmap; naive_solver).
  assert (forall o, o ∈ map OptListen (nc_Listen cfg) <-> exists a, a ∈ nc_Listen cfg /\ o = OptListen a) as Hl by (intros o; rewrite list_elem_of_fmap; naive_solver).
  set (l := map _ (nc_Peers cfg) ++ _).
  assert (Forall quiet l) as Hq%quiet_all.
  { apply Forall_forall. intros o. unfold l. rewrite !elem_of_app, Hp, interface_peers_spec, Hl.
    intros [(u & _ & ->)|[(i & u & l0 & _ & _ & ->)|[Hx|(a & _ & ->)]]]; try done. by destruct (Hf _ Hx) as [? ->]. }
  split_and!.
  - intros uri sintf. rewrite elem_of_cons. unfold l. rewrite !elem_of_app, Hp, interface_peers_spec, Hl. split.
    + intros [|[(u & Hu & E)|[(i & u & l0 & Hi & Hu & E)|[Hx|(a & _ & ?)]]]]; try done.
      * injection E as -> ->. by left.
      * injection E as -> ->. right. by exists l0.
      * by destruct (Hf _ Hx) as [? ?].
    + intros [[Hu ->]|(l0 & Hi & Hu)]; right; [left; by exists uri|right; left; by exists sintf, uri, l0].
  - intros key. rewrite elem_of_cons. unfold l. rewrite !elem_of_app, Hp, interface_peers_spec, Hl, <- Hk. split; [|by intros Hx; right; right; right; left].
    intros [|[(u & _ & ?)|[(i & u & l0 & _ & _ & ?)|[Hx|(a & _ & ?)]]]]; done.
  - apply Hq.
  - apply Hq.
  - apply Hq.
Qed.

(** A started node has exactly the peers and the allowed keys of its configuration,
    and its address; but whatever the configuration says of a community, the node is
    in none, and its mode is strict. *)
Theorem mobile_node readFile key now tls_ok opened resolved bound json m m' :
  StartJSON url_Parse compiles readFile key now tls_ok opened resolved bound json m = Some (None, m') ->
  exists cfg c k, yg_config m' = Some cfg /\ yg_core m' = Some c /\ yg_iprwc m' = Some k /\
    links_ok (cs_links c) /\
    (forall info, is_Some (ls_links (cs_links c) !! info) <-> exists uri sintf u,
       ((uri ∈ nc_Peers cfg /\ sintf = ""%string) \/ exists l, nc_InterfacePeers cfg !! sintf = Some l /\ uri ∈ l) /\ url_Parse uri = Some u /\ info = info_for u sintf) /\
    (forall k, k ∈ cc_allowedPublicKeys (cs_config c) <-> exists s key, s ∈ nc_AllowedPublicKeys cfg /\ hex_DecodeString s = Some key /\ k = array_of 32 key) /\
    cc_community (cs_config c) = [] /\ cc_communityMode (cs_config c) = CommunityModeStrict /\
    AddrForKey (yg_prefix m') (cc_public (cs_config c)) = Some (ks_address k).
Proof.
  unfold StartJSON. destruct (GenerateConfig _ key) as [defaults|]; [|done]. destruct (UnmarshalHJSON _ _ _) as [[e|cfg]|]; [done| |done].
  cbn [yg_prefix yg_core yg_iprwc yg_multicast yg_tun]. destruct (apply_prefix _ _) as [prefix|]; [|done].
  destruct (mobile_options prefix cfg) as [opts|] eqn:Eo; [|done]. apply mobile_options_spec in Eo as (Hpeers & Hkeys & _ & Hcom & Hmode).
  destruct (new_node_as_configured prefix url_Parse now (nc_Certificate cfg) tls_ok opened opts) as (r & -> & Hr). destruct r as [e|c]; [done|].
  destruct Hr as ([Hok Hexact _] & Hallowed & _ & Hc & Hm & _). cbv zeta.
  destruct (match nc_MulticastInterfaces cfg with [] => _ | _ => _ end) as [mc|]; [|done].
  destruct (keyStore_init prefix _) as [k|] eqn:Ek; [|done].
  destruct (SetMTU _ _ k) as [[[[] k'] es]|] eqn:Em; [|done]. intros [= <-]. exists cfg, c, k'. cbn [yg_config yg_core yg_iprwc yg_prefix].
  split_and!; [done|done|done|done| | |by rewrite Hc|by rewrite Hm|].
  - intros info. rewrite Hexact. setoid_rewrite Hpeers. naive_solver.
  - intros k0. rewrite (Hallowed k0). setoid_rewrite Hkeys. set_solver.
  - unfold keyStore_init in Ek. destruct (AddrForKey prefix _) as [a|]; [|done]. destruct (SubnetForKey prefix _); [|done]. injection Ek as <-.
    unfold SetMTU, act_modify in Em. cbn in Em. injection Em as <- _. done.
Qed.
End mobile.
