(* ===== verification/Genkeys.v ===== *)
(** * The programs that make keys

    [cmd/genkeys/main.go]: goroutines that make keys and send those that are better
    than what they had before, and the loop that prints the best of all.
    [contrib/ansible/genkeys.go]: the best keys of a number of tries, in an array
    that is sorted from the worst to the best. The pairs of keys are inputs. *)

From S2P Require Import Prelude Binary Address AddressBits AddressSafety.

(** A key is better when it is smaller; an index out of range panics. *)
Fixpoint isBetter (oldPub newPub : list byte) : option bool :=
  match oldPub, newPub with
  | [], _ => Some false
  | _ :: _, [] => None
  | o :: oldPub, n :: newPub =>
      if b2z n <? b2z o then Some true
      else if b2z o <? b2z n then Some false
      else isBetter oldPub newPub
  end.

(** ** [cmd/genkeys] *)

Record keySet := MkKeySet { ks_priv : list byte; ks_pub : list byte; ks_count : Z }.

(** The goroutine of [doKeys]; [gn_pending] is what it is sending. *)
Record generator := MkGenerator { gn_bestKey : list byte; gn_count : Z; gn_pending : option keySet }.
Definition generator_init : generator := MkGenerator (replicate 32 Byte.xff) 0 None.

(** One key. *)
Definition doKeys_round (pub priv : list byte) (w : generator) : option generator :=
  let count := u64 (gn_count w + 1) in
  match isBetter (gn_bestKey w) pub with
  | None => None
  | Some false => Some (MkGenerator (gn_bestKey w) count None)
  | Some true => Some (MkGenerator pub count (Some (MkKeySet priv pub count)))
  end.

(** The channel, the variables of [main], and what it has printed: the keys, with
    the number of keys tried. *)
Record genState := MkGenState {
  gs_workers : list generator; gs_newKeys : list keySet;
  gs_currentBest : list byte; gs_totalKeys : Z;
  gs_printed : list (list byte * list byte * Z)
}.

Definition genkeys_init (threads : nat) : genState := MkGenState (replicate threads generator_init) [] [] 0 [].

(** One round of the loop of [main], with the key it received. *)
Definition genkeys_main (newKey : keySet) (st : genState) : option genState :=
  match isBetter (gs_currentBest st) (ks_pub newKey) with
  | None => None
  | Some better =>
      Some (if better || (length (gs_currentBest st) =? 0)%nat then
        let totalKeys := u64 (gs_totalKeys st + ks_count newKey) in
        MkGenState (gs_workers st) (gs_newKeys st) (ks_pub newKey) totalKeys (gs_printed st ++ [(ks_priv newKey, ks_pub newKey, totalKeys)])
      else st)
  end.

(** A goroutine makes a key, or sends one when the channel has room; [main] takes
    one. What cannot happen changes nothing. *)
Inductive genEvent := GenMake (i : nat) (pub priv : list byte) | GenSend (i : nat) | GenReceive.

Definition genkeys_step (st : genState) (e : genEvent) : option genState :=
  match e with
  | GenMake i pub priv =>
      match gs_workers st !! i with
      | Some w =>
          match gn_pending w with
          | Some _ => Some st
          | None => (fun w => MkGenState (<[i := w]> (gs_workers st)) (gs_newKeys st) (gs_currentBest st) (gs_totalKeys st) (gs_printed st)) <$> doKeys_round pub priv w
          end
      | None => Some st
      end
  | GenSend i =>
      Some (match gs_workers st !! i with
      | Some w =>
          match gn_pending w with
          | Some k =>
              if (length (gs_newKeys st) <? length (gs_workers st))%nat then
                MkGenState (<[i := MkGenerator (gn_bestKey w) 0 None]> (gs_workers st)) (gs_newKeys st ++ [k]) (gs_currentBest st) (gs_totalKeys st) (gs_printed st)
              else st
          | None => st
          end
      | None => st
      end)
  | GenReceive =>
      match gs_newKeys st with
      | k :: newKeys => genkeys_main k (MkGenState (gs_workers st) newKeys (gs_currentBest st) (gs_totalKeys st) (gs_printed st))
      | [] => Some st
      end
  end.

Fixpoint genkeys_run (es : list genEvent) (st : genState) : option genState :=
  match es with
  | [] => Some st
  | e :: es => match genkeys_step st e with Some st => genkeys_run es st | None => None end
  end.

(** ** [contrib/ansible] *)

(** The loop of [bubbleUpTo], for [n] more positions from [i]. *)
Fixpoint bubble_loop (n i : nat) (sets : list keySet) : option (list keySet) :=
  match n with
  | O => Some sets
  | S n =>
      match sets !! i, sets !! S i with
      | Some a, Some b =>
          match isBetter (ks_pub b) (ks_pub a) with
          | None => None
          | Some true => bubble_loop n (S i) (<[S i := a]> (<[i := b]> sets))
          | Some false => Some sets
          end
      | _, _ => None
      end
  end.
Definition bubbleUpTo (sets : list keySet) (num : nat) : option (list keySet) := bubble_loop (length sets - num - 1) 0 sets.

Fixpoint sort_rounds (n i : nat) (sets : list keySet) : option (list keySet) :=
  match n with
  | O => Some sets
  | S n => match bubbleUpTo sets i with Some sets => sort_rounds n (S i) sets | None => None end
  end.
Definition sortKeySetArray (sets : list keySet) : option (list keySet) := sort_rounds (length sets) 0 sets.

(** The second loop of [main]: each new key takes the place of the first one. *)
Fixpoint select_keys (newKeys : list keySet) (keys : list keySet) : option (list keySet) :=
  match newKeys with
  | [] => Some keys
  | k :: newKeys =>
      match keys with
      | [] => None
      | _ :: rest => match bubbleUpTo (k :: rest) 0 with Some keys => select_keys newKeys keys | None => None end
      end
  end.

(** The keys of the files; [supply] are the keys that [newKey] makes. The outer
    option is a panic; without enough tries there are no files. *)
Definition ansible_main (numHosts keyTries : Z) (supply : list keySet) : option (option (list keySet)) :=
  if keyTries <? numHosts then Some None
  else
    let first := Z.to_nat (numHosts + 1) in
    let more := Z.to_nat (keyTries - numHosts - 1) in
    match sortKeySetArray (take first supply) with
    | None => None
    | Some keys =>
        match select_keys (take more (drop first supply)) keys with
        | None => None
        | Some keys => Some (Some (take (Z.to_nat numHosts) (drop 1 keys)))
        end
    end.

(** ** The keys that are made

    A better key is a smaller one, and its address is not lower than that of the
    one before ([isBetter] and [AddrForKey]); what [genkeys] has printed last is the
    best of all the keys it made; and when the keys of [ansible] are sorted, it
    keeps the best of them, but it does not always sort them. *)

(** ** The order of keys *)

(** ** The order of keys *)

Lemma be_val_cons b l : be_val (b :: l) = b2z b * 256 ^ Z.of_nat (length l) + be_val l.
Proof.
  assert (forall l acc, 0 <= acc -> be_val_from acc l = acc * 256 ^ Z.of_nat (length l) + be_val_from 0 l) as Hx.
  { clear. induction l as [|b l IH]; intros acc Ha; cbn [be_val_from length]; [cbn; lia|].
    rewrite !be_step by lia. pose proof (b2z_range b). rewrite IH, (IH (0 * 256 + b2z b)) by lia.
    rewrite Nat2Z.inj_succ, Z.pow_succ_r by lia. ring. }
  unfold be_val. cbn [be_val_from]. rewrite be_step by lia. pose proof (b2z_range b). by rewrite Hx by lia.
Qed.

Lemma isBetter_val l : forall k, length l = length k -> isBetter l k = Some (be_val k <? be_val l).
Proof.
  induction l as [|o l IH]; intros [|n k] Hl; try done. cbn [isBetter]. rewrite !be_val_cons.
  injection Hl as Hl. rewrite Hl. pose proof (be_val_range l) as Bl. pose proof (be_val_range k) as Bk. rewrite Hl in Bl.
  set (W := 256 ^ Z.of_nat (length k)) in *.
  destruct (Z.ltb_spec (b2z n) (b2z o)); [f_equal; symmetry; apply Z.ltb_lt; nia|].
  destruct (Z.ltb_spec (b2z o) (b2z n)); [f_equal; symmetry; apply Z.ltb_ge; nia|].
  rewrite IH by done. assert (b2z o = b2z n) as -> by lia. f_equal.
  destruct (Z.ltb_spec (be_val k) (be_val l)); symmetry; [apply Z.ltb_lt | apply Z.ltb_ge]; lia.
Qed.

Lemma be_val_inj l : forall k, length l = length k -> be_val l = be_val k -> l = k.
Proof.
  induction l as [|o l IH]; intros [|n k] Hl; try done. rewrite !be_val_cons. injection Hl as Hl. rewrite Hl. intros E.
  pose proof (be_val_range l) as Bl. pose proof (be_val_range k) as Bk. rewrite Hl in Bl.
  set (W := 256 ^ Z.of_nat (length k)) in *. assert (b2z o = b2z n) as Eb by nia.
  f_equal; [by apply b2z_inj|]. apply IH; [done|]. nia.
Qed.

(** The first bit in which two lists differ. *)
Definition differ_at (l k : list byte) (j : nat) : Prop :=
  (forall i, (i < j)%nat -> bit l i = bit k i) /\ bit l j = true /\ bit k j = false.

Definition byte_differ (b c : byte) : bool :=
  existsb (fun r => forallb (fun i => Bool.eqb (bit [b] i) (bit [c] i)) (seq 0 r) && bit [b] r && negb (bit [c] r)) (seq 0 8).

Lemma byte_differ_all : forallb (fun x => forallb (fun y => Bool.eqb (byte_differ (z2b x) (z2b y)) (y <? x)) (seqZ 0 256)) (seqZ 0 256) = true.
Proof. vm_compute. reflexivity. Qed.

Lemma byte_differ_spec b c : byte_differ b c = (b2z c <? b2z b).
Proof.
  pose proof byte_differ_all as Hx. rewrite forallb_forall in Hx.
  specialize (Hx (b2z b)). rewrite forallb_forall in Hx.
  apply eqb_true_iff. rewrite <- (z2b_b2z b) at 1. rewrite <- (z2b_b2z c) at 1.
  apply Hx; apply list_elem_of_In, elem_of_seqZ; [pose proof (b2z_range b) | pose proof (b2z_range c)]; lia.
Qed.

Lemma byte_differ_at b c : byte_differ b c = true <-> exists r, (r < 8)%nat /\ differ_at [b] [c] r.
Proof.
  unfold byte_differ. rewrite existsb_exists. split.
  - intros (r & Hr%in_seq & Hb). apply andb_true_iff in Hb as [[Hf Hb]%andb_true_iff Hc].
    exists r. split; [lia|]. split_and!; [|done|by destruct (bit [c] r)].
    intros i Hi. rewrite forallb_forall in Hf. apply eqb_true_iff, Hf, in_seq. lia.
  - intros (r & Hr & Hf & Hb & Hc). exists r. split; [apply in_seq; lia|]. rewrite Hb, Hc, !andb_true_r.
    apply forallb_forall. intros i Hi%in_seq. apply eqb_true_iff, Hf. lia.
Qed.

Lemma bit_cons b l j : bit (b :: l) j = if (j <? 8)%nat then bit [b] j else bit l (j - 8).
Proof. change (b :: l) with ([b] ++ l). rewrite bit_app. done. Qed.

Lemma differ_head b l c k j : (j < 8)%nat -> differ_at (b :: l) (c :: k) j <-> differ_at [b] [c] j.
Proof.
  intros Hj. unfold differ_at. rewrite (bit_cons b l j), (bit_cons c k j). destruct (Nat.ltb_spec j 8); [|lia].
  split; intros (Hf & Hb); (split; [|done]); intros i Hi; specialize (Hf i Hi); revert Hf; rewrite (bit_cons b l i), (bit_cons c k i);
    (destruct (Nat.ltb_spec i 8); [done|lia]).
Qed.

Lemma differ_tail b l c k j : (8 <= j)%nat -> differ_at (b :: l) (c :: k) j <-> b = c /\ differ_at l k (j - 8).
Proof.
  intros Hj. unfold differ_at. rewrite (bit_cons b l j), (bit_cons c k j). destruct (Nat.ltb_spec j 8); [lia|]. split.
  - intros (Hf & Hb). split_and!; [|intros i Hi|apply Hb|apply Hb].
    + assert ([b] = [c]) as E; [|by simplify_eq]. apply bit_ext; [done|]. intros i Hi. cbn in Hi.
      specialize (Hf i ltac:(lia)). revert Hf. rewrite (bit_cons b l i), (bit_cons c k i). destruct (Nat.ltb_spec i 8); [done|lia].
    + specialize (Hf (i + 8)%nat ltac:(lia)). revert Hf. rewrite (bit_cons b l (i + 8)), (bit_cons c k (i + 8)).
      destruct (Nat.ltb_spec (i + 8) 8); [lia|]. by replace (i + 8 - 8)%nat with i by lia.
  - intros (-> & Hf & Hb). split; [|done]. intros i Hi. rewrite (bit_cons c l i), (bit_cons c k i).
    destruct (Nat.ltb_spec i 8); [done|]. apply Hf. lia.
Qed.

Lemma differ_val l : forall k, length l = length k -> (be_val k < be_val l <-> exists j, differ_at l k j).
Proof.
  induction l as [|b l IH]; intros [|c k] Hl; try done.
  { split; [lia|]. intros (j & _ & Hb & _). by rewrite bit_beyond in Hb by (cbn; lia). }
  injection Hl as Hl. specialize (IH k Hl). rewrite !be_val_cons, Hl.
  pose proof (be_val_range l) as Bl. pose proof (be_val_range k) as Bk. rewrite Hl in Bl.
  set (W := 256 ^ Z.of_nat (length k)) in *. split.
  - intros Hlt. destruct (Z.lt_trichotomy (b2z c) (b2z b)) as [H|[H|H]].
    + assert (byte_differ b c = true) as Hd by (rewrite byte_differ_spec; by apply Z.ltb_lt).
      apply byte_differ_at in Hd as (r & Hr & Hd). exists r. by apply differ_head.
    + destruct (proj1 IH) as (j & Hj); [nia|]. exists (j + 8)%nat. apply differ_tail; [lia|].
      split; [symmetry; by apply b2z_inj|]. by replace (j + 8 - 8)%nat with j by lia.
    + nia.
  - intros (j & Hd). destruct (Nat.lt_ge_cases j 8) as [Hj|Hj].
    + rewrite differ_head in Hd by done. assert (byte_differ b c = true) as Hb by (apply byte_differ_at; eauto).
      rewrite byte_differ_spec in Hb. apply Z.ltb_lt in Hb. nia.
    + rewrite differ_tail in Hd by done. destruct Hd as [-> Hd]. assert (be_val k < be_val l) by (apply IH; eauto). nia.
Qed.

(** ** Addresses *)

Lemma leading_zeros_exists key : length key = 32%nat -> 0 < be_val key -> exists k, leading_zeros key k.
Proof.
  intros Hl Hk. assert (be_val (replicate 32 Byte.x00) = 0) as E0 by (vm_compute; reflexivity).
  destruct (proj1 (differ_val key (replicate 32 Byte.x00) Hl)) as (j & Hf & Hb & _); [lia|].
  assert (forall i, bit (replicate 32 Byte.x00) i = false) as Hz.
  { intros i. unfold bit, byte_at. destruct (replicate 32 Byte.x00 !! (i / 8)%nat) eqn:E; [|apply Z.testbit_0_l].
    apply lookup_replicate in E as [-> _]. apply Z.testbit_0_l. }
  exists j. split_and!; [|intros i Hi; by rewrite Hf|done].
  destruct (Nat.lt_ge_cases j 256); [done|]. by rewrite bit_beyond in Hb by lia.
Qed.

Lemma bit_tail r i : (i < 112)%nat -> bit (addr_tail r) i = (i <? 8 * (length r / 8))%nat && nth i r false.
Proof.
  intros Hi. destruct (Nat.ltb_spec i (8 * (length r / 8))); cbn [andb]; [by apply bit_addr_tail|].
  unfold addr_tail. rewrite bit_app, length_take, length_pack.
  destruct (Nat.ltb_spec i (8 * (14 `min` (length r / 8)))); [lia|].
  unfold bit, byte_at. destruct (replicate _ Byte.x00 !! _) eqn:E; [|apply Z.testbit_0_l].
  apply lookup_replicate in E as [-> _]. apply Z.testbit_0_l.
Qed.

Lemma tail_monotone r r' i : length r = length r' -> (forall n, (n < i)%nat -> nth n r false = nth n r' false) ->
  nth i r false = false -> nth i r' false = true -> be_val (addr_tail r) <= be_val (addr_tail r').
Proof.
  intros Hl Hf H0 H1. destruct (decide (i < 112 /\ i < 8 * (length r / 8))%nat) as [[Hi Hi']|Hn].
  - apply Z.lt_le_incl, differ_val; [by rewrite !length_addr_tail|]. exists i. split_and!.
    + intros n Hn. rewrite !bit_tail, Hl, Hf by lia. done.
    + rewrite bit_tail, <- Hl, H1 by lia. by destruct (Nat.ltb_spec i (8 * (length r / 8))); [|lia].
    + rewrite bit_tail, H0 by lia. apply andb_false_r.
  - assert (addr_tail r = addr_tail r') as ->; [|done]. apply bit_ext; [by rewrite !length_addr_tail|].
    rewrite length_addr_tail. intros n Hn'. rewrite !bit_tail, Hl by lia.
    destruct (Nat.ltb_spec n (8 * (length r' / 8))); cbn [andb]; [|done]. apply Hf. rewrite Hl in Hn. lia.
Qed.

Lemma nth_bits key k n : (n < 255 - k)%nat -> nth n (map (fun j => negb (bit key j)) (seq (S k) (255 - k))) false = negb (bit key (S k + n)).
Proof.
  intros Hn. rewrite (nth_indep _ false (negb (bit key 0))) by (by rewrite length_map, length_seq).
  rewrite (map_nth (fun j => negb (bit key j))). by rewrite seq_nth.
Qed.

(** A key that is better has an address that is not lower. *)
Lemma address_monotone prefix old new a a' : length old = 32%nat -> length new = 32%nat -> new <> replicate 32 Byte.x00 ->
  be_val new < be_val old -> AddrForKey prefix old = Some a -> AddrForKey prefix new = Some a' ->
  be_val (arr_list a) <= be_val (arr_list a').
Proof.
  intros Lo Ln Hz Hlt Ha Ha'. pose proof (be_val_range new) as Rn.
  assert (0 < be_val new) as Hn.
  { destruct (decide (be_val new = 0)) as [E|]; [|lia]. destruct Hz. apply be_val_inj; [by rewrite Ln|]. rewrite E. vm_compute. reflexivity. }
  destruct (leading_zeros_exists old Lo ltac:(lia)) as (ko & Zo), (leading_zeros_exists new Ln Hn) as (kn & Zn).
  destruct (AddrForKey_eq prefix old ko Lo Zo) as (b & Eb & ->%(eq_trans (f_equal arr_list (Some_inj _ _ (eq_trans (eq_sym Ha) Eb))))).
  destruct (AddrForKey_eq prefix new kn Ln Zn) as (b' & Eb' & ->%(eq_trans (f_equal arr_list (Some_inj _ _ (eq_trans (eq_sym Ha') Eb'))))).
  destruct (proj1 (differ_val old new ltac:(congruence)) Hlt) as (j & Hf & Hj & Hj').
  destruct Zo as (Ko & Zo & Oo), Zn as (Kn & Zn & On).
  rewrite !be_val_cons. cbn [length]. rewrite !length_addr_tail.
  assert (ko <= j)%nat as Hkj by (destruct (Nat.lt_ge_cases j ko) as [H|]; [by rewrite Zo in Hj by done|done]).
  destruct (decide (ko = j)) as [->|Hne].
  - assert (j < kn)%nat as Hk.
    { destruct (Nat.lt_trichotomy kn j) as [H|[->|H]]; [|congruence|done]. rewrite <- Hf in On by done. by rewrite Zo in On by done. }
    match goal with |- _ + (_ + be_val ?l) <= _ + (_ + be_val ?l') => pose proof (be_val_range l) as B; pose proof (be_val_range l') as B' end.
    rewrite length_addr_tail in B, B'. rewrite !b2z_z2b_small by lia. nia.
  - assert (kn = ko) as ->.
    { destruct (Nat.lt_trichotomy kn ko) as [H|[->|H]]; [|done|].
      - rewrite <- Hf in On by lia. by rewrite Zo in On.
      - rewrite Hf in Oo by lia. by rewrite Zn in Oo. }
    apply Z.add_le_mono_l, Z.add_le_mono_l.
    assert (j < 256)%nat as Hb by (destruct (Nat.lt_ge_cases j 256); [done|]; by rewrite bit_beyond in Hj by lia).
    apply (tail_monotone _ _ (j - S ko)).
    + by rewrite !length_map, !length_seq.
    + intros n Hn'. rewrite !nth_bits by lia. by rewrite Hf by lia.
    + rewrite nth_bits by lia. replace (S ko + (j - S ko))%nat with j by lia. by rewrite Hj.
    + rewrite nth_bits by lia. replace (S ko + (j - S ko))%nat with j by lia. by rewrite Hj'.
Qed.

(** ** [cmd/genkeys] *)

(** The keys that are made when the events run from [st]. *)
Definition made_now (st : genState) (e : genEvent) : list (list byte) :=
  match e with
  | GenMake i pub _ => match gs_workers st !! i with Some w => match gn_pending w with None => [pub] | Some _ => [] end | None => [] end
  | _ => []
  end.
Fixpoint genkeys_made (es : list genEvent) (st : genState) : list (list byte) :=
  match es with
  | [] => []
  | e :: es => made_now st e ++ match genkeys_step st e with Some st => genkeys_made es st | None => [] end
  end.

(** Pairs of keys have the length of keys. *)
Definition gen_event_ok (e : genEvent) : Prop := match e with GenMake _ pub _ => length pub = 32%nat | _ => True end.

(** Nothing that was found is still on its way. *)
Definition genkeys_settled (st : genState) : Prop :=
  gs_newKeys st = [] /\ forall i w, gs_workers st !! i = Some w -> gn_pending w = None.

Definition printed_keys (st : genState) : list (list byte) := map (fun x => x.1.2) (gs_printed st).

(** Where the best key of a goroutine is. *)
Definition known_best (st : genState) (w : generator) : Prop :=
  gn_bestKey w = replicate 32 Byte.xff \/
  (exists k, gn_pending w = Some k /\ ks_pub k = gn_bestKey w) \/
  (exists k, k ∈ gs_newKeys st /\ ks_pub k = gn_bestKey w) \/
  (gs_currentBest st <> [] /\ be_val (gs_currentBest st) <= be_val (gn_bestKey w)).

Record genkeys_inv (made : list (list byte)) (st : genState) : Prop := {
  gi_worker : forall i w, gs_workers st !! i = Some w -> length (gn_bestKey w) = 32%nat /\ known_best st w /\
    forall k, gn_pending w = Some k -> length (ks_pub k) = 32%nat;
  gi_chan : forall k, k ∈ gs_newKeys st -> length (ks_pub k) = 32%nat;
  gi_best : default [] (last (printed_keys st)) = gs_currentBest st;
  gi_length : Forall (fun p => length p = 32%nat) (printed_keys st);
  gi_improves : StronglySorted (fun p q => be_val q < be_val p) (printed_keys st);
  gi_made : forall p, p ∈ made -> length p = 32%nat /\ exists i w, gs_workers st !! i = Some w /\ be_val (gn_bestKey w) <= be_val p
}.

Lemma genkeys_init_inv threads : genkeys_inv [] (genkeys_init threads).
Proof.
  split; cbn; try done; try (by intros ? ?%elem_of_nil); try by constructor.
  intros i w [-> _]%lookup_replicate. split_and!; [done|by left|done].
Qed.

Lemma best_length made st : genkeys_inv made st -> gs_currentBest st = [] \/ length (gs_currentBest st) = 32%nat.
Proof.
  intros I. rewrite <- (gi_best _ _ I). destruct (last (printed_keys st)) as [p|] eqn:E; [right|by left].
  pose proof (gi_length _ _ I) as Hl. rewrite Forall_forall in Hl. by apply Hl, last_Some_elem_of.
Qed.

Lemma genkeys_make_inv made st i pub priv w : genkeys_inv made st -> length pub = 32%nat -> gs_workers st !! i = Some w -> gn_pending w = None ->
  exists w', doKeys_round pub priv w = Some w' /\
    genkeys_inv (made ++ [pub]) (MkGenState (<[i := w']> (gs_workers st)) (gs_newKeys st) (gs_currentBest st) (gs_totalKeys st) (gs_printed st)).
Proof.
  intros I Hl Hw Hp. destruct (gi_worker _ _ I i w Hw) as (Lw & Kw & _).
  unfold doKeys_round. rewrite isBetter_val by congruence.
  assert (i < length (gs_workers st))%nat as Hi by (by eapply lookup_lt_Some).
  set (better := be_val pub <? be_val (gn_bestKey w)).
  exists (if better then MkGenerator pub (u64 (gn_count w + 1)) (Some (MkKeySet priv pub (u64 (gn_count w + 1)))) else MkGenerator (gn_bestKey w) (u64 (gn_count w + 1)) None).
  split; [by destruct better|]. split; cbn -[be_val]; [|apply I..|].
  - intros j v Hv. apply list_lookup_insert_Some in Hv as [(-> & <- & _)|[Hj Hv]]; [|by apply (gi_worker _ _ I j)].
    destruct better; cbn; (split_and!; [done| |by intros k [= <-]]).
    + right. left. eauto.
    + destruct Kw as [?|[(k & E & _)|[?|?]]]; [by left|congruence|by do 2 right; left|by do 3 right].
  - intros p [Hm| ->%list_elem_of_singleton]%elem_of_app.
    + destruct (gi_made _ _ I p Hm) as (Lp & j & v & Ev & Hv). split; [done|]. destruct (decide (j = i)) as [->|Hj].
      * exists i. rewrite list_lookup_insert_eq by done. eexists. split; [done|]. simplify_eq.
        unfold better. destruct (Z.ltb_spec (be_val pub) (be_val (gn_bestKey w))); cbn [gn_bestKey]; lia.
      * exists j, v. by rewrite list_lookup_insert_ne by done.
    + split; [done|]. exists i. rewrite list_lookup_insert_eq by done. eexists. split; [done|].
      unfold better. destruct (Z.ltb_spec (be_val pub) (be_val (gn_bestKey w))); cbn [gn_bestKey]; lia.
Qed.

Lemma genkeys_send_inv made st i w k : genkeys_inv made st -> gs_workers st !! i = Some w -> gn_pending w = Some k ->
  genkeys_inv made (MkGenState (<[i := MkGenerator (gn_bestKey w) 0 None]> (gs_workers st)) (gs_newKeys st ++ [k]) (gs_currentBest st) (gs_totalKeys st) (gs_printed st)).
Proof.
  intros I Hw Hp. destruct (gi_worker _ _ I i w Hw) as (Lw & Kw & Lp).
  assert (i < length (gs_workers st))%nat as Hi by (by eapply lookup_lt_Some).
  assert (forall v, known_best st v -> gn_pending v = None \/ v = w ->
    known_best (MkGenState (<[i := MkGenerator (gn_bestKey w) 0 None]> (gs_workers st)) (gs_newKeys st ++ [k]) (gs_currentBest st) (gs_totalKeys st) (gs_printed st))
      (MkGenerator (gn_bestKey v) 0 None)) as Hk.
  { intros v Kv Hv. unfold known_best in *. cbn.
    destruct Kv as [?|[(k' & E & ?)|[(k' & ? & ?)|?]]]; [by left| | |by do 3 right]; do 2 right; left.
    - destruct Hv as [Hv | ->]; [congruence|]. simplify_eq. exists k. split; [set_solver|done].
    - exists k'. split; [set_solver|done]. }
  split; cbn -[be_val]; [| |apply I..|].
  - intros j v Hv. apply list_lookup_insert_Some in Hv as [(-> & <- & _)|[Hj Hv]]; [split_and!; [done|by apply Hk; [|right]|done]|].
    destruct (gi_worker _ _ I j v Hv) as (Lv & Kv & Pv). split_and!; [done| |done].
    destruct Kv as [?|[?|[(k' & ? & ?)|?]]]; [by left|by right; left| |by do 3 right].
    do 2 right; left. exists k'. cbn. split; [set_solver|done].
  - intros k' [Hk'| ->%list_elem_of_singleton]%elem_of_app; [by apply (gi_chan _ _ I)|by apply Lp].
  - intros p Hm. destruct (gi_made _ _ I p Hm) as (Lp' & j & v & Ev & Hv). split; [done|]. destruct (decide (j = i)) as [->|Hj].
    + exists i. rewrite list_lookup_insert_eq by done. eexists. split; [done|]. by simplify_eq.
    + exists j, v. by rewrite list_lookup_insert_ne by done.
Qed.

(** A key that is no better leaves what is printed; a better one is printed. *)
Lemma genkeys_main_val st k : gs_currentBest st = [] \/ length (gs_currentBest st) = 32%nat -> length (ks_pub k) = 32%nat ->
  exists st', genkeys_main k st = Some st' /\ gs_workers st' = gs_workers st /\ gs_newKeys st' = gs_newKeys st /\
    ((gs_currentBest st' = gs_currentBest st /\ printed_keys st' = printed_keys st /\ gs_currentBest st <> [] /\ be_val (gs_currentBest st) <= be_val (ks_pub k)) \/
     (gs_currentBest st' = ks_pub k /\ printed_keys st' = printed_keys st ++ [ks_pub k] /\ (gs_currentBest st <> [] -> be_val (ks_pub k) < be_val (gs_currentBest st)))).
Proof.
  intros Hb Hl. unfold genkeys_main.
  destruct Hb as [E|E].
  - rewrite E. cbn [isBetter length Nat.eqb orb]. eexists. split_and!; [done|done|done|right].
    unfold printed_keys. cbn [gs_currentBest gs_printed]. by rewrite map_app.
  - rewrite isBetter_val by congruence. rewrite E. cbn [Nat.eqb]. rewrite orb_false_r.
    destruct (Z.ltb_spec (be_val (ks_pub k)) (be_val (gs_currentBest st))); eexists; (split_and!; [done|done|done|]).
    + right. unfold printed_keys. cbn [gs_currentBest gs_printed]. by rewrite map_app.
    + left. split_and!; [done|done| |done]. intros E0. by rewrite E0 in E.
Qed.

Lemma genkeys_receive_inv made st k rest : genkeys_inv made st -> gs_newKeys st = k :: rest ->
  exists st', genkeys_step st GenReceive = Some st' /\ genkeys_inv made st'.
Proof.
  intros I E. unfold genkeys_step. rewrite E. pose proof (gi_chan _ _ I k ltac:(rewrite E; left)) as Lk.
  set (st0 := MkGenState _ rest _ _ _).
  destruct (genkeys_main_val st0 k (best_length _ _ I) Lk) as (st' & -> & Ew & En & Hc). exists st'. split; [done|].
  change (gs_workers st0) with (gs_workers st) in Ew. change (gs_newKeys st0) with rest in En.
  change (gs_currentBest st0) with (gs_currentBest st) in Hc. change (printed_keys st0) with (printed_keys st) in Hc.
  assert (gs_currentBest st' <> [] /\ be_val (gs_currentBest st') <= be_val (ks_pub k) /\
    (gs_currentBest st <> [] -> be_val (gs_currentBest st') <= be_val (gs_currentBest st))) as (Hne & Hk & Hold).
  { destruct Hc as [(-> & _ & ? & ?)|(-> & _ & Hc)]; split_and!; try done.
    - intros E0. by rewrite E0 in Lk.
    - intros H. specialize (Hc H). lia. }
  split.
  - intros i w Hw. rewrite Ew in Hw. destruct (gi_worker _ _ I i w Hw) as (Lw & Kw & Pw). split_and!; [done| |done].
    destruct Kw as [?|[?|[(k' & Hk' & Ek)|(? & ?)]]]; [by left|by right; left| |].
    + rewrite E in Hk'. apply elem_of_cons in Hk' as [->|Hk'].
      * do 3 right. by rewrite <- Ek.
      * do 2 right; left. rewrite En. eauto.
    + do 3 right. split; [done|]. specialize (Hold ltac:(done)). lia.
  - intros k' Hk'. apply (gi_chan _ _ I). rewrite En in Hk'. rewrite E. by right.
  - destruct Hc as [(-> & -> & _)|(-> & -> & _)]; [apply I|by rewrite last_snoc].
  - destruct Hc as [(_ & -> & _)|(_ & -> & _)]; [apply I|]. apply Forall_app. split; [apply I|by constructor].
  - destruct Hc as [(_ & -> & _)|(_ & -> & Hc)]; [apply I|].
    apply StronglySorted_app_2; [|apply I|by repeat constructor].
    intros p q Hp ->%list_elem_of_singleton.
    assert (gs_currentBest st <> [] /\ be_val (gs_currentBest st) <= be_val p) as [H ?]; [|specialize (Hc H); lia].
    pose proof (gi_best _ _ I) as Eb. pose proof (gi_improves _ _ I) as Hs. pose proof (gi_length _ _ I) as Hl. revert Hp Eb Hs Hl. clear.
    destruct (printed_keys st) as [|x l _] eqn:Ep using rev_ind; [by intros ?%elem_of_nil|]. rewrite last_snoc. cbn [default].
    intros Hp Eb Hs Hl. rewrite <- Eb. unfold id. apply Forall_app in Hl as [_ Hx]. apply Forall_cons in Hx as [Hx _]. split; [by intros -> |].
    apply elem_of_app in Hp as [Hp| ->%list_elem_of_singleton]; [|done].
    apply Z.lt_le_incl, (StronglySorted_app_1_elem_of _ _ _ p x Hs); [done|by left].
  - intros p Hp. rewrite Ew. by apply (gi_made _ _ I).
Qed.

Lemma genkeys_step_inv made st e : genkeys_inv made st -> gen_event_ok e ->
  exists st', genkeys_step st e = Some st' /\ genkeys_inv (made ++ made_now st e) st'.
Proof.
  intros I He. destruct e as [i pub priv|i|].
  - unfold genkeys_step. cbn [made_now]. destruct (gs_workers st !! i) as [w|] eqn:Ew; [|exists st; by rewrite app_nil_r].
    destruct (gn_pending w) eqn:Ep; [exists st; by rewrite app_nil_r|].
    destruct (genkeys_make_inv made st i pub priv w I He Ew Ep) as (w' & -> & I'). by eexists.
  - cbn [made_now]. rewrite app_nil_r. unfold genkeys_step. eexists. split; [done|].
    destruct (gs_workers st !! i) as [w|] eqn:Ew; [|done]. destruct (gn_pending w) eqn:Ep; [|done].
    destruct (_ <? _)%nat; [|done]. by apply genkeys_send_inv.
  - cbn [made_now]. rewrite app_nil_r. destruct (gs_newKeys st) as [|k rest] eqn:E.
    + exists st. unfold genkeys_step. by rewrite E.
    + by eapply genkeys_receive_inv.
Qed.

Lemma genkeys_run_inv es : forall made st, genkeys_inv made st -> Forall gen_event_ok es ->
  exists st', genkeys_run es st = Some st' /\ genkeys_inv (made ++ genkeys_made es st) st'.
Proof.
  induction es as [|e es IH]; intros made st I Hes; cbn [genkeys_run genkeys_made].
  - exists st. by rewrite app_nil_r.
  - apply Forall_cons in Hes as [He Hes]. destruct (genkeys_step_inv made st e I He) as (st' & -> & I').
    destruct (IH _ _ I' Hes) as (st'' & -> & I''). exists st''. by rewrite app_assoc.
Qed.

(** What [genkeys] prints: it never panics, each key it prints is better than the
    ones before, and once nothing is on its way any more the last one is the best of
    all keys that were made, with the highest address. *)
Theorem genkeys_finds_best prefix threads es : Forall gen_event_ok es ->
  exists st, genkeys_run es (genkeys_init threads) = Some st /\
    StronglySorted (fun p q => isBetter p q = Some true) (printed_keys st) /\
    (genkeys_settled st -> printed_keys st <> [] -> exists best, last (printed_keys st) = Some best /\
      forall p, p ∈ genkeys_made es (genkeys_init threads) -> isBetter best p = Some false /\
        forall a a', best <> replicate 32 Byte.x00 -> AddrForKey prefix p = Some a -> AddrForKey prefix best = Some a' ->
          be_val (arr_list a) <= be_val (arr_list a')).
Proof.
  intros Hes. destruct (genkeys_run_inv es [] _ (genkeys_init_inv threads) Hes) as (st & Er & I). exists st. split; [done|]. split.
  - pose proof (gi_improves _ _ I) as Hs. pose proof (gi_length _ _ I) as Hl. revert Hs Hl. generalize (printed_keys st). clear.
    induction 1 as [|p l Hs IH Hp]; intros Hl; [constructor|]. apply Forall_cons in Hl as [Lp Hl]. constructor; [by apply IH|].
    rewrite Forall_forall in Hp, Hl |- *. intros q Hq. rewrite isBetter_val by (rewrite Lp; symmetry; by apply Hl).
    f_equal. by apply Z.ltb_lt, Hp.
  - intros [Hn Hp] Hne. pose proof (gi_best _ _ I) as Eb. destruct (last (printed_keys st)) as [best|] eqn:El; [|by apply last_None in El].
    cbn [default] in Eb. unfold id in Eb. exists best. split; [done|]. intros p Hm.
    destruct (gi_made _ _ I p Hm) as (Lp & i & w & Hw & Hle).
    assert (length best = 32%nat) as Lb.
    { pose proof (gi_length _ _ I) as Hl. rewrite Forall_forall in Hl. by apply Hl, last_Some_elem_of. }
    assert (be_val best <= be_val p) as Hb.
    { destruct (gi_worker _ _ I i w Hw) as (Lw & [E|[(k & Ek & _)|[(k & Hk & _)|[_ H]]]] & _).
      - pose proof (be_val_range best) as R. rewrite Lb in R. rewrite E in Hle.
        assert (be_val (replicate 32 Byte.xff) = 256 ^ Z.of_nat 32 - 1) as F by (vm_compute; reflexivity). lia.
      - rewrite (Hp i w Hw) in Ek. done.
      - rewrite Hn in Hk. by apply elem_of_nil in Hk.
      - rewrite <- Eb in H. lia. }
    split; [rewrite isBetter_val by congruence; f_equal; by apply Z.ltb_ge|].
    intros a a' Hz Ha Ha'. destruct (decide (be_val best = be_val p)) as [E|].
    + apply be_val_inj in E as ->; [|congruence]. by simplify_eq.
    + apply (address_monotone prefix p best); try done. lia.
Qed.

(** The number that is printed leaves out the keys of goroutines whose finds were
    not the best: three keys were made here, two are counted. *)
Definition byte_key (b : byte) : list byte := b :: replicate 31 Byte.x00.
Definition undercount_events : list genEvent :=
  [GenMake 0 (byte_key Byte.x05) []; GenMake 1 (byte_key Byte.x09) []; GenSend 0; GenSend 1; GenReceive; GenReceive;
   GenMake 1 (byte_key Byte.x03) []; GenSend 1; GenReceive].
Lemma total_leaves_out_keys : (fun st => (gs_totalKeys st, length (genkeys_made undercount_events (genkeys_init 2)))) <$>
  genkeys_run undercount_events (genkeys_init 2) = Some (2, 3%nat).
Proof. vm_compute. reflexivity. Qed.

(** ** [contrib/ansible] *)

Definition worse (a b : keySet) : Prop := be_val (ks_pub b) <= be_val (ks_pub a).
Definition key_sized (k : keySet) : Prop := length (ks_pub k) = 32%nat.

(** What the loop makes of an array whose first key is new. *)
Fixpoint rise (x : keySet) (l : list keySet) : list keySet :=
  match l with
  | [] => [x]
  | y :: l' => if be_val (ks_pub x) <? be_val (ks_pub y) then y :: rise x l' else x :: l
  end.

Lemma rise_perm x l : rise x l ≡ₚ x :: l.
Proof. induction l as [|y l IH]; [done|]. cbn [rise]. destruct (_ <? _); [|done]. rewrite IH. constructor. Qed.

Lemma rise_sorted x l : StronglySorted worse l -> StronglySorted worse (rise x l).
Proof.
  induction 1 as [|y l Hs IH Hy]; cbn [rise]; [by repeat constructor|].
  destruct (Z.ltb_spec (be_val (ks_pub x)) (be_val (ks_pub y))).
  - constructor; [done|]. rewrite rise_perm. constructor; [unfold worse; lia|done].
  - constructor; [by constructor|]. constructor; [done|]. eapply Forall_impl; [exact Hy|]. unfold worse. intros z Hz. lia.
Qed.

Lemma bubble_rise l : forall pre x, key_sized x -> Forall key_sized l ->
  bubble_loop (length l) (length pre) (pre ++ x :: l) = Some (pre ++ rise x l).
Proof.
  induction l as [|y l IH]; intros pre x Hx Hl; [done|]. apply Forall_cons in Hl as [Hy Hl]. cbn [length bubble_loop rise].
  rewrite list_lookup_middle by done. rewrite lookup_app_r by lia. replace (S (length pre) - length pre)%nat with 1%nat by lia. cbn [lookup list_lookup].
  rewrite isBetter_val by (unfold key_sized in *; congruence). destruct (_ <? _); [|done].
  rewrite insert_app_r_alt by lia. rewrite Nat.sub_diag. cbn [insert list_insert].
  rewrite insert_app_r_alt by lia. replace (S (length pre) - length pre)%nat with 1%nat by lia. cbn [insert list_insert].
  specialize (IH (pre ++ [y]) x Hx Hl). rewrite length_app, Nat.add_1_r, <- !app_assoc in IH. exact IH.
Qed.

(** From keys in order, the loop keeps the best: whatever it drops is no better
    than any key of the files, which are all but the first. *)
Lemma select_keeps_best newKeys : forall keys dropped, keys <> [] -> Forall key_sized keys -> Forall key_sized newKeys -> StronglySorted worse keys ->
  (forall e d, e ∈ drop 1 keys -> d ∈ dropped -> worse d e) ->
  exists keys' dropped', select_keys newKeys keys = Some keys' /\ length keys' = length keys /\
    keys' ++ dropped' ≡ₚ newKeys ++ keys ++ dropped /\ StronglySorted worse keys' /\ (forall e d, e ∈ drop 1 keys' -> d ∈ dropped' -> worse d e).
Proof.
  induction newKeys as [|k newKeys IH]; intros keys dropped Hne Hl Hn Hs Hd; [by exists keys, dropped|].
  destruct keys as [|d0 rest]; [done|]. apply Forall_cons in Hl as [_ Hl]. apply Forall_cons in Hn as [Hk Hn].
  apply StronglySorted_inv in Hs as [Hs H0]. rewrite Forall_forall in H0. cbn [select_keys]. unfold bubbleUpTo. cbn [length Nat.sub].
  rewrite Nat.sub_0_r. pose proof (bubble_rise rest [] k Hk Hl) as Eb. cbn [length app] in Eb. rewrite Eb.
  destruct (IH (rise k rest) (d0 :: dropped)) as (keys' & dropped' & E & Ln & P & S' & D').
  - destruct rest as [|y rest]; [done|]. cbn [rise]. by destruct (_ <? _).
  - rewrite rise_perm. by constructor.
  - done.
  - by apply rise_sorted.
  - assert (forall e d, e ∈ rest -> d ∈ d0 :: dropped -> worse d e) as Hr.
    { intros e d He [->|Hdr]%elem_of_cons; [by apply H0|by apply Hd]. }
    pose proof (rise_sorted k rest Hs) as Rs. destruct rest as [|y rest]; cbn [rise] in *; [by intros ? ? ?%elem_of_nil|].
    destruct (_ <? _); cbn [drop]; [|by intros e d He; apply Hr]. intros e d He Hdd.
    apply StronglySorted_inv in Rs as [_ Rs]. rewrite Forall_forall in Rs. specialize (Rs e He).
    specialize (Hr y d ltac:(left) Hdd). unfold worse in *. lia.
  - exists keys', dropped'. split_and!; [done| | |done|done].
    + rewrite Ln, rise_perm. done.
    + rewrite P, rise_perm. solve_Permutation.
Qed.

(** But the keys are not always in order after [sortKeySetArray]: of four keys the
    third best is kept for the second host instead of the second. *)
Definition set_of (b : byte) : keySet := MkKeySet [] (byte_key b) 0.
Theorem ansible_misses_best : ansible_main 2 4 [set_of Byte.x09; set_of Byte.x03; set_of Byte.x05; set_of Byte.x04] =
  Some (Some [set_of Byte.x03; set_of Byte.x05]).
Proof. vm_compute. reflexivity. Qed.
